(* ===== verification/_CoqProject ===== *)
-Q . S2P
XetServer.v
Prelude.v
Bytes.v
Crates.v
MerkleHash.v
Hash.v
Cdc.v
Compression.v
Xorb.v
XorbBuilder.v
Shard.v
ShardBuilder.v
ReconPlan.v
Text.v
Url.v
Config.v
Routing.v
Storage.v
Index.v
ShardIo.v
ObjectStore.v
FileSystem.v
LocalStorage.v
LocalListing.v
S3Storage.v
S3Backend.v
ShardValidation.v
Rebuild.v
Reconstruction.v
Quota.v
RateLimit.v
TokenCrates.v
Tokens.v
CasAuth.v
HubSigner.v
Scheduler.v
Operations.v
Conversion.v
Converted.v
Payload.v
CasConfig.v
CasApi.v
CasServer.v
CasSafety.v
Restart.v
Metrics.v
CasStart.v
CasWeb.v
HubConfig.v
HubMigrations.v
HubMetadata.v
HubHistory.v
HubTree.v
HubPrograms.v
HubCommit.v
HubRepos.v
HubTokens.v
HubLfs.v
HubBatch.v
HubStore.v
HubContracts.v
HubSystem.v
HubSafety.v
HubApi.v
HubRoutes.v
HubWeb.v
HubStart.v
Deployment.v
Backing.v
