(* ===== verification/XetServer.v ===== *)
(** * Verification of xet-server

    xet-server is two services.  The CAS server (src/src) stores deduplicated
    content: files are cut into chunks, chunks are packed into xorbs, and shards
    say which chunks make up which file.  The Hub (src/hub) keeps repositories,
    commits and file trees in a SQL database, knows the users and their tokens,
    and sends content to the CAS server with tokens it signs
    (src/xet-auth-types); both charge temporary files to the ledger of
    src/xet-common.  This library models both and proves what makes them
    correct.  A definition reads like the code it models and has its name where
    that is free; PROJECT.json maps each one to its lines.

    ** Conventions

    - [Prelude]: a fallible function returns an [outcome]: [Ok], [Err], or
      [Panic] for a panic of the code; [let*], [ensure b else e in k] are its
      notations.  A machine integer is a [Z]; additions are [checked_add] where
      the code checks, [as_u64], [as_u32] where it casts or wraps.  Bytes are
      [list byte] ([Bytes]), a str is the [string] of its UTF-8 bytes ([Text]).
    - Third-party crates are classes of operations with, apart, the documented
      laws the program relies on and a small model that satisfies them, with
      which the theorems are run on concrete inputs: [Crates] (hex, blake3, sha2,
      lz4_flex, gearhash, reads of a file), [TokenCrates] (base64, serde_json on
      tokens, ed25519_dalek, PEM files), [HubTokens] (hmac), [Url] (url),
      [RateLimit] (governor), [HubBatch] (serde_json), [S3Storage] (the S3
      service), [CasStart] (the limit of tokio's channels).
      No law says that a hash has no collisions; theorems about hashes exhibit
      the collision instead.
    - The outside world is arbitrary: which calls of the file system fail and
      how short a read is ([FileSystem], [Payload]), what a storage backend
      answers between two attempts ([Storage]), which SQL statements fail
      ([HubMetadata]), what the CAS server answers to the Hub ([HubPrograms]).
      A theorem with such an argument holds for every behaviour of it.
    - Messages of errors are their literal text without interpolated values,
      but where a theorem is about them; logging is left out.

    ** The CAS server

    - Hashing: [MerkleHash] (src/src/types/merkle_hash.rs), [Hash]
      (src/src/hash, src/src/util/streaming_hash.rs): the 256-bit hash, the keyed
      hashes and the aggregated hash of a list of chunks, whose equality means
      equal lists or an explicit collision.
    - Chunking and compression: [Cdc] (src/src/chunking/cdc.rs), [Compression]
      (src/src/format/compression.rs): the streaming chunker is the one-shot one
      for every division of the input; every scheme is undone by decompression.
    - Binary formats: [Xorb], [XorbBuilder] (src/src/format/xorb.rs,
      xorb_builder.rs, src/src/xorb_reader.rs), [Shard], [ShardBuilder]
      (src/src/format/shard.rs, shard_builder.rs).  Each parser is characterised
      by a layout: it accepts a file exactly when the file is the layout of
      well-formed records, accounts for every byte and does not panic; what a
      builder builds is parsed back to what it was given.
    - Files: [ReconPlan] (src/src/reconstruction_plan.rs), [Reconstruction]
      (src/src/reconstruction_io.rs), [ShardValidation]
      (src/src/shard_validation.rs), [ShardIo] (src/src/shard_io.rs), [Index] and
      [Rebuild] (src/src/index.rs).  The planner implements a specification of
      which chunks a range needs; a shard that passes validation is true of the
      storage; the index is the view of the log of accepted registrations, also
      when it is rebuilt by concurrent tasks; a registered file can be
      downloaded, and what is delivered has the hash that was asked for.
    - Storage: [Storage] (retries), [ObjectStore] (the contract of a backend as
      a class of operations with laws), [FileSystem] and [LocalStorage]
      (src/src/storage/local.rs), which implements the contract, stays below its
      root whatever links there are, and reads back what was put;
      [LocalListing], its listing, which misses nothing; [Restart], the rebuild
      of the index from that listing, after which every stored file is found and
      can be downloaded; [S3Storage] and [S3Backend] (src/src/storage/s3.rs),
      over a service given by its requests: multipart uploads are aborted or
      remembered until the shutdown, whichever requests fail and whichever
      futures are dropped.
    - Conversion of raw blobs: [Conversion], [Converted]
      (src/src/conversion/mod.rs): a conversion preserves the blob and makes it
      downloadable from chunks; [Scheduler] (src/src/conversion/converting_oids.rs):
      its workers, queue and shutdown as interleaved atomic steps.
    - Temporary space: [Quota] (src/xet-common), the ledger both as functions and
      as interleaved atomic steps; [Payload] (src/src/util): spooled uploads.
    - Tokens: [Tokens] (src/xet-auth-types), [CasAuth] (src/src/api/auth.rs,
      guard.rs, the authentication part of src/src/config.rs).
    - The server: [CasApi] has every handler (src/src/api) as a program that does
      one operation of the storage, the index or the scheduler at a time;
      [CasServer] is the transition system of any number of requests and
      conversions interleaved call by call, with its invariant; [CasSafety] has
      the theorems about the reachable states.  A conversion is one step of it.
    - Configuration, start and routes: [CasConfig] (src/src/config.rs, on the
      readers of variables in [Config]), [CasStart] (src/src/server.rs with the
      cleanup of directories in src/xet-common): what loads either starts with
      what it configures or panics at once, for one reason; [Metrics]
      (src/src/metrics.rs, middleware.rs); [CasWeb], the route table on
      [Routing]: without a token only the probes answer.

    ** The Hub

    - Store: [HubMetadata] has every statement and transaction of
      src/hub/src/metadata on the tables of src/hub/src/migrations.rs;
      [HubHistory] relates the tables to a set of histories, a repository with
      the commits it accepted; [HubTree] has paths and paged listings.
    - Services: [HubPrograms] has programs of calls and the CAS client
      (src/hub/src/cas_client), [HubCommit] and [HubRepos] the services of
      src/hub/src/services.
    - System: [HubStore] says what each call does to the histories,
      [HubContracts] what every run of a service does whatever answers it gets,
      [HubSystem] puts any number of requests on one database, interleaved call
      by call, and [HubSafety] has the theorems: the tables are the histories
      that the successful calls made, history only grows, no update is lost, an
      answered commit is in the history, a resolved file is in a snapshot, only
      owners write.
    - Users: [HubTokens] has the token store as a log of what was issued, limited
      and revoked (src/hub/src/auth/token_store.rs, extract.rs), [HubSigner] the
      signer, whose tokens do at the CAS server exactly what was asked.
    - Git LFS: [HubLfs] (src/hub/src/lfs_proxy, services/lfs_object.rs,
      lfs_upload.rs, api/lfs_proxy.rs): the Hub's guard agrees with the CAS
      server's, uploads are forwarded only when they are what their id says,
      downloads are bounded; [HubBatch] (services/lfs_batch.rs,
      lfs_proxy/batch.rs): the links of a batch answer lead back through the
      guard.
    - HTTP: [HubApi] has the handlers of src/hub/src/api with their answers,
      [HubRoutes] the table of src/hub/src/server.rs, [HubWeb] the theorems about
      both: every request reaches its handler, a private repository is concealed
      from those who may not read it, the links of a listing lead through it.
    - Configuration and start: [HubConfig] (src/hub/src/config.rs), [HubStart]
      (src/hub/src/server.rs, governor and rate in [RateLimit]), [HubMigrations]
      (src/hub/src/migrations.rs): which databases a start accepts and what it
      makes of them.

    ** Both together

    - [Deployment]: a Hub and a CAS server, each started from its configuration;
      the tokens of the one open the other.
    - [Backing]: both as one transition system, in which an answer the Hub gets
      is one the CAS server gives to that request or none; whatever the Hub has
      committed was stored at the CAS server with its hash and size.

    ** Bounds, fuel and termination

    Loops that are not structural take fuel.  The loops of [Cdc], [Hash],
    [Shard], [Xorb] and [Conversion] get the length of their input, of which each
    round consumes at least one element; the theorems show that the fuel never
    runs out.  [Storage.retry_loop] gets the number of attempts the code allows,
    [Rebuild.rebuild_loop] a fuel that its termination theorem computes from the
    listing, [HubMetadata.log_from] the number of stored revisions, which bounds
    every chain of parents of a reachable store, [HubTree.follow] one round per
    file and one more, and [LocalListing.list_loop] a step for every name in, and
    one for the end of, every directory below the prefix.

    ** What is not modelled

    - The test double of the storage, the key generator, tests, benchmarks and
      scripts; [main] of both programs, which start logging and the servers.
    - The frameworks: percent-decoding of path segments, the extraction of a
      body's bytes and of JSON, the rendering of answers, the rate limiter as a
      middleware, file locks, the options of the connection pool.  Where they
      can fail, the failure is an argument.
    - Building the S3 client from the configuration; the default methods of the
      storage trait, which both backends replace where they do something.
    - SQL statements have their documented semantics on the tables, the matching
      of LIKE being a parameter.  Store operations that no service calls are
      modelled but are not steps of [HubSystem].
    - A temporary file of a request is its content where the code does not look
      at failures of the local disk; a ledger is the one the request meets in
      [Payload] and [HubLfs], interleavings being in [Quota]. *)
