(* ===== verification/Prelude.v ===== *)
(** * Prelude

    What every file shares: the outcome monad of fallible code and its
    notations, loops over outcomes, checked and wrapping machine arithmetic,
    sums over lists, and the lemmas and automation about them. *)
From Stdlib Require Export ZArith Lia.
From stdpp Require Export base decidable option list list_numbers numbers strings countable gmap.
From coqutil Require Export Word.LittleEndianList Byte.

Local Open Scope Z_scope.

(** ** Outcomes of fallible code

    [Ok] and [Err] are Rust's [Result]; [Panic] is a panic of the thread (an
    out-of-range slice, an [assert!]), kept apart so that a theorem can say
    that code returns. *)
Inductive outcome (E A : Type) : Type :=
| Ok (a : A)
| Err (e : E)
| Panic.
Arguments Ok {E A} a.
Arguments Err {E A} e.
Arguments Panic {E A}.

Declare Scope outcome_scope.
Delimit Scope outcome_scope with outcome.
Notation "'let*' x := c 'in' k" :=
  (match c with Ok x => k | Err e => Err e | Panic => Panic end)
  (at level 10, x name, c at level 100, k at level 200) : outcome_scope.
Notation "'let*' ' p := c 'in' k" :=
  (match c with Ok p => k | Err e => Err e | Panic => Panic end)
  (at level 10, p strict pattern, c at level 100, k at level 200) : outcome_scope.
Notation "'ensure' b 'else' e 'in' k" :=
  (if b then k else Err e)
  (at level 10, b at level 100, e at level 100, k at level 200) : outcome_scope.
Open Scope outcome_scope.

(** Rust's [?] on a [Result], and [map_err]. *)
Definition map_err {E F A} (f : E -> F) (o : outcome E A) : outcome F A :=
  match o with Ok a => Ok a | Err e => Err (f e) | Panic => Panic end.

(** [Option::ok_or]. *)
Definition ok_or {E A} (o : option A) (e : E) : outcome E A :=
  match o with Some a => Ok a | None => Err e end.

(** [Result::unwrap_or]. *)
Definition unwrap_or {E A} (o : outcome E A) (default : A) : A :=
  match o with Ok a => a | _ => default end.

Definition is_ok {E A} (o : outcome E A) : bool :=
  match o with Ok _ => true | _ => false end.

(** The answer of a loop run with too little fuel. *)
Inductive loop_error := OutOfFuel.

Section Iterate.
Context {E A B : Type}.

(** A [for] loop over a list that threads a state and stops at the first error. *)
Fixpoint fold_outcome (f : B -> A -> outcome E B) (b : B) (l : list A) : outcome E B :=
  match l with
  | [] => Ok b
  | a :: l' => let* b' := f b a in fold_outcome f b' l'
  end.

(** A [for] loop that pushes one result per element. *)
Fixpoint map_outcome (f : A -> outcome E B) (l : list A) : outcome E (list B) :=
  match l with
  | [] => Ok []
  | a :: l' => let* b := f a in let* bs := map_outcome f l' in Ok (b :: bs)
  end.
End Iterate.

(** ** Machine integers

    A [u8], [u32], [u64] or [usize] value is a [Z] in the range of its width;
    [usize] is 64 bits wide.  [as_u32] and [as_u64] are Rust's [as] casts. *)
Definition u32_max : Z := 2 ^ 32 - 1.
Definition u64_max : Z := 2 ^ 64 - 1.
Definition in_u8 (z : Z) : Prop := 0 <= z < 2 ^ 8.
Definition in_u32 (z : Z) : Prop := 0 <= z < 2 ^ 32.
Definition in_u64 (z : Z) : Prop := 0 <= z < 2 ^ 64.
Definition as_u32 (z : Z) : Z := z mod 2 ^ 32.
Definition as_u64 (z : Z) : Z := z mod 2 ^ 64.
Definition checked_add (a b : Z) : option Z := if a + b <=? u64_max then Some (a + b) else None.
Definition checked_sub (a b : Z) : option Z := if b <=? a then Some (a - b) else None.
Definition checked_mul (a b : Z) : option Z := if a * b <=? u64_max then Some (a * b) else None.
Definition saturating_sub (a b : Z) : Z := Z.max 0 (a - b).

(** Lengths of Rust slices and vectors. *)
Definition len {A} (l : list A) : Z := Z.of_nat (length l).

(** [&l[start..end]]: panics unless [start <= end <= l.len()]. *)
Definition slice {E A} (l : list A) (s e : Z) : outcome E (list A) :=
  if (0 <=? s) && (s <=? e) && (e <=? len l)
  then Ok (take (Z.to_nat (e - s)) (drop (Z.to_nat s) l))
  else Panic.

(** Sums over a list. *)
Definition sum_by {A} (f : A -> Z) (l : list A) : Z := foldr (fun a acc => f a + acc) 0 l.

(** ** Automation *)

(** [outcome_cases] splits the innermost match of the hypotheses on an outcome
    or a boolean guard and removes the branches that contradict the result. *)
Ltac outcome_step :=
  match goal with
  | p : (_ * _)%type |- _ => destruct p; cbv beta iota in *
  | H : context [match ?c with Ok _ => _ | Err _ => _ | Panic => _ end] |- _ =>
      lazymatch c with
      | context [match _ with _ => _ end] => fail
      | _ => destruct c eqn:?; cbv beta iota in H; try discriminate H
      end
  | H : context [if ?c then _ else _] |- _ =>
      lazymatch c with
      | context [match _ with _ => _ end] => fail
      | _ => destruct c eqn:?; cbv beta iota in H; try discriminate H
      end
  | H : Ok _ = Ok _ |- _ => injection H as H
  | H : Err _ = Err _ |- _ => injection H as H
  | H : Some _ = Some _ |- _ => injection H as H
  end.
Ltac outcome_cases := repeat (outcome_step; simplify_eq).

(** Booleans of [Z] comparisons become inequalities. *)
Ltac bool_to_prop :=
  repeat match goal with
  | H : (_ && _)%bool = true |- _ => apply andb_true_iff in H as [? ?]
  | H : (_ || _)%bool = false |- _ => apply orb_false_iff in H as [? ?]
  | H : (_ <=? _) = true |- _ => apply Z.leb_le in H
  | H : (_ <=? _) = false |- _ => apply Z.leb_gt in H
  | H : (_ <? _) = true |- _ => apply Z.ltb_lt in H
  | H : (_ <? _) = false |- _ => apply Z.ltb_ge in H
  | H : (_ =? _) = true |- _ => apply Z.eqb_eq in H
  | H : (_ =? _) = false |- _ => apply Z.eqb_neq in H
  | H : negb _ = true |- _ => apply negb_true_iff in H
  | H : negb _ = false |- _ => apply negb_false_iff in H
  | H : bool_decide _ = true |- _ => apply bool_decide_eq_true in H
  | H : bool_decide _ = false |- _ => apply bool_decide_eq_false in H
  end.

Create HintDb xet discriminated.
Create Rewrite HintDb xet_len.

(** ** Shared lemmas *)

Lemma len_nil {A} : len (@nil A) = 0.
Proof. reflexivity. Qed.
Lemma len_cons {A} (a : A) l : len (a :: l) = 1 + len l.
Proof. unfold len. cbn [length]. lia. Qed.
Lemma len_app {A} (l1 l2 : list A) : len (l1 ++ l2) = len l1 + len l2.
Proof. unfold len. rewrite length_app. lia. Qed.
Lemma len_0_inv {A} (l : list A) : len l = 0 -> l = [].
Proof. destruct l; [done|]. unfold len. cbn [length]. lia. Qed.
Lemma len_nonneg {A} (l : list A) : 0 <= len l.
Proof. unfold len. lia. Qed.
Lemma len_take {A} (l : list A) n : 0 <= n <= len l -> len (take (Z.to_nat n) l) = n.
Proof. unfold len. intros. rewrite length_take. lia. Qed.
Lemma len_drop {A} (l : list A) n : 0 <= n <= len l -> len (drop (Z.to_nat n) l) = len l - n.
Proof. unfold len. intros. rewrite length_drop. lia. Qed.
Lemma len_map {A B} (f : A -> B) l : len (map f l) = len l.
Proof. unfold len. rewrite length_map. lia. Qed.
#[export] Hint Rewrite @len_nil @len_cons @len_app @len_map : xet_len.
#[export] Hint Resolve len_nonneg : xet.

Lemma slice_ok {E A} (l : list A) s e :
  0 <= s <= e -> e <= len l ->
  slice (E := E) l s e = Ok (take (Z.to_nat (e - s)) (drop (Z.to_nat s) l)).
Proof.
  intros Hs He. unfold slice.
  replace (0 <=? s) with true by lia. replace (s <=? e) with true by lia.
  by replace (e <=? len l) with true by lia.
Qed.

Lemma slice_inv {E A} (l : list A) s e r :
  slice (E := E) l s e = Ok r ->
  0 <= s <= e /\ e <= len l /\ r = take (Z.to_nat (e - s)) (drop (Z.to_nat s) l).
Proof. unfold slice. intros. outcome_cases. bool_to_prop. auto with lia. Qed.

Lemma slice_len {E A} (l : list A) s e r :
  slice (E := E) l s e = Ok r -> len r = e - s.
Proof.
  intros (Hs & He & ->)%slice_inv. rewrite len_take; [done|].
  rewrite len_drop; lia.
Qed.

(** Slicing the middle of an append. *)
Lemma slice_app {E A} (l1 l2 l3 : list A) :
  slice (E := E) (l1 ++ l2 ++ l3) (len l1) (len l1 + len l2) = Ok l2.
Proof.
  rewrite slice_ok.
  - replace (len l1 + len l2 - len l1) with (len l2) by lia.
    unfold len. rewrite !Nat2Z.id, drop_app_length, take_app_length. done.
  - pose proof (len_nonneg l1). pose proof (len_nonneg l2). lia.
  - rewrite !len_app. pose proof (len_nonneg l3). lia.
Qed.

Lemma fold_outcome_app {E A B} (f : B -> A -> outcome E B) b l1 l2 :
  fold_outcome f b (l1 ++ l2) = let* b' := fold_outcome f b l1 in fold_outcome f b' l2.
Proof.
  revert b. induction l1 as [|a l1 IH]; intros b; cbn; [done|].
  destruct (f b a); auto.
Qed.

(** An invariant of the loop body is an invariant of the loop. *)
Lemma fold_outcome_inv {E A B} (P : B -> Prop) (f : B -> A -> outcome E B) l :
  forall b b', P b -> (forall b a b', P b -> a ∈ l -> f b a = Ok b' -> P b') ->
  fold_outcome f b l = Ok b' -> P b'.
Proof.
  induction l as [|a l IH]; cbn; intros b b' Hb Hf Heq; [congruence|].
  destruct (f b a) as [b1| |] eqn:Hfa; try done.
  eapply (IH b1); eauto; [eapply Hf; eauto; set_solver|].
  intros; eapply Hf; eauto; set_solver.
Qed.

Lemma fold_outcome_not_panic {E A B} (P : B -> Prop) (f : B -> A -> outcome E B) l :
  (forall b a, P b -> f b a <> Panic) -> (forall b a b', P b -> f b a = Ok b' -> P b') ->
  forall b, P b -> fold_outcome f b l <> Panic.
Proof.
  intros Hf Hp. induction l as [|a l IH]; intros b Hb; cbn; [done|].
  specialize (Hf b a Hb). destruct (f b a) eqn:Hfa; [|done..]. eauto.
Qed.

Lemma map_outcome_Ok_iff {E A B} (f : A -> outcome E B) l bs :
  map_outcome f l = Ok bs <-> Forall2 (fun a b => f a = Ok b) l bs.
Proof.
  revert bs. induction l as [|a l IH]; intros bs; cbn.
  - split; [intros [= <-]; constructor|]. intros H; by inversion H.
  - split.
    + destruct (f a) eqn:Hfa; try done. destruct (map_outcome f l) eqn:Hl; try done.
      intros [= <-]. constructor; [done|]. by apply IH.
    + inversion 1 as [|? b ? bs' Hfa Hl]; subst. rewrite Hfa.
      by rewrite (proj2 (IH bs')).
Qed.

Lemma checked_add_Some a b c : checked_add a b = Some c -> c = a + b /\ a + b <= u64_max.
Proof. unfold checked_add. intros. outcome_cases. bool_to_prop. auto. Qed.
Lemma checked_mul_Some a b c : checked_mul a b = Some c -> c = a * b /\ a * b <= u64_max.
Proof. unfold checked_mul. intros. outcome_cases. bool_to_prop. auto. Qed.
Lemma checked_add_le a b : a + b <= u64_max -> checked_add a b = Some (a + b).
Proof. unfold checked_add. intros. by replace (a + b <=? u64_max) with true by lia. Qed.
Lemma checked_mul_le a b : a * b <= u64_max -> checked_mul a b = Some (a * b).
Proof. unfold checked_mul. intros. by replace (a * b <=? u64_max) with true by lia. Qed.

Lemma sum_by_cons {A} (f : A -> Z) a l : sum_by f (a :: l) = f a + sum_by f l.
Proof. done. Qed.
Lemma sum_by_app {A} (f : A -> Z) l1 l2 : sum_by f (l1 ++ l2) = sum_by f l1 + sum_by f l2.
Proof. unfold sum_by. induction l1 as [|a l1 IH]; cbn; lia. Qed.
Lemma sum_by_insert {A} (f : A -> Z) l i a b :
  l !! i = Some a -> sum_by f (<[i := b]> l) = sum_by f l - f a + f b.
Proof.
  revert i. induction l as [|c l IH]; intros [|i] Hi; try done.
  - injection Hi as ->. cbn. lia.
  - specialize (IH i Hi). change (<[S i:=b]> (c :: l)) with (c :: <[i:=b]> l).
    unfold sum_by in *. cbn [foldr]. lia.
Qed.
Lemma sum_by_nonneg {A} (f : A -> Z) l : Forall (fun a => 0 <= f a) l -> 0 <= sum_by f l.
Proof. unfold sum_by. induction 1; cbn; lia. Qed.
Lemma sum_by_elem {A} (f : A -> Z) l i a : Forall (fun a => 0 <= f a) l -> l !! i = Some a -> f a <= sum_by f l.
Proof.
  intros Hf Hi. rewrite <- (take_drop_middle l i a Hi) in *. rewrite sum_by_app. apply Forall_app in Hf as [H1 [_ H2]%Forall_cons].
  apply sum_by_nonneg in H1, H2. unfold sum_by in *. cbn. lia.
Qed.
Lemma sum_by_bound {A} (f : A -> Z) l q : Forall (fun a => f a <= q) l -> sum_by f l <= len l * q.
Proof. unfold sum_by. induction 1; cbn [foldr]; [done|]. rewrite len_cons, Z.mul_add_distr_r. lia. Qed.
Lemma sum_by_plus {A} (f g : A -> Z) l : sum_by (fun a => f a + g a) l = sum_by f l + sum_by g l.
Proof. unfold sum_by. induction l as [|a l IH]; cbn; lia. Qed.

Lemma elem_of_map {A B} (f : A -> B) l b : b ∈ map f l <-> exists a, f a = b /\ a ∈ l.
Proof. rewrite !list_elem_of_In, in_map_iff. split; intros (a & ? & ?%list_elem_of_In); eauto. Qed.

#[export] Instance byte_eq_dec : EqDecision byte := Byte.byte_eq_dec.
