(* ===== verification/Bytes.v ===== *)
(** * Bytes, readers and fixed-size codecs

    The byte-level vocabulary of src/format and src/types: little-endian
    integers, the [Read]er over a [Cursor], and the interface every fixed-size
    record of the binary formats implements. *)
From S2P Require Import Prelude.

Local Open Scope Z_scope.

(** ** Errors of the CAS crate (src/error.rs)

    The formatted arguments of a message are dropped; what stays is the
    literal text of the format string. *)
Inductive io_error_kind := UnexpectedEof | NotFoundIo | InvalidData | OtherIo.

Inductive XetError :=
| InvalidHashFormat (msg : string)
| InvalidChunkSize (size min max : Z)
| HashMismatch (expected actual : string)
| ParseError (msg : string)
| IoError (kind : io_error_kind).

Abbreviation XetResult := (outcome XetError).

(** ** Little-endian integers ([to_le_bytes], [from_le_bytes]) *)
Definition u32_to_le_bytes (z : Z) : list byte := le_split 4 z.
Definition u64_to_le_bytes (z : Z) : list byte := le_split 8 z.
Definition from_le_bytes (bs : list byte) : Z := le_combine bs.
Definition zeros (n : nat) : list byte := replicate n Byte.x00.

Arguments u32_to_le_bytes : simpl never.
Arguments u64_to_le_bytes : simpl never.
Arguments from_le_bytes : simpl never.
Arguments zeros : simpl never.

Lemma length_u32_to_le_bytes z : length (u32_to_le_bytes z) = 4%nat.
Proof. apply length_le_split. Qed.
Lemma length_u64_to_le_bytes z : length (u64_to_le_bytes z) = 8%nat.
Proof. apply length_le_split. Qed.
Lemma length_zeros n : length (zeros n) = n.
Proof. apply length_replicate. Qed.

Lemma from_to_le_u32 z : in_u32 z -> from_le_bytes (u32_to_le_bytes z) = z.
Proof. intros H. unfold from_le_bytes, u32_to_le_bytes. rewrite le_combine_split. by apply Z.mod_small. Qed.
Lemma from_to_le_u64 z : in_u64 z -> from_le_bytes (u64_to_le_bytes z) = z.
Proof. intros H. unfold from_le_bytes, u64_to_le_bytes. rewrite le_combine_split. by apply Z.mod_small. Qed.
Lemma from_le_bytes_range bs : 0 <= from_le_bytes bs < 2 ^ (8 * len bs).
Proof. apply le_combine_bound. Qed.
Lemma le_bytes_in_range n bs :
  length bs = n -> 0 <= from_le_bytes bs < 2 ^ (8 * Z.of_nat n).
Proof. intros <-. apply from_le_bytes_range. Qed.
Lemma from_le_bytes_app bs1 bs2 :
  from_le_bytes (bs1 ++ bs2) = from_le_bytes bs1 + 2 ^ (8 * len bs1) * from_le_bytes bs2.
Proof.
  unfold from_le_bytes, len. rewrite le_combine_app.
  pose proof (le_combine_bound bs1). set (n := Z.of_nat (length bs1)) in *.
  assert (0 <= n) by (subst n; lia).
  rewrite Z.shiftl_mul_pow2 by lia. replace (n * 8) with (8 * n) by lia.
  rewrite Z.mul_comm. rewrite <- Z.add_lor_land.
  replace (Z.land (le_combine bs1) (2 ^ (8 * n) * le_combine bs2)) with 0; [lia|].
  symmetry. apply Z.bits_inj'. intros i Hi. rewrite Z.land_spec, Z.bits_0, (Z.mul_comm (2 ^ _)).
  destruct (Z.lt_ge_cases i (8 * n)).
  - rewrite Z.mul_pow2_bits_low by lia. apply andb_false_r.
  - assert (Z.testbit (le_combine bs1) i = false) as ->; [|done].
    destruct (Z.eq_dec (le_combine bs1) 0) as [->|]; [apply Z.bits_0|].
    apply Z.bits_above_log2; [lia|].
    apply Z.log2_lt_pow2; [lia|]. eapply Z.lt_le_trans; [apply H|]. apply Z.pow_le_mono_r; lia.
Qed.

(** ** Readers

    A reader consumes a prefix of the bytes left in the [Cursor]. *)
Definition reader (A : Type) : Type := list byte -> XetResult (A * list byte).

(** [read_exact] into a buffer of [n] bytes. *)
Definition read_exact (n : nat) : reader (list byte) := fun bs =>
  if (n <=? length bs)%nat then Ok (take n bs, drop n bs) else Err (IoError UnexpectedEof).

Notation "'read*' x := r 'from' bs 'in' k" :=
  (match r bs with Ok (x, bs) => k | Err e => Err e | Panic => Panic end)
  (at level 10, x name, r at level 9, bs name, k at level 200) : outcome_scope.

Definition read_u32 : reader Z := fun bs =>
  read* buf := (read_exact 4) from bs in Ok (from_le_bytes buf, bs).
Definition read_u64 : reader Z := fun bs =>
  read* buf := (read_exact 8) from bs in Ok (from_le_bytes buf, bs).

Lemma read_exact_app n (b1 b2 : list byte) :
  length b1 = n -> read_exact n (b1 ++ b2) = Ok (b1, b2).
Proof.
  intros <-. unfold read_exact. rewrite length_app.
  replace (length b1 <=? length b1 + length b2)%nat with true by (symmetry; apply Nat.leb_le; lia).
  by rewrite take_app_length, drop_app_length.
Qed.
Lemma read_u32_app z rest : in_u32 z -> read_u32 (u32_to_le_bytes z ++ rest) = Ok (z, rest).
Proof.
  intros. unfold read_u32. rewrite (read_exact_app 4) by apply length_u32_to_le_bytes.
  by rewrite from_to_le_u32.
Qed.
Lemma read_u64_app z rest : in_u64 z -> read_u64 (u64_to_le_bytes z ++ rest) = Ok (z, rest).
Proof.
  intros. unfold read_u64. rewrite (read_exact_app 8) by apply length_u64_to_le_bytes.
  by rewrite from_to_le_u64.
Qed.
Lemma read_exact_inv n bs b rest :
  read_exact n bs = Ok (b, rest) -> bs = b ++ rest /\ length b = n.
Proof.
  unfold read_exact. intros. outcome_cases. rewrite take_drop, length_take.
  split; [done|]. apply Nat.leb_le in Heqb0. lia.
Qed.
Lemma read_exact_not_panic n bs : read_exact n bs <> Panic.
Proof. unfold read_exact. by case_match. Qed.
Lemma read_u32_inv bs z rest :
  read_u32 bs = Ok (z, rest) -> in_u32 z /\ bs = u32_to_le_bytes z ++ rest.
Proof.
  unfold read_u32. intros. outcome_cases. apply read_exact_inv in Heqo as [-> Hl].
  split; [by apply (le_bytes_in_range 4)|].
  unfold u32_to_le_bytes, from_le_bytes. by rewrite split_le_combine'.
Qed.
Lemma read_u64_inv bs z rest :
  read_u64 bs = Ok (z, rest) -> in_u64 z /\ bs = u64_to_le_bytes z ++ rest.
Proof.
  unfold read_u64. intros. outcome_cases. apply read_exact_inv in Heqo as [-> Hl].
  split; [by apply (le_bytes_in_range 8)|].
  unfold u64_to_le_bytes, from_le_bytes. by rewrite split_le_combine'.
Qed.

(** Rewriting rules that run a reader over a written record. *)
Create Rewrite HintDb wire.
#[export] Hint Rewrite <- @app_assoc : wire.
#[export] Hint Rewrite read_u32_app read_u64_app using assumption : wire.

(** ** The interface of a fixed-size record

    Each record of the formats has a [serialize] that appends [codec_size]
    bytes and a [deserialize] that reads them back; [codec_wf] states the
    widths of its fields.  Section parsers are verified against this
    interface. *)
Class FixedCodec (A : Type) := {
  serialize : A -> list byte;
  deserialize : reader A;
  codec_size : nat;
  codec_wf : A -> Prop;
  codec_length : forall a, codec_wf a -> length (serialize a) = codec_size;
  codec_roundtrip : forall a rest, codec_wf a -> deserialize (serialize a ++ rest) = Ok (a, rest);
}.

Section Codec.
Context `{FixedCodec A}.

Definition serialize_all (l : list A) : list byte := concat (map serialize l).

(** [for _ in 0..n { v.push(deserialize(reader)?) }] *)
Fixpoint deserialize_n (n : nat) : reader (list A) := fun bs =>
  match n with
  | O => Ok ([], bs)
  | S n' =>
      read* a := deserialize from bs in
      read* l := (deserialize_n n') from bs in
      Ok (a :: l, bs)
  end.

Lemma serialize_all_length l :
  Forall codec_wf l -> length (serialize_all l) = (length l * codec_size)%nat.
Proof.
  induction 1; cbn; [done|]. rewrite length_app, codec_length by done.
  unfold serialize_all in IHForall. rewrite IHForall. lia.
Qed.

Lemma deserialize_n_app l rest :
  Forall codec_wf l -> deserialize_n (length l) (serialize_all l ++ rest) = Ok (l, rest).
Proof.
  induction 1 as [|a l Ha Hl IH]; [done|].
  unfold serialize_all in *. cbn [map concat length deserialize_n].
  rewrite <- app_assoc, codec_roundtrip by done. by rewrite IH.
Qed.
End Codec.

(** A codec that loses nothing: what it accepts is what it writes. *)
Class ExactCodec (A : Type) `{FixedCodec A} : Prop :=
  codec_inv : forall bs a rest, deserialize bs = Ok (a, rest) -> codec_wf a /\ bs = serialize a ++ rest.

Lemma deserialize_n_inv `{ExactCodec A} n bs (l : list A) rest :
  deserialize_n n bs = Ok (l, rest) ->
  length l = n /\ Forall codec_wf l /\ bs = serialize_all l ++ rest.
Proof.
  revert bs l rest. induction n as [|n IH]; intros bs l rest; cbn [deserialize_n].
  - intros [= <- <-]. by repeat split.
  - intros E. outcome_cases. apply codec_inv in Heqo as [Ha ->]. apply IH in Heqo0 as (<- & Hl & ->).
    unfold serialize_all. cbn [map concat length]. rewrite <- app_assoc. auto.
Qed.

(** A codec that may skip reserved bytes: it consumes [codec_size] bytes, gives
    fields of their width, and never panics. *)
Class SizedCodec (A : Type) `{FixedCodec A} : Prop := {
  codec_read : forall bs a rest, deserialize bs = Ok (a, rest) ->
    codec_wf a /\ exists b, bs = b ++ rest /\ length b = codec_size;
  codec_not_panic : forall bs, deserialize bs <> Panic;
}.

Lemma deserialize_n_read `{SizedCodec A} n bs (l : list A) rest :
  deserialize_n n bs = Ok (l, rest) ->
  length l = n /\ Forall codec_wf l /\ exists b, bs = b ++ rest /\ length b = (n * codec_size)%nat.
Proof.
  revert bs l rest. induction n as [|n IH]; intros bs l rest; cbn [deserialize_n].
  - intros [= <- <-]. repeat split; [constructor|]. by exists [].
  - intros E. outcome_cases. apply codec_read in Heqo as (Ha & b1 & -> & L1).
    apply IH in Heqo0 as (<- & Hl & b2 & -> & L2). cbn [length]. repeat split; [by constructor|].
    exists (b1 ++ b2). rewrite <- app_assoc, length_app. split; [done|]. lia.
Qed.

Lemma deserialize_n_not_panic `{SizedCodec A} n bs : @deserialize_n A _ n bs <> Panic.
Proof.
  revert bs. induction n as [|n IH]; intros bs; cbn [deserialize_n]; [done|].
  pose proof (codec_not_panic bs). destruct (deserialize bs) as [[a b]| |]; try done.
  specialize (IH b). by destruct (deserialize_n n b) as [[]| |].
Qed.

Lemma read_u32_not_panic bs : read_u32 bs <> Panic.
Proof. unfold read_u32. destruct (read_exact 4 bs) as [[]| |] eqn:E; [done..|by apply read_exact_not_panic in E]. Qed.
Lemma read_u64_not_panic bs : read_u64 bs <> Panic.
Proof. unfold read_u64. destruct (read_exact 8 bs) as [[]| |] eqn:E; [done..|by apply read_exact_not_panic in E]. Qed.

(** The codec of a [u32]. *)
Definition u32_codec : FixedCodec Z.
Proof.
  refine {| serialize := u32_to_le_bytes; deserialize := read_u32; codec_size := 4; codec_wf := in_u32 |}.
  - intros. apply length_u32_to_le_bytes.
  - intros. by apply read_u32_app.
Defined.

Lemma u32_codec_exact : @ExactCodec Z u32_codec.
Proof. intros bs a rest. apply read_u32_inv. Qed.

Lemma u32_codec_sized : @SizedCodec Z u32_codec.
Proof.
  split; [|apply read_u32_not_panic]. intros bs a rest [Ha ->]%read_u32_inv.
  split; [done|]. eexists. split; [done|]. apply length_u32_to_le_bytes.
Qed.

(** ** Text as bytes ([str::as_bytes]) *)
Fixpoint str_bytes (s : string) : list byte :=
  match s with
  | EmptyString => []
  | String a s' => Ascii.byte_of_ascii a :: str_bytes s'
  end.

Lemma str_bytes_app s1 s2 : str_bytes (s1 +:+ s2) = str_bytes s1 ++ str_bytes s2.
Proof. induction s1 as [|a s1 IH]; [done|]. change (Ascii.byte_of_ascii a :: str_bytes (s1 +:+ s2) = Ascii.byte_of_ascii a :: str_bytes s1 ++ str_bytes s2). by rewrite IH. Qed.
Lemma str_bytes_length s : length (str_bytes s) = String.length s.
Proof. induction s; cbn; auto. Qed.
Lemma str_bytes_inj s1 s2 : str_bytes s1 = str_bytes s2 -> s1 = s2.
Proof.
  revert s2. induction s1 as [|a s1 IH]; intros [|b s2]; cbn; try done.
  intros [= Hab Hs]. f_equal; [|auto].
  by rewrite <- (Ascii.ascii_of_byte_of_ascii a), <- (Ascii.ascii_of_byte_of_ascii b), Hab.
Qed.

(** Splitting at the first separator is unambiguous. *)
Lemma split_at_sep_inj {A} (sep : A) l1 l2 r1 r2 :
  sep ∉ l1 -> sep ∉ l2 -> l1 ++ sep :: r1 = l2 ++ sep :: r2 -> l1 = l2 /\ r1 = r2.
Proof.
  revert l2. induction l1 as [|a l1 IH]; intros [|b l2] H1 H2; cbn; intros E; simplify_eq.
  - done.
  - set_solver.
  - set_solver.
  - match goal with HE : _ ++ _ = _ ++ _ |- _ => apply IH in HE as [-> ->]; set_solver end.
Qed.
