(* ===== verification/Crates.v ===== *)
(** * Interfaces to third-party crates

    Code outside src/ that the modelled code calls: [hex], [blake3], [sha2],
    [lz4_flex], [gearhash].  Each crate is a class of operations, a second
    class with the documented laws the program relies on, and a small concrete
    model that satisfies the laws and lets theorems about the program be run
    on concrete inputs.  The models are not the crates' algorithms. *)
From S2P Require Import Prelude Bytes.

Local Open Scope Z_scope.

(** ** hex *)
Class HexCrate := {
  hex_encode : list byte -> string;
  hex_decode : string -> option (list byte);
}.

(** [char::to_ascii_uppercase] over a string of bytes. *)
Definition ascii_to_upper (a : Ascii.ascii) : Ascii.ascii :=
  let n := Ascii.nat_of_ascii a in
  if (97 <=? n)%nat && (n <=? 122)%nat then Ascii.ascii_of_nat (n - 32) else a.
Fixpoint string_to_upper (s : string) : string :=
  match s with
  | EmptyString => EmptyString
  | String a s' => String (ascii_to_upper a) (string_to_upper s')
  end.

(** Two lower-case digits per byte; decoding inverts encoding and ignores the
    case of the digits; the digits are [0-9a-f]. *)
Definition is_lower_hex_digit (a : Ascii.ascii) : bool :=
  let n := Ascii.nat_of_ascii a in
  ((48 <=? n)%nat && (n <=? 57)%nat) || ((97 <=? n)%nat && (n <=? 102)%nat).

Fixpoint string_forallb (f : Ascii.ascii -> bool) (s : string) : bool :=
  match s with
  | EmptyString => true
  | String a s' => f a && string_forallb f s'
  end.

Class HexLaws `{HexCrate} : Prop := {
  hex_decode_encode : forall bs, hex_decode (hex_encode bs) = Some bs;
  hex_encode_length : forall bs, String.length (hex_encode bs) = (2 * length bs)%nat;
  hex_encode_digits : forall bs, string_forallb is_lower_hex_digit (hex_encode bs) = true;
  hex_decode_length : forall s bs, hex_decode s = Some bs -> String.length s = (2 * length bs)%nat;
  hex_decode_upper : forall s, hex_decode (string_to_upper s) = hex_decode s;
}.

(** ** blake3: one-shot and incremental keyed hashing *)
Class Blake3 := {
  keyed_hash : list byte -> list byte -> list byte;
  blake3_hasher : Type;
  blake3_new_keyed : list byte -> blake3_hasher;
  blake3_update : blake3_hasher -> list byte -> blake3_hasher;
  blake3_finalize : blake3_hasher -> list byte;
}.

(** Digests have 32 bytes; feeding the input in pieces hashes the whole. *)
Class Blake3Laws `{Blake3} : Prop := {
  keyed_hash_length : forall key data, length (keyed_hash key data) = 32%nat;
  blake3_streaming : forall key pieces,
    blake3_finalize (fold_left blake3_update pieces (blake3_new_keyed key)) =
    keyed_hash key (concat pieces);
}.

(** ** sha2: [Sha256] *)
Class Sha2 := {
  sha256_digest : list byte -> list byte;
  sha256_hasher : Type;
  sha256_new : sha256_hasher;
  sha256_update : sha256_hasher -> list byte -> sha256_hasher;
  sha256_finalize : sha256_hasher -> list byte;
}.

Class Sha2Laws `{Sha2} : Prop := {
  sha256_length : forall data, length (sha256_digest data) = 32%nat;
  sha256_streaming : forall pieces,
    sha256_finalize (fold_left sha256_update pieces sha256_new) = sha256_digest (concat pieces);
}.

(** ** lz4_flex: the block format with a 4-byte size prefix *)
Class Lz4 := {
  compress_prepend_size : list byte -> list byte;
  decompress_size_prepended : list byte -> option (list byte);
}.

Class Lz4Laws `{Lz4} : Prop := {
  lz4_prefix : forall d,
    take 4 (compress_prepend_size d) = u32_to_le_bytes (as_u32 (len d));
  lz4_roundtrip : forall d,
    len d < 2 ^ 32 -> decompress_size_prepended (compress_prepend_size d) = Some d;
  lz4_bound : forall d, len (compress_prepend_size d) <= len d + len d / 255 + 20;
}.

(** ** gearhash: [Hasher::next_match]

    The rolling hash is threaded as a [u64]; the answer is the offset just
    past the matching byte, inside the buffer. *)
Class GearHash := {
  gear_default : Z;
  next_match : Z -> list byte -> Z -> option Z * Z;
}.

Class GearLaws `{GearHash} : Prop := {
  gear_default_zero : gear_default = 0;
  next_match_range : forall h buf mask pos h',
    next_match h buf mask = (Some pos, h') -> 0 < pos <= len buf;
}.

(** ** std: [File::read]

    [os_read pos available] is the number of bytes the system returns at a
    file position when [available] bytes could be returned: a read may be
    short, and returns nothing only at the end of the file. *)
Class FileReads := os_read : Z -> Z -> Z.
Class FileReadsLaws `{FileReads} : Prop :=
  os_read_range : forall pos available, 0 < available -> 0 < os_read pos available <= available.

(** The loop of the callers, which read [remaining] bytes through a 64 KiB
    buffer into an accumulator: [rest] is the file from position [pos] on, [eof]
    the error of a file that ends too early.  The answer is [None] only if the
    fuel runs out, which [read_loop_result] excludes for fuel [remaining]. *)
Definition READ_BUF : Z := 64 * 1024.

Section ReadLoop.
Context `{FileReads} {S : Type} (update : S -> list byte -> S) (eof : XetError).

Fixpoint read_loop (fuel : nat) (pos : Z) (rest : list byte) (remaining : Z) (acc : S)
  : option (XetResult S) :=
  if 0 <? remaining then
    match fuel with
    | O => None
    | Datatypes.S fuel' =>
      let to_read := Z.min remaining READ_BUF in
      let available := Z.min to_read (len rest) in
      let n := if available =? 0 then 0 else os_read pos available in
      if n =? 0 then Some (Err eof)
      else read_loop fuel' (pos + n) (drop (Z.to_nat n) rest) (remaining - n)
             (update acc (take (Z.to_nat n) rest))
    end
  else Some (Ok acc).

Lemma read_loop_result `{!FileReadsLaws} fuel pos rest remaining acc :
  0 <= remaining <= Z.of_nat fuel ->
  (remaining <= len rest /\ exists pieces, concat pieces = take (Z.to_nat remaining) rest /\
     read_loop fuel pos rest remaining acc = Some (Ok (fold_left update pieces acc))) \/
  (len rest < remaining /\ read_loop fuel pos rest remaining acc = Some (Err eof)).
Proof.
  revert pos rest remaining acc. induction fuel as [|fuel IH]; intros pos rest remaining acc Hr;
    cbn [read_loop]; (destruct (Z.ltb_spec 0 remaining) as [Hp|]; [|left; pose proof (len_nonneg rest);
      split; [lia|]; exists []; replace remaining with 0 by lia; split; done]); [lia|].
  set (available := Z.min (Z.min remaining READ_BUF) (len rest)). pose proof (len_nonneg rest).
  destruct (Z.eqb_spec available 0) as [Ha|Ha].
  { right. subst available. unfold READ_BUF in Ha. split; [lia|done]. }
  pose proof (os_read_range pos available ltac:(subst available; unfold READ_BUF in *; lia)) as Hn.
  set (n := os_read pos available) in *. destruct (Z.eqb_spec n 0); [lia|].
  destruct (IH (pos + n) (drop (Z.to_nat n) rest) (remaining - n)
    (update acc (take (Z.to_nat n) rest))) as [(Hl & pieces & Hc & ->)|[Hl ->]]; [lia|left|right].
  - rewrite len_drop in Hl by lia. split; [lia|]. exists (take (Z.to_nat n) rest :: pieces). split; [|done].
    cbn [concat]. rewrite Hc. rewrite take_take_drop. f_equal. lia.
  - rewrite len_drop in Hl by lia. split; [lia|done].
Qed.
End ReadLoop.

(** ** Concrete models *)

Module Model.
Definition hex_digit (n : nat) : Ascii.ascii :=
  if (n <? 10)%nat then Ascii.ascii_of_nat (48 + n) else Ascii.ascii_of_nat (87 + n).
Definition unhex_digit (a : Ascii.ascii) : option nat :=
  let n := Ascii.nat_of_ascii a in
  if (48 <=? n)%nat && (n <=? 57)%nat then Some (n - 48)%nat
  else if (97 <=? n)%nat && (n <=? 102)%nat then Some (n - 87)%nat
  else if (65 <=? n)%nat && (n <=? 70)%nat then Some (n - 55)%nat
  else None.
Definition hex_pair (b : byte) : Ascii.ascii * Ascii.ascii :=
  let n := N.to_nat (Byte.to_N b) in (hex_digit (n / 16), hex_digit (n mod 16)).
Definition unhex_pair (a b : Ascii.ascii) : option byte :=
  match unhex_digit a, unhex_digit b with
  | Some x, Some y => Some (byte.of_Z (Z.of_nat (16 * x + y)))
  | _, _ => None
  end.
Fixpoint encode (bs : list byte) : string :=
  match bs with
  | [] => EmptyString
  | b :: bs' => String (fst (hex_pair b)) (String (snd (hex_pair b)) (encode bs'))
  end.
Fixpoint decode (s : string) : option (list byte) :=
  match s with
  | EmptyString => Some []
  | String a (String b s') =>
      match unhex_pair a b, decode s' with
      | Some x, Some l => Some (x :: l)
      | _, _ => None
      end
  | _ => None
  end.

Definition hex : HexCrate := {| hex_encode := encode; hex_decode := decode |}.

(** A digest that depends on the key and on every byte of the data. *)
Definition mix (acc : Z) (b : byte) : Z := (acc * 31 + byte.unsigned b + 7) mod 2 ^ 64.
Definition digest (seed : Z) (data : list byte) : list byte :=
  let a := fold_left mix data seed in
  u64_to_le_bytes a ++ u64_to_le_bytes (a * 3 + 1) ++
  u64_to_le_bytes (a * 5 + 2) ++ u64_to_le_bytes (a * 7 + 3).

Definition blake3 : Blake3 := {|
  keyed_hash key data := digest (fold_left mix key 1) data;
  blake3_hasher := Z * list byte;
  blake3_new_keyed key := (fold_left mix key 1, []);
  blake3_update h d := (fst h, snd h ++ d);
  blake3_finalize h := digest (fst h) (snd h);
|}.

Definition sha2 : Sha2 := {|
  sha256_digest := digest 2;
  sha256_hasher := list byte;
  sha256_new := [];
  sha256_update h d := h ++ d;
  sha256_finalize h := digest 2 h;
|}.

Definition lz4 : Lz4 := {|
  compress_prepend_size d := u32_to_le_bytes (as_u32 (len d)) ++ d;
  decompress_size_prepended d :=
    if (4 <=? length d)%nat then
      let payload := drop 4 d in
      if len payload =? from_le_bytes (take 4 d) then Some payload else None
    else None;
|}.

Fixpoint gear_scan (table : byte -> Z) (h : Z) (buf : list byte) (mask pos : Z) : option Z * Z :=
  match buf with
  | [] => (None, h)
  | b :: buf' =>
      let h' := (2 * h + table b) mod 2 ^ 64 in
      if Z.land h' mask =? 0 then (Some (pos + 1), h') else gear_scan table h' buf' mask (pos + 1)
  end.

Definition gear : GearHash := {|
  gear_default := 0;
  next_match h buf mask :=
    gear_scan (fun b => ((byte.unsigned b + 1) * 11400714819323198485) mod 2 ^ 64) h buf mask 0;
|}.

(** Reads that are short every other time. *)
Definition reads : FileReads := fun pos available =>
  if Z.odd pos then available else Z.max 1 (available / 2).

(** *** The models satisfy the laws *)

Lemma unhex_hex_pair b : unhex_pair (fst (hex_pair b)) (snd (hex_pair b)) = Some b.
Proof. by destruct b. Qed.

Lemma unhex_digit_upper a : unhex_digit (ascii_to_upper a) = unhex_digit a.
Proof. destruct a as [[] [] [] [] [] [] [] []]; reflexivity. Qed.

Lemma hex_pair_digits b :
  is_lower_hex_digit (fst (hex_pair b)) && is_lower_hex_digit (snd (hex_pair b)) = true.
Proof. by destruct b. Qed.

Lemma hex_laws : @HexLaws hex.
Proof.
  assert (Hind : forall P : string -> Prop, P EmptyString -> (forall a, P (String a EmptyString)) ->
    (forall a b s, P s -> P (String a (String b s))) -> forall s, P s).
  { intros P H0 H1 H2. enough (forall s, P s /\ forall a, P (String a s)) as Hs by (intros s; apply Hs).
    induction s as [|a s [IH1 IH2]]; split; auto. }
  split; cbn.
  - induction bs as [|b bs IH]; [done|]. cbn [encode decode]. by rewrite unhex_hex_pair, IH.
  - induction bs as [|b bs IH]; cbn; [done|]. rewrite IH. lia.
  - induction bs as [|b bs IH]; [done|]. cbn [encode string_forallb]. rewrite IH.
    pose proof (hex_pair_digits b) as [-> ->]%andb_true_iff. done.
  - induction s as [|a|a b s IH] using Hind; cbn; intros bs; [by intros [= <-]|done|].
    destruct (unhex_pair a b); [|done]. destruct (decode s) as [l|]; [|done].
    intros [= <-]. cbn. rewrite (IH l) by done. lia.
  - induction s as [|a|a b s IH] using Hind; cbn; [done..|].
    rewrite IH. unfold unhex_pair. by rewrite !unhex_digit_upper.
Qed.

Lemma digest_length seed data : length (digest seed data) = 32%nat.
Proof. unfold digest. by rewrite !length_app, !length_u64_to_le_bytes. Qed.

Lemma blake3_laws : @Blake3Laws blake3.
Proof.
  split; cbn; [intros; apply digest_length|].
  intros key pieces. set (seed := fold_left mix key 1).
  enough (forall acc, fold_left (fun (h : Z * list byte) d => (h.1, h.2 ++ d)) pieces (seed, acc)
    = (seed, acc ++ concat pieces)) as -> by done.
  induction pieces as [|d ds IH]; intros acc; cbn; [by rewrite app_nil_r|].
  by rewrite IH, app_assoc.
Qed.

Lemma sha2_laws : @Sha2Laws sha2.
Proof.
  split; cbn; [intros; apply digest_length|]. intros pieces. f_equal.
  enough (forall acc, fold_left (fun h d : list byte => h ++ d) pieces acc = acc ++ concat pieces) as ->
    by done.
  induction pieces as [|d ds IH]; intros acc; cbn; [by rewrite app_nil_r|].
  by rewrite IH, app_assoc.
Qed.

Lemma lz4_laws : @Lz4Laws lz4.
Proof.
  split; cbn [compress_prepend_size decompress_size_prepended lz4].
  - intros d. by rewrite take_app_length' by (by rewrite length_u32_to_le_bytes).
  - intros d Hd. rewrite length_app, length_u32_to_le_bytes. cbn [Nat.add Nat.leb].
    rewrite drop_app_length', take_app_length' by (by rewrite length_u32_to_le_bytes).
    rewrite from_to_le_u32 by (unfold in_u32, as_u32; apply Z.mod_pos_bound; lia).
    unfold as_u32. pose proof (len_nonneg d). rewrite Z.mod_small by lia. by rewrite Z.eqb_refl.
  - intros d. rewrite len_app. change (len (u32_to_le_bytes (as_u32 (len d)))) with 4.
    pose proof (Z.div_pos (len d) 255 (len_nonneg d) ltac:(lia)). lia.
Qed.

Lemma reads_laws : @FileReadsLaws reads.
Proof.
  intros pos available Ha. unfold os_read, reads. destruct (Z.odd pos); [lia|].
  pose proof (Z.div_le_upper_bound available 2 available ltac:(lia) ltac:(lia)). lia.
Qed.

Lemma gear_laws : @GearLaws gear.
Proof.
  split; [done|]. cbn [next_match gear].
  enough (forall table buf h mask p pos h',
    gear_scan table h buf mask p = (Some pos, h') -> p < pos <= p + len buf) as Hg.
  { intros h buf mask pos h' E. apply Hg in E. lia. }
  intros table buf. induction buf as [|b buf IH]; cbn [gear_scan]; intros h mask p pos h' E; [done|].
  rewrite len_cons. pose proof (len_nonneg buf).
  destruct (_ =? 0); [injection E; lia|]. apply IH in E. lia.
Qed.
End Model.
