(* ===== verification/MerkleHash.v ===== *)
(** * MerkleHash (src/types/merkle_hash.rs)

    The 256-bit hash value of the whole system: four little-endian [u64]
    limbs, its byte and hex conversions, and the instances that make it a key
    of a [HashMap]. *)
From S2P Require Import Prelude Bytes Crates.

Local Open Scope Z_scope.

(** ** The type *)
Record MerkleHash := mkHash { limb0 : Z; limb1 : Z; limb2 : Z; limb3 : Z }.

(** Every limb is a [u64]. *)
Definition hash_wf (h : MerkleHash) : Prop :=
  in_u64 (limb0 h) /\ in_u64 (limb1 h) /\ in_u64 (limb2 h) /\ in_u64 (limb3 h).

#[export] Instance MerkleHash_eq_dec : EqDecision MerkleHash.
Proof. solve_decision. Defined.
#[export] Instance MerkleHash_countable : Countable MerkleHash.
Proof.
  apply (inj_countable'
    (fun h => (limb0 h, limb1 h, limb2 h, limb3 h))
    (fun '(a, b, c, d) => mkHash a b c d)).
  by intros [].
Defined.

(** [==] on hashes. *)
Definition hash_eqb (a b : MerkleHash) : bool := bool_decide (a = b).

(** [MerkleHash::new] and [Default]. *)
Definition hash_new : MerkleHash := mkHash 0 0 0 0.
Definition hash_default : MerkleHash := hash_new.

(** Bytes [8i .. 8i+8] of a 32-byte array as a [u64]. *)
Definition limb_of_bytes (bytes : list byte) (i : nat) : Z :=
  from_le_bytes (take 8 (drop (i * 8) bytes)).

Definition from_bytes (bytes : list byte) : MerkleHash :=
  mkHash (limb_of_bytes bytes 0) (limb_of_bytes bytes 1)
         (limb_of_bytes bytes 2) (limb_of_bytes bytes 3).

Definition as_bytes (h : MerkleHash) : list byte :=
  u64_to_le_bytes (limb0 h) ++ u64_to_le_bytes (limb1 h) ++
  u64_to_le_bytes (limb2 h) ++ u64_to_le_bytes (limb3 h).

Definition first_u64 (h : MerkleHash) : Z := limb0 h.

(** [impl Rem<u64> for MerkleHash]. *)
Definition hash_rem (h : MerkleHash) (rhs : Z) : Z := limb0 h mod rhs.

Section Hex.
Context `{HexCrate}.

(** [arr.copy_from_slice(&bytes)] panics on a length mismatch. *)
Definition from_hex (hex_str : string) : XetResult MerkleHash :=
  if negb (String.length hex_str =? 64)%nat
  then Err (InvalidHashFormat "Expected 64 hex chars, got ")
  else
    let* bytes := ok_or (hex_decode hex_str) (InvalidHashFormat "Invalid hex: ") in
    if (length bytes =? 32)%nat then Ok (from_bytes bytes) else Panic.

Definition to_hex (h : MerkleHash) : string := hex_encode (as_bytes h).
End Hex.

(** [read_exact] of 32 bytes followed by [MerkleHash::from]. *)
Definition read_hash : reader MerkleHash := fun bs =>
  read* buf := (read_exact 32) from bs in Ok (from_bytes buf, bs).

(** ** Lemmas *)

Lemma length_as_bytes h : length (as_bytes h) = 32%nat.
Proof. unfold as_bytes. by rewrite !length_app, !length_u64_to_le_bytes. Qed.

Lemma limb_range bytes i : in_u64 (limb_of_bytes bytes i).
Proof.
  unfold limb_of_bytes, in_u64. pose proof (from_le_bytes_range (take 8 (drop (i * 8) bytes))) as Hr.
  split; [lia|]. eapply Z.lt_le_trans; [apply Hr|].
  apply Z.pow_le_mono_r; [lia|]. unfold len. rewrite length_take. lia.
Qed.

Lemma from_bytes_wf bytes : hash_wf (from_bytes bytes).
Proof. unfold hash_wf, from_bytes. cbn. auto using limb_range. Qed.

Lemma hash_default_wf : hash_wf hash_default.
Proof. unfold hash_wf, in_u64. cbn. lia. Qed.

Lemma bytes_of_limb bytes i :
  length bytes = 32%nat -> (i < 4)%nat ->
  u64_to_le_bytes (limb_of_bytes bytes i) = take 8 (drop (i * 8) bytes).
Proof.
  intros Hl Hi. unfold u64_to_le_bytes, limb_of_bytes, from_le_bytes.
  apply split_le_combine'. rewrite length_take, length_drop. lia.
Qed.

Lemma from_bytes_as_bytes h : hash_wf h -> from_bytes (as_bytes h) = h.
Proof.
  intros (H0 & H1 & H2 & H3). destruct h as [a b c d]; cbn in *.
  unfold from_bytes, limb_of_bytes, as_bytes. cbn [limb0 limb1 limb2 limb3 Nat.mul Nat.add].
  pose proof (length_u64_to_le_bytes a). pose proof (length_u64_to_le_bytes b).
  pose proof (length_u64_to_le_bytes c). pose proof (length_u64_to_le_bytes d).
  f_equal.
  - rewrite drop_0, take_app_length' by done. by apply from_to_le_u64.
  - rewrite drop_app_length', take_app_length' by done. by apply from_to_le_u64.
  - rewrite app_assoc, drop_app_length' by (rewrite length_app; lia).
    rewrite take_app_length' by done. by apply from_to_le_u64.
  - rewrite !app_assoc, drop_app_length' by (rewrite !length_app; lia).
    rewrite take_ge by lia. by apply from_to_le_u64.
Qed.

Lemma as_bytes_from_bytes bytes : length bytes = 32%nat -> as_bytes (from_bytes bytes) = bytes.
Proof.
  intros Hl. unfold as_bytes, from_bytes. cbn [limb0 limb1 limb2 limb3].
  rewrite !bytes_of_limb by (done || lia). cbn [Nat.mul Nat.add]. rewrite drop_0.
  rewrite (take_ge (drop 24 bytes)) by (rewrite length_drop; lia).
  pose proof (take_drop 8 bytes) as E1. pose proof (take_drop 8 (drop 8 bytes)) as E2.
  pose proof (take_drop 8 (drop 16 bytes)) as E3. rewrite drop_drop in E2, E3.
  cbn [Nat.add] in E2, E3. by rewrite E3, E2.
Qed.

Lemma as_bytes_inj h1 h2 : hash_wf h1 -> hash_wf h2 -> as_bytes h1 = as_bytes h2 -> h1 = h2.
Proof.
  intros W1 W2 E. rewrite <- (from_bytes_as_bytes h1), <- (from_bytes_as_bytes h2) by done.
  by rewrite E.
Qed.

Lemma read_hash_app h rest : hash_wf h -> read_hash (as_bytes h ++ rest) = Ok (h, rest).
Proof.
  intros. unfold read_hash. rewrite (read_exact_app 32) by apply length_as_bytes.
  by rewrite from_bytes_as_bytes.
Qed.
#[export] Hint Rewrite read_hash_app using assumption : wire.

Lemma read_hash_inv bs h rest :
  read_hash bs = Ok (h, rest) -> hash_wf h /\ bs = as_bytes h ++ rest.
Proof.
  unfold read_hash. intros. outcome_cases. apply read_exact_inv in Heqo as [-> Hl].
  split; [apply from_bytes_wf|]. by rewrite as_bytes_from_bytes.
Qed.

#[export] Instance hash_codec : FixedCodec MerkleHash.
Proof.
  refine {| serialize := as_bytes; deserialize := read_hash; codec_size := 32; codec_wf := hash_wf |}.
  - intros. apply length_as_bytes.
  - intros. by apply read_hash_app.
Defined.

#[export] Instance hash_codec_exact : ExactCodec MerkleHash.
Proof. intros bs a rest. apply read_hash_inv. Qed.

Lemma read_hash_not_panic bs : read_hash bs <> Panic.
Proof. unfold read_hash. destruct (read_exact 32 bs) as [[]| |] eqn:E; [done..|by apply read_exact_not_panic in E]. Qed.

#[export] Instance hash_codec_sized : SizedCodec MerkleHash.
Proof.
  split; [|apply read_hash_not_panic]. intros bs a rest [Ha ->]%read_hash_inv.
  split; [done|]. eexists. split; [done|]. apply length_as_bytes.
Qed.

(** [run_reader] runs a reader over the bytes of a written record;
    [reader_cases E] inverts a reader that succeeded, field by field, and
    [reader_total E] one that panicked. *)
Ltac run_reader :=
  rewrite <- ?app_assoc;
  repeat first
    [ rewrite read_hash_app by assumption
    | rewrite read_u32_app by assumption
    | rewrite read_u64_app by assumption
    | rewrite read_exact_app by (first [assumption | apply length_zeros | apply length_replicate]) ].

Ltac reader_cases E :=
  repeat match type of E with
  | context [match read_hash ?b with _ => _ end] =>
      let H := fresh "R" in destruct (read_hash b) as [[? ?]| |] eqn:H; [|discriminate E..];
      apply read_hash_inv in H as [? ->]
  | context [match read_u32 ?b with _ => _ end] =>
      let H := fresh "R" in destruct (read_u32 b) as [[? ?]| |] eqn:H; [|discriminate E..];
      apply read_u32_inv in H as [? ->]
  | context [match read_u64 ?b with _ => _ end] =>
      let H := fresh "R" in destruct (read_u64 b) as [[? ?]| |] eqn:H; [|discriminate E..];
      apply read_u64_inv in H as [? ->]
  | context [match read_exact ?n ?b with _ => _ end] =>
      let H := fresh "R" in destruct (read_exact n b) as [[? ?]| |] eqn:H; [|discriminate E..];
      apply read_exact_inv in H as [-> ?]
  end.

Ltac reader_total E :=
  repeat match type of E with
  | context [match read_hash ?b with _ => _ end] =>
      pose proof (read_hash_not_panic b); destruct (read_hash b) as [[? ?]| |]; try done
  | context [match read_u32 ?b with _ => _ end] =>
      pose proof (read_u32_not_panic b); destruct (read_u32 b) as [[? ?]| |]; try done
  | context [match read_u64 ?b with _ => _ end] =>
      pose proof (read_u64_not_panic b); destruct (read_u64 b) as [[? ?]| |]; try done
  | context [match read_exact ?n ?b with _ => _ end] =>
      pose proof (read_exact_not_panic n b); destruct (read_exact n b) as [[? ?]| |]; try done
  end.

Lemma hash_eqb_spec a b : reflect (a = b) (hash_eqb a b).
Proof. apply bool_decide_reflect. Qed.

Lemma hash_eqb_refl h : hash_eqb h h = true.
Proof. by apply bool_decide_eq_true. Qed.

Section HexLemmas.
Context `{HexLaws}.

Lemma to_hex_length h : String.length (to_hex h) = 64%nat.
Proof. unfold to_hex. by rewrite hex_encode_length, length_as_bytes. Qed.

Lemma to_hex_inj h1 h2 : hash_wf h1 -> hash_wf h2 -> to_hex h1 = to_hex h2 -> h1 = h2.
Proof.
  intros W1 W2 E. apply as_bytes_inj; [done..|].
  apply (f_equal hex_decode) in E. unfold to_hex in E.
  rewrite !hex_decode_encode in E. congruence.
Qed.

Lemma from_hex_of_hex h : hash_wf h -> from_hex (to_hex h) = Ok h.
Proof.
  intros W. unfold from_hex. rewrite to_hex_length. cbn [Nat.eqb negb].
  unfold to_hex. rewrite hex_decode_encode. cbn [ok_or].
  rewrite length_as_bytes. cbn. by rewrite from_bytes_as_bytes.
Qed.

Lemma string_to_upper_length s : String.length (string_to_upper s) = String.length s.
Proof. induction s; cbn; auto. Qed.

Lemma from_hex_upper s : from_hex (string_to_upper s) = from_hex s.
Proof. unfold from_hex. by rewrite string_to_upper_length, hex_decode_upper. Qed.

Lemma from_hex_outcome s :
  from_hex s <> Panic /\
  forall h, from_hex s = Ok h -> hash_wf h /\ String.length s = 64%nat /\ hex_decode s = Some (as_bytes h).
Proof.
  unfold from_hex. destruct (Nat.eqb_spec (String.length s) 64) as [Hs|]; [|done].
  cbn [negb]. destruct (hex_decode s) as [bs|] eqn:Hd; [|done]. cbn [ok_or].
  apply hex_decode_length in Hd as Hl. destruct (Nat.eqb_spec (length bs) 32); [|lia]. split; [done|].
  intros h [= <-]. rewrite as_bytes_from_bytes by done. auto using from_bytes_wf.
Qed.

(** ** Properties *)

(** A hash survives its hex rendering in either letter case, and
    [from_hex] accepts exactly the strings of 64 characters that decode: it
    never panics, and what it returns is well formed. *)
Theorem from_hex_total_roundtrip :
  (forall h, hash_wf h ->
     from_hex (to_hex h) = Ok h /\ from_hex (string_to_upper (to_hex h)) = Ok h) /\
  (forall s, from_hex s <> Panic) /\
  (forall s h, from_hex s = Ok h ->
     hash_wf h /\ String.length s = 64%nat /\ hex_decode s = Some (as_bytes h)).
Proof.
  split; [|split].
  - intros h W. rewrite from_hex_upper. auto using from_hex_of_hex.
  - intros s. apply from_hex_outcome.
  - intros s h. apply from_hex_outcome.
Qed.
End HexLemmas.

Lemma from_hex_total_roundtrip_witness :
  hash_wf (mkHash 1 2 3 (2 ^ 64 - 1)) /\
  @from_hex Model.hex (@to_hex Model.hex (mkHash 1 2 3 (2 ^ 64 - 1))) = Ok (mkHash 1 2 3 (2 ^ 64 - 1)).
Proof.
  assert (hash_wf (mkHash 1 2 3 (2 ^ 64 - 1))) as W by (unfold hash_wf, in_u64; cbn; lia).
  split; [exact W|]. apply (proj1 (@from_hex_total_roundtrip Model.hex Model.hex_laws)). exact W.
Defined.
