(* ===== verification/Hash.v ===== *)
(** * Hashing (src/hash, src/util/streaming_hash.rs)

    The keyed BLAKE3 hashes, their incremental form, and the aggregated
    Merkle hash of a list of chunks. *)
From stdpp Require Import pretty.
From S2P Require Import Prelude Bytes Crates MerkleHash.

Local Open Scope Z_scope.

(** ** Keys (src/hash/blake3_hash.rs) *)
Definition DATA_KEY : list byte := map byte.of_Z
  [102; 151; 245; 119; 91; 149; 80; 222; 49; 53; 203; 172; 165; 151; 24; 28;
   157; 228; 33; 16; 155; 235; 43; 88; 180; 208; 176; 75; 147; 173; 242; 41].

Definition INTERNAL_NODE_KEY : list byte := map byte.of_Z
  [1; 126; 197; 199; 165; 71; 41; 150; 253; 148; 102; 102; 180; 138; 2; 230;
   93; 221; 83; 111; 55; 199; 109; 210; 248; 99; 82; 230; 74; 83; 113; 63].

Section Hashes.
Context `{Blake3}.

Definition compute_data_hash (data : list byte) : MerkleHash :=
  from_bytes (keyed_hash DATA_KEY data).

Definition compute_internal_node_hash (data : list byte) : MerkleHash :=
  from_bytes (keyed_hash INTERNAL_NODE_KEY data).

Definition hmac_hash (key message : MerkleHash) : MerkleHash :=
  from_bytes (keyed_hash (as_bytes key) (as_bytes message)).

(** ** Incremental hashing (src/util/streaming_hash.rs) *)
Record StreamingHasher := mkStreaming {
  sh_hasher : blake3_hasher;
  sh_bytes_processed : Z;
}.
Definition streaming_new : StreamingHasher := mkStreaming (blake3_new_keyed DATA_KEY) 0.
Definition streaming_update (s : StreamingHasher) (data : list byte) : StreamingHasher :=
  mkStreaming (blake3_update (sh_hasher s) data) (as_u64 (sh_bytes_processed s + len data)).
Definition streaming_finalize (s : StreamingHasher) : MerkleHash :=
  from_bytes (blake3_finalize (sh_hasher s)).
End Hashes.

Section Dual.
Context `{Blake3, Sha2, HexCrate}.

Record DualHasher := mkDual {
  dh_blake3 : blake3_hasher;
  dh_sha256 : sha256_hasher;
  dh_bytes_processed : Z;
}.
Definition dual_new : DualHasher := mkDual (blake3_new_keyed DATA_KEY) sha256_new 0.
Definition dual_update (s : DualHasher) (data : list byte) : DualHasher :=
  mkDual (blake3_update (dh_blake3 s) data) (sha256_update (dh_sha256 s) data)
         (as_u64 (dh_bytes_processed s + len data)).
(** Both digests are rendered in lower-case hex. *)
Definition dual_finalize (s : DualHasher) : string * string :=
  (hex_encode (blake3_finalize (dh_blake3 s)), hex_encode (sha256_finalize (dh_sha256 s))).
End Dual.

(** ** The aggregated hash (src/hash/merkle_tree.rs) *)
Definition MEAN_BRANCHING_FACTOR : Z := 4.
Definition MIN_GROUP_SIZE : nat := 2.
Definition MAX_GROUP_SIZE : nat := 9.

(** A node of the tree: hash and total size. *)
Abbreviation node := (MerkleHash * Z)%type.

Definition is_natural_cut (h : MerkleHash) : bool := hash_rem h MEAN_BRANCHING_FACTOR =? 0.

(** The loop of [next_merge_cut]: positions [i], [i+1], ... of the nodes left. *)
Fixpoint first_natural_cut (i : nat) (hashes : list node) : option nat :=
  match hashes with
  | [] => None
  | (h, _) :: rest => if is_natural_cut h then Some (i + 1)%nat else first_natural_cut (S i) rest
  end.

Definition next_merge_cut (hashes : list node) : nat :=
  if (length hashes <=? MIN_GROUP_SIZE)%nat then length hashes
  else
    let end_ := Nat.min MAX_GROUP_SIZE (length hashes) in
    match first_natural_cut MIN_GROUP_SIZE (drop MIN_GROUP_SIZE (take end_ hashes)) with
    | Some cut => cut
    | None => end_
    end.

Section MerkleTree.
Context `{Blake3, HexCrate}.

(** [u64::to_string]. *)
Definition u64_to_string (z : Z) : string := pretty (Z.to_N z).

Definition merge_line (n : node) : list byte :=
  str_bytes (to_hex (fst n)) ++ str_bytes " : " ++
  str_bytes (u64_to_string (snd n)) ++ [Byte.x0a].

(** The text buffer and the running [total_size] of the loop. *)
Definition merge_buffer (hashes : list node) : list byte := concat (map merge_line hashes).
Definition merge_total (hashes : list node) : Z :=
  fold_left (fun total n => as_u64 (total + snd n)) hashes 0.

Definition merged_hash_of_sequence (hashes : list node) : node :=
  (compute_internal_node_hash (merge_buffer hashes), merge_total hashes).

(** One pass of the outer loop: [read_idx] is the length already consumed. *)
Fixpoint merge_round (fuel : nat) (nodes : list node) : option (list node) :=
  match nodes, fuel with
  | [], _ => Some []
  | _ :: _, O => None
  | _ :: _, S fuel' =>
      let cut_point := next_merge_cut nodes in
      new_nodes ← merge_round fuel' (drop cut_point nodes);
      Some (merged_hash_of_sequence (take cut_point nodes) :: new_nodes)
  end.

(** [while nodes.len() > 1]; [nodes[0].0] at the end. *)
Fixpoint collapse (fuel : nat) (nodes : list node) : option MerkleHash :=
  match nodes, fuel with
  | [], _ => None
  | [n], _ => Some (fst n)
  | _, O => None
  | _, S fuel' => new_nodes ← merge_round (length nodes) nodes; collapse fuel' new_nodes
  end.

Definition aggregated_node_hash (chunks : list node) : option MerkleHash :=
  match chunks with
  | [] => Some hash_default
  | _ => collapse (length chunks) chunks
  end.

(** The functions of the public interface.  [aggregated_node_hash] always
    returns (theorem [aggregated_node_hash_total]); the default is not used. *)
Definition xorb_hash (chunks : list node) : MerkleHash :=
  default hash_default (aggregated_node_hash chunks).

Definition file_hash_with_salt (chunks : list node) (salt : MerkleHash) : MerkleHash :=
  match chunks with
  | [] => hash_default
  | _ => hmac_hash salt (default hash_default (aggregated_node_hash chunks))
  end.

Definition file_hash (chunks : list node) : MerkleHash :=
  match chunks with
  | [] => hash_default
  | _ => hmac_hash hash_default (default hash_default (aggregated_node_hash chunks))
  end.
End MerkleTree.

(** ** Specification of the grouping

    [cut_spec l c] says, without the code's scan, where the next group of [l]
    ends: after the first position from index 2 whose hash is a multiple of
    four, else after nine nodes, else at the end. *)
Definition natural_at (l : list node) (i : nat) : Prop :=
  exists n, l !! i = Some n /\ limb0 (fst n) mod 4 = 0.

Definition cut_spec (l : list node) (c : nat) : Prop :=
  (1 <= c <= Nat.min 9 (length l))%nat /\
  (length l = 1%nat \/ (2 <= c)%nat) /\
  (forall i, (2 <= i < c - 1)%nat -> ~ natural_at l i) /\
  (c = Nat.min 9 (length l) \/ ((3 <= c)%nat /\ natural_at l (c - 1))).

Inductive grouping : list node -> list (list node) -> Prop :=
| grouping_nil : grouping [] []
| grouping_cons l c gs :
    l <> [] -> cut_spec l c -> grouping (drop c l) gs -> grouping l (take c l :: gs).

(** [collapses k nodes h]: [k] rounds of merging lead from [nodes] to the single root [h]. *)
Section Collapses.
Context `{Blake3, HexCrate}.
Inductive collapses : nat -> list node -> MerkleHash -> Prop :=
| collapses_root n : collapses 0 [n] (fst n)
| collapses_round k nodes nodes' h :
    (2 <= length nodes)%nat -> merge_round (length nodes) nodes = Some nodes' ->
    collapses k nodes' h -> collapses (S k) nodes h.
End Collapses.

Definition node_wf (n : node) : Prop := hash_wf (fst n) /\ in_u64 (snd n).

(** A collision of the internal node hash. *)
Definition internal_collision `{Blake3} : Prop :=
  exists d1 d2, d1 <> d2 /\ keyed_hash INTERNAL_NODE_KEY d1 = keyed_hash INTERNAL_NODE_KEY d2.

(** Sizes as the code adds them. *)
Definition sum_sizes (l : list node) : Z := foldr (fun n acc => snd n + acc) 0 l.

(** ** Lemmas: cut points *)

Lemma is_natural_cut_true h : is_natural_cut h = true <-> limb0 h mod 4 = 0.
Proof. unfold is_natural_cut, hash_rem. apply Z.eqb_eq. Qed.

Lemma first_natural_cut_Some i l c :
  first_natural_cut i l = Some c ->
  (i < c <= i + length l)%nat /\
  natural_at l (c - 1 - i) /\ (forall j, (j < c - 1 - i)%nat -> ~ natural_at l j).
Proof.
  revert i. induction l as [|[h s] l IH]; intros i; cbn [first_natural_cut]; [done|].
  destruct (is_natural_cut h) eqn:Hn.
  - intros [= <-]. apply is_natural_cut_true in Hn. cbn [length].
    replace (i + 1 - 1 - i)%nat with 0%nat by lia. split; [lia|]. split; [|lia].
    by exists (h, s).
  - intros E. destruct (IH _ E) as (Hc & Hnat & Hbefore). cbn [length]. split; [lia|].
    replace (c - 1 - i)%nat with (S (c - 1 - S i)) by lia. split; [done|].
    intros [|j] Hj (n & Hl & Hm); cbn in Hl.
    + simplify_eq. cbn in Hm. apply is_natural_cut_true in Hm. congruence.
    + apply (Hbefore j); [lia|]. by exists n.
Qed.

Lemma first_natural_cut_None i l :
  first_natural_cut i l = None -> forall j, ~ natural_at l j.
Proof.
  revert i. induction l as [|[h s] l IH]; intros i; cbn [first_natural_cut].
  - intros _ j (n & Hl & _). by rewrite lookup_nil in Hl.
  - destruct (is_natural_cut h) eqn:Hn; [done|]. intros E [|j] (n & Hl & Hm); cbn in Hl.
    + simplify_eq. cbn in Hm. apply is_natural_cut_true in Hm. congruence.
    + apply (IH _ E j). by exists n.
Qed.

(** The window the scan looks at. *)
Lemma natural_at_window l e j :
  natural_at (drop 2 (take e l)) j <-> (2 + j < e)%nat /\ natural_at l (2 + j).
Proof.
  unfold natural_at. split.
  - intros (n & Hl & Hm). rewrite lookup_drop in Hl. apply lookup_take_Some in Hl as [Hl He]. eauto.
  - intros [He (n & Hl & Hm)]. exists n. rewrite lookup_drop. split; [|done].
    apply lookup_take_Some. auto.
Qed.

Lemma next_merge_cut_spec l : l <> [] -> cut_spec l (next_merge_cut l).
Proof.
  intros Hne. assert (1 <= length l)%nat by (destruct l; cbn; [done|lia]).
  unfold next_merge_cut, MIN_GROUP_SIZE, MAX_GROUP_SIZE.
  destruct (Nat.leb_spec (length l) 2) as [Hle|Hgt].
  - unfold cut_spec. split; [lia|]. split; [lia|]. split; [lia|]. lia.
  - set (e := Nat.min 9 (length l)). assert (3 <= e <= 9 /\ e <= length l)%nat by (subst e; lia).
    destruct (first_natural_cut 2 _) as [c|] eqn:E.
    + apply first_natural_cut_Some in E as (Hc & Hnat & Hbefore).
      rewrite length_drop, length_take in Hc. apply natural_at_window in Hnat as [He Hnat].
      replace (2 + (c - 1 - 2))%nat with (c - 1)%nat in * by lia.
      split; [lia|]. split; [lia|]. split; [|right; split; [lia|done]].
      intros i Hi Hni. apply (Hbefore (i - 2)%nat); [lia|]. apply natural_at_window.
      replace (2 + (i - 2))%nat with i by lia. split; [lia|done].
    + pose proof (first_natural_cut_None _ _ E) as Hnone.
      split; [lia|]. split; [lia|]. split; [|by left].
      intros i Hi Hni. apply (Hnone (i - 2)%nat). apply natural_at_window.
      replace (2 + (i - 2))%nat with i by lia. split; [lia|done].
Qed.

(** The specification determines the cut. *)
Lemma cut_spec_unique l c1 c2 : cut_spec l c1 -> cut_spec l c2 -> c1 = c2.
Proof.
  assert (Hle : forall c1 c2, cut_spec l c1 -> cut_spec l c2 -> ~ (c1 < c2)%nat).
  { intros d1 d2 (? & ? & _ & H1) (? & ? & H2 & _) Hlt. destruct H1 as [->|[? Hn]]; [lia|].
    apply (H2 (d1 - 1)%nat); [lia|done]. }
  intros. destruct (Nat.lt_trichotomy c1 c2) as [|[|]]; [|done|]; exfalso.
  - by apply (Hle c1 c2).
  - by apply (Hle c2 c1).
Qed.

Lemma grouping_concat l gs : grouping l gs -> concat gs = l.
Proof. induction 1 as [|l c gs Hne Hc Hg IH]; [done|]. cbn. by rewrite IH, take_drop. Qed.

Lemma grouping_length l gs :
  grouping l gs -> (2 * length gs <= length l + 1 /\ length l <= 9 * length gs)%nat.
Proof.
  induction 1 as [|l c gs Hne (Hc & Hmin & _) Hg IH]; [cbn; lia|].
  cbn [length]. rewrite length_drop in IH. lia.
Qed.

(** The specification determines the grouping. *)
Lemma grouping_unique l gs1 gs2 : grouping l gs1 -> grouping l gs2 -> gs1 = gs2.
Proof.
  intros G1. revert gs2. induction G1 as [|l c1 gs1 Hne Hc1 G1 IH]; intros gs2 G2;
    inversion G2 as [|? c2 gs2' Hne2 Hc2 G2']; subst; try done.
  rewrite (cut_spec_unique l c1 c2) in * by done. f_equal. auto.
Qed.

(** ** Lemmas: rounds *)
Section Rounds.
Context `{Blake3, HexCrate}.

Lemma merge_round_groups fuel l :
  (length l <= fuel)%nat ->
  exists gs, grouping l gs /\ merge_round fuel l = Some (map merged_hash_of_sequence gs).
Proof.
  revert l. induction fuel as [|fuel IH]; intros [|n l] Hf; cbn [length] in Hf; try lia;
    [exists []; split; [constructor|done]..|].
  pose proof (next_merge_cut_spec (n :: l) ltac:(done)) as Hcut. pose proof Hcut as (Hc & _).
  destruct (IH (drop (next_merge_cut (n :: l)) (n :: l))) as (gs & Hg & Hm).
  { rewrite length_drop. cbn [length]. lia. }
  exists (take (next_merge_cut (n :: l)) (n :: l) :: gs). split; [by constructor|].
  cbn [merge_round]. by rewrite Hm.
Qed.

Lemma merge_round_inv l out :
  merge_round (length l) l = Some out ->
  exists gs, grouping l gs /\ out = map merged_hash_of_sequence gs.
Proof.
  intros E. destruct (merge_round_groups (length l) l) as (gs & Hg & Hm); [done|].
  rewrite E in Hm. simplify_eq. eauto.
Qed.

Lemma merge_round_length l out :
  merge_round (length l) l = Some out ->
  (2 * length out <= length l + 1 /\ length l <= 9 * length out)%nat.
Proof.
  intros (gs & Hg & ->)%merge_round_inv. rewrite length_map. by apply grouping_length.
Qed.

Lemma collapse_total fuel l :
  l <> [] -> (length l <= fuel)%nat ->
  exists k h, collapse fuel l = Some h /\ collapses k l h /\
    (k = 0 \/ 2 ^ k <= 2 * (length l - 1))%nat.
Proof.
  revert l. induction fuel as [|fuel IH]; intros [|n [|n2 l]] Hne Hf; cbn [length] in Hf; try (done || lia).
  - exists 0%nat, (fst n). repeat split; [constructor|by left].
  - set (nodes := n :: n2 :: l) in *.
    destruct (merge_round_groups (length nodes) nodes) as (gs & Hg & Hm); [done|].
    pose proof (grouping_length _ _ Hg) as [Hlen Hlen9]. rewrite <- (length_map merged_hash_of_sequence) in Hlen, Hlen9.
    set (nodes' := map merged_hash_of_sequence gs) in *.
    assert (length nodes = S (S (length l))) as Hn by done.
    destruct (IH nodes') as (k & h & Hc & Hcs & Hk).
    { intros E. rewrite E in Hlen9. cbn in Hlen9. lia. }
    { subst nodes'. cbn [length] in *. lia. }
    exists (S k), h. split; [|split].
    + subst nodes. cbn [collapse]. cbn [length] in Hm |- *. by rewrite Hm.
    + econstructor; [lia|exact Hm|done].
    + right. rewrite Nat.pow_succ_r'. destruct Hk as [->|Hk]; [cbn [Nat.pow]; lia|].
      lia.
Qed.

Lemma xorb_hash_collapses chunks :
  chunks <> [] -> exists k, aggregated_node_hash chunks = Some (xorb_hash chunks) /\
    collapses k chunks (xorb_hash chunks) /\ (k = 0 \/ 2 ^ k <= 2 * (length chunks - 1))%nat.
Proof.
  intros Hne. destruct (collapse_total (length chunks) chunks Hne) as (k & h & Hc & Hcs & Hk); [done|].
  exists k. unfold xorb_hash. assert (aggregated_node_hash chunks = Some h) as -> by (by destruct chunks).
  done.
Qed.

Lemma collapses_nonempty k l h : collapses k l h -> l <> [].
Proof. by destruct 1 as [|? []]; cbn in *; [|lia|]. Qed.

Lemma collapses_det k1 k2 l h1 h2 : collapses k1 l h1 -> collapses k2 l h2 -> k1 = k2 /\ h1 = h2.
Proof.
  intros C1. revert k2. induction C1 as [|k l l' h Hl Hm C1 IH]; intros k2 C2.
  - inversion C2; subst; [done|]. cbn in *. lia.
  - inversion C2 as [|k2' ? l2 ? _ Hm2 C2']; subst; [cbn in *; lia|].
    rewrite Hm in Hm2. injection Hm2 as <-. destruct (IH _ C2'). by subst.
Qed.

Lemma file_hash_collapses k l h salt :
  collapses k l h -> file_hash_with_salt l salt = hmac_hash salt h.
Proof.
  intros C. pose proof (collapses_nonempty _ _ _ C) as Hne.
  destruct (xorb_hash_collapses l Hne) as (k' & Ha & C' & _).
  destruct (collapses_det _ _ _ _ _ C C') as [_ ->]. unfold file_hash_with_salt.
  rewrite Ha. by destruct l.
Qed.

Lemma sum_sizes_app l1 l2 : sum_sizes (l1 ++ l2) = sum_sizes l1 + sum_sizes l2.
Proof. unfold sum_sizes. induction l1 as [|n l1 IH]; cbn [app foldr]; lia. Qed.

Lemma merge_total_mod l : merge_total l = sum_sizes l mod 2 ^ 64.
Proof.
  unfold merge_total.
  enough (forall acc, fold_left (fun t n => as_u64 (t + snd n)) l (acc mod 2 ^ 64)
    = (acc + sum_sizes l) mod 2 ^ 64) as Hg by apply (Hg 0).
  induction l as [|n l IH]; intros acc; cbn [fold_left sum_sizes foldr]; [by rewrite Z.add_0_r|].
  replace (as_u64 (acc mod 2 ^ 64 + snd n)) with ((acc + snd n) mod 2 ^ 64)
    by (unfold as_u64; by rewrite Z.add_mod_idemp_l).
  rewrite IH. f_equal. unfold sum_sizes. lia.
Qed.

Lemma merged_node_wf g : node_wf (merged_hash_of_sequence g).
Proof.
  split; cbn; [apply from_bytes_wf|]. rewrite merge_total_mod. by apply Z.mod_pos_bound.
Qed.

Lemma merge_round_wf l out : merge_round (length l) l = Some out -> Forall node_wf out.
Proof.
  intros (gs & _ & ->)%merge_round_inv. apply Forall_map, Forall_true. intros; apply merged_node_wf.
Qed.

Lemma collapses_wf k l h : Forall (fun n => hash_wf (fst n)) l -> collapses k l h -> hash_wf h.
Proof.
  intros W C. induction C as [n|k l l' h Hl Hm C IH].
  - by inversion W.
  - apply IH. eapply Forall_impl; [by eapply merge_round_wf|]. by intros n [? _].
Qed.

Lemma node_wf_hashes l : Forall node_wf l -> Forall (fun n => hash_wf (fst n)) l.
Proof. intros W. eapply Forall_impl; [exact W|]. by intros n [? _]. Qed.

Lemma xorb_hash_wf l : Forall (fun n => hash_wf (fst n)) l -> hash_wf (xorb_hash l).
Proof.
  intros W. destruct (decide (l = [])) as [->|Hne]; [apply hash_default_wf|].
  destruct (xorb_hash_collapses l Hne) as (k & _ & C & _). by eapply collapses_wf.
Qed.

Lemma merge_round_sizes l out :
  merge_round (length l) l = Some out -> sum_sizes out mod 2 ^ 64 = sum_sizes l mod 2 ^ 64.
Proof.
  intros (gs & Hg & ->)%merge_round_inv. rewrite <- (grouping_concat _ _ Hg). clear Hg.
  induction gs as [|g gs IH]; [done|]. cbn [map concat]. rewrite sum_sizes_app.
  change (sum_sizes (merged_hash_of_sequence g :: map merged_hash_of_sequence gs))
    with (merge_total g + sum_sizes (map merged_hash_of_sequence gs)).
  rewrite merge_total_mod, Z.add_mod_idemp_l by done.
  rewrite Z.add_mod, IH, <- Z.add_mod by done. done.
Qed.
End Rounds.

(** ** Lemmas: the text of a group determines the group *)

Lemma pretty_N_go_digits x s :
  string_forallb (fun a => bool_decide (a <> Ascii.ascii_of_nat 10)) s = true ->
  string_forallb (fun a => bool_decide (a <> Ascii.ascii_of_nat 10)) (pretty_N_go x s) = true.
Proof.
  revert s. induction (N.lt_wf_0 x) as [x _ IH]; intros s Hs.
  destruct (decide (0 < x)%N) as [Hx|Hx].
  - rewrite pretty_N_go_step by done. apply IH; [by apply N.div_lt|].
    cbn [string_forallb]. rewrite Hs, andb_true_r.
    unfold pretty_N_char. by repeat case_match.
  - assert (x = 0)%N as -> by lia. by rewrite pretty_N_go_0.
Qed.

Lemma string_no_newline s :
  string_forallb (fun a => bool_decide (a <> Ascii.ascii_of_nat 10)) s = true -> Byte.x0a ∉ str_bytes s.
Proof.
  induction s as [|a s IH]; cbn; [set_solver|]. intros [Ha Hs]%andb_true_iff.
  apply bool_decide_eq_true in Ha. apply not_elem_of_cons. split; [|auto].
  intros E. apply Ha. rewrite <- (Ascii.ascii_of_byte_of_ascii a), <- E. done.
Qed.

Lemma u64_to_string_no_newline z : Byte.x0a ∉ str_bytes (u64_to_string z).
Proof.
  apply string_no_newline. unfold u64_to_string, pretty, pretty_N.
  destruct (decide _); [done|]. by apply pretty_N_go_digits.
Qed.

Lemma u64_to_string_inj a b : 0 <= a -> 0 <= b -> u64_to_string a = u64_to_string b -> a = b.
Proof. unfold u64_to_string. intros ?? E. apply (inj pretty) in E. lia. Qed.

Section Binding.
Context `{Blake3, !Blake3Laws, HexCrate, !HexLaws}.

Lemma merge_line_inj n1 n2 r1 r2 :
  node_wf n1 -> node_wf n2 -> merge_line n1 ++ r1 = merge_line n2 ++ r2 -> n1 = n2 /\ r1 = r2.
Proof.
  intros [W1 S1] [W2 S2]. unfold merge_line. rewrite <- !app_assoc. intros E.
  apply app_inj_1 in E as [Eh E]; [|by rewrite !str_bytes_length, !to_hex_length].
  apply str_bytes_inj, to_hex_inj in Eh; [|done..].
  apply app_inv_head in E. cbn [app] in E.
  apply split_at_sep_inj in E as [Es ->]; [|apply u64_to_string_no_newline..].
  apply str_bytes_inj, u64_to_string_inj in Es; [|apply S1|apply S2].
  destruct n1, n2; cbn in *. by subst.
Qed.

Lemma merge_line_nonempty n : merge_line n <> [].
Proof. unfold merge_line. intros E. apply (f_equal length) in E. rewrite !length_app in E. cbn in E. lia. Qed.

Lemma merge_buffer_inj g1 g2 :
  Forall node_wf g1 -> Forall node_wf g2 -> merge_buffer g1 = merge_buffer g2 -> g1 = g2.
Proof.
  intros W1. revert g2. unfold merge_buffer.
  induction W1 as [|n1 g1 Hn1 W1 IH]; intros g2 W2; inversion W2 as [|n2 g2' Hn2 W2']; subst; cbn.
  - done.
  - intros [E _]%eq_sym%app_nil. by apply merge_line_nonempty in E.
  - intros [E _]%app_nil. by apply merge_line_nonempty in E.
  - intros E. apply merge_line_inj in E as [-> E]; [|done..]. by rewrite (IH g2').
Qed.

(** Equal merged hashes come from equal groups or exhibit a collision. *)
Lemma merged_hash_binding g1 g2 :
  Forall node_wf g1 -> Forall node_wf g2 ->
  fst (merged_hash_of_sequence g1) = fst (merged_hash_of_sequence g2) ->
  g1 = g2 \/ internal_collision.
Proof.
  intros W1 W2 E. cbn in E. unfold compute_internal_node_hash in E.
  apply (f_equal as_bytes) in E. rewrite !as_bytes_from_bytes in E by apply keyed_hash_length.
  destruct (decide (merge_buffer g1 = merge_buffer g2)) as [Eb|Nb].
  - left. by apply merge_buffer_inj.
  - right. by exists (merge_buffer g1), (merge_buffer g2).
Qed.

Lemma merged_groups_binding gs1 gs2 :
  Forall (Forall node_wf) gs1 -> Forall (Forall node_wf) gs2 ->
  map merged_hash_of_sequence gs1 = map merged_hash_of_sequence gs2 ->
  gs1 = gs2 \/ internal_collision.
Proof.
  intros W1. revert gs2. induction W1 as [|g1 gs1 Hg W1 IH]; intros [|g2 gs2] W2; cbn [map]; try done.
  - by left.
  - intros E. inversion W2; subst.
    assert (merged_hash_of_sequence g1 = merged_hash_of_sequence g2) as Eg by congruence.
    destruct (merged_hash_binding g1 g2) as [->|]; [done..|by rewrite Eg| |by right].
    destruct (IH gs2) as [->|]; [done|congruence|by left|by right].
Qed.

Lemma grouping_wf l gs : Forall node_wf l -> grouping l gs -> Forall (Forall node_wf) gs.
Proof. intros W Hg. rewrite <- (grouping_concat _ _ Hg) in W. by apply Forall_concat. Qed.

Lemma collapses_binding k l1 l2 h :
  Forall node_wf l1 -> Forall node_wf l2 -> collapses (S k) l1 h -> collapses (S k) l2 h ->
  l1 = l2 \/ internal_collision.
Proof.
  revert l1 l2. induction k as [|k IH]; intros l1 l2 W1 W2 C1 C2;
    inversion C1 as [|? ? l1' ? _ R1 C1']; inversion C2 as [|? ? l2' ? _ R2 C2']; subst.
  all: pose proof (merge_round_wf _ _ R1) as W1'; pose proof (merge_round_wf _ _ R2) as W2'.
  all: destruct (merge_round_inv _ _ R1) as (gs1 & G1 & E1), (merge_round_inv _ _ R2) as (gs2 & G2 & E2).
  all: assert (map merged_hash_of_sequence gs1 = map merged_hash_of_sequence gs2 -> l1 = l2 \/ internal_collision) as Hgs.
  1,3: intros E; destruct (merged_groups_binding gs1 gs2) as [->|]; eauto using grouping_wf;
       left; by rewrite <- (grouping_concat _ _ G1), <- (grouping_concat _ _ G2).
  - inversion C1' as [n1 E1'|]; inversion C2' as [n2 E2' E3|]; subst.
    assert (exists g1, gs1 = [g1] /\ merged_hash_of_sequence g1 = n1) as (g1 & -> & <-)
      by (destruct gs1 as [|? []]; naive_solver).
    assert (exists g2, gs2 = [g2] /\ merged_hash_of_sequence g2 = n2) as (g2 & -> & <-)
      by (destruct gs2 as [|? []]; naive_solver).
    apply grouping_wf in G1 as HG1, G2 as HG2; [|done..]. inversion HG1. inversion HG2. subst.
    destruct (merged_hash_binding g1 g2) as [->|]; [done..| |by right]. by apply Hgs.
  - destruct (IH l1' l2') as [->|]; [done..| |by right]. apply Hgs. congruence.
Qed.
End Binding.

(** ** Lemmas: incremental hashing *)
Lemma streaming_updates `{Blake3} pieces s :
  sh_hasher (fold_left streaming_update pieces s) = fold_left blake3_update pieces (sh_hasher s) /\
  sh_bytes_processed (fold_left streaming_update pieces s) mod 2 ^ 64 =
    (sh_bytes_processed s + len (concat pieces)) mod 2 ^ 64.
Proof.
  revert s. induction pieces as [|d ds IH]; intros s; cbn [fold_left concat].
  - by rewrite len_nil, Z.add_0_r.
  - destruct (IH (streaming_update s d)) as [-> ->]. split; [done|].
    cbn. unfold as_u64. rewrite Z.add_mod_idemp_l, len_app by done. f_equal. lia.
Qed.

Lemma streaming_bytes_in_range `{Blake3} pieces s :
  in_u64 (sh_bytes_processed s) -> in_u64 (sh_bytes_processed (fold_left streaming_update pieces s)).
Proof.
  revert s. induction pieces as [|d ds IH]; intros s Hs; [done|]. cbn [fold_left]. apply IH.
  cbn. unfold as_u64, in_u64. apply Z.mod_pos_bound. lia.
Qed.

Lemma dual_updates `{Blake3, Sha2} pieces s :
  dh_blake3 (fold_left dual_update pieces s) = fold_left blake3_update pieces (dh_blake3 s) /\
  dh_sha256 (fold_left dual_update pieces s) = fold_left sha256_update pieces (dh_sha256 s).
Proof.
  revert s. induction pieces as [|d ds IH]; intros s; [done|]. cbn [fold_left].
  by destruct (IH (dual_update s d)) as [-> ->].
Qed.

(** ** Properties *)

(** The aggregated hash of a list of chunks is always computed: with as
    much fuel as chunks the outer loop ends, after [k] rounds of merging, and
    [k] is logarithmic in the number of chunks ([2^k <= 2(n-1)]); the empty
    list has the all-zero hash and a single chunk its own. *)
Theorem aggregated_node_hash_total `{Blake3, HexCrate} chunks :
  exists k h, aggregated_node_hash chunks = Some h /\
    ((chunks = [] /\ h = hash_default) \/
     (collapses k chunks h /\ (k = 0 \/ 2 ^ k <= 2 * (length chunks - 1))%nat)).
Proof.
  destruct chunks as [|n l] eqn:E; [by exists 0%nat, hash_default; auto|]. rewrite <- E.
  destruct (xorb_hash_collapses chunks) as (k & Ha & Hc & Hk); [by subst|].
  exists k, (xorb_hash chunks). auto.
Qed.

(** One round of merging computes exactly the grouping of the
    specification, each group ending where [cut_spec] says; every group but a
    lone trailing one has two to nine nodes, so a round at least halves
    (rounding up) the number of nodes, and it conserves the total size modulo
    the width of the counter. *)
Theorem merge_round_refines_grouping `{Blake3, HexCrate} nodes out :
  merge_round (length nodes) nodes = Some out <->
  exists gs, grouping nodes gs /\ out = map merged_hash_of_sequence gs /\
    concat gs = nodes /\ (2 * length out <= length nodes + 1)%nat /\
    (length nodes <= 9 * length out)%nat /\
    sum_sizes out mod 2 ^ 64 = sum_sizes nodes mod 2 ^ 64.
Proof.
  split.
  - intros E. pose proof (merge_round_length _ _ E) as [? ?].
    pose proof (merge_round_sizes _ _ E). destruct (merge_round_inv _ _ E) as (gs & Hg & ->).
    exists gs. eauto 10 using grouping_concat.
  - intros (gs & Hg & -> & _). destruct (merge_round_groups (length nodes) nodes) as (gs' & Hg' & ->); [done|].
    by rewrite (grouping_unique _ _ _ Hg Hg').
Qed.

(** The xorb hash and the file hash bind the list of chunks, sizes
    included: two lists of well-formed chunks that collapse in the same number
    [k >= 1] of rounds and have the same file hash under the same salt are
    equal, unless a collision of one of the keyed hashes is exhibited. *)
Theorem file_hash_binds_chunks `{Blake3Laws, HexLaws} k h1 h2 salt chunks1 chunks2 :
  Forall node_wf chunks1 -> Forall node_wf chunks2 ->
  collapses (S k) chunks1 h1 -> collapses (S k) chunks2 h2 ->
  file_hash_with_salt chunks1 salt = file_hash_with_salt chunks2 salt ->
  chunks1 = chunks2 \/ internal_collision \/
  exists d1 d2, d1 <> d2 /\ keyed_hash (as_bytes salt) d1 = keyed_hash (as_bytes salt) d2.
Proof.
  intros W1 W2 C1 C2. rewrite (file_hash_collapses _ _ _ salt C1), (file_hash_collapses _ _ _ salt C2).
  unfold hmac_hash. intros E.
  apply (f_equal as_bytes) in E. rewrite !as_bytes_from_bytes in E by apply keyed_hash_length.
  destruct (decide (as_bytes h1 = as_bytes h2)) as [Eh|Nh]; [|right; right; eauto].
  apply as_bytes_inj in Eh; [|eauto using collapses_wf, node_wf_hashes..]. subst h2.
  destruct (collapses_binding k chunks1 chunks2 h1); auto.
Qed.

(** Hashing a stream block by block, whatever the blocks, gives the hash
    and the hex digests of the whole input, and counts its bytes. *)
Theorem streaming_hash_oneshot `{Blake3Laws, Sha2Laws, HexCrate} pieces :
  streaming_finalize (fold_left streaming_update pieces streaming_new) =
    compute_data_hash (concat pieces) /\
  sh_bytes_processed (fold_left streaming_update pieces streaming_new) =
    as_u64 (len (concat pieces)) /\
  dual_finalize (fold_left dual_update pieces dual_new) =
    (hex_encode (keyed_hash DATA_KEY (concat pieces)), hex_encode (sha256_digest (concat pieces))).
Proof.
  destruct (streaming_updates pieces streaming_new) as [E1 E2].
  destruct (dual_updates pieces dual_new) as [E3 E4].
  unfold streaming_finalize, dual_finalize. rewrite E1, E3, E4. cbn [sh_hasher streaming_new dh_blake3 dh_sha256 dual_new].
  rewrite !blake3_streaming, sha256_streaming. split; [done|]. split; [|done].
  cbn [sh_bytes_processed streaming_new] in E2. unfold as_u64.
  rewrite Z.add_0_l in E2. rewrite <- E2. symmetry. apply Z.mod_small, streaming_bytes_in_range.
  unfold in_u64. cbn. lia.
Qed.

(** ** Witnesses *)

Definition sample_chunks : list node :=
  [(mkHash 1 0 0 0, 10); (mkHash 2 0 0 0, 20); (mkHash 4 0 0 0, 30); (mkHash 5 0 0 0, 40)].

Lemma sample_chunks_wf : Forall node_wf sample_chunks.
Proof. repeat constructor; unfold in_u64; cbn; lia. Qed.

Lemma file_hash_binds_chunks_witness :
  exists h, @collapses Model.blake3 Model.hex 2 sample_chunks h /\
  (sample_chunks = sample_chunks \/ @internal_collision Model.blake3 \/
   exists d1 d2, d1 <> d2 /\
     @keyed_hash Model.blake3 (as_bytes hash_default) d1 = @keyed_hash Model.blake3 (as_bytes hash_default) d2).
Proof.
  pose (l' := default [] (@merge_round Model.blake3 Model.hex 4 sample_chunks)).
  pose (l'' := default [] (@merge_round Model.blake3 Model.hex 2 l')).
  assert (exists n, l'' = [n]) as [n En] by (eexists; vm_compute; reflexivity).
  assert (@collapses Model.blake3 Model.hex 2 sample_chunks (fst n)) as C.
  { econstructor 2; [cbn; lia|vm_compute; reflexivity|].
    econstructor 2; [cbn; lia|vm_compute; reflexivity|].
    vm_compute in En. injection En as <-. constructor. }
  exists (fst n). split; [exact C|].
  eapply (@file_hash_binds_chunks Model.blake3 Model.blake3_laws Model.hex Model.hex_laws 1 _ _ hash_default
    sample_chunks sample_chunks sample_chunks_wf sample_chunks_wf C C eq_refl).
Defined.

Lemma streaming_hash_oneshot_witness :
  @streaming_finalize Model.blake3
    (fold_left (@streaming_update Model.blake3) [[Byte.x61]; [Byte.x62; Byte.x63]] (@streaming_new Model.blake3)) =
  @compute_data_hash Model.blake3 [Byte.x61; Byte.x62; Byte.x63].
Proof.
  exact (proj1 (@streaming_hash_oneshot Model.blake3 Model.blake3_laws Model.sha2 Model.sha2_laws Model.hex
    [[Byte.x61]; [Byte.x62; Byte.x63]])).
Defined.
