(* ===== verification/Cdc.v ===== *)
(** * Content-defined chunking (src/chunking/cdc.rs)

    The one-shot chunker and the streaming chunker, over the [gearhash]
    interface.  The rolling hash is part of the state of both.  A loop takes
    fuel and answers [Err OutOfFuel], which no run of the code does, when the
    fuel is too small; a slice out of range is a [Panic]. *)
From S2P Require Import Prelude Crates.

Local Open Scope Z_scope.

Record ChunkConfig := mkConfig {
  target_chunk_size : Z;
  min_chunk_divisor : Z;
  max_chunk_multiplier : Z;
}.
Definition config_new : ChunkConfig := mkConfig (64 * 1024) 8 2.
Definition min_chunk_size (c : ChunkConfig) : Z := target_chunk_size c / min_chunk_divisor c.
Definition max_chunk_size (c : ChunkConfig) : Z := target_chunk_size c * max_chunk_multiplier c.

Record Chunk := mkChunk { offset : Z; size : Z }.
#[export] Instance Chunk_eq_dec : EqDecision Chunk.
Proof. solve_decision. Defined.

(** [u64::leading_zeros] and [usize::is_power_of_two]. *)
Definition leading_zeros (z : Z) : Z := if z =? 0 then 64 else 63 - Z.log2 z.
Definition is_power_of_two (z : Z) : bool := (0 <? z) && (2 ^ Z.log2 z =? z).

Definition boundary_mask (target : Z) : Z :=
  as_u64 (Z.shiftl (target - 1) (leading_zeros (target - 1) mod 64)).

Definition hasher_window_size : Z := 64.

Section Chunkers.
Context `{GearHash}.

Record Chunker := mkChunker {
  c_hash : Z;
  c_config : ChunkConfig;
  c_mask : Z;
  c_min : Z;
  c_max : Z;
}.

(** [Chunker::new]; the [assert!] panics. *)
Definition chunker_new (c : ChunkConfig) : outcome loop_error Chunker :=
  if is_power_of_two (target_chunk_size c)
  then Ok (mkChunker gear_default c (boundary_mask (target_chunk_size c))
             (min_chunk_size c) (max_chunk_size c))
  else Panic.

(** The loop of [chunk_data]: rolling hash, data, current offset.  The
    answer is the hash left in the hasher and the chunks pushed. *)
Fixpoint chunk_loop (c : Chunker) (fuel : nat) (hash : Z) (data : list byte) (off : Z)
  : outcome loop_error (Z * list Chunk) :=
  if off <? len data then
    match fuel with
    | O => Err OutOfFuel
    | S fuel' =>
      let remaining := len data - off in
      if remaining <? c_min c then Ok (hash, [mkChunk off remaining])
      else
        let search_start := off + saturating_sub (c_min c) (hasher_window_size + 1) in
        let search_end := Z.min (off + c_max c) (len data) in
        if (len data <=? search_start) || (search_end <=? search_start)
        then Ok (hash, [mkChunk off remaining])
        else
          let* search_data := slice data search_start search_end in
          let (boundary, _) := next_match hash search_data (c_mask c) in
          let chunk_size :=
            match boundary with
            | Some pos => search_start + pos - off
            | None => search_end - off
            end in
          let chunk_size := Z.max chunk_size (Z.min (c_min c) remaining) in
          let* '(hash', chunks) := chunk_loop c fuel' 0 data (off + chunk_size) in
          Ok (hash', mkChunk off chunk_size :: chunks)
    end
  else Ok (hash, []).

Definition chunk_data (c : Chunker) (data : list byte) : outcome loop_error (Chunker * list Chunk) :=
  match data with
  | [] => Ok (c, [])
  | _ =>
      let* '(hash', chunks) := chunk_loop c (length data) (c_hash c) data 0 in
      Ok (mkChunker hash' (c_config c) (c_mask c) (c_min c) (c_max c), chunks)
  end.

(** ** Streaming *)
Record StreamingChunker := mkStreamingChunker {
  s_chunker : Chunker;        (** hasher, config, mask, min_chunk, max_chunk *)
  s_buffer : list byte;
  s_total_offset : Z;
}.

Definition streaming_chunker_new (c : ChunkConfig) : outcome loop_error StreamingChunker :=
  let* k := chunker_new c in Ok (mkStreamingChunker k [] 0).

(** The loop of [drain_complete_chunks]. *)
Fixpoint drain_loop (c : Chunker) (fuel : nat) (hash : Z) (buffer : list byte) (total : Z)
  : outcome loop_error (Z * list byte * Z * list Chunk) :=
  let remaining := len buffer in
  if remaining <? c_min c then Ok (hash, buffer, total, [])
  else if remaining <? c_max c then Ok (hash, buffer, total, [])
  else
    match fuel with
    | O => Err OutOfFuel
    | S fuel' =>
      let search_start := saturating_sub (c_min c) (hasher_window_size + 1) in
      let search_end := c_max c in
      let* search_data := slice buffer search_start search_end in
      let (boundary, _) := next_match hash search_data (c_mask c) in
      let chunk_size :=
        match boundary with
        | Some pos => search_start + pos
        | None => search_end
        end in
      let chunk_size := Z.max chunk_size (Z.min (c_min c) remaining) in
      let* '(hash', buffer', total', chunks) :=
        drain_loop c fuel' 0 (drop (Z.to_nat chunk_size) buffer) (as_u64 (total + chunk_size)) in
      Ok (hash', buffer', total', mkChunk total chunk_size :: chunks)
    end.

Definition with_hash (c : Chunker) (hash : Z) : Chunker :=
  mkChunker hash (c_config c) (c_mask c) (c_min c) (c_max c).

Definition next_block (s : StreamingChunker) (data : list byte)
  : outcome loop_error (StreamingChunker * list Chunk) :=
  let buffer := s_buffer s ++ data in
  let* '(hash', buffer', total', chunks) :=
    drain_loop (s_chunker s) (length buffer) (c_hash (s_chunker s)) buffer (s_total_offset s) in
  Ok (mkStreamingChunker (with_hash (s_chunker s) hash') buffer' total', chunks).

(** The loop of [finalize]. *)
Fixpoint finalize_loop (c : Chunker) (fuel : nat) (hash : Z) (buffer : list byte) (total off : Z)
  : outcome loop_error (list Chunk) :=
  if off <? len buffer then
    match fuel with
    | O => Err OutOfFuel
    | S fuel' =>
      let remaining := len buffer - off in
      if remaining <? c_min c then Ok [mkChunk (as_u64 (total + off)) remaining]
      else
        let search_start := off + saturating_sub (c_min c) (hasher_window_size + 1) in
        let search_end := Z.min (off + c_max c) (len buffer) in
        if (len buffer <=? search_start) || (search_end <=? search_start)
        then Ok [mkChunk (as_u64 (total + off)) remaining]
        else
          let* search_data := slice buffer search_start search_end in
          let (boundary, _) := next_match hash search_data (c_mask c) in
          let chunk_size :=
            match boundary with
            | Some pos => search_start + pos - off
            | None => search_end - off
            end in
          let chunk_size := Z.max chunk_size (Z.min (c_min c) remaining) in
          let* chunks := finalize_loop c fuel' 0 buffer total (off + chunk_size) in
          Ok (mkChunk (as_u64 (total + off)) chunk_size :: chunks)
    end
  else Ok [].

(** [finalize] consumes the chunker. *)
Definition finalize (s : StreamingChunker) : outcome loop_error (list Chunk) :=
  match s_buffer s with
  | [] => Ok []
  | buffer =>
      finalize_loop (s_chunker s) (length buffer) (c_hash (s_chunker s)) buffer (s_total_offset s) 0
  end.

Definition total_bytes (s : StreamingChunker) : Z := as_u64 (s_total_offset s + len (s_buffer s)).

(** Feeding blocks one by one, collecting the chunks. *)
Fixpoint feed (s : StreamingChunker) (blocks : list (list byte))
  : outcome loop_error (StreamingChunker * list Chunk) :=
  match blocks with
  | [] => Ok (s, [])
  | b :: blocks' =>
      let* '(s1, out1) := next_block s b in
      let* '(s2, out2) := feed s1 blocks' in
      Ok (s2, out1 ++ out2)
  end.

(** ** Specification

    The size of the first chunk of the bytes [rest] that are left, and the
    chunking of [rest] placed at offset [base]. *)
Definition first_size (c : Chunker) (rest : list byte) : Z :=
  if len rest <? c_min c then len rest
  else
    let start := saturating_sub (c_min c) (hasher_window_size + 1) in
    let stop := Z.min (c_max c) (len rest) in
    let window := take (Z.to_nat (stop - start)) (drop (Z.to_nat start) rest) in
    let cut := match fst (next_match 0 window (c_mask c)) with
               | Some pos => start + pos
               | None => stop
               end in
    Z.max cut (c_min c).

Inductive chunking (c : Chunker) : Z -> list byte -> list Chunk -> Prop :=
| chunking_nil base : chunking c base [] []
| chunking_cons base rest n chunks :
    rest <> [] -> n = first_size c rest ->
    chunking c (base + n) (drop (Z.to_nat n) rest) chunks ->
    chunking c base rest (mkChunk base n :: chunks).

(** The chunks cover [base, base + total) without gap or overlap, none is
    empty or larger than [c_max], and only the last may be under [c_min]. *)
Fixpoint tiles (c : Chunker) (base total : Z) (chunks : list Chunk) : Prop :=
  match chunks with
  | [] => total = 0
  | k :: chunks' =>
      offset k = base /\ 0 < size k <= c_max c /\ size k <= total /\
      (chunks' <> [] -> c_min c <= size k) /\
      tiles c (base + size k) (total - size k) chunks'
  end.

(** Sizes that make sense, and a hasher that is reset: true of
    [Chunker::new] on the only configuration there is, kept by every call. *)
Definition chunker_ok (c : Chunker) : Prop := 1 <= c_min c <= c_max c /\ c_hash c = 0.
End Chunkers.

(** ** Lemmas *)
Section Lemmas.
Context `{GearHash, !GearLaws}.

Lemma first_size_bounds c rest :
  chunker_ok c -> rest <> [] ->
  0 < first_size c rest <= c_max c /\ first_size c rest <= len rest /\
  (c_min c <= len rest -> c_min c <= first_size c rest).
Proof.
  intros [Hc _] Hne. assert (0 < len rest) by (destruct rest; [done|rewrite len_cons; pose proof (len_nonneg rest); lia]).
  unfold first_size, saturating_sub, hasher_window_size.
  destruct (Z.ltb_spec (len rest) (c_min c)); [lia|].
  set (start := Z.max 0 (c_min c - (64 + 1))). set (stop := Z.min (c_max c) (len rest)).
  assert (0 <= start <= stop) by lia.
  destruct (next_match _ _ _) as [[pos|] h'] eqn:E; cbn [fst]; [|lia].
  apply next_match_range in E. rewrite len_take in E; [lia|]. rewrite len_drop; lia.
Qed.

(** The window and the two guards of the loops, at the offset [off]. *)
Lemma search_window {E} c (data : list byte) off :
  chunker_ok c -> 0 <= off < len data -> c_min c <= len data - off ->
  let start := saturating_sub (c_min c) (hasher_window_size + 1) in
  let stop := Z.min (c_max c) (len data - off) in
  (len data <=? off + start) || (Z.min (off + c_max c) (len data) <=? off + start) = false /\
  slice (E := E) data (off + start) (Z.min (off + c_max c) (len data)) =
    Ok (take (Z.to_nat (stop - start)) (drop (Z.to_nat start) (drop (Z.to_nat off) data))) /\
  Z.min (off + c_max c) (len data) - off = stop.
Proof.
  intros [Hc _] Ho Hm. cbv zeta. unfold saturating_sub, hasher_window_size.
  set (start := Z.max 0 (c_min c - (64 + 1))). assert (0 <= start) by lia.
  split; [apply orb_false_iff; lia|]. split; [|lia].
  rewrite slice_ok by lia. rewrite drop_drop. do 2 f_equal; [lia|f_equal; lia].
Qed.

(** What a loop's body computes at [off] is [first_size] of what is left. *)
Lemma body_first_size c data off :
  chunker_ok c -> 0 <= off < len data -> c_min c <= len data - off ->
  let start := saturating_sub (c_min c) (hasher_window_size + 1) in
  let stop := Z.min (c_max c) (len data - off) in
  let window := take (Z.to_nat (stop - start)) (drop (Z.to_nat start) (drop (Z.to_nat off) data)) in
  Z.max match fst (next_match 0 window (c_mask c)) with
        | Some pos => off + start + pos - off
        | None => Z.min (off + c_max c) (len data) - off
        end (Z.min (c_min c) (len data - off))
  = first_size c (drop (Z.to_nat off) data).
Proof.
  intros Hok Ho Hm. destruct (search_window (E := unit) c data off) as (_ & _ & ->); [done..|].
  cbv zeta. unfold first_size. rewrite len_drop by lia.
  replace (len data - off <? c_min c) with false by lia.
  rewrite (Z.min_l (c_min c)) by lia. f_equal. destruct (fst _); lia.
Qed.

Lemma drop_nonempty (data : list byte) off :
  0 <= off < len data -> drop (Z.to_nat off) data <> [].
Proof. intros Ho E. apply (f_equal len) in E. rewrite len_drop, len_nil in E; lia. Qed.

Lemma chunking_tail c base data off :
  0 <= off -> len data <= off -> chunking c base (drop (Z.to_nat off) data) [].
Proof. intros. rewrite drop_ge by (unfold len in *; lia). constructor. Qed.

(** A remainder under [c_min] is one chunk. *)
Lemma chunking_short c base rest :
  rest <> [] -> len rest < c_min c -> chunking c base rest [mkChunk base (len rest)].
Proof.
  intros Hne Hs. constructor; [done| |].
  - unfold first_size. by replace (len rest <? c_min c) with true by lia.
  - apply chunking_tail; [apply len_nonneg|lia].
Qed.

Lemma chunking_step c base data off chunks :
  chunker_ok c -> 0 <= off < len data ->
  let n := first_size c (drop (Z.to_nat off) data) in
  chunking c (base + n) (drop (Z.to_nat (off + n)) data) chunks ->
  chunking c base (drop (Z.to_nat off) data) (mkChunk base n :: chunks).
Proof.
  intros Hok Ho n Hc. pose proof (drop_nonempty data off Ho) as Hne.
  destruct (first_size_bounds c _ Hok Hne) as [Hn _]. fold n in Hn.
  constructor; [done..|]. rewrite drop_drop. by rewrite <- Z2Nat.inj_add by lia.
Qed.

Lemma chunk_loop_spec c fuel data off :
  chunker_ok c -> 0 <= off -> len data - off <= Z.of_nat fuel ->
  exists chunks, chunk_loop c fuel 0 data off = Ok (0, chunks) /\
    chunking c off (drop (Z.to_nat off) data) chunks.
Proof.
  intros Hok. revert off. induction fuel as [|fuel IH]; intros off Ho Hf; cbn [chunk_loop];
    destruct (Z.ltb_spec off (len data)) as [Hlt|Hge]; try lia;
    [eexists; split; [done|]; apply chunking_tail; lia| |eexists; split; [done|]; apply chunking_tail; lia].
  destruct (Z.ltb_spec (len data - off) (c_min c)) as [Hs|Hm].
  - eexists; split; [done|]. rewrite <- len_drop by lia.
    apply chunking_short; [by apply drop_nonempty|rewrite len_drop; lia].
  - destruct (search_window (E := loop_error) c data off) as (-> & -> & _); [done..|].
    pose proof (body_first_size c data off Hok (conj Ho Hlt) Hm) as Hb. cbv zeta in Hb.
    destruct (next_match 0 _ (c_mask c)) as [boundary h']. cbn [fst] in Hb. rewrite Hb.
    set (n := first_size c _). destruct (first_size_bounds c (drop (Z.to_nat off) data)) as [Hn _];
      [done|by apply drop_nonempty|]. fold n in Hn.
    destruct (IH (off + n)) as (chunks & -> & Hc); [lia..|].
    eexists; split; [done|]. by apply chunking_step.
Qed.

Lemma finalize_loop_spec c fuel buffer total off :
  chunker_ok c -> 0 <= off -> 0 <= total -> total + len buffer < 2 ^ 64 ->
  len buffer - off <= Z.of_nat fuel ->
  exists chunks, finalize_loop c fuel 0 buffer total off = Ok chunks /\
    chunking c (total + off) (drop (Z.to_nat off) buffer) chunks.
Proof.
  intros Hok Ho Ht Hw. revert off Ho. induction fuel as [|fuel IH]; intros off Ho Hf; cbn [finalize_loop];
    destruct (Z.ltb_spec off (len buffer)) as [Hlt|Hge]; try lia;
    [eexists; split; [done|]; apply chunking_tail; lia| |eexists; split; [done|]; apply chunking_tail; lia].
  assert (as_u64 (total + off) = total + off) as -> by (apply Z.mod_small; lia).
  destruct (Z.ltb_spec (len buffer - off) (c_min c)) as [Hs|Hm].
  - eexists; split; [done|]. rewrite <- len_drop by lia.
    apply chunking_short; [by apply drop_nonempty|rewrite len_drop; lia].
  - destruct (search_window (E := loop_error) c buffer off) as (-> & -> & _); [done..|].
    pose proof (body_first_size c buffer off Hok (conj Ho Hlt) Hm) as Hb. cbv zeta in Hb.
    destruct (next_match 0 _ (c_mask c)) as [boundary h']. cbn [fst] in Hb. rewrite Hb.
    set (n := first_size c _). destruct (first_size_bounds c (drop (Z.to_nat off) buffer)) as [Hn _];
      [done|by apply drop_nonempty|]. fold n in Hn.
    destruct (IH (off + n)) as (chunks & -> & Hc); [lia..|].
    eexists; split; [done|]. apply chunking_step; [done..|]. by rewrite Z.add_assoc in Hc.
Qed.

(** More bytes behind a full window do not move its cut. *)
Lemma first_size_app c rest more :
  chunker_ok c -> c_max c <= len rest -> first_size c (rest ++ more) = first_size c rest.
Proof.
  intros [Hc _] Hm. unfold first_size, saturating_sub, hasher_window_size.
  rewrite len_app. pose proof (len_nonneg more).
  replace (len rest + len more <? c_min c) with false by lia.
  replace (len rest <? c_min c) with false by lia.
  rewrite !Z.min_l by lia. rewrite drop_app_le by (unfold len in *; lia).
  rewrite take_app_le; [done|]. rewrite length_drop. unfold len in *. lia.
Qed.

Lemma drain_loop_spec c fuel buffer total :
  chunker_ok c -> 0 <= total -> total + len buffer < 2 ^ 64 -> len buffer <= Z.of_nat fuel ->
  exists buffer' total' out, drain_loop c fuel 0 buffer total = Ok (0, buffer', total', out) /\
    len buffer' < c_max c /\ total <= total' /\ total' + len buffer' = total + len buffer /\
    forall more chunks, chunking c total' (buffer' ++ more) chunks ->
      chunking c total (buffer ++ more) (out ++ chunks).
Proof.
  intros Hok. pose proof Hok as [Hc _]. revert buffer total.
  induction fuel as [|fuel IH]; intros buffer total Ht Hw Hf; cbn [drain_loop];
    (destruct (Z.ltb_spec (len buffer) (c_min c)) as [Hs|Hm];
      [exists buffer, total, []; repeat split; [lia..|done]|]);
    (destruct (Z.ltb_spec (len buffer) (c_max c)) as [Hs|Hx];
      [exists buffer, total, []; repeat split; [lia..|done]|]); [lia|].
  pose proof (len_nonneg buffer).
  pose proof (search_window (E := loop_error) c buffer 0 Hok ltac:(lia) ltac:(lia)) as (_ & Hsl & _).
  pose proof (body_first_size c buffer 0 Hok ltac:(lia) ltac:(lia)) as Hb. cbv zeta in Hsl, Hb.
  rewrite !Z.add_0_l, !Z.sub_0_r, (Z.min_l (c_max c)), drop_0 in * by lia. rewrite Hsl.
  destruct (next_match 0 _ (c_mask c)) as [boundary h']. cbn [fst] in Hb.
  replace (match boundary with Some pos => _ | None => c_max c end) with
    (match boundary with Some pos => saturating_sub (c_min c) (hasher_window_size + 1) + pos - 0 | None => c_max c end)
    by (destruct boundary; lia). rewrite Hb.
  set (n := first_size c buffer).
  destruct (first_size_bounds c buffer Hok) as (Hn & Hl & _); [by intros ->; rewrite len_nil in *; lia|]. fold n in Hn, Hl.
  assert (as_u64 (total + n) = total + n) as -> by (apply Z.mod_small; lia).
  destruct (IH (drop (Z.to_nat n) buffer) (total + n)) as (b' & t' & out & -> & Hb' & Ht' & Hsum & Hcont);
    rewrite ?len_drop by lia; try lia. rewrite len_drop in Hsum by lia.
  exists b', t', (mkChunk total n :: out). split; [done|]. split; [done|]. split; [lia|]. split; [lia|].
  intros more chunks Hch. cbn [app].
  apply (chunking_cons c total (buffer ++ more)).
  - destruct buffer; [rewrite len_nil in *; lia|done].
  - by rewrite first_size_app.
  - rewrite drop_app_le by (unfold len in *; lia). by apply Hcont.
Qed.

(** The state of the streaming chunker between calls. *)
Definition streaming_ok (s : StreamingChunker) : Prop :=
  chunker_ok (s_chunker s) /\ 0 <= s_total_offset s /\ len (s_buffer s) < c_max (s_chunker s).

Lemma next_block_spec s block :
  streaming_ok s -> s_total_offset s + len (s_buffer s ++ block) < 2 ^ 64 ->
  exists s' out, next_block s block = Ok (s', out) /\ streaming_ok s' /\
    s_chunker s' = s_chunker s /\
    s_total_offset s' + len (s_buffer s') = s_total_offset s + len (s_buffer s) + len block /\
    forall more chunks, chunking (s_chunker s) (s_total_offset s') (s_buffer s' ++ more) chunks ->
      chunking (s_chunker s) (s_total_offset s) (s_buffer s ++ block ++ more) (out ++ chunks).
Proof.
  destruct s as [c buffer total]. intros (Hok & Ht & Hb) Hw. cbn in *. pose proof Hok as [_ Hh]. unfold next_block.
  cbn [s_buffer s_chunker s_total_offset]. rewrite Hh.
  destruct (drain_loop_spec c (length (buffer ++ block)) (buffer ++ block) total)
    as (b' & t' & out & -> & Hb' & Ht' & Hsum & Hcont); [done..|by unfold len|].
  rewrite len_app in Hsum.
  assert (with_hash c 0 = c) as -> by (destruct c; cbn in *; by subst).
  eexists _, out. split; [done|]. cbn. split; [split; [done|split; cbn; lia]|].
  split; [done|]. split; [lia|].
  intros more chunks. rewrite app_assoc. apply Hcont.
Qed.

Lemma feed_spec s blocks :
  streaming_ok s -> s_total_offset s + len (s_buffer s ++ concat blocks) < 2 ^ 64 ->
  exists s' out, feed s blocks = Ok (s', out) /\ streaming_ok s' /\ s_chunker s' = s_chunker s /\
    s_total_offset s' + len (s_buffer s') = s_total_offset s + len (s_buffer s) + len (concat blocks) /\
    forall chunks, chunking (s_chunker s) (s_total_offset s') (s_buffer s') chunks ->
      chunking (s_chunker s) (s_total_offset s) (s_buffer s ++ concat blocks) (out ++ chunks).
Proof.
  revert s. induction blocks as [|b bs IH]; intros s Hs Hw; cbn [feed concat] in *.
  - exists s, []. rewrite len_nil, app_nil_r. repeat split; [apply Hs..|lia|done].
  - rewrite !len_app in Hw. pose proof (len_nonneg (concat bs)).
    destruct (next_block_spec s b Hs) as (s1 & out1 & -> & Hs1 & Hc1 & Hsum1 & Hk1);
      [rewrite len_app; lia|].
    destruct (IH s1 Hs1) as (s2 & out2 & -> & Hs2 & Hc2 & Hsum2 & Hk2);
      [rewrite len_app; lia|].
    exists s2, (out1 ++ out2). rewrite Hc1 in *. split; [done|]. split; [done|]. split; [done|].
    split; [rewrite len_app; lia|].
    intros chunks Hch. rewrite <- app_assoc. by apply Hk1, Hk2.
Qed.

Lemma finalize_spec s :
  streaming_ok s -> s_total_offset s + len (s_buffer s) < 2 ^ 64 ->
  exists chunks, finalize s = Ok chunks /\
    chunking (s_chunker s) (s_total_offset s) (s_buffer s) chunks.
Proof.
  destruct s as [c buffer total]. intros (Hok & Ht & _) Hw. cbn in *. pose proof Hok as [_ Hh].
  unfold finalize. cbn [s_buffer s_chunker s_total_offset].
  destruct buffer as [|x buffer]; [exists []; split; [done|constructor]|].
  rewrite Hh. destruct (finalize_loop_spec c (length (x :: buffer)) (x :: buffer) total 0)
    as (chunks & -> & Hch); [done|lia|lia|lia|unfold len; lia|].
  rewrite Z.add_0_r, drop_0 in Hch. eauto.
Qed.

Lemma chunk_data_spec c data :
  chunker_ok c -> exists chunks, chunk_data c data = Ok (c, chunks) /\ chunking c 0 data chunks.
Proof.
  intros Hok. pose proof Hok as [_ Hh]. unfold chunk_data.
  destruct data as [|x data]; [exists []; split; [done|constructor]|].
  rewrite Hh. destruct (chunk_loop_spec c (length (x :: data)) (x :: data) 0) as (chunks & -> & Hch);
    [done|lia|unfold len; lia|].
  rewrite drop_0 in Hch. exists chunks. split; [|done].
  destruct c; cbn in *; by subst.
Qed.

Lemma chunking_det c base rest ch1 ch2 :
  chunking c base rest ch1 -> chunking c base rest ch2 -> ch1 = ch2.
Proof.
  intros H1. revert ch2. induction H1 as [|base rest n ch1 Hne Hn H1 IH]; intros ch2 H2;
    inversion H2; subst; try done. f_equal. by apply IH.
Qed.

Lemma chunking_tiles c base rest chunks :
  chunker_ok c -> chunking c base rest chunks -> tiles c base (len rest) chunks.
Proof.
  intros Hok. induction 1 as [base|base rest n chunks Hne -> Hch IH]; [done|].
  destruct (first_size_bounds c rest Hok Hne) as (Hn & Hl & Hm). rewrite len_drop in IH by lia.
  cbn [tiles offset size]. split; [done|]. split; [done|]. split; [done|]. split; [|done].
  intros Hc. apply Hm. inversion Hch as [? E|? ? ? ? Hne2]; subst; [done|].
  destruct (Z.le_gt_cases (c_min c) (len rest)); [done|].
  (* a short remainder is taken whole *)
  exfalso. apply Hne2, drop_ge. unfold first_size, len in *.
  replace (Z.of_nat (length rest) <? c_min c) with true by lia. lia.
Qed.

(** The chunking of a suffix does not depend on what precedes it. *)
Lemma chunking_shift c base1 base2 rest chunks :
  chunking c base1 rest chunks ->
  chunking c base2 rest (map (fun k => mkChunk (offset k - base1 + base2) (size k)) chunks).
Proof.
  intros Hch. revert base2. induction Hch as [base|base rest n chunks Hne Hn Hch IH]; intros base2; cbn [map offset size].
  - constructor.
  - replace (base - base + base2) with base2 by lia. constructor; [done..|].
    replace (map _ chunks) with (map (fun k => mkChunk (offset k - (base + n) + (base2 + n)) (size k)) chunks); [apply IH|].
    apply map_ext. intros. f_equal. lia.
Qed.

Lemma chunking_split c base rest ch1 ch2 :
  chunker_ok c -> chunking c base rest (ch1 ++ ch2) ->
  exists n, 0 <= n <= len rest /\ chunking c (base + n) (drop (Z.to_nat n) rest) ch2 /\
    n = foldr (fun k acc => size k + acc) 0 ch1.
Proof.
  intros Hok. revert base rest. induction ch1 as [|k ch1 IH]; intros base rest Hch; cbn [app foldr] in *.
  - exists 0. rewrite Z.add_0_r, drop_0. pose proof (len_nonneg rest). auto with lia.
  - inversion Hch as [|? ? n ? Hne Hn Hch']; subst.
    destruct (first_size_bounds c rest Hok Hne) as (Hn & Hl & _). set (n := first_size c rest) in *.
    destruct (IH _ _ Hch') as (m & Hm & Hc & Em). rewrite len_drop in Hm by lia.
    exists (n + m). split; [lia|]. rewrite drop_drop in Hc.
    rewrite <- Z2Nat.inj_add, <- Z.add_assoc in Hc by lia. split; [done|]. cbn. lia.
Qed.

Lemma chunking_nil_inv c base rest : chunking c base rest [] -> rest = [].
Proof. by inversion 1. Qed.
End Lemmas.

Lemma map_size_shift base1 base2 chunks :
  map size (map (fun k => mkChunk (offset k - base1 + base2) (size k)) chunks) = map size chunks.
Proof. rewrite map_map. by apply map_ext. Qed.

Definition total_size (chunks : list Chunk) : Z := foldr (fun k acc => size k + acc) 0 chunks.

(** ** Properties *)

(** One-shot chunking returns, leaves the chunker as it was, and its chunks
    tile the data: contiguous from offset 0 to the end, none empty or larger
    than the maximum, and none smaller than the minimum but the last. *)
Theorem chunk_data_tiles `{GearLaws} c data :
  chunker_ok c ->
  exists chunks, chunk_data c data = Ok (c, chunks) /\ tiles c 0 (len data) chunks.
Proof.
  intros Hok. destruct (chunk_data_spec c data Hok) as (chunks & -> & Hch).
  exists chunks. split; [done|]. by apply chunking_tiles.
Qed.

(** C39: However the data is cut into blocks, the streaming chunker returns
    exactly the chunks of the one-shot chunker (offsets included), never
    buffers as much as a maximal chunk between blocks, and counts the bytes it
    was fed.  The data is shorter than 2^64 bytes. *)
Theorem streaming_equals_oneshot `{GearLaws} config c s blocks :
  chunker_new config = Ok c -> streaming_chunker_new config = Ok s ->
  1 <= c_min c <= c_max c -> len (concat blocks) < 2 ^ 64 ->
  exists s' out fin, feed s blocks = Ok (s', out) /\ finalize s' = Ok fin /\
    chunk_data c (concat blocks) = Ok (c, out ++ fin) /\
    len (s_buffer s') < c_max c /\ total_bytes s' = len (concat blocks).
Proof.
  unfold streaming_chunker_new. intros Hc. rewrite Hc. intros [= <-] Hmm Hw.
  assert (chunker_ok c) as Hok.
  { split; [done|]. unfold chunker_new in Hc. outcome_cases. apply gear_default_zero. }
  destruct (feed_spec (mkStreamingChunker c [] 0) blocks) as (s' & out & -> & Hs' & Hcs & Hsum & Hk);
    [split; [done|split; [cbn; lia|change (0 < c_max c); lia]]|done|].
  cbn [s_chunker s_buffer s_total_offset] in *. change (len []) with 0 in Hsum. pose proof Hs' as (_ & Ht & Hb).
  destruct (finalize_spec s' Hs') as (fin & Hf & Hch); [lia|]. rewrite Hcs in *.
  exists s', out, fin. split; [done|]. split; [done|].
  destruct (chunk_data_spec c (concat blocks) Hok) as (chunks & -> & Hch').
  rewrite (chunking_det _ _ _ _ _ Hch' (Hk _ Hch)). split; [done|]. split; [done|].
  unfold total_bytes, as_u64. rewrite Hsum. rewrite Z.mod_small; pose proof (len_nonneg (concat blocks)); lia.
Qed.

(** Boundaries are content-defined: once the chunkings of two inputs with a
    common suffix both have a boundary where the suffix starts, the rest of
    both inputs is cut into the same chunks. *)
Theorem chunk_boundaries_resynchronise `{GearLaws} c p1 p2 rest a1 b1 a2 b2 :
  chunker_ok c ->
  chunk_data c (p1 ++ rest) = Ok (c, a1 ++ b1) -> total_size a1 = len p1 ->
  chunk_data c (p2 ++ rest) = Ok (c, a2 ++ b2) -> total_size a2 = len p2 ->
  map size b1 = map size b2 /\ total_size b1 = len rest.
Proof.
  intros Hok E1 L1 E2 L2.
  destruct (chunk_data_spec c (p1 ++ rest) Hok) as (ch1 & E1' & C1).
  destruct (chunk_data_spec c (p2 ++ rest) Hok) as (ch2 & E2' & C2).
  rewrite E1 in E1'. rewrite E2 in E2'. injection E1' as <-. injection E2' as <-.
  destruct (chunking_split c 0 _ _ _ Hok C1) as (n1 & _ & D1 & N1).
  destruct (chunking_split c 0 _ _ _ Hok C2) as (n2 & _ & D2 & N2).
  unfold total_size in L1, L2. rewrite N1, L1 in D1. rewrite N2, L2 in D2.
  unfold len in D1, D2. rewrite Nat2Z.id, drop_app_length in D1, D2.
  apply (chunking_shift c _ (0 + Z.of_nat (length p1))) in D2.
  rewrite (chunking_det _ _ _ _ _ D1 D2) at 1. rewrite map_size_shift. split; [done|].
  rewrite <- (app_nil_r b1) in D1. apply chunking_split in D1 as (n & Hn & D & En); [|done].
  unfold total_size. rewrite <- En. apply chunking_nil_inv, (f_equal len) in D.
  rewrite len_drop in D by lia. change (len []) with 0 in D. lia.
Qed.

(** ** Witnesses *)
Definition default_chunker : Chunker :=
  mkChunker 0 config_new (boundary_mask (64 * 1024)) (min_chunk_size config_new) (max_chunk_size config_new).
Definition small_chunker : Chunker := mkChunker 0 config_new 1 2 8.
Definition sample_data : list byte := repeat Byte.x61 3 ++ repeat Byte.x62 9.

Lemma chunk_data_tiles_witness :
  @chunker_new Model.gear config_new = Ok default_chunker /\
  exists chunks, @chunk_data Model.gear small_chunker sample_data = Ok (small_chunker, chunks) /\
    tiles small_chunker 0 (len sample_data) chunks.
Proof.
  split; [vm_compute; reflexivity|].
  apply (@chunk_data_tiles Model.gear Model.gear_laws). split; [cbn; lia|reflexivity].
Defined.

Lemma streaming_equals_oneshot_witness :
  exists s' out fin,
    @feed Model.gear (mkStreamingChunker default_chunker [] 0) [sample_data; []; sample_data] = Ok (s', out) /\
    @finalize Model.gear s' = Ok fin /\
    @chunk_data Model.gear default_chunker (sample_data ++ sample_data) = Ok (default_chunker, out ++ fin) /\
    len (s_buffer s') < c_max default_chunker /\ total_bytes s' = 24.
Proof.
  apply (@streaming_equals_oneshot Model.gear Model.gear_laws config_new default_chunker
    (mkStreamingChunker default_chunker [] 0) [sample_data; []; sample_data]);
    [vm_compute; reflexivity|vm_compute; reflexivity|vm_compute; intuition congruence|vm_compute; reflexivity].
Defined.

Lemma chunk_boundaries_resynchronise_witness :
  @chunk_data Model.gear small_chunker sample_data =
    Ok (small_chunker, [mkChunk 0 2; mkChunk 2 2] ++ [mkChunk 4 8]) /\
  map size [mkChunk 4 8] = map size [mkChunk 8 8] /\ total_size [mkChunk 4 8] = 8.
Proof.
  split; [vm_compute; reflexivity|].
  apply (@chunk_boundaries_resynchronise Model.gear Model.gear_laws small_chunker
    (take 4 sample_data) ([Byte.x64; Byte.x61; Byte.x62; Byte.x67] ++ take 4 sample_data) (drop 4 sample_data)
    [mkChunk 0 2; mkChunk 2 2] [mkChunk 4 8]
    [mkChunk 0 2; mkChunk 2 2; mkChunk 4 2; mkChunk 6 2] [mkChunk 8 8]);
    [split; [cbn; lia|reflexivity]|vm_compute; reflexivity..].
Defined.
