(* ===== verification/Compression.v ===== *)
(** * Chunk compression (src/format/compression.rs)

    The three schemes, the byte-grouping transform with its loops over
    positions, and the guards of decompression.  Indices into a buffer are
    [nat]; [original_size] is a [usize]. *)
From S2P Require Import Prelude Bytes Crates.

Local Open Scope Z_scope.

Inductive CompressionScheme := NoCompression | LZ4 | ByteGrouping4LZ4.
#[export] Instance CompressionScheme_eq_dec : EqDecision CompressionScheme.
Proof. solve_decision. Defined.

(** [as u8] and [TryFrom<u8>]. *)
Definition scheme_to_u8 (s : CompressionScheme) : Z :=
  match s with NoCompression => 0 | LZ4 => 1 | ByteGrouping4LZ4 => 2 end.
Definition scheme_try_from (value : Z) : XetResult CompressionScheme :=
  if value =? 0 then Ok NoCompression
  else if value =? 1 then Ok LZ4
  else if value =? 2 then Ok ByteGrouping4LZ4
  else Err (ParseError "Invalid compression scheme").

(** The number of bytes of group [k]: [base_size + if remainder > k { 1 } else { 0 }]. *)
Definition group_size (n k : nat) : nat := (n / 4 + if (k <? n mod 4)%nat then 1 else 0)%nat.

(** [for i in 0..size { let pos = i * 4 + k; if pos < len { result.push(data[pos]) } }] *)
Definition split_group (data : list byte) (k size : nat) (result : list byte) : list byte :=
  fold_left (fun result i =>
    match data !! (i * 4 + k)%nat with
    | Some b => result ++ [b]
    | None => result
    end) (seq 0 size) result.

Definition bg4_split (data : list byte) : list byte :=
  match data with
  | [] => []
  | _ =>
      let n := length data in
      let result := split_group data 0 (group_size n 0) [] in
      let result := split_group data 1 (group_size n 1) result in
      let result := split_group data 2 (group_size n 2) result in
      split_group data 3 (n / 4) result
  end.

(** [for i in 0..size { let pos = i * 4 + k; if pos < original_len
    { result[pos] = data[offset]; offset += 1 } }]; reading past [data] panics. *)
Definition regroup_pos (original_len : nat) (data : list byte) (st : list byte * nat) (pos : nat)
  : XetResult (list byte * nat) :=
  let '(result, offset) := st in
  if (pos <? original_len)%nat then
    match data !! offset with
    | Some b => Ok (<[pos := b]> result, S offset)
    | None => Panic
    end
  else Ok (result, offset).

Definition regroup_group (original_len : nat) (data : list byte) (k size : nat)
    (st : list byte * nat) : XetResult (list byte * nat) :=
  fold_outcome (fun st i => regroup_pos original_len data st (i * 4 + k)%nat) st (seq 0 size).

Definition bg4_regroup (data : list byte) (original_len : nat) : XetResult (list byte) :=
  if (original_len =? 0)%nat then
    match data with
    | [] => Ok []
    | _ => Err (ParseError "BG4 regroup: expected empty data")
    end
  else
    let group0_size := group_size original_len 0 in
    let group1_size := group_size original_len 1 in
    let group2_size := group_size original_len 2 in
    let group3_size := (original_len / 4)%nat in
    let expected_len := (group0_size + group1_size + group2_size + group3_size)%nat in
    ensure (length data =? expected_len)%nat else (ParseError "BG4 regroup: data length mismatch") in
    let* st := regroup_group original_len data 0 group0_size (zeros original_len, 0%nat) in
    let* st := regroup_group original_len data 1 group1_size st in
    let* st := regroup_group original_len data 2 group2_size st in
    let* '(result, offset) := regroup_group original_len data 3 group3_size st in
    ensure (offset =? length data)%nat else (ParseError "BG4 regroup: data consumption error") in
    Ok result.

Definition MAX_DECOMPRESSED_SIZE : Z := 16 * 1024 * 1024.

Definition check_lz4_prefix (data : list byte) (original_size : Z) : XetResult unit :=
  ensure (original_size <=? MAX_DECOMPRESSED_SIZE) else (ParseError "Declared uncompressed size exceeds maximum") in
  ensure (4 <=? len data) else (ParseError "LZ4 data too short for size prefix") in
  let prefix := from_le_bytes (take 4 data) in
  ensure (prefix =? original_size) else (ParseError "LZ4 size prefix does not match expected uncompressed size") in
  Ok tt.

Section Schemes.
Context `{Lz4}.

Definition compress (scheme : CompressionScheme) (data : list byte) : XetResult (list byte) :=
  match scheme with
  | NoCompression => Ok data
  | LZ4 => Ok (compress_prepend_size data)
  | ByteGrouping4LZ4 => Ok (compress_prepend_size (bg4_split data))
  end.

Definition decompress (scheme : CompressionScheme) (data : list byte) (original_size : Z)
  : XetResult (list byte) :=
  match scheme with
  | NoCompression =>
      ensure (len data =? original_size) else (ParseError "Uncompressed data size") in
      Ok data
  | LZ4 =>
      let* _ := check_lz4_prefix data original_size in
      let* out := ok_or (decompress_size_prepended data) (ParseError "LZ4 decompression failed") in
      ensure (len out =? original_size) else (ParseError "LZ4 output size") in
      Ok out
  | ByteGrouping4LZ4 =>
      let* _ := check_lz4_prefix data original_size in
      let* decompressed := ok_or (decompress_size_prepended data) (ParseError "BG4-LZ4 decompression failed") in
      bg4_regroup decompressed (Z.to_nat original_size)
  end.
End Schemes.

(** ** Specification: the permutation of the byte grouping *)
Definition group_positions (k size : nat) : list nat := map (fun i => (i * 4 + k)%nat) (seq 0 size).
Definition bg4_positions (n : nat) : list nat :=
  group_positions 0 (group_size n 0) ++ group_positions 1 (group_size n 1) ++
  group_positions 2 (group_size n 2) ++ group_positions 3 (n / 4).

(** ** Lemmas *)

Lemma group_sizes_sum n :
  (group_size n 0 + group_size n 1 + group_size n 2 + n / 4 = n)%nat.
Proof.
  unfold group_size. pose proof (Nat.div_mod_eq n 4). pose proof (Nat.mod_upper_bound n 4 ltac:(lia)).
  destruct (Nat.ltb_spec 0 (n mod 4)), (Nat.ltb_spec 1 (n mod 4)), (Nat.ltb_spec 2 (n mod 4)); lia.
Qed.

Lemma bg4_positions_length n : length (bg4_positions n) = n.
Proof.
  unfold bg4_positions, group_positions. rewrite !length_app, !length_map, !length_seq.
  pose proof (group_sizes_sum n). lia.
Qed.

Lemma elem_of_group_positions p k size :
  p ∈ group_positions k size <-> exists i, (i < size)%nat /\ p = (i * 4 + k)%nat.
Proof.
  unfold group_positions. rewrite list_elem_of_fmap. setoid_rewrite elem_of_seq.
  split; intros (i & ? & ?); exists i; split; (lia || done).
Qed.

Lemma bg4_positions_bound n p : p ∈ bg4_positions n -> (p < n)%nat.
Proof.
  unfold bg4_positions. rewrite !elem_of_app, !elem_of_group_positions. unfold group_size.
  pose proof (Nat.div_mod_eq n 4).
  destruct (Nat.ltb_spec 0 (n mod 4)), (Nat.ltb_spec 1 (n mod 4)), (Nat.ltb_spec 2 (n mod 4));
    intros [(i & ? & ->)|[(i & ? & ->)|[(i & ? & ->)|(i & ? & ->)]]]; lia.
Qed.

Lemma group_positions_NoDup k size : NoDup (group_positions k size).
Proof. apply NoDup_fmap_2; [intros ? ? ?; lia|]. apply NoDup_seq. Qed.

Lemma bg4_positions_NoDup n : NoDup (bg4_positions n).
Proof.
  unfold bg4_positions. rewrite !NoDup_app.
  repeat split; try apply group_positions_NoDup; intros p;
    rewrite ?elem_of_app, !elem_of_group_positions; intros (i & _ & ->);
    [intros [(j & _ & ?)|[(j & _ & ?)|(j & _ & ?)]]|intros [(j & _ & ?)|(j & _ & ?)]|intros (j & _ & ?)]; lia.
Qed.

Lemma bg4_positions_perm n : bg4_positions n ≡ₚ seq 0 n.
Proof.
  apply NoDup_Permutation_bis; [apply NoDup_ListNoDup, bg4_positions_NoDup| |].
  - rewrite bg4_positions_length, length_seq. done.
  - intros p Hp. apply list_elem_of_In, bg4_positions_bound in Hp. apply list_elem_of_In, elem_of_seq. lia.
Qed.

Lemma split_group_omap data k size result :
  split_group data k size result = result ++ omap (data !!.) (group_positions k size).
Proof.
  unfold split_group, group_positions. generalize (seq 0 size) as js. intros js. revert result.
  induction js as [|i js IH]; intros result; cbn [fold_left map]; [by rewrite app_nil_r|].
  rewrite IH. cbn. destruct (data !! (i * 4 + k)%nat); [by rewrite <- app_assoc|done].
Qed.

Lemma bg4_split_omap data : bg4_split data = omap (data !!.) (bg4_positions (length data)).
Proof.
  unfold bg4_positions. destruct data as [|b data]; [done|]. unfold bg4_split.
  rewrite !split_group_omap, app_nil_l, <- !app_assoc. by rewrite !omap_app.
Qed.

(** Gathering positions that exist. *)
Lemma omap_lookup_total {A} (l : list A) (ps : list nat) j :
  (forall p, p ∈ ps -> (p < length l)%nat) ->
  omap (l !!.) ps !! j = p ← ps !! j; l !! p.
Proof.
  revert j. induction ps as [|p ps IH]; intros j Hp; [done|]. cbn.
  destruct (lookup_lt_is_Some_2 l p) as [a Ha]; [apply Hp; set_solver|]. rewrite Ha.
  destruct j as [|j]; cbn; [by rewrite Ha|]. apply IH. set_solver.
Qed.

Lemma omap_lookup_length {A} (l : list A) (ps : list nat) :
  (forall p, p ∈ ps -> (p < length l)%nat) -> length (omap (l !!.) ps) = length ps.
Proof.
  induction ps as [|p ps IH]; intros Hp; [done|]. cbn.
  destruct (lookup_lt_is_Some_2 l p) as [a Ha]; [apply Hp; set_solver|]. rewrite Ha. cbn.
  f_equal. apply IH. set_solver.
Qed.

Lemma omap_lookup_seq {A} (l : list A) : omap (l !!.) (seq 0 (length l)) = l.
Proof.
  apply list_eq. intros j. rewrite omap_lookup_total by (intros p ?%elem_of_seq; lia).
  destruct (decide (j < length l)%nat).
  - by rewrite lookup_seq_lt by done.
  - rewrite lookup_seq_ge by lia. cbn. symmetry. apply lookup_ge_None_2. lia.
Qed.

Lemma regroup_group_positions n data k size st :
  regroup_group n data k size st = fold_outcome (regroup_pos n data) st (group_positions k size).
Proof.
  unfold regroup_group, group_positions. revert st. induction (seq 0 size) as [|i js IH]; intros st; [done|].
  cbn [fold_outcome map]. destruct (regroup_pos _ _ _ _); [apply IH|done..].
Qed.

(** Scattering to distinct positions. *)
Lemma scatter_spec n data ps result offset :
  length result = n -> NoDup ps -> (forall p, p ∈ ps -> (p < n)%nat) ->
  (offset + length ps <= length data)%nat ->
  exists result', fold_outcome (regroup_pos n data) (result, offset) ps = Ok (result', (offset + length ps)%nat) /\
    length result' = n /\
    (forall j p, ps !! j = Some p -> result' !! p = data !! (offset + j)%nat) /\
    (forall p, p ∉ ps -> result' !! p = result !! p).
Proof.
  revert result offset. induction ps as [|p ps IH]; intros result offset Hl Hnd Hp Ho; cbn [fold_outcome length] in *.
  - exists result. rewrite Nat.add_0_r. repeat split; [done|]. intros j p Hj. by rewrite lookup_nil in Hj.
  - apply NoDup_cons in Hnd as [Hnp Hnd].
    destruct (lookup_lt_is_Some_2 data offset) as [b Hb]; [lia|].
    assert (p < n)%nat as Hpn by (apply Hp; set_solver).
    assert (regroup_pos n data (result, offset) p = Ok (<[p:=b]> result, S offset)) as ->.
    { unfold regroup_pos. rewrite Hb. by replace (p <? n)%nat with true by (symmetry; by apply Nat.ltb_lt). }
    destruct (IH (<[p:=b]> result) (S offset)) as (r' & -> & Hl' & Hin & Hout);
      [by rewrite length_insert|done|set_solver|lia|].
    exists r'. split; [do 2 f_equal; lia|]. split; [done|]. split.
    + intros [|j] q Hq; cbn in Hq; simplify_eq.
      * rewrite Hout, list_lookup_insert_eq, Nat.add_0_r by (done || lia). done.
      * rewrite (Hin j q Hq). f_equal. lia.
    + intros q Hq. rewrite Hout by set_solver. apply list_lookup_insert_ne. set_solver.
Qed.

Lemma bg4_regroup_spec data n :
  length data = n ->
  exists result, bg4_regroup data n = Ok result /\ length result = n /\
    forall j p, bg4_positions n !! j = Some p -> result !! p = data !! j.
Proof.
  intros Hl. unfold bg4_regroup. destruct (Nat.eqb_spec n 0) as [->|Hn].
  { destruct data; [|done]. exists []. split; [done|]. split; [done|]. by intros [|j] p Hj. }
  rewrite (group_sizes_sum n), Hl, Nat.eqb_refl.
  destruct (scatter_spec n data (bg4_positions n) (zeros n) 0) as (r & E & Hr & Hin & _);
    [apply length_zeros|apply bg4_positions_NoDup|apply bg4_positions_bound|by rewrite bg4_positions_length, Hl|].
  rewrite bg4_positions_length, Nat.add_0_l in E. exists r. split; [|split; [done|exact Hin]].
  unfold bg4_positions in E. rewrite !fold_outcome_app, <- !regroup_group_positions in E.
  destruct (regroup_group _ _ 0 _ _) as [st0| |]; try done.
  rewrite fold_outcome_app, <- regroup_group_positions in E.
  destruct (regroup_group _ _ 1 _ _) as [st1| |]; try done.
  rewrite fold_outcome_app, <- regroup_group_positions in E.
  destruct (regroup_group _ _ 2 _ _) as [st2| |]; try done.
  rewrite <- regroup_group_positions in E. by rewrite E, Nat.eqb_refl.
Qed.

Lemma bg4_split_lookup data j p :
  bg4_positions (length data) !! j = Some p -> bg4_split data !! j = data !! p.
Proof.
  intros Hj. rewrite bg4_split_omap, omap_lookup_total by apply bg4_positions_bound. by rewrite Hj.
Qed.

Lemma bg4_split_length data : length (bg4_split data) = length data.
Proof.
  rewrite bg4_split_omap, omap_lookup_length by apply bg4_positions_bound. apply bg4_positions_length.
Qed.

Lemma bg4_positions_surj n p : (p < n)%nat -> exists j, bg4_positions n !! j = Some p.
Proof. intros Hp. apply list_elem_of_lookup. rewrite bg4_positions_perm. apply elem_of_seq. lia. Qed.

Lemma bg4_positions_dom n j : (j < n)%nat -> exists p, bg4_positions n !! j = Some p.
Proof. intros Hj. apply lookup_lt_is_Some_2. by rewrite bg4_positions_length. Qed.

Lemma bg4_regroup_split data : bg4_regroup (bg4_split data) (length data) = Ok data.
Proof.
  destruct (bg4_regroup_spec (bg4_split data) (length data)) as (r & -> & Hl & Hr); [apply bg4_split_length|].
  f_equal. apply list_eq_same_length with (length data); [done..|]. intros p x y Hp Hx Hy.
  destruct (bg4_positions_surj _ _ Hp) as [j Hj].
  rewrite (Hr _ _ Hj), (bg4_split_lookup _ _ _ Hj) in Hx. congruence.
Qed.

Lemma bg4_split_regroup data n r : bg4_regroup data n = Ok r -> length r = n /\ bg4_split r = data.
Proof.
  intros E. assert (length data = n) as Hl.
  { unfold bg4_regroup in E. destruct (Nat.eqb_spec n 0) as [->|]; [by destruct data|].
    destruct (Nat.eqb_spec (length data) (group_size n 0 + group_size n 1 + group_size n 2 + n / 4)); [|done].
    pose proof (group_sizes_sum n). lia. }
  destruct (bg4_regroup_spec data n Hl) as (r' & E' & Hl' & Hr). rewrite E in E'. injection E' as <-.
  split; [done|]. apply list_eq_same_length with n; [done|by rewrite bg4_split_length|].
  intros j x y Hj Hx Hy. destruct (bg4_positions_dom n j) as [p Hp]; [done|].
  rewrite (bg4_split_lookup r j p) in Hx by (by rewrite Hl'). rewrite (Hr _ _ Hp) in Hx. congruence.
Qed.

Lemma bg4_regroup_not_panic data n : bg4_regroup data n <> Panic.
Proof.
  destruct (decide (length data = n)) as [Hl|Hl].
  - by destruct (bg4_regroup_spec data n Hl) as (r & -> & _).
  - unfold bg4_regroup. destruct (Nat.eqb_spec n 0); [by destruct data|].
    rewrite (group_sizes_sum n). by destruct (Nat.eqb_spec (length data) n).
Qed.

Lemma check_lz4_prefix_ok data original_size :
  check_lz4_prefix data original_size = Ok tt <->
  original_size <= MAX_DECOMPRESSED_SIZE /\ 4 <= len data /\ from_le_bytes (take 4 data) = original_size.
Proof.
  unfold check_lz4_prefix. destruct (Z.leb_spec original_size MAX_DECOMPRESSED_SIZE); [|split; [done|lia]].
  destruct (Z.leb_spec 4 (len data)); [|split; [done|lia]].
  destruct (Z.eqb_spec (from_le_bytes (take 4 data)) original_size); split; (done || lia).
Qed.

Lemma check_lz4_prefix_not_panic data n : check_lz4_prefix data n <> Panic.
Proof. unfold check_lz4_prefix. by repeat case_match. Qed.

Lemma decompress_inverts `{Lz4Laws} scheme data :
  (scheme <> NoCompression -> len data <= MAX_DECOMPRESSED_SIZE) ->
  exists c, compress scheme data = Ok c /\ decompress scheme c (len data) = Ok data.
Proof.
  intros Hb. assert (forall d, scheme <> NoCompression -> len d = len data ->
    check_lz4_prefix (compress_prepend_size d) (len data) = Ok tt /\
    decompress_size_prepended (compress_prepend_size d) = Some d) as Hlz.
  { intros d Hs Hl. specialize (Hb Hs). unfold MAX_DECOMPRESSED_SIZE in Hb. pose proof (len_nonneg data).
    split; [|apply lz4_roundtrip; lia]. apply check_lz4_prefix_ok.
    pose proof (f_equal length (lz4_prefix d)) as Hp. rewrite length_take, length_u32_to_le_bytes in Hp.
    split; [done|]. split; [unfold len; lia|].
    rewrite lz4_prefix. unfold as_u32. rewrite Z.mod_small, from_to_le_u32 by (unfold in_u32; lia). done. }
  destruct scheme; cbn [compress decompress]; (eexists; split; [done|]).
  - by rewrite Z.eqb_refl.
  - destruct (Hlz data) as [-> ->]; [done..|]. cbn. by rewrite Z.eqb_refl.
  - destruct (Hlz (bg4_split data)) as [-> ->]; [done|unfold len; by rewrite bg4_split_length|]. cbn.
    unfold len. rewrite Nat2Z.id. apply bg4_regroup_split.
Qed.

Lemma decompress_guards `{Lz4} scheme data original_size :
  decompress scheme data original_size <> Panic /\
  (forall out, decompress scheme data original_size = Ok out -> 0 <= original_size -> len out = original_size) /\
  (forall out, decompress scheme data original_size = Ok out -> scheme <> NoCompression ->
     original_size <= MAX_DECOMPRESSED_SIZE /\ from_le_bytes (take 4 data) = original_size).
Proof.
  pose proof (check_lz4_prefix_not_panic data original_size).
  pose proof (check_lz4_prefix_ok data original_size) as Hok.
  destruct scheme; cbn [decompress].
  - destruct (Z.eqb_spec (len data) original_size); (split; [done|split; [|done]]); intros; by simplify_eq.
  - destruct (check_lz4_prefix data original_size) as [[]| |]; try done.
    destruct (decompress_size_prepended data) as [d|]; cbn [ok_or]; [|done].
    destruct (Z.eqb_spec (len d) original_size); [|done]. split; [done|].
    split; intros; simplify_eq; [done|tauto].
  - destruct (check_lz4_prefix data original_size) as [[]| |]; try done.
    destruct (decompress_size_prepended data) as [d|]; cbn [ok_or]; [|done].
    split; [apply bg4_regroup_not_panic|]. split; [|tauto].
    intros out [Hl _]%bg4_split_regroup Hp. unfold len. lia.
Qed.

(** ** Properties *)

(** Byte grouping is a bijection on the buffers of each length: regrouping
    inverts splitting, splitting inverts every regrouping that succeeds, and
    regrouping succeeds exactly when the lengths agree, without ever reading
    or writing out of range. *)
Theorem bg4_bijection data :
  bg4_split data ≡ₚ data /\ bg4_regroup (bg4_split data) (length data) = Ok data /\
  (forall n r, bg4_regroup data n = Ok r -> length r = n /\ bg4_split r = data) /\
  (forall n, bg4_regroup data n <> Panic) /\
  (forall n, is_ok (bg4_regroup data n) = true <-> length data = n).
Proof.
  split; [|split; [apply bg4_regroup_split|split; [apply bg4_split_regroup|split; [apply bg4_regroup_not_panic|]]]].
  - rewrite bg4_split_omap, bg4_positions_perm. by rewrite omap_lookup_seq.
  - intros n. split.
    + destruct (bg4_regroup data n) as [r| |] eqn:E; try done. intros _.
      apply bg4_split_regroup in E as [<- <-]. apply bg4_split_length.
    + intros Hl. by destruct (bg4_regroup_spec data n Hl) as (r & -> & _).
Qed.

(** C40: What any scheme compresses it decompresses to the same bytes, up to the
    16 MiB bound the decompressor enforces on the LZ4 schemes. *)
Theorem decompress_compress `{Lz4Laws} scheme data :
  (scheme <> NoCompression -> len data <= MAX_DECOMPRESSED_SIZE) ->
  exists c, compress scheme data = Ok c /\ decompress scheme c (len data) = Ok data.
Proof. apply decompress_inverts. Qed.

(** Decompression never panics, returns exactly the declared number of
    bytes, and hands data to the LZ4 decoder only when the declared size is at
    most 16 MiB and equals the size prefix the decoder allocates for; larger
    or inconsistent declarations are errors, whatever the decoder would do. *)
Theorem decompress_bounded `{Lz4} scheme data original_size :
  decompress scheme data original_size <> Panic /\
  (forall out, decompress scheme data original_size = Ok out -> 0 <= original_size -> len out = original_size) /\
  (forall out, decompress scheme data original_size = Ok out -> scheme <> NoCompression ->
     original_size <= MAX_DECOMPRESSED_SIZE /\ from_le_bytes (take 4 data) = original_size).
Proof. apply decompress_guards. Qed.

(** ** Witnesses *)
Definition sample_text : list byte := [Byte.x41; Byte.x42; Byte.x43; Byte.x44; Byte.x45; Byte.x46; Byte.x47; Byte.x48; Byte.x49].

Example bg4_split_sample :
  bg4_split sample_text = [Byte.x41; Byte.x45; Byte.x49; Byte.x42; Byte.x46; Byte.x43; Byte.x47; Byte.x44; Byte.x48].
Proof. reflexivity. Qed.

Lemma decompress_compress_witness :
  exists c, @compress Model.lz4 ByteGrouping4LZ4 sample_text = Ok c /\
    @decompress Model.lz4 ByteGrouping4LZ4 c 9 = Ok sample_text.
Proof.
  apply (@decompress_compress Model.lz4 Model.lz4_laws). intros _. vm_compute. congruence.
Defined.
