(* ===== verification/Xorb.v ===== *)
(** * The xorb format (src/format/xorb.rs)

    Chunk headers, the footer, and the two verifiers.  A file is the list of
    its bytes; the failures of opening, measuring and seeking it are not
    modelled, short reads are ([FileReads]). *)
From S2P Require Import Prelude Bytes Crates MerkleHash Hash Compression.

Local Open Scope Z_scope.

(** ** Chunk header *)
Record XorbChunkHeader := mkChunkHeader {
  version : Z;
  compressed_length : Z;
  compression_scheme : CompressionScheme;
  uncompressed_length : Z;
}.

(** [to_le_bytes()[0..3]] and [from_le_bytes([b0, b1, b2, 0])]. *)
Definition to_le_3 (z : Z) : list byte := take 3 (u32_to_le_bytes z).
Definition from_le_3 (buf : list byte) : Z := from_le_bytes (buf ++ [Byte.x00]).

Definition header_serialize (h : XorbChunkHeader) : list byte :=
  [byte.of_Z (version h)] ++ to_le_3 (compressed_length h) ++
  [byte.of_Z (scheme_to_u8 (compression_scheme h))] ++ to_le_3 (uncompressed_length h).

Definition header_deserialize : reader XorbChunkHeader := fun bs =>
  read* version_buf := (read_exact 1) from bs in
  let version := from_le_bytes version_buf in
  read* cl_buf := (read_exact 3) from bs in
  let compressed_length := from_le_3 cl_buf in
  read* scheme_buf := (read_exact 1) from bs in
  let* compression_scheme :=
    map_err (fun _ => IoError InvalidData) (scheme_try_from (from_le_bytes scheme_buf)) in
  read* ul_buf := (read_exact 3) from bs in
  let uncompressed_length := from_le_3 ul_buf in
  Ok (mkChunkHeader version compressed_length compression_scheme uncompressed_length, bs).

Definition header_wf (h : XorbChunkHeader) : Prop :=
  in_u8 (version h) /\ 0 <= compressed_length h < 2 ^ 24 /\ 0 <= uncompressed_length h < 2 ^ 24.

(** ** Footer *)
Record XorbObjectInfoV1 := mkInfo {
  xi_xorb_hash : MerkleHash;
  chunk_hashes : list MerkleHash;
  chunk_boundary_offsets : list Z;
  unpacked_chunk_offsets : list Z;
}.

Definition IDENT_MAIN : list byte := str_bytes "XETBLOB".
Definition IDENT_HASHES : list byte := str_bytes "XBLBHSH".
Definition IDENT_BOUNDARIES : list byte := str_bytes "XBLBBND".
Definition MAX_CHUNKS_PER_XORB : Z := 100000.

Definition serialized_len_for_num_chunks (num_chunks : Z) : Z := as_u64 (60 + 40 * num_chunks).
Definition max_serialized_len : Z := serialized_len_for_num_chunks MAX_CHUNKS_PER_XORB.
Definition serialized_len (info : XorbObjectInfoV1) : Z :=
  serialized_len_for_num_chunks (len (chunk_hashes info)).

Definition info_serialize (info : XorbObjectInfoV1) : list byte :=
  let num_chunks := as_u32 (len (chunk_hashes info)) in
  IDENT_HASHES ++ [Byte.x00] ++ u32_to_le_bytes num_chunks ++
  concat (map as_bytes (chunk_hashes info)) ++
  IDENT_BOUNDARIES ++ [Byte.x01] ++
  concat (map u32_to_le_bytes (chunk_boundary_offsets info)) ++
  concat (map u32_to_le_bytes (unpacked_chunk_offsets info)) ++
  IDENT_MAIN ++ [Byte.x01] ++ as_bytes (xi_xorb_hash info).

(** Seven bytes of ident, then one byte of version, each with its error. *)
Definition expect_ident (ident : list byte) (e : XetError) : reader unit := fun bs =>
  read* b := (read_exact 7) from bs in
  ensure bool_decide (b = ident) else e in Ok (tt, bs).
Definition expect_version (v : byte) (e : XetError) : reader unit := fun bs =>
  read* b := (read_exact 1) from bs in
  ensure bool_decide (b = [v]) else e in Ok (tt, bs).

Definition info_deserialize : reader XorbObjectInfoV1 := fun bs =>
  read* _x := (expect_ident IDENT_HASHES (ParseError "Expected hashes section")) from bs in
  read* _x := (expect_version Byte.x00 (ParseError "Unsupported hashes section version")) from bs in
  read* num_chunks := read_u32 from bs in
  ensure (num_chunks <=? MAX_CHUNKS_PER_XORB) else (ParseError "Too many chunks") in
  let n := Z.to_nat num_chunks in
  read* hashes := (deserialize_n n) from bs in
  read* _x := (expect_ident IDENT_BOUNDARIES (ParseError "Expected boundaries section")) from bs in
  read* _x := (expect_version Byte.x01 (ParseError "Unsupported boundaries section version")) from bs in
  read* boundaries := (@deserialize_n Z u32_codec n) from bs in
  read* unpacked := (@deserialize_n Z u32_codec n) from bs in
  read* _x := (expect_ident IDENT_MAIN (ParseError "Expected main ident")) from bs in
  read* _x := (expect_version Byte.x01 (ParseError "Unsupported xorb footer version")) from bs in
  read* xorb_hash := read_hash from bs in
  Ok (mkInfo xorb_hash hashes boundaries unpacked, bs).

(** [XorbObjectInfoV1::from_bytes]: bytes after the footer are ignored. *)
Definition info_from_bytes (data : list byte) : XetResult XorbObjectInfoV1 :=
  let* '(info, _) := info_deserialize data in Ok info.

Definition info_wf (info : XorbObjectInfoV1) : Prop :=
  hash_wf (xi_xorb_hash info) /\ Forall hash_wf (chunk_hashes info) /\
  len (chunk_hashes info) <= MAX_CHUNKS_PER_XORB /\
  length (chunk_boundary_offsets info) = length (chunk_hashes info) /\
  length (unpacked_chunk_offsets info) = length (chunk_hashes info) /\
  Forall in_u32 (chunk_boundary_offsets info) /\ Forall in_u32 (unpacked_chunk_offsets info).

(** ** Finding the footer

    [for i in (0..=n).rev() { if data[i..i + 7] == hashes_ident { ..break } }];
    the slice panics when the data ends before [i + 7]. *)
Fixpoint rfind_ident (data : list byte) (n : nat) : XetResult (option Z) :=
  let i := Z.of_nat n in
  let* w := slice data i (i + 7) in
  if bool_decide (w = IDENT_HASHES) then Ok (Some i)
  else match n with
       | O => Ok None
       | S n' => rfind_ident data n'
       end.

Definition find_footer (data : list byte) : XetResult (option Z) :=
  rfind_ident data (Z.to_nat (saturating_sub (len data) 7)).

Section Verify.
Context `{Blake3, HexCrate}.

(** *** [verify_xorb]: the whole xorb in memory *)
Definition verify_chunk (data : list byte) (footer : XorbObjectInfoV1) (footer_start : Z)
    (st : list node * Z) (entry : nat * MerkleHash) : XetResult (list node * Z) :=
  let '(chunk_info, current_offset) := st in
  let '(i, expected_hash) := entry in
  let chunk_end := default footer_start (chunk_boundary_offsets footer !! i) in
  ensure negb ((len data <? chunk_end) || (chunk_end <? current_offset))
    else (ParseError "Invalid chunk boundary") in
  let* chunk_data := slice data current_offset chunk_end in
  let chunk_size := len chunk_data in
  let actual_hash := compute_data_hash chunk_data in
  ensure bool_decide (actual_hash = expected_hash) else (ParseError "Chunk hash mismatch") in
  Ok (chunk_info ++ [(actual_hash, chunk_size)], chunk_end).

(** [iter().enumerate()]. *)
Definition enumerate {A} (l : list A) : list (nat * A) := zip (seq 0 (length l)) l.

Definition verify_xorb (data : list byte) : XetResult unit :=
  let* found := find_footer data in
  let* footer_start := ok_or found (ParseError "Could not find xorb footer") in
  let* footer_data := slice data footer_start (len data) in
  let* footer := info_from_bytes footer_data in
  let* '(chunk_info, _) :=
    fold_outcome (verify_chunk data footer footer_start) ([], 0) (enumerate (chunk_hashes footer)) in
  let computed_xorb_hash := xorb_hash chunk_info in
  ensure bool_decide (computed_xorb_hash = xi_xorb_hash footer) else (ParseError "Xorb hash mismatch") in
  Ok tt.
End Verify.

(** *** [verify_xorb_from_file_with_info] *)
Record VerifiedXorbChunkInfo := mkVerifiedChunk {
  serialized_chunk_hash : MerkleHash;
  serialized_start : Z;
  serialized_end : Z;
  vc_serialized_len : Z;
  unpacked_start : Z;
  unpacked_len : Z;
  compressed_payload_len : Z;
}.

Record VerifiedXorbInfo := mkVerifiedXorb {
  vx_xorb_hash : MerkleHash;
  file_len : Z;
  footer_start : Z;
  vx_chunks : list VerifiedXorbChunkInfo;
  total_unpacked_bytes : Z;
  total_compressed_payload_bytes : Z;
}.

(** The locals of the loop over the chunks. *)
Record scan_state := mkScan {
  sc_chunk_info : list node;
  sc_verified : list VerifiedXorbChunkInfo;
  sc_offset : Z;
  sc_unpacked : Z;
  sc_total_unpacked : Z;
  sc_total_compressed : Z;
}.

Section VerifyFile.
Context `{Blake3, HexCrate, FileReads}.

(** [while remaining > 0]: [rest] is the file from position [pos] on. *)
Definition payload_loop (fuel : nat) (pos : Z) (rest : list byte) (remaining : Z) (hasher : blake3_hasher)
  : option (XetResult blake3_hasher) :=
  read_loop blake3_update (ParseError "Unexpected EOF reading chunk") fuel pos rest remaining hasher.

Definition read_payload (pos : Z) (rest : list byte) (remaining : Z) (hasher : blake3_hasher)
  : XetResult blake3_hasher :=
  default Panic (payload_loop (Z.to_nat remaining) pos rest remaining hasher).

Definition verify_file_chunk (file : list byte) (footer : XorbObjectInfoV1) (footer_start : Z)
    (st : scan_state) (entry : nat * MerkleHash) : XetResult scan_state :=
  let '(i, expected_hash) := entry in
  let current_offset := sc_offset st in
  let chunk_end := default footer_start (chunk_boundary_offsets footer !! i) in
  ensure negb ((footer_start <? chunk_end) || (chunk_end <? current_offset))
    else (ParseError "Invalid chunk boundary") in
  let chunk_size := chunk_end - current_offset in
  let* '(header_bytes, rest) :=
    map_err (fun _ => IoError OtherIo) (read_exact 8 (drop (Z.to_nat current_offset) file)) in
  let* '(chunk_header, _) := header_deserialize header_bytes in
  let expected_chunk_size := 8 + compressed_length chunk_header in
  ensure (chunk_size =? expected_chunk_size) else (ParseError "Chunk serialized length mismatch") in
  let* unpacked_start := ok_or (unpacked_chunk_offsets footer !! i) (ParseError "Missing unpacked offset for chunk") in
  ensure (unpacked_start =? sc_unpacked st) else (ParseError "Chunk unpacked offset mismatch") in
  let hasher := blake3_update (blake3_new_keyed DATA_KEY) header_bytes in
  let* hasher := read_payload (current_offset + 8) rest (compressed_length chunk_header) hasher in
  let actual_hash := from_bytes (blake3_finalize hasher) in
  ensure bool_decide (actual_hash = expected_hash) else (ParseError "Chunk hash mismatch") in
  Ok (mkScan
    (sc_chunk_info st ++ [(actual_hash, chunk_size)])
    (sc_verified st ++ [mkVerifiedChunk actual_hash current_offset chunk_end chunk_size unpacked_start
                          (uncompressed_length chunk_header) (compressed_length chunk_header)])
    chunk_end
    (as_u64 (sc_unpacked st + uncompressed_length chunk_header))
    (as_u64 (sc_total_unpacked st + uncompressed_length chunk_header))
    (as_u64 (sc_total_compressed st + compressed_length chunk_header))).

Definition verify_xorb_from_file_with_info (file : list byte) : XetResult VerifiedXorbInfo :=
  let file_len := len file in
  ensure (8 <=? file_len) else (ParseError "Xorb file too small") in
  let scan_size := Z.min file_len max_serialized_len in
  let tail_buf := drop (Z.to_nat (file_len - scan_size)) file in
  let tail_file_offset := file_len - scan_size in
  let* found := find_footer tail_buf in
  let* footer_offset_in_tail := ok_or found (ParseError "Could not find xorb footer in file") in
  let footer_start := tail_file_offset + footer_offset_in_tail in
  let* footer_data := slice tail_buf footer_offset_in_tail (len tail_buf) in
  let* footer := info_from_bytes footer_data in
  let* footer_end := ok_or (checked_add footer_start (serialized_len footer)) (ParseError "Xorb footer end offset overflow") in
  ensure (footer_end =? file_len) else (ParseError "Xorb footer/trailing bytes mismatch") in
  let* st := fold_outcome (verify_file_chunk file footer footer_start) (mkScan [] [] 0 0 0 0)
               (enumerate (chunk_hashes footer)) in
  ensure (sc_offset st =? footer_start) else (ParseError "Xorb has unverified bytes before footer") in
  let computed_xorb_hash := xorb_hash (sc_chunk_info st) in
  ensure bool_decide (computed_xorb_hash = xi_xorb_hash footer) else (ParseError "Xorb hash mismatch") in
  Ok (mkVerifiedXorb computed_xorb_hash file_len footer_start (sc_verified st)
        (sc_total_unpacked st) (sc_total_compressed st)).

Definition verify_xorb_from_file (file : list byte) : XetResult unit :=
  let* _ := verify_xorb_from_file_with_info file in Ok tt.
End VerifyFile.

(** ** Specification: what a xorb file is

    A xorb is a list of parts (header and compressed payload) laid out one
    after the other, followed by the footer computed from them. *)
Abbreviation part := (XorbChunkHeader * list byte)%type.

Definition chunk_bytes (p : part) : list byte := header_serialize (fst p) ++ snd p.
Definition part_wf (p : part) : Prop := header_wf (fst p) /\ len (snd p) = compressed_length (fst p).
Definition payload (ps : list part) : list byte := concat (map chunk_bytes ps).

Fixpoint boundaries (start : Z) (ps : list part) : list Z :=
  match ps with
  | [] => []
  | p :: ps' => (start + len (chunk_bytes p)) :: boundaries (start + len (chunk_bytes p)) ps'
  end.
Fixpoint unpacked (start : Z) (ps : list part) : list Z :=
  match ps with
  | [] => []
  | p :: ps' => start :: unpacked (start + uncompressed_length (fst p)) ps'
  end.

(** [at_ident data i]: the seven bytes at [i]; [last_ident]: and none later. *)
Definition at_ident (data : list byte) (i : Z) : Prop :=
  0 <= i /\ i + 7 <= len data /\ take 7 (drop (Z.to_nat i) data) = IDENT_HASHES.
Definition last_ident (data : list byte) (i : Z) : Prop :=
  at_ident data i /\ forall j, i < j -> ~ at_ident data j.

(** The offsets of a footer are [u32]s and their number is bounded. *)
Definition parts_fit (ps : list part) : Prop :=
  Forall part_wf ps /\ len ps <= MAX_CHUNKS_PER_XORB /\
  Forall in_u32 (boundaries 0 ps) /\ Forall in_u32 (unpacked 0 ps).

(** Running ends of consecutive regions. *)
Fixpoint ends (start : Z) (cs : list (list byte)) : list Z :=
  match cs with
  | [] => []
  | c :: cs' => (start + len c) :: ends (start + len c) cs'
  end.

Section Spec.
Context `{Blake3, HexCrate}.

(** What the in-memory verifier promises: a footer at the last ident, and
    consecutive regions from the start of the data with its hashes, ends and
    aggregated hash. *)
Definition region_nodes (cs : list (list byte)) : list node :=
  map (fun c => (compute_data_hash c, len c)) cs.
Definition xorb_accepted (data : list byte) : Prop :=
  exists i footer cs rest, last_ident data i /\
    info_from_bytes (drop (Z.to_nat i) data) = Ok footer /\
    data = concat cs ++ rest /\ chunk_hashes footer = map compute_data_hash cs /\
    chunk_boundary_offsets footer = ends 0 cs /\
    xi_xorb_hash footer = xorb_hash (region_nodes cs).

Definition part_hash (p : part) : MerkleHash := compute_data_hash (chunk_bytes p).
Definition part_nodes (ps : list part) : list node :=
  map (fun p => (part_hash p, len (chunk_bytes p))) ps.
Definition parts_footer (ps : list part) : XorbObjectInfoV1 :=
  mkInfo (xorb_hash (part_nodes ps)) (map part_hash ps) (boundaries 0 ps) (unpacked 0 ps).
Definition xorb_bytes (ps : list part) : list byte := payload ps ++ info_serialize (parts_footer ps).

(** What the file verifier reports of the parts. *)
Fixpoint parts_verified (off unp : Z) (ps : list part) : list VerifiedXorbChunkInfo :=
  match ps with
  | [] => []
  | p :: ps' =>
      let n := len (chunk_bytes p) in
      mkVerifiedChunk (part_hash p) off (off + n) n unp (uncompressed_length (fst p)) (compressed_length (fst p))
      :: parts_verified (off + n) (unp + uncompressed_length (fst p)) ps'
  end.
Definition sum_unpacked (ps : list part) : Z := foldr (fun p acc => uncompressed_length (fst p) + acc) 0 ps.
Definition sum_compressed (ps : list part) : Z := foldr (fun p acc => compressed_length (fst p) + acc) 0 ps.
Definition parts_report (ps : list part) : VerifiedXorbInfo :=
  mkVerifiedXorb (xorb_hash (part_nodes ps)) (len (xorb_bytes ps)) (len (payload ps))
    (parts_verified 0 0 ps) (sum_unpacked ps) (sum_compressed ps).
End Spec.

(** ** Lemmas: headers *)

Lemma length_to_le_3 z : length (to_le_3 z) = 3%nat.
Proof. unfold to_le_3. by rewrite length_take, length_u32_to_le_bytes. Qed.

Lemma from_le_3_range buf : length buf = 3%nat -> 0 <= from_le_3 buf < 2 ^ 24.
Proof.
  intros Hl. unfold from_le_3. rewrite from_le_bytes_app.
  pose proof (le_bytes_in_range 3 buf Hl). change (from_le_bytes [Byte.x00]) with 0. lia.
Qed.

Lemma u32_of_three buf : length buf = 3%nat -> u32_to_le_bytes (from_le_3 buf) = buf ++ [Byte.x00].
Proof.
  intros Hl. unfold u32_to_le_bytes, from_le_3, from_le_bytes.
  apply split_le_combine'. by rewrite length_app, Hl.
Qed.

Lemma to_from_le_3 buf : length buf = 3%nat -> to_le_3 (from_le_3 buf) = buf.
Proof. intros Hl. unfold to_le_3. rewrite u32_of_three by done. by apply take_app_length'. Qed.

Lemma from_to_le_3 z : 0 <= z < 2 ^ 24 -> from_le_3 (to_le_3 z) = z.
Proof.
  intros Hz. unfold from_le_3, to_le_3.
  assert (take 3 (u32_to_le_bytes z) ++ [Byte.x00] = u32_to_le_bytes z) as ->; [|apply from_to_le_u32; unfold in_u32; lia].
  rewrite <- (take_drop 3 (u32_to_le_bytes z)) at 2. f_equal.
  assert (from_le_bytes (drop 3 (u32_to_le_bytes z)) = 0) as Hz0.
  { pose proof (from_to_le_u32 z ltac:(unfold in_u32; lia)) as E.
    rewrite <- (take_drop 3 (u32_to_le_bytes z)), from_le_bytes_app in E.
    pose proof (from_le_bytes_range (take 3 (u32_to_le_bytes z))) as H1.
    pose proof (from_le_bytes_range (drop 3 (u32_to_le_bytes z))) as H2.
    assert (len (take 3 (u32_to_le_bytes z)) = 3) as Hl3 by (unfold len; change (take 3 (u32_to_le_bytes z)) with (to_le_3 z); by rewrite length_to_le_3).
    rewrite Hl3 in *. lia. }
  symmetry. unfold from_le_bytes in Hz0.
  rewrite <- (split_le_combine' (drop 3 (u32_to_le_bytes z)) 1), Hz0 by (by rewrite length_drop, length_u32_to_le_bytes).
  done.
Qed.

Lemma u8_roundtrip z : in_u8 z -> from_le_bytes [byte.of_Z z] = z.
Proof.
  intros Hz. change (le_combine (le_split 1 z) = z). rewrite le_combine_split. by apply Z.mod_small.
Qed.

Lemma u8_roundtrip' b : byte.of_Z (from_le_bytes [b]) = b.
Proof.
  assert (le_split 1 (le_combine [b]) = [b]) as E by by apply split_le_combine'.
  by injection E.
Qed.

Lemma scheme_roundtrip s : scheme_try_from (scheme_to_u8 s) = Ok s.
Proof. by destruct s. Qed.
Lemma scheme_u8 s : in_u8 (scheme_to_u8 s).
Proof. unfold in_u8. destruct s; cbn; lia. Qed.
Lemma scheme_try_from_inv z s : scheme_try_from z = Ok s -> z = scheme_to_u8 s.
Proof. unfold scheme_try_from. intros. outcome_cases; bool_to_prop; by subst. Qed.

Lemma scheme_not_panic z : scheme_try_from z <> Panic.
Proof. unfold scheme_try_from. by repeat case_match. Qed.

Lemma header_serialize_length h : length (header_serialize h) = 8%nat.
Proof. unfold header_serialize. rewrite !length_app, !length_to_le_3. done. Qed.

Lemma header_roundtrip h rest :
  header_wf h -> header_deserialize (header_serialize h ++ rest) = Ok (h, rest).
Proof.
  intros (Hv & Hc & Hu). unfold header_serialize, header_deserialize. rewrite <- !app_assoc.
  rewrite (read_exact_app 1), (read_exact_app 3), (read_exact_app 1) by (done || apply length_to_le_3).
  rewrite u8_roundtrip by apply scheme_u8. rewrite scheme_roundtrip. cbn [map_err].
  rewrite (read_exact_app 3) by apply length_to_le_3.
  rewrite u8_roundtrip, !from_to_le_3 by done. by destruct h.
Qed.

Lemma header_inv bs h rest :
  header_deserialize bs = Ok (h, rest) -> header_wf h /\ bs = header_serialize h ++ rest.
Proof.
  unfold header_deserialize. intros E.
  destruct (read_exact 1 bs) as [[vb bs1]| |] eqn:E1; try done. apply read_exact_inv in E1 as [-> L1].
  destruct (read_exact 3 bs1) as [[cb bs2]| |] eqn:E2; try done. apply read_exact_inv in E2 as [-> L2].
  destruct (read_exact 1 bs2) as [[sb bs3]| |] eqn:E3; try done. apply read_exact_inv in E3 as [-> L3].
  destruct (scheme_try_from _) as [s| |] eqn:Es; try done. cbn [map_err] in E.
  destruct (read_exact 3 bs3) as [[ub bs4]| |] eqn:E4; try done. apply read_exact_inv in E4 as [-> L4].
  injection E as <- <-. apply scheme_try_from_inv in Es.
  destruct vb as [|v []]; try done. destruct sb as [|sb []]; try done. split.
  - split; [|split; by apply from_le_3_range]. apply (le_bytes_in_range 1). done.
  - unfold header_serialize. cbn [version compressed_length compression_scheme uncompressed_length].
    rewrite !to_from_le_3, <- Es, !u8_roundtrip' by done. by rewrite <- !app_assoc.
Qed.

Lemma header_not_panic bs : header_deserialize bs <> Panic.
Proof.
  unfold header_deserialize.
  destruct (read_exact 1 bs) as [[vb bs1]| |] eqn:E1; [|done|by apply read_exact_not_panic in E1].
  destruct (read_exact 3 bs1) as [[cb bs2]| |] eqn:E2; [|done|by apply read_exact_not_panic in E2].
  destruct (read_exact 1 bs2) as [[sb bs3]| |] eqn:E3; [|done|by apply read_exact_not_panic in E3].
  destruct (scheme_try_from _) as [s| |] eqn:Es; [|done|by apply scheme_not_panic in Es]. cbn [map_err].
  destruct (read_exact 3 bs3) as [[ub bs4]| |] eqn:E4; [done|done|by apply read_exact_not_panic in E4].
Qed.

#[export] Instance header_codec : FixedCodec XorbChunkHeader.
Proof.
  refine {| serialize := header_serialize; deserialize := header_deserialize; codec_size := 8; codec_wf := header_wf |}.
  - intros. apply header_serialize_length.
  - apply header_roundtrip.
Defined.
#[export] Instance header_codec_exact : ExactCodec XorbChunkHeader.
Proof. intros bs h rest. apply header_inv. Qed.

(** ** Lemmas: the footer *)

Lemma expect_ident_app ident e rest :
  length ident = 7%nat -> expect_ident ident e (ident ++ rest) = Ok (tt, rest).
Proof. intros Hl. unfold expect_ident. rewrite (read_exact_app 7) by done. by rewrite bool_decide_true. Qed.

Lemma expect_version_app v e rest : expect_version v e ([v] ++ rest) = Ok (tt, rest).
Proof. unfold expect_version. rewrite (read_exact_app 1) by done. by rewrite bool_decide_true. Qed.

Lemma expect_ident_inv ident e bs u rest :
  expect_ident ident e bs = Ok (u, rest) -> bs = ident ++ rest.
Proof.
  unfold expect_ident. intros. outcome_cases. apply read_exact_inv in Heqo as [-> _]. bool_to_prop. by subst.
Qed.

Lemma expect_version_inv v e bs u rest : expect_version v e bs = Ok (u, rest) -> bs = [v] ++ rest.
Proof.
  unfold expect_version. intros. outcome_cases. apply read_exact_inv in Heqo as [-> _]. bool_to_prop. by subst.
Qed.

Lemma info_deserialize_app info rest :
  info_wf info -> info_deserialize (info_serialize info ++ rest) = Ok (info, rest).
Proof.
  destruct info as [xh hs bo uo]. intros (Wx & Wh & Hn & Lb & Lu & Wb & Wu).
  cbn [xi_xorb_hash chunk_hashes chunk_boundary_offsets unpacked_chunk_offsets] in *.
  unfold info_serialize, info_deserialize. cbv zeta. cbn [chunk_hashes chunk_boundary_offsets unpacked_chunk_offsets xi_xorb_hash].
  unfold MAX_CHUNKS_PER_XORB in Hn. pose proof (len_nonneg hs).
  assert (as_u32 (len hs) = len hs) as -> by (unfold as_u32; apply Z.mod_small; lia).
  rewrite <- !app_assoc. rewrite expect_ident_app, expect_version_app by done.
  rewrite read_u32_app by (unfold in_u32; lia).
  replace (len hs <=? MAX_CHUNKS_PER_XORB) with true by (unfold MAX_CHUNKS_PER_XORB; lia).
  assert (Z.to_nat (len hs) = length hs) as -> by (unfold len; lia).
  change (concat (map as_bytes hs)) with (serialize_all hs).
  rewrite deserialize_n_app by done. rewrite expect_ident_app, expect_version_app by done.
  change (concat (map u32_to_le_bytes bo)) with (@serialize_all Z u32_codec bo).
  change (concat (map u32_to_le_bytes uo)) with (@serialize_all Z u32_codec uo).
  rewrite <- Lb at 1. rewrite (@deserialize_n_app Z u32_codec) by done.
  rewrite <- Lu. rewrite (@deserialize_n_app Z u32_codec) by done.
  rewrite expect_ident_app, expect_version_app by done. by rewrite read_hash_app.
Qed.

Lemma info_deserialize_inv bs info rest :
  info_deserialize bs = Ok (info, rest) -> info_wf info /\ bs = info_serialize info ++ rest.
Proof.
  unfold info_deserialize. intros E.
  destruct (expect_ident IDENT_HASHES _ bs) as [[u1 b1]| |] eqn:E1; try done. apply expect_ident_inv in E1 as ->.
  destruct (expect_version Byte.x00 _ b1) as [[u2 b2]| |] eqn:E2; try done. apply expect_version_inv in E2 as ->.
  destruct (read_u32 b2) as [[n b3]| |] eqn:E3; try done. apply read_u32_inv in E3 as [Wn ->].
  destruct (Z.leb_spec n MAX_CHUNKS_PER_XORB) as [Hn|]; try done.
  destruct (deserialize_n _ b3) as [[hs b4]| |] eqn:E4; try done. apply deserialize_n_inv in E4 as (Lh & Wh & ->).
  destruct (expect_ident IDENT_BOUNDARIES _ b4) as [[u5 b5]| |] eqn:E5; try done. apply expect_ident_inv in E5 as ->.
  destruct (expect_version Byte.x01 _ b5) as [[u6 b6]| |] eqn:E6; try done. apply expect_version_inv in E6 as ->.
  destruct (@deserialize_n Z u32_codec _ b6) as [[bo b7]| |] eqn:E7; try done.
  apply (@deserialize_n_inv Z u32_codec u32_codec_exact) in E7 as (Lb & Wb & ->).
  destruct (@deserialize_n Z u32_codec _ b7) as [[uo b8]| |] eqn:E8; try done.
  apply (@deserialize_n_inv Z u32_codec u32_codec_exact) in E8 as (Lu & Wu & ->).
  destruct (expect_ident IDENT_MAIN _ b8) as [[u9 b9]| |] eqn:E9; try done. apply expect_ident_inv in E9 as ->.
  destruct (expect_version Byte.x01 _ b9) as [[u10 b10]| |] eqn:E10; try done. apply expect_version_inv in E10 as ->.
  destruct (read_hash b10) as [[xh b11]| |] eqn:E11; try done. apply read_hash_inv in E11 as [Wx ->].
  injection E as <- <-. unfold in_u32 in Wn. assert (len hs = n) as Hlen by (unfold len; lia). split.
  - unfold info_wf. cbn [xi_xorb_hash chunk_hashes chunk_boundary_offsets unpacked_chunk_offsets].
    split; [done|]. split; [done|]. split; [lia|]. split; [lia|]. split; [lia|done].
  - unfold info_serialize. cbv zeta. cbn [chunk_hashes chunk_boundary_offsets unpacked_chunk_offsets xi_xorb_hash].
    assert (as_u32 (len hs) = n) as -> by (unfold as_u32; rewrite Z.mod_small; lia).
    by rewrite <- !app_assoc.
Qed.

Lemma info_serialize_length info : info_wf info -> len (info_serialize info) = serialized_len info.
Proof.
  destruct info as [xh hs bo uo]. intros (Wx & Wh & Hn & Lb & Lu & Wb & Wu).
  cbn [xi_xorb_hash chunk_hashes chunk_boundary_offsets unpacked_chunk_offsets] in *.
  unfold info_serialize, serialized_len, serialized_len_for_num_chunks, as_u64. cbv zeta.
  cbn [chunk_hashes chunk_boundary_offsets unpacked_chunk_offsets xi_xorb_hash].
  unfold MAX_CHUNKS_PER_XORB in Hn. rewrite Z.mod_small by (pose proof (len_nonneg hs); lia).
  change (concat (map as_bytes hs)) with (serialize_all hs).
  change (concat (map u32_to_le_bytes bo)) with (@serialize_all Z u32_codec bo).
  change (concat (map u32_to_le_bytes uo)) with (@serialize_all Z u32_codec uo).
  unfold len. rewrite !length_app, length_u32_to_le_bytes, length_as_bytes, serialize_all_length by done.
  rewrite !(@serialize_all_length Z u32_codec) by done. rewrite Lb, Lu. cbn. lia.
Qed.

Lemma info_from_bytes_app info rest : info_wf info -> info_from_bytes (info_serialize info ++ rest) = Ok info.
Proof. intros. unfold info_from_bytes. by rewrite info_deserialize_app. Qed.

Lemma info_from_bytes_inv data info :
  info_from_bytes data = Ok info -> info_wf info /\ exists rest, data = info_serialize info ++ rest.
Proof.
  unfold info_from_bytes. destruct (info_deserialize data) as [[i rest]| |] eqn:E; try done.
  intros [= ->]. apply info_deserialize_inv in E as [? ->]. eauto.
Qed.

Lemma expect_ident_not_panic ident e bs : expect_ident ident e bs <> Panic.
Proof.
  unfold expect_ident. destruct (read_exact 7 bs) as [[]| |] eqn:E; [|done|by apply read_exact_not_panic in E].
  by case_bool_decide.
Qed.
Lemma expect_version_not_panic v e bs : expect_version v e bs <> Panic.
Proof.
  unfold expect_version. destruct (read_exact 1 bs) as [[]| |] eqn:E; [|done|by apply read_exact_not_panic in E].
  by case_bool_decide.
Qed.

Lemma info_from_bytes_not_panic bs : info_from_bytes bs <> Panic.
Proof.
  unfold info_from_bytes. enough (info_deserialize bs <> Panic) by by destruct (info_deserialize bs) as [[]| |].
  unfold info_deserialize. intros E.
  repeat match type of E with
  | context [match expect_ident ?i ?e ?b with _ => _ end] =>
      pose proof (expect_ident_not_panic i e b); destruct (expect_ident i e b) as [[]| |]; try done
  | context [match expect_version ?i ?e ?b with _ => _ end] =>
      pose proof (expect_version_not_panic i e b); destruct (expect_version i e b) as [[]| |]; try done
  | context [match read_u32 ?b with _ => _ end] =>
      pose proof (read_u32_not_panic b); destruct (read_u32 b) as [[]| |]; try done
  | context [match read_hash ?b with _ => _ end] =>
      pose proof (read_hash_not_panic b); destruct (read_hash b) as [[]| |]; try done
  | context [match @deserialize_n MerkleHash ?c ?n ?b with _ => _ end] =>
      pose proof (@deserialize_n_not_panic MerkleHash c hash_codec_sized n b);
      destruct (@deserialize_n MerkleHash c n b) as [[]| |]; try done
  | context [match @deserialize_n Z ?c ?n ?b with _ => _ end] =>
      pose proof (@deserialize_n_not_panic Z c u32_codec_sized n b);
      destruct (@deserialize_n Z c n b) as [[]| |]; try done
  | context [if ?c then _ else _] => destruct c; try done
  end.
Qed.

(** ** Lemmas: finding the footer *)

Lemma at_ident_dec data i : {at_ident data i} + {~ at_ident data i}.
Proof. unfold at_ident. apply (decide _). Qed.

Lemma window_at (data : list byte) i :
  0 <= i -> i + 7 <= len data ->
  slice (E := XetError) data i (i + 7) = Ok (take 7 (drop (Z.to_nat i) data)).
Proof. intros. rewrite slice_ok by lia. by replace (i + 7 - i) with 7 by lia. Qed.

Lemma rfind_ident_spec data n :
  Z.of_nat n + 7 <= len data ->
  (exists i, rfind_ident data n = Ok (Some i) /\ i <= Z.of_nat n /\ at_ident data i /\
     forall j, i < j <= Z.of_nat n -> ~ at_ident data j) \/
  (rfind_ident data n = Ok None /\ forall j, j <= Z.of_nat n -> ~ at_ident data j).
Proof.
  induction n as [|n IH]; intros Hn.
  all: cbn [rfind_ident]; rewrite window_at by lia; case_bool_decide as Hw.
  1,3: left; eexists; split; [done|]; split; [lia|]; split; [by repeat split; [lia|lia|]|lia].
  - right. split; [done|]. intros j Hj (H0 & _ & Hi). assert (j = 0) as -> by lia. by apply Hw.
  - assert (~ at_ident data (Z.of_nat (S n))) as Hno by (by intros (_ & _ & ?)).
    destruct IH as [(i & -> & Hi & Ha & Hl)|[-> Hl]]; [lia| |].
    + left. exists i. split; [done|]. split; [lia|]. split; [done|]. intros j Hj.
      destruct (Z.eq_dec j (Z.of_nat (S n))) as [->|]; [done|]. apply Hl. lia.
    + right. split; [done|]. intros j Hj. destruct (Z.eq_dec j (Z.of_nat (S n))) as [->|]; [done|]. apply Hl. lia.
Qed.

(** The search finds the last ident, and panics on fewer than seven bytes. *)
Lemma find_footer_spec data :
  (len data < 7 -> find_footer data = Panic) /\
  (7 <= len data -> find_footer data <> Panic /\
    forall i, find_footer data = Ok (Some i) <-> last_ident data i).
Proof.
  unfold find_footer, saturating_sub. split; intros Hl.
  - rewrite Z.max_l by lia. change (Z.to_nat 0) with 0%nat. cbn [rfind_ident]. unfold slice.
    rewrite (proj2 (Z.leb_gt (Z.of_nat 0 + 7) (len data))) by exact Hl. by rewrite andb_false_r.
  - rewrite Z.max_r by lia. set (n := Z.to_nat (len data - 7)).
    assert (forall j, at_ident data j -> j <= Z.of_nat n) as Hb by (intros j (? & ? & _); lia).
    destruct (rfind_ident_spec data n) as [(i & -> & Hi & Ha & Hno)|[-> Hno]]; [lia| |].
    + split; [done|]. intros i'. split.
      * intros [= <-]. split; [done|]. intros j Hj Haj. apply (Hno j); [|done]. specialize (Hb _ Haj). lia.
      * intros [Ha' Hl']. do 2 f_equal. destruct (Z.lt_trichotomy i i') as [?|[->|?]]; [|done|].
        -- destruct (Hno i'); [|done]. specialize (Hb _ Ha'). lia.
        -- by destruct (Hl' i).
    + split; [done|]. intros i. split; [done|]. intros [Ha _]. destruct (Hno i); auto.
Qed.

(** ** Lemmas: parts *)

Lemma len_chunk_bytes p : len (chunk_bytes p) = 8 + len (snd p).
Proof. unfold chunk_bytes. rewrite len_app. unfold len at 1. by rewrite header_serialize_length. Qed.

Lemma payload_app ps qs : payload (ps ++ qs) = payload ps ++ payload qs.
Proof. unfold payload. by rewrite map_app, concat_app. Qed.
Lemma payload_cons p ps : payload (p :: ps) = chunk_bytes p ++ payload ps.
Proof. done. Qed.
Lemma payload_one p : payload [p] = chunk_bytes p.
Proof. unfold payload. cbn. by rewrite app_nil_r. Qed.

Lemma boundaries_length start ps : length (boundaries start ps) = length ps.
Proof. revert start. induction ps; intros; cbn; auto. Qed.
Lemma unpacked_length start ps : length (unpacked start ps) = length ps.
Proof. revert start. induction ps; intros; cbn; auto. Qed.

Lemma sum_unpacked_app ps qs : sum_unpacked (ps ++ qs) = sum_unpacked ps + sum_unpacked qs.
Proof. unfold sum_unpacked. induction ps as [|p ps IH]; cbn [app foldr]; lia. Qed.
Lemma sum_compressed_app ps qs : sum_compressed (ps ++ qs) = sum_compressed ps + sum_compressed qs.
Proof. unfold sum_compressed. induction ps as [|p ps IH]; cbn [app foldr]; lia. Qed.

Lemma sums_bounded ps :
  Forall part_wf ps ->
  0 <= sum_unpacked ps <= len ps * 2 ^ 24 /\ 0 <= sum_compressed ps <= len ps * 2 ^ 24.
Proof.
  unfold sum_unpacked, sum_compressed.
  induction 1 as [|p ps [(_ & Hc & Hu) _] Hps IH]; cbn [foldr]; [done|]. rewrite len_cons. lia.
Qed.

(** ** Lemmas: reading a payload *)
Section ReadLemmas.
Context `{Blake3, !Blake3Laws, FileReads, !FileReadsLaws}.

(** Header and payload hash to the hash of the whole chunk. *)
Lemma read_payload_hash pos rest remaining header :
  0 <= remaining ->
  (remaining <= len rest /\ exists hasher,
     read_payload pos rest remaining (blake3_update (blake3_new_keyed DATA_KEY) header) = Ok hasher /\
     from_bytes (blake3_finalize hasher) = compute_data_hash (header ++ take (Z.to_nat remaining) rest)) \/
  (len rest < remaining /\ exists e,
     read_payload pos rest remaining (blake3_update (blake3_new_keyed DATA_KEY) header) = Err e).
Proof.
  intros Hr. unfold read_payload.
  unfold payload_loop.
  destruct (read_loop_result blake3_update (ParseError "Unexpected EOF reading chunk") (Z.to_nat remaining) pos rest remaining
    (blake3_update (blake3_new_keyed DATA_KEY) header)) as [(Hl & pieces & Hc & ->)|[Hl ->]]; [lia|left|right].
  - split; [done|]. eexists. split; [done|]. unfold compute_data_hash. f_equal.
    change (fold_left blake3_update pieces (blake3_update (blake3_new_keyed DATA_KEY) header)) with
      (fold_left blake3_update (header :: pieces) (blake3_new_keyed DATA_KEY)).
    rewrite blake3_streaming. cbn [concat]. by rewrite Hc.
  - split; [done|]. by eexists.
Qed.
End ReadLemmas.

(** ** Lemmas: the loop of the file verifier *)
Section ScanLemmas.
Context `{Blake3, !Blake3Laws, HexCrate, FileReads, !FileReadsLaws}.

(** The locals after the chunks [ps]. *)
Definition scan_of (ps : list part) : scan_state :=
  mkScan (part_nodes ps) (parts_verified 0 0 ps) (len (payload ps))
    (sum_unpacked ps) (sum_unpacked ps) (sum_compressed ps).

Lemma parts_verified_snoc off unp ps p :
  parts_verified off unp (ps ++ [p]) = parts_verified off unp ps ++
    [mkVerifiedChunk (part_hash p) (off + len (payload ps)) (off + len (payload ps) + len (chunk_bytes p))
       (len (chunk_bytes p)) (unp + sum_unpacked ps) (uncompressed_length (fst p)) (compressed_length (fst p))].
Proof.
  revert off unp. induction ps as [|q ps IH]; intros off unp; cbn [app parts_verified].
  - change (payload []) with (@nil byte). change (len []) with 0. by rewrite !Z.add_0_r.
  - rewrite IH, payload_cons, len_app. cbn [app]. do 3 f_equal.
    unfold sum_unpacked. cbn [foldr]. f_equal; lia.
Qed.

Lemma scan_of_snoc ps p :
  Forall part_wf (ps ++ [p]) -> len (ps ++ [p]) <= MAX_CHUNKS_PER_XORB ->
  mkScan (part_nodes ps ++ [(part_hash p, len (chunk_bytes p))])
    (parts_verified 0 0 ps ++
       [mkVerifiedChunk (part_hash p) (len (payload ps)) (len (payload ps) + len (chunk_bytes p))
          (len (chunk_bytes p)) (sum_unpacked ps) (uncompressed_length (fst p)) (compressed_length (fst p))])
    (len (payload ps) + len (chunk_bytes p))
    (as_u64 (sum_unpacked ps + uncompressed_length (fst p)))
    (as_u64 (sum_unpacked ps + uncompressed_length (fst p)))
    (as_u64 (sum_compressed ps + compressed_length (fst p))) = scan_of (ps ++ [p]).
Proof.
  intros W Hn. pose proof (sums_bounded _ W) as [Hu Hc]. unfold MAX_CHUNKS_PER_XORB in Hn.
  unfold scan_of. rewrite parts_verified_snoc, payload_app, payload_one, !sum_unpacked_app, !sum_compressed_app, len_app in *.
  assert (sum_unpacked [p] = uncompressed_length (fst p)) as Eu by (unfold sum_unpacked; cbn; lia).
  assert (sum_compressed [p] = compressed_length (fst p)) as Ec by (unfold sum_compressed; cbn; lia).
  rewrite Eu, Ec in *. unfold as_u64. rewrite !Z.mod_small by lia. rewrite !Z.add_0_l.
  unfold part_nodes. by rewrite map_app.
Qed.

Lemma verify_file_chunk_iff file footer fs ps e st' b :
  Forall part_wf ps -> len ps < MAX_CHUNKS_PER_XORB ->
  chunk_boundary_offsets footer !! length ps = Some b ->
  is_Some (unpacked_chunk_offsets footer !! length ps) ->
  verify_file_chunk file footer fs (scan_of ps) (length ps, e) = Ok st' <->
  exists p rest, part_wf p /\ drop (length (payload ps)) file = chunk_bytes p ++ rest /\ part_hash p = e /\
    b = len (payload ps) + len (chunk_bytes p) /\ b <= fs /\
    unpacked_chunk_offsets footer !! length ps = Some (sum_unpacked ps) /\ st' = scan_of (ps ++ [p]).
Proof.
  intros W Hn Hb [u Hu]. unfold verify_file_chunk. cbn [sc_offset sc_chunk_info sc_verified sc_unpacked
    sc_total_unpacked sc_total_compressed scan_of]. rewrite Hb, Hu. cbn [default from_option id ok_or].
  assert (Z.to_nat (len (payload ps)) = length (payload ps)) as -> by (unfold len; lia).
  set (off := len (payload ps)). set (data := drop (length (payload ps)) file).
  split.
  - destruct (Z.ltb_spec fs b), (Z.ltb_spec b off); cbn [orb negb]; try done.
    destruct (read_exact 8 data) as [[hb rest]| |] eqn:Er; cbn [map_err]; try done.
    apply read_exact_inv in Er as [Ed Lh].
    destruct (header_deserialize hb) as [[h hrest]| |] eqn:Eh; try done.
    apply header_inv in Eh as [Wh ->]. rewrite length_app, header_serialize_length in Lh.
    assert (hrest = []) as -> by (destruct hrest; cbn in Lh; [done|lia]). rewrite app_nil_r in *.
    destruct (Z.eqb_spec (b - off) (8 + compressed_length h)) as [Hsz|]; try done.
    destruct (Z.eqb_spec u (sum_unpacked ps)) as [->|]; try done.
    destruct (read_payload_hash (off + 8) rest (compressed_length h) (header_serialize h))
      as [(Hl & hasher & -> & Hh)|(_ & e' & ->)]; [apply Wh| |done].
    set (p := (h, take (Z.to_nat (compressed_length h)) rest)).
    assert (part_wf p) as Wp by (split; [done|]; subst p; cbn [fst snd]; apply len_take; destruct Wh as (_ & ? & _); lia).
    assert (len (chunk_bytes p) = 8 + compressed_length h) as Lp by (rewrite len_chunk_bytes; f_equal; apply Wp).
    rewrite Hh. case_bool_decide as He; [|done]. intros [= <-].
    exists p, (drop (Z.to_nat (compressed_length h)) rest).
    split; [done|]. split; [unfold chunk_bytes; cbn; by rewrite <- app_assoc, take_drop|].
    split; [done|]. split; [lia|]. split; [done|]. split; [done|].
    rewrite <- scan_of_snoc; [|by apply Forall_app_2; [done|apply Forall_singleton]|rewrite len_app; change (len [p]) with 1; lia].
    rewrite Lp, Hsz. change (compute_data_hash _) with (part_hash p). repeat f_equal; lia.
  - intros (p & rest & Wp & Ed & He & -> & Hle & [= ->] & ->).
    pose proof (len_nonneg (payload ps)). pose proof Wp as [Wh Lp].
    rewrite len_chunk_bytes, Lp in *. pose proof Wh as (_ & Hc & _).
    fold off. replace (fs <? off + (8 + compressed_length p.1)) with false by lia.
    replace (off + (8 + compressed_length p.1) <? off) with false by lia. cbn [orb negb].
    unfold chunk_bytes in Ed. rewrite Ed, <- app_assoc, (read_exact_app 8) by apply header_serialize_length.
    cbn [map_err]. rewrite <- (app_nil_r (header_serialize p.1)) at 1. rewrite header_roundtrip by done.
    replace (off + (8 + compressed_length p.1) - off =? 8 + compressed_length p.1) with true by lia.
    rewrite Z.eqb_refl.
    destruct (read_payload_hash (off + 8) (p.2 ++ rest) (compressed_length p.1) (header_serialize p.1))
      as [(_ & hasher & -> & Hh)|(Hl & _)]; [lia| |rewrite len_app, Lp in Hl; pose proof (len_nonneg rest); lia].
    rewrite Hh. rewrite <- Lp. assert (Z.to_nat (len p.2) = length p.2) as -> by (unfold len; lia).
    rewrite take_app_length. change (compute_data_hash _) with (part_hash p).
    rewrite bool_decide_true by done. f_equal.
    rewrite <- scan_of_snoc; [|by apply Forall_app_2; [done|apply Forall_singleton]|rewrite len_app; change (len [p]) with 1; lia].
    rewrite len_chunk_bytes, Lp, He. repeat f_equal; lia.
Qed.

Lemma scan_iff file footer fs hs ps st' :
  Forall part_wf ps -> len ps + len hs <= MAX_CHUNKS_PER_XORB ->
  length (chunk_boundary_offsets footer) = (length ps + length hs)%nat ->
  length (unpacked_chunk_offsets footer) = (length ps + length hs)%nat ->
  len (payload ps) <= fs ->
  fold_outcome (verify_file_chunk file footer fs) (scan_of ps) (zip (seq (length ps) (length hs)) hs) = Ok st' <->
  exists qs rest, Forall part_wf qs /\ map part_hash qs = hs /\
    drop (length (payload ps)) file = payload qs ++ rest /\
    drop (length ps) (chunk_boundary_offsets footer) = boundaries (len (payload ps)) qs /\
    drop (length ps) (unpacked_chunk_offsets footer) = unpacked (sum_unpacked ps) qs /\
    len (payload (ps ++ qs)) <= fs /\ st' = scan_of (ps ++ qs).
Proof.
  revert ps. induction hs as [|e hs IH]; intros ps W Hn Lb Lu Hfs; cbn [length seq zip fold_outcome] in *.
  { split.
    - intros [= <-]. exists [], (drop (length (payload ps)) file). rewrite app_nil_r.
      rewrite (drop_ge (chunk_boundary_offsets footer)), (drop_ge (unpacked_chunk_offsets footer)) by lia. by repeat split.
    - intros (qs & rest & _ & Hq & _ & _ & _ & _ & ->). destruct qs; [|done]. by rewrite app_nil_r. }
  rewrite len_cons in Hn. pose proof (len_nonneg hs).
  destruct (lookup_lt_is_Some_2 (chunk_boundary_offsets footer) (length ps)) as [b Hb]; [lia|].
  destruct (lookup_lt_is_Some_2 (unpacked_chunk_offsets footer) (length ps)) as [u Hu]; [lia|].
  rewrite (drop_S _ _ _ Hb), (drop_S _ _ _ Hu).
  assert (Hstep : forall p, part_wf p -> b <= fs -> b = len (payload ps) + len (chunk_bytes p) ->
    fold_outcome (verify_file_chunk file footer fs) (scan_of (ps ++ [p])) (zip (seq (S (length ps)) (length hs)) hs) = Ok st' <->
    exists qs rest, Forall part_wf qs /\ map part_hash qs = hs /\
      drop (length (payload (ps ++ [p]))) file = payload qs ++ rest /\
      drop (S (length ps)) (chunk_boundary_offsets footer) = boundaries (len (payload (ps ++ [p]))) qs /\
      drop (S (length ps)) (unpacked_chunk_offsets footer) = unpacked (sum_unpacked (ps ++ [p])) qs /\
      len (payload ((ps ++ [p]) ++ qs)) <= fs /\ st' = scan_of ((ps ++ [p]) ++ qs)).
  { intros p Wp Hle Hbe. replace (S (length ps)) with (length (ps ++ [p])) by (rewrite length_app; cbn; lia).
    apply IH.
    - by apply Forall_app_2; [|apply Forall_singleton].
    - rewrite len_app. change (len [p]) with 1. lia.
    - rewrite length_app. cbn. lia.
    - rewrite length_app. cbn. lia.
    - rewrite payload_app, payload_one, len_app. lia. }
  split.
  - destruct (verify_file_chunk file footer fs (scan_of ps) (length ps, e)) as [st1| |] eqn:E1; try done. intros E.
    apply (verify_file_chunk_iff _ _ _ _ _ _ b) in E1 as (p & rest & Wp & Ed & He & Hbe & Hle & Hue & ->);
      [|done|lia|done|by eexists].
    apply (Hstep p Wp Hle Hbe) in E as (qs & rest' & Wq & Hq & Edq & Ebq & Euq & Hlq & ->).
    exists (p :: qs), rest'. cbn [map boundaries unpacked]. rewrite payload_cons.
    rewrite <- (app_assoc ps [p] qs) in *. rewrite payload_app, payload_one in Edq, Ebq.
    rewrite sum_unpacked_app in Euq. rewrite len_app in Ebq.
    split; [by constructor|]. split; [by rewrite He, Hq|]. split; [|split; [|split; [|exact (conj Hlq eq_refl)]]].
    + rewrite length_app, <- drop_drop, Ed, drop_app_length in Edq. by rewrite Ed, Edq, <- app_assoc.
    + by rewrite Ebq, Hbe.
    + rewrite Euq. f_equal; [congruence|]. f_equal. unfold sum_unpacked. cbn. lia.
  - intros (qs & rest & Wq & Hq & Ed & Eb & Eu & Hl & ->). destruct qs as [|p qs]; [done|].
    cbn [map boundaries unpacked] in *. rewrite payload_cons in Ed. apply Forall_cons in Wq as [Wp Wq].
    injection Hq as He Hq. injection Eb as Hbe Ebq. injection Eu as Hue Euq.
    replace (ps ++ p :: qs) with ((ps ++ [p]) ++ qs) in * by (by rewrite <- app_assoc).
    assert (b <= fs) as Hle.
    { rewrite payload_app, payload_app, payload_one, !len_app in Hl. pose proof (len_nonneg (payload qs)). lia. }
    rewrite (proj2 (verify_file_chunk_iff file footer fs ps e (scan_of (ps ++ [p])) b W ltac:(lia) Hb (ex_intro _ _ Hu))).
    + apply (Hstep p Wp Hle Hbe). exists qs, rest.
      split; [done|]. split; [done|]. split; [|split; [|split; [|exact (conj Hl eq_refl)]]].
      * rewrite payload_app, payload_one, length_app, <- drop_drop, Ed, <- app_assoc, drop_app_length. done.
      * rewrite payload_app, payload_one, len_app. exact Ebq.
      * rewrite Euq, sum_unpacked_app. f_equal. unfold sum_unpacked. cbn. lia.
    + exists p, (payload qs ++ rest). rewrite Hu, Hue. rewrite <- app_assoc in Ed. auto 10.
Qed.

(** From the start of the file. *)
Lemma scan_start file footer fs hs st' :
  len hs <= MAX_CHUNKS_PER_XORB -> length (chunk_boundary_offsets footer) = length hs ->
  length (unpacked_chunk_offsets footer) = length hs -> 0 <= fs ->
  fold_outcome (verify_file_chunk file footer fs) (mkScan [] [] 0 0 0 0) (enumerate hs) = Ok st' <->
  exists ps rest, Forall part_wf ps /\ map part_hash ps = hs /\ file = payload ps ++ rest /\
    chunk_boundary_offsets footer = boundaries 0 ps /\ unpacked_chunk_offsets footer = unpacked 0 ps /\
    len (payload ps) <= fs /\ st' = scan_of ps.
Proof. intros. apply (scan_iff file footer fs hs []); (done || constructor). Qed.

Lemma verify_file_chunk_not_panic file footer fs st entry :
  verify_file_chunk file footer fs st entry <> Panic.
Proof.
  unfold verify_file_chunk. destruct entry as [i e]. destruct (negb _); [|done].
  unfold read_exact at 1. destruct (8 <=? _)%nat; [|done]. cbn [map_err].
  set (hb := take 8 _). set (rest := drop 8 _).
  destruct (header_deserialize hb) as [[h hr]| |] eqn:Eh; [|done|].
  - destruct (_ =? _); [|done]. destruct (unpacked_chunk_offsets footer !! i); [|done]. cbn [ok_or].
    destruct (_ =? _); [|done]. apply header_inv in Eh as [(_ & Hc & _) _].
    destruct (read_payload_hash (sc_offset st + 8) rest (compressed_length h) hb) as [(_ & hs & -> & _)|(_ & e' & ->)];
      [lia| |done].
    by case_bool_decide.
  - by apply header_not_panic in Eh.
Qed.
End ScanLemmas.

(** ** Lemmas: whole files *)

Lemma at_ident_drop data k j : 0 <= k <= len data -> 0 <= j -> at_ident (drop (Z.to_nat k) data) j <-> at_ident data (k + j).
Proof.
  intros Hk Hj. unfold at_ident. rewrite len_drop, drop_drop, <- Z2Nat.inj_add by lia.
  split; intros (? & ? & ?); repeat split; (done || lia).
Qed.

Lemma last_ident_drop data k j :
  0 <= k <= len data -> 0 <= j -> last_ident (drop (Z.to_nat k) data) j <-> last_ident data (k + j).
Proof.
  intros Hk Hj. unfold last_ident. rewrite at_ident_drop by done.
  split; intros [Ha Hl]; (split; [done|]); intros i Hi.
  - intros Hx. apply (Hl (i - k)); [lia|]. apply at_ident_drop; [done|lia|]. by replace (k + (i - k)) with i by lia.
  - intros Hx. apply at_ident_drop in Hx; [|done|destruct Hx; lia]. by apply (Hl (k + i)); [lia|].
Qed.

Lemma at_ident_footer data info : at_ident (data ++ info_serialize info) (len data).
Proof.
  unfold at_ident. pose proof (len_nonneg data). rewrite len_app.
  assert (exists rest, info_serialize info = IDENT_HASHES ++ rest) as [rest ->] by (eexists; reflexivity).
  rewrite len_app. change (len IDENT_HASHES) with 7. pose proof (len_nonneg rest).
  split; [done|]. split; [lia|]. unfold len. by rewrite Nat2Z.id, drop_app_length.
Qed.

Section Whole.
Context `{Blake3, !Blake3Laws, HexCrate, FileReads, !FileReadsLaws}.

Lemma info_wf_parts ps : parts_fit ps -> info_wf (parts_footer ps).
Proof.
  intros (W & Hn & Hb & Hu). unfold info_wf, parts_footer.
  cbn [xi_xorb_hash chunk_hashes chunk_boundary_offsets unpacked_chunk_offsets].
  rewrite len_map, length_map, boundaries_length, unpacked_length.
  split; [|split; [|done]].
  - apply xorb_hash_wf, Forall_map, Forall_true. intros p. apply from_bytes_wf.
  - apply Forall_map, Forall_true. intros p. apply from_bytes_wf.
Qed.

Lemma footer_length ps : parts_fit ps -> len (info_serialize (parts_footer ps)) = 60 + 40 * len ps.
Proof.
  intros Hf. rewrite info_serialize_length by by apply info_wf_parts. destruct Hf as (_ & Hn & _).
  unfold serialized_len, serialized_len_for_num_chunks, parts_footer, as_u64. cbn [chunk_hashes].
  rewrite len_map. unfold MAX_CHUNKS_PER_XORB in Hn. pose proof (len_nonneg ps). apply Z.mod_small. lia.
Qed.

Lemma serialized_len_parts ps : parts_fit ps -> serialized_len (parts_footer ps) = 60 + 40 * len ps.
Proof. intros Hf. rewrite <- info_serialize_length by by apply info_wf_parts. by apply footer_length. Qed.

Lemma verify_file_complete ps :
  parts_fit ps -> last_ident (xorb_bytes ps) (len (payload ps)) -> len (xorb_bytes ps) < 2 ^ 64 ->
  verify_xorb_from_file_with_info (xorb_bytes ps) = Ok (parts_report ps).
Proof.
  intros Hfit Hlast Hsmall. pose proof (footer_length ps Hfit) as Hfl. pose proof (info_wf_parts ps Hfit) as Wi.
  pose proof Hfit as (W & Hn & _). unfold MAX_CHUNKS_PER_XORB in Hn.
  assert (len (xorb_bytes ps) = len (payload ps) + (60 + 40 * len ps)) as Hlen
    by (unfold xorb_bytes; by rewrite len_app, Hfl).
  pose proof (len_nonneg ps). pose proof (len_nonneg (payload ps)).
  unfold verify_xorb_from_file_with_info. cbv zeta. change max_serialized_len with 4000060.
  set (fl := len (xorb_bytes ps)) in *. replace (8 <=? fl) with true by lia.
  set (k := fl - Z.min fl 4000060). assert (0 <= k <= len (payload ps)) as Hk by lia.
  set (tail := drop (Z.to_nat k) (xorb_bytes ps)).
  assert (len tail = fl - k) as Htl by (apply len_drop; lia).
  assert (find_footer tail = Ok (Some (len (payload ps) - k))) as ->.
  { apply find_footer_spec; [lia|]. apply last_ident_drop; [lia..|].
    by replace (k + (len (payload ps) - k)) with (len (payload ps)) by lia. }
  cbn [ok_or]. rewrite slice_ok by lia. rewrite take_ge by (rewrite length_drop; unfold len in *; lia).
  assert (drop (Z.to_nat (len (payload ps) - k)) tail = info_serialize (parts_footer ps)) as ->.
  { unfold tail. rewrite drop_drop, <- Z2Nat.inj_add by lia.
    replace (k + (len (payload ps) - k)) with (len (payload ps)) by lia.
    unfold xorb_bytes, len. by rewrite Nat2Z.id, drop_app_length. }
  rewrite <- (app_nil_r (info_serialize _)), info_from_bytes_app by done.
  replace (k + (len (payload ps) - k)) with (len (payload ps)) by lia.
  rewrite serialized_len_parts by done.
  rewrite checked_add_le by (unfold u64_max; lia). cbn [ok_or].
  replace (len (payload ps) + (60 + 40 * len ps) =? fl) with true by lia.
  assert (fold_outcome (verify_file_chunk (xorb_bytes ps) (parts_footer ps) (len (payload ps)))
    (mkScan [] [] 0 0 0 0) (enumerate (chunk_hashes (parts_footer ps))) = Ok (scan_of ps)) as ->.
  { apply scan_start; cbn [parts_footer chunk_hashes chunk_boundary_offsets unpacked_chunk_offsets];
      [by rewrite len_map|by rewrite boundaries_length, length_map|by rewrite unpacked_length, length_map|done|].
    by exists ps, (info_serialize (parts_footer ps)). }
  cbn [scan_of sc_offset sc_chunk_info sc_verified sc_total_unpacked sc_total_compressed parts_footer xi_xorb_hash].
  by rewrite Z.eqb_refl, bool_decide_true by done.
Qed.

Lemma verify_file_sound file info :
  len file < 2 ^ 64 -> verify_xorb_from_file_with_info file = Ok info ->
  exists ps, parts_fit ps /\ file = xorb_bytes ps /\ last_ident file (len (payload ps)) /\ info = parts_report ps.
Proof.
  intros Hsmall. unfold verify_xorb_from_file_with_info. cbv zeta. change max_serialized_len with 4000060.
  set (fl := len file) in *. destruct (Z.leb_spec 8 fl); [|done].
  set (k := fl - Z.min fl 4000060). assert (0 <= k /\ k + 8 <= fl) as Hk by lia.
  set (tail := drop (Z.to_nat k) file). assert (len tail = fl - k) as Htl by (apply len_drop; lia).
  destruct (find_footer tail) as [[i|]| |] eqn:Ef; cbn [ok_or]; try done.
  apply find_footer_spec in Ef; [|lia]. pose proof Ef as [(Hi & Hi7 & _) _].
  rewrite slice_ok by lia. rewrite take_ge by (rewrite length_drop; unfold len in *; lia).
  apply last_ident_drop in Ef; [|lia..].
  replace (drop (Z.to_nat i) tail) with (drop (Z.to_nat (k + i)) file)
    by (unfold tail; by rewrite drop_drop, <- Z2Nat.inj_add by lia).
  set (fs := k + i) in *. assert (len (drop (Z.to_nat fs) file) = fl - fs) as Hdl by (apply len_drop; lia).
  destruct (info_from_bytes _) as [footer| |] eqn:Ei; try done.
  apply info_from_bytes_inv in Ei as [Wi [trail Ei]]. pose proof (info_serialize_length footer Wi) as Hsl.
  destruct (checked_add fs (serialized_len footer)) as [fe|] eqn:Ec; cbn [ok_or]; [|done].
  apply checked_add_Some in Ec as [-> _]. destruct (Z.eqb_spec (fs + serialized_len footer) fl) as [He|]; [|done].
  rewrite Ei, len_app in Hdl. assert (trail = []) as -> by (destruct trail; [done|rewrite len_cons in Hdl; pose proof (len_nonneg trail); lia]).
  rewrite app_nil_r in Ei. destruct (fold_outcome _ _ _) as [st| |] eqn:Es; [|done..].
  destruct Wi as (Wx & Wh & Hn & Lb & Lu & Wb & Wu).
  apply scan_start in Es as (ps & rest & W & Eh & Ed & Eb & Eu & Hl & ->); [|done|done|done|lia].
  cbn [scan_of sc_offset sc_chunk_info sc_verified sc_total_unpacked sc_total_compressed].
  destruct (Z.eqb_spec (len (payload ps)) fs) as [Hfs|]; [|done]. case_bool_decide as Hx; [|done]. intros [= <-].
  assert (footer = parts_footer ps) as ->.
  { unfold parts_footer. rewrite Hx, Eh, <- Eb, <- Eu. by destruct footer. }
  assert (file = xorb_bytes ps) as Hfile.
  { rewrite <- Hfs in Ei. unfold len in Ei. rewrite Nat2Z.id, Ed, drop_app_length in Ei. unfold xorb_bytes. by rewrite Ed, Ei. }
  exists ps. split.
  - cbn [parts_footer chunk_hashes chunk_boundary_offsets unpacked_chunk_offsets] in *. rewrite len_map in Hn. by repeat split.
  - split; [done|]. split; [by rewrite Hfs|]. unfold parts_report, fl. by rewrite Hfs, Hfile.
Qed.

(** *** The in-memory verifier *)

Lemma verify_chunks_not_panic data footer fs hs :
  fold_outcome (verify_chunk data footer fs) ([], 0) hs <> Panic.
Proof.
  apply (fold_outcome_not_panic (fun st => 0 <= snd st)); [| |done]; unfold verify_chunk.
  - intros [ns off] [i e] Hoff. cbn in Hoff. set (b := default _ _).
    destruct (Z.ltb_spec (len data) b), (Z.ltb_spec b off); cbn [orb negb]; try done.
    rewrite slice_ok by lia. by case_bool_decide.
  - intros [ns off] [i e] st' Hoff. cbn in Hoff. set (b := default _ _).
    destruct (Z.ltb_spec (len data) b), (Z.ltb_spec b off); cbn [orb negb]; try done.
    destruct (slice _ _ _); try done. case_bool_decide; [|done]. intros [= <-]. cbn. lia.
Qed.

Lemma verify_chunk_iff data footer fs cs e st' b :
  chunk_boundary_offsets footer !! length cs = Some b ->
  (exists rest, data = concat cs ++ rest) ->
  verify_chunk data footer fs (region_nodes cs, len (concat cs)) (length cs, e) = Ok st' <->
  exists c rest, data = concat (cs ++ [c]) ++ rest /\ compute_data_hash c = e /\ b = len (concat (cs ++ [c])) /\
    st' = (region_nodes (cs ++ [c]), len (concat (cs ++ [c]))).
Proof.
  intros Hb [rest0 ->]. unfold verify_chunk. rewrite Hb. cbn [default from_option id].
  set (data := concat cs ++ rest0). pose proof (len_nonneg (concat cs)).
  assert (forall c : list byte, len (concat (cs ++ [c])) = len (concat cs) + len c) as Hcl
    by (intros; by rewrite concat_app, len_app, concat_cons, app_nil_r).
  split.
  - destruct (Z.ltb_spec (len data) b), (Z.ltb_spec b (len (concat cs))); cbn [orb negb]; try done.
    destruct (slice data (len (concat cs)) b) as [c| |] eqn:Es; try done. case_bool_decide as He; [|done]. intros [= <-].
    pose proof (slice_len _ _ _ _ Es) as Hlc. apply slice_inv in Es as (_ & _ & Ec).
    assert (Z.to_nat (len (concat cs)) = length (concat cs)) as El by (unfold len; lia).
    rewrite El in Ec. unfold data in Ec. rewrite drop_app_length in Ec.
    exists c, (drop (Z.to_nat (b - len (concat cs))) rest0). rewrite Hcl.
    split; [|split; [done|split; [lia|]]].
    + unfold data. rewrite concat_app, <- app_assoc, concat_cons, app_nil_r. f_equal. by rewrite Ec, take_drop.
    + unfold region_nodes. rewrite map_app. cbn. f_equal. lia.
  - intros (c & rest & Ed & He & -> & ->). rewrite Hcl.
    rewrite concat_app, <- app_assoc, concat_cons, app_nil_r in Ed. pose proof (len_nonneg c).
    assert (len data = len (concat cs) + len c + len rest) as Hld by (rewrite Ed, !len_app; lia).
    pose proof (len_nonneg rest).
    replace (len data <? len (concat cs) + len c) with false by lia.
    replace (len (concat cs) + len c <? len (concat cs)) with false by lia. cbn [orb negb].
    rewrite Ed, slice_app, bool_decide_true by done. unfold region_nodes. rewrite map_app. cbn [map]. by rewrite He.
Qed.

Lemma verify_chunks_iff data footer fs hs cs st' :
  length (chunk_boundary_offsets footer) = (length cs + length hs)%nat ->
  (exists rest, data = concat cs ++ rest) ->
  fold_outcome (verify_chunk data footer fs) (region_nodes cs, len (concat cs)) (zip (seq (length cs) (length hs)) hs) = Ok st' <->
  exists ds rest, data = concat (cs ++ ds) ++ rest /\ map compute_data_hash ds = hs /\
    drop (length cs) (chunk_boundary_offsets footer) = ends (len (concat cs)) ds /\
    st' = (region_nodes (cs ++ ds), len (concat (cs ++ ds))).
Proof.
  revert cs. induction hs as [|e hs IH]; intros cs Lb Hd; cbn [length seq zip fold_outcome] in *.
  { rewrite drop_ge by lia. split.
    - intros [= <-]. destruct Hd as [rest Hd]. exists [], rest. by rewrite app_nil_r.
    - intros (ds & rest & _ & Hq & _ & ->). destruct ds; [|done]. by rewrite app_nil_r. }
  destruct (lookup_lt_is_Some_2 (chunk_boundary_offsets footer) (length cs)) as [b Hb]; [lia|].
  rewrite (drop_S _ _ _ Hb).
  assert (forall c : list byte, len (concat (cs ++ [c])) = len (concat cs) + len c) as Hcl
    by (intros; by rewrite concat_app, len_app, concat_cons, app_nil_r).
  assert (forall c, S (length cs) = length (cs ++ [c])) as Hlc by (intros; rewrite length_app; cbn; lia).
  split.
  - destruct (verify_chunk data footer fs (region_nodes cs, len (concat cs)) (length cs, e)) as [st1| |] eqn:E1; try done.
    intros E. apply (verify_chunk_iff _ _ _ _ _ _ b) in E1 as (c & rest & Ed & He & -> & ->); [|done..].
    rewrite (Hlc c) in E. apply IH in E as (ds & rest' & Ed' & Hds & Eb & ->); [|rewrite <- Hlc; lia|eauto].
    exists (c :: ds), rest'. rewrite <- (app_assoc cs [c] ds) in *. cbn [map ends].
    rewrite (Hlc c), Eb, Hcl, He, Hds. auto.
  - intros (ds & rest & Ed & Hds & Eb & ->). destruct ds as [|c ds]; [done|]. cbn [map ends] in *.
    injection Hds as He Hds. injection Eb as Eb1 Eb.
    replace (cs ++ c :: ds) with ((cs ++ [c]) ++ ds) in * by (by rewrite <- app_assoc).
    rewrite (proj2 (verify_chunk_iff data footer fs cs e (region_nodes (cs ++ [c]), len (concat (cs ++ [c]))) b Hb Hd)).
    + rewrite (Hlc c). apply IH; [rewrite <- Hlc; lia| |exists ds, rest; by rewrite <- Hlc, Hcl].
      exists (concat ds ++ rest). by rewrite Ed, concat_app, <- app_assoc.
    + exists c, (concat ds ++ rest). rewrite Hcl. split; [|done]. by rewrite Ed, concat_app, <- app_assoc.
Qed.

Lemma verify_xorb_spec data :
  (verify_xorb data = Panic <-> len data < 7) /\ (verify_xorb data = Ok tt <-> xorb_accepted data).
Proof.
  unfold verify_xorb. destruct (find_footer_spec data) as [Hpanic Hfind].
  destruct (Z.lt_ge_cases (len data) 7) as [Hs|Hs].
  { rewrite Hpanic by done. split; [done|]. split; [done|].
    intros (i & _ & _ & _ & [(? & ? & _) _] & _). lia. }
  destruct (Hfind Hs) as [Hnp Hiff].
  destruct (find_footer data) as [[i|]| |] eqn:Ef; cbn [ok_or]; try done.
  2: { split; [split; [done|lia]|]. split; [done|]. intros (j & _ & _ & _ & Hj%Hiff & _). done. }
  2: { split; [split; [done|lia]|]. split; [done|]. intros (j & _ & _ & _ & Hj%Hiff & _). done. }
  pose proof (proj1 (Hiff i) eq_refl) as Hlast. pose proof Hlast as [(Hi & Hi7 & _) _].
  rewrite slice_ok by lia. rewrite take_ge by (rewrite length_drop; unfold len in *; lia).
  destruct (info_from_bytes _) as [footer|e|] eqn:Ei.
  2: { split; [split; [done|lia]|]. split; [done|]. intros (j & f & _ & _ & Hj%Hiff & Hf & _).
       injection Hj as <-. congruence. }
  2: { by apply info_from_bytes_not_panic in Ei. }
  pose proof (info_from_bytes_inv _ _ Ei) as [(_ & _ & _ & Lb & _) _].
  pose proof (fun st' => verify_chunks_iff data footer i (chunk_hashes footer) [] st' Lb (ex_intro _ data eq_refl)) as Hfold.
  change (region_nodes [], len (concat [])) with (@nil node, 0) in Hfold.
  change (zip (seq (length []) (length (chunk_hashes footer))) (chunk_hashes footer)) with
    (enumerate (chunk_hashes footer)) in Hfold. cbn [app length] in Hfold. rewrite !drop_0 in Hfold.
  destruct (fold_outcome _ _ _) as [[nodes off]|e|] eqn:Es.
  3: by apply verify_chunks_not_panic in Es.
  2: { split; [split; [done|lia]|]. split; [done|].
       intros (j & f & cs & rest & Hj%Hiff & Hf & Hd & Hh & He & _). injection Hj as <-.
       assert (f = footer) as -> by congruence.
       enough (Err e = Ok (region_nodes cs, len (concat cs))) as Hc by done.
       apply Hfold. exists cs, rest. auto. }
  split; [split; [by case_bool_decide|lia]|]. split.
  - case_bool_decide as Hx; [|done]. intros _.
    destruct (proj1 (Hfold _) eq_refl) as (cs & rest & Hd & Hh & He & [= -> ->]).
    exists i, footer, cs, rest. auto 10.
  - intros (j & f & cs & rest & Hj%Hiff & Hf & Hd & Hh & He & Hx). injection Hj as <-.
    assert (f = footer) as -> by congruence.
    assert (Ok (nodes, off) = @Ok XetError (list node * Z) (region_nodes cs, len (concat cs))) as [= -> ->]
      by (apply Hfold; exists cs, rest; auto).
    by rewrite bool_decide_true.
Qed.

Lemma ends_parts start ps : ends start (map chunk_bytes ps) = boundaries start ps.
Proof. revert start. induction ps as [|p ps IH]; intros start; [done|]. cbn [map ends boundaries]. by rewrite IH. Qed.

Lemma parts_accepted ps :
  parts_fit ps -> last_ident (xorb_bytes ps) (len (payload ps)) -> xorb_accepted (xorb_bytes ps).
Proof.
  intros Hfit Hlast. exists (len (payload ps)), (parts_footer ps), (map chunk_bytes ps), (info_serialize (parts_footer ps)).
  split; [done|]. split; [|split; [done|split; [|split]]]; cbn [parts_footer chunk_hashes chunk_boundary_offsets xi_xorb_hash].
  - unfold xorb_bytes, len. rewrite Nat2Z.id, drop_app_length.
    rewrite <- (app_nil_r (info_serialize _)). apply info_from_bytes_app. by apply info_wf_parts.
  - unfold part_hash. by rewrite map_map.
  - by rewrite ends_parts.
  - unfold part_nodes, region_nodes. by rewrite map_map.
Qed.

Lemma verify_file_not_panic file : verify_xorb_from_file_with_info file <> Panic.
Proof.
  unfold verify_xorb_from_file_with_info. cbv zeta. change max_serialized_len with 4000060.
  destruct (Z.leb_spec 8 (len file)); [|done].
  set (k := len file - Z.min (len file) 4000060). set (tail := drop (Z.to_nat k) file).
  assert (len tail = len file - k) as Htl by (apply len_drop; lia).
  destruct (find_footer_spec tail) as [_ Hf]. specialize (Hf ltac:(lia)) as [Hnp Hiff].
  destruct (find_footer tail) as [[i|]| |]; cbn [ok_or]; try done.
  destruct (proj1 (Hiff i) eq_refl) as [(? & ? & _) _]. rewrite slice_ok by lia.
  destruct (info_from_bytes _) as [footer| |] eqn:Ei; [|done|by apply info_from_bytes_not_panic in Ei].
  destruct (checked_add _ _); cbn [ok_or]; [|done]. destruct (_ =? _); [|done].
  destruct (fold_outcome _ _ _) as [st| |] eqn:Es; [|done|].
  - destruct (_ =? _); [|done]. by case_bool_decide.
  - exfalso. revert Es. apply (fold_outcome_not_panic (fun _ => True)); auto using verify_file_chunk_not_panic.
Qed.
End Whole.

(** ** Properties *)

(** The footer parser accepts exactly the bytes the serializer writes for
    some well-formed footer, whatever follows them, and recovers that footer;
    the declared length [60 + 40 n] is the length written; parsing never
    panics. *)
Theorem xorb_footer_roundtrip data info :
  (info_from_bytes data = Ok info <-> info_wf info /\ exists rest, data = info_serialize info ++ rest) /\
  (info_wf info -> len (info_serialize info) = serialized_len info) /\
  info_from_bytes data <> Panic.
Proof.
  split; [|split; [apply info_serialize_length|apply info_from_bytes_not_panic]].
  split; [apply info_from_bytes_inv|]. intros [W [rest ->]]. by apply info_from_bytes_app.
Qed.

(** C23: The file verifier implements the format: it accepts a file exactly when
    the file is the layout of some list of well-formed parts (headers that
    agree with their payloads, consecutive chunks from offset 0 up to the
    footer, hashes, boundary and unpacked offsets and the aggregated hash all
    recomputed from the parts, nothing after the footer) with no footer ident
    after the footer's own, and what it reports is computed from those parts.
    It never panics, however short the reads of the file are. *)
Theorem verify_file_refines_layout `{Blake3Laws, HexCrate, FileReadsLaws} file :
  len file < 2 ^ 64 ->
  (forall info, verify_xorb_from_file_with_info file = Ok info <->
     exists ps, parts_fit ps /\ file = xorb_bytes ps /\ last_ident file (len (payload ps)) /\
       info = parts_report ps) /\
  verify_xorb_from_file_with_info file <> Panic.
Proof.
  intros Hs. split; [|apply verify_file_not_panic]. intros info. split.
  - by apply verify_file_sound.
  - intros (ps & Hfit & -> & Hl & ->). by apply verify_file_complete.
Qed.

(** The in-memory verifier accepts exactly the data whose last ident starts
    a footer that describes consecutive regions from the start of the data; it
    panics exactly on fewer than seven bytes; and it accepts every file the
    file verifier accepts. *)
Theorem verify_xorb_characterised `{Blake3Laws, HexCrate, FileReadsLaws} data :
  (verify_xorb data = Ok tt <-> xorb_accepted data) /\
  (verify_xorb data = Panic <-> len data < 7) /\
  (len data < 2 ^ 64 -> verify_xorb_from_file data = Ok tt -> verify_xorb data = Ok tt).
Proof.
  destruct (verify_xorb_spec data) as [Hp Ha]. split; [done|]. split; [done|].
  unfold verify_xorb_from_file. intros Hs E.
  destruct (verify_xorb_from_file_with_info data) as [info| |] eqn:Ev; try done.
  apply verify_file_sound in Ev as (ps & Hfit & -> & Hl & _); [|done]. apply Ha. by apply parts_accepted.
Qed.

(** ** Witnesses *)
Definition sample_parts : list part :=
  [(mkChunkHeader 1 3 NoCompression 3, [Byte.x61; Byte.x62; Byte.x63]);
   (mkChunkHeader 1 2 NoCompression 2, [Byte.x64; Byte.x65])].

Definition sample_file : list byte := @xorb_bytes Model.blake3 Model.hex sample_parts.

Lemma sample_parts_fit : parts_fit sample_parts.
Proof.
  unfold parts_fit, part_wf, header_wf, in_u8, in_u32, MAX_CHUNKS_PER_XORB.
  split; [repeat constructor; vm_compute; congruence|].
  split; [vm_compute; congruence|]. split; repeat constructor; vm_compute; congruence.
Qed.

Lemma sample_last_ident : last_ident sample_file (len (payload sample_parts)).
Proof.
  apply (proj2 (find_footer_spec sample_file)); [vm_compute; congruence|]. vm_compute. reflexivity.
Qed.

Lemma xorb_footer_roundtrip_witness :
  info_wf (mkInfo hash_default [] [] []) /\
  len (info_serialize (mkInfo hash_default [] [] [])) = 60.
Proof.
  assert (info_wf (mkInfo hash_default [] [] [])) as W
    by (split; [apply hash_default_wf|repeat split; try constructor; vm_compute; congruence]).
  split; [exact W|].
  exact (proj1 (proj2 (xorb_footer_roundtrip [] (mkInfo hash_default [] [] []))) W).
Defined.

Lemma verify_file_refines_layout_witness :
  @verify_xorb_from_file_with_info Model.blake3 Model.hex Model.reads sample_file =
  Ok (@parts_report Model.blake3 Model.hex sample_parts).
Proof.
  apply (proj1 (@verify_file_refines_layout Model.blake3 Model.blake3_laws Model.hex Model.reads
    Model.reads_laws sample_file ltac:(vm_compute; reflexivity))).
  exists sample_parts. split; [exact sample_parts_fit|]. split; [reflexivity|].
  split; [exact sample_last_ident|reflexivity].
Defined.

Lemma verify_xorb_characterised_witness :
  @verify_xorb_from_file Model.blake3 Model.hex Model.reads sample_file = Ok tt /\
  @verify_xorb Model.blake3 Model.hex sample_file = Ok tt.
Proof.
  assert (@verify_xorb_from_file Model.blake3 Model.hex Model.reads sample_file = Ok tt) as E
    by (vm_compute; reflexivity).
  split; [exact E|].
  refine (proj2 (proj2 (@verify_xorb_characterised Model.blake3 Model.blake3_laws Model.hex Model.reads
    Model.reads_laws sample_file)) _ E). vm_compute. reflexivity.
Defined.
