(* ===== verification/XorbBuilder.v ===== *)
(** * Building and reading xorbs (src/format/xorb_builder.rs, src/xorb_reader.rs)

    The builder accumulates serialized chunks with running [u32] offsets and
    appends the footer; the reader extracts one verified chunk of a file. *)
From S2P Require Import Prelude Bytes Crates MerkleHash Hash Cdc Compression Xorb.

Local Open Scope Z_scope.

(** ** The builder *)
Record ChunkData := mkChunkData {
  chunk_hash : MerkleHash;
  serialized_chunk : list byte;
  compressed_len : Z;
  uncompressed_size : Z;
  boundary_offset : Z;
  unpacked_offset : Z;
}.

Record XorbBuildResult := mkBuildResult {
  xb_data : list byte;
  xb_xorb_hash : MerkleHash;
  xb_chunk_hashes : list MerkleHash;
  total_uncompressed_size : Z;
  total_compressed_size : Z;
}.

Record XorbBuilder := mkXorbBuilder {
  xb_chunks : list ChunkData;
  xb_scheme : CompressionScheme;
  next_boundary_offset : Z;
  next_unpacked_offset : Z;
}.

Section Builder.
Context `{Blake3, HexCrate, Lz4}.

Definition builder_new (scheme : CompressionScheme) : XorbBuilder := mkXorbBuilder [] scheme 0 0.

Definition add_chunk (b : XorbBuilder) (data : list byte) : XetResult (XorbBuilder * (MerkleHash * Z)) :=
  let uncompressed_size := as_u32 (len data) in
  let* compressed_data := compress (xb_scheme b) data in
  let header := mkChunkHeader 1 (as_u32 (len compressed_data)) (xb_scheme b) uncompressed_size in
  let chunk_bytes := header_serialize header ++ compressed_data in
  let chunk_hash := compute_data_hash chunk_bytes in
  let boundary_offset := as_u32 (next_boundary_offset b + as_u32 (len chunk_bytes)) in
  let unpacked_offset := next_unpacked_offset b in
  let compressed_len := as_u32 (len compressed_data) in
  Ok (mkXorbBuilder
        (xb_chunks b ++ [mkChunkData chunk_hash chunk_bytes compressed_len uncompressed_size
                           boundary_offset unpacked_offset])
        (xb_scheme b) boundary_offset (as_u32 (next_unpacked_offset b + uncompressed_size)),
      (chunk_hash, compressed_len)).

Definition builder_chunk_nodes (b : XorbBuilder) : list node :=
  map (fun c => (chunk_hash c, len (serialized_chunk c))) (xb_chunks b).

Definition builder_xorb_hash (b : XorbBuilder) : MerkleHash := xorb_hash (builder_chunk_nodes b).

Definition builder_chunk_info (b : XorbBuilder) : list node :=
  map (fun c => (chunk_hash c, uncompressed_size c)) (xb_chunks b).

(** [iter().sum()] over [u64]. *)
Definition sum_u64 (l : list Z) : Z := fold_left (fun acc z => as_u64 (acc + z)) l 0.

Definition build (b : XorbBuilder) : XetResult XorbBuildResult :=
  let buf := concat (map serialized_chunk (xb_chunks b)) in
  let xorb_hash_val := xorb_hash (builder_chunk_nodes b) in
  let footer := mkInfo xorb_hash_val (map chunk_hash (xb_chunks b))
                  (map boundary_offset (xb_chunks b)) (map unpacked_offset (xb_chunks b)) in
  let buf := buf ++ info_serialize footer in
  let* _ := verify_xorb buf in
  Ok (mkBuildResult buf xorb_hash_val (map chunk_hash (xb_chunks b))
        (sum_u64 (map uncompressed_size (xb_chunks b))) (sum_u64 (map compressed_len (xb_chunks b)))).

(** Adding chunks one after the other. *)
Definition add_chunks (b : XorbBuilder) (chunks : list (list byte)) : XetResult XorbBuilder :=
  fold_outcome (fun b d => let* '(b', _) := add_chunk b d in Ok b') b chunks.
End Builder.

(** ** The reader *)
Section Reader.
Context `{Blake3, Lz4}.

Definition max_compressed_len_for_chunk (scheme : CompressionScheme) (expected_uncompressed_len : Z) : Z :=
  match scheme with
  | NoCompression => expected_uncompressed_len
  | LZ4 | ByteGrouping4LZ4 => expected_uncompressed_len + expected_uncompressed_len / 255 + 20
  end.

(** The error is the literal text of the message. *)
Definition extract_chunk_verified_from_file (xorb_file : list byte) (chunk_offset_bytes : Z)
    (expected_uncompressed_len : Z) (expected_hash : MerkleHash) : outcome string (list byte) :=
  let* '(header_bytes, rest) :=
    map_err (fun _ => "Failed to read chunk header"%string)
      (read_exact 8 (drop (Z.to_nat chunk_offset_bytes) xorb_file)) in
  let* '(chunk_header, _) :=
    map_err (fun _ => "Failed to parse chunk header"%string) (header_deserialize header_bytes) in
  let max_uncompressed_len := max_chunk_size config_new in
  ensure (expected_uncompressed_len <=? max_uncompressed_len) else "Shard chunk length exceeds maximum"%string in
  ensure (uncompressed_length chunk_header =? expected_uncompressed_len) else "Chunk length mismatch"%string in
  let max_compressed_len :=
    max_compressed_len_for_chunk (compression_scheme chunk_header) expected_uncompressed_len in
  ensure (compressed_length chunk_header <=? max_compressed_len)
    else "Chunk compressed length exceeds maximum"%string in
  let* '(compressed_data, _) :=
    map_err (fun _ => "Failed to read chunk data"%string)
      (read_exact (Z.to_nat (compressed_length chunk_header)) rest) in
  let hasher := streaming_update (streaming_update streaming_new header_bytes) compressed_data in
  let actual_hash := streaming_finalize hasher in
  ensure bool_decide (actual_hash = expected_hash) else "Chunk hash mismatch"%string in
  map_err (fun _ => "Failed to decompress chunk"%string)
    (decompress (compression_scheme chunk_header) compressed_data (uncompressed_length chunk_header)).
End Reader.

(** ** Specification: the parts a builder holds *)
Section Parts.
Context `{Blake3, HexCrate, Lz4}.

Definition compressed (scheme : CompressionScheme) (data : list byte) : list byte :=
  match compress scheme data with Ok c => c | _ => [] end.

Definition part_of (scheme : CompressionScheme) (data : list byte) : part :=
  (mkChunkHeader 1 (len (compressed scheme data)) scheme (len data), compressed scheme data).

Definition parts_of (scheme : CompressionScheme) (chunks : list (list byte)) : list part :=
  map (part_of scheme) chunks.

(** Where chunk [i] starts. *)
Definition chunk_start (scheme : CompressionScheme) (chunks : list (list byte)) (i : nat) : Z :=
  len (payload (parts_of scheme (take i chunks))).
End Parts.

(** ** Lemmas *)
Section Lemmas.
Context `{Blake3, !Blake3Laws, HexCrate, Lz4, !Lz4Laws}.

Lemma compress_ok scheme data : compress scheme data = Ok (compressed scheme data).
Proof. by destruct scheme. Qed.

Definition chunk_data_of (start unp : Z) (p : part) : ChunkData :=
  mkChunkData (part_hash p) (chunk_bytes p) (compressed_length (fst p)) (uncompressed_length (fst p))
    (start + len (chunk_bytes p)) unp.

Fixpoint chunk_datas (start unp : Z) (ps : list part) : list ChunkData :=
  match ps with
  | [] => []
  | p :: ps' => chunk_data_of start unp p ::
      chunk_datas (start + len (chunk_bytes p)) (unp + uncompressed_length (fst p)) ps'
  end.

Lemma chunk_datas_snoc start unp ps p :
  chunk_datas start unp (ps ++ [p]) =
  chunk_datas start unp ps ++ [chunk_data_of (start + len (payload ps)) (unp + sum_unpacked ps) p].
Proof.
  revert start unp. induction ps as [|q ps IH]; intros start unp; cbn [app chunk_datas].
  - change (len (payload [])) with 0. change (sum_unpacked []) with 0. by rewrite !Z.add_0_r.
  - change (sum_unpacked (q :: ps)) with (uncompressed_length (fst q) + sum_unpacked ps).
    by rewrite IH, payload_cons, len_app, !Z.add_assoc.
Qed.

Lemma chunk_datas_fields start unp ps :
  map chunk_hash (chunk_datas start unp ps) = map part_hash ps /\
  map serialized_chunk (chunk_datas start unp ps) = map chunk_bytes ps /\
  map boundary_offset (chunk_datas start unp ps) = boundaries start ps /\
  map unpacked_offset (chunk_datas start unp ps) = unpacked unp ps /\
  map uncompressed_size (chunk_datas start unp ps) = map (fun p => uncompressed_length (fst p)) ps /\
  map compressed_len (chunk_datas start unp ps) = map (fun p => compressed_length (fst p)) ps /\
  map (fun c => (chunk_hash c, len (serialized_chunk c))) (chunk_datas start unp ps) = part_nodes ps.
Proof.
  revert start unp. induction ps as [|p ps IH]; intros start unp; [by repeat split|].
  cbn [chunk_datas map boundaries unpacked part_nodes].
  destruct (IH (start + len (chunk_bytes p)) (unp + uncompressed_length (fst p))) as (E1 & E2 & E3 & E4 & E5 & E6 & E7).
  rewrite E1, E2, E3, E4, E5, E6, E7. by repeat split.
Qed.

(** The builder that has been given [ps]. *)
Definition builder_of (scheme : CompressionScheme) (ps : list part) : XorbBuilder :=
  mkXorbBuilder (chunk_datas 0 0 ps) scheme (len (payload ps)) (sum_unpacked ps).

(** Lengths that fit their fields. *)
Definition builder_fits (ps : list part) : Prop :=
  Forall part_wf ps /\ len (payload ps) < 2 ^ 32 /\ sum_unpacked ps < 2 ^ 32.

Lemma sum_unpacked_nonneg ps : Forall part_wf ps -> 0 <= sum_unpacked ps.
Proof. intros W. destruct (sums_bounded ps W). lia. Qed.

Lemma sum_unpacked_one p : sum_unpacked [p] = uncompressed_length (fst p).
Proof. unfold sum_unpacked. cbn. lia. Qed.

Lemma builder_fits_prefix ps qs : builder_fits (ps ++ qs) -> builder_fits ps.
Proof.
  intros (W & Hp & Hs). apply Forall_app in W as [W1 W2].
  rewrite payload_app, len_app in Hp. rewrite sum_unpacked_app in Hs.
  pose proof (len_nonneg (payload qs)). pose proof (sum_unpacked_nonneg qs W2).
  split; [done|]. split; lia.
Qed.

Lemma add_chunk_part scheme ps data :
  builder_fits (ps ++ [part_of scheme data]) ->
  add_chunk (builder_of scheme ps) data =
  Ok (builder_of scheme (ps ++ [part_of scheme data]),
      (part_hash (part_of scheme data), len (compressed scheme data))).
Proof.
  intros (W & Hp & Hs). apply Forall_app in W as [W1 W2]. apply Forall_singleton in W2 as [(_ & Hc & Hu) _].
  cbn [part_of fst compressed_length uncompressed_length] in Hc, Hu.
  rewrite payload_app, payload_one, len_app in Hp. rewrite sum_unpacked_app, sum_unpacked_one in Hs.
  pose proof (len_nonneg (payload ps)). pose proof (sum_unpacked_nonneg ps W1).
  pose proof (len_nonneg (chunk_bytes (part_of scheme data))).
  unfold add_chunk. cbn [xb_scheme builder_of xb_chunks next_boundary_offset next_unpacked_offset].
  rewrite compress_ok.
  assert (as_u32 (len data) = len data) as -> by (apply Z.mod_small; lia).
  assert (as_u32 (len (compressed scheme data)) = len (compressed scheme data)) as -> by (apply Z.mod_small; lia).
  change (header_serialize (mkChunkHeader 1 (len (compressed scheme data)) scheme (len data)) ++ compressed scheme data)
    with (chunk_bytes (part_of scheme data)).
  unfold builder_of. rewrite chunk_datas_snoc, payload_app, payload_one, len_app, sum_unpacked_app, sum_unpacked_one.
  cbn [part_of fst uncompressed_length compressed_length] in *.
  unfold as_u32. rewrite !Z.mod_small; try lia; [|rewrite Z.mod_small; lia].
  by rewrite !Z.add_0_l.
Qed.

Lemma add_chunks_parts scheme ps chunks :
  builder_fits (ps ++ parts_of scheme chunks) ->
  add_chunks (builder_of scheme ps) chunks = Ok (builder_of scheme (ps ++ parts_of scheme chunks)).
Proof.
  revert ps. induction chunks as [|d chunks IH]; intros ps Hf; cbn [parts_of map] in *.
  - by rewrite app_nil_r.
  - replace (ps ++ part_of scheme d :: map (part_of scheme) chunks) with
      ((ps ++ [part_of scheme d]) ++ parts_of scheme chunks) in * by (by rewrite <- app_assoc).
    unfold add_chunks. cbn [fold_outcome]. rewrite add_chunk_part by (by eapply builder_fits_prefix).
    by apply IH.
Qed.
End Lemmas.

(** Chunks as the callers make them: no larger than the chunker's maximum,
    and with totals that fit the format's [u32] offsets. *)
Definition chunks_fit `{Lz4} (scheme : CompressionScheme) (chunks : list (list byte)) : Prop :=
  Forall (fun d => len d <= max_chunk_size config_new) chunks /\ len chunks <= MAX_CHUNKS_PER_XORB /\
  len (payload (parts_of scheme chunks)) < 2 ^ 32 /\ len (concat chunks) < 2 ^ 32.

Section BuildLemmas.
Context `{Blake3, !Blake3Laws, HexCrate, Lz4, !Lz4Laws}.

Lemma bg4_len data : len (bg4_split data) = len data.
Proof. unfold len. by rewrite bg4_split_length. Qed.

Lemma compressed_bound scheme data :
  len (compressed scheme data) <= max_compressed_len_for_chunk scheme (len data).
Proof.
  unfold compressed. destruct scheme; cbn; [lia|apply lz4_bound|].
  rewrite <- (bg4_len data). apply lz4_bound.
Qed.

Lemma part_of_wf scheme data : len data <= max_chunk_size config_new -> part_wf (part_of scheme data).
Proof.
  change (max_chunk_size config_new) with 131072. intros Hd. pose proof (len_nonneg data).
  pose proof (compressed_bound scheme data) as Hc.
  pose proof (Z.div_le_upper_bound (len data) 255 (len data) ltac:(lia) ltac:(lia)).
  pose proof (len_nonneg (compressed scheme data)).
  assert (len (compressed scheme data) <= 2 * 131072 + 20) by (unfold max_compressed_len_for_chunk in Hc; destruct scheme; lia).
  split; [|done]. split; [unfold in_u8; cbn; lia|]. cbn [part_of fst compressed_length uncompressed_length]. lia.
Qed.

Lemma parts_of_wf scheme chunks :
  Forall (fun d => len d <= max_chunk_size config_new) chunks -> Forall part_wf (parts_of scheme chunks).
Proof. intros Hc. apply Forall_map. eapply Forall_impl; [exact Hc|]. intros d. apply part_of_wf. Qed.

Lemma sum_unpacked_parts scheme chunks : sum_unpacked (parts_of scheme chunks) = len (concat chunks).
Proof.
  induction chunks as [|d chunks IH]; [done|]. cbn [concat parts_of map]. rewrite len_app.
  change (sum_unpacked (part_of scheme d :: map (part_of scheme) chunks)) with
    (len d + sum_unpacked (parts_of scheme chunks)). by rewrite IH.
Qed.

Lemma boundaries_in_u32 start ps :
  0 <= start -> start + len (payload ps) < 2 ^ 32 -> Forall in_u32 (boundaries start ps).
Proof.
  revert start. induction ps as [|p ps IH]; intros start Hs Hl; cbn [boundaries]; [constructor|].
  rewrite payload_cons, len_app in Hl. pose proof (len_nonneg (payload ps)). pose proof (len_nonneg (chunk_bytes p)).
  constructor; [unfold in_u32; lia|]. apply IH; lia.
Qed.

Lemma unpacked_in_u32 start ps :
  Forall part_wf ps -> 0 <= start -> start + sum_unpacked ps < 2 ^ 32 -> Forall in_u32 (unpacked start ps).
Proof.
  intros W. revert start. induction W as [|p ps [(_ & _ & Hu) _] W IH]; intros start Hs Hl; cbn [unpacked]; [constructor|].
  change (sum_unpacked (p :: ps)) with (uncompressed_length (fst p) + sum_unpacked ps) in Hl.
  pose proof (sum_unpacked_nonneg ps W). constructor; [unfold in_u32; lia|]. apply IH; lia.
Qed.

Lemma chunks_parts_fit scheme chunks : chunks_fit scheme chunks ->
  parts_fit (parts_of scheme chunks) /\ builder_fits (parts_of scheme chunks).
Proof.
  intros (Hd & Hn & Hp & Hu). pose proof (parts_of_wf scheme chunks Hd) as W.
  rewrite <- (sum_unpacked_parts scheme) in Hu. split; [|done].
  split; [done|]. split; [unfold parts_of; by rewrite len_map|].
  split; [by apply boundaries_in_u32|by apply unpacked_in_u32].
Qed.

Lemma sum_u64_small l acc :
  Forall (fun z => 0 <= z) l -> 0 <= acc -> acc + foldr Z.add 0 l < 2 ^ 64 ->
  fold_left (fun acc z => as_u64 (acc + z)) l acc = acc + foldr Z.add 0 l.
Proof.
  intros Hl. revert acc. induction Hl as [|z l Hz Hl IH]; intros acc Ha Hs; cbn [fold_left foldr] in *; [lia|].
  assert (0 <= foldr Z.add 0 l) by (clear -Hl; induction Hl; cbn; lia).
  unfold as_u64 at 2. rewrite Z.mod_small by lia. rewrite IH; lia.
Qed.

Lemma build_parts scheme ps :
  build (builder_of scheme ps) =
  let* _ := verify_xorb (xorb_bytes ps) in
  Ok (mkBuildResult (xorb_bytes ps) (xorb_hash (part_nodes ps)) (map part_hash ps)
    (sum_u64 (map (fun p => uncompressed_length (fst p)) ps)) (sum_u64 (map (fun p => compressed_length (fst p)) ps))).
Proof.
  unfold build, builder_chunk_nodes. cbn [builder_of xb_chunks].
  destruct (chunk_datas_fields 0 0 ps) as (E1 & E2 & E3 & E4 & E5 & E6 & E7).
  by rewrite E1, E2, E3, E4, E5, E6, E7.
Qed.

Lemma xorb_bytes_len ps : 7 <= len (xorb_bytes ps).
Proof.
  unfold xorb_bytes. rewrite len_app.
  assert (exists rest, info_serialize (parts_footer ps) = IDENT_HASHES ++ rest) as [rest ->] by (eexists; reflexivity).
  rewrite len_app. change (len IDENT_HASHES) with 7. pose proof (len_nonneg (payload ps)). pose proof (len_nonneg rest). lia.
Qed.

Lemma verify_layout_not_panic ps : verify_xorb (xorb_bytes ps) <> Panic.
Proof.
  intros E. apply verify_xorb_spec in E. pose proof (xorb_bytes_len ps). lia.
Qed.

Lemma sum_u64_parts ps :
  builder_fits ps -> len ps <= MAX_CHUNKS_PER_XORB ->
  sum_u64 (map (fun p => uncompressed_length (fst p)) ps) = sum_unpacked ps.
Proof.
  intros (W & _ & Hs) Hn. unfold sum_u64. pose proof (sum_unpacked_nonneg ps W).
  assert (foldr Z.add 0 (map (fun p : part => uncompressed_length (fst p)) ps) = sum_unpacked ps) as E.
  { unfold sum_unpacked. clear. induction ps as [|p ps IH]; cbn [map foldr]; [done|]. by rewrite IH. }
  rewrite sum_u64_small; [by rewrite E| |done|rewrite E; lia].
  apply Forall_map. eapply Forall_impl; [exact W|]. intros p [(_ & _ & Hu) _]. cbn. lia.
Qed.

(** *** Reading a chunk back *)

Lemma extract_at file off d h :
  0 <= off -> forall scheme rest, len d <= max_chunk_size config_new ->
  drop (Z.to_nat off) file = chunk_bytes (part_of scheme d) ++ rest ->
  part_hash (part_of scheme d) = h ->
  extract_chunk_verified_from_file file off (len d) h = Ok d.
Proof.
  intros Ho scheme rest Hd Ed <-. pose proof (part_of_wf scheme d Hd) as [Wh Lp].
  unfold extract_chunk_verified_from_file. rewrite Ed. unfold chunk_bytes at 1. rewrite <- app_assoc.
  rewrite (read_exact_app 8) by apply header_serialize_length. cbn [map_err].
  rewrite <- (app_nil_r (header_serialize _)) at 1. rewrite header_roundtrip by done. cbn [map_err].
  cbn [part_of fst snd compression_scheme compressed_length uncompressed_length].
  replace (len d <=? max_chunk_size config_new) with true by (symmetry; by apply Z.leb_le).
  rewrite Z.eqb_refl. pose proof (compressed_bound scheme d) as Hc. apply Z.leb_le in Hc. rewrite Hc.
  assert (Z.to_nat (len (compressed scheme d)) = length (compressed scheme d)) as -> by (unfold len; lia).
  rewrite (read_exact_app (length (compressed scheme d))) by done. cbn [map_err].
  rewrite (proj2 (bool_decide_eq_true _)).
  - destruct (decompress_inverts scheme d) as (c & Ec & Edc).
    { intros _. unfold MAX_DECOMPRESSED_SIZE. change (max_chunk_size config_new) with 131072 in Hd. lia. }
    rewrite compress_ok in Ec. injection Ec as <-. by rewrite Edc.
  - unfold streaming_finalize, part_hash, compute_data_hash. f_equal. cbn [sh_hasher streaming_update streaming_new].
    pose proof (blake3_streaming DATA_KEY [header_serialize (mkChunkHeader 1 (len (compressed scheme d)) scheme (len d)); compressed scheme d]) as Hs.
    cbn [fold_left concat] in Hs. rewrite app_nil_r in Hs. exact Hs.
Qed.

Lemma chunk_at scheme chunks i d tail :
  chunks !! i = Some d ->
  exists rest, drop (Z.to_nat (chunk_start scheme chunks i)) (payload (parts_of scheme chunks) ++ tail) =
    chunk_bytes (part_of scheme d) ++ rest.
Proof.
  intros Hi. exists (payload (parts_of scheme (drop (S i) chunks)) ++ tail). unfold chunk_start.
  rewrite <- (take_drop_middle chunks i d Hi) at 2. unfold parts_of. rewrite map_app, payload_app. cbn [map].
  rewrite payload_cons, <- !app_assoc. unfold len. by rewrite Nat2Z.id, drop_app_length.
Qed.

Lemma extract_sound file off expected h :
  0 <= off -> 0 <= expected ->
  extract_chunk_verified_from_file file off expected h <> Panic /\
  forall out, extract_chunk_verified_from_file file off expected h = Ok out ->
    len out = expected /\ expected <= max_chunk_size config_new /\
    exists p rest, part_wf p /\ drop (Z.to_nat off) file = chunk_bytes p ++ rest /\ part_hash p = h /\
      len (snd p) <= max_compressed_len_for_chunk (compression_scheme (fst p)) expected /\
      decompress (compression_scheme (fst p)) (snd p) expected = Ok out.
Proof.
  intros Ho He. unfold extract_chunk_verified_from_file. set (data := drop (Z.to_nat off) file).
  destruct (read_exact 8 data) as [[hb rest]| |] eqn:Er; cbn [map_err]; [|done|by apply read_exact_not_panic in Er].
  apply read_exact_inv in Er as [Ed Lh].
  destruct (header_deserialize hb) as [[hd hrest]| |] eqn:Eh; cbn [map_err]; [|done|by apply header_not_panic in Eh].
  apply header_inv in Eh as [Wh ->]. rewrite length_app, header_serialize_length in Lh.
  assert (hrest = []) as -> by (destruct hrest; cbn in Lh; [done|lia]). rewrite app_nil_r in *.
  destruct (Z.leb_spec expected (max_chunk_size config_new)); [|done].
  destruct (Z.eqb_spec (uncompressed_length hd) expected) as [Hu|]; [|done].
  destruct (Z.leb_spec (compressed_length hd) (max_compressed_len_for_chunk (compression_scheme hd) expected)); [|done].
  destruct (read_exact _ rest) as [[cd rest']| |] eqn:Er; cbn [map_err]; [|done|by apply read_exact_not_panic in Er].
  apply read_exact_inv in Er as [-> Lc]. case_bool_decide as Hh; [|done].
  destruct (decompress_guards (compression_scheme hd) cd (uncompressed_length hd)) as (Hnp & Hlen & _).
  destruct (decompress _ _ _) as [out'| |] eqn:Edc; cbn [map_err]; [|done..]. split; [done|]. intros out [= ->].
  split; [rewrite (Hlen out eq_refl); lia|]. split; [done|].
  destruct Wh as (? & Hc & ?). assert (len cd = compressed_length hd) as Lcd by (unfold len; lia).
  exists (hd, cd), rest'. cbn [fst snd]. split; [done|]. split; [unfold chunk_bytes; by rewrite Ed, <- app_assoc|].
  split; [|split; [lia|by rewrite <- Hu]].
  rewrite <- Hh. unfold streaming_finalize, part_hash, compute_data_hash. f_equal. cbn [sh_hasher streaming_update streaming_new].
  pose proof (blake3_streaming DATA_KEY [header_serialize hd; cd]) as Hs.
  cbn [fold_left concat] in Hs. rewrite app_nil_r in Hs. symmetry. exact Hs.
Qed.
End BuildLemmas.

(** ** Properties *)

(** Adding chunks within the format's limits and building produces the
    layout of exactly those chunks: building never panics, whatever it returns
    is the layout with the aggregated hash and the total size of the chunks,
    and it returns it, accepted by the file verifier with the same hash,
    whenever the footer's ident does not occur again inside the footer. *)
Theorem builder_builds_layout `{Blake3Laws, HexCrate, Lz4Laws, FileReadsLaws} scheme chunks :
  chunks_fit scheme chunks ->
  exists b, add_chunks (builder_new scheme) chunks = Ok b /\ build b <> Panic /\
    (forall r, build b = Ok r -> xb_data r = xorb_bytes (parts_of scheme chunks) /\
       xb_xorb_hash r = builder_xorb_hash b /\ total_uncompressed_size r = len (concat chunks)) /\
    (last_ident (xorb_bytes (parts_of scheme chunks)) (len (payload (parts_of scheme chunks))) ->
     exists r info, build b = Ok r /\ verify_xorb_from_file_with_info (xb_data r) = Ok info /\
       vx_xorb_hash info = xb_xorb_hash r /\ total_unpacked_bytes info = len (concat chunks)).
Proof.
  intros Hfit. destruct (chunks_parts_fit scheme chunks Hfit) as [Hp Hb]. pose proof Hfit as (_ & Hn & Hlen & _).
  set (ps := parts_of scheme chunks) in *. assert (len ps = len chunks) as Hps by apply len_map.
  exists (builder_of scheme ps). pose proof (add_chunks_parts scheme [] chunks Hb) as Ha. split; [exact Ha|].
  pose proof (verify_layout_not_panic ps). pose proof (sum_u64_parts ps Hb ltac:(lia)) as Hsum.
  unfold ps in Hsum at 2. rewrite sum_unpacked_parts in Hsum.
  assert (builder_xorb_hash (builder_of scheme ps) = xorb_hash (part_nodes ps)) as Hx.
  { unfold builder_xorb_hash, builder_chunk_nodes. f_equal. apply chunk_datas_fields. }
  rewrite build_parts. split; [by destruct (verify_xorb (xorb_bytes ps))|]. split.
  - intros r. destruct (verify_xorb (xorb_bytes ps)); [|done..]. intros [= <-]. cbn. by rewrite Hsum, Hx.
  - intros Hl. rewrite (proj2 (proj2 (verify_xorb_spec _)) (parts_accepted ps Hp Hl)).
    eexists _, (parts_report ps). split; [done|]. cbn [xb_data]. split.
    + apply verify_file_complete; [done..|]. unfold xorb_bytes. rewrite len_app, footer_length by done.
      unfold MAX_CHUNKS_PER_XORB in *. lia.
    + split; [done|]. cbn. apply sum_unpacked_parts.
Qed.

(** Every chunk of a built xorb is read back: extracting at the offset
    where chunk [i] starts, with the hash the builder reported for it, gives
    the bytes that were added, under every compression scheme. *)
Theorem extract_built_chunk `{Blake3Laws, HexCrate, Lz4Laws} scheme chunks b r i d h :
  chunks_fit scheme chunks -> add_chunks (builder_new scheme) chunks = Ok b -> build b = Ok r ->
  chunks !! i = Some d -> xb_chunk_hashes r !! i = Some h ->
  extract_chunk_verified_from_file (xb_data r) (chunk_start scheme chunks i) (len d) h = Ok d.
Proof.
  intros Hfit Ha Hbuild Hi Hh. destruct (chunks_parts_fit scheme chunks Hfit) as [Hp Hb].
  pose proof (add_chunks_parts scheme [] chunks Hb) as Ha'. change (builder_of scheme []) with (builder_new scheme) in Ha'.
  rewrite Ha in Ha'. injection Ha' as ->. rewrite build_parts in Hbuild.
  destruct (verify_xorb _); [|done..]. injection Hbuild as <-. cbn [xb_data xb_chunk_hashes] in *.
  unfold parts_of in Hh. cbn [app] in Hh. rewrite map_map, list_lookup_fmap, Hi in Hh. injection Hh as Hh.
  destruct (chunk_at scheme chunks i d (info_serialize (parts_footer (parts_of scheme chunks))) Hi) as [rest Ed].
  eapply (extract_at _ _ d h (len_nonneg _) scheme rest); [|exact Ed|done].
  destruct Hfit as [Hd _]. rewrite Forall_lookup in Hd. eauto.
Qed.

(** Extracting a chunk never panics; when it succeeds the bytes at the
    offset are a well-formed chunk with the expected hash, the compressed
    payload it read is within the scheme's bound for the expected length, and
    the result is the decompressed payload, of exactly the expected length,
    at most the chunker's maximum. *)
Theorem extract_chunk_verified `{Blake3Laws, HexCrate, Lz4Laws} file off expected h :
  0 <= off -> 0 <= expected ->
  extract_chunk_verified_from_file file off expected h <> Panic /\
  forall out, extract_chunk_verified_from_file file off expected h = Ok out ->
    len out = expected /\ expected <= max_chunk_size config_new /\
    exists p rest, part_wf p /\ drop (Z.to_nat off) file = chunk_bytes p ++ rest /\ part_hash p = h /\
      len (snd p) <= max_compressed_len_for_chunk (compression_scheme (fst p)) expected /\
      decompress (compression_scheme (fst p)) (snd p) expected = Ok out.
Proof. apply extract_sound. Qed.

(** ** Witnesses *)
Definition sample_datas : list (list byte) := [sample_text; [Byte.x61]; sample_text ++ sample_text].

Lemma sample_datas_fit : @chunks_fit Model.lz4 ByteGrouping4LZ4 sample_datas.
Proof. split; [repeat constructor; vm_compute; congruence|]. repeat split; vm_compute; congruence. Qed.

Definition sample_build : XetResult XorbBuildResult :=
  let* b := @add_chunks Model.blake3 Model.lz4 (builder_new ByteGrouping4LZ4) sample_datas in
  @build Model.blake3 Model.hex b.

Lemma builder_builds_layout_witness :
  exists b, @add_chunks Model.blake3 Model.lz4 (builder_new ByteGrouping4LZ4) sample_datas = Ok b /\
    exists r info, @build Model.blake3 Model.hex b = Ok r /\
      @verify_xorb_from_file_with_info Model.blake3 Model.hex Model.reads (xb_data r) = Ok info /\
      vx_xorb_hash info = xb_xorb_hash r /\ total_unpacked_bytes info = 28.
Proof.
  destruct (@builder_builds_layout Model.blake3 Model.blake3_laws Model.hex Model.lz4 Model.lz4_laws
    Model.reads Model.reads_laws ByteGrouping4LZ4 sample_datas sample_datas_fit) as (b & Ha & _ & _ & Hl).
  exists b. split; [exact Ha|]. apply Hl.
  apply (proj2 (find_footer_spec _)); [vm_compute; congruence|]. vm_compute. reflexivity.
Defined.

Lemma extract_built_chunk_witness :
  exists r h, sample_build = Ok r /\ xb_chunk_hashes r !! 2%nat = Some h /\
    @extract_chunk_verified_from_file Model.blake3 Model.lz4 (xb_data r)
      (@chunk_start Model.lz4 ByteGrouping4LZ4 sample_datas 2) 18 h = Ok (sample_text ++ sample_text).
Proof.
  destruct (@add_chunks Model.blake3 Model.lz4 (builder_new ByteGrouping4LZ4) sample_datas) as [b| |] eqn:Ha;
    [|vm_compute in Ha; discriminate..].
  destruct (@build Model.blake3 Model.hex b) as [r| |] eqn:Hb;
    [|exfalso; vm_compute in Ha; injection Ha as <-; vm_compute in Hb; discriminate..].
  destruct (xb_chunk_hashes r !! 2%nat) as [h|] eqn:Hh;
    [|exfalso; vm_compute in Ha; injection Ha as <-; vm_compute in Hb; injection Hb as <-; vm_compute in Hh; discriminate].
  exists r, h. split; [unfold sample_build; rewrite Ha; exact Hb|]. split; [exact Hh|].
  exact (@extract_built_chunk Model.blake3 Model.blake3_laws Model.hex Model.lz4 Model.lz4_laws
    ByteGrouping4LZ4 sample_datas b r 2%nat (sample_text ++ sample_text) h sample_datas_fit Ha Hb eq_refl Hh).
Defined.

Definition sample_hash : MerkleHash :=
  @compute_data_hash Model.blake3 (chunk_bytes (mkChunkHeader 1 3 NoCompression 3, [Byte.x61; Byte.x62; Byte.x63])).

Lemma extract_chunk_verified_witness :
  @extract_chunk_verified_from_file Model.blake3 Model.lz4 sample_file 0 3 sample_hash =
    Ok [Byte.x61; Byte.x62; Byte.x63] /\
  len [Byte.x61; Byte.x62; Byte.x63] = 3.
Proof.
  assert (@extract_chunk_verified_from_file Model.blake3 Model.lz4 sample_file 0 3 sample_hash =
    Ok [Byte.x61; Byte.x62; Byte.x63]) as E by (vm_compute; reflexivity).
  split; [exact E|].
  exact (proj1 (proj2 (@extract_chunk_verified Model.blake3 Model.blake3_laws Model.hex Model.lz4 Model.lz4_laws
    sample_file 0 3 sample_hash ltac:(lia) ltac:(lia)) _ E)).
Defined.
