(* ===== verification/Shard.v ===== *)
(** * The shard format (src/format/shard.rs)

    Fixed-size records, the section parser and the file parser.  A reader over
    a file of [file_len] bytes is the list of the bytes left; its position is
    what has been consumed. *)
From S2P Require Import Prelude Bytes Crates MerkleHash Hash.

Local Open Scope Z_scope.

Definition SHARD_HEADER_SIZE : Z := 48.
Definition SHARD_FOOTER_SIZE : Z := 208.
Definition SEQUENCE_HEADER_SIZE : Z := 48.
Definition SEQUENCE_ENTRY_SIZE : Z := 48.
Definition CHUNK_LOOKUP_ENTRY_SIZE : Z := 68.

(** ** Records *)
Record MDBShardFileHeader := mkShardHeader {
  mh_tag : list byte;
  mh_version : Z;
  mh_footer_size : Z;
}.

Definition SHARD_TAG : list byte := map byte.of_Z
  [72; 70; 82; 101; 112; 111; 77; 101; 116; 97; 68; 97; 116; 97; 0; 85; 105; 103; 69;
   106; 123; 129; 87; 131; 165; 189; 217; 92; 205; 209; 74; 169].

Definition shard_header_default : MDBShardFileHeader := mkShardHeader SHARD_TAG 2 208.

Definition shard_header_serialize (h : MDBShardFileHeader) : list byte :=
  mh_tag h ++ u64_to_le_bytes (mh_version h) ++ u64_to_le_bytes (mh_footer_size h).

Definition shard_header_deserialize : reader MDBShardFileHeader := fun bs =>
  read* tag := (read_exact 32) from bs in
  read* version := read_u64 from bs in
  read* footer_size := read_u64 from bs in
  Ok (mkShardHeader tag version footer_size, bs).

Record MDBShardFileFooter := mkShardFooter {
  mf_version : Z;
  mf_file_info_offset : Z;
  mf_xorb_info_offset : Z;
  mf_file_lookup_offset : Z;
  mf_file_lookup_num_entry : Z;
  mf_xorb_lookup_offset : Z;
  mf_xorb_lookup_num_entry : Z;
  mf_chunk_lookup_offset : Z;
  mf_chunk_lookup_num_entry : Z;
  mf_chunk_hash_hmac_key : list byte;
  mf_shard_creation_timestamp : Z;
  mf_shard_key_expiry : Z;
  mf_stored_bytes_on_disk : Z;
  mf_materialized_bytes : Z;
  mf_stored_bytes : Z;
  mf_footer_offset : Z;
}.

Definition shard_footer_serialize (f : MDBShardFileFooter) : list byte :=
  u64_to_le_bytes (mf_version f) ++ u64_to_le_bytes (mf_file_info_offset f) ++
  u64_to_le_bytes (mf_xorb_info_offset f) ++ u64_to_le_bytes (mf_file_lookup_offset f) ++
  u64_to_le_bytes (mf_file_lookup_num_entry f) ++ u64_to_le_bytes (mf_xorb_lookup_offset f) ++
  u64_to_le_bytes (mf_xorb_lookup_num_entry f) ++ u64_to_le_bytes (mf_chunk_lookup_offset f) ++
  u64_to_le_bytes (mf_chunk_lookup_num_entry f) ++ mf_chunk_hash_hmac_key f ++
  u64_to_le_bytes (mf_shard_creation_timestamp f) ++ u64_to_le_bytes (mf_shard_key_expiry f) ++
  zeros 56 ++
  u64_to_le_bytes (mf_stored_bytes_on_disk f) ++ u64_to_le_bytes (mf_materialized_bytes f) ++
  u64_to_le_bytes (mf_stored_bytes f) ++ u64_to_le_bytes (mf_footer_offset f).

Definition shard_footer_deserialize : reader MDBShardFileFooter := fun bs =>
  read* version := read_u64 from bs in
  read* file_info_offset := read_u64 from bs in
  read* xorb_info_offset := read_u64 from bs in
  read* file_lookup_offset := read_u64 from bs in
  read* file_lookup_num_entry := read_u64 from bs in
  read* xorb_lookup_offset := read_u64 from bs in
  read* xorb_lookup_num_entry := read_u64 from bs in
  read* chunk_lookup_offset := read_u64 from bs in
  read* chunk_lookup_num_entry := read_u64 from bs in
  read* chunk_hash_hmac_key := (read_exact 32) from bs in
  read* shard_creation_timestamp := read_u64 from bs in
  read* shard_key_expiry := read_u64 from bs in
  read* _buffer := (read_exact 56) from bs in
  read* stored_bytes_on_disk := read_u64 from bs in
  read* materialized_bytes := read_u64 from bs in
  read* stored_bytes := read_u64 from bs in
  read* footer_offset := read_u64 from bs in
  Ok (mkShardFooter version file_info_offset xorb_info_offset file_lookup_offset file_lookup_num_entry
        xorb_lookup_offset xorb_lookup_num_entry chunk_lookup_offset chunk_lookup_num_entry
        chunk_hash_hmac_key shard_creation_timestamp shard_key_expiry stored_bytes_on_disk
        materialized_bytes stored_bytes footer_offset, bs).

Record FileDataSequenceHeader := mkFileHeader {
  fh_file_hash : MerkleHash;
  fh_file_flags : Z;
  fh_num_entries : Z;
}.
Definition file_header_serialize (h : FileDataSequenceHeader) : list byte :=
  as_bytes (fh_file_hash h) ++ u32_to_le_bytes (fh_file_flags h) ++
  u32_to_le_bytes (fh_num_entries h) ++ zeros 8.
Definition file_header_deserialize : reader FileDataSequenceHeader := fun bs =>
  read* file_hash := read_hash from bs in
  read* file_flags := read_u32 from bs in
  read* num_entries := read_u32 from bs in
  read* _unused := (read_exact 8) from bs in
  Ok (mkFileHeader file_hash file_flags num_entries, bs).

Record FileDataSequenceEntry := mkFileEntry {
  fe_xorb_hash : MerkleHash;
  fe_xorb_flags : Z;
  fe_unpacked_segment_bytes : Z;
  fe_chunk_index_start : Z;
  fe_chunk_index_end : Z;
}.
Definition file_entry_serialize (e : FileDataSequenceEntry) : list byte :=
  as_bytes (fe_xorb_hash e) ++ u32_to_le_bytes (fe_xorb_flags e) ++
  u32_to_le_bytes (fe_unpacked_segment_bytes e) ++ u32_to_le_bytes (fe_chunk_index_start e) ++
  u32_to_le_bytes (fe_chunk_index_end e).
Definition file_entry_deserialize : reader FileDataSequenceEntry := fun bs =>
  read* xorb_hash := read_hash from bs in
  read* xorb_flags := read_u32 from bs in
  read* unpacked_segment_bytes := read_u32 from bs in
  read* chunk_index_start := read_u32 from bs in
  read* chunk_index_end := read_u32 from bs in
  Ok (mkFileEntry xorb_hash xorb_flags unpacked_segment_bytes chunk_index_start chunk_index_end, bs).

Record XorbChunkSequenceHeader := mkXorbHeader {
  xh_xorb_hash : MerkleHash;
  xh_xorb_flags : Z;
  xh_num_entries : Z;
  xh_num_bytes_in_xorb : Z;
  xh_num_bytes_on_disk : Z;
}.
Definition xorb_header_serialize (h : XorbChunkSequenceHeader) : list byte :=
  as_bytes (xh_xorb_hash h) ++ u32_to_le_bytes (xh_xorb_flags h) ++
  u32_to_le_bytes (xh_num_entries h) ++ u32_to_le_bytes (xh_num_bytes_in_xorb h) ++
  u32_to_le_bytes (xh_num_bytes_on_disk h).
Definition xorb_header_deserialize : reader XorbChunkSequenceHeader := fun bs =>
  read* xorb_hash := read_hash from bs in
  read* xorb_flags := read_u32 from bs in
  read* num_entries := read_u32 from bs in
  read* num_bytes_in_xorb := read_u32 from bs in
  read* num_bytes_on_disk := read_u32 from bs in
  Ok (mkXorbHeader xorb_hash xorb_flags num_entries num_bytes_in_xorb num_bytes_on_disk, bs).

Record XorbChunkSequenceEntry := mkXorbEntry {
  xe_chunk_hash : MerkleHash;
  xe_chunk_byte_range_start : Z;
  xe_unpacked_segment_bytes : Z;
  xe_flags : Z;
}.
Definition xorb_entry_serialize (e : XorbChunkSequenceEntry) : list byte :=
  as_bytes (xe_chunk_hash e) ++ u32_to_le_bytes (xe_chunk_byte_range_start e) ++
  u32_to_le_bytes (xe_unpacked_segment_bytes e) ++ u32_to_le_bytes (xe_flags e) ++ zeros 4.
Definition xorb_entry_deserialize : reader XorbChunkSequenceEntry := fun bs =>
  read* chunk_hash := read_hash from bs in
  read* chunk_byte_range_start := read_u32 from bs in
  read* unpacked_segment_bytes := read_u32 from bs in
  read* flags := read_u32 from bs in
  read* _unused := (read_exact 4) from bs in
  Ok (mkXorbEntry chunk_hash chunk_byte_range_start unpacked_segment_bytes flags, bs).

Record ChunkLookupEntry := mkLookup {
  cl_chunk_hash : MerkleHash;
  cl_xorb_hash : MerkleHash;
  cl_chunk_index : Z;
}.
Definition lookup_serialize (e : ChunkLookupEntry) : list byte :=
  as_bytes (cl_chunk_hash e) ++ as_bytes (cl_xorb_hash e) ++ u32_to_le_bytes (cl_chunk_index e).
Definition lookup_deserialize : reader ChunkLookupEntry := fun bs =>
  read* chunk_hash := read_hash from bs in
  read* xorb_hash := read_hash from bs in
  read* chunk_index := read_u32 from bs in
  Ok (mkLookup chunk_hash xorb_hash chunk_index, bs).

(** ** Field widths *)
Definition shard_header_wf (h : MDBShardFileHeader) : Prop :=
  length (mh_tag h) = 32%nat /\ in_u64 (mh_version h) /\ in_u64 (mh_footer_size h).
Definition shard_footer_wf (f : MDBShardFileFooter) : Prop :=
  in_u64 (mf_version f) /\ in_u64 (mf_file_info_offset f) /\ in_u64 (mf_xorb_info_offset f) /\
  in_u64 (mf_file_lookup_offset f) /\ in_u64 (mf_file_lookup_num_entry f) /\
  in_u64 (mf_xorb_lookup_offset f) /\ in_u64 (mf_xorb_lookup_num_entry f) /\
  in_u64 (mf_chunk_lookup_offset f) /\ in_u64 (mf_chunk_lookup_num_entry f) /\
  length (mf_chunk_hash_hmac_key f) = 32%nat /\
  in_u64 (mf_shard_creation_timestamp f) /\ in_u64 (mf_shard_key_expiry f) /\
  in_u64 (mf_stored_bytes_on_disk f) /\ in_u64 (mf_materialized_bytes f) /\
  in_u64 (mf_stored_bytes f) /\ in_u64 (mf_footer_offset f).
Definition file_header_wf (h : FileDataSequenceHeader) : Prop :=
  hash_wf (fh_file_hash h) /\ in_u32 (fh_file_flags h) /\ in_u32 (fh_num_entries h).
Definition file_entry_wf (e : FileDataSequenceEntry) : Prop :=
  hash_wf (fe_xorb_hash e) /\ in_u32 (fe_xorb_flags e) /\ in_u32 (fe_unpacked_segment_bytes e) /\
  in_u32 (fe_chunk_index_start e) /\ in_u32 (fe_chunk_index_end e).
Definition xorb_header_wf (h : XorbChunkSequenceHeader) : Prop :=
  hash_wf (xh_xorb_hash h) /\ in_u32 (xh_xorb_flags h) /\ in_u32 (xh_num_entries h) /\
  in_u32 (xh_num_bytes_in_xorb h) /\ in_u32 (xh_num_bytes_on_disk h).
Definition xorb_entry_wf (e : XorbChunkSequenceEntry) : Prop :=
  hash_wf (xe_chunk_hash e) /\ in_u32 (xe_chunk_byte_range_start e) /\
  in_u32 (xe_unpacked_segment_bytes e) /\ in_u32 (xe_flags e).
Definition lookup_wf (e : ChunkLookupEntry) : Prop :=
  hash_wf (cl_chunk_hash e) /\ hash_wf (cl_xorb_hash e) /\ in_u32 (cl_chunk_index e).

(** ** The records implement the codec interface *)
Ltac solve_length :=
  intros; repeat match goal with H : _ /\ _ |- _ => destruct H end;
  rewrite ?length_app, ?length_as_bytes, ?length_u32_to_le_bytes, ?length_u64_to_le_bytes, ?length_zeros;
  first [done | cbn in *; lia].
Ltac solve_roundtrip :=
  let a := fresh "a" in
  intros a rest; destruct a; intros; cbn in *;
  repeat match goal with H : _ /\ _ |- _ => destruct H end; by run_reader.

#[export] Instance shard_header_codec : FixedCodec MDBShardFileHeader.
Proof.
  refine {| serialize := shard_header_serialize; deserialize := shard_header_deserialize;
            codec_size := 48; codec_wf := shard_header_wf |}.
  - unfold shard_header_serialize, shard_header_wf. solve_length.
  - unfold shard_header_serialize, shard_header_deserialize, shard_header_wf. solve_roundtrip.
Defined.
#[export] Instance shard_footer_codec : FixedCodec MDBShardFileFooter.
Proof.
  refine {| serialize := shard_footer_serialize; deserialize := shard_footer_deserialize;
            codec_size := 208; codec_wf := shard_footer_wf |}.
  - unfold shard_footer_serialize, shard_footer_wf. solve_length.
  - unfold shard_footer_serialize, shard_footer_deserialize, shard_footer_wf. solve_roundtrip.
Defined.
#[export] Instance file_header_codec : FixedCodec FileDataSequenceHeader.
Proof.
  refine {| serialize := file_header_serialize; deserialize := file_header_deserialize;
            codec_size := 48; codec_wf := file_header_wf |}.
  - unfold file_header_serialize, file_header_wf. solve_length.
  - unfold file_header_serialize, file_header_deserialize, file_header_wf. solve_roundtrip.
Defined.
#[export] Instance file_entry_codec : FixedCodec FileDataSequenceEntry.
Proof.
  refine {| serialize := file_entry_serialize; deserialize := file_entry_deserialize;
            codec_size := 48; codec_wf := file_entry_wf |}.
  - unfold file_entry_serialize, file_entry_wf. solve_length.
  - unfold file_entry_serialize, file_entry_deserialize, file_entry_wf. solve_roundtrip.
Defined.
#[export] Instance xorb_header_codec : FixedCodec XorbChunkSequenceHeader.
Proof.
  refine {| serialize := xorb_header_serialize; deserialize := xorb_header_deserialize;
            codec_size := 48; codec_wf := xorb_header_wf |}.
  - unfold xorb_header_serialize, xorb_header_wf. solve_length.
  - unfold xorb_header_serialize, xorb_header_deserialize, xorb_header_wf. solve_roundtrip.
Defined.
#[export] Instance xorb_entry_codec : FixedCodec XorbChunkSequenceEntry.
Proof.
  refine {| serialize := xorb_entry_serialize; deserialize := xorb_entry_deserialize;
            codec_size := 48; codec_wf := xorb_entry_wf |}.
  - unfold xorb_entry_serialize, xorb_entry_wf. solve_length.
  - unfold xorb_entry_serialize, xorb_entry_deserialize, xorb_entry_wf. solve_roundtrip.
Defined.
#[export] Instance lookup_codec : FixedCodec ChunkLookupEntry.
Proof.
  refine {| serialize := lookup_serialize; deserialize := lookup_deserialize;
            codec_size := 68; codec_wf := lookup_wf |}.
  - unfold lookup_serialize, lookup_wf. solve_length.
  - unfold lookup_serialize, lookup_deserialize, lookup_wf. solve_roundtrip.
Defined.

Ltac solve_sized :=
  split;
  [ intros bs a rest E; cbn in E; reader_cases E; injection E as <- <-;
    split; [hnf; repeat match goal with |- _ /\ _ => split end; assumption|];
    eexists; split; [rewrite ?app_assoc; reflexivity|];
    cbn; rewrite ?length_app, ?length_as_bytes, ?length_u32_to_le_bytes, ?length_u64_to_le_bytes; lia
  | intros bs E; cbn in E; reader_total E ].

#[export] Instance shard_header_sized : SizedCodec MDBShardFileHeader.
Proof. unfold shard_header_codec, shard_header_deserialize. solve_sized. Qed.
#[export] Instance shard_footer_sized : SizedCodec MDBShardFileFooter.
Proof. unfold shard_footer_codec, shard_footer_deserialize. solve_sized. Qed.
#[export] Instance file_header_sized : SizedCodec FileDataSequenceHeader.
Proof. unfold file_header_codec, file_header_deserialize. solve_sized. Qed.
#[export] Instance file_entry_sized : SizedCodec FileDataSequenceEntry.
Proof. unfold file_entry_codec, file_entry_deserialize. solve_sized. Qed.
#[export] Instance xorb_header_sized : SizedCodec XorbChunkSequenceHeader.
Proof. unfold xorb_header_codec, xorb_header_deserialize. solve_sized. Qed.
#[export] Instance xorb_entry_sized : SizedCodec XorbChunkSequenceEntry.
Proof. unfold xorb_entry_codec, xorb_entry_deserialize. solve_sized. Qed.
#[export] Instance lookup_sized : SizedCodec ChunkLookupEntry.
Proof. unfold lookup_codec, lookup_deserialize. solve_sized. Qed.

(** ** Guards *)
Definition validate_section_bounds (start end_ footer_start : Z) : XetResult unit :=
  ensure negb ((start <? SHARD_HEADER_SIZE) || (end_ <? start) || (footer_start <? end_))
    else (ParseError "Invalid section bounds") in
  Ok tt.

Definition ensure_record_fits (start len_ end_ : Z) : XetResult unit :=
  let* record_end := ok_or (checked_add start len_) (ParseError "end offset overflow") in
  ensure (record_end <=? end_) else (ParseError "Truncated record") in
  Ok tt.

(** ** Sections

    [parse_file_section] and [parse_xorb_section] are the same loop over two
    pairs of record types, given by their codecs and the field that counts the
    entries.  Fuel is the number of bytes of the file: each turn consumes a
    header, so it does not run out ([section_loop_not_panic]). *)
Section Sections.
Context {H E : Type} `{FixedCodec H, FixedCodec E} (num_entries : H -> Z) (file_len : Z).

Definition stream_position (bs : list byte) : Z := file_len - len bs.

Fixpoint section_loop (fuel : nat) (end_ : Z) (bs : list byte) : XetResult (list H * list E * list byte) :=
  if stream_position bs <? end_ then
    match fuel with
    | O => Panic
    | S fuel' =>
      let position := stream_position bs in
      let* _ := ensure_record_fits position SEQUENCE_HEADER_SIZE end_ in
      read* header := deserialize from bs in
      let* entries_len :=
        ok_or (checked_mul (num_entries header) SEQUENCE_ENTRY_SIZE) (ParseError "sequence entry byte length overflow") in
      let entries_start := stream_position bs in
      let* _ := ensure_record_fits entries_start entries_len end_ in
      read* entries := (deserialize_n (Z.to_nat (num_entries header))) from bs in
      let* '(headers', entries', bs) := section_loop fuel' end_ bs in
      Ok (header :: headers', entries ++ entries', bs)
    end
  else Ok ([], [], bs).
End Sections.

Definition parse_file_section (file : list byte) (start end_ : Z)
  : XetResult (list FileDataSequenceHeader * list FileDataSequenceEntry * list MerkleHash) :=
  let bs := drop (Z.to_nat start) file in
  let* '(headers, entries, _) := section_loop fh_num_entries (len file) (length file) end_ bs in
  Ok (headers, entries, map fh_file_hash headers).

Definition parse_xorb_section (file : list byte) (start end_ : Z)
  : XetResult (list XorbChunkSequenceHeader * list XorbChunkSequenceEntry) :=
  let bs := drop (Z.to_nat start) file in
  let* '(headers, entries, _) := section_loop xh_num_entries (len file) (length file) end_ bs in
  Ok (headers, entries).

(** ** Files *)
Record MDBShardFile := mkShardFile {
  ms_header : MDBShardFileHeader;
  ms_footer : MDBShardFileFooter;
  ms_file_entries : list FileDataSequenceHeader;
  ms_file_data_entries : list FileDataSequenceEntry;
  ms_xorb_entries : list XorbChunkSequenceHeader;
  ms_xorb_chunk_entries : list XorbChunkSequenceEntry;
  ms_chunk_lookup_entries : list ChunkLookupEntry;
  ms_file_hashes : list MerkleHash;
  ms_chunk_mappings : list (MerkleHash * MerkleHash * Z);
  ms_hash : string;
}.

Definition parse_header (file : list byte) : XetResult MDBShardFileHeader :=
  let* '(header, _) := deserialize file in
  ensure bool_decide (mh_tag header = SHARD_TAG) else (ParseError "Invalid shard magic tag") in
  ensure (mh_version header =? 2) else (ParseError "Unsupported shard version") in
  ensure (mh_footer_size header =? SHARD_FOOTER_SIZE) else (ParseError "Invalid footer size") in
  Ok header.

(** The file section: records, and the offset where the next section starts. *)
Definition parse_files (file : list byte) (footer : MDBShardFileFooter) (footer_start next_offset : Z)
  : XetResult (list FileDataSequenceHeader * list FileDataSequenceEntry * list MerkleHash * Z) :=
  if mf_file_info_offset footer =? 0 then
    ensure negb (negb (mf_file_lookup_offset footer =? 0) || negb (mf_file_lookup_num_entry footer =? 0))
      else (ParseError "File section metadata is inconsistent") in
    Ok ([], [], [], next_offset)
  else
    ensure (mf_file_info_offset footer =? next_offset) else (ParseError "File section must start at") in
    let* _ := validate_section_bounds (mf_file_info_offset footer) (mf_file_lookup_offset footer) footer_start in
    let* '(headers, entries, hashes) :=
      parse_file_section file (mf_file_info_offset footer) (mf_file_lookup_offset footer) in
    ensure (len headers =? mf_file_lookup_num_entry footer) else (ParseError "File sequence count mismatch") in
    Ok (headers, entries, hashes, mf_file_lookup_offset footer).

Definition parse_xorbs (file : list byte) (footer : MDBShardFileFooter) (footer_start next_offset : Z)
  : XetResult (list XorbChunkSequenceHeader * list XorbChunkSequenceEntry * Z) :=
  if mf_xorb_info_offset footer =? 0 then
    ensure negb (negb (mf_xorb_lookup_offset footer =? 0) || negb (mf_xorb_lookup_num_entry footer =? 0))
      else (ParseError "Xorb section metadata is inconsistent") in
    Ok ([], [], next_offset)
  else
    ensure (mf_xorb_info_offset footer =? next_offset) else (ParseError "Xorb section must start at") in
    let* _ := validate_section_bounds (mf_xorb_info_offset footer) (mf_xorb_lookup_offset footer) footer_start in
    let* '(headers, entries) :=
      parse_xorb_section file (mf_xorb_info_offset footer) (mf_xorb_lookup_offset footer) in
    ensure (len headers =? mf_xorb_lookup_num_entry footer) else (ParseError "Xorb sequence count mismatch") in
    Ok (headers, entries, mf_xorb_lookup_offset footer).

(** The failure of [try_reserve_exact] is not modelled: the count is bounded by
    the size of the file when it is reached. *)
Definition parse_lookups (file : list byte) (footer : MDBShardFileFooter) (footer_start next_offset : Z)
    (xorb_chunk_entries : list XorbChunkSequenceEntry) : XetResult (list ChunkLookupEntry * Z) :=
  if mf_chunk_lookup_offset footer =? 0 then
    ensure (mf_chunk_lookup_num_entry footer =? 0)
      else (ParseError "Chunk lookup count is non-zero but its offset is zero") in
    ensure (len xorb_chunk_entries =? 0) else (ParseError "Shard missing required raw chunk lookup section") in
    Ok ([], next_offset)
  else
    ensure negb (mf_chunk_lookup_num_entry footer =? 0)
      else (ParseError "Chunk lookup offset is non-zero but its count is zero") in
    ensure (mf_chunk_lookup_offset footer =? next_offset) else (ParseError "Chunk lookup section must start at") in
    let* byte_len :=
      ok_or (checked_mul (mf_chunk_lookup_num_entry footer) CHUNK_LOOKUP_ENTRY_SIZE)
        (ParseError "Chunk lookup byte length overflow") in
    let* end_ :=
      ok_or (checked_add (mf_chunk_lookup_offset footer) byte_len) (ParseError "Chunk lookup end offset overflow") in
    ensure (end_ =? footer_start) else (ParseError "Chunk lookup section ends at") in
    let* '(entries, _) :=
      deserialize_n (Z.to_nat (mf_chunk_lookup_num_entry footer)) (drop (Z.to_nat (mf_chunk_lookup_offset footer)) file) in
    Ok (entries, end_).

Definition parse_reader (file : list byte) (hash : string) : XetResult MDBShardFile :=
  let file_len := len file in
  ensure (SHARD_HEADER_SIZE + SHARD_FOOTER_SIZE <=? file_len) else (ParseError "Shard is too small") in
  let* footer_start := ok_or (checked_sub file_len SHARD_FOOTER_SIZE) (ParseError "Shard footer offset underflow") in
  let* header := parse_header file in
  let* '(footer, _) := deserialize (drop (Z.to_nat footer_start) file) in
  ensure (mf_version footer =? mh_version header) else (ParseError "Shard version mismatch") in
  ensure (mf_footer_offset footer =? footer_start) else (ParseError "Invalid footer offset") in
  let next_offset := SHARD_HEADER_SIZE in
  let* '(file_entries, file_data_entries, file_hashes, next_offset) :=
    parse_files file footer footer_start next_offset in
  let* '(xorb_entries, xorb_chunk_entries, next_offset) := parse_xorbs file footer footer_start next_offset in
  let* '(chunk_lookup_entries, next_offset) :=
    parse_lookups file footer footer_start next_offset xorb_chunk_entries in
  ensure (next_offset =? footer_start) else (ParseError "Unaccounted shard bytes") in
  ensure (len chunk_lookup_entries =? len xorb_chunk_entries) else (ParseError "Shard chunk lookup count mismatch") in
  Ok (mkShardFile header footer file_entries file_data_entries xorb_entries xorb_chunk_entries
        chunk_lookup_entries file_hashes
        (map (fun e => (cl_chunk_hash e, cl_xorb_hash e, cl_chunk_index e)) chunk_lookup_entries) hash).

Section Parse.
Context `{Blake3, HexCrate}.

Definition parse (data : list byte) : XetResult MDBShardFile :=
  parse_reader data (to_hex (compute_data_hash data)).

Context `{FileReads}.

Definition hash_reader (file : list byte) : XetResult string :=
  let file_len := len file in
  let* hasher := default Panic
    (read_loop streaming_update (IoError UnexpectedEof) (Z.to_nat file_len) 0 file file_len streaming_new) in
  Ok (to_hex (streaming_finalize hasher)).

(** The failures of opening and measuring the file are not modelled. *)
Definition parse_from_file (file : list byte) : XetResult MDBShardFile :=
  let* hash := hash_reader file in
  parse_reader file hash.

Definition compute_hash_from_file (file : list byte) : XetResult string := hash_reader file.
End Parse.

(** ** Specification *)

(** Entries are grouped under their headers. *)
Definition grouped {H E} (num : H -> Z) (headers : list H) (entries : list E) : Prop :=
  exists gs : list (H * list E), headers = map fst gs /\ entries = concat (map snd gs) /\
    Forall (fun g => num (fst g) = len (snd g)) gs.

Definition section_bytes {H E} `{FixedCodec H, FixedCodec E} (gs : list (H * list E)) : list byte :=
  concat (map (fun g => serialize (fst g) ++ serialize_all (snd g)) gs).

Definition group_wf {H E} `{FixedCodec H, FixedCodec E} (num : H -> Z) (g : H * list E) : Prop :=
  codec_wf (fst g) /\ Forall codec_wf (snd g) /\ num (fst g) = len (snd g).

(** What a parsed shard of [n] bytes satisfies. *)
Definition shard_wf (n : Z) (s : MDBShardFile) : Prop :=
  ms_header s = shard_header_default /\ shard_footer_wf (ms_footer s) /\
  mf_version (ms_footer s) = 2 /\ mf_footer_offset (ms_footer s) = n - SHARD_FOOTER_SIZE /\
  Forall file_header_wf (ms_file_entries s) /\ Forall file_entry_wf (ms_file_data_entries s) /\
  Forall xorb_header_wf (ms_xorb_entries s) /\ Forall xorb_entry_wf (ms_xorb_chunk_entries s) /\
  Forall lookup_wf (ms_chunk_lookup_entries s) /\
  grouped fh_num_entries (ms_file_entries s) (ms_file_data_entries s) /\
  grouped xh_num_entries (ms_xorb_entries s) (ms_xorb_chunk_entries s) /\
  len (ms_file_entries s) = mf_file_lookup_num_entry (ms_footer s) /\
  len (ms_xorb_entries s) = mf_xorb_lookup_num_entry (ms_footer s) /\
  len (ms_chunk_lookup_entries s) = mf_chunk_lookup_num_entry (ms_footer s) /\
  len (ms_chunk_lookup_entries s) = len (ms_xorb_chunk_entries s) /\
  ms_file_hashes s = map fh_file_hash (ms_file_entries s) /\
  ms_chunk_mappings s = map (fun e => (cl_chunk_hash e, cl_xorb_hash e, cl_chunk_index e)) (ms_chunk_lookup_entries s) /\
  n = 48 + 48 * (len (ms_file_entries s) + len (ms_file_data_entries s)) +
      48 * (len (ms_xorb_entries s) + len (ms_xorb_chunk_entries s)) +
      68 * len (ms_chunk_lookup_entries s) + 208.

(** ** Lemmas: sections *)

Lemma ensure_record_fits_ok start n end_ :
  end_ < 2 ^ 64 -> ensure_record_fits start n end_ = Ok tt <-> start + n <= end_.
Proof.
  intros He. unfold ensure_record_fits, checked_add, u64_max.
  destruct (Z.leb_spec (start + n) (2 ^ 64 - 1)); cbn [ok_or]; [|split; [done|lia]].
  destruct (Z.leb_spec (start + n) end_); split; (done || lia).
Qed.
Lemma ensure_record_fits_not_panic start n end_ : ensure_record_fits start n end_ <> Panic.
Proof.
  unfold ensure_record_fits. destruct (checked_add start n); cbn [ok_or]; [|done].
  by destruct (_ <=? _).
Qed.
Lemma validate_section_bounds_ok start end_ fs :
  validate_section_bounds start end_ fs = Ok tt <-> SHARD_HEADER_SIZE <= start <= end_ /\ end_ <= fs.
Proof.
  unfold validate_section_bounds.
  destruct (Z.ltb_spec start SHARD_HEADER_SIZE), (Z.ltb_spec end_ start), (Z.ltb_spec fs end_);
    cbn [orb negb]; split; (done || lia).
Qed.
Lemma validate_section_bounds_not_panic start end_ fs : validate_section_bounds start end_ fs <> Panic.
Proof. unfold validate_section_bounds. by destruct (negb _). Qed.

Section SectionLemmas.
Context {H E : Type} `{FixedCodec H, !SizedCodec H, FixedCodec E, !SizedCodec E} (num : H -> Z) (file_len : Z).
Context (Hsize : codec_size (A := H) = 48%nat) (Esize : codec_size (A := E) = 48%nat).
Context (Hnum : forall h, codec_wf h -> in_u32 (num h)).
Context (Hlen : file_len < 2 ^ 64).

Lemma section_loop_unfold fuel end_ bs :
  stream_position file_len bs < end_ ->
  section_loop (E := E) num file_len (S fuel) end_ bs =
  let* _ := ensure_record_fits (stream_position file_len bs) SEQUENCE_HEADER_SIZE end_ in
  read* header := deserialize from bs in
  let* entries_len :=
    ok_or (checked_mul (num header) SEQUENCE_ENTRY_SIZE) (ParseError "sequence entry byte length overflow") in
  let* _ := ensure_record_fits (stream_position file_len bs) entries_len end_ in
  read* entries := (deserialize_n (Z.to_nat (num header))) from bs in
  let* '(headers', entries', bs) := section_loop num file_len fuel end_ bs in
  Ok (header :: headers', entries ++ entries', bs).
Proof. intros Hp. cbn [section_loop]. by replace (stream_position file_len bs <? end_) with true by lia. Qed.

Lemma section_loop_done fuel end_ bs :
  end_ <= stream_position file_len bs -> section_loop (H := H) (E := E) num file_len fuel end_ bs = Ok ([], [], bs).
Proof.
  intros Hp. by destruct fuel; cbn [section_loop]; replace (stream_position file_len bs <? end_) with false by lia.
Qed.

Lemma section_loop_not_panic fuel end_ bs :
  (length bs <= fuel)%nat -> end_ <= file_len -> section_loop (H := H) (E := E) num file_len fuel end_ bs <> Panic.
Proof.
  revert bs. induction fuel as [|fuel IH]; intros bs Hf He.
  - destruct bs; [|cbn in Hf; lia]. rewrite section_loop_done; [done|].
    unfold stream_position. change (len []) with 0. lia.
  - destruct (Z.lt_ge_cases (stream_position file_len bs) end_) as [Hp|Hp]; [|by rewrite section_loop_done].
    rewrite section_loop_unfold by done.
    pose proof (ensure_record_fits_not_panic (stream_position file_len bs) SEQUENCE_HEADER_SIZE end_).
    destruct (ensure_record_fits _ _ _) as [u| |]; try done.
    pose proof (codec_not_panic (A := H) bs). destruct (deserialize bs) as [[h bs1]| |] eqn:Eh; try done.
    apply codec_read in Eh as (Hw & b & -> & Lb). rewrite Hsize in Lb.
    destruct (checked_mul _ _) as [n|]; cbn [ok_or]; [|done].
    pose proof (ensure_record_fits_not_panic (stream_position file_len bs1) n end_).
    destruct (ensure_record_fits _ _ _) as [u'| |]; try done.
    pose proof (deserialize_n_not_panic (A := E) (Z.to_nat (num h)) bs1).
    destruct (deserialize_n _ bs1) as [[es bs2]| |] eqn:Ee; try done.
    apply deserialize_n_read in Ee as (_ & _ & b2 & -> & _).
    specialize (IH bs2). rewrite !length_app in Hf.
    destruct (section_loop _ _ fuel _ bs2) as [[[hs es'] bs3]| |]; try done. exfalso. apply IH; [lia|done|done].
Qed.

(** What a section loop that returns has read. *)
Lemma section_loop_read fuel end_ bs hs es rest :
  end_ <= file_len -> stream_position file_len bs <= end_ ->
  section_loop num file_len fuel end_ bs = Ok (hs, es, rest) ->
  Forall codec_wf hs /\ Forall codec_wf es /\ grouped num hs es /\
  stream_position file_len rest = end_ /\
  exists b, bs = b ++ rest /\ len b = 48 * (len hs + len es).
Proof.
  intros He. revert bs hs es rest. induction fuel as [|fuel IH]; intros bs hs es rest Hb.
  - destruct (Z.lt_ge_cases (stream_position file_len bs) end_) as [Hp|Hp].
    + cbn [section_loop]. by replace (stream_position file_len bs <? end_) with true by lia.
    + rewrite section_loop_done by done. intros [= <- <- <-]. repeat split; [constructor|constructor|by exists []|lia|by exists []].
  - destruct (Z.lt_ge_cases (stream_position file_len bs) end_) as [Hp|Hp].
    2: { rewrite section_loop_done by done. intros [= <- <- <-]. repeat split; [constructor|constructor|by exists []|lia|by exists []]. }
    rewrite section_loop_unfold by done.
    destruct (ensure_record_fits _ _ _) as [[]| |] eqn:E1; try done. apply ensure_record_fits_ok in E1; [|lia].
    destruct (deserialize bs) as [[h bs1]| |] eqn:Eh; try done.
    apply codec_read in Eh as (Hw & b & -> & Lb). rewrite Hsize in Lb.
    pose proof (Hnum h Hw) as Hn. unfold in_u32 in Hn.
    destruct (checked_mul _ _) as [n|] eqn:Em; cbn [ok_or]; [|done].
    destruct (ensure_record_fits _ n _) as [[]| |] eqn:E2; try done. apply ensure_record_fits_ok in E2; [|lia].
    assert (n = 48 * num h) as -> by (apply checked_mul_Some in Em as [-> _]; unfold SEQUENCE_ENTRY_SIZE; lia).
    destruct (deserialize_n _ bs1) as [[es1 bs2]| |] eqn:Ee; try done.
    apply deserialize_n_read in Ee as (Le & We & b2 & -> & L2). rewrite Esize in L2.
    destruct (section_loop _ _ fuel _ bs2) as [[[hs' es'] bs3]| |] eqn:El; try done. intros [= <- <- <-].
    unfold stream_position in *. rewrite !len_app in *.
    assert (len b = 48) as Lb' by (unfold len; lia). assert (len b2 = 48 * num h) as L2' by (unfold len; lia).
    apply IH in El as (Wh & We' & (gs & -> & -> & Hgs) & Hpos & b3 & -> & L3); [|unfold stream_position; lia].
    split; [by constructor|]. split; [by apply Forall_app_2|]. split.
    { exists ((h, es1) :: gs). split; [done|]. split; [done|]. constructor; [cbn; unfold len; lia|done]. }
    split; [done|]. exists (b ++ b2 ++ b3). split; [by rewrite <- !app_assoc|].
    rewrite !len_app, len_cons, L3, Lb', L2'. unfold len at 5. unfold len. lia.
Qed.

(** Parsing a written section. *)
Lemma section_loop_app fuel gs rest end_ :
  Forall (group_wf num) gs -> (length gs <= fuel)%nat -> end_ <= file_len ->
  len rest <= file_len ->
  end_ = stream_position file_len rest ->
  section_loop num file_len fuel end_ (section_bytes gs ++ rest) = Ok (map fst gs, concat (map snd gs), rest).
Proof.
  intros W. revert fuel. induction W as [|[h es] gs (Wh & We & Hne) W IH]; intros fuel Hf He Hr Hend.
  - apply section_loop_done. cbn. lia.
  - destruct fuel as [|fuel]; [cbn in Hf; lia|]. cbn [fst snd] in *.
    pose proof (codec_length h Wh) as Lh. pose proof (serialize_all_length es We) as Les.
    change (section_bytes ((h, es) :: gs)) with ((serialize h ++ serialize_all es) ++ section_bytes gs).
    rewrite <- !app_assoc. set (tail := section_bytes gs ++ rest) in *.
    assert (len (serialize h) = 48) as Lh' by (unfold len; lia).
    assert (len (serialize_all es) = 48 * len es) as Les' by (unfold len in *; lia).
    assert (len rest <= len tail) as Ht by (unfold tail; rewrite len_app; pose proof (len_nonneg (section_bytes gs)); lia).
    pose proof (len_nonneg es). assert (end_ < 2 ^ 64) as He' by lia.
    rewrite section_loop_unfold; [|unfold stream_position in *; rewrite !len_app; lia].
    rewrite (proj2 (ensure_record_fits_ok _ _ end_ He')); [|unfold stream_position, SEQUENCE_HEADER_SIZE in *; rewrite !len_app; lia].
    rewrite codec_roundtrip by done. pose proof (Hnum h Wh) as Hn. unfold in_u32 in Hn.
    rewrite checked_mul_le by (unfold u64_max, SEQUENCE_ENTRY_SIZE; lia). cbn [ok_or].
    rewrite (proj2 (ensure_record_fits_ok _ _ end_ He'));
      [|unfold stream_position, SEQUENCE_ENTRY_SIZE in *; rewrite !len_app, Hne; lia].
    rewrite Hne. assert (Z.to_nat (len es) = length es) as -> by (unfold len; lia).
    rewrite deserialize_n_app by done. unfold tail. rewrite IH; [done|cbn in Hf; lia|done..].
Qed.
End SectionLemmas.

(** ** Lemmas: files *)

Lemma position_drop (file : list byte) off :
  0 <= off <= len file -> stream_position (len file) (drop (Z.to_nat off) file) = off.
Proof. intros. unfold stream_position. rewrite len_drop by lia. lia. Qed.

Lemma length_drop_le {A} n (l : list A) : (length (drop n l) <= length l)%nat.
Proof. rewrite length_drop. lia. Qed.

(** A section parsed between [start] and [end_]. *)
Lemma section_between {H E} `{FixedCodec H, !SizedCodec H, FixedCodec E, !SizedCodec E} (num : H -> Z) file start end_ :
  codec_size (A := H) = 48%nat -> codec_size (A := E) = 48%nat -> (forall h, codec_wf h -> in_u32 (num h)) ->
  len file < 2 ^ 64 -> 0 <= start <= end_ -> end_ <= len file ->
  section_loop (E := E) num (len file) (length file) end_ (drop (Z.to_nat start) file) <> Panic /\
  forall hs es rest, section_loop num (len file) (length file) end_ (drop (Z.to_nat start) file) = Ok (hs, es, rest) ->
    Forall codec_wf hs /\ Forall codec_wf es /\ grouped num hs es /\ end_ = start + 48 * (len hs + len es).
Proof.
  intros Hs Es Hn Hl Hse He. split.
  - apply section_loop_not_panic; auto using length_drop_le.
  - intros hs es rest E1. pose proof (position_drop file start ltac:(lia)) as Hp.
    apply section_loop_read in E1 as (Wh & We & Hg & Hpos & b & Eb & Lb); [|done..|lia].
    split; [done|]. split; [done|]. split; [done|].
    unfold stream_position in *. rewrite Eb, len_app in Hp. lia.
Qed.

Lemma file_header_num h : codec_wf h -> in_u32 (fh_num_entries h).
Proof. by intros (_ & _ & ?). Qed.
Lemma xorb_header_num h : codec_wf h -> in_u32 (xh_num_entries h).
Proof. by intros (_ & _ & ? & _). Qed.

Lemma parse_header_inv file h : parse_header file = Ok h -> h = shard_header_default.
Proof.
  unfold parse_header. destruct (deserialize file) as [[h' r]| |]; try done.
  destruct (bool_decide (mh_tag h' = SHARD_TAG)) eqn:Et; [|done].
  destruct (Z.eqb_spec (mh_version h') 2); [|done]. destruct (Z.eqb_spec (mh_footer_size h') SHARD_FOOTER_SIZE); [|done].
  intros [= <-]. bool_to_prop. destruct h'. cbn in *. by subst.
Qed.
Lemma parse_header_not_panic file : parse_header file <> Panic.
Proof.
  unfold parse_header. pose proof (codec_not_panic (A := MDBShardFileHeader) file).
  destruct (deserialize file) as [[h r]| |]; try done. by repeat case_match.
Qed.

Section ParseLemmas.
Context (file : list byte) (footer : MDBShardFileFooter) (fs : Z).
Context (Hlen : len file < 2 ^ 64) (Hfs : fs <= len file) (Wf : shard_footer_wf footer).

Lemma parse_files_spec next :
  SHARD_HEADER_SIZE <= next ->
  parse_files file footer fs next <> Panic /\
  forall hs es hashes next', parse_files file footer fs next = Ok (hs, es, hashes, next') ->
    Forall file_header_wf hs /\ Forall file_entry_wf es /\ grouped fh_num_entries hs es /\
    len hs = mf_file_lookup_num_entry footer /\ hashes = map fh_file_hash hs /\
    next' = next + 48 * (len hs + len es).
Proof.
  unfold SHARD_HEADER_SIZE. intros Hn. unfold parse_files.
  destruct (Z.eqb_spec (mf_file_info_offset footer) 0) as [_|].
  { destruct (Z.eqb_spec (mf_file_lookup_offset footer) 0), (Z.eqb_spec (mf_file_lookup_num_entry footer) 0) as [Hz|];
      cbn [negb orb]; (split; [done|]); try done.
    intros ? ? ? ? [= <- <- <- <-]. rewrite Hz. change (len []) with 0.
    split; [by apply Forall_nil|]. split; [by apply Forall_nil|]. split; [by exists []|]. split; [done|]. split; [done|]. cbn. lia. }
  destruct (Z.eqb_spec (mf_file_info_offset footer) next) as [->|]; [|done].
  pose proof (validate_section_bounds_not_panic next (mf_file_lookup_offset footer) fs).
  destruct (validate_section_bounds _ _ _) as [[]| |] eqn:Ev; try done.
  apply validate_section_bounds_ok in Ev as [Hb1 Hb2]. unfold SHARD_HEADER_SIZE in Hb1. unfold parse_file_section.
  destruct (section_between (E := FileDataSequenceEntry) fh_num_entries file next (mf_file_lookup_offset footer))
    as [Hnp Hread]; [done|done|apply file_header_num|done|lia|lia|].
  destruct (section_loop _ _ _ _ _) as [[[hs es] rest]| |]; [|done..].
  destruct (Hread hs es rest eq_refl) as (Wh & We & Hg & He).
  destruct (Z.eqb_spec (len hs) (mf_file_lookup_num_entry footer)); (split; [done|]); try done.
  intros ? ? ? ? [= <- <- <- <-]. auto 10.
Qed.

Lemma parse_xorbs_spec next :
  SHARD_HEADER_SIZE <= next ->
  parse_xorbs file footer fs next <> Panic /\
  forall hs es next', parse_xorbs file footer fs next = Ok (hs, es, next') ->
    Forall xorb_header_wf hs /\ Forall xorb_entry_wf es /\ grouped xh_num_entries hs es /\
    len hs = mf_xorb_lookup_num_entry footer /\ next' = next + 48 * (len hs + len es).
Proof.
  unfold SHARD_HEADER_SIZE. intros Hn. unfold parse_xorbs.
  destruct (Z.eqb_spec (mf_xorb_info_offset footer) 0) as [_|].
  { destruct (Z.eqb_spec (mf_xorb_lookup_offset footer) 0), (Z.eqb_spec (mf_xorb_lookup_num_entry footer) 0) as [Hz|];
      cbn [negb orb]; (split; [done|]); try done.
    intros ? ? ? [= <- <- <-]. rewrite Hz. change (len []) with 0.
    split; [by apply Forall_nil|]. split; [by apply Forall_nil|]. split; [by exists []|]. split; [done|]. cbn. lia. }
  destruct (Z.eqb_spec (mf_xorb_info_offset footer) next) as [->|]; [|done].
  pose proof (validate_section_bounds_not_panic next (mf_xorb_lookup_offset footer) fs).
  destruct (validate_section_bounds _ _ _) as [[]| |] eqn:Ev; try done.
  apply validate_section_bounds_ok in Ev as [Hb1 Hb2]. unfold SHARD_HEADER_SIZE in Hb1. unfold parse_xorb_section.
  destruct (section_between (E := XorbChunkSequenceEntry) xh_num_entries file next (mf_xorb_lookup_offset footer))
    as [Hnp Hread]; [done|done|apply xorb_header_num|done|lia|lia|].
  destruct (section_loop _ _ _ _ _) as [[[hs es] rest]| |]; [|done..].
  destruct (Hread hs es rest eq_refl) as (Wh & We & Hg & He).
  destruct (Z.eqb_spec (len hs) (mf_xorb_lookup_num_entry footer)); (split; [done|]); try done.
  intros ? ? ? [= <- <- <-]. auto 10.
Qed.

Lemma parse_lookups_spec next xes :
  parse_lookups file footer fs next xes <> Panic /\
  forall ls next', parse_lookups file footer fs next xes = Ok (ls, next') ->
    Forall lookup_wf ls /\ len ls = mf_chunk_lookup_num_entry footer /\ next' = next + 68 * len ls.
Proof.
  unfold parse_lookups. destruct Wf as (_ & _ & _ & _ & _ & _ & _ & _ & Wn & _).
  destruct (Z.eqb_spec (mf_chunk_lookup_offset footer) 0) as [_|].
  { destruct (Z.eqb_spec (mf_chunk_lookup_num_entry footer) 0) as [Hz|]; [|done].
    destruct (Z.eqb_spec (len xes) 0); (split; [done|]); try done.
    intros ? ? [= <- <-]. rewrite Hz. split; [by apply Forall_nil|]. split; [done|]. change (len []) with 0. lia. }
  destruct (Z.eqb_spec (mf_chunk_lookup_num_entry footer) 0); cbn [negb]; [done|].
  destruct (Z.eqb_spec (mf_chunk_lookup_offset footer) next) as [->|]; [|done].
  destruct (checked_mul _ _) as [bl|] eqn:Em; cbn [ok_or]; [|done].
  destruct (checked_add _ _) as [ce|] eqn:Ea; cbn [ok_or]; [|done]. apply checked_add_Some in Ea as [-> _].
  destruct (Z.eqb_spec (next + bl) fs); [|done].
  pose proof (deserialize_n_not_panic (A := ChunkLookupEntry) (Z.to_nat (mf_chunk_lookup_num_entry footer))
    (drop (Z.to_nat next) file)) as Hnp.
  destruct (deserialize_n _ _) as [[ls rest]| |] eqn:Ed; try done. split; [done|].
  apply deserialize_n_read in Ed as (Ll & Wl & _). intros ? ? [= <- <-]. unfold in_u64 in Wn.
  split; [done|]. assert (len ls = mf_chunk_lookup_num_entry footer) as Hl by (unfold len; lia). split; [done|].
  apply checked_mul_Some in Em as [-> _]. unfold CHUNK_LOOKUP_ENTRY_SIZE. lia.
Qed.
End ParseLemmas.

Lemma parse_reader_spec file hash :
  len file < 2 ^ 64 ->
  parse_reader file hash <> Panic /\
  forall s, parse_reader file hash = Ok s -> shard_wf (len file) s /\ ms_hash s = hash.
Proof.
  intros Hl. unfold parse_reader, checked_sub. cbv zeta. change SHARD_HEADER_SIZE with 48. change SHARD_FOOTER_SIZE with 208.
  destruct (Z.leb_spec (48 + 208) (len file)) as [Hmin|]; [|done].
  replace (208 <=? len file) with true by lia. cbn [ok_or].
  pose proof (parse_header_not_panic file). destruct (parse_header file) as [h| |] eqn:Eh; try done.
  apply parse_header_inv in Eh as ->. set (fs := len file - 208).
  assert (fs = len file - 208) as Hfs by done. clearbody fs.
  pose proof (codec_not_panic (A := MDBShardFileFooter) (drop (Z.to_nat fs) file)).
  destruct (deserialize _) as [[f rest]| |] eqn:Ef; try done. apply codec_read in Ef as (Wf & _).
  destruct (Z.eqb_spec (mf_version f) (mh_version shard_header_default)) as [Hv|]; [|done].
  destruct (Z.eqb_spec (mf_footer_offset f) fs) as [Ho|]; [|done].
  destruct (parse_files_spec file f fs Hl ltac:(lia) 48 ltac:(unfold SHARD_HEADER_SIZE; lia)) as [Hnf Hf].
  destruct (parse_files file f fs 48) as [[[[fh fe] fhash] n1]| |]; [|done..].
  destruct (Hf _ _ _ _ eq_refl) as (Wfh & Wfe & Gf & Nf & -> & ->).
  destruct (parse_xorbs_spec file f fs Hl ltac:(lia) (48 + 48 * (len fh + len fe))) as [Hnx Hx];
    [pose proof (len_nonneg fh); pose proof (len_nonneg fe); unfold SHARD_HEADER_SIZE; lia|].
  destruct (parse_xorbs _ _ _ _) as [[[xh xe] n2]| |]; [|done..].
  destruct (Hx _ _ _ eq_refl) as (Wxh & Wxe & Gx & Nx & ->).
  destruct (parse_lookups_spec file f fs Wf (48 + 48 * (len fh + len fe) + 48 * (len xh + len xe)) xe) as [Hnl Hlk].
  destruct (parse_lookups _ _ _ _ _) as [[ls n3]| |]; [|done..].
  destruct (Hlk _ _ eq_refl) as (Wl & Nl & ->).
  destruct (Z.eqb_spec (48 + 48 * (len fh + len fe) + 48 * (len xh + len xe) + 68 * len ls) fs) as [Hend|]; [|done].
  destruct (Z.eqb_spec (len ls) (len xe)) as [Hc|]; [|done]. split; [done|].
  intros s [= <-]. split; [|done]. unfold shard_wf. cbn.
  do 17 (split; [done || (unfold SHARD_FOOTER_SIZE; lia)|]). lia.
Qed.

Lemma hash_reader_spec `{Blake3, !Blake3Laws, HexCrate, FileReads, !FileReadsLaws} file :
  hash_reader file = Ok (to_hex (compute_data_hash file)).
Proof.
  unfold hash_reader. destruct (read_loop_result streaming_update (IoError UnexpectedEof)
    (Z.to_nat (len file)) 0 file (len file) streaming_new) as [(_ & pieces & Hc & ->)|[Hl _]]; [pose proof (len_nonneg file); lia| |lia].
  cbn [default from_option id]. do 2 f_equal. unfold streaming_finalize, compute_data_hash. f_equal.
  destruct (streaming_updates pieces streaming_new) as [-> _]. cbn [sh_hasher streaming_new].
  rewrite blake3_streaming, Hc. f_equal. apply take_ge. unfold len. lia.
Qed.

(** *** Parsing a written shard *)

Definition shard_bytes (files : list (FileDataSequenceHeader * list FileDataSequenceEntry))
    (xorbs : list (XorbChunkSequenceHeader * list XorbChunkSequenceEntry))
    (lookups : list ChunkLookupEntry) (footer : MDBShardFileFooter) : list byte :=
  serialize shard_header_default ++ section_bytes files ++ section_bytes xorbs ++
  serialize_all lookups ++ serialize footer.

(** The offsets a footer declares for the sections, zero for an absent one. *)
Definition footer_matches (footer : MDBShardFileFooter) (nfiles nxorbs nlookups fsize xsize lsize : Z) : Prop :=
  mf_version footer = 2 /\
  mf_file_info_offset footer = (if nfiles =? 0 then 0 else 48) /\
  mf_file_lookup_offset footer = (if nfiles =? 0 then 0 else 48 + fsize) /\
  mf_file_lookup_num_entry footer = nfiles /\
  mf_xorb_info_offset footer = (if nxorbs =? 0 then 0 else 48 + fsize) /\
  mf_xorb_lookup_offset footer = (if nxorbs =? 0 then 0 else 48 + fsize + xsize) /\
  mf_xorb_lookup_num_entry footer = nxorbs /\
  mf_chunk_lookup_offset footer = (if nlookups =? 0 then 0 else 48 + fsize + xsize) /\
  mf_chunk_lookup_num_entry footer = nlookups /\
  mf_footer_offset footer = 48 + fsize + xsize + lsize.

Lemma drop_len_app {A} (l1 l2 : list A) n : n = len l1 -> drop (Z.to_nat n) (l1 ++ l2) = l2.
Proof. intros ->. unfold len. by rewrite Nat2Z.id, drop_app_length. Qed.

Lemma section_bytes_length {H E} `{FixedCodec H, FixedCodec E} (gs : list (H * list E)) num :
  Forall (group_wf num) gs -> (length gs * codec_size (A := H) <= length (section_bytes gs))%nat.
Proof.
  induction 1 as [|[h es] gs (Wh & We & _) W IH]; cbn; [lia|].
  rewrite !length_app, codec_length by done. unfold section_bytes in IH. lia.
Qed.

Section ParseLayout.
Context (files : list (FileDataSequenceHeader * list FileDataSequenceEntry))
        (xorbs : list (XorbChunkSequenceHeader * list XorbChunkSequenceEntry))
        (lookups : list ChunkLookupEntry) (footer : MDBShardFileFooter).
Context (Wfiles : Forall (group_wf fh_num_entries) files) (Wxorbs : Forall (group_wf xh_num_entries) xorbs)
        (Wlookups : Forall lookup_wf lookups) (Wfooter : shard_footer_wf footer).
Context (Hsize : len (shard_bytes files xorbs lookups footer) < 2 ^ 64).

Let file := shard_bytes files xorbs lookups footer.
Let fsize := len (section_bytes files).
Let xsize := len (section_bytes xorbs).
Let lsize := len (serialize_all lookups).
Context (Hfooter : footer_matches footer (len files) (len xorbs) (len lookups) fsize xsize lsize).

Lemma layout_len : len file = 48 + fsize + xsize + lsize + 208 /\ lsize = 68 * len lookups /\
  0 <= fsize /\ 0 <= xsize /\ 0 <= lsize.
Proof.
  unfold file, shard_bytes. rewrite !len_app.
  assert (len (serialize shard_header_default) = 48) as -> by done.
  assert (len (serialize footer) = 208) as -> by (unfold len; by rewrite codec_length).
  assert (lsize = 68 * len lookups) as Hl.
  { unfold lsize, len. rewrite serialize_all_length by done. cbn [codec_size lookup_codec]. lia. }
  unfold fsize, xsize, lsize in *. pose proof (len_nonneg (section_bytes files)).
  pose proof (len_nonneg (section_bytes xorbs)). pose proof (len_nonneg (serialize_all lookups)). lia.
Qed.

Lemma parse_files_layout :
  parse_files file footer (48 + fsize + xsize + lsize) 48 =
  Ok (map fst files, concat (map snd files), map fh_file_hash (map fst files), 48 + fsize).
Proof.
  destruct layout_len as (Hl & _ & ? & ? & ?). destruct Hfooter as (_ & E1 & E2 & E3 & _).
  unfold parse_files. rewrite E1, E2, E3. destruct (Z.eqb_spec (len files) 0) as [Hz|Hz].
  - unfold fsize. by rewrite (len_0_inv _ Hz).
  - change (48 =? 0) with false. change (48 =? 48) with true. cbv iota.
    rewrite (proj2 (validate_section_bounds_ok _ _ _)) by (unfold SHARD_HEADER_SIZE; lia).
    unfold parse_file_section.
    assert (drop (Z.to_nat 48) file = section_bytes files ++ section_bytes xorbs ++ serialize_all lookups ++ serialize footer) as ->
      by (by apply drop_len_app).
    assert (len (section_bytes xorbs ++ serialize_all lookups ++ serialize footer) = xsize + (lsize + 208)) as Hr
      by (rewrite !len_app; repeat f_equal; unfold len; by rewrite codec_length).
    rewrite section_loop_app; [|done|done|apply file_header_num|done|done| |lia|rewrite Hr; lia|unfold stream_position; rewrite Hr; lia].
    + rewrite len_map, Z.eqb_refl. done.
    + pose proof (section_bytes_length files fh_num_entries Wfiles) as Hb. cbn in Hb.
      unfold fsize, len in *. lia.
Qed.

Lemma parse_xorbs_layout :
  parse_xorbs file footer (48 + fsize + xsize + lsize) (48 + fsize) =
  Ok (map fst xorbs, concat (map snd xorbs), 48 + fsize + xsize).
Proof.
  destruct layout_len as (Hl & _ & ? & ? & ?). destruct Hfooter as (_ & _ & _ & _ & E1 & E2 & E3 & _).
  unfold parse_xorbs. rewrite E1, E2, E3. destruct (Z.eqb_spec (len xorbs) 0) as [Hz|Hz].
  - unfold xsize. rewrite (len_0_inv _ Hz). change (len (section_bytes [])) with 0. by rewrite Z.add_0_r.
  - replace (48 + fsize =? 0) with false by lia. rewrite Z.eqb_refl.
    rewrite (proj2 (validate_section_bounds_ok _ _ _)) by (unfold SHARD_HEADER_SIZE; lia).
    unfold parse_xorb_section.
    assert (drop (Z.to_nat (48 + fsize)) file = section_bytes xorbs ++ serialize_all lookups ++ serialize footer) as ->.
    { unfold file, shard_bytes. rewrite app_assoc. apply drop_len_app. rewrite len_app. done. }
    assert (len (serialize_all lookups ++ serialize footer) = lsize + 208) as Hr
      by (rewrite !len_app; repeat f_equal; unfold len; by rewrite codec_length).
    rewrite section_loop_app; [|done|done|apply xorb_header_num|done|done| |lia|rewrite Hr; lia|unfold stream_position; rewrite Hr; lia].
    + rewrite len_map, Z.eqb_refl. done.
    + pose proof (section_bytes_length xorbs xh_num_entries Wxorbs) as Hb. cbn in Hb.
      unfold xsize, len in *. lia.
Qed.

Lemma parse_lookups_layout :
  len lookups = len (concat (map snd xorbs)) ->
  parse_lookups file footer (48 + fsize + xsize + lsize) (48 + fsize + xsize) (concat (map snd xorbs)) =
  Ok (lookups, 48 + fsize + xsize + lsize).
Proof.
  intros Hc. destruct layout_len as (Hl & Hls & ? & ? & ?).
  destruct Hfooter as (_ & _ & _ & _ & _ & _ & _ & E1 & E2 & _).
  unfold parse_lookups. rewrite E1, E2. destruct (Z.eqb_spec (len lookups) 0) as [Hz|Hz].
  - rewrite <- Hc, Hz. cbn. rewrite (len_0_inv _ Hz). do 2 f_equal. lia.
  - replace (48 + fsize + xsize =? 0) with false by lia. replace (len lookups =? 0) with false by lia. cbn [negb].
    rewrite Z.eqb_refl. pose proof (len_nonneg lookups).
    rewrite checked_mul_le by (unfold u64_max, CHUNK_LOOKUP_ENTRY_SIZE; unfold file in Hl; lia). cbn [ok_or].
    rewrite checked_add_le by (unfold u64_max, CHUNK_LOOKUP_ENTRY_SIZE; unfold file in Hl; lia). cbn [ok_or].
    replace (48 + fsize + xsize + len lookups * CHUNK_LOOKUP_ENTRY_SIZE) with (48 + fsize + xsize + lsize)
      by (unfold CHUNK_LOOKUP_ENTRY_SIZE; lia). rewrite Z.eqb_refl.
    assert (drop (Z.to_nat (48 + fsize + xsize)) file = serialize_all lookups ++ serialize footer) as ->.
    { unfold file, shard_bytes. rewrite !app_assoc, <- (app_assoc (serialize shard_header_default)), <- app_assoc.
      apply drop_len_app. rewrite !len_app. unfold fsize, xsize. change (len (serialize shard_header_default)) with 48. lia. }
    assert (Z.to_nat (len lookups) = length lookups) as -> by (unfold len; lia).
    by rewrite deserialize_n_app.
Qed.

Lemma parse_layout hash :
  len lookups = len (concat (map snd xorbs)) ->
  parse_reader file hash =
  Ok (mkShardFile shard_header_default footer (map fst files) (concat (map snd files)) (map fst xorbs)
        (concat (map snd xorbs)) lookups (map fh_file_hash (map fst files))
        (map (fun e => (cl_chunk_hash e, cl_xorb_hash e, cl_chunk_index e)) lookups) hash).
Proof.
  intros Hc. destruct layout_len as (Hl & Hls & ? & ? & ?). unfold parse_reader, checked_sub. cbv zeta.
  change SHARD_HEADER_SIZE with 48. change SHARD_FOOTER_SIZE with 208.
  replace (48 + 208 <=? len file) with true by lia. replace (208 <=? len file) with true by lia. cbn [ok_or].
  assert (parse_header file = Ok shard_header_default) as ->.
  { unfold parse_header, file, shard_bytes. rewrite codec_roundtrip by (split; [done|unfold in_u64; cbn; lia]). done. }
  replace (len file - 208) with (48 + fsize + xsize + lsize) by lia.
  assert (drop (Z.to_nat (48 + fsize + xsize + lsize)) file = serialize footer) as ->.
  { unfold file, shard_bytes. rewrite !app_assoc. apply drop_len_app. rewrite !len_app. done. }
  rewrite <- (app_nil_r (serialize footer)), codec_roundtrip by done.
  destruct Hfooter as (Ev & _ & _ & _ & _ & _ & _ & _ & _ & Eo). rewrite Ev, Eo. change (2 =? _) with true.
  rewrite Z.eqb_refl, parse_files_layout, parse_xorbs_layout, parse_lookups_layout by done.
  by rewrite Z.eqb_refl, Hc, Z.eqb_refl.
Qed.
End ParseLayout.

(** ** Properties *)

(** C31: Parsing a shard never panics, and a shard that is parsed accounts for
    every byte of the file: the sections are contiguous and end at the footer,
    the counts of the footer and of the sequence headers are the numbers of
    records, each xorb chunk has a lookup entry, and every record has fields
    of its width.  So the parsed metadata is bounded by the size of the file. *)
Theorem parse_accounts_for_every_byte `{Blake3, HexCrate} data :
  len data < 2 ^ 64 ->
  parse data <> Panic /\
  forall s, parse data = Ok s -> shard_wf (len data) s /\ ms_hash s = to_hex (compute_data_hash data).
Proof. intros Hl. by apply parse_reader_spec. Qed.

(** Parsing a shard from disk, with its incremental hash and whatever the
    sizes of the reads, gives the result of parsing it in memory, and the
    incremental hash is the hash of the file. *)
Theorem parse_from_file_equals_parse `{Blake3Laws, HexCrate, FileReadsLaws} file :
  parse_from_file file = parse file /\ compute_hash_from_file file = Ok (to_hex (compute_data_hash file)).
Proof. unfold parse_from_file, compute_hash_from_file, parse. by rewrite hash_reader_spec. Qed.

(** ** Witnesses *)
Definition sample_entry : FileDataSequenceEntry := mkFileEntry (mkHash 7 0 0 0) 0 100 0 1.
Definition sample_footer : MDBShardFileFooter :=
  mkShardFooter 2 48 0 144 1 0 0 0 0 (zeros 32) 0 0 0 100 0 144.
Definition sample_shard_file : list byte :=
  shard_bytes [(mkFileHeader (mkHash 9 0 0 0) 0 1, [sample_entry])] [] [] sample_footer.

Lemma parse_accounts_for_every_byte_witness :
  exists s, @parse Model.blake3 Model.hex sample_shard_file = Ok s /\
    ms_file_data_entries s = [sample_entry] /\ shard_wf 352 s.
Proof.
  destruct (@parse Model.blake3 Model.hex sample_shard_file) as [s| |] eqn:E; [|vm_compute in E; discriminate..].
  exists s. split; [reflexivity|]. split; [vm_compute in E; injection E as <-; reflexivity|].
  exact (proj1 (proj2 (@parse_accounts_for_every_byte Model.blake3 Model.hex sample_shard_file
    ltac:(vm_compute; reflexivity)) s E)).
Defined.

Lemma parse_from_file_equals_parse_witness :
  @parse_from_file Model.blake3 Model.hex Model.reads sample_shard_file =
  @parse Model.blake3 Model.hex sample_shard_file.
Proof.
  exact (proj1 (@parse_from_file_equals_parse Model.blake3 Model.blake3_laws Model.hex Model.reads
    Model.reads_laws sample_shard_file)).
Defined.
