(* ===== verification/ShardBuilder.v ===== *)
(** * Building shards (src/format/shard_builder.rs) *)
From S2P Require Import Prelude Bytes Crates MerkleHash Hash Shard.

Local Open Scope Z_scope.

Definition HEADER_SIZE : Z := 48.
Definition FOOTER_SIZE : Z := 208.
Definition FILE_HEADER_SIZE : Z := 48.
Definition FILE_ENTRY_SIZE : Z := 48.
Definition XORB_HEADER_SIZE : Z := 48.
Definition XORB_ENTRY_SIZE : Z := 48.
Definition BUILD_LOOKUP_ENTRY_SIZE : Z := 68.

Record FileSegment := mkSegment {
  seg_xorb_hash : MerkleHash;
  seg_xorb_index : Z;
  seg_chunk_index_start : Z;
  seg_chunk_index_end : Z;
  seg_unpacked_segment_bytes : Z;
}.
Record FileBuildEntry := mkFileBuild {
  fb_file_hash : MerkleHash;
  fb_segments : list FileSegment;
}.
Record XorbChunkBuildEntry := mkChunkBuild {
  cb_chunk_hash : MerkleHash;
  cb_chunk_byte_range_start : Z;
  cb_unpacked_segment_bytes : Z;
}.
Record XorbBuildEntry := mkXorbBuild {
  xbe_xorb_hash : MerkleHash;
  xbe_num_bytes_in_xorb : Z;
  xbe_num_bytes_on_disk : Z;
  xbe_chunks : list XorbChunkBuildEntry;
}.
Record ShardBuilder := mkShardBuilder {
  sb_files : list FileBuildEntry;
  sb_xorbs : list XorbBuildEntry;
  sb_chunk_lookup_entries : list ChunkLookupEntry;
}.

Definition shard_builder_new : ShardBuilder := mkShardBuilder [] [] [].

Definition add_xorb_unchecked (b : ShardBuilder) (xorb_hash : MerkleHash) (num_bytes_in_xorb num_bytes_on_disk : Z)
    (chunks : list XorbChunkBuildEntry) : ShardBuilder * Z :=
  let index := len (sb_xorbs b) in
  (mkShardBuilder (sb_files b)
     (sb_xorbs b ++ [mkXorbBuild xorb_hash num_bytes_in_xorb num_bytes_on_disk chunks])
     (sb_chunk_lookup_entries b), index).

Definition add_xorb_with_raw_chunk_hashes (b : ShardBuilder) (xorb_hash : MerkleHash)
    (num_bytes_in_xorb num_bytes_on_disk : Z) (chunks : list XorbChunkBuildEntry)
    (raw_chunk_hashes : list MerkleHash) : XetResult (ShardBuilder * Z) :=
  ensure (len chunks =? len raw_chunk_hashes) else (ParseError "raw chunk hash count mismatch") in
  let '(b, index) := add_xorb_unchecked b xorb_hash num_bytes_in_xorb num_bytes_on_disk chunks in
  let entries := imap (fun i h => mkLookup h xorb_hash (as_u32 (Z.of_nat i))) raw_chunk_hashes in
  Ok (mkShardBuilder (sb_files b) (sb_xorbs b) (sb_chunk_lookup_entries b ++ entries), index).

Definition add_file (b : ShardBuilder) (file_hash : MerkleHash) (segments : list FileSegment) : ShardBuilder :=
  mkShardBuilder (sb_files b ++ [mkFileBuild file_hash segments]) (sb_xorbs b) (sb_chunk_lookup_entries b).

(** The records [build] writes for a file and for a xorb. *)
Definition file_header_of (f : FileBuildEntry) : FileDataSequenceHeader :=
  mkFileHeader (fb_file_hash f) 0 (as_u32 (len (fb_segments f))).
Definition file_entry_of (s : FileSegment) : FileDataSequenceEntry :=
  mkFileEntry (seg_xorb_hash s) 0 (seg_unpacked_segment_bytes s) (seg_chunk_index_start s) (seg_chunk_index_end s).
Definition xorb_header_of (x : XorbBuildEntry) : XorbChunkSequenceHeader :=
  mkXorbHeader (xbe_xorb_hash x) 0 (as_u32 (len (xbe_chunks x))) (xbe_num_bytes_in_xorb x) (xbe_num_bytes_on_disk x).
Definition xorb_entry_of (c : XorbChunkBuildEntry) : XorbChunkSequenceEntry :=
  mkXorbEntry (cb_chunk_hash c) (cb_chunk_byte_range_start c) (cb_unpacked_segment_bytes c) 0.

Definition sum_z (l : list Z) : Z := foldr Z.add 0 l.
Definition sum_u64 (l : list Z) : Z := fold_left (fun acc z => as_u64 (acc + z)) l 0.

Definition is_empty {A} (l : list A) : bool := len l =? 0.

Section Build.
Context `{Blake3, HexCrate}.

Definition footer_of (b : ShardBuilder) : MDBShardFileFooter :=
  let file_section_size :=
    sum_z (map (fun f => FILE_HEADER_SIZE + len (fb_segments f) * FILE_ENTRY_SIZE) (sb_files b)) in
  let xorb_section_size :=
    sum_z (map (fun x => XORB_HEADER_SIZE + len (xbe_chunks x) * XORB_ENTRY_SIZE) (sb_xorbs b)) in
  let chunk_lookup_section_size := len (sb_chunk_lookup_entries b) * BUILD_LOOKUP_ENTRY_SIZE in
  let file_info_offset := HEADER_SIZE in
  let xorb_info_offset := HEADER_SIZE + file_section_size in
  let chunk_lookup_offset := HEADER_SIZE + file_section_size + xorb_section_size in
  let footer_offset := HEADER_SIZE + file_section_size + xorb_section_size + chunk_lookup_section_size in
  {| mf_version := 2;
     mf_file_info_offset := if is_empty (sb_files b) then 0 else file_info_offset;
     mf_xorb_info_offset := if is_empty (sb_xorbs b) then 0 else xorb_info_offset;
     mf_file_lookup_offset := if is_empty (sb_files b) then 0 else xorb_info_offset;
     mf_file_lookup_num_entry := len (sb_files b);
     mf_xorb_lookup_offset :=
       if is_empty (sb_xorbs b) then 0
       else if is_empty (sb_chunk_lookup_entries b) then footer_offset else chunk_lookup_offset;
     mf_xorb_lookup_num_entry := len (sb_xorbs b);
     mf_chunk_lookup_offset := if is_empty (sb_chunk_lookup_entries b) then 0 else chunk_lookup_offset;
     mf_chunk_lookup_num_entry := len (sb_chunk_lookup_entries b);
     mf_chunk_hash_hmac_key := zeros 32;
     mf_shard_creation_timestamp := 0;
     mf_shard_key_expiry := 0;
     mf_stored_bytes_on_disk := sum_u64 (map xbe_num_bytes_on_disk (sb_xorbs b));
     mf_materialized_bytes :=
       sum_u64 (map seg_unpacked_segment_bytes (concat (map fb_segments (sb_files b))));
     mf_stored_bytes := sum_u64 (map xbe_num_bytes_in_xorb (sb_xorbs b));
     mf_footer_offset := footer_offset |}.

Definition total_size (b : ShardBuilder) : Z :=
  HEADER_SIZE +
  sum_z (map (fun f => FILE_HEADER_SIZE + len (fb_segments f) * FILE_ENTRY_SIZE) (sb_files b)) +
  sum_z (map (fun x => XORB_HEADER_SIZE + len (xbe_chunks x) * XORB_ENTRY_SIZE) (sb_xorbs b)) +
  len (sb_chunk_lookup_entries b) * BUILD_LOOKUP_ENTRY_SIZE + FOOTER_SIZE.

Definition build (b : ShardBuilder) : XetResult (list byte) :=
  let buf := serialize shard_header_default in
  let buf := fold_left (fun buf f =>
      let buf := buf ++ serialize (file_header_of f) in
      fold_left (fun buf seg => buf ++ serialize (file_entry_of seg)) (fb_segments f) buf)
    (sb_files b) buf in
  let buf := fold_left (fun buf x =>
      let buf := buf ++ serialize (xorb_header_of x) in
      fold_left (fun buf c => buf ++ serialize (xorb_entry_of c)) (xbe_chunks x) buf)
    (sb_xorbs b) buf in
  let buf := fold_left (fun buf e => buf ++ serialize e) (sb_chunk_lookup_entries b) buf in
  let buf := buf ++ serialize (footer_of b) in
  ensure (len buf =? total_size b) else (ParseError "shard binary size mismatch") in
  let* _parsed :=
    map_err (fun _ => ParseError "ShardBuilder::build() produced invalid shard data") (parse buf) in
  Ok buf.
End Build.

(** ** Specification

    The builders that calls can produce.  The arguments have the widths of
    their Rust types. *)
Definition segment_wf (s : FileSegment) : Prop :=
  hash_wf (seg_xorb_hash s) /\ in_u32 (seg_unpacked_segment_bytes s) /\
  in_u32 (seg_chunk_index_start s) /\ in_u32 (seg_chunk_index_end s).
Definition chunk_build_wf (c : XorbChunkBuildEntry) : Prop :=
  hash_wf (cb_chunk_hash c) /\ in_u32 (cb_chunk_byte_range_start c) /\ in_u32 (cb_unpacked_segment_bytes c).

Inductive built : ShardBuilder -> Prop :=
| built_new : built shard_builder_new
| built_file b file_hash segments :
    built b -> hash_wf file_hash -> Forall segment_wf segments -> built (add_file b file_hash segments)
| built_xorb b xorb_hash n d chunks raws b' index :
    built b -> hash_wf xorb_hash -> in_u32 n -> in_u32 d -> Forall chunk_build_wf chunks -> Forall hash_wf raws ->
    add_xorb_with_raw_chunk_hashes b xorb_hash n d chunks raws = Ok (b', index) -> built b'.

Definition file_group (f : FileBuildEntry) := (file_header_of f, map file_entry_of (fb_segments f)).
Definition xorb_group (x : XorbBuildEntry) := (xorb_header_of x, map xorb_entry_of (xbe_chunks x)).

(** The invariant of the builder. *)
Definition builder_inv (b : ShardBuilder) : Prop :=
  Forall (fun f => hash_wf (fb_file_hash f) /\ Forall segment_wf (fb_segments f)) (sb_files b) /\
  Forall (fun x => hash_wf (xbe_xorb_hash x) /\ in_u32 (xbe_num_bytes_in_xorb x) /\
                   in_u32 (xbe_num_bytes_on_disk x) /\ Forall chunk_build_wf (xbe_chunks x)) (sb_xorbs b) /\
  Forall lookup_wf (sb_chunk_lookup_entries b) /\
  len (sb_chunk_lookup_entries b) = len (concat (map xbe_chunks (sb_xorbs b))).

(** ** Lemmas *)

Lemma built_inv b : built b -> builder_inv b.
Proof.
  induction 1 as [|b fh segs Hb (I1 & I2 & I3 & I4) Wh Ws|b xh n d chunks raws b' index Hb (I1 & I2 & I3 & I4) Wh Wn Wd Wc Wr E].
  - repeat split; try constructor.
  - split; [by apply Forall_app_2; [|by apply Forall_singleton]|done].
  - unfold add_xorb_with_raw_chunk_hashes in E. destruct (Z.eqb_spec (len chunks) (len raws)) as [Hl|]; [|done].
    cbn in E. injection E as <- <-. unfold builder_inv. cbn [sb_files sb_xorbs sb_chunk_lookup_entries].
    split; [done|]. split; [by apply Forall_app_2; [|by apply Forall_singleton]|]. split.
    + apply Forall_app_2; [done|]. apply Forall_lookup. intros i e. rewrite list_lookup_imap.
      destruct (raws !! i) as [h|] eqn:Ei; cbn; [|done]. intros [= <-].
      rewrite Forall_lookup in Wr. split; [by eapply Wr|]. split; [done|].
      unfold in_u32. cbn. apply Z.mod_pos_bound. lia.
    + rewrite map_app, concat_app, !len_app, I4. cbn [map concat xbe_chunks]. rewrite app_nil_r. f_equal.
      unfold len in *. rewrite length_imap. lia.
Qed.

Lemma sum_u64_range l : in_u64 (sum_u64 l).
Proof.
  unfold sum_u64. enough (forall acc, in_u64 acc -> in_u64 (fold_left (fun acc z => as_u64 (acc + z)) l acc)) as Hg
    by (apply Hg; unfold in_u64; lia).
  induction l as [|z l IH]; intros acc Ha; [done|]. cbn. apply IH. unfold in_u64, as_u64. apply Z.mod_pos_bound. lia.
Qed.

Lemma fold_append {A} (f : A -> list byte) l buf :
  fold_left (fun buf a => buf ++ f a) l buf = buf ++ concat (map f l).
Proof.
  revert buf. induction l as [|a l IH]; intros buf; cbn; [by rewrite app_nil_r|]. by rewrite IH, <- app_assoc.
Qed.

Lemma fold_groups {A B} (h : A -> list byte) (es : A -> list B) (e : B -> list byte) l buf :
  fold_left (fun buf a => fold_left (fun buf b => buf ++ e b) (es a) (buf ++ h a)) l buf =
  buf ++ concat (map (fun a => h a ++ concat (map e (es a))) l).
Proof.
  revert buf. induction l as [|a l IH]; intros buf; cbn [fold_left map concat]; [by rewrite app_nil_r|].
  by rewrite IH, fold_append, <- !app_assoc.
Qed.

(** Sequences whose number of entries fits the header, and a total size that
    fits a [usize]. *)
Definition counts_fit (b : ShardBuilder) : Prop :=
  Forall (fun f => len (fb_segments f) < 2 ^ 32) (sb_files b) /\
  Forall (fun x => len (xbe_chunks x) < 2 ^ 32) (sb_xorbs b) /\ total_size b < 2 ^ 64.

Section BuildLemmas.
Context `{Blake3, HexCrate}.

Lemma as_u32_small z : 0 <= z < 2 ^ 32 -> as_u32 z = z.
Proof. intros. unfold as_u32. by apply Z.mod_small. Qed.

Lemma as_u32_range z : in_u32 (as_u32 z).
Proof. unfold in_u32, as_u32. apply Z.mod_pos_bound. lia. Qed.

Lemma file_groups_wf b : builder_inv b -> counts_fit b ->
  Forall (group_wf fh_num_entries) (map file_group (sb_files b)).
Proof.
  intros (I1 & _) (C1 & _). apply Forall_map. rewrite Forall_forall in *. intros f Hf.
  destruct (I1 f Hf) as [Wh Ws]. specialize (C1 f Hf). unfold file_group.
  split; [split; [done|split; [unfold in_u32; cbn; lia|apply as_u32_range]]|]. split.
  - cbn [snd]. apply Forall_map. eapply Forall_impl; [exact Ws|]. intros s (? & ? & ? & ?).
    split; [done|]. split; [unfold in_u32; cbn; lia|done].
  - cbn. rewrite len_map. apply as_u32_small. pose proof (len_nonneg (fb_segments f)). lia.
Qed.

Lemma xorb_groups_wf b : builder_inv b -> counts_fit b ->
  Forall (group_wf xh_num_entries) (map xorb_group (sb_xorbs b)).
Proof.
  intros (_ & I2 & _) (_ & C2 & _). apply Forall_map. rewrite Forall_forall in *. intros x Hx.
  destruct (I2 x Hx) as (Wh & Wn & Wd & Wc). specialize (C2 x Hx). unfold xorb_group.
  split; [split; [done|split; [unfold in_u32; cbn; lia|split; [apply as_u32_range|done]]]|]. split.
  - cbn [snd]. apply Forall_map. eapply Forall_impl; [exact Wc|]. intros c (? & ? & ?).
    split; [done|]. split; [done|]. split; [done|unfold in_u32; cbn; lia].
  - cbn. rewrite len_map. apply as_u32_small. pose proof (len_nonneg (xbe_chunks x)). lia.
Qed.

(** Bytes of a section of groups of 48-byte records. *)
Lemma section_bytes_len {H1 E1} `{FixedCodec H1, FixedCodec E1} (num : H1 -> Z) gs :
  codec_size (A := H1) = 48%nat -> codec_size (A := E1) = 48%nat -> Forall (group_wf num) gs ->
  len (section_bytes (E := E1) gs) = sum_z (map (fun g => 48 + len (snd g) * 48) gs).
Proof.
  intros Hs Es. induction 1 as [|[h es] gs (Wh & We & _) W IH]; [done|].
  change (section_bytes ((h, es) :: gs)) with ((serialize h ++ serialize_all es) ++ section_bytes gs).
  cbn [map sum_z foldr snd]. rewrite !len_app, IH. unfold sum_z. f_equal.
  unfold len. cbn [fst snd] in *. rewrite codec_length, serialize_all_length by done. lia.
Qed.

Lemma build_bytes b :
  fold_left (fun buf e => buf ++ serialize e) (sb_chunk_lookup_entries b)
    (fold_left (fun buf x => fold_left (fun buf c => buf ++ serialize (xorb_entry_of c)) (xbe_chunks x)
                               (buf ++ serialize (xorb_header_of x))) (sb_xorbs b)
      (fold_left (fun buf f => fold_left (fun buf seg => buf ++ serialize (file_entry_of seg)) (fb_segments f)
                                 (buf ++ serialize (file_header_of f))) (sb_files b)
        (serialize shard_header_default))) ++ serialize (footer_of b) =
  shard_bytes (map file_group (sb_files b)) (map xorb_group (sb_xorbs b)) (sb_chunk_lookup_entries b) (footer_of b).
Proof.
  rewrite fold_append.
  rewrite (fold_groups (fun x => serialize (xorb_header_of x)) xbe_chunks (fun c => serialize (xorb_entry_of c))).
  rewrite (fold_groups (fun f => serialize (file_header_of f)) fb_segments (fun s => serialize (file_entry_of s))).
  unfold shard_bytes, section_bytes, serialize_all. rewrite !map_map. cbn [fst snd file_group xorb_group].
  rewrite <- !app_assoc. f_equal. f_equal; [|f_equal].
  - f_equal. apply map_ext. intros f. by rewrite map_map.
  - f_equal. apply map_ext. intros x. by rewrite map_map.
Qed.

Lemma footer_of_wf b : counts_fit b -> shard_footer_wf (footer_of b).
Proof.
  intros (_ & _ & Ht). unfold total_size in Ht.
  set (fs := sum_z (map (fun f => FILE_HEADER_SIZE + len (fb_segments f) * FILE_ENTRY_SIZE) (sb_files b))) in *.
  set (xs := sum_z (map (fun x => XORB_HEADER_SIZE + len (xbe_chunks x) * XORB_ENTRY_SIZE) (sb_xorbs b))) in *.
  assert (0 <= fs /\ 48 * len (sb_files b) <= fs) as Hfs.
  { subst fs. unfold sum_z, FILE_HEADER_SIZE, FILE_ENTRY_SIZE. clear. induction (sb_files b) as [|f l IH]; cbn [map foldr]; [done|].
    rewrite len_cons. pose proof (len_nonneg (fb_segments f)). lia. }
  assert (0 <= xs /\ 48 * len (sb_xorbs b) <= xs) as Hxs.
  { subst xs. unfold sum_z, XORB_HEADER_SIZE, XORB_ENTRY_SIZE. clear. induction (sb_xorbs b) as [|f l IH]; cbn [map foldr]; [done|].
    rewrite len_cons. pose proof (len_nonneg (xbe_chunks f)). lia. }
  pose proof (len_nonneg (sb_files b)). pose proof (len_nonneg (sb_xorbs b)). pose proof (len_nonneg (sb_chunk_lookup_entries b)).
  unfold HEADER_SIZE, FOOTER_SIZE, BUILD_LOOKUP_ENTRY_SIZE in *.
  unfold shard_footer_wf, footer_of, HEADER_SIZE, BUILD_LOOKUP_ENTRY_SIZE. cbv zeta. fold fs xs.
  cbn [mf_version mf_file_info_offset mf_xorb_info_offset mf_file_lookup_offset mf_file_lookup_num_entry
    mf_xorb_lookup_offset mf_xorb_lookup_num_entry mf_chunk_lookup_offset mf_chunk_lookup_num_entry
    mf_chunk_hash_hmac_key mf_shard_creation_timestamp mf_shard_key_expiry mf_stored_bytes_on_disk
    mf_materialized_bytes mf_stored_bytes mf_footer_offset].
  pose proof (sum_u64_range (map xbe_num_bytes_on_disk (sb_xorbs b))).
  pose proof (sum_u64_range (map xbe_num_bytes_in_xorb (sb_xorbs b))).
  pose proof (sum_u64_range (map seg_unpacked_segment_bytes (concat (map fb_segments (sb_files b))))).
  repeat match goal with |- _ /\ _ => split end;
    first [assumption | apply length_zeros | unfold in_u64 in *; repeat case_match; lia].
Qed.

Lemma footer_of_matches b : builder_inv b -> counts_fit b ->
  footer_matches (footer_of b) (len (map file_group (sb_files b))) (len (map xorb_group (sb_xorbs b)))
    (len (sb_chunk_lookup_entries b)) (len (section_bytes (map file_group (sb_files b))))
    (len (section_bytes (map xorb_group (sb_xorbs b)))) (len (serialize_all (sb_chunk_lookup_entries b))).
Proof.
  intros Hi Hc. pose proof (file_groups_wf b Hi Hc) as Wf. pose proof (xorb_groups_wf b Hi Hc) as Wx.
  rewrite (section_bytes_len fh_num_entries) by done. rewrite (section_bytes_len xh_num_entries) by done.
  assert (len (serialize_all (sb_chunk_lookup_entries b)) = len (sb_chunk_lookup_entries b) * 68) as Hl.
  { unfold len. rewrite serialize_all_length by apply Hi. cbn [codec_size lookup_codec]. lia. }
  rewrite Hl, !len_map, !map_map. cbn [file_group xorb_group snd].
  assert (forall (f : FileBuildEntry), len (map file_entry_of (fb_segments f)) = len (fb_segments f)) as E1 by (intros; apply len_map).
  assert (forall (x : XorbBuildEntry), len (map xorb_entry_of (xbe_chunks x)) = len (xbe_chunks x)) as E2 by (intros; apply len_map).
  rewrite (map_ext _ _ (fun f => f_equal (fun n => 48 + n * 48) (E1 f))).
  rewrite (map_ext _ _ (fun x => f_equal (fun n => 48 + n * 48) (E2 x))).
  unfold footer_matches, footer_of, is_empty. cbv zeta.
  cbn [mf_version mf_file_info_offset mf_xorb_info_offset mf_file_lookup_offset mf_file_lookup_num_entry
    mf_xorb_lookup_offset mf_xorb_lookup_num_entry mf_chunk_lookup_offset mf_chunk_lookup_num_entry mf_footer_offset].
  unfold HEADER_SIZE, FILE_HEADER_SIZE, FILE_ENTRY_SIZE, XORB_HEADER_SIZE, XORB_ENTRY_SIZE, BUILD_LOOKUP_ENTRY_SIZE.
  repeat split. destruct (Z.eqb_spec (len (sb_chunk_lookup_entries b)) 0) as [->|]; [|done].
  destruct (_ =? 0); [done|lia].
Qed.

Lemma build_spec b :
  builder_inv b -> counts_fit b ->
  exists buf, build b = Ok buf /\ len buf = total_size b /\
    parse buf = Ok (mkShardFile shard_header_default (footer_of b)
      (map file_header_of (sb_files b)) (map file_entry_of (concat (map fb_segments (sb_files b))))
      (map xorb_header_of (sb_xorbs b)) (map xorb_entry_of (concat (map xbe_chunks (sb_xorbs b))))
      (sb_chunk_lookup_entries b) (map fb_file_hash (sb_files b))
      (map (fun e => (cl_chunk_hash e, cl_xorb_hash e, cl_chunk_index e)) (sb_chunk_lookup_entries b))
      (to_hex (compute_data_hash buf))).
Proof.
  intros Hi Hc. pose proof (file_groups_wf b Hi Hc) as Wf. pose proof (xorb_groups_wf b Hi Hc) as Wx.
  pose proof (footer_of_wf b Hc) as Wft. pose proof (footer_of_matches b Hi Hc) as Hm. pose proof Hi as (_ & _ & Wl & Hcnt).
  set (buf := shard_bytes (map file_group (sb_files b)) (map xorb_group (sb_xorbs b)) (sb_chunk_lookup_entries b) (footer_of b)).
  assert (len buf = total_size b) as Hlen.
  { destruct (layout_len (map file_group (sb_files b)) (map xorb_group (sb_xorbs b)) (sb_chunk_lookup_entries b)
      (footer_of b) Wl Wft) as (E & _). fold buf in E. rewrite E. clear E.
    destruct Hm as (_ & _ & _ & _ & _ & _ & _ & _ & _ & Eo). rewrite <- Eo. unfold total_size, footer_of, FOOTER_SIZE.
    cbn [mf_footer_offset]. lia. }
  assert (concat (map snd (map file_group (sb_files b))) = map file_entry_of (concat (map fb_segments (sb_files b)))) as Ef
    by (rewrite concat_map, !map_map; done).
  assert (concat (map snd (map xorb_group (sb_xorbs b))) = map xorb_entry_of (concat (map xbe_chunks (sb_xorbs b)))) as Ex
    by (rewrite concat_map, !map_map; done).
  exists buf. pose proof (parse_layout (map file_group (sb_files b)) (map xorb_group (sb_xorbs b)) (sb_chunk_lookup_entries b)
    (footer_of b) Wf Wx Wl Wft) as Hp. fold buf in Hp. rewrite Hlen in Hp.
  destruct Hc as (_ & _ & Ht). specialize (Hp Ht Hm (to_hex (compute_data_hash buf))).
  rewrite Ef, Ex, len_map, !map_map in Hp. specialize (Hp Hcnt). cbn [file_group xorb_group fst] in Hp.
  assert (parse buf = _) as Hparse by exact Hp. split; [|split; [done|exact Hparse]].
  unfold build. cbv zeta. rewrite build_bytes. fold buf. by rewrite Hlen, Z.eqb_refl, Hparse.
Qed.
End BuildLemmas.

(** ** Properties *)

(** C32: Whatever calls produced it, a builder whose sequences fit the format
    builds, and parsing the result gives back every file, segment, xorb, chunk
    and lookup entry it was given, in order, with the footer the builder
    computed; in particular the lookup section has exactly one entry per
    chunk, which the parser requires. *)
Theorem shard_builder_roundtrip `{Blake3, HexCrate} b :
  built b -> counts_fit b ->
  exists buf, build b = Ok buf /\ len buf = total_size b /\
    parse buf = Ok (mkShardFile shard_header_default (footer_of b)
      (map file_header_of (sb_files b)) (map file_entry_of (concat (map fb_segments (sb_files b))))
      (map xorb_header_of (sb_xorbs b)) (map xorb_entry_of (concat (map xbe_chunks (sb_xorbs b))))
      (sb_chunk_lookup_entries b) (map fb_file_hash (sb_files b))
      (map (fun e => (cl_chunk_hash e, cl_xorb_hash e, cl_chunk_index e)) (sb_chunk_lookup_entries b))
      (to_hex (compute_data_hash buf))).
Proof. intros Hb Hc. apply build_spec; [by apply built_inv|done]. Qed.

(** ** Witnesses *)
Definition sample_xorb_hash : MerkleHash := mkHash 1 0 0 0.
Definition sample_chunk_builds : list XorbChunkBuildEntry :=
  [mkChunkBuild (mkHash 2 0 0 0) 0 100; mkChunkBuild (mkHash 3 0 0 0) 60 50].
Definition sample_builder : ShardBuilder :=
  match add_xorb_with_raw_chunk_hashes shard_builder_new sample_xorb_hash 150 120 sample_chunk_builds
          [mkHash 4 0 0 0; mkHash 5 0 0 0] with
  | Ok (b, _) => add_file b (mkHash 6 0 0 0) [mkSegment sample_xorb_hash 0 0 2 150]
  | _ => shard_builder_new
  end.

Lemma sample_hash_wf n : 0 <= n < 2 ^ 64 -> hash_wf (mkHash n 0 0 0).
Proof. intros. unfold hash_wf, in_u64. cbn. lia. Qed.

Lemma sample_built : built sample_builder.
Proof.
  eapply (built_file _ (mkHash 6 0 0 0)).
  - eapply (built_xorb shard_builder_new sample_xorb_hash 150 120 sample_chunk_builds [mkHash 4 0 0 0; mkHash 5 0 0 0]);
      [constructor|apply sample_hash_wf; lia|unfold in_u32; lia|unfold in_u32; lia| | |vm_compute; reflexivity].
    + repeat constructor; unfold in_u32, in_u64; cbn; lia.
    + repeat constructor; unfold in_u64; cbn; lia.
  - apply sample_hash_wf. lia.
  - repeat constructor; unfold in_u32, in_u64; cbn; lia.
Qed.

Lemma shard_builder_roundtrip_witness :
  exists buf, @build Model.blake3 Model.hex sample_builder = Ok buf /\ len buf = 632 /\
    is_ok (@parse Model.blake3 Model.hex buf) = true.
Proof.
  destruct (@shard_builder_roundtrip Model.blake3 Model.hex sample_builder sample_built) as (buf & Hb & Hl & Hp).
  - split; [repeat constructor; vm_compute; reflexivity|]. split; [repeat constructor; vm_compute; reflexivity|].
    vm_compute. reflexivity.
  - exists buf. split; [exact Hb|]. split; [exact Hl|]. rewrite Hp. reflexivity.
Defined.

Definition sample_shard : list byte :=
  match @build Model.blake3 Model.hex sample_builder with Ok buf => buf | _ => [] end.
