(* ===== verification/ReconPlan.v ===== *)
(** * Reconstruction plans (src/reconstruction_plan.rs)

    From a parsed shard and a file hash to the list of xorb chunks that make
    up the file.  Hash maps are finite maps. *)
From S2P Require Import Prelude Bytes Crates MerkleHash Hash Shard ShardBuilder.

Local Open Scope Z_scope.

Record PlannedChunk := mkPlannedChunk {
  pc_xorb_hash : MerkleHash;
  pc_xorb_chunk_index : Z;
  pc_chunk_byte_range_start : Z;
  pc_unpacked_segment_bytes : Z;
  pc_serialized_chunk_hash : MerkleHash;
  pc_raw_chunk_hash : MerkleHash;
}.

Record PlannedFile := mkPlannedFile {
  pf_file_hash : MerkleHash;
  pf_file_index : nat;
  pf_chunks : list PlannedChunk;
  pf_total_unpacked_bytes : Z;
}.

(** [iter().position(p)]. *)
Fixpoint position {A} (p : A -> bool) (l : list A) : option nat :=
  match l with
  | [] => None
  | a :: l' => if p a then Some O else S <$> position p l'
  end.

Definition find_file_index (shard : MDBShardFile) (file_hash : MerkleHash) (expected_file_index : option nat)
  : XetResult nat :=
  match expected_file_index with
  | Some index =>
      let* entry := ok_or (ms_file_entries shard !! index) (ParseError "Expected file index out of bounds") in
      ensure bool_decide (fh_file_hash entry = file_hash) else (ParseError "Expected file index to contain file") in
      Ok index
  | None =>
      ok_or (position (fun entry => bool_decide (fh_file_hash entry = file_hash)) (ms_file_entries shard))
        (ParseError "File not found in shard")
  end.

(** [try_fold] of [checked_add]. *)
Definition sum_entries (l : list FileDataSequenceHeader) : XetResult Z :=
  fold_outcome (fun acc e => ok_or (checked_add acc (fh_num_entries e)) (ParseError "File entry offset overflow")) 0 l.

Definition build_xorb_offsets (shard : MDBShardFile) : XetResult (gmap MerkleHash (Z * Z) * Z) :=
  fold_outcome (fun st xorb_entry =>
    let '(xorb_offsets, xorb_chunk_offset) := st in
    ensure bool_decide (xorb_offsets !! xh_xorb_hash xorb_entry = None)
      else (ParseError "duplicate xorb hash in shard reconstruction plan") in
    let num_entries := xh_num_entries xorb_entry in
    ensure (match checked_add xorb_chunk_offset num_entries with
            | Some end_ => end_ <=? len (ms_xorb_chunk_entries shard)
            | None => false
            end) else (ParseError "Xorb chunk entries exceed shard chunk table") in
    let xorb_offsets := <[xh_xorb_hash xorb_entry := (xorb_chunk_offset, num_entries)]> xorb_offsets in
    let* xorb_chunk_offset := ok_or (checked_add xorb_chunk_offset num_entries) (ParseError "Xorb chunk offset overflow") in
    Ok (xorb_offsets, xorb_chunk_offset)) (∅, 0) (ms_xorb_entries shard).

Definition build_raw_lookup (shard : MDBShardFile) : XetResult (gmap (MerkleHash * Z) MerkleHash) :=
  fold_outcome (fun m e =>
    let key := (cl_xorb_hash e, cl_chunk_index e) in
    ensure bool_decide (m !! key = None) else (ParseError "duplicate raw chunk lookup") in
    Ok (<[key := cl_chunk_hash e]> m)) ∅ (ms_chunk_lookup_entries shard).

Section Plan.
Context (shard : MDBShardFile) (xorb_offsets : gmap MerkleHash (Z * Z))
        (raw_chunk_lookup : gmap (MerkleHash * Z) MerkleHash).

(** The inner loop: one chunk of a segment. *)
Definition plan_chunk (segment : FileDataSequenceEntry) (xorb_global_start : Z)
    (st : Z * list PlannedChunk) (local_chunk_index : Z) : XetResult (Z * list PlannedChunk) :=
  let '(segment_unpacked_bytes, chunks) := st in
  let* global_chunk_index :=
    ok_or (checked_add xorb_global_start local_chunk_index) (ParseError "Global chunk index overflow") in
  let* chunk_entry :=
    ok_or (ms_xorb_chunk_entries shard !! Z.to_nat global_chunk_index) (ParseError "Global chunk index out of bounds") in
  let xorb_chunk_index := as_u32 local_chunk_index in
  let* raw_chunk_hash :=
    ok_or (raw_chunk_lookup !! (fe_xorb_hash segment, xorb_chunk_index)) (ParseError "Missing raw chunk hash") in
  let* segment_unpacked_bytes :=
    ok_or (checked_add segment_unpacked_bytes (xe_unpacked_segment_bytes chunk_entry))
      (ParseError "Segment byte total overflow") in
  Ok (segment_unpacked_bytes,
      chunks ++ [mkPlannedChunk (fe_xorb_hash segment) xorb_chunk_index (xe_chunk_byte_range_start chunk_entry)
                   (xe_unpacked_segment_bytes chunk_entry) (xe_chunk_hash chunk_entry) raw_chunk_hash]).

(** The outer loop: one segment of the file. *)
Definition plan_segment (st : list PlannedChunk * Z) (segment : FileDataSequenceEntry)
  : XetResult (list PlannedChunk * Z) :=
  let '(chunks, total_unpacked_bytes) := st in
  ensure negb (fe_chunk_index_end segment <? fe_chunk_index_start segment)
    else (ParseError "File has invalid chunk range") in
  let* '(xorb_global_start, xorb_num_entries) :=
    ok_or (xorb_offsets !! fe_xorb_hash segment) (ParseError "File references missing xorb") in
  let local_start := fe_chunk_index_start segment in
  let local_end := fe_chunk_index_end segment in
  ensure negb (xorb_num_entries <? local_end) else (ParseError "File references xorb chunk range beyond chunks") in
  let* '(segment_unpacked_bytes, chunks) :=
    fold_outcome (plan_chunk segment xorb_global_start) (0, chunks) (seqZ local_start (local_end - local_start)) in
  ensure (segment_unpacked_bytes =? fe_unpacked_segment_bytes segment)
    else (ParseError "File segment byte total mismatch") in
  let* total_unpacked_bytes :=
    ok_or (checked_add total_unpacked_bytes segment_unpacked_bytes) (ParseError "File byte total overflow") in
  Ok (chunks, total_unpacked_bytes).
End Plan.

Definition build_file_chunk_plan (shard : MDBShardFile) (file_hash : MerkleHash) (expected_file_index : option nat)
  : XetResult PlannedFile :=
  let* file_index := find_file_index shard file_hash expected_file_index in
  let* file_entry_start := sum_entries (take file_index (ms_file_entries shard)) in
  let* file_entry := (match ms_file_entries shard !! file_index with Some e => Ok e | None => Panic end) in
  let* file_entry_end :=
    ok_or (checked_add file_entry_start (fh_num_entries file_entry)) (ParseError "File entry end offset overflow") in
  ensure (file_entry_end <=? len (ms_file_data_entries shard))
    else (ParseError "File entries exceed shard file data entries") in
  let* '(xorb_offsets, _) := build_xorb_offsets shard in
  let* raw_chunk_lookup := build_raw_lookup shard in
  let* segments := slice (ms_file_data_entries shard) file_entry_start file_entry_end in
  let* '(chunks, total_unpacked_bytes) :=
    fold_outcome (plan_segment shard xorb_offsets raw_chunk_lookup) ([], 0) segments in
  Ok (mkPlannedFile file_hash file_index chunks total_unpacked_bytes).

(** ** Specification

    A parsed shard groups file segments under files and chunk entries under
    xorbs; a plan is stated in terms of these groups, without offsets. *)
Abbreviation file_groups := (list (FileDataSequenceHeader * list FileDataSequenceEntry)).
Abbreviation xorb_groups := (list (XorbChunkSequenceHeader * list XorbChunkSequenceEntry)).

Definition shard_groups (shard : MDBShardFile) (fgs : file_groups) (xgs : xorb_groups) : Prop :=
  ms_file_entries shard = map fst fgs /\ ms_file_data_entries shard = concat (map snd fgs) /\
  Forall (fun g => fh_num_entries (fst g) = len (snd g)) fgs /\
  ms_xorb_entries shard = map fst xgs /\ ms_xorb_chunk_entries shard = concat (map snd xgs) /\
  Forall (fun g => xh_num_entries (fst g) = len (snd g)) xgs.

Definition lookup_key (e : ChunkLookupEntry) : MerkleHash * Z := (cl_xorb_hash e, cl_chunk_index e).

(** Chunk [i] of the xorb with hash [x] as the shard describes it. *)
Definition planned (xgs : xorb_groups) (lookups : list ChunkLookupEntry) (x : MerkleHash) (i : Z) (c : PlannedChunk) : Prop :=
  exists xh ces ce raw, (xh, ces) ∈ xgs /\ xh_xorb_hash xh = x /\ ces !! Z.to_nat i = Some ce /\
    mkLookup raw x i ∈ lookups /\
    c = mkPlannedChunk x i (xe_chunk_byte_range_start ce) (xe_unpacked_segment_bytes ce) (xe_chunk_hash ce) raw.


Definition segment_plan (xgs : xorb_groups) (lookups : list ChunkLookupEntry) (seg : FileDataSequenceEntry)
    (cs : list PlannedChunk) : Prop :=
  fe_chunk_index_start seg <= fe_chunk_index_end seg /\
  (exists xh ces, (xh, ces) ∈ xgs /\ xh_xorb_hash xh = fe_xorb_hash seg /\ fe_chunk_index_end seg <= len ces) /\
  Forall2 (planned xgs lookups (fe_xorb_hash seg))
    (seqZ (fe_chunk_index_start seg) (fe_chunk_index_end seg - fe_chunk_index_start seg)) cs /\
  sum_by pc_unpacked_segment_bytes cs = fe_unpacked_segment_bytes seg.

(** The file the plan is for: the one at the expected index, or the first one with the hash. *)
Definition selects (fgs : file_groups) (file_hash : MerkleHash) (expected : option nat) (i : nat) : Prop :=
  (exists g, fgs !! i = Some g /\ fh_file_hash (fst g) = file_hash) /\
  match expected with
  | Some j => i = j
  | None => forall j g, (j < i)%nat -> fgs !! j = Some g -> fh_file_hash (fst g) <> file_hash
  end.

Definition plan_spec (fgs : file_groups) (xgs : xorb_groups) (lookups : list ChunkLookupEntry)
    (file_hash : MerkleHash) (expected : option nat) (plan : PlannedFile) : Prop :=
  NoDup (map (fun g => xh_xorb_hash (fst g)) xgs) /\ NoDup (map lookup_key lookups) /\
  selects fgs file_hash expected (pf_file_index plan) /\
  exists fe segs css,
    fgs !! pf_file_index plan = Some (fe, segs) /\
    Forall2 (segment_plan xgs lookups) segs css /\
    sum_by fe_unpacked_segment_bytes segs <= u64_max /\
    plan = mkPlannedFile file_hash (pf_file_index plan) (concat css) (sum_by fe_unpacked_segment_bytes segs).

(** ** Lemmas *)

Lemma position_spec {A} (p : A -> bool) l i :
  position p l = Some i <->
  (exists a, l !! i = Some a /\ p a = true) /\ forall j a, (j < i)%nat -> l !! j = Some a -> p a = false.
Proof.
  revert i. induction l as [|b l IH]; intros i; cbn [position].
  - split; [done|]. by intros [(a & Ha & _) _].
  - destruct (p b) eqn:Hb.
    + split; [intros [= <-]; (split; [by exists b|intros; lia])|]. intros [_ H]. destruct i as [|i]; [done|].
      specialize (H O b ltac:(lia) eq_refl). congruence.
    + split.
      * destruct (position p l) as [k|] eqn:Ep; [|done]. intros [= <-].
        destruct (proj1 (IH k) eq_refl) as [(a & Ha & Hpa) Hlt]. split; [by exists a|].
        intros [|j] a' Hj; cbn; [by intros [= <-]|]. apply Hlt. lia.
      * intros [(a & Ha & Hpa) Hlt]. destruct i as [|i]; cbn in Ha; [congruence|].
        rewrite (proj2 (IH i)); [done|]. split; [by exists a|].
        intros j a' Hj Ha'. apply (Hlt (S j) a'); [lia|done].
Qed.

Lemma sum_entries_groups (gs : file_groups) acc :
  Forall (fun g => fh_num_entries (fst g) = len (snd g)) gs -> acc + len (concat (map snd gs)) <= u64_max ->
  fold_outcome (fun acc e => ok_or (checked_add acc (fh_num_entries e)) (ParseError "File entry offset overflow"))
    acc (map fst gs) = Ok (acc + len (concat (map snd gs))).
Proof.
  intros W. revert acc. induction W as [|[h es] gs Wg W IH]; intros acc Hm; cbn [map concat fst snd fold_outcome] in *.
  - change (len (@nil FileDataSequenceEntry)) with 0. by rewrite Z.add_0_r.
  - rewrite len_app in *. pose proof (len_nonneg (concat (map snd gs))). rewrite Wg.
    rewrite checked_add_le by lia. cbn [ok_or]. rewrite IH by lia. f_equal. lia.
Qed.

(** The bytes range of the entries of group [i]. *)
Lemma slice_group {H E F} (gs : list (H * list E)) i h es :
  gs !! i = Some (h, es) ->
  slice (E := F) (concat (map snd gs)) (len (concat (map snd (take i gs))))
    (len (concat (map snd (take i gs))) + len es) = Ok es.
Proof.
  intros Hi. rewrite <- (take_drop_middle gs i (h, es) Hi) at 1. rewrite map_app, concat_app. cbn [map concat snd].
  apply slice_app.
Qed.

Definition offset_of (l : xorb_groups) : Z := len (concat (map snd l)).

(** The table of xorb offsets: each xorb is found at the place of its chunks. *)
Definition offsets_for (base : xorb_groups) (m : gmap MerkleHash (Z * Z)) : Prop :=
  forall x s n, m !! x = Some (s, n) <->
    exists l1 xh ces l2, base = l1 ++ (xh, ces) :: l2 /\ xh_xorb_hash xh = x /\ s = offset_of l1 /\ n = len ces.

Lemma offsets_for_insert base m xh ces :
  offsets_for base m -> m !! xh_xorb_hash xh = None ->
  offsets_for (base ++ [(xh, ces)]) (<[xh_xorb_hash xh := (offset_of base, len ces)]> m).
Proof.
  intros Hm Hn x s n. destruct (decide (xh_xorb_hash xh = x)) as [<-|Hx].
  - rewrite lookup_insert_eq. split.
    + intros [= <- <-]. by exists base, xh, ces, [].
    + intros (l1 & xh' & ces' & l2 & E & Eh & -> & ->). destruct (decide (l2 = [])) as [->|Hl2].
      * apply app_inj_tail in E as [-> [= -> ->]]. done.
      * exfalso. destruct (exists_last Hl2) as (l2' & g & ->).
        rewrite app_comm_cons, app_assoc in E. apply app_inj_tail in E as [-> <-].
        assert (m !! xh_xorb_hash xh' = Some (offset_of l1, len ces')) as Hs by (apply Hm; eauto 10).
        congruence.
  - rewrite lookup_insert_ne by done. rewrite (Hm x s n). split.
    + intros (l1 & xh' & ces' & l2 & -> & Eh & -> & ->).
      exists l1, xh', ces', (l2 ++ [(xh, ces)]). by rewrite <- app_assoc.
    + intros (l1 & xh' & ces' & l2 & E & Eh & -> & ->). destruct (decide (l2 = [])) as [->|Hl2].
      * apply app_inj_tail in E as [-> [= -> ->]]. done.
      * destruct (exists_last Hl2) as (l2' & g & ->).
        rewrite app_comm_cons, app_assoc in E. apply app_inj_tail in E as [-> <-]. eauto 10.
Qed.

Lemma offsets_for_None base m x :
  offsets_for base m -> m !! x = None <-> x ∉ map (fun g => xh_xorb_hash (fst g)) base.
Proof.
  intros Hm. split.
  - intros Hn Hin. apply list_elem_of_In, in_map_iff in Hin as ([xh ces] & <- & Hin).
    apply list_elem_of_In, list_elem_of_split in Hin as (l1 & l2 & ->).
    assert (m !! xh_xorb_hash xh = Some (offset_of l1, len ces)) by (apply Hm; eauto 10). cbn in *. congruence.
  - intros Hn. destruct (m !! x) as [[s n]|] eqn:E; [|done]. apply Hm in E as (l1 & xh & ces & l2 & -> & <- & _ & _).
    destruct Hn. rewrite map_app. set_solver.
Qed.


(** The two tables are built exactly when their keys are distinct. *)
Lemma build_xorb_offsets_loop shard all l2 : forall l1 m,
  all = l1 ++ l2 -> ms_xorb_chunk_entries shard = concat (map snd all) ->
  len (ms_xorb_chunk_entries shard) <= u64_max ->
  Forall (fun g => xh_num_entries (fst g) = len (snd g)) l2 -> offsets_for l1 m ->
  NoDup (map (fun g => xh_xorb_hash (fst g)) l1) ->
  match fold_outcome (fun st xorb_entry =>
    let '(xorb_offsets, xorb_chunk_offset) := st in
    ensure bool_decide (xorb_offsets !! xh_xorb_hash xorb_entry = None)
      else (ParseError "duplicate xorb hash in shard reconstruction plan") in
    let num_entries := xh_num_entries xorb_entry in
    ensure (match checked_add xorb_chunk_offset num_entries with
            | Some end_ => end_ <=? len (ms_xorb_chunk_entries shard)
            | None => false
            end) else (ParseError "Xorb chunk entries exceed shard chunk table") in
    let xorb_offsets := <[xh_xorb_hash xorb_entry := (xorb_chunk_offset, num_entries)]> xorb_offsets in
    let* xorb_chunk_offset := ok_or (checked_add xorb_chunk_offset num_entries) (ParseError "Xorb chunk offset overflow") in
    Ok (xorb_offsets, xorb_chunk_offset)) (m, offset_of l1) (map fst l2) with
  | Ok (m', _) => NoDup (map (fun g => xh_xorb_hash (fst g)) all) /\ offsets_for all m'
  | Err _ => ~ NoDup (map (fun g => xh_xorb_hash (fst g)) all)
  | Panic => False
  end.
Proof.
  induction l2 as [|[xh ces] l2 IH]; intros l1 m Hall Hs Hlen W Hm Hnd.
  { rewrite app_nil_r in Hall. subst all. cbn. done. }
  inversion W as [|? ? Wg W']; subst. cbn [map fst fold_outcome]. cbn [fst snd] in Wg.
  destruct (decide (m !! xh_xorb_hash xh = None)) as [Hn|Hn].
  - rewrite bool_decide_true by done. rewrite Wg.
    assert (offset_of l1 + len ces <= len (ms_xorb_chunk_entries shard)) as Hfit.
    { rewrite Hs, map_app, concat_app, len_app. cbn [map concat snd]. rewrite len_app. unfold offset_of.
      pose proof (len_nonneg (concat (map snd l2))). lia. }
    rewrite checked_add_le by lia. replace (_ <=? _) with true by lia. cbn [ok_or].
    replace (offset_of l1 + len ces) with (offset_of (l1 ++ [(xh, ces)]))
      by (unfold offset_of; rewrite map_app, concat_app, len_app; cbn; by rewrite app_nil_r).
    apply IH; [by rewrite <- app_assoc|done..|by apply offsets_for_insert|].
    rewrite map_app. apply NoDup_app. split; [done|]. split; [|by apply NoDup_singleton].
    intros x Hx Hx'. apply list_elem_of_singleton in Hx'. cbn in Hx'. subst x.
    by apply (offsets_for_None _ _ _ Hm) in Hn.
  - rewrite bool_decide_false by done. intros Hd. rewrite map_app in Hd. apply NoDup_app in Hd as (_ & Hd & _).
    apply Hn, (offsets_for_None _ _ _ Hm). intros Hin. eapply Hd; [exact Hin|]. cbn. set_solver.
Qed.

Lemma build_xorb_offsets_spec shard fgs xgs :
  shard_groups shard fgs xgs -> len (ms_xorb_chunk_entries shard) <= u64_max ->
  match build_xorb_offsets shard with
  | Ok (m, _) => NoDup (map (fun g => xh_xorb_hash (fst g)) xgs) /\ offsets_for xgs m
  | Err _ => ~ NoDup (map (fun g => xh_xorb_hash (fst g)) xgs)
  | Panic => False
  end.
Proof.
  intros (_ & _ & _ & Hx & Hc & Wx) Hlen. unfold build_xorb_offsets. rewrite Hx.
  apply (build_xorb_offsets_loop shard xgs xgs [] ∅); [done..| |constructor].
  intros x s n. rewrite lookup_empty. split; [done|]. intros (l1 & ? & ? & ? & E & _). by destruct l1.
Qed.

Lemma build_raw_lookup_loop (l : list ChunkLookupEntry) : forall m : gmap (MerkleHash * Z) MerkleHash,
  match fold_outcome (fun m e =>
    let key := (cl_xorb_hash e, cl_chunk_index e) in
    ensure bool_decide (m !! key = None) else (ParseError "duplicate raw chunk lookup") in
    Ok (<[key := cl_chunk_hash e]> m)) m l with
  | Ok m' => NoDup (map lookup_key l) /\ (forall e, e ∈ l -> m !! lookup_key e = None) /\
      forall k v, m' !! k = Some v <-> m !! k = Some v \/ exists e, e ∈ l /\ lookup_key e = k /\ cl_chunk_hash e = v
  | Err _ => ~ (NoDup (map lookup_key l) /\ forall e, e ∈ l -> m !! lookup_key e = None)
  | Panic => False
  end.
Proof.
  induction l as [|e l IH]; intros m; cbn [fold_outcome map].
  { split; [constructor|]. split; [set_solver|]. intros k v. set_solver. }
  change (cl_xorb_hash e, cl_chunk_index e) with (lookup_key e).
  destruct (decide (m !! lookup_key e = None)) as [Hn|Hn]; [rewrite bool_decide_true by done|
    rewrite bool_decide_false by done; intros [_ Hf]; apply Hn, Hf; set_solver].
  specialize (IH (<[lookup_key e := cl_chunk_hash e]> m)).
  assert ((forall e', e' ∈ l -> <[lookup_key e := cl_chunk_hash e]> m !! lookup_key e' = None) <->
    lookup_key e ∉ map lookup_key l /\ forall e', e' ∈ l -> m !! lookup_key e' = None) as Hiff.
  { split.
    - intros Hf. split.
      + intros Hin. apply list_elem_of_In, in_map_iff in Hin as (e' & Ek & Hin). apply list_elem_of_In in Hin.
        specialize (Hf e' Hin). rewrite Ek, lookup_insert_eq in Hf. done.
      + intros e' He'. specialize (Hf e' He'). by apply lookup_insert_None in Hf as [Hf _].
    - intros [Hni Hf] e' He'. apply lookup_insert_None. split; [by apply Hf|].
      intros Ek. apply Hni. rewrite Ek. by apply list_elem_of_fmap_2. }
  destruct (fold_outcome _ _ l) as [m'| |]; [|rewrite NoDup_cons; set_solver|done].
  destruct IH as (Hnd & Hf & Hm). rewrite Hiff in Hf. destruct Hf as [Hni Hf].
  split; [by apply NoDup_cons|]. split; [set_solver|]. intros k v. rewrite Hm, lookup_insert_Some. split.
  - intros [[[<- <-]|[Hk Hv]]|(e' & He' & Hk & Hv)]; [right; exists e; set_solver|by left|right; exists e'; set_solver].
  - intros [Hv|(e' & He' & <- & <-)].
    + left. right. split; [congruence|done].
    + apply elem_of_cons in He' as [->|He']; [left; by left|right; by exists e'].
Qed.

Lemma build_raw_lookup_spec shard :
  match build_raw_lookup shard with
  | Ok m => NoDup (map lookup_key (ms_chunk_lookup_entries shard)) /\
      forall x i raw, m !! (x, i) = Some raw <-> mkLookup raw x i ∈ ms_chunk_lookup_entries shard
  | Err _ => ~ NoDup (map lookup_key (ms_chunk_lookup_entries shard))
  | Panic => False
  end.
Proof.
  unfold build_raw_lookup. pose proof (build_raw_lookup_loop (ms_chunk_lookup_entries shard) ∅) as Hl.
  destruct (fold_outcome _ _ _) as [m| |]; [|intros Hn; apply Hl; split; [done|intros; apply lookup_empty]|done].
  destruct Hl as (Hnd & _ & Hm). split; [done|]. intros x i raw. rewrite Hm, lookup_empty. split.
  - intros [?|([h x' i'] & He & [= -> ->] & E)]; [done|]. cbn in E. by subst h.
  - intros He. right. by eexists.
Qed.

Lemma group_unique (xgs : xorb_groups) xh xh' ces ces' :
  NoDup (map (fun g => xh_xorb_hash (fst g)) xgs) -> (xh, ces) ∈ xgs -> (xh', ces') ∈ xgs ->
  xh_xorb_hash xh = xh_xorb_hash xh' -> xh = xh' /\ ces = ces'.
Proof.
  intros Hnd Hi Hi' E. apply list_elem_of_lookup in Hi as (i & Hi), Hi' as (j & Hj).
  assert (i = j) as ->; [|rewrite Hi in Hj; by injection Hj].
  eapply (NoDup_lookup _ i j (xh_xorb_hash xh) Hnd).
  - by rewrite list_lookup_fmap, Hi.
  - rewrite list_lookup_fmap, Hj. cbn. by rewrite E.
Qed.

Section PlanLemmas.
Context (shard : MDBShardFile) (fgs : file_groups) (xgs : xorb_groups).
Context (Hgroups : shard_groups shard fgs xgs) (Hnd : NoDup (map (fun g => xh_xorb_hash (fst g)) xgs))
        (Hwf : Forall xorb_entry_wf (ms_xorb_chunk_entries shard)) (Hlen : len (ms_xorb_chunk_entries shard) <= u64_max).
Context (offsets : gmap MerkleHash (Z * Z)) (Hoff : offsets_for xgs offsets).
Context (raws : gmap (MerkleHash * Z) MerkleHash)
        (Hraws : forall x i raw, raws !! (x, i) = Some raw <-> mkLookup raw x i ∈ ms_chunk_lookup_entries shard).
Abbreviation lookups := (ms_chunk_lookup_entries shard).

(** A xorb found at [s] is a group of chunks at place [s] of the chunk table. *)
Lemma offsets_group x s n :
  offsets !! x = Some (s, n) ->
  exists xh ces, (xh, ces) ∈ xgs /\ xh_xorb_hash xh = x /\ n = len ces /\ 0 <= s /\
    s + n <= len (ms_xorb_chunk_entries shard) /\
    Forall xorb_entry_wf ces /\
    forall i, 0 <= i < n -> ms_xorb_chunk_entries shard !! Z.to_nat (s + i) = ces !! Z.to_nat i.
Proof.
  intros (l1 & xh & ces & l2 & Exg & Ex & -> & ->)%Hoff. exists xh, ces.
  destruct Hgroups as (_ & _ & _ & _ & Hce & _).
  assert (ms_xorb_chunk_entries shard = concat (map snd l1) ++ ces ++ concat (map snd l2)) as Es
    by (rewrite Hce, Exg, map_app, concat_app; done).
  split; [rewrite Exg; set_solver|]. split; [done|]. split; [done|]. rewrite Es in Hwf |- *.
  apply Forall_app in Hwf as [_ [Hw _]%Forall_app]. unfold offset_of, len. rewrite !length_app.
  split; [lia|]. split; [lia|]. split; [done|]. intros i Hi.
  rewrite lookup_app_r by lia.
  replace (Z.to_nat (Z.of_nat (length (concat (map snd l1))) + i) - length (concat (map snd l1)))%nat with (Z.to_nat i) by lia.
  apply lookup_app_l. lia.
Qed.

Lemma planned_iff xh ces i c :
  (xh, ces) ∈ xgs ->
  planned xgs lookups (xh_xorb_hash xh) i c <-> exists ce raw, ces !! Z.to_nat i = Some ce /\
    raws !! (xh_xorb_hash xh, i) = Some raw /\
    c = mkPlannedChunk (xh_xorb_hash xh) i (xe_chunk_byte_range_start ce) (xe_unpacked_segment_bytes ce) (xe_chunk_hash ce) raw.
Proof.
  intros Hx. split.
  - intros (xh' & ces' & ce & raw & Hin & Ex' & Hc & Hr & ->).
    destruct (group_unique xgs xh xh' ces ces' Hnd) as [<- <-]; [done..|]. exists ce, raw. by rewrite Hraws.
  - intros (ce & raw & Hc & Hr & ->). exists xh, ces, ce, raw. by rewrite <- Hraws.
Qed.

(** One chunk. *)
Lemma plan_chunk_spec seg s n acc cs0 i :
  offsets !! fe_xorb_hash seg = Some (s, n) -> 0 <= i < n -> in_u32 i -> 0 <= acc <= u64_max ->
  match plan_chunk shard raws seg s (acc, cs0) i with
  | Ok (acc', cs') => exists c, (forall c', planned xgs lookups (fe_xorb_hash seg) i c' <-> c' = c) /\
      0 <= pc_unpacked_segment_bytes c /\ acc' = acc + pc_unpacked_segment_bytes c /\ acc' <= u64_max /\ cs' = cs0 ++ [c]
  | Err _ => forall c, planned xgs lookups (fe_xorb_hash seg) i c -> u64_max < acc + pc_unpacked_segment_bytes c
  | Panic => False
  end.
Proof.
  intros Ho Hi Hu Hacc. destruct (offsets_group _ _ _ Ho) as (xh & ces & Hin & Ex & -> & Hs & Hfit & Hw & Hl).
  unfold plan_chunk. unfold in_u32 in Hu. rewrite <- Ex.
  rewrite checked_add_le by lia. cbn [ok_or]. rewrite Hl by lia.
  destruct (ces !! Z.to_nat i) as [ce|] eqn:Ec; [|apply lookup_ge_None in Ec; unfold len in Hi; lia]. cbn [ok_or].
  replace (as_u32 i) with i by (unfold as_u32; rewrite Z.mod_small; lia).
  assert (xorb_entry_wf ce) as (_ & _ & Hb & _) by by eapply Forall_lookup_1.
  unfold in_u32 in Hb.
  destruct (raws !! _) as [raw|] eqn:Er; cbn [ok_or];
    [|intros c (? & ? & _ & ? & _)%(planned_iff _ _ _ _ Hin); congruence].
  unfold checked_add. destruct (Z.leb_spec (acc + xe_unpacked_segment_bytes ce) u64_max); cbn [ok_or].
  - exists (mkPlannedChunk (xh_xorb_hash xh) i (xe_chunk_byte_range_start ce) (xe_unpacked_segment_bytes ce) (xe_chunk_hash ce) raw).
    split; [|cbn [pc_unpacked_segment_bytes]; split; [lia|done]].
    intros c'. rewrite (planned_iff _ _ _ _ Hin). split; [|intros ->; by eexists _, _].
    intros (ce' & raw' & Hc' & Hr' & ->). congruence.
  - intros c (ce' & raw' & Hc' & _ & ->)%(planned_iff _ _ _ _ Hin). cbn. congruence.
Qed.

Lemma planned_ranges x i c :
  planned xgs lookups x i c -> 0 <= pc_chunk_byte_range_start c /\ 0 <= pc_unpacked_segment_bytes c.
Proof.
  intros (xh & ces & ce & raw & Hin & _ & Hc & _ & ->). cbn.
  destruct Hgroups as (_ & _ & _ & _ & Hce & _). rewrite Hce in Hwf.
  apply list_elem_of_split in Hin as (l1 & l2 & Exg). rewrite Exg, map_app, concat_app in Hwf. cbn in Hwf.
  apply Forall_app in Hwf as [_ [Hw _]%Forall_app].
  eapply Forall_lookup_1 in Hw as (_ & Hs & Hb & _); [|done]. clear -Hs Hb. unfold in_u32 in *. lia.
Qed.

Lemma sum_planned_nonneg x is_ cs :
  Forall2 (planned xgs lookups x) is_ cs -> 0 <= sum_by pc_unpacked_segment_bytes cs.
Proof. induction 1 as [|i c is_ cs Hp]; cbn; [lia|]. apply planned_ranges in Hp. unfold sum_by in *. lia. Qed.

(** The chunks of one segment. *)
Lemma plan_chunks_spec seg s n is_ : forall acc cs0,
  offsets !! fe_xorb_hash seg = Some (s, n) -> Forall (fun i => 0 <= i < n /\ in_u32 i) is_ -> 0 <= acc <= u64_max ->
  match fold_outcome (plan_chunk shard raws seg s) (acc, cs0) is_ with
  | Ok (acc', cs') => exists cs, (forall cs', Forall2 (planned xgs lookups (fe_xorb_hash seg)) is_ cs' <-> cs' = cs) /\
      acc' = acc + sum_by pc_unpacked_segment_bytes cs /\ cs' = cs0 ++ cs
  | Err _ => forall cs, Forall2 (planned xgs lookups (fe_xorb_hash seg)) is_ cs ->
      u64_max < acc + sum_by pc_unpacked_segment_bytes cs
  | Panic => False
  end.
Proof.
  induction is_ as [|i is_ IH]; intros acc cs0 Ho Hi Hacc; cbn [fold_outcome].
  - exists []. cbn. rewrite app_nil_r, Z.add_0_r. split; [|done].
    intros cs'. split; [by intros ->%Forall2_nil_inv_l|intros ->; constructor].
  - apply Forall_cons in Hi as [[Hi Hu] His]. pose proof (plan_chunk_spec seg s n acc cs0 i Ho Hi Hu Hacc) as Hc.
    destruct (plan_chunk _ _ _ _ _ _) as [[acc1 cs1]| |]; [| |done].
    + destruct Hc as (c & Hp & Hb & -> & Hm & ->).
      specialize (IH (acc + pc_unpacked_segment_bytes c) (cs0 ++ [c]) Ho His ltac:(lia)).
      destruct (fold_outcome _ _ _) as [[acc' cs']| |]; [| |done].
      * destruct IH as (cs & Hcs & -> & ->). exists (c :: cs). cbn. rewrite <- app_assoc. unfold sum_by. split; [|split; [lia|done]].
        intros cs'. split.
        -- intros (c' & cs1 & ->%Hp & ->%Hcs & ->)%Forall2_cons_inv_l. done.
        -- intros ->. constructor; [by apply Hp|by apply Hcs].
      * intros cs (c' & cs1 & ->%Hp & Hcs & ->)%Forall2_cons_inv_l. apply IH in Hcs. unfold sum_by in *. cbn. lia.
    + intros cs (c' & cs1 & Hp & Hcs & ->)%Forall2_cons_inv_l. apply Hc in Hp. apply sum_planned_nonneg in Hcs.
      unfold sum_by in *. cbn. lia.
Qed.

Lemma plan_segment_spec seg chunks total :
  file_entry_wf seg -> 0 <= total <= u64_max ->
  match plan_segment shard offsets raws (chunks, total) seg with
  | Ok (chunks', total') => exists cs, (forall cs', segment_plan xgs lookups seg cs' <-> cs' = cs) /\
      total' = total + fe_unpacked_segment_bytes seg /\ total' <= u64_max /\ chunks' = chunks ++ cs
  | Err _ => forall cs, segment_plan xgs lookups seg cs -> u64_max < total + fe_unpacked_segment_bytes seg
  | Panic => False
  end.
Proof.
  intros (_ & _ & Hb & Hs & He) Ht. unfold plan_segment, segment_plan. unfold in_u32 in *.
  destruct (Z.ltb_spec (fe_chunk_index_end seg) (fe_chunk_index_start seg)); cbn [negb]; [intros cs (? & _); lia|].
  destruct (offsets !! fe_xorb_hash seg) as [[s n]|] eqn:Eo; cbn [ok_or].
  2: { intros cs (_ & (xh & ces & Hin & Ex & _) & _). exfalso.
       apply (offsets_for_None _ _ _ Hoff) in Eo. apply Eo. rewrite <- Ex.
       apply elem_of_map. by exists (xh, ces). }
  destruct (offsets_group _ _ _ Eo) as (xh & ces & Hin & Ex & -> & _).
  destruct (Z.ltb_spec (len ces) (fe_chunk_index_end seg)); cbn [negb].
  { intros cs (_ & (xh' & ces' & Hin' & Ex' & ?) & _).
    destruct (group_unique xgs xh xh' ces ces' Hnd) as [<- <-]; [done..|congruence|lia]. }
  pose proof (plan_chunks_spec seg s (len ces) (seqZ (fe_chunk_index_start seg) (fe_chunk_index_end seg - fe_chunk_index_start seg))
    0 chunks Eo) as Hc.
  lapply Hc; [clear Hc; intros Hc|apply Forall_forall; intros i Hi%elem_of_seqZ; unfold in_u32; lia].
  lapply Hc; [clear Hc; intros Hc|unfold u64_max; lia].
  destruct (fold_outcome _ _ _) as [[acc cs0]| |]; [| |done].
  - destruct Hc as (cs & Hcs & -> & ->). rewrite Z.add_0_l.
    destruct (Z.eqb_spec (sum_by pc_unpacked_segment_bytes cs) (fe_unpacked_segment_bytes seg)) as [Es|Hne];
      [|intros cs' (_ & _ & ->%Hcs & ?); done]. rewrite Es.
    unfold checked_add. destruct (Z.leb_spec (total + fe_unpacked_segment_bytes seg) u64_max); cbn [ok_or]; [|lia].
    exists cs. split; [|done]. intros cs'. split; [by intros (_ & _ & ->%Hcs & _)|intros ->].
    split; [done|]. split; [by exists xh, ces; rewrite Ex|]. split; [by apply Hcs|done].
  - intros cs' (_ & _ & Hcs & Hsum). apply Hc in Hcs. unfold u64_max in *. lia.
Qed.

Lemma plan_segments_spec segs : forall chunks total,
  Forall file_entry_wf segs -> 0 <= total <= u64_max ->
  match fold_outcome (plan_segment shard offsets raws) (chunks, total) segs with
  | Ok (chunks', total') => exists css, (forall css', Forall2 (segment_plan xgs lookups) segs css' <-> css' = css) /\
      total' = total + sum_by fe_unpacked_segment_bytes segs /\ total' <= u64_max /\ chunks' = chunks ++ concat css
  | Err _ => forall css, Forall2 (segment_plan xgs lookups) segs css ->
      u64_max < total + sum_by fe_unpacked_segment_bytes segs
  | Panic => False
  end.
Proof.
  induction segs as [|seg segs IH]; intros chunks total Hw Ht; cbn [fold_outcome].
  - exists []. cbn. rewrite app_nil_r, Z.add_0_r. split; [|split; [done|split; [lia|done]]].
    intros css'. split; [by intros ->%Forall2_nil_inv_l|intros ->; constructor].
  - apply Forall_cons in Hw as [Hw Hws]. pose proof (plan_segment_spec seg chunks total Hw Ht) as Hc.
    pose proof Hw as (_ & _ & Hb & _). unfold in_u32 in Hb. unfold sum_by. cbn [foldr].
    destruct (plan_segment _ _ _ _ _) as [[chunks1 total1]| |]; [| |done].
    + destruct Hc as (cs & Hp & -> & Hm & ->).
      specialize (IH (chunks ++ cs) (total + fe_unpacked_segment_bytes seg) Hws ltac:(lia)). fold (sum_by fe_unpacked_segment_bytes segs).
      destruct (fold_outcome _ _ _) as [[chunks' total']| |]; [| |done].
      * destruct IH as (css & Hcss & -> & ? & ->). exists (cs :: css). cbn [concat]. rewrite <- app_assoc.
        split; [|split; [lia|done]]. intros css'. split.
        -- intros (c' & cs1 & ->%Hp & ->%Hcss & ->)%Forall2_cons_inv_l. done.
        -- intros ->. constructor; [by apply Hp|by apply Hcss].
      * intros css (c' & cs1 & ->%Hp & Hcss & ->)%Forall2_cons_inv_l. apply IH in Hcss. lia.
    + intros css (c' & cs1 & Hp & _ & ->)%Forall2_cons_inv_l. apply Hc in Hp.
      assert (0 <= foldr (fun a acc => fe_unpacked_segment_bytes a + acc) 0 segs); [|lia].
      clear -Hws. induction Hws as [|e es (_ & _ & Hb & _)]; cbn; [lia|]. unfold in_u32 in Hb. lia.
Qed.
End PlanLemmas.

Lemma find_file_index_spec shard (fgs : file_groups) file_hash expected :
  ms_file_entries shard = map fst fgs ->
  match find_file_index shard file_hash expected with
  | Ok i => forall i', selects fgs file_hash expected i' <-> i' = i
  | Err _ => forall i, ~ selects fgs file_hash expected i
  | Panic => False
  end.
Proof.
  intros E. unfold find_file_index, selects. rewrite E. destruct expected as [j|].
  - rewrite list_lookup_fmap. destruct (fgs !! j) as [[fe segs]|] eqn:Ej; cbn [ok_or fmap option_fmap option_map fst].
    + destruct (decide (fh_file_hash fe = file_hash)) as [Hh|Hh];
        [rewrite bool_decide_true by done|rewrite bool_decide_false by done].
      * intros i'. split; [by intros [_ ->]|intros ->]. split; [by exists (fe, segs)|done].
      * intros i ((g & Hg & ?) & ->). rewrite Ej in Hg. by injection Hg as <-.
    + intros i ((g & Hg & _) & ->). congruence.
  - assert (forall i, position (fun entry => bool_decide (fh_file_hash entry = file_hash)) (map fst fgs) = Some i <->
      (exists g, fgs !! i = Some g /\ fh_file_hash (fst g) = file_hash) /\
      (forall j g, (j < i)%nat -> fgs !! j = Some g -> fh_file_hash (fst g) <> file_hash)) as Hp.
    { intros i. rewrite position_spec. f_equiv.
      - split.
        + intros (h & Hh & Hd). rewrite list_lookup_fmap in Hh. destruct (fgs !! i) as [g|]; [|done].
          injection Hh as <-. exists g. by apply bool_decide_eq_true in Hd.
        + intros (g & Hg & Hh). exists (fst g). rewrite list_lookup_fmap, Hg. by rewrite bool_decide_true.
      - split.
        + intros Hf j g Hj Hg. specialize (Hf j (fst g) Hj). rewrite list_lookup_fmap, Hg in Hf.
          by apply bool_decide_eq_false in Hf.
        + intros Hf j h Hj Hh. rewrite list_lookup_fmap in Hh. destruct (fgs !! j) as [g|] eqn:Hg; [|done].
          injection Hh as <-. apply bool_decide_eq_false. by eapply Hf. }
    destruct (position _ _) as [i|]; cbn [ok_or].
    + intros i'. rewrite <- Hp. naive_solver.
    + intros i Hi%Hp. done.
Qed.

Lemma file_segments shard (fgs : file_groups) i fe segs :
  ms_file_entries shard = map fst fgs -> ms_file_data_entries shard = concat (map snd fgs) ->
  Forall (fun g => fh_num_entries (fst g) = len (snd g)) fgs -> len (ms_file_data_entries shard) <= u64_max ->
  fgs !! i = Some (fe, segs) ->
  exists start, sum_entries (take i (ms_file_entries shard)) = Ok start /\ ms_file_entries shard !! i = Some fe /\
    checked_add start (fh_num_entries fe) = Some (start + len segs) /\
    start + len segs <= len (ms_file_data_entries shard) /\
    slice (E := XetError) (ms_file_data_entries shard) start (start + len segs) = Ok segs.
Proof.
  intros Ef Ed W Hl Hi. exists (len (concat (map snd (take i fgs)))).
  assert (fh_num_entries fe = len segs) as Hn by by apply (Forall_lookup_1 _ fgs i (fe, segs) W).
  assert (len (ms_file_data_entries shard) =
    len (concat (map snd (take i fgs))) + len segs + len (concat (map snd (drop (S i) fgs)))) as Es.
  { rewrite Ed. rewrite <- (take_drop_middle fgs i (fe, segs) Hi) at 1. rewrite map_app, concat_app. cbn [map concat snd].
    rewrite !len_app. lia. }
  pose proof (len_nonneg (concat (map snd (drop (S i) fgs)))). pose proof (len_nonneg segs).
  split; [|split; [by rewrite Ef, list_lookup_fmap, Hi|]].
  - unfold sum_entries. rewrite Ef, firstn_map, sum_entries_groups; [done|by apply Forall_take|lia].
  - rewrite Hn. split; [apply checked_add_le; lia|]. split; [lia|]. rewrite Ed. by apply (slice_group _ _ fe).
Qed.

Lemma file_entries_wf shard (fgs : file_groups) i fe segs :
  ms_file_data_entries shard = concat (map snd fgs) -> Forall file_entry_wf (ms_file_data_entries shard) ->
  fgs !! i = Some (fe, segs) -> Forall file_entry_wf segs.
Proof.
  intros -> W Hi. rewrite <- (take_drop_middle fgs i (fe, segs) Hi), map_app, concat_app in W.
  cbn [map concat snd] in W. by apply Forall_app in W as [_ [W _]%Forall_app].
Qed.

Lemma plan_iff shard n fgs xgs file_hash expected :
  shard_wf n shard -> n < 2 ^ 64 -> shard_groups shard fgs xgs ->
  build_file_chunk_plan shard file_hash expected <> Panic /\
  forall plan, build_file_chunk_plan shard file_hash expected = Ok plan <->
    plan_spec fgs xgs (ms_chunk_lookup_entries shard) file_hash expected plan.
Proof.
  intros W Hn Hg. destruct W as (_ & _ & _ & _ & _ & Wfe & _ & Wxe & _ & _ & _ & _ & _ & _ & _ & _ & _ & Hsize).
  assert (len (ms_xorb_chunk_entries shard) <= u64_max /\ len (ms_file_data_entries shard) <= u64_max) as [Hlx Hlf].
  { unfold u64_max. pose proof (len_nonneg (ms_file_entries shard)). pose proof (len_nonneg (ms_file_data_entries shard)).
    pose proof (len_nonneg (ms_xorb_entries shard)). pose proof (len_nonneg (ms_xorb_chunk_entries shard)).
    pose proof (len_nonneg (ms_chunk_lookup_entries shard)). lia. }
  pose proof Hg as (Ef & Efe & Wf & _). unfold build_file_chunk_plan, plan_spec.
  pose proof (find_file_index_spec shard fgs file_hash expected Ef) as Hi.
  destruct (find_file_index _ _ _) as [i| |]; [|split; [done|]; intros plan; split; [done|intros (_ & _ & []%Hi & _)]|done].
  destruct (proj2 (Hi i) eq_refl) as [([fe segs] & Hgi & Hh) _].
  destruct (file_segments shard fgs i fe segs Ef Efe Wf Hlf Hgi) as (start & -> & -> & Hend & Hle & Hsl).
  rewrite Hend. cbn [ok_or]. rewrite (proj2 (Z.leb_le _ _) Hle).
  pose proof (build_xorb_offsets_spec shard fgs xgs Hg Hlx) as Ho.
  destruct (build_xorb_offsets shard) as [[offsets end_]| |]; [|split; [done|]; intros plan; split; [done|by intros [? _]]|done].
  destruct Ho as [Hnd Hoff]. pose proof (build_raw_lookup_spec shard) as Hr.
  destruct (build_raw_lookup shard) as [raws| |]; [|split; [done|]; intros plan; split; [done|by intros (_ & ? & _)]|done].
  destruct Hr as [Hnr Hraws]. rewrite Hsl.
  pose proof (plan_segments_spec shard fgs xgs Hg Hnd Wxe Hlx offsets Hoff raws Hraws segs [] 0
    (file_entries_wf _ _ _ _ _ Efe Wfe Hgi) ltac:(unfold u64_max; lia)) as Hp.
  destruct (fold_outcome _ _ _) as [[chunks total]| |]; [| |done].
  - destruct Hp as (css & Hcss & -> & Hm & ->). split; [done|]. intros plan. cbn [app]. rewrite Z.add_0_l in *. split.
    + intros [= <-]. cbn [pf_file_index]. split; [done|]. split; [done|]. split; [by apply Hi|].
      exists fe, segs, css. split; [done|]. split; [by apply Hcss|done].
    + intros (_ & _ & Hs & fe' & segs' & css' & Hg' & Hc & _ & Ep). apply Hi in Hs. rewrite Hs in *.
      rewrite Hgi in Hg'. injection Hg' as <- <-. apply Hcss in Hc. subst css'. by rewrite Ep.
  - split; [done|]. intros plan. split; [done|]. intros (_ & _ & Hs & fe' & segs' & css' & Hg' & Hc & Hm & _).
    apply Hi in Hs. rewrite Hs, Hgi in Hg'. injection Hg' as <- <-. apply Hp in Hc. lia.
Qed.

(** ** Properties *)

(** C30: For a parsed shard, a reconstruction plan is built exactly when the shard
    determines one: the xorb table and the chunk lookup have no duplicates, the
    file (the expected one, or the first one with the hash) has segments whose
    chunk ranges lie inside their xorbs, each of these chunks has a raw hash,
    and the sizes of the chunks of a segment add up to what it declares.  The
    plan is then the chunks of the segments in order, with their place, size
    and hashes.  The planner never panics. *)
Theorem build_file_chunk_plan_spec shard n fgs xgs file_hash expected :
  shard_wf n shard -> n < 2 ^ 64 -> shard_groups shard fgs xgs ->
  build_file_chunk_plan shard file_hash expected <> Panic /\
  forall plan, build_file_chunk_plan shard file_hash expected = Ok plan <->
    plan_spec fgs xgs (ms_chunk_lookup_entries shard) file_hash expected plan.
Proof. apply plan_iff. Qed.

(** ** Witnesses *)
Definition sample_plan_shard : XetResult MDBShardFile := @parse Model.blake3 Model.hex sample_shard.
Definition sample_fgs : file_groups := map file_group (sb_files sample_builder).
Definition sample_xgs : xorb_groups := map xorb_group (sb_xorbs sample_builder).
Definition sample_plan : PlannedFile :=
  mkPlannedFile (mkHash 6 0 0 0) 0
    [mkPlannedChunk sample_xorb_hash 0 0 100 (mkHash 2 0 0 0) (mkHash 4 0 0 0);
     mkPlannedChunk sample_xorb_hash 1 60 50 (mkHash 3 0 0 0) (mkHash 5 0 0 0)] 150.

Lemma build_file_chunk_plan_spec_witness :
  exists s, sample_plan_shard = Ok s /\ build_file_chunk_plan s (mkHash 6 0 0 0) None = Ok sample_plan /\
    plan_spec sample_fgs sample_xgs (ms_chunk_lookup_entries s) (mkHash 6 0 0 0) None sample_plan.
Proof.
  destruct (@build_spec Model.blake3 Model.hex sample_builder) as (buf & Hb & Hl & Hp).
  { apply built_inv, sample_built. }
  { split; [repeat constructor; vm_compute; reflexivity|]. split; [repeat constructor; vm_compute; reflexivity|].
    vm_compute. reflexivity. }
  unfold sample_plan_shard, sample_shard. rewrite Hb, Hp. eexists. split; [reflexivity|].
  match goal with |- build_file_chunk_plan ?s _ _ = _ /\ _ =>
    assert (build_file_chunk_plan s (mkHash 6 0 0 0) None = Ok sample_plan) as Hplan by (vm_compute; reflexivity);
    split; [exact Hplan|];
    refine (proj1 (proj2 (build_file_chunk_plan_spec s 632 sample_fgs sample_xgs (mkHash 6 0 0 0) None _ _ _) sample_plan) Hplan)
  end.
  - change 632 with (total_size sample_builder). rewrite <- Hl.
    exact (proj1 (proj2 (parse_reader_spec buf _ ltac:(rewrite Hl; vm_compute; reflexivity)) _ Hp)).
  - lia.
  - split; [reflexivity|]. split; [reflexivity|]. split; [repeat constructor|].
    split; [reflexivity|]. split; [reflexivity|]. repeat constructor.
Defined.
