(* ===== verification/Text.v ===== *)
(** * Strings

    A Rust [str] is the [string] of its UTF-8 bytes.  The methods of [str] the
    program calls, as functions on such strings, with their lemmas. *)
From S2P Require Import Prelude Crates.
From Stdlib Require Import Ascii String.

Local Open Scope string_scope.

(** [str::strip_prefix]. *)
Fixpoint strip_prefix (p s : string) : option string :=
  match p, s with
  | EmptyString, _ => Some s
  | String a p', String b s' => if Ascii.eqb a b then strip_prefix p' s' else None
  | String _ _, EmptyString => None
  end.

Definition starts_with (p s : string) : bool := match strip_prefix p s with Some _ => true | None => false end.

(** [str::contains(char)] for an ASCII character. *)
Fixpoint contains_char (c : ascii) (s : string) : bool :=
  match s with
  | EmptyString => false
  | String a s' => Ascii.eqb a c || contains_char c s'
  end.

(** [str::split] on the ASCII characters that satisfy [sep]: at least one piece. *)
Fixpoint split_where (sep : ascii -> bool) (s : string) : list string :=
  match s with
  | EmptyString => [EmptyString]
  | String a s' =>
      if sep a then EmptyString :: split_where sep s'
      else match split_where sep s' with
           | piece :: rest => String a piece :: rest
           | [] => [String a EmptyString]
           end
  end.
Definition split_on (c : ascii) : string -> list string := split_where (Ascii.eqb c).

(** [str::split_once(char)] for an ASCII character. *)
Fixpoint split_once (c : ascii) (s : string) : option (string * string) :=
  match s with
  | EmptyString => None
  | String a s' =>
      if Ascii.eqb a c then Some (EmptyString, s')
      else match split_once c s' with
           | Some (l, r) => Some (String a l, r)
           | None => None
           end
  end.

(** The number of bytes of the whitespace character a string starts with, zero
    if it starts with none: [char::is_whitespace] on the UTF-8 encoding. *)
Definition ws_width (s : string) : nat :=
  match s with
  | EmptyString => 0
  | String a s1 =>
      let n := nat_of_ascii a in
      if ((9 <=? n) && (n <=? 13) || (n =? 32))%nat then 1
      else
        match s1 with
        | EmptyString => 0
        | String b s2 =>
            let m := nat_of_ascii b in
            if (n =? 194)%nat then (if ((m =? 133) || (m =? 160))%nat then 2 else 0)
            else
              match s2 with
              | EmptyString => 0
              | String c _ =>
                  let k := nat_of_ascii c in
                  if ((n =? 225) && (m =? 154) && (k =? 128))%nat then 3
                  else if ((n =? 226) && (m =? 128) && ((128 <=? k) && (k <=? 138) || (k =? 168) || (k =? 169) || (k =? 175)))%nat then 3
                  else if ((n =? 226) && (m =? 129) && (k =? 159))%nat then 3
                  else if ((n =? 227) && (m =? 128) && (k =? 128))%nat then 3
                  else 0
              end
        end
  end.

Definition flush (word : string) : list string := if (word =? "")%string then [] else [word].

(** [str::split_whitespace]; [skip] bytes of the current character are left. *)
Fixpoint words_from (skip : nat) (word s : string) : list string :=
  match s with
  | EmptyString => flush word
  | String a s' =>
      match skip with
      | S k => words_from k word s'
      | O => match ws_width s with
             | O => words_from O (word +:+ String a EmptyString) s'
             | S k => flush word ++ words_from k EmptyString s'
             end
      end
  end.
Definition split_whitespace (s : string) : list string := words_from 0 EmptyString s.

(** [str::trim().is_empty()]: only whitespace. *)
Definition is_blank (s : string) : bool := match split_whitespace s with [] => true | _ => false end.

(** [char::is_ascii_hexdigit] on every character. *)
Definition is_hexdigit (a : ascii) : bool := is_lower_hex_digit a || let n := nat_of_ascii a in (65 <=? n)%nat && (n <=? 70)%nat.
Definition all_hexdigits (s : string) : bool := string_forallb is_hexdigit s.

(** [str::trim]; [skip] bytes of a whitespace character are left. *)
Fixpoint trim_start_from (skip : nat) (s : string) : string :=
  match s with
  | EmptyString => EmptyString
  | String _ rest =>
      match skip with
      | S skip => trim_start_from skip rest
      | O => match ws_width s with O => s | S width => trim_start_from width rest end
      end
  end.
Fixpoint trim_end (s : string) : string :=
  match s with
  | EmptyString => EmptyString
  | String a rest => if is_blank s then EmptyString else String a (trim_end rest)
  end.
Definition trim (s : string) : string := trim_end (trim_start_from 0 s).

(** [String::from_utf8]: well-formed UTF-8. *)
Definition between (lo hi : nat) (b : Byte.byte) : bool :=
  let n := N.to_nat (Byte.to_N b) in (lo <=? n)%nat && (n <=? hi)%nat.
Definition cont : Byte.byte -> bool := between 128 191.
Fixpoint utf8_valid (bs : list Byte.byte) : bool :=
  match bs with
  | [] => true
  | b :: r =>
      if between 0 127 b then utf8_valid r
      else
        match r with
        | [] => false
        | c :: r =>
            if between 194 223 b then cont c && utf8_valid r
            else
              match r with
              | [] => false
              | d :: r =>
                  if between 224 239 b then
                    between (if between 224 224 b then 160 else 128) (if between 237 237 b then 159 else 191) c &&
                    cont d && utf8_valid r
                  else
                    match r with
                    | [] => false
                    | e :: r =>
                        between 240 244 b &&
                        between (if between 240 240 b then 144 else 128) (if between 244 244 b then 143 else 191) c &&
                        cont d && cont e && utf8_valid r
                    end
              end
        end
  end.
Definition from_utf8 (bs : list Byte.byte) : option string :=
  if utf8_valid bs then Some (String.string_of_list_byte bs) else None.

(** [to_lowercase], which matters on ASCII letters only where the code uses it. *)
Definition ascii_to_lower (a : ascii) : ascii :=
  let n := nat_of_ascii a in
  if (65 <=? n)%nat && (n <=? 90)%nat then ascii_of_nat (n + 32) else a.
Fixpoint string_to_lower (s : string) : string :=
  match s with EmptyString => EmptyString | String a s => String (ascii_to_lower a) (string_to_lower s) end.

(** [trim_end_matches('/')], [trim_start_matches('/')] and [trim_matches('/')]. *)
Fixpoint trim_end_slashes (s : string) : string :=
  match s with
  | EmptyString => EmptyString
  | String a s => let s := trim_end_slashes s in if (s =? "")%string && Ascii.eqb a "/"%char then EmptyString else String a s
  end.
Fixpoint trim_start_slashes (s : string) : string :=
  match s with
  | String a r => if Ascii.eqb a "/"%char then trim_start_slashes r else s
  | EmptyString => EmptyString
  end.
Definition trim_slashes (s : string) : string := trim_end_slashes (trim_start_slashes s).

(** ** Lemmas *)

Lemma strip_prefix_Some p s r : strip_prefix p s = Some r <-> s = p +:+ r.
Proof.
  revert s. induction p as [|a p IH]; intros s; cbn [strip_prefix]; [split; [by intros [= ->]|by intros ->]|].
  destruct s as [|b s]; [done|]. destruct (Ascii.eqb_spec a b) as [->|Hn].
  - rewrite IH. split; [by intros ->|by intros [= ->]].
  - split; [done|]. by intros [= ->].
Qed.

Lemma strip_prefix_app p r : strip_prefix p (p +:+ r) = Some r.
Proof. by apply strip_prefix_Some. Qed.

Lemma split_where_nonempty sep s : split_where sep s <> [].
Proof. destruct s as [|a s]; [done|]. cbn. destruct (sep a); [done|]. by destruct (split_where sep s). Qed.

Lemma split_on_plain c s : contains_char c s = false -> split_on c s = [s].
Proof.
  unfold split_on. induction s as [|a s IH]; [done|]. cbn [contains_char split_where].
  rewrite orb_false_iff, Ascii.eqb_sym. intros [-> H]. by rewrite (IH H).
Qed.

Lemma split_on_app c s r : contains_char c s = false -> split_on c (s +:+ String c r) = s :: split_on c r.
Proof.
  unfold split_on. induction s as [|a s IH]; cbn [contains_char split_where String.app append].
  - intros _. change ("" +:+ String c r) with (String c r). cbn [split_where]. by rewrite Ascii.eqb_refl.
  - rewrite orb_false_iff, Ascii.eqb_sym. intros [Ha H].
    change (String a s +:+ String c r) with (String a (s +:+ String c r)). cbn [split_where]. rewrite Ha. by rewrite (IH H).
Qed.

(** Splitting and joining. *)
Fixpoint join (c : ascii) (l : list string) : string :=
  match l with
  | [] => EmptyString
  | [s] => s
  | s :: rest => s +:+ String c (join c rest)
  end.

Lemma join_split c s : join c (split_on c s) = s.
Proof.
  unfold split_on. induction s as [|a s IH]; [done|]. cbn [split_where].
  pose proof (split_where_nonempty (Ascii.eqb c) s). destruct (Ascii.eqb_spec c a) as [<-|].
  - destruct (split_where _ s) as [|p rest]; [done|]. cbn [join] in *. by rewrite IH.
  - destruct (split_where _ s) as [|p rest]; [done|]. rewrite <- IH. by destruct rest.
Qed.

Lemma split_on_pieces c s : Forall (fun p => contains_char c p = false) (split_on c s).
Proof.
  unfold split_on. induction s as [|a s IH]; cbn [split_where]; [by repeat constructor|].
  destruct (Ascii.eqb_spec c a) as [<-|Hn]; [by constructor|].
  destruct (split_where _ s) as [|p rest]; [constructor; [|done]; cbn; by destruct (Ascii.eqb_spec a c)|].
  apply Forall_cons in IH as [Hp Hr]. constructor; [|done]. cbn. rewrite Hp. destruct (Ascii.eqb_spec a c); [congruence|done].
Qed.

Lemma split_on_three c s x y z :
  split_on c s = [x; y; z] <->
  s = x +:+ String c (y +:+ String c z) /\
  contains_char c x = false /\ contains_char c y = false /\ contains_char c z = false.
Proof.
  split.
  - intros E. pose proof (join_split c s) as Hj. pose proof (split_on_pieces c s) as Hp. rewrite E in Hj, Hp.
    apply Forall_cons in Hp as [? Hp]. apply Forall_cons in Hp as [? Hp]. apply Forall_cons in Hp as [? _].
    by rewrite <- Hj.
  - intros (-> & Hx & Hy & Hz). by rewrite !split_on_app, split_on_plain by done.
Qed.

Lemma string_app_assoc (a b c : string) : (a +:+ b) +:+ c = a +:+ (b +:+ c).
Proof. induction a as [|x a IH]; [done|]. change (String x ((a +:+ b) +:+ c) = String x (a +:+ (b +:+ c))). by rewrite IH. Qed.

Lemma string_app_inj_l (a b c : string) : a +:+ b = a +:+ c -> b = c.
Proof. induction a as [|x a IH]; [done|]. intros [=]. auto. Qed.

Lemma string_app_eq (a b c d : string) : String.length a = String.length b -> a +:+ c = b +:+ d -> a = b /\ c = d.
Proof.
  revert b. induction a as [|x a IH]; intros [|y b]; [done..|]. intros [= Hl] E.
  injection E as -> E. by destruct (IH b Hl E) as [-> ->].
Qed.

Lemma contains_char_app c a b : contains_char c (a +:+ b) = contains_char c a || contains_char c b.
Proof.
  induction a as [|x a IH]; [done|]. change (String x a +:+ b) with (String x (a +:+ b)). cbn [contains_char].
  by rewrite IH, orb_assoc.
Qed.
Lemma split_once_app c l r : contains_char c l = false -> split_once c (l +:+ String c r) = Some (l, r).
Proof.
  induction l as [|a l IH].
  - change ("" +:+ String c r) with (String c r). cbn [split_once]. by rewrite Ascii.eqb_refl.
  - cbn [contains_char]. intros [Ha Hl]%orb_false_iff. change (String a l +:+ String c r) with (String a (l +:+ String c r)).
    cbn [split_once]. by rewrite Ha, IH.
Qed.
Lemma split_once_Some c s l r : split_once c s = Some (l, r) <-> s = l +:+ String c r /\ contains_char c l = false.
Proof.
  split; [|intros [-> Hl]; by apply split_once_app]. revert l. induction s as [|a s IH]; intros l; cbn [split_once]; [done|].
  destruct (Ascii.eqb_spec a c) as [->|Hn]; [intros [= <- <-]; done|].
  destruct (split_once c s) as [[l' r']|]; [|done]. intros [= <- <-]. destruct (IH l' eq_refl) as [-> Hl']. split; [done|].
  cbn. rewrite Hl'. by destruct (Ascii.eqb_spec a c).
Qed.
Lemma split_once_None c s : split_once c s = None <-> contains_char c s = false.
Proof.
  induction s as [|a s IH]; cbn; [done|]. destruct (Ascii.eqb a c); [done|]. cbn. rewrite <- IH. by destruct (split_once c s) as [[]|].
Qed.

Lemma string_forallb_contains f c s : f c = false -> string_forallb f s = true -> contains_char c s = false.
Proof.
  intros Hc. induction s as [|a s IH]; [done|]. cbn. intros [Ha Hs]%andb_true_iff. rewrite (IH Hs).
  destruct (Ascii.eqb_spec a c) as [->|]; [congruence|done].
Qed.

Lemma ok_unwrap {E A} (o : outcome E A) d : is_ok o = true -> o = Ok (unwrap_or o d).
Proof. by destruct o. Qed.
