(* ===== verification/Url.v ===== *)
(** * URLs: the url crate

    What the program uses of the crate, the laws it relies on, and a model of
    them: http URLs, a port being part of the host. *)
From stdpp Require Import gmap strings.
From Stdlib Require Import Ascii.
From S2P Require Import Prelude Bytes Crates Text.

Local Open Scope string_scope.
Local Open Scope list_scope.
Local Open Scope Z_scope.

(** The url crate; a setter that fails, which is [None] here, leaves the URL as it is. *)
Class UrlCrate := {
  Url : Type;
  url_parse : string -> option Url;
  url_to_string : Url -> string;
  url_scheme : Url -> string;
  url_host_str : Url -> option string;
  url_port : Url -> option Z;
  url_path : Url -> string;
  url_query : Url -> option string;
  set_scheme : string -> Url -> option Url;
  set_host : option string -> Url -> option Url;
  set_port : option Z -> Url -> option Url;
  append_pair : string -> string -> Url -> Url;
}.

(** Characters that the form encoding leaves as they are. *)
Definition is_unreserved (a : ascii) : bool :=
  let n := nat_of_ascii a in
  ((48 <=? n) && (n <=? 57) || (65 <=? n) && (n <=? 90) || (97 <=? n) && (n <=? 122) || (n =? 42) || (n =? 45) || (n =? 46) || (n =? 95))%nat.
(** URLs of the web.  The setters of the crate succeed on them when the scheme,
    host and port are those of another one; on others they may fail. *)
Definition web_url `{UrlCrate} (u : Url) : Prop := (url_scheme u = "http" \/ url_scheme u = "https") /\ is_Some (url_host_str u).

(** [port] is [None] for the default of the scheme, so a change of the scheme may change it. *)
Class UrlLaws `{UrlCrate} : Prop := {
  url_parse_to_string : forall u, url_parse (url_to_string u) = Some u;
  query_set_scheme : forall v u u', set_scheme v u = Some u' -> url_query u' = url_query u;
  query_set_host : forall v u u', set_host v u = Some u' -> url_query u' = url_query u;
  query_set_port : forall v u u', set_port v u = Some u' -> url_query u' = url_query u;
  set_scheme_web : forall other u, web_url other -> web_url u -> exists u', set_scheme (url_scheme other) u = Some u' /\
    url_scheme u' = url_scheme other /\ url_host_str u' = url_host_str u /\ url_path u' = url_path u;
  set_host_web : forall other u, web_url other -> web_url u -> exists u', set_host (url_host_str other) u = Some u' /\
    url_host_str u' = url_host_str other /\ url_scheme u' = url_scheme u /\ url_path u' = url_path u;
  set_port_web : forall other u, web_url other -> web_url u -> url_scheme u = url_scheme other ->
    exists u', set_port (url_port other) u = Some u' /\ url_port u' = url_port other /\
      url_scheme u' = url_scheme u /\ url_host_str u' = url_host_str u /\ url_path u' = url_path u;
  append_pair_base : forall k v u, url_scheme (append_pair k v u) = url_scheme u /\ url_host_str (append_pair k v u) = url_host_str u /\
    url_port (append_pair k v u) = url_port u /\ url_path (append_pair k v u) = url_path u;
  query_append_pair : forall k v u, string_forallb is_unreserved k = true -> string_forallb is_unreserved v = true ->
    url_query (append_pair k v u) =
      Some (match url_query u with None | Some "" => k +:+ "=" +:+ v | Some query => query +:+ "&" +:+ k +:+ "=" +:+ v end);
}.
(** ** A model of the url crate: http URLs, a port being part of the host *)
Module UrlModel.
Definition good (h p : string) : bool := negb (contains_char "/"%char h || contains_char "?"%char h) && negb (contains_char "?"%char p).
Record url := mkUrl { host : string; path : string; query : option string; is_good : good host path = true }.
Definition make (h p : string) (q : option string) : option url :=
  match bool_dec (good h p) true with left e => Some (mkUrl h p q e) | right _ => None end.
Definition render (u : url) : string :=
  "http://" +:+ host u +:+ "/" +:+ path u +:+ match query u with Some q => "?" +:+ q | None => "" end.
Definition of_string (s : string) : option url :=
  rest ← strip_prefix "http://" s;
  let '(front, q) := match split_once "?"%char rest with Some (front, q) => (front, Some q) | None => (rest, None) end in
  let '(h, p) := match split_once "/"%char front with Some (h, p) => (h, p) | None => (front, "") end in
  make h p q.
Definition with_host (h : option string) (u : url) : option url := h ← h; make h (path u) (query u).
Definition with_pair (k v : string) (u : url) : url :=
  mkUrl (host u) (path u) (Some (match query u with None | Some "" => k +:+ "=" +:+ v | Some q => q +:+ "&" +:+ k +:+ "=" +:+ v end)) (is_good u).

#[export] Instance crate : UrlCrate := {
  Url := url; url_parse := of_string; url_to_string := render; url_scheme _ := "http"; url_host_str u := Some (host u); url_port _ := None;
  url_path u := "/" +:+ path u; url_query := query; set_scheme v u := if (v =? "http")%string then Some u else None; set_host := with_host;
  set_port p u := match p with None => Some u | Some _ => None end; append_pair := with_pair;
}.

Lemma make_good h p q e : make h p q = Some (mkUrl h p q e).
Proof. unfold make. destruct (bool_dec (good h p) true) as [e'|]; [|done]. do 2 f_equal. apply Eqdep_dec.UIP_dec, bool_dec. Qed.
Lemma string_app_nil_r (a : string) : a +:+ "" = a.
Proof. induction a as [|x a IH]; [done|]. change (String x a +:+ "") with (String x (a +:+ "")). by rewrite IH. Qed.
Lemma of_string_render u : of_string (render u) = Some u.
Proof.
  destruct u as [h p q e]. unfold render, of_string. cbn [host path query]. rewrite strip_prefix_app. cbn [mbind option_bind].
  pose proof e as [[Hs Hq]%negb_true_iff%orb_false_iff Hp%negb_true_iff]%andb_true_iff.
  assert (contains_char "?"%char (h +:+ "/" +:+ p) = false) as Hleft by (rewrite !contains_char_app, Hq, Hp; done).
  assert (split_once "/"%char (h +:+ "/" +:+ p) = Some (h, p)) as Hsplit by (change ("/" +:+ p) with (String "/" p); by apply split_once_app).
  destruct q as [q|].
  - replace (h +:+ "/" +:+ p +:+ "?" +:+ q) with ((h +:+ "/" +:+ p) +:+ String "?" q) by (by rewrite !string_app_assoc).
    rewrite split_once_app by done. rewrite Hsplit. apply make_good.
  - replace (h +:+ "/" +:+ p +:+ "") with (h +:+ "/" +:+ p) by (f_equal; f_equal; by rewrite string_app_nil_r).
    rewrite (proj2 (split_once_None _ _) Hleft). rewrite Hsplit. apply make_good.
Qed.
Lemma make_swap h u : good h "" = true -> exists e, make h (path u) (query u) = Some (mkUrl h (path u) (query u) e).
Proof.
  intros Hh. assert (good h (path u) = true) as e.
  { unfold good in *. apply andb_true_iff in Hh as [Hh _]. rewrite Hh. pose proof (is_good u) as Hu. by apply andb_true_iff in Hu as [_ ->]. }
  exists e. apply make_good.
Qed.
#[export] Instance laws : UrlLaws.
Proof.
  split; try done; [apply of_string_render|..].
  - intros v u u'. cbn. destruct (v =? "http")%string; [by intros [= <-]|done].
  - intros [h|] u u'; cbn; [|done]. unfold with_host, make. cbn. destruct (bool_dec _ true); [by intros [= <-]|done].
  - intros [p|] u u'; cbn; [done|by intros [= <-]].
  - intros other u _ _. exists u. by repeat split.
  - intros other u _ _. assert (good (host other) "" = true) as Hg.
    { pose proof (is_good other) as Ho. unfold good in *. apply andb_true_iff in Ho as [-> _]. done. }
    destruct (make_swap (host other) u Hg) as [e E]. exists (mkUrl (host other) (path u) (query u) e). cbn. unfold with_host. cbn. by rewrite E.
  - intros other u _ _ _. exists u. by repeat split.
Qed.
End UrlModel.
