(* ===== verification/Config.v ===== *)
(** * Settings from the environment (src/xet-common/src/lib.rs)

    The variables of a process, numbers parsed at their width, and URLs checked
    before they are used; the CAS server and the Hub read their configurations
    with these. *)
From stdpp Require Import gmap strings.
From Stdlib Require Import Ascii.
From S2P Require Import Prelude Bytes Crates Text Url.

Local Open Scope string_scope.
Local Open Scope list_scope.
Local Open Scope Z_scope.

(** ** The environment *)

(** [std::env::var] *)
Inductive env_var := NotPresent | NotUnicode | Present (value : string).
Definition environment := string -> env_var.
Definition var (env : environment) (key : string) : option string := match env key with Present value => Some value | _ => None end.

(** ** Numbers: [FromStr] of the unsigned integers *)
Inductive IntError := IeEmpty | IeInvalidDigit | IePosOverflow.
Definition int_error_text (e : IntError) : string :=
  match e with
  | IeEmpty => "cannot parse integer from empty string"
  | IeInvalidDigit => "invalid digit found in string"
  | IePosOverflow => "number too large to fit in target type"
  end.
Fixpoint int_digits (max acc : Z) (s : string) : outcome IntError Z :=
  match s with
  | EmptyString => Ok acc
  | String a s =>
      let n := Z.of_nat (nat_of_ascii a) - 48 in
      ensure (0 <=? n) && (n <=? 9) else IeInvalidDigit in
      ensure acc * 10 <=? max else IePosOverflow in
      ensure acc * 10 + n <=? max else IePosOverflow in
      int_digits max (acc * 10 + n) s
  end.
Definition parse_int (max : Z) (s : string) : outcome IntError Z :=
  match s with
  | EmptyString => Err IeEmpty
  | String a rest =>
      if (rest =? "")%string && (Ascii.eqb a "+"%char || Ascii.eqb a "-"%char) then Err IeInvalidDigit
      else int_digits max 0 (if Ascii.eqb a "+"%char then rest else s)
  end.
Definition u16_max : Z := 2 ^ 16 - 1.

Definition bad_value (key value : string) (e : IntError) : string := key +:+ " '" +:+ value +:+ "' is not a valid value: " +:+ int_error_text e.
(** [parse_env], for the integers up to [max]. *)
Definition parse_env (max : Z) (env : environment) (key : string) (default : Z) : outcome string Z :=
  match var env key with
  | Some value => map_err (bad_value key value) (parse_int max value)
  | None => Ok default
  end.

(** The reason that the url crate gives is left out of the message. *)
Definition validate_http_url `{UrlCrate} (name url : string) : outcome string unit :=
  let* parsed := ok_or (url_parse url) (name +:+ " '" +:+ url +:+ "' is not a valid URL") in
  ensure (match url_host_str parsed with None => false | Some _ => true end) else (name +:+ " '" +:+ url +:+ "' is missing a valid host") in
  ensure negb (negb (url_scheme parsed =? "http")%string && negb (url_scheme parsed =? "https")%string)
    else (name +:+ " '" +:+ url +:+ "' uses unsupported scheme '" +:+ url_scheme parsed +:+ "'; expected http or https") in
  Ok tt.

(** Checks that a number is not zero, and that a text is not blank. *)
Definition positive (n : Z) (message : string) : outcome string unit := ensure negb (n =? 0) else message in Ok tt.
Definition not_blank (s message : string) : outcome string unit := ensure negb (is_blank s) else message in Ok tt.

(** ** What a configuration reads *)

(** The value of a setting: the variable's where it is set, else [base]. *)
Definition setting_int (max : Z) (env : environment) (key : string) (base : Z) : option Z :=
  match var env key with
  | Some value => match parse_int max value with Ok n => Some n | _ => None end
  | None => Some base
  end.
Definition setting_str (env : environment) (key base : string) : string := default base (var env key).

(** A URL that a client can reach. *)
Definition http_url `{UrlCrate} (url : string) : Prop :=
  exists parsed, url_parse url = Some parsed /\ url_host_str parsed <> None /\ (url_scheme parsed = "http" \/ url_scheme parsed = "https").

Lemma int_digits_bounds max s : forall acc n, 0 <= acc <= max -> int_digits max acc s = Ok n -> 0 <= n <= max.
Proof.
  induction s as [|a s IH]; intros acc n Ha; cbn [int_digits]; [by intros [= <-]|].
  destruct (0 <=? _) eqn:E0; [|done]. destruct (_ <=? 9) eqn:E9; [|done]. cbn [andb].
  destruct (acc * 10 <=? max); [|done]. destruct (_ <=? max) eqn:Em; [|done]. apply IH. lia.
Qed.
Lemma parse_int_bounds max s n : 0 <= max -> parse_int max s = Ok n -> 0 <= n <= max.
Proof.
  intros Hm. unfold parse_int. destruct s as [|a rest]; [done|]. destruct (_ && _); [done|]. apply int_digits_bounds. lia.
Qed.

Lemma int_digits_no_panic max s : forall acc, int_digits max acc s <> Panic.
Proof.
  induction s as [|a s IH]; intros acc; cbn [int_digits]; [done|].
  destruct (_ && _); [|done]. destruct (_ <=? max); [|done]. destruct (_ <=? max); [|done]. apply IH.
Qed.
Lemma parse_int_no_panic max s : parse_int max s <> Panic.
Proof. unfold parse_int. destruct s; [done|]. destruct (_ && _); [done|]. apply int_digits_no_panic. Qed.

Lemma parse_env_setting max env key base :
  match parse_env max env key base with
  | Ok n => setting_int max env key base = Some n
  | Err _ => setting_int max env key base = None
  | Panic => False
  end.
Proof.
  unfold parse_env, setting_int. destruct (var env key) as [value|]; [|done].
  pose proof (parse_int_no_panic max value). by destruct (parse_int max value).
Qed.

Lemma setting_int_bounds max env key base n : 0 <= max -> 0 <= base <= max -> setting_int max env key base = Some n -> 0 <= n <= max.
Proof.
  intros Hm Hb. unfold setting_int. destruct (var env key) as [value|]; [|by intros [= <-]].
  destruct (parse_int max value) as [n'| |] eqn:E; [|done..]. intros [= <-]. by eapply parse_int_bounds.
Qed.

Lemma validate_http_url_spec `{UrlCrate} name url :
  match validate_http_url name url with Ok _ => http_url url | Err _ => ~ http_url url | Panic => False end.
Proof.
  unfold validate_http_url, http_url. destruct (url_parse url) as [parsed|]; cbn; [|by intros (? & ? & _)].
  destruct (url_host_str parsed) eqn:Eh; [|by intros (p & [= <-] & Hh & _)].
  destruct (String.eqb_spec (url_scheme parsed) "http") as [Hs|Hs]; cbn [negb andb]; [exists parsed; rewrite Eh; by eauto|].
  destruct (String.eqb_spec (url_scheme parsed) "https") as [Hs'|Hs']; cbn [negb andb]; [exists parsed; rewrite Eh; by eauto|].
  by intros (p & [= <-] & _ & [|]).
Qed.

(** ** Chains of checks *)

(** The check [o] passes exactly if [P] holds, and does not panic. *)
Definition checks {E A} (o : outcome E A) (P : Prop) : Prop := match o with Ok _ => P | Err _ => ~ P | Panic => False end.

Lemma checks_Ok {E A} (o : outcome E A) P : checks o P -> (is_ok o = true <-> P).
Proof. destruct o; cbn; naive_solver. Qed.
Lemma checks_iff {E A} (o : outcome E A) P Q : (P <-> Q) -> checks o P -> checks o Q.
Proof. intros HPQ. destruct o; cbn; by rewrite ?HPQ. Qed.
Lemma checks_seq {E A} (o : outcome E A) (k : outcome E unit) P Q : checks o P -> checks k Q -> checks (let* _ := o in k) (P /\ Q).
Proof. destruct o, k; cbn; naive_solver. Qed.
Lemma checks_ensure {E} (b : bool) (e : E) (k : outcome E unit) Q : checks k Q -> checks (ensure b else e in k) (b = true /\ Q).
Proof. destruct b, k; cbn; naive_solver. Qed.
Lemma checks_done {E} : checks (Ok tt : outcome E unit) True.
Proof. done. Qed.
Lemma checks_option {E A} (o : option A) P (f : A -> outcome E unit) : (forall a, checks (f a) (P a)) ->
  checks (match o with Some a => f a | None => Ok tt end) (forall a, o = Some a -> P a).
Proof.
  intros Hf. destruct o as [a|]; [|done]. eapply checks_iff; [|apply Hf]. split; [by intros ? ? [= <-]|auto].
Qed.
Lemma checks_all {E A} (f : A -> outcome E unit) P l : (forall a, checks (f a) (P a)) -> checks (map_outcome f l) (Forall P l).
Proof.
  intros Hf. induction l as [|a l IH]; [by constructor|]. specialize (Hf a). unfold checks in *. cbn [map_outcome].
  destruct (f a), (map_outcome f l); rewrite ?Forall_cons; naive_solver.
Qed.
Lemma positive_checks n message : checks (positive n message) (n <> 0).
Proof. unfold positive. destruct (Z.eqb_spec n 0); cbn; [intros Hn; by apply Hn|done]. Qed.
Lemma not_blank_checks s message : checks (not_blank s message) (is_blank s = false).
Proof. unfold not_blank. by destruct (is_blank s). Qed.
