(* ===== verification/Routing.v ===== *)
(** * Route tables

    Patterns of URLs, their matching, and tables of routes of which the first
    whose method and pattern match is taken: the routing of actix-web as the
    two servers use it.  Path segments are taken as they are written; their
    percent-decoding is the framework's. *)
From stdpp Require Import gmap strings.
From Stdlib Require Import Ascii.
From S2P Require Import Prelude Bytes Crates Text.

Local Open Scope string_scope.
Local Open Scope list_scope.
Local Open Scope Z_scope.

(** ** Patterns *)
Inductive segment := Lit (word : string) | Var | VarWith (suffix : string) | Tail.

(** A piece of a pattern: a word, [{name}], [{name}.suffix] or [{name:.*}]. *)
Definition parse_segment (piece : string) : segment :=
  match strip_prefix "{" piece with
  | None => Lit piece
  | Some rest =>
      match split_once "}"%char rest with
      | Some (name, suffix) => if contains_char ":"%char name then Tail else if (suffix =? "")%string then Var else VarWith suffix
      | None => Lit piece
      end
  end.
Definition segments (pattern : string) : list segment := map parse_segment (split_on "/"%char (default "" (strip_prefix "/" pattern))).
Definition words (path : string) : list string := split_on "/"%char (default "" (strip_prefix "/" path)).

Fixpoint strip_suffix (suffix s : string) : option string :=
  if (s =? suffix)%string then Some "" else match s with EmptyString => None | String a s => String a <$> strip_suffix suffix s end.

(** The values of a pattern's names in a path that matches it. *)
Fixpoint match_segments (pattern : list segment) (path : list string) : option (list string) :=
  match pattern, path with
  | [], [] => Some []
  | [Tail], _ :: _ => Some [join "/"%char path]
  | Lit word :: pattern, w :: path => if (w =? word)%string then match_segments pattern path else None
  | Var :: pattern, w :: path => if (w =? "")%string then None else cons w <$> match_segments pattern path
  | VarWith suffix :: pattern, w :: path =>
      match strip_suffix suffix w with
      | Some value => if (value =? "")%string then None else cons value <$> match_segments pattern path
      | None => None
      end
  | _, _ => None
  end.

(** ** Tables *)
Record route {E : Type} := mkRoute { rt_method : string; rt_pattern : string; rt_endpoint : E }.
Arguments route : clear implicits.
Arguments mkRoute {E} _ _ _.

Section Tables.
Context {E : Type}.

(** The first route whose method and pattern match. *)
Fixpoint find_route (table : list (route E)) (method : string) (path : list string) : option (E * list string) :=
  match table with
  | [] => None
  | r :: table =>
      match (if (method =? rt_method r)%string then match_segments (segments (rt_pattern r)) path else None) with
      | Some values => Some (rt_endpoint r, values)
      | None => find_route table method path
      end
  end.
End Tables.

(** A segment of a path. *)
Definition plain (w : string) : Prop := w <> "" /\ contains_char "/"%char w = false.

(** ** Lemmas *)
Lemma plain_eqb w : plain w -> (w =? "")%string = false.
Proof. intros [Hw _]. by apply String.eqb_neq. Qed.

Lemma split_join c ws : ws <> [] -> Forall (fun w => contains_char c w = false) ws -> split_on c (join c ws) = ws.
Proof.
  induction ws as [|w ws IH]; [done|]. intros _ [Hw Hws]%Forall_cons. destruct ws as [|w2 ws]; [by apply split_on_plain|].
  change (join c (w :: w2 :: ws)) with (w +:+ String c (join c (w2 :: ws))). rewrite split_on_app by done. by rewrite IH.
Qed.

Lemma append_length a b : String.length (a +:+ b) = (String.length a + String.length b)%nat.
Proof. induction a as [|x a IH]; [done|]. change (S (String.length (a +:+ b)) = S (String.length a + String.length b)). by rewrite IH. Qed.

Lemma strip_suffix_app s suffix : suffix <> "" -> strip_suffix suffix (s +:+ suffix) = Some s.
Proof.
  intros Hne. assert (Hlen : forall t, (t +:+ suffix = suffix)%string -> t = "").
  { intros t E. apply (f_equal String.length) in E. rewrite append_length in E. destruct t; [done|]. cbn in E. lia. }
  induction s as [|a s IH].
  - change ("" +:+ suffix) with suffix. destruct suffix; cbn; [done|]. by rewrite Ascii.eqb_refl, String.eqb_refl.
  - change (String a s +:+ suffix) with (String a (s +:+ suffix)). cbn [strip_suffix].
    destruct (String.eqb_spec (String a (s +:+ suffix)) suffix) as [E|]; [by apply (Hlen (String a s)) in E|]. by rewrite IH.
Qed.

(** *** Matching *)
Section Matching.
Context {E : Type}.

Lemma find_route_app t1 t2 method path :
  @find_route E (t1 ++ t2) method path = match find_route t1 method path with Some r => Some r | None => find_route t2 method path end.
Proof. induction t1 as [|r t1 IH]; cbn [app find_route]; [done|]. by destruct (if (method =? rt_method r)%string then _ else _). Qed.

(** The table with its patterns taken apart. *)
Fixpoint find_compiled (table : list (string * list segment * E)) (method : string) (path : list string) : option (E * list string) :=
  match table with
  | [] => None
  | (m, pattern, e) :: table =>
      match (if (method =? m)%string then match_segments pattern path else None) with Some values => Some (e, values) | None => find_compiled table method path end
  end.
Definition compile (table : list (route E)) : list (string * list segment * E) := map (fun r => (rt_method r, segments (rt_pattern r), rt_endpoint r)) table.
Lemma find_route_compile table method path : find_route table method path = find_compiled (compile table) method path.
Proof. induction table as [|r table IH]; cbn; [done|]. by destruct (if (method =? rt_method r)%string then _ else _). Qed.

Lemma find_skip m pattern e table method path :
  (if (method =? m)%string then match_segments pattern path else None) = None -> find_compiled ((m, pattern, e) :: table) method path = find_compiled table method path.
Proof. intros Hm. cbn [find_compiled]. by rewrite Hm. Qed.
Lemma find_hit m pattern e table method path values :
  (if (method =? m)%string then match_segments pattern path else None) = Some values -> find_compiled ((m, pattern, e) :: table) method path = Some (e, values).
Proof. intros Hm. cbn [find_compiled]. by rewrite Hm. Qed.

Lemma match_tail w ws : match_segments [Tail] (w :: ws) = Some [join "/"%char (w :: ws)].
Proof. done. Qed.
End Matching.

(** Compares words, some of them not known. *)
Ltac compare_words :=
  repeat match goal with
  | |- context [String.eqb ?a ?b] =>
      let v := eval vm_compute in (String.eqb a b) in
      match v with true => change (String.eqb a b) with true | false => change (String.eqb a b) with false end; cbv iota
  | H : String.eqb ?a ?b = false |- context [String.eqb ?a ?b] => rewrite H; cbv iota
  | |- context [String.eqb ?a ?a] => rewrite (String.eqb_refl a); cbv iota
  | |- context [strip_suffix ".git" (?s +:+ ".git")] => rewrite (strip_suffix_app s ".git") by discriminate; cbv iota
  | |- _ => progress cbn [match_segments fmap option_fmap option_map]
  | |- context [if String.eqb ?a ?b then None else None] => destruct (String.eqb a b)
  end.
Ltac run_routes :=
  repeat first
    [ rewrite find_skip; [|solve [compare_words; reflexivity]]
    | eapply find_hit; compare_words; reflexivity ].
