(* ===== verification/Storage.v ===== *)
(** * Storage errors and retries (src/storage/mod.rs)

    A backend is seen through the answers it gives to one caller, by key and
    by number of the attempt: an arbitrary function, so that a theorem holds
    whatever the backend does between two attempts.  A file system path is
    the content of the file at it, [None] when there is no file. *)
From S2P Require Import Prelude Bytes.

Local Open Scope Z_scope.

Inductive StorageError :=
| NotFound (key : string)
| Internal (message : string)
| InvalidArgument (message : string)
| Quota.

Abbreviation StorageResult := (outcome StorageError).

Abbreviation path_content := (option (list byte)).

(** What one caller observes of [get_path] and [download_to_path]; attempts
    are numbered from 1. *)
Record StorageView := mkView {
  get_path : string -> nat -> StorageResult (option path_content);
  download_to_path : string -> nat -> StorageResult (list byte);
}.

(** In milliseconds. *)
Definition TRANSIENT_STORAGE_RETRY_DELAYS : list Z := [100; 500].

Definition is_transient_storage_error (error : StorageError) : bool :=
  match error with NotFound _ => false | _ => true end.

(** The retry loop of the callers: [op attempt] is one attempt. *)
Section Retry.
Context {E A : Type} (op : nat -> outcome E A) (retryable : E -> bool).

Fixpoint retry_loop (fuel attempt : nat) : option (outcome E A) :=
  match fuel with
  | O => None
  | S fuel' =>
    let attempt := (attempt + 1)%nat in
    match op attempt with
    | Ok a => Some (Ok a)
    | Err error =>
        if (attempt <=? length TRANSIENT_STORAGE_RETRY_DELAYS)%nat && retryable error
        then retry_loop fuel' attempt
        else Some (Err error)
    | Panic => Some Panic
    end
  end.

(** The loop makes one attempt more than there are delays; [retry_loop_total]
    shows that the fuel is enough. *)
Definition with_retries : outcome E A :=
  default Panic (retry_loop (S (length TRANSIENT_STORAGE_RETRY_DELAYS)) 0).
End Retry.

Definition download_to_path_with_retries (storage : StorageView) (key : string) : StorageResult (list byte) :=
  with_retries (download_to_path storage key) is_transient_storage_error.

(** ** Specification *)

(** Attempt [k + 1] is the last: the ones before failed for reasons that are
    worth a retry, and it succeeded, failed for one that is not, or was the third. *)
Definition retried {E A} (op : nat -> outcome E A) (retryable : E -> bool) (k : nat) (r : outcome E A) : Prop :=
  (k <= 2)%nat /\ r = op (S k) /\
  (forall j, (1 <= j <= k)%nat -> exists e, op j = Err e /\ retryable e = true) /\
  (forall e, r = Err e -> k = 2%nat \/ retryable e = false).

(** ** Lemmas *)

Lemma with_retries_spec {E A} (op : nat -> outcome E A) retryable :
  exists k, retried op retryable k (with_retries op retryable).
Proof.
  unfold with_retries, retried. cbn.
  destruct (op 1%nat) as [a|e|] eqn:E1; [exists 0%nat; repeat split; (lia || naive_solver lia)| |
    exists 0%nat; repeat split; (lia || naive_solver lia)].
  destruct (retryable e) eqn:R1; [|exists 0%nat; repeat split; (lia || naive_solver lia)].
  destruct (op 2%nat) as [a|e2|] eqn:E2; [| |].
  1, 3: exists 1%nat; repeat split; [lia|done| |done]; intros j Hj; replace j with 1%nat by lia; eauto.
  destruct (retryable e2) eqn:R2.
  2: { exists 1%nat. repeat split; [lia|done| |naive_solver]. intros j Hj; replace j with 1%nat by lia; eauto. }
  exists 2%nat. repeat split; [lia|by destruct (op 3%nat)| |naive_solver].
  intros j Hj. assert (j = 1 \/ j = 2)%nat as [-> | ->] by lia; eauto.
Qed.

Lemma retried_det {E A} (op : nat -> outcome E A) retryable k r k' r' :
  retried op retryable k r -> retried op retryable k' r' -> k = k'.
Proof.
  intros (Hk & -> & Hb & He) (Hk' & -> & Hb' & He').
  destruct (Nat.lt_trichotomy k k') as [Hlt|[|Hlt]]; [|done|].
  - destruct (Hb' (S k) ltac:(lia)) as (e & E1 & E2). destruct (He e E1); [lia|congruence].
  - destruct (Hb (S k') ltac:(lia)) as (e & E1 & E2). destruct (He' e E1); [lia|congruence].
Qed.

Lemma with_retries_Ok {E A} (op : nat -> outcome E A) retryable a :
  with_retries op retryable = Ok a -> exists attempt, op attempt = Ok a.
Proof. destruct (with_retries_spec op retryable) as (k & _ & -> & _). eauto. Qed.

Lemma with_retries_not_panic {E A} (op : nat -> outcome E A) retryable :
  (forall n, op n <> Panic) -> with_retries op retryable <> Panic.
Proof. intros Hp. destruct (with_retries_spec op retryable) as (k & _ & -> & _). apply Hp. Qed.

(** ** Properties *)

(** A download with retries makes at most three attempts and returns the
    answer of the last one; it stops at the first attempt that succeeds or
    reports a missing object, and it retries every other failure.  There is
    exactly one such number of attempts. *)
Theorem download_retries_bounded storage key r :
  download_to_path_with_retries storage key = r <->
  exists k, retried (download_to_path storage key) is_transient_storage_error k r.
Proof.
  unfold download_to_path_with_retries.
  destruct (with_retries_spec (download_to_path storage key) is_transient_storage_error) as (k & Hk).
  split; [intros <-; by exists k|]. intros (k' & Hk').
  rewrite (retried_det _ _ _ _ _ _ Hk Hk') in Hk. destruct Hk as (_ & -> & _), Hk' as (_ & -> & _). done.
Qed.
