(* ===== verification/Index.v ===== *)
(** * The metadata index (src/index.rs)

    Hash maps are finite maps.  Each operation holds the locks of the maps it
    uses, so an operation is one step; an operation returns the new index. *)
From Stdlib Require Import Sorted.
From S2P Require Import Prelude Bytes Crates MerkleHash.

Local Open Scope Z_scope.

Record FileShardRef := mkRef {
  fr_shard_id : string;
  fr_file_index : nat;
  fr_file_size : Z;
}.
#[export] Instance FileShardRef_eq_dec : EqDecision FileShardRef.
Proof. solve_decision. Defined.

Record VerifiedFileMapping := mkFileMapping {
  vf_file_hash : MerkleHash;
  vf_file_index : nat;
  vf_file_size : Z;
}.
Inductive IndexRegistrationError :=
| FileSizeConflict (file_hash : MerkleHash) (existing_size new_size : Z).
Record VerifiedChunkMapping := mkChunkMapping {
  vm_chunk_hash : MerkleHash;
  vm_xorb_hash : MerkleHash;
  vm_chunk_index : Z;
}.
Record VerifiedShardRegistration := mkRegistration {
  vr_shard_id : string;
  vr_files : list VerifiedFileMapping;
  vr_chunks : list VerifiedChunkMapping;
}.

Record MetadataIndex := mkIndex {
  file_to_shards : gmap MerkleHash (list FileShardRef);
  chunk_to_xorb : gmap MerkleHash (MerkleHash * Z);
}.

Definition index_new : MetadataIndex := mkIndex ∅ ∅.

(** The validation pass of [register_verified_shard]: sizes seen so far. *)
Definition check_file (file_map : gmap MerkleHash (list FileShardRef)) (registration_sizes : gmap MerkleHash Z)
    (file : VerifiedFileMapping) : outcome IndexRegistrationError (gmap MerkleHash Z) :=
  let previous := registration_sizes !! vf_file_hash file in
  let registration_sizes := <[vf_file_hash file := vf_file_size file]> registration_sizes in
  let conflict :=
    match previous with
    | Some existing_size => if existing_size =? vf_file_size file then None else Some existing_size
    | None => None
    end in
  match conflict with
  | Some existing_size => Err (FileSizeConflict (vf_file_hash file) existing_size (vf_file_size file))
  | None =>
      match file_map !! vf_file_hash file ≫= head with
      | Some existing_ref =>
          if fr_file_size existing_ref =? vf_file_size file then Ok registration_sizes
          else Err (FileSizeConflict (vf_file_hash file) (fr_file_size existing_ref) (vf_file_size file))
      | None => Ok registration_sizes
      end
  end.

Definition push_ref (entry : list FileShardRef) (file_ref : FileShardRef) : list FileShardRef :=
  if bool_decide (file_ref ∈ entry) then entry else entry ++ [file_ref].

Definition add_file (shard_id : string) (file_map : gmap MerkleHash (list FileShardRef))
    (file : VerifiedFileMapping) : gmap MerkleHash (list FileShardRef) :=
  let entry := default [] (file_map !! vf_file_hash file) in
  let file_ref := mkRef shard_id (vf_file_index file) (vf_file_size file) in
  <[vf_file_hash file := push_ref entry file_ref]> file_map.

Definition add_chunk (chunk_map : gmap MerkleHash (MerkleHash * Z)) (chunk : VerifiedChunkMapping)
  : gmap MerkleHash (MerkleHash * Z) :=
  <[vm_chunk_hash chunk := (vm_xorb_hash chunk, vm_chunk_index chunk)]> chunk_map.

Definition register_verified_shard (index : MetadataIndex) (registration : VerifiedShardRegistration)
  : MetadataIndex * outcome IndexRegistrationError unit :=
  let file_map := file_to_shards index in
  match fold_outcome (check_file file_map) ∅ (vr_files registration) with
  | Ok _ =>
      let file_map := fold_left (add_file (vr_shard_id registration)) (vr_files registration) file_map in
      let chunk_map := fold_left add_chunk (vr_chunks registration) (chunk_to_xorb index) in
      (mkIndex file_map chunk_map, Ok tt)
  | Err e => (index, Err e)
  | Panic => (index, Panic)
  end.

Definition get_file_refs (index : MetadataIndex) (file_hash : MerkleHash) : option (list FileShardRef) :=
  file_to_shards index !! file_hash.
Definition get_file_size (index : MetadataIndex) (file_hash : MerkleHash) : option Z :=
  fr_file_size <$> (file_to_shards index !! file_hash ≫= head).

(** [collect::<BTreeSet<_>>]: sorted by bytes, without duplicates. *)
Fixpoint btree_insert (x : string) (l : list string) : list string :=
  match l with
  | [] => [x]
  | y :: l' =>
      match String.compare x y with
      | Lt => x :: y :: l'
      | Eq => y :: l'
      | Gt => y :: btree_insert x l'
      end
  end.
Definition btree_collect (l : list string) : list string := fold_left (fun s x => btree_insert x s) l [].

Definition get_shards_for_file (index : MetadataIndex) (file_hash : MerkleHash) : option (list string) :=
  (fun refs => btree_collect (map fr_shard_id refs)) <$> get_file_refs index file_hash.
Definition get_xorb_for_chunk (index : MetadataIndex) (chunk_hash : MerkleHash) : option (MerkleHash * Z) :=
  chunk_to_xorb index !! chunk_hash.
Definition chunk_exists (index : MetadataIndex) (chunk_hash : MerkleHash) : bool :=
  bool_decide (is_Some (chunk_to_xorb index !! chunk_hash)).

Record IndexStats := mkStats { num_files : nat; num_chunks : nat }.
Definition stats (index : MetadataIndex) : IndexStats :=
  mkStats (size (file_to_shards index)) (size (chunk_to_xorb index)).

(** A sequence of registrations; the answers are in the same order. *)
Definition register_all (index : MetadataIndex) (registrations : list VerifiedShardRegistration)
  : MetadataIndex * list (outcome IndexRegistrationError unit) :=
  fold_left (fun '(index, answers) registration =>
    let '(index, answer) := register_verified_shard index registration in (index, answers ++ [answer]))
    registrations (index, []).

(** ** Specification: the log of accepted registrations

    The index is a view of the registrations it accepted, in order. *)
Definition log_refs (log : list VerifiedShardRegistration) (h : MerkleHash) : list FileShardRef :=
  concat (map (fun r => map (fun f => mkRef (vr_shard_id r) (vf_file_index f) (vf_file_size f))
                          (filter (fun f => vf_file_hash f = h) (vr_files r))) log).
Definition log_files (log : list VerifiedShardRegistration) : list VerifiedFileMapping := concat (map vr_files log).
Definition log_chunks (log : list VerifiedShardRegistration) : list VerifiedChunkMapping := concat (map vr_chunks log).

(** A file hash has one size. *)
Definition sizes_agree (files : list VerifiedFileMapping) : Prop :=
  forall f g, f ∈ files -> g ∈ files -> vf_file_hash f = vf_file_hash g -> vf_file_size f = vf_file_size g.

(** The last mapping of a chunk. *)
Definition last_chunk (chunks : list VerifiedChunkMapping) (h : MerkleHash) : option (MerkleHash * Z) :=
  (fun c => (vm_xorb_hash c, vm_chunk_index c)) <$> last (filter (fun c => vm_chunk_hash c = h) chunks).

Definition represents (index : MetadataIndex) (log : list VerifiedShardRegistration) : Prop :=
  sizes_agree (log_files log) /\
  (forall h, get_file_refs index h =
     if decide (log_refs log h = []) then None else Some (fold_left push_ref (log_refs log h) [])) /\
  (forall h, get_xorb_for_chunk index h = last_chunk (log_chunks log) h).

(** [accepts log regs answers log']: registering [regs] one after the other on
    top of [log] gives these answers and accepts the registrations of [log']:
    a registration is accepted exactly when the sizes still agree. *)
Inductive accepts : list VerifiedShardRegistration -> list VerifiedShardRegistration ->
    list (outcome IndexRegistrationError unit) -> list VerifiedShardRegistration -> Prop :=
| accepts_nil log : accepts log [] [] log
| accepts_ok log r regs answers log' :
    sizes_agree (log_files (log ++ [r])) -> accepts (log ++ [r]) regs answers log' ->
    accepts log (r :: regs) (Ok tt :: answers) log'
| accepts_err log r regs e answers log' :
    ~ sizes_agree (log_files (log ++ [r])) -> accepts log regs answers log' ->
    accepts log (r :: regs) (Err e :: answers) log'.

(** ** Lemmas *)

Lemma push_ref_elem l r x : x ∈ push_ref l r <-> x ∈ l \/ x = r.
Proof. unfold push_ref. case_bool_decide; set_solver. Qed.

Lemma push_ref_NoDup l r : NoDup l -> NoDup (push_ref l r).
Proof.
  unfold push_ref. intros Hn. case_bool_decide as Hr; [done|].
  apply NoDup_app. split; [done|]. split; [set_solver|apply NoDup_singleton].
Qed.

Lemma push_refs_spec news : forall l, NoDup l ->
  NoDup (fold_left push_ref news l) /\ (forall x, x ∈ fold_left push_ref news l <-> x ∈ l \/ x ∈ news) /\
  exists k, fold_left push_ref news l = l ++ k.
Proof.
  induction news as [|r news IH]; intros l Hl; cbn [fold_left].
  - split; [done|]. split; [set_solver|]. exists []. by rewrite app_nil_r.
  - destruct (IH (push_ref l r) (push_ref_NoDup l r Hl)) as (Hn & He & k & Hk). split; [done|]. split.
    + intros x. rewrite He, push_ref_elem. set_solver.
    + rewrite Hk. unfold push_ref. case_bool_decide; [by exists k|]. exists ([r] ++ k). by rewrite app_assoc.
Qed.

Lemma push_refs_known news : forall l, (forall r, r ∈ news -> r ∈ l) -> fold_left push_ref news l = l.
Proof.
  induction news as [|r news IH]; intros l Hl; cbn; [done|].
  assert (push_ref l r = l) as -> by (unfold push_ref; rewrite bool_decide_true by set_solver; done).
  apply IH. set_solver.
Qed.

Lemma push_refs_head r news : head (fold_left push_ref (r :: news) []) = Some r.
Proof.
  destruct (push_refs_spec news (push_ref [] r) (push_ref_NoDup [] r (NoDup_nil_2))) as (_ & _ & k & Hk).
  cbn [fold_left]. by rewrite Hk.
Qed.

(** *** Logs *)

Lemma log_refs_app log reg h :
  log_refs (log ++ [reg]) h = log_refs log h ++
    map (fun f => mkRef (vr_shard_id reg) (vf_file_index f) (vf_file_size f))
      (filter (fun f => vf_file_hash f = h) (vr_files reg)).
Proof. unfold log_refs. rewrite map_app, concat_app. cbn. by rewrite app_nil_r. Qed.

Lemma log_files_app log reg : log_files (log ++ [reg]) = log_files log ++ vr_files reg.
Proof. unfold log_files. rewrite map_app, concat_app. cbn. by rewrite app_nil_r. Qed.

Lemma log_chunks_app log reg : log_chunks (log ++ [reg]) = log_chunks log ++ vr_chunks reg.
Proof. unfold log_chunks. rewrite map_app, concat_app. cbn. by rewrite app_nil_r. Qed.

Lemma log_refs_elem log h r :
  r ∈ log_refs log h <-> exists reg f, reg ∈ log /\ f ∈ vr_files reg /\ vf_file_hash f = h /\
    r = mkRef (vr_shard_id reg) (vf_file_index f) (vf_file_size f).
Proof.
  induction log as [|reg log IH] using rev_ind; [cbn; set_solver|].
  rewrite log_refs_app, elem_of_app, IH, elem_of_map. split.
  - intros [(reg' & f & ? & ? & ? & ?)|(f & <- & [Hh Hf]%list_elem_of_filter)]; [exists reg', f; set_solver|].
    exists reg, f. set_solver.
  - intros (reg' & f & [Hr|Hr]%elem_of_app & Hf & Hh & ->); [left; eauto 10|].
    apply list_elem_of_singleton in Hr as ->. right. exists f. by rewrite list_elem_of_filter.
Qed.

Lemma log_files_elem log f : f ∈ log_files log <-> exists reg, reg ∈ log /\ f ∈ vr_files reg.
Proof.
  induction log as [|reg log IH] using rev_ind; [cbn; set_solver|].
  rewrite log_files_app, elem_of_app, IH. set_solver.
Qed.

(** *** The maps after a registration *)

Lemma add_files_lookup shard_id files : forall m h,
  fold_left (add_file shard_id) files m !! h =
  let news := map (fun f => mkRef shard_id (vf_file_index f) (vf_file_size f)) (filter (fun f => vf_file_hash f = h) files) in
  if decide (news = []) then m !! h else Some (fold_left push_ref news (default [] (m !! h))).
Proof.
  induction files as [|f files IH]; intros m h; [done|]. cbn [fold_left]. rewrite IH. cbn zeta.
  rewrite filter_cons. unfold add_file. destruct (decide (vf_file_hash f = h)) as [<-|Hne].
  - rewrite lookup_insert_eq. cbn [map default fold_left]. destruct (decide (_ :: _ = [])); [done|].
    destruct (decide (_ = [])) as [->|]; [done|]. done.
  - by rewrite lookup_insert_ne.
Qed.

Lemma add_chunks_lookup chunks : forall m h,
  fold_left add_chunk chunks m !! h = match last_chunk chunks h with Some v => Some v | None => m !! h end.
Proof.
  induction chunks as [|c chunks IH]; intros m h; [done|]. cbn [fold_left]. rewrite IH.
  unfold last_chunk. rewrite filter_cons. unfold add_chunk. destruct (decide (vm_chunk_hash c = h)) as [<-|Hne].
  - rewrite lookup_insert_eq, last_cons. destruct (last (filter _ chunks)); done.
  - by rewrite lookup_insert_ne.
Qed.

Lemma last_chunk_app cs1 cs2 h :
  last_chunk (cs1 ++ cs2) h = match last_chunk cs2 h with Some v => Some v | None => last_chunk cs1 h end.
Proof. unfold last_chunk. rewrite filter_app, last_app. by destruct (last (filter _ cs2)). Qed.

(** *** The validation pass *)

Definition agree_map (file_map : gmap MerkleHash (list FileShardRef)) (files : list VerifiedFileMapping) : Prop :=
  forall f r, f ∈ files -> file_map !! vf_file_hash f ≫= head = Some r -> fr_file_size r = vf_file_size f.

Definition seen (sizes : gmap MerkleHash Z) (files : list VerifiedFileMapping) : Prop :=
  forall h s, sizes !! h = Some s <-> exists f, f ∈ files /\ vf_file_hash f = h /\ vf_file_size f = s.

Lemma sizes_agree_app files f :
  sizes_agree (files ++ [f]) <-> sizes_agree files /\
    forall g, g ∈ files -> vf_file_hash g = vf_file_hash f -> vf_file_size g = vf_file_size f.
Proof.
  unfold sizes_agree. split.
  - intros H. split; [intros; apply H; set_solver|intros g Hg; apply H; set_solver].
  - intros [H1 H2] g g' [Hg|Hg]%elem_of_app [Hg'|Hg']%elem_of_app E;
      rewrite ?list_elem_of_singleton in *; subst; auto. symmetry. auto.
Qed.

Lemma sizes_agree_prefix l1 l2 : sizes_agree (l1 ++ l2) -> sizes_agree l1.
Proof. intros H f g Hf Hg. apply H; set_solver. Qed.

Lemma seen_insert sizes pre f :
  seen sizes pre -> sizes_agree (pre ++ [f]) -> seen (<[vf_file_hash f := vf_file_size f]> sizes) (pre ++ [f]).
Proof.
  intros Hs Ha h s. rewrite lookup_insert_Some, (Hs h s). split.
  - intros [[<- <-]|[Hne (g & ? & ? & ?)]]; [exists f|exists g]; set_solver.
  - intros (g & [Hg|Hg]%elem_of_app & <- & <-).
    + destruct (decide (vf_file_hash f = vf_file_hash g)) as [E|]; [left|right; eauto].
      split; [done|]. apply Ha; [set_solver..|done].
    + apply list_elem_of_singleton in Hg as ->. by left.
Qed.

Lemma check_file_spec file_map pre sizes f :
  seen sizes pre -> sizes_agree pre ->
  match check_file file_map sizes f with
  | Ok sizes' => seen sizes' (pre ++ [f]) /\ sizes_agree (pre ++ [f]) /\ agree_map file_map [f]
  | Err _ => ~ (sizes_agree (pre ++ [f]) /\ agree_map file_map [f])
  | Panic => False
  end.
Proof.
  intros Hseen Hpre.
  assert (forall s, sizes !! vf_file_hash f = Some s -> s <> vf_file_size f -> ~ sizes_agree (pre ++ [f])) as Hconf.
  { intros s Hs Hne Hag. apply Hseen in Hs as (g & Hg & Eh & <-). apply Hne, Hag; [set_solver..|done]. }
  assert ((forall s, sizes !! vf_file_hash f = Some s -> s = vf_file_size f) -> sizes_agree (pre ++ [f])) as Hok.
  { intros Hs. apply sizes_agree_app. split; [done|]. intros g Hg E. apply Hs, Hseen. eauto. }
  assert (sizes_agree (pre ++ [f]) ->
    match (match file_map !! vf_file_hash f ≫= head with
           | Some r => if fr_file_size r =? vf_file_size f then Ok (<[vf_file_hash f := vf_file_size f]> sizes)
                       else Err (FileSizeConflict (vf_file_hash f) (fr_file_size r) (vf_file_size f))
           | None => Ok (<[vf_file_hash f := vf_file_size f]> sizes)
           end) with
    | Ok sizes' => seen sizes' (pre ++ [f]) /\ sizes_agree (pre ++ [f]) /\ agree_map file_map [f]
    | Err _ => ~ (sizes_agree (pre ++ [f]) /\ agree_map file_map [f])
    | Panic => False
    end) as Hmap.
  { intros Ha. pose proof (seen_insert sizes pre f Hseen Ha) as Hi. destruct (_ ≫= head) as [r|] eqn:Er.
    - destruct (Z.eqb_spec (fr_file_size r) (vf_file_size f)).
      + split; [done|]. split; [done|]. intros g r' ->%list_elem_of_singleton. congruence.
      + intros [_ Hm]. specialize (Hm f r). rewrite Er in Hm. set_solver.
    - split; [done|]. split; [done|]. intros g r' ->%list_elem_of_singleton. congruence. }
  unfold check_file. destruct (sizes !! vf_file_hash f) as [s|] eqn:Es; [|apply Hmap, Hok; done].
  destruct (Z.eqb_spec s (vf_file_size f)) as [->|Hne]; [apply Hmap, Hok; congruence|].
  intros [Hag _]. by eapply Hconf.
Qed.

Lemma check_files_spec file_map files : forall pre sizes,
  seen sizes pre -> sizes_agree pre ->
  match fold_outcome (check_file file_map) sizes files with
  | Ok _ => sizes_agree (pre ++ files) /\ agree_map file_map files
  | Err _ => ~ (sizes_agree (pre ++ files) /\ agree_map file_map files)
  | Panic => False
  end.
Proof.
  induction files as [|f files IH]; intros pre sizes Hseen Hpre; cbn [fold_outcome].
  { rewrite app_nil_r. split; [done|]. intros f r Hf. set_solver. }
  pose proof (check_file_spec file_map pre sizes f Hseen Hpre) as Hf.
  assert (agree_map file_map (f :: files) <-> agree_map file_map [f] /\ agree_map file_map files) as Hm.
  { unfold agree_map. split; [intros H; split; intros; apply H; set_solver|]. intros [H1 H2] g r [->|Hg]%elem_of_cons; [apply H1|apply H2]; set_solver. }
  destruct (check_file _ _ _) as [sizes'| |]; [| |done].
  - destruct Hf as (Hs & Ha & Hfm). specialize (IH (pre ++ [f]) sizes' Hs Ha). rewrite <- app_assoc in IH. cbn [app] in IH.
    destruct (fold_outcome _ _ _); [|rewrite Hm; naive_solver|done]. rewrite Hm. naive_solver.
  - intros [Ha Hfm%Hm]. apply Hf. split; [|naive_solver].
    apply (sizes_agree_prefix _ files). by rewrite <- app_assoc.
Qed.

(** In an index that represents a log, the size of the first reference is the size of the file. *)
Lemma represented_size index log h :
  represents index log ->
  match get_file_size index h with
  | Some s => (exists f, f ∈ log_files log /\ vf_file_hash f = h) /\
      forall f, f ∈ log_files log -> vf_file_hash f = h -> vf_file_size f = s
  | None => forall f, f ∈ log_files log -> vf_file_hash f <> h
  end.
Proof.
  intros (Ha & Hf & _). unfold get_file_size. specialize (Hf h). unfold get_file_refs in Hf. rewrite Hf.
  destruct (decide (log_refs log h = [])) as [E|Hne]; cbn.
  - intros f Hin Eh. apply log_files_elem in Hin as (reg & Hreg & Hin).
    assert (mkRef (vr_shard_id reg) (vf_file_index f) (vf_file_size f) ∈ log_refs log h) as Hr
      by (apply log_refs_elem; eauto 10).
    rewrite E in Hr. by apply not_elem_of_nil in Hr.
  - destruct (log_refs log h) as [|r rs] eqn:E; [done|]. rewrite push_refs_head. cbn.
    assert (r ∈ log_refs log h) as (reg & f & Hreg & Hin & Eh & ->)%log_refs_elem by (rewrite E; left).
    assert (f ∈ log_files log) by (apply log_files_elem; eauto). split; [eauto|].
    intros g Hg Egh. cbn. apply Ha; [done..|congruence].
Qed.

Lemma represented_sizes index log files :
  represents index log ->
  agree_map (file_to_shards index) files <->
  forall f g, f ∈ files -> g ∈ log_files log -> vf_file_hash g = vf_file_hash f -> vf_file_size g = vf_file_size f.
Proof.
  intros Hr. unfold agree_map. split.
  - intros H f g Hf Hg E. pose proof (represented_size index log (vf_file_hash f) Hr) as Hs. unfold get_file_size in Hs.
    specialize (H f). destruct (_ ≫= head) as [r|]; cbn in Hs; [|by destruct (Hs g Hg)].
    rewrite <- (H r Hf eq_refl). by apply Hs.
  - intros H f r Hf Er. pose proof (represented_size index log (vf_file_hash f) Hr) as Hs. unfold get_file_size in Hs.
    rewrite Er in Hs. destruct Hs as [(g & Hg & E) Hall]. rewrite <- (Hall g Hg E). by apply H.
Qed.

Lemma register_refines_log index log reg :
  represents index log ->
  let '(index', answer) := register_verified_shard index reg in
  match answer with
  | Ok _ => sizes_agree (log_files (log ++ [reg])) /\ represents index' (log ++ [reg])
  | Err _ => ~ sizes_agree (log_files (log ++ [reg])) /\ index' = index
  | Panic => False
  end.
Proof.
  intros Hrep. pose proof Hrep as (Ha & Hf & Hc). unfold register_verified_shard.
  assert (agree_map (file_to_shards index) (vr_files reg) <->
    forall f g, f ∈ vr_files reg -> g ∈ log_files log -> vf_file_hash g = vf_file_hash f -> vf_file_size g = vf_file_size f) as Hm.
  { by apply represented_sizes. }
  assert (sizes_agree (log_files (log ++ [reg])) <->
    sizes_agree (vr_files reg) /\ agree_map (file_to_shards index) (vr_files reg)) as Hiff.
  { rewrite Hm, log_files_app. unfold sizes_agree in *. split.
    - intros H. split; [intros f g ??; apply H; set_solver|intros f g ??; apply H; set_solver].
    - intros [H1 H2] f g [Hf1|Hf1]%elem_of_app [Hg1|Hg1]%elem_of_app E; auto. symmetry. auto. }
  pose proof (check_files_spec (file_to_shards index) (vr_files reg) [] ∅) as Hcheck.
  lapply Hcheck; [clear Hcheck; intros Hcheck|intros h s; rewrite lookup_empty; set_solver].
  lapply Hcheck; [clear Hcheck; intros Hcheck|intros f; set_solver]. cbn [app] in Hcheck.
  destruct (fold_outcome _ _ _); [|split; [by rewrite Hiff|done]|done]. rewrite <- Hiff in Hcheck.
  split; [done|]. split; [done|]. split.
  - intros h. unfold get_file_refs in *. cbn [file_to_shards]. rewrite add_files_lookup. cbn zeta. rewrite log_refs_app.
    rewrite Hf. rewrite fold_left_app. set (news := map _ _). set (olds := log_refs log h).
    destruct (decide (news = [])) as [->|Hn].
    + cbn [fold_left]. by rewrite app_nil_r.
    + destruct (decide (olds ++ news = [])) as [E|_]; [by apply app_nil in E as [_ ?]|].
      destruct (decide (olds = [])) as [->|]; done.
  - intros h. unfold get_xorb_for_chunk in *. cbn [chunk_to_xorb]. by rewrite add_chunks_lookup, log_chunks_app, last_chunk_app, Hc.
Qed.

Lemma register_all_app registrations : forall index acc,
  fold_left (fun '(index, answers) registration =>
    let '(index, answer) := register_verified_shard index registration in (index, answers ++ [answer]))
    registrations (index, acc) =
  let '(index', answers) := register_all index registrations in (index', acc ++ answers).
Proof.
  unfold register_all. induction registrations as [|r rs IH]; intros index acc; cbn [fold_left]; [by rewrite app_nil_r|].
  destruct (register_verified_shard index r) as [index' answer]. rewrite IH, (IH index' ([] ++ [answer])).
  destruct (fold_left _ rs (index', [])) as [i as_]. by rewrite <- app_assoc.
Qed.

Lemma represents_new : represents index_new [].
Proof. split; [intros f g Hf; cbn in Hf; set_solver|]. split; intros h; [apply lookup_empty|apply lookup_empty]. Qed.

Lemma register_all_refines registrations : forall index log,
  represents index log ->
  exists log', accepts log registrations (snd (register_all index registrations)) log' /\
    represents (fst (register_all index registrations)) log'.
Proof.
  induction registrations as [|r rs IH]; intros index log Hr; [exists log; split; [constructor|done]|].
  unfold register_all. cbn [fold_left]. pose proof (register_refines_log index log r Hr) as Hs.
  destruct (register_verified_shard index r) as [index' answer]. rewrite register_all_app.
  destruct answer as [[]|e|]; [| |done].
  - destruct Hs as [Ha Hr']. destruct (IH _ _ Hr') as (log' & Hacc & Hrep).
    destruct (register_all index' rs) as [i as_]. exists log'. split; [by constructor|done].
  - destruct Hs as [Hn ->]. destruct (IH _ _ Hr) as (log' & Hacc & Hrep).
    destruct (register_all index rs) as [i as_]. exists log'. split; [by constructor|done].
Qed.

(** *** Sorted sets of strings *)

Definition string_lt (x y : string) : Prop := String.compare x y = Lt.

Lemma string_lt_trans x y z : string_lt x y -> string_lt y z -> string_lt x z.
Proof.
  unfold string_lt. revert y z. induction x as [|a x IH]; intros [|b y] [|c z]; cbn; try done.
  unfold Ascii.compare.
  destruct (N.compare_spec (Ascii.N_of_ascii a) (Ascii.N_of_ascii b)) as [E1|E1|E1];
    destruct (N.compare_spec (Ascii.N_of_ascii b) (Ascii.N_of_ascii c)) as [E2|E2|E2];
    destruct (N.compare_spec (Ascii.N_of_ascii a) (Ascii.N_of_ascii c)) as [E3|E3|E3]; try done; try lia.
  apply IH.
Qed.

Lemma btree_insert_elem x l y : y ∈ btree_insert x l <-> y = x \/ y ∈ l.
Proof.
  induction l as [|z l IH]; cbn [btree_insert]; [set_solver|].
  destruct (String.compare x z) eqn:E; [apply String.compare_eq_iff in E as ->; set_solver|set_solver|].
  rewrite !elem_of_cons, IH. set_solver.
Qed.

Lemma btree_insert_sorted x l : StronglySorted string_lt l -> StronglySorted string_lt (btree_insert x l).
Proof.
  induction 1 as [|z l Hl IH Hz]; cbn [btree_insert]; [repeat constructor|].
  destruct (String.compare x z) eqn:E; [by constructor| |].
  - constructor; [by constructor|]. constructor; [done|].
    eapply Forall_impl; [exact Hz|]. intros w Hw. by eapply string_lt_trans.
  - constructor; [done|]. apply Forall_forall. intros w [->|Hw]%btree_insert_elem.
    + unfold string_lt. by rewrite String.compare_antisym, E.
    + by eapply Forall_forall in Hz.
Qed.

Lemma btree_collect_spec l :
  StronglySorted string_lt (btree_collect l) /\ forall x, x ∈ btree_collect l <-> x ∈ l.
Proof.
  unfold btree_collect.
  enough (forall s, StronglySorted string_lt s -> StronglySorted string_lt (fold_left (fun s x => btree_insert x s) l s) /\
    forall x, x ∈ fold_left (fun s x => btree_insert x s) l s <-> x ∈ s \/ x ∈ l) as Hg.
  { destruct (Hg [] ltac:(constructor)) as [H1 H2]. split; [done|]. intros x. rewrite H2. set_solver. }
  induction l as [|y l IH]; intros s Hs; cbn [fold_left]; [set_solver|].
  destruct (IH (btree_insert y s) (btree_insert_sorted y s Hs)) as [H1 H2]. split; [done|].
  intros x. rewrite H2, btree_insert_elem. set_solver.
Qed.

Lemma represented_refs index log h :
  represents index log ->
  match get_file_refs index h with
  | Some refs => refs <> [] /\ NoDup refs /\ forall r, r ∈ refs <-> r ∈ log_refs log h
  | None => log_refs log h = []
  end.
Proof.
  intros (_ & Hf & _). rewrite Hf. destruct (decide (log_refs log h = [])) as [|Hne]; [done|].
  destruct (push_refs_spec (log_refs log h) [] (NoDup_nil_2)) as (Hn & He & _). split; [|split; [done|set_solver]].
  destruct (log_refs log h) as [|r rs] eqn:E; [done|]. intros E'. rewrite E' in He.
  assert (r ∈ []) by (apply He; right; left). set_solver.
Qed.

Lemma last_chunk_Some chunks h : is_Some (last_chunk chunks h) <-> exists c, c ∈ chunks /\ vm_chunk_hash c = h.
Proof.
  unfold last_chunk. rewrite fmap_is_Some, last_is_Some. split.
  - intros Hne. destruct (filter _ chunks) as [|c cs] eqn:E; [done|].
    exists c. assert (c ∈ filter (fun c => vm_chunk_hash c = h) chunks) as Hc by (rewrite E; left).
    apply list_elem_of_filter in Hc. naive_solver.
  - intros (c & Hc & Eh) E. assert (c ∈ filter (fun c => vm_chunk_hash c = h) chunks) as Hc'
      by by apply list_elem_of_filter. rewrite E in Hc'. set_solver.
Qed.

Lemma size_gmap_hashes {V} (m : gmap MerkleHash V) (l : list MerkleHash) :
  (forall h, is_Some (m !! h) <-> h ∈ l) -> size m = size (list_to_set l : gset MerkleHash).
Proof.
  intros Hm. rewrite <- size_dom. f_equal. apply set_eq. intros h. by rewrite elem_of_dom, Hm, elem_of_list_to_set.
Qed.

(** ** Properties *)

(** C29: Whatever registrations are attempted, the index is the view of the log of
    the accepted ones: a registration is accepted exactly when every file hash
    still has one size, a rejected one changes nothing, file references are
    kept in order without duplicates, and a chunk has its last mapping. *)
Theorem index_refines_log registrations :
  exists log, accepts [] registrations (snd (register_all index_new registrations)) log /\
    represents (fst (register_all index_new registrations)) log.
Proof. apply register_all_refines, represents_new. Qed.

(** What the queries of an index answer, in terms of the log it represents:
    the references of a file are those of the log, without duplicates and with
    one size; its shard ids are sorted; a chunk exists when some registration
    maps it; and the statistics count distinct hashes. *)
Theorem index_queries index log h :
  represents index log ->
  match get_file_refs index h, get_file_size index h, get_shards_for_file index h with
  | Some refs, Some size, Some shards =>
      NoDup refs /\ (forall r, r ∈ refs <-> r ∈ log_refs log h) /\ (forall r, r ∈ refs -> fr_file_size r = size) /\
      StronglySorted string_lt shards /\ forall id, id ∈ shards <-> exists r, r ∈ log_refs log h /\ fr_shard_id r = id
  | None, None, None => log_refs log h = []
  | _, _, _ => False
  end /\
  (chunk_exists index h = true <-> exists c, c ∈ log_chunks log /\ vm_chunk_hash c = h) /\
  num_files (stats index) = size (list_to_set (map vf_file_hash (log_files log)) : gset MerkleHash) /\
  num_chunks (stats index) = size (list_to_set (map vm_chunk_hash (log_chunks log)) : gset MerkleHash).
Proof.
  intros Hr. pose proof Hr as (_ & _ & Hc). split; [|split; [|split]].
  - pose proof (represented_refs index log h Hr) as Href. pose proof (represented_size index log h Hr) as Hsize.
    unfold get_shards_for_file, get_file_size, get_file_refs in *. destruct (file_to_shards index !! h) as [refs|]; cbn in *; [|done].
    destruct Href as (Hne & Hnd & He). destruct refs as [|r0 rs]; [done|]. cbn in *. destruct Hsize as [_ Hsize].
    destruct (btree_collect_spec (map fr_shard_id (r0 :: rs))) as [Hs Hin]. split; [done|]. split; [done|]. split.
    + intros r (reg & f & Hreg & Hf & Eh & ->)%He%log_refs_elem. cbn. apply Hsize; [|done]. apply log_files_elem. eauto.
    + split; [done|]. intros id. change (fr_shard_id r0 :: map fr_shard_id rs) with (map fr_shard_id (r0 :: rs)).
      rewrite Hin, elem_of_map. set_solver.
  - unfold chunk_exists. rewrite bool_decide_eq_true. unfold get_xorb_for_chunk in Hc. rewrite Hc. apply last_chunk_Some.
  - apply size_gmap_hashes. intros h'. rewrite elem_of_map. pose proof (represented_size index log h' Hr) as Hsize.
    pose proof (represented_refs index log h' Hr) as Href. unfold get_file_size, get_file_refs in *.
    destruct (file_to_shards index !! h') as [[|r rs]|]; cbn in *; [naive_solver|naive_solver|].
    split; [by intros []|]. intros (f & E & Hf). by destruct (Hsize f Hf).
  - apply size_gmap_hashes. intros h'. rewrite elem_of_map. unfold get_xorb_for_chunk in Hc. rewrite Hc, last_chunk_Some. naive_solver.
Qed.

(** Registering again what was just accepted is accepted and changes
    nothing. *)
Theorem register_idempotent index log registration index' :
  represents index log -> register_verified_shard index registration = (index', Ok tt) ->
  register_verified_shard index' registration = (index', Ok tt).
Proof.
  intros Hr E. pose proof (register_refines_log index log registration Hr) as Hs. rewrite E in Hs.
  destruct Hs as [Ha Hr']. pose proof (register_refines_log index' (log ++ [registration]) registration Hr') as Hs'.
  assert (sizes_agree (log_files ((log ++ [registration]) ++ [registration]))) as Ha'.
  { rewrite log_files_app. intros f g Hf Hg. rewrite log_files_app in *. apply Ha; set_solver. }
  unfold register_verified_shard in E. destruct (fold_outcome _ ∅ _) in E; try done. injection E as E.
  unfold register_verified_shard in Hs' |- *. destruct (fold_outcome _ ∅ _) as [sizes|e|]; [|by destruct Hs'|done].
  destruct Hs' as [_ (_ & Hf' & Hc')]. destruct Hr' as (_ & Hf & Hc). f_equal. subst index'. f_equal.
  - apply map_eq. intros h. specialize (Hf h). specialize (Hf' h). unfold get_file_refs in *. cbn [file_to_shards] in *.
    rewrite Hf', Hf, !log_refs_app. set (news := map _ _). destruct (decide (news = [])) as [->|Hn]; [by rewrite !app_nil_r|].
    clear Hf Hf'. do 2 (rewrite decide_False by (by intros [_ ?]%app_nil)).
    f_equal. rewrite (fold_left_app _ (log_refs log h ++ news)). apply push_refs_known. intros r Hin.
    destruct (push_refs_spec (log_refs log h ++ news) [] NoDup_nil_2) as (_ & He & _). apply He. set_solver.
  - apply map_eq. intros h. specialize (Hc h). specialize (Hc' h). unfold get_xorb_for_chunk in *. cbn [chunk_to_xorb] in *.
    rewrite Hc', Hc, !log_chunks_app, !last_chunk_app. by destruct (last_chunk (vr_chunks registration) h).
Qed.

(** ** Witnesses *)
Definition sample_registration (id : string) (size : Z) : VerifiedShardRegistration :=
  mkRegistration id [mkFileMapping (mkHash 1 0 0 0) 0 size] [mkChunkMapping (mkHash 2 0 0 0) (mkHash 3 0 0 0) 4].

Lemma represents_sample :
  represents (fst (register_all index_new [sample_registration "a" 10])) [sample_registration "a" 10].
Proof.
  destruct (register_all_refines [sample_registration "a" 10] index_new [] represents_new) as (log & Hacc & Hr).
  assert (log = [sample_registration "a" 10]) as ->; [|done].
  assert (snd (register_all index_new [sample_registration "a" 10]) = [Ok tt]) as E by (vm_compute; reflexivity).
  rewrite E in Hacc. inversion Hacc as [|? ? ? ? ? ? Hl|]; subst. by inversion Hl.
Qed.

Lemma index_queries_witness :
  let index := fst (register_all index_new [sample_registration "a" 10]) in
  get_file_size index (mkHash 1 0 0 0) = Some 10 /\ chunk_exists index (mkHash 2 0 0 0) = true /\ num_chunks (stats index) = 1%nat.
Proof.
  cbn zeta.
  destruct (index_queries _ _ (mkHash 2 0 0 0) represents_sample) as (_ & [_ Hc] & _ & Hn).
  split; [vm_compute; reflexivity|]. split.
  - apply Hc. exists (mkChunkMapping (mkHash 2 0 0 0) (mkHash 3 0 0 0) 4). split; [left|reflexivity].
  - rewrite Hn. vm_compute. reflexivity.
Defined.

Lemma register_idempotent_witness :
  exists index', register_verified_shard index_new (sample_registration "a" 10) = (index', Ok tt) /\
    register_verified_shard index' (sample_registration "a" 10) = (index', Ok tt).
Proof.
  destruct (register_verified_shard index_new (sample_registration "a" 10)) as [index' answer] eqn:E.
  assert (answer = Ok tt) as Ea by (apply (f_equal snd) in E; vm_compute in E; symmetry; exact E).
  exists index'. rewrite Ea. split; [reflexivity|].
  apply (register_idempotent index_new [] (sample_registration "a" 10) index' represents_new). rewrite E, Ea. reflexivity.
Defined.
