(* ===== verification/ShardIo.v ===== *)
(** * Fetching and parsing stored shards (src/shard_io.rs)

    Failures of the local temporary directory are not modelled. *)
From S2P Require Import Prelude Bytes Crates MerkleHash Hash Shard Storage.

Local Open Scope Z_scope.

Inductive ShardIoError :=
| ShardStorage (key : string) (source : StorageError)
| TempIo (message : string)
| ShardParse (key : string) (source : XetError)
| ParseTask (key message : string).

Definition is_retryable_shard_fetch_error (error : ShardIoError) : bool :=
  match error with
  | ShardStorage _ source => is_transient_storage_error source
  | _ => false
  end.

Section ShardIo.
Context `{Blake3, HexCrate, FileReads}.

(** The parser runs in a blocking task: a panic in it is an error of the task. *)
Definition parse_path (path : path_content) (key : string) : outcome ShardIoError MDBShardFile :=
  match path with
  | None => Err (ShardParse key (IoError NotFoundIo))
  | Some file =>
      match parse_from_file file with
      | Ok shard => Ok shard
      | Err source => Err (ShardParse key source)
      | Panic => Err (ParseTask key "panic")
      end
  end.

Definition parse_shard_once (storage : StorageView) (key : string) (attempt : nat) : outcome ShardIoError MDBShardFile :=
  let* direct_path := map_err (ShardStorage key) (get_path storage key attempt) in
  let* path :=
    match direct_path with
    | Some path => Ok path
    | None => let* data := map_err (ShardStorage key) (download_to_path storage key attempt) in Ok (Some data)
    end in
  parse_path path key.

Definition parse_shard_from_storage (storage : StorageView) (key : string) : outcome ShardIoError MDBShardFile :=
  with_retries (parse_shard_once storage key) is_retryable_shard_fetch_error.
End ShardIo.

(** ** Specification *)

(** A backend whose calls return, with contents a file can have. *)
Definition view_wf (storage : StorageView) : Prop :=
  forall key attempt,
    (get_path storage key attempt <> Panic /\
     forall data, get_path storage key attempt = Ok (Some (Some data)) -> len data < 2 ^ 64) /\
    (download_to_path storage key attempt <> Panic /\
     forall data, download_to_path storage key attempt = Ok data -> len data < 2 ^ 64).

(** [data] is what the backend gave for the key in some attempt. *)
Definition stored (storage : StorageView) (key : string) (data : list byte) : Prop :=
  exists attempt, get_path storage key attempt = Ok (Some (Some data)) \/
    (get_path storage key attempt = Ok None /\ download_to_path storage key attempt = Ok data).

(** ** Lemmas *)
Section ShardIoLemmas.
Context `{Blake3Laws, HexCrate, FileReadsLaws}.

Lemma parse_from_file_parse file : parse_from_file file = parse file.
Proof. unfold parse_from_file, parse. by rewrite hash_reader_spec. Qed.

Lemma parse_wf file shard : len file < 2 ^ 64 -> parse file = Ok shard -> shard_wf (len file) shard.
Proof. intros Hl Hp. by apply (proj2 (parse_reader_spec file (to_hex (compute_data_hash file)) Hl)). Qed.

Lemma parse_once_not_panic storage key attempt : view_wf storage -> parse_shard_once storage key attempt <> Panic.
Proof.
  intros Hw. destruct (Hw key attempt) as [[Hg _] [Hd _]]. unfold parse_shard_once.
  destruct (get_path storage key attempt) as [[[file|]|]| |]; cbn [map_err]; [| | |done|done].
  - cbn. by destruct (parse_from_file file).
  - done.
  - destruct (download_to_path storage key attempt) as [file| |]; cbn [map_err]; [|done|done].
    cbn. by destruct (parse_from_file file).
Qed.

Lemma parse_once_Ok storage key attempt shard :
  parse_shard_once storage key attempt = Ok shard -> exists file, stored storage key file /\ parse file = Ok shard.
Proof.
  unfold parse_shard_once, stored. destruct (get_path storage key attempt) as [[[file|]|]| |] eqn:Eg; cbn [map_err]; try done.
  - cbn. rewrite parse_from_file_parse. destruct (parse file) eqn:E; [|done..]. intros [= <-]. eauto 10.
  - destruct (download_to_path storage key attempt) as [file| |] eqn:Ed; cbn [map_err]; [|done..].
    cbn. rewrite parse_from_file_parse. destruct (parse file) eqn:E; [|done..]. intros [= <-]. eauto 10.
Qed.

Lemma stored_small storage key file : view_wf storage -> stored storage key file -> len file < 2 ^ 64.
Proof. intros Hw (attempt & [Hg|[_ Hd]]); destruct (Hw key attempt) as [[_ Hs] [_ Hs']]; eauto. Qed.
End ShardIoLemmas.

(** ** Properties *)

(** Fetching a shard never panics and makes at most three attempts; a shard
    it returns is the parse of bytes stored under the key, hence well formed,
    and its hash is theirs; a parse failure is not retried. *)
Theorem parse_shard_from_storage_sound `{Blake3Laws, HexCrate, FileReadsLaws} storage key :
  view_wf storage ->
  parse_shard_from_storage storage key <> Panic /\
  (forall shard, parse_shard_from_storage storage key = Ok shard ->
     exists file, stored storage key file /\ shard_wf (len file) shard /\ ms_hash shard = to_hex (compute_data_hash file)) /\
  exists k, retried (parse_shard_once storage key) is_retryable_shard_fetch_error k (parse_shard_from_storage storage key).
Proof.
  intros Hw. split; [|split].
  - apply with_retries_not_panic. intros n. by apply parse_once_not_panic.
  - intros shard (attempt & E)%with_retries_Ok. apply parse_once_Ok in E as (file & Hs & Hp). exists file. split; [done|].
    exact (proj2 (parse_reader_spec file (to_hex (compute_data_hash file)) (stored_small _ _ _ Hw Hs)) shard Hp).
  - apply with_retries_spec.
Qed.

(** ** Witnesses *)
Definition flaky_view : StorageView := mkView
  (fun _ attempt => if (attempt =? 1)%nat then Err (Internal "timeout") else Ok None)
  (fun _ _ => Ok sample_shard_file).

Lemma parse_shard_from_storage_sound_witness :
  exists s, @parse_shard_from_storage Model.blake3 Model.hex Model.reads flaky_view "shards/a" = Ok s /\
    exists file, stored flaky_view "shards/a" file /\ shard_wf (len file) s /\
      ms_hash s = @to_hex Model.hex (@compute_data_hash Model.blake3 file).
Proof.
  destruct (@parse_shard_from_storage Model.blake3 Model.hex Model.reads flaky_view "shards/a") as [s| |] eqn:E;
    [|vm_compute in E; discriminate..].
  exists s. split; [reflexivity|].
  refine (proj1 (proj2 (@parse_shard_from_storage_sound Model.blake3 Model.blake3_laws Model.hex Model.reads Model.reads_laws
    flaky_view "shards/a" _)) s E).
  intros key attempt. cbn. split; [|split; [discriminate|]].
  - destruct (attempt =? 1)%nat; split; discriminate.
  - intros data Hd. injection Hd as Hd. rewrite <- Hd. vm_compute. reflexivity.
Defined.
