(* ===== verification/ObjectStore.v ===== *)
(** * A mutable object store (src/storage/mod.rs, the [StorageBackend] trait)

    The operations of a backend as state passing, and the laws its callers
    rely on.  The laws speak of the keys the server itself builds, a directory
    followed by a hash in hex; [LocalStorage] discharges them for the file
    system backend. *)
From S2P Require Import Prelude Bytes Crates MerkleHash Hash Shard Storage ShardIo Text.

Local Open Scope string_scope.
Local Open Scope Z_scope.

(** Keys built by the server. *)
Definition object_dirs : list string := ["xorbs/"; "shards/"; "lfs/objects/"].
Definition server_key (key : string) : Prop :=
  exists dir name, dir ∈ object_dirs /\ key = dir +:+ name /\ name <> "" /\ all_hexdigits name = true.

(** The operations of [StorageBackend]: a failed [put] or [delete] may or may
    not have changed the object. *)
Class ObjectStore := {
  store : Type;
  reads : store -> StorageView;
  st_exists : store -> string -> StorageResult bool;
  st_get_size : store -> string -> StorageResult Z;
  st_put : store -> string -> list byte -> store * StorageResult unit;
  st_put_from_path : store -> string -> list byte -> store * StorageResult unit;
  st_delete : store -> string -> store * StorageResult unit;
}.

(** What a write of [key] may do to the contents. *)
Definition writes (before after : string -> option (list byte)) (key : string) (value : option (list byte)) (r : StorageResult unit) : Prop :=
  r <> Panic /\ (r = Ok tt -> after key = value) /\ (after key = before key \/ after key = value) /\
  forall key', server_key key' -> key' <> key -> after key' = before key'.

(** [store_ok] is the invariant of the backend's state. *)
Class StoreLaws `{ObjectStore} := {
  contents : store -> string -> option (list byte);
  store_ok : store -> Prop;
  reads_wf : forall s, store_ok s -> view_wf (reads s);
  get_path_reads : forall s key n pc, store_ok s -> server_key key -> get_path (reads s) key n = Ok (Some pc) -> pc = contents s key;
  download_reads : forall s key n d, store_ok s -> server_key key -> download_to_path (reads s) key n = Ok d -> contents s key = Some d;
  exists_reads : forall s key b, store_ok s -> server_key key -> st_exists s key = Ok b -> b = bool_decide (is_Some (contents s key));
  exists_total : forall s key, store_ok s -> st_exists s key <> Panic;
  size_reads : forall s key n, store_ok s -> server_key key -> st_get_size s key = Ok n -> exists d, contents s key = Some d /\ n = len d;
  size_missing : forall s key e, store_ok s -> server_key key -> st_get_size s key = Err (NotFound e) -> contents s key = None;
  size_total : forall s key, store_ok s -> st_get_size s key <> Panic;
  put_writes : forall s key d, store_ok s -> server_key key -> len d < 2 ^ 64 ->
    store_ok (fst (st_put s key d)) /\ writes (contents s) (contents (fst (st_put s key d))) key (Some d) (snd (st_put s key d));
  put_from_path_writes : forall s key d, store_ok s -> server_key key -> len d < 2 ^ 64 ->
    store_ok (fst (st_put_from_path s key d)) /\
    writes (contents s) (contents (fst (st_put_from_path s key d))) key (Some d) (snd (st_put_from_path s key d));
  delete_writes : forall s key, store_ok s -> server_key key ->
    store_ok (fst (st_delete s key)) /\ writes (contents s) (contents (fst (st_delete s key))) key None (snd (st_delete s key));
}.

(** A view that gives [data] for [key], at every attempt: by a path, or by a
    download when the backend has no paths. *)
Definition serves (view : StorageView) (key : string) (data : list byte) : Prop :=
  forall n, (get_path view key n = Ok (Some (Some data)) \/ get_path view key n = Ok None) /\ download_to_path view key n = Ok data.

(** ** Lemmas *)

Lemma serves_download view key data : serves view key data -> download_to_path_with_retries view key = Ok data.
Proof.
  intros Hs. unfold download_to_path_with_retries, with_retries. cbn [length TRANSIENT_STORAGE_RETRY_DELAYS retry_loop].
  by rewrite (proj2 (Hs _)).
Qed.

Lemma serves_parse `{Blake3Laws, HexCrate, FileReadsLaws} view key data shard :
  serves view key data -> parse data = Ok shard -> parse_shard_from_storage view key = Ok shard.
Proof.
  intros Hs Hp. unfold parse_shard_from_storage, with_retries. cbn [length TRANSIENT_STORAGE_RETRY_DELAYS retry_loop].
  unfold parse_shard_once at 1. destruct (Hs (0 + 1)%nat) as [[-> | ->] Hd]; cbn [map_err parse_path]; rewrite ?Hd; cbn [map_err parse_path];
    rewrite parse_from_file_parse, Hp; done.
Qed.

Lemma is_hexdigit_lower a : is_lower_hex_digit a = true -> is_hexdigit a = true.
Proof. intros Ha. unfold is_hexdigit. by rewrite Ha. Qed.

Lemma string_forallb_impl (f g : Ascii.ascii -> bool) s :
  (forall a, f a = true -> g a = true) -> string_forallb f s = true -> string_forallb g s = true.
Proof.
  intros Hfg. induction s as [|a s IH]; [done|]. cbn. rewrite !andb_true_iff. intros [Ha Hs]. auto.
Qed.

Lemma hex_key `{HexLaws} dir h : dir ∈ object_dirs -> server_key (dir +:+ to_hex h).
Proof.
  intros Hd. exists dir, (to_hex h). split; [done|]. split; [done|]. split.
  - intros E. pose proof (to_hex_length h) as Hl. by rewrite E in Hl.
  - eapply string_forallb_impl; [apply is_hexdigit_lower|]. apply hex_encode_digits.
Qed.

(** Different directories give different keys. *)
Lemma dir_keys_differ dir dir' name name' :
  dir ∈ object_dirs -> dir' ∈ object_dirs -> dir <> dir' -> dir +:+ name <> dir' +:+ name'.
Proof.
  unfold object_dirs. rewrite !elem_of_cons, !elem_of_nil.
  intros [-> | [-> | [-> | []]]] [-> | [-> | [-> | []]]]; try done; intros _ E; discriminate E.
Qed.
