(* ===== verification/FileSystem.v ===== *)
(** * A file system (std::fs, as the local backend uses it)

    Absolute paths are lists of components.  A file system maps paths to
    nodes; symbolic links are resolved component by component, as the system
    does.  Any call may fail: which ones do is a parameter.  [walk_plain] says
    that a path without links is its own resolution, and the [_at] lemmas give
    the calls on such a path. *)
From S2P Require Import Prelude Bytes.

Local Open Scope string_scope.
Local Open Scope list_scope.
Local Open Scope Z_scope.

Abbreviation path := (list string).

Inductive fnode :=
| FDir
| FFile (data : list byte)
| FLink (absolute : bool) (target : path).
#[export] Instance fnode_eq_dec : EqDecision fnode.
Proof. solve_decision. Defined.

Abbreviation fs := (gmap path fnode).

Inductive fs_error := FsNotFound | FsOther.

(** The calls that may fail. *)
Inductive fs_call :=
| CallLstat (p : path) | CallStat (p : path) | CallCanonicalize (p : path) | CallMkdir (p : path) | CallWrite (p : path)
| CallRename (p q : path) | CallRead (p : path) | CallRemove (p : path).

(** [fails] are the calls that fail; a failed write leaves the first
    [written] bytes.  The length the system reports for a directory is [dir_len]. *)
Class FsFaults := {
  fails : fs_call -> bool;
  written : path -> nat;
  dir_len : path -> Z;
}.

Definition node_at (m : fs) (p : path) : option fnode := match p with [] => Some FDir | _ => m !! p end.

(** ** Resolution *)

(** At most 40 links are followed. *)
Definition MAX_LINKS : nat := 40.

Fixpoint walk (links : nat) (m : fs) (follow_last : bool) {struct links} : path -> path -> outcome fs_error path :=
  fix go (cur todo : path) {struct todo} : outcome fs_error path :=
    match todo with
    | [] => Ok cur
    | c :: todo' =>
        if (c =? "..")%string then go (removelast cur) todo'
        else
          let p := cur ++ [c] in
          let is_last := match todo' with [] => true | _ => false end in
          match m !! p with
          | Some FDir => go p todo'
          | Some (FFile _) => if is_last then Ok p else Err FsOther
          | Some (FLink absolute target) =>
              if is_last && negb follow_last then Ok p
              else match links with
                   | O => Err FsOther
                   | S links' => walk links' m follow_last (if absolute then [] else cur) (target ++ todo')
                   end
          | None => if is_last then Ok p else Err FsNotFound
          end
    end.
Definition resolve (m : fs) (follow_last : bool) (p : path) : outcome fs_error path := walk MAX_LINKS m follow_last [] p.

(** ** The calls *)
Section Calls.
Context `{FsFaults}.

Definition guarded {A} (call : fs_call) (o : outcome fs_error A) : outcome fs_error A := if fails call then Err FsOther else o.

Definition symlink_metadata (m : fs) (p : path) : outcome fs_error fnode :=
  guarded (CallLstat p) (let* q := resolve m false p in ok_or (node_at m q) FsNotFound).

Definition metadata (m : fs) (p : path) : outcome fs_error fnode :=
  guarded (CallStat p) (let* q := resolve m true p in ok_or (node_at m q) FsNotFound).

Definition canonicalize (m : fs) (p : path) : outcome fs_error path :=
  guarded (CallCanonicalize p) (let* q := resolve m true p in match node_at m q with Some _ => Ok q | None => Err FsNotFound end).

Definition read (m : fs) (p : path) : outcome fs_error (list byte) :=
  guarded (CallRead p)
    (let* q := resolve m true p in
     match node_at m q with Some (FFile data) => Ok data | Some _ => Err FsOther | None => Err FsNotFound end).

Definition write (m : fs) (p : path) (data : list byte) : fs * outcome fs_error unit :=
  match resolve m true p with
  | Ok q =>
      match node_at m q with
      | Some FDir => (m, Err FsOther)
      | _ => if fails (CallWrite p) then (<[q := FFile (take (written p) data)]> m, Err FsOther)
             else (<[q := FFile data]> m, Ok tt)
      end
  | Err e => (m, Err e)
  | Panic => (m, Panic)
  end.

(** Of a file or a link; the callers rename no directory. *)
Definition rename (m : fs) (src dst : path) : fs * outcome fs_error unit :=
  match (let* a := resolve m false src in let* b := resolve m false dst in Ok (a, b)) with
  | Ok (a, b) =>
      if fails (CallRename src dst) then (m, Err FsOther)
      else
        match node_at m a, node_at m b with
        | None, _ => (m, Err FsNotFound)
        | Some FDir, _ | _, Some FDir => (m, Err FsOther)
        | Some node, _ => (<[b := node]> (delete a m), Ok tt)
        end
  | Err e => (m, Err e)
  | Panic => (m, Panic)
  end.

Definition remove_file (m : fs) (p : path) : fs * outcome fs_error unit :=
  match resolve m false p with
  | Ok q =>
      if fails (CallRemove p) then (m, Err FsOther)
      else match node_at m q with
           | None => (m, Err FsNotFound)
           | Some FDir => (m, Err FsOther)
           | Some _ => (delete q m, Ok tt)
           end
  | Err e => (m, Err e)
  | Panic => (m, Panic)
  end.

(** [fs::copy]: the contents. *)
Definition copy (m : fs) (src dst : path) : fs * outcome fs_error unit :=
  match read m src with
  | Ok data => write m dst data
  | Err e => (m, Err e)
  | Panic => (m, Panic)
  end.

(** One directory: already there, or made. *)
Definition create_dir (m : fs) (p : path) : fs * outcome fs_error unit :=
  match (let* q := resolve m true p in let* r := resolve m false p in Ok (q, r)) with
  | Ok (q, r) =>
      match node_at m q, node_at m r with
      | Some FDir, _ => (m, Ok tt)
      | None, None => if fails (CallMkdir p) then (m, Err FsOther) else (<[r := FDir]> m, Ok tt)
      | _, _ => (m, Err FsOther)
      end
  | Err e => (m, Err e)
  | Panic => (m, Panic)
  end.

(** The directories from the top of the path down. *)
Fixpoint create_dirs (m : fs) (cur todo : path) : fs * outcome fs_error unit :=
  match todo with
  | [] => (m, Ok tt)
  | c :: todo' =>
      match create_dir m (cur ++ [c]) with
      | (m, Ok _) => create_dirs m (cur ++ [c]) todo'
      | r => r
      end
  end.
Definition create_dir_all (m : fs) (p : path) : fs * outcome fs_error unit := create_dirs m [] p.
End Calls.

(** ** Paths without links *)

(** Walking down from [cur], no link and no [..] is met before a missing node. *)
Fixpoint plain (m : fs) (cur todo : path) : Prop :=
  match todo with
  | [] => True
  | c :: todo' => c <> ".." /\
      match m !! (cur ++ [c]) with
      | Some (FLink _ _) => False
      | Some FDir => plain m (cur ++ [c]) todo'
      | _ => True
      end
  end.

(** Directories all the way. *)
Fixpoint dirs (m : fs) (cur todo : path) : Prop :=
  match todo with
  | [] => True
  | c :: todo' => c <> ".." /\ m !! (cur ++ [c]) = Some FDir /\ dirs m (cur ++ [c]) todo'
  end.

(** A well-formed tree: what is there is in a directory; the root is implicit. *)
Definition fs_wf (m : fs) : Prop :=
  m !! [] = None /\ forall p c, is_Some (m !! (p ++ [c])) -> node_at m p = Some FDir.

(** ** Lemmas *)

Definition ends {A} (l : list A) : bool := match l with [] => true | _ => false end.

Lemma walk_step links m follow cur c todo :
  c <> ".." ->
  walk links m follow cur (c :: todo) =
  match m !! (cur ++ [c]) with
  | Some FDir => walk links m follow (cur ++ [c]) todo
  | Some (FFile _) => if ends todo then Ok (cur ++ [c]) else Err FsOther
  | Some (FLink absolute target) =>
      if ends todo && negb follow then Ok (cur ++ [c])
      else match links with
           | O => Err FsOther
           | S links' => walk links' m follow (if absolute then [] else cur) (target ++ todo)
           end
  | None => if ends todo then Ok (cur ++ [c]) else Err FsNotFound
  end.
Proof. intros Hc%String.eqb_neq. destruct links; cbn; rewrite Hc; by destruct todo. Qed.

(** A path without links resolves to itself, or something on the way is no directory. *)
Lemma walk_plain links m follow todo : forall cur,
  plain m cur todo ->
  match walk links m follow cur todo with
  | Ok q => q = cur ++ todo /\ dirs m cur (removelast todo)
  | Err _ => exists pre c post, todo = pre ++ c :: post /\ post <> [] /\ dirs m cur pre /\ m !! (cur ++ pre ++ [c]) <> Some FDir
  | Panic => False
  end.
Proof.
  induction todo as [|c todo IH]; intros cur Hp.
  - destruct links; cbn; by rewrite app_nil_r.
  - destruct Hp as [Hc Hp]. rewrite walk_step by done.
    destruct (m !! (cur ++ [c])) as [[|d|]|] eqn:E; [| |done|].
    + specialize (IH (cur ++ [c]) Hp). destruct (walk links m follow (cur ++ [c]) todo) as [q|e|]; [| |done].
      * rewrite <- app_assoc in IH. destruct IH as [-> Hd]. split; [done|]. by destruct todo as [|c' todo].
      * destruct IH as (pre & c' & post & -> & Hpost & Hd & Hn). exists (c :: pre), c', post. rewrite <- app_assoc in Hn. done.
    + destruct todo as [|c' todo]; [done|]. cbn [ends]. exists [], c, (c' :: todo). cbn [app]. rewrite E. done.
    + destruct todo as [|c' todo]; [done|]. cbn [ends]. exists [], c, (c' :: todo). cbn [app]. rewrite E. done.
Qed.

Lemma resolve_not_panic m follow p : resolve m follow p <> Panic.
Proof.
  unfold resolve. generalize MAX_LINKS as links, (@nil string) as cur. intros links. revert p.
  induction links as [|links IHl]; induction p as [|c todo IH]; intros cur; [done| |done|].
  all: destruct (decide (c = "..")) as [->|Hne]; [apply IH|rewrite walk_step by done].
  all: destruct (m !! (cur ++ [c])) as [[|d|a t]|]; [apply IH| |destruct (_ && _); auto; done|].
  all: by destruct (ends todo).
Qed.

(** With directories on the way, the last component is what is there. *)
Lemma walk_dirs links m follow todo c : forall cur,
  dirs m cur todo -> c <> ".." ->
  (follow = true -> forall a t, m !! (cur ++ todo ++ [c]) <> Some (FLink a t)) ->
  walk links m follow cur (todo ++ [c]) = Ok (cur ++ todo ++ [c]).
Proof.
  induction todo as [|d todo IH]; intros cur Hd Hc Hl; cbn [app].
  - rewrite walk_step by done. cbn [app] in Hl. destruct (m !! (cur ++ [c])) as [[|x|a t]|]; cbn [ends]; try done; [by destruct links|].
    destruct follow; cbn [andb negb]; [|done]. by destruct (Hl eq_refl a t).
  - destruct Hd as (Hd & E & Hds). rewrite walk_step, E by done. rewrite IH; [by rewrite <- app_assoc|done..|].
    rewrite <- app_assoc. done.
Qed.

Lemma walk_all_dirs links m follow todo : forall cur, dirs m cur todo -> walk links m follow cur todo = Ok (cur ++ todo).
Proof.
  induction todo as [|d todo IH]; intros cur Hd; [destruct links; cbn; by rewrite app_nil_r|].
  destruct Hd as (Hd & E & Hds). rewrite walk_step, E, IH by done. by rewrite <- app_assoc.
Qed.

Lemma dirs_app m l1 l2 : forall cur, dirs m cur (l1 ++ l2) <-> dirs m cur l1 /\ dirs m (cur ++ l1) l2.
Proof.
  induction l1 as [|c l1 IH]; intros cur; cbn [app dirs]; [rewrite app_nil_r; tauto|]. rewrite IH, <- app_assoc. cbn [app]. tauto.
Qed.

Lemma plain_app m l1 l2 : forall cur, dirs m cur l1 -> plain m cur (l1 ++ l2) <-> plain m (cur ++ l1) l2.
Proof.
  induction l1 as [|c l1 IH]; intros cur Hd; cbn [app plain]; [by rewrite app_nil_r|]. destruct Hd as (Hc & E & Hd).
  rewrite E, IH, <- app_assoc by done. cbn [app]. tauto.
Qed.

Lemma dirs_node m todo : forall cur, dirs m cur todo -> todo <> [] -> m !! (cur ++ todo) = Some FDir.
Proof.
  induction todo as [|c todo IH]; intros cur Hd Hne; [done|]. destruct Hd as (_ & E & Hd). destruct todo as [|c' todo]; [done|].
  rewrite <- (IH (cur ++ [c]) Hd ltac:(done)). by rewrite <- app_assoc.
Qed.

Lemma node_at_dirs m p : dirs m [] p -> node_at m p = Some FDir.
Proof. intros Hd. destruct p as [|c p]; [done|]. by apply (dirs_node m (c :: p) [] Hd). Qed.

Lemma node_at_snoc m p c : node_at m (p ++ [c]) = m !! (p ++ [c]).
Proof. by destruct p. Qed.

(** *** Well-formedness *)

Lemma snoc_cases (p : path) : p = [] \/ exists q c, p = q ++ [c].
Proof. induction p as [|c q _] using rev_ind; [by left|right; eauto]. Qed.

Lemma node_at_insert m p c n q : node_at (<[p ++ [c] := n]> m) q = if decide (q = p ++ [c]) then Some n else node_at m q.
Proof.
  destruct (snoc_cases q) as [->|(q' & c' & ->)]; [destruct (decide _) as [E|]; [by destruct p|done]|]. rewrite !node_at_snoc.
  destruct (decide _) as [->|Hne]; [by rewrite lookup_insert_eq|by rewrite lookup_insert_ne by congruence].
Qed.

Lemma fs_wf_insert m p c n :
  fs_wf m -> node_at m p = Some FDir -> m !! (p ++ [c]) <> Some FDir -> fs_wf (<[p ++ [c] := n]> m).
Proof.
  intros [H0 Hw] Hp Hn. split; [by rewrite lookup_insert_ne by (by destruct p)|]. intros q d Hq. rewrite node_at_insert.
  destruct (decide (q = p ++ [c])) as [->|Hne].
  - exfalso. rewrite lookup_insert_ne in Hq by (intros E%(f_equal length); rewrite !length_app in E; cbn in E; lia).
    apply Hw in Hq. rewrite node_at_snoc in Hq. done.
  - destruct (decide (q ++ [d] = p ++ [c])) as [[-> ->]%app_inj_tail|Hne']; [done|]. rewrite lookup_insert_ne in Hq by congruence. by apply (Hw q d).
Qed.

Lemma fs_wf_delete m q : fs_wf m -> m !! q <> Some FDir -> fs_wf (delete q m).
Proof.
  intros [H0 Hw] Hq. split; [apply lookup_delete_None; by right|]. intros p c [n Hp]. apply lookup_delete_Some in Hp as [Hne Hp].
  assert (node_at m p = Some FDir) as Hd by (apply (Hw p c); by eexists). destruct p as [|x p]; [done|]. cbn [node_at] in *.
  rewrite lookup_delete_ne; [done|congruence].
Qed.

(** Only directories have something below them. *)
Lemma nothing_below m q post : fs_wf m -> node_at m q <> Some FDir -> post <> [] -> m !! (q ++ post) = None.
Proof.
  intros [H0 Hw] Hq. induction post as [|c post IH] using rev_ind; [done|]. intros _. destruct (m !! (q ++ post ++ [c])) eqn:E; [|done].
  exfalso. rewrite app_assoc in E. specialize (Hw (q ++ post) c ltac:(by eexists)). destruct post as [|c' post]; [by rewrite app_nil_r in Hw|].
  destruct (q ++ c' :: post) as [|x l] eqn:El; [by destruct q|]. cbn [node_at] in Hw. rewrite IH in Hw by done. done.
Qed.

Lemma plain_not_link m todo : fs_wf m -> forall cur, plain m cur todo -> todo <> [] -> forall a t, m !! (cur ++ todo) <> Some (FLink a t).
Proof.
  intros Hw. induction todo as [|c todo IH]; intros cur Hp Hne a t; [done|]. destruct Hp as [Hc Hp].
  assert (node_at m (cur ++ [c]) <> Some FDir -> todo <> [] -> m !! (cur ++ c :: todo) = None) as Hbelow.
  { intros Hn Hne'. change (c :: todo) with ([c] ++ todo). rewrite app_assoc. by apply nothing_below. }
  rewrite node_at_snoc in Hbelow. destruct (m !! (cur ++ [c])) as [[|d|]|] eqn:E; [| |done|].
  - destruct todo as [|c' todo]; [by rewrite E|]. change (c :: c' :: todo) with ([c] ++ c' :: todo). rewrite app_assoc. by apply IH.
  - destruct todo as [|c' todo]; [by rewrite E|]. by rewrite Hbelow.
  - destruct todo as [|c' todo]; [by rewrite E|]. by rewrite Hbelow.
Qed.

(** A path without links resolves to itself if it is there. *)
Lemma resolve_plain m follow p :
  fs_wf m -> plain m [] p -> p <> [] ->
  match resolve m follow p with
  | Ok q => q = p /\ dirs m [] (removelast p)
  | Err _ => m !! p = None
  | Panic => False
  end.
Proof.
  intros Hw Hp Hne. pose proof (walk_plain MAX_LINKS m follow p [] Hp) as Hwalk. unfold resolve.
  destruct (walk _ _ _ _ _) as [q|e|]; [done| |done]. destruct Hwalk as (pre & c & post & -> & Hpost & _ & Hn).
  change (c :: post) with ([c] ++ post). rewrite app_assoc. apply nothing_below; [done| |done]. by rewrite node_at_snoc.
Qed.

(** Resolution ends at a directory or inside one. *)
Definition in_dir (m : fs) (q : path) : Prop := q = [] \/ exists p c, q = p ++ [c] /\ node_at m p = Some FDir.

Lemma parent_dir m cur : fs_wf m -> node_at m cur = Some FDir -> node_at m (removelast cur) = Some FDir.
Proof.
  intros [_ Hw] Hc. destruct (snoc_cases cur) as [->|(p & c & ->)]; [done|]. rewrite removelast_last. apply (Hw p c).
  rewrite node_at_snoc in Hc. by eexists.
Qed.

Lemma dir_in_dir m cur : fs_wf m -> node_at m cur = Some FDir -> in_dir m cur.
Proof.
  intros Hw Hc. destruct (snoc_cases cur) as [->|(p & c & ->)]; [by left|]. right. exists p, c. split; [done|].
  apply parent_dir in Hc; [|done]. by rewrite removelast_last in Hc.
Qed.

Lemma walk_in_dir m follow : fs_wf m -> forall links todo cur q,
  node_at m cur = Some FDir -> walk links m follow cur todo = Ok q -> in_dir m q.
Proof.
  intros Hw. induction links as [|links IHl]; induction todo as [|c todo IH]; intros cur q Hc Hq.
  1,3: cbn in Hq; injection Hq as <-; by apply dir_in_dir.
  all: destruct (decide (c = "..")) as [->|Hne]; [cbn in Hq; eapply IH; [|exact Hq]; by apply parent_dir|].
  all: rewrite walk_step in Hq by done; assert (in_dir m (cur ++ [c])) as Hin by (right; eauto).
  all: destruct (m !! (cur ++ [c])) as [[|d|a t]|] eqn:E.
  all: try (eapply IH; [|exact Hq]; by rewrite node_at_snoc).
  all: try (destruct (ends todo); [by injection Hq as <-|done]).
  all: destruct (ends todo && negb follow); [by injection Hq as <-|].
  1: done.
  eapply IHl; [|exact Hq]. by destruct a.
Qed.

Lemma resolve_in_dir m follow p q : fs_wf m -> resolve m follow p = Ok q -> in_dir m q.
Proof. intros Hw. by apply walk_in_dir. Qed.

Lemma insert_at m q n : fs_wf m -> in_dir m q -> q <> [] -> node_at m q <> Some FDir -> fs_wf (<[q := n]> m).
Proof. intros Hw [->|(p & c & -> & Hp)] Hq Hn; [done|]. rewrite node_at_snoc in Hn. by apply fs_wf_insert. Qed.

Lemma delete_at m q : fs_wf m -> node_at m q <> Some FDir -> fs_wf (delete q m).
Proof. intros Hw Hn. apply fs_wf_delete; [done|]. destruct q; [by destruct Hw as [-> _]|done]. Qed.

(** *** Calls on a path whose directory is there, without links *)

Definition reached (m : fs) (q : path) : Prop := exists p c, q = p ++ [c] /\ dirs m [] p /\ c <> "..".
Definition not_link (m : fs) (q : path) : Prop := forall a t, node_at m q <> Some (FLink a t).

Lemma dirs_mono m m' todo : forall cur,
  (forall p, m !! p = Some FDir -> m' !! p = Some FDir) -> dirs m cur todo -> dirs m' cur todo.
Proof. induction todo as [|c todo IH]; intros cur Hm Hd; [done|]. destruct Hd as (Hc & E & Hd). split; [done|]. auto. Qed.

Lemma resolve_reached m follow q : reached m q -> not_link m q -> resolve m follow q = Ok q.
Proof. intros (p & c & -> & Hd & Hc) Hl. apply (walk_dirs _ m follow p c []); [done..|]. intros _ a t. specialize (Hl a t). by rewrite node_at_snoc in Hl. Qed.

Lemma resolve_reached_nofollow m q : reached m q -> resolve m false q = Ok q.
Proof. intros (p & c & -> & Hd & Hc). by apply (walk_dirs _ m false p c []). Qed.

Lemma resolve_dirs m follow q : dirs m [] q -> resolve m follow q = Ok q.
Proof. intros Hd. by apply (walk_all_dirs _ m follow q []). Qed.

Lemma reached_in_dir m q : reached m q -> in_dir m q /\ q <> [].
Proof.
  intros (p & c & -> & Hd & Hc). split; [|by destruct p]. right. exists p, c. split; [done|]. by apply node_at_dirs.
Qed.

Lemma reached_lookup m q : reached m q -> node_at m q = m !! q.
Proof. intros (p & c & -> & _). apply node_at_snoc. Qed.

Lemma dirs_insert m q n todo : m !! q <> Some FDir -> forall cur, dirs m cur todo -> dirs (<[q := n]> m) cur todo.
Proof.
  intros Hq. induction todo as [|c todo IH]; intros cur Hd; [done|]. destruct Hd as (Hc & E & Hd). split; [done|]. split; [|auto].
  rewrite lookup_insert_ne by congruence. done.
Qed.

Lemma dirs_delete m q todo : m !! q <> Some FDir -> forall cur, dirs m cur todo -> dirs (delete q m) cur todo.
Proof.
  intros Hq. induction todo as [|c todo IH]; intros cur Hd; [done|]. destruct Hd as (Hc & E & Hd). split; [done|]. split; [|auto].
  rewrite lookup_delete_ne by congruence. done.
Qed.

Lemma reached_insert m q n q' : m !! q <> Some FDir -> reached m q' -> reached (<[q := n]> m) q'.
Proof. intros Hq (p & c & -> & Hd & Hc). exists p, c. split; [done|]. split; [by apply dirs_insert|done]. Qed.

Lemma reached_delete m q q' : m !! q <> Some FDir -> reached m q' -> reached (delete q m) q'.
Proof. intros Hq (p & c & -> & Hd & Hc). exists p, c. split; [done|]. split; [by apply dirs_delete|done]. Qed.

Section CallLemmas.
Context `{FsFaults}.

Lemma write_reached m q data :
  reached m q -> not_link m q ->
  snd (write m q data) <> Panic /\ (snd (write m q data) = Ok tt -> m !! q <> Some FDir /\ fst (write m q data) = <[q := FFile data]> m) /\
  (fst (write m q data) = m \/ m !! q <> Some FDir /\ exists d, len d <= len data /\ fst (write m q data) = <[q := FFile d]> m).
Proof.
  intros Hr Hl. unfold write. rewrite resolve_reached, reached_lookup by done.
  destruct (m !! q) as [[|d|]|]; cbn [fst snd]; try (split; [done|]; split; [done|by left]).
  all: destruct (fails _); cbn [fst snd]; (split; [done|]); (split; [done|]); right; (split; [done|]).
  1,3,5: exists (take (written q) data); split; [unfold len; rewrite length_take; lia|done].
  all: by exists data.
Qed.

Lemma rename_reached m a b :
  reached m a -> reached m b ->
  snd (rename m a b) <> Panic /\
  (snd (rename m a b) = Ok tt -> m !! a <> Some FDir /\ m !! b <> Some FDir /\
     exists n, m !! a = Some n /\ fst (rename m a b) = <[b := n]> (delete a m)) /\
  (snd (rename m a b) <> Ok tt -> fst (rename m a b) = m).
Proof.
  intros Ha Hb. unfold rename. rewrite !resolve_reached_nofollow, !reached_lookup by done.
  destruct (fails _); [done|]. destruct (m !! a) as [[|d|x t]|]; [done| | |done].
  all: destruct (m !! b) as [[| |]|]; cbn [fst snd]; split; try done; split; try done; intros _; (do 2 (split; [done|])); eauto.
Qed.

Lemma remove_reached m q :
  reached m q ->
  snd (remove_file m q) <> Panic /\
  (snd (remove_file m q) = Ok tt -> m !! q <> Some FDir /\ fst (remove_file m q) = delete q m) /\
  (snd (remove_file m q) <> Ok tt -> fst (remove_file m q) = m) /\
  (snd (remove_file m q) = Err FsNotFound -> m !! q = None).
Proof.
  intros Hr. unfold remove_file. rewrite resolve_reached_nofollow, reached_lookup by done.
  destruct (fails _); [done|]. by destruct (m !! q) as [[| |]|].
Qed.

Lemma read_reached m q data : reached m q -> not_link m q -> read m q = Ok data -> m !! q = Some (FFile data).
Proof.
  intros Hr Hl E. unfold read, guarded in E. destruct (fails _); [done|]. rewrite resolve_reached, reached_lookup in E by done.
  destruct (m !! q) as [[| |]|]; congruence.
Qed.

Lemma read_not_panic m q : read m q <> Panic.
Proof.
  unfold read, guarded. destruct (fails _); [done|]. pose proof (resolve_not_panic m true q). destruct (resolve m true q) as [r| |]; [|done..].
  by destruct (node_at m r) as [[| |]|].
Qed.

(** Making directories below [cur]. *)
Definition made (m m' : fs) (cur todo : path) : Prop :=
  forall p, m' !! p = m !! p \/ (m !! p = None /\ m' !! p = Some FDir /\ exists k, (k < length todo)%nat /\ p = cur ++ take (S k) todo).

Lemma made_keeps m m' cur todo p : made m m' cur todo -> m !! p = Some FDir -> m' !! p = Some FDir.
Proof. intros Hm Hp. destruct (Hm p) as [->|(E & _)]; congruence. Qed.

Lemma create_dirs_spec todo : forall m cur,
  fs_wf m -> dirs m [] cur -> plain m cur todo -> Forall (fun c => c <> "..") todo ->
  let '(m', r) := create_dirs m cur todo in
  r <> Panic /\ fs_wf m' /\ dirs m' [] cur /\ made m m' cur todo /\ (r = Ok tt -> dirs m' cur todo).
Proof.
  induction todo as [|c todo IH]; intros m cur Hw Hd Hp Hdots; cbn [create_dirs].
  { split; [done|]. split; [done|]. split; [done|]. split; [by left|done]. }
  destruct Hp as [Hc Hp]. apply Forall_cons in Hdots as [_ Hdots]. assert (reached m (cur ++ [c])) as Hr by (exists cur, c; done).
  assert (made m m cur (c :: todo)) as Hsame by (by left).
  unfold create_dir. rewrite resolve_reached_nofollow by done.
  destruct (m !! (cur ++ [c])) as [[|d|a t]|] eqn:E; [| |done|].
  - rewrite resolve_reached by (try done; intros a t; rewrite node_at_snoc, E; done). rewrite !node_at_snoc, E.
    assert (dirs m [] (cur ++ [c])) as Hd' by (by apply dirs_app).
    specialize (IH m (cur ++ [c]) Hw Hd' Hp Hdots). destruct (create_dirs m (cur ++ [c]) todo) as [m' r].
    destruct IH as (Hnp & Hw' & Hd'' & Hm & Hok). split; [done|]. split; [done|]. split; [by apply dirs_app in Hd'' as [? _]|]. split.
    + intros p. destruct (Hm p) as [->|(E1 & E2 & k & Hk & ->)]; [by left|]. right. split; [done|]. split; [done|].
      exists (S k). split; [cbn; lia|]. by rewrite <- app_assoc.
    + intros Hr'. split; [done|]. split; [by eapply made_keeps|auto].
  - rewrite resolve_reached by (try done; intros a t; rewrite node_at_snoc, E; done). rewrite !node_at_snoc, E. done.
  - rewrite resolve_reached by (try done; intros a t; rewrite node_at_snoc, E; done). rewrite !node_at_snoc, E.
    destruct (fails _); [done|]. set (m1 := <[cur ++ [c] := FDir]> m).
    assert (fs_wf m1) as Hw1 by (apply fs_wf_insert; [done|by apply node_at_dirs|by rewrite E]).
    assert (dirs m1 [] cur) as Hd1 by (apply dirs_insert; [by rewrite E|done]).
    assert (dirs m1 [] (cur ++ [c])) as Hd' by (apply dirs_app; split; [done|]; split; [done|]; split; [by apply lookup_insert_eq|done]).
    assert (plain m1 (cur ++ [c]) todo) as Hp1.
    { destruct todo as [|c' todo']; [done|]. cbn [plain]. apply Forall_cons in Hdots as [Hc' _]. split; [done|].
      assert (m1 !! ((cur ++ [c]) ++ [c']) = None) as ->; [|done]. unfold m1.
      rewrite lookup_insert_ne by (intros E'%(f_equal length); rewrite !length_app in E'; cbn in E'; lia).
      destruct (m !! ((cur ++ [c]) ++ [c'])) as [n|] eqn:E'; [|done]. exfalso. destruct Hw as [_ Hw].
      specialize (Hw (cur ++ [c]) c' ltac:(by eexists)). rewrite node_at_snoc, E in Hw. done. }
    specialize (IH m1 (cur ++ [c]) Hw1 Hd' Hp1 Hdots). destruct (create_dirs m1 (cur ++ [c]) todo) as [m' r].
    destruct IH as (Hnp & Hw' & Hd'' & Hm & Hok). split; [done|]. split; [done|]. split; [by apply dirs_app in Hd'' as [? _]|]. split.
    + intros p. destruct (decide (p = cur ++ [c])) as [->|Hne].
      * right. split; [done|]. split; [eapply made_keeps; [done|]; apply lookup_insert_eq|]. exists 0%nat. split; [cbn; lia|done].
      * destruct (Hm p) as [->|(E1 & E2 & k & Hk & ->)]; [left; by apply lookup_insert_ne|]. right.
        unfold m1 in E1. rewrite lookup_insert_ne in E1 by done. split; [done|]. split; [done|].
        exists (S k). split; [cbn; lia|]. by rewrite <- app_assoc.
    + intros Hr'. split; [done|]. split; [eapply made_keeps; [done|]; apply lookup_insert_eq|auto].
Qed.
End CallLemmas.
