(* ===== verification/LocalStorage.v ===== *)
(** * The local backend (src/storage/local.rs)

    Objects are files under a root directory.  Every operation checks the key,
    refuses links below the root, and works on the path of the key.  The text
    of an error is its literal part.  A trailing separator of a key, with which
    the system refuses to open a file, is one of the failures of the calls. *)
From S2P Require Import Prelude Bytes Crates MerkleHash Hash Shard Text Storage ShardIo ObjectStore FileSystem.
From Stdlib Require Import Ascii.

Local Open Scope string_scope.
Local Open Scope list_scope.
Local Open Scope Z_scope.

(** ** Keys and paths *)

Definition is_slash : ascii -> bool := Ascii.eqb "/"%char.
Definition is_separator (a : ascii) : bool := Ascii.eqb "/"%char a || Ascii.eqb "\"%char a.

(** [Path::components] of a relative path: no empty component and no [.]. *)
Definition key_components (key : string) : path :=
  List.filter (fun c => negb (c =? "")%string && negb (c =? ".")%string) (split_where is_slash key).

(** [Path::strip_prefix], by components. *)
Fixpoint path_strip_prefix (base p : path) : option path :=
  match base, p with
  | [], _ => Some p
  | b :: base', c :: p' => if (b =? c)%string then path_strip_prefix base' p' else None
  | _ :: _, [] => None
  end.

(** [Path::parent]. *)
Definition parent (p : path) : option path := match p with [] => None | _ => Some (removelast p) end.

(** [Path::file_stem]: up to the last dot, unless that is the first character. *)
Fixpoint before_last_dot (s : string) : option string :=
  match s with
  | EmptyString => None
  | String a s' =>
      match before_last_dot s' with
      | Some stem => Some (String a stem)
      | None => if Ascii.eqb a "."%char then Some EmptyString else None
      end
  end.
Definition file_stem (name : string) : string :=
  match before_last_dot name with
  | Some (String a stem) => String a stem
  | _ => name
  end.

Section Local.
Context `{FsFaults} (uuid : fs -> path -> string) (base_path : path).

(** [unique_temp_path]: [with_extension] of a new uuid. *)
Definition unique_temp_path (m : fs) (dest : path) : path :=
  match last dest with
  | None => []
  | Some name => removelast dest ++ [file_stem name +:+ "." +:+ uuid m dest +:+ ".tmp"]
  end.

Definition internal_with_source {A} (msg : string) (o : outcome fs_error A) : StorageResult A := map_err (fun _ => Internal msg) o.

Definition ensure_resolved_within_base (resolved : path) : StorageResult path :=
  match path_strip_prefix base_path resolved with
  | Some _ => Ok resolved
  | None => Err (InvalidArgument "Object key resolves outside the configured local storage root")
  end.

Fixpoint reject_links (m : fs) (current relative : path) : StorageResult unit :=
  match relative with
  | [] => Ok tt
  | component :: relative' =>
      let current := current ++ [component] in
      match symlink_metadata m current with
      | Ok (FLink _ _) => Err (InvalidArgument "Object key contains a symbolic-link path component")
      | Ok _ => reject_links m current relative'
      | Err FsNotFound => Ok tt
      | Err FsOther => Err (Internal "Failed to inspect local storage path")
      | Panic => Panic
      end
  end.

Definition reject_symlink_components (m : fs) (p : path) : StorageResult unit :=
  match symlink_metadata m base_path with
  | Ok FDir =>
      let* relative := ok_or (path_strip_prefix base_path p)
        (InvalidArgument "Object key resolves outside the configured local storage root") in
      reject_links m base_path relative
  | Ok _ => Err (InvalidArgument "Configured local storage root is no longer a directory")
  | Err FsNotFound => Err (InvalidArgument "Configured local storage root no longer exists")
  | Err FsOther => Err (Internal "Failed to inspect local storage root")
  | Panic => Panic
  end.

Definition canonicalize_confined (m : fs) (p : path) : StorageResult path :=
  let* _ := reject_symlink_components m p in
  let* resolved :=
    map_err (fun e => match e with FsNotFound => NotFound "path" | FsOther => Internal "Failed to resolve local storage path" end)
      (canonicalize m p) in
  ensure_resolved_within_base resolved.

Definition object_path (key : string) : StorageResult path :=
  ensure negb (starts_with "/" key || starts_with "\" key) else (InvalidArgument "Invalid key: absolute path not allowed") in
  ensure negb (contains_char Ascii.zero key) else (InvalidArgument "Invalid key: contains null bytes") in
  ensure negb (key =? "")%string else (InvalidArgument "Invalid key: empty key") in
  ensure negb (existsb (fun c => c =? "..")%string (split_where is_separator key))
    else (InvalidArgument "Invalid key: path traversal detected") in
  Ok (base_path ++ key_components key).

(** ** The operations: the file system after, and the answer *)

Definition copy_then_rename (m : fs) (source dest : path) : fs * StorageResult unit :=
  let temp_dest := unique_temp_path m dest in
  let drop_guard '(m, r) := (fst (remove_file m temp_dest), r) in
  drop_guard (
    match copy m source temp_dest with
    | (m, Ok _) => let '(m, r) := rename m temp_dest dest in (m, internal_with_source "Failed to rename" r)
    | (m, r) => (m, internal_with_source "Failed to copy" r)
    end).

Definition prepare_parent (m : fs) (p : path) : fs * StorageResult unit :=
  match parent p with
  | None => (m, Err (InvalidArgument "Object key has no parent directory"))
  | Some dir =>
      match reject_symlink_components m dir with
      | Ok _ =>
          match create_dir_all m dir with
          | (m, Ok _) => (m, let* _ := canonicalize_confined m dir in Ok tt)
          | (m, r) => (m, internal_with_source "Failed to create dirs" r)
          end
      | Err e => (m, Err e)
      | Panic => (m, Panic)
      end
  end.

(** The path of a key, checked, with its directory there. *)
Definition prepare_object (m : fs) (key : string) : fs * StorageResult path :=
  match (let* p := object_path key in let* _ := reject_symlink_components m p in Ok p) with
  | Ok p => let '(m, r) := prepare_parent m p in (m, let* _ := r in Ok p)
  | Err e => (m, Err e)
  | Panic => (m, Panic)
  end.

Definition health_check (m : fs) : StorageResult unit := reject_symlink_components m base_path.

Definition put (m : fs) (key : string) (data : list byte) : fs * StorageResult unit :=
  match prepare_object m key with
  | (m, Ok p) =>
      let temp_path := unique_temp_path m p in
      let drop_guard '(m, r) := (fst (remove_file m temp_path), r) in
      drop_guard (
        match write m temp_path data with
        | (m, Ok _) => let '(m, r) := rename m temp_path p in (m, internal_with_source "Failed to rename temp to final" r)
        | (m, r) => (m, internal_with_source "Failed to write temp file" r)
        end)
  | (m, Err e) => (m, Err e)
  | (m, Panic) => (m, Panic)
  end.

Definition put_from_path (m : fs) (key : string) (source : path) : fs * StorageResult unit :=
  match prepare_object m key with
  | (m, Ok dest) =>
      match rename m source dest with
      | (m, Ok _) => (m, Ok tt)
      | (m, _) =>
          match copy_then_rename m source dest with
          | (m, Ok _) => (fst (remove_file m source), Ok tt)
          | r => r
          end
      end
  | (m, Err e) => (m, Err e)
  | (m, Panic) => (m, Panic)
  end.

(** The checked path of an existing object; the error carries the key. *)
Definition existing_path (m : fs) (key : string) : StorageResult path :=
  let* p := object_path key in
  map_err (fun e => match e with NotFound _ => NotFound key | e => e end) (canonicalize_confined m p).

Definition not_found_key {A} (key msg : string) (o : outcome fs_error A) : StorageResult A :=
  map_err (fun e => match e with FsNotFound => NotFound key | FsOther => Internal msg end) o.

Definition get (m : fs) (key : string) : StorageResult (list byte) :=
  let* p := existing_path m key in not_found_key key "Failed to read" (read m p).

Definition get_path (m : fs) (key : string) : StorageResult (option path) :=
  let* p := object_path key in
  let* _ := reject_symlink_components m p in
  match canonicalize_confined m p with
  | Ok p => Ok (Some p)
  | Err (NotFound _) => Ok (Some p)
  | Err e => Err e
  | Panic => Panic
  end.

Definition download_to_path (m : fs) (key : string) (dest : path) : fs * StorageResult unit :=
  match existing_path m key with
  | Ok source =>
      match (match parent dest with Some dir => create_dir_all m dir | None => (m, Ok tt) end) with
      | (m, Ok _) =>
          match metadata m source with
          | Ok (FFile _) => copy_then_rename m source dest
          | Ok _ => (m, Err (Internal "Object path is not a file"))
          | Err FsNotFound => (m, Err (NotFound key))
          | Err FsOther => (m, Err (Internal "Failed to stat object"))
          | Panic => (m, Panic)
          end
      | (m, r) => (m, internal_with_source "Failed to create dirs" r)
      end
  | Err e => (m, Err e)
  | Panic => (m, Panic)
  end.

Definition exists_ (m : fs) (key : string) : StorageResult bool :=
  let* p := object_path key in
  let* _ := reject_symlink_components m p in
  match canonicalize_confined m p with
  | Ok _ => Ok true
  | Err (NotFound _) => Ok false
  | Err e => Err e
  | Panic => Panic
  end.

Definition local_delete (m : fs) (key : string) : fs * StorageResult unit :=
  match (let* p := object_path key in canonicalize_confined m p) with
  | Ok p =>
      match remove_file m p with
      | (m, Ok _) => (m, Ok tt)
      | (m, Err FsNotFound) => (m, Ok tt)
      | (m, r) => (m, internal_with_source "Failed to delete" r)
      end
  | Err (NotFound _) => (m, Ok tt)
  | Err e => (m, Err e)
  | Panic => (m, Panic)
  end.

Definition get_size (m : fs) (key : string) : StorageResult Z :=
  let* p := existing_path m key in
  let* node := not_found_key key "Failed to get metadata" (metadata m p) in
  match node with FFile data => Ok (len data) | _ => Ok (dir_len p) end.
End Local.

(** ** Lemmas: keys *)

Lemma split_where_refine (f g : ascii -> bool) s :
  (forall a, f a = true -> g a = true) ->
  match split_where f s, split_where g s with
  | p1 :: r1, p2 :: r2 =>
      (string_forallb (fun a => negb (g a)) p1 = true -> p2 = p1) /\
      forall c, c ∈ r1 -> string_forallb (fun a => negb (g a)) c = true -> c ∈ r2
  | _, _ => False
  end.
Proof.
  intros Hfg. induction s as [|a s IH]; cbn [split_where]; [by split|].
  destruct (split_where f s) as [|p1 r1], (split_where g s) as [|p2 r2]; try done.
  destruct IH as [Hp Hr]. destruct (f a) eqn:Ef.
  - rewrite (Hfg a Ef). split; [done|]. intros c [-> |Hc]%elem_of_cons Hfree; [rewrite Hp by done; left|right; auto].
  - destruct (g a) eqn:Eg.
    + split; [cbn; rewrite Eg; done|]. intros c Hc Hfree. right. auto.
    + split; [|done]. cbn. rewrite Eg. cbn. intros Hfree. by rewrite Hp.
Qed.

Lemma key_components_no_dots key :
  existsb (fun c => c =? "..")%string (split_where is_separator key) = false -> Forall (fun c => c <> "..") (key_components key).
Proof.
  intros He. apply Forall_forall. intros c Hc ->. unfold key_components in Hc. apply list_elem_of_In, filter_In in Hc as [Hc _].
  apply list_elem_of_In in Hc.
  assert (forall a, is_slash a = true -> is_separator a = true) as Hsep by (unfold is_separator, is_slash; by intros a ->).
  pose proof (split_where_refine is_slash is_separator key Hsep) as Hr. destruct (split_where is_slash key) as [|p1 r1]; [done|].
  destruct (split_where is_separator key) as [|p2 r2]; [done|]. destruct Hr as [Hp Hr].
  assert (".." ∈ p2 :: r2) as Hin.
  { apply elem_of_cons in Hc as [E|Hc]; [rewrite Hp by (by rewrite <- E); rewrite <- E; left|right; by apply Hr]. }
  enough (existsb (fun c => c =? "..")%string (p2 :: r2) = true) by congruence.
  apply existsb_exists. exists "..". by apply list_elem_of_In in Hin.
Qed.

Lemma path_strip_prefix_Some base p rel : path_strip_prefix base p = Some rel <-> p = base ++ rel.
Proof.
  revert p. induction base as [|b base IH]; intros p; cbn; [split; congruence|]. destruct p as [|c p]; [done|].
  destruct (String.eqb_spec b c) as [->|Hne]; [rewrite IH; split; congruence|]. split; [done|]. intros E. by injection E as -> _.
Qed.

(** A new uuid names a path that is not there, and not the one it is made for. *)
Definition uuid_fresh (uuid : fs -> path -> string) : Prop :=
  forall m dest, dest <> [] -> m !! unique_temp_path uuid m dest = None /\ unique_temp_path uuid m dest <> dest.

Section LocalLemmas.
Context `{FsFaults} (uuid : fs -> path -> string) (base_path : path).

Lemma object_path_Ok key p :
  object_path base_path key = Ok p -> p = base_path ++ key_components key /\ Forall (fun c => c <> "..") (key_components key).
Proof.
  unfold object_path. destruct (negb (_ || _)); [|done]. destruct (negb (contains_char _ _)); [|done]. destruct (negb (key =? "")%string); [|done].
  destruct (existsb _ _) eqn:E; [done|]. intros [= <-]. split; [done|]. by apply key_components_no_dots.
Qed.

Lemma object_path_not_panic key : object_path base_path key <> Panic.
Proof. unfold object_path. by repeat case_match. Qed.

Definition root_ok (m : fs) : Prop := fs_wf m /\ dirs m [] base_path.

Lemma lstat_reached m q : reached m q ->
  symlink_metadata m q = Err FsOther \/
  symlink_metadata m q = match m !! q with Some n => Ok n | None => Err FsNotFound end.
Proof.
  intros Hr. unfold symlink_metadata, guarded. destruct (fails _); [by left|right].
  rewrite resolve_reached_nofollow, reached_lookup by done. by destruct (m !! q).
Qed.

Lemma lstat_not_panic m q : symlink_metadata m q <> Panic.
Proof.
  unfold symlink_metadata, guarded. destruct (fails _); [done|]. pose proof (resolve_not_panic m false q).
  destruct (resolve m false q) as [r| |]; [|done..]. by destruct (node_at m r).
Qed.

Lemma reject_links_not_panic m rel : forall cur, reject_links m cur rel <> Panic.
Proof.
  induction rel as [|c rel IH]; intros cur; [done|]. cbn [reject_links]. pose proof (lstat_not_panic m (cur ++ [c])).
  destruct (symlink_metadata _ _) as [[| |]|[]|]; auto; done.
Qed.

Lemma reject_links_plain m rel : forall cur,
  dirs m [] cur -> Forall (fun c => c <> "..") rel -> reject_links m cur rel = Ok tt -> plain m cur rel.
Proof.
  induction rel as [|c rel IH]; intros cur Hd Hdots Ho; [done|]. apply Forall_cons in Hdots as [Hc Hdots]. cbn [reject_links] in Ho.
  assert (reached m (cur ++ [c])) as Hr by (exists cur, c; done). cbn [plain].
  destruct (lstat_reached m _ Hr) as [E|E]; rewrite E in Ho; [done|].
  destruct (m !! (cur ++ [c])) as [[|d|a t]|] eqn:En; [|done..]. split; [done|]. apply IH; [by apply dirs_app|done..].
Qed.

Lemma reject_not_found m p k : reject_symlink_components base_path m p <> Err (NotFound k).
Proof.
  assert (forall rel cur, reject_links m cur rel <> Err (NotFound k)) as Hl.
  { induction rel as [|c rel IH]; intros cur; [done|]. cbn [reject_links]. destruct (symlink_metadata _ _) as [[| |]|[]|]; auto; done. }
  unfold reject_symlink_components. destruct (symlink_metadata _ _) as [[| |]|[]|]; try done.
  by destruct (path_strip_prefix _ _); cbn [ok_or].
Qed.

Lemma base_no_dots m : dirs m [] base_path -> Forall (fun c => c <> "..") base_path.
Proof.
  generalize (@nil string). induction base_path as [|b l IH]; intros cur Hd; [constructor|]. destruct Hd as (Hb & _ & Hd). constructor; eauto.
Qed.

Lemma reject_spec m rel :
  root_ok m -> Forall (fun c => c <> "..") rel ->
  reject_symlink_components base_path m (base_path ++ rel) <> Panic /\
  (reject_symlink_components base_path m (base_path ++ rel) = Ok tt -> plain m [] (base_path ++ rel)).
Proof.
  intros [Hw Hd] Hdots. unfold reject_symlink_components. pose proof (lstat_not_panic m base_path).
  destruct (symlink_metadata m base_path) as [[| |]|[]|]; try done.
  assert (path_strip_prefix base_path (base_path ++ rel) = Some rel) as -> by (by apply path_strip_prefix_Some). cbn [ok_or].
  split; [apply reject_links_not_panic|]. intros E. apply plain_app; [done|]. by apply reject_links_plain.
Qed.

Lemma canonicalize_confined_spec m rel :
  root_ok m -> Forall (fun c => c <> "..") rel ->
  match canonicalize_confined base_path m (base_path ++ rel) with
  | Ok q => q = base_path ++ rel /\ is_Some (node_at m q) /\ (rel <> [] -> reached m q /\ not_link m q)
  | Err (NotFound _) => rel <> [] /\ m !! (base_path ++ rel) = None
  | Err _ => True
  | Panic => False
  end.
Proof.
  intros [Hw Hd] Hdots. unfold canonicalize_confined. destruct (reject_spec m rel (conj Hw Hd) Hdots) as [Hnp Hplain].
  destruct (reject_symlink_components _ _ _) as [[]|e|] eqn:Er; [| |done].
  2: { destruct e; try done. by apply reject_not_found in Er. }
  specialize (Hplain eq_refl). unfold canonicalize, guarded. destruct (fails _); [done|].
  destruct rel as [|c rel].
  - rewrite app_nil_r in *. rewrite resolve_dirs by done. rewrite (node_at_dirs m base_path Hd). cbn [map_err].
    unfold ensure_resolved_within_base. destruct (path_strip_prefix _ _); [|done]. rewrite (node_at_dirs m base_path Hd).
    split; [done|]. split; [by eexists|done].
  - assert (base_path ++ c :: rel <> []) as Hne by (by destruct base_path).
    pose proof (resolve_plain m true _ Hw Hplain Hne) as Hr. destruct (resolve m true _) as [q|e|]; [| |done].
    + destruct Hr as [-> Hdirs]. assert (node_at m (base_path ++ c :: rel) = m !! (base_path ++ c :: rel)) as En by (by destruct base_path).
      destruct (node_at m (base_path ++ c :: rel)) as [n|] eqn:E; cbn [map_err]; [|by rewrite <- En].
      unfold ensure_resolved_within_base. destruct (path_strip_prefix _ _); [|done]. split; [done|]. rewrite E. split; [by eexists|]. intros _. split.
      * destruct (snoc_cases (base_path ++ c :: rel)) as [E'|(p & x & E')]; [done|]. rewrite E' in *. rewrite removelast_last in Hdirs.
        exists p, x. split; [done|]. split; [done|]. assert (Forall (fun c => c <> "..") (p ++ [x])) as Hall.
        { rewrite <- E'. apply Forall_app. split; [by eapply base_no_dots|done]. }
        apply Forall_app in Hall as [_ Hx]. by inversion Hx.
      * intros a t Hl. rewrite E, En in Hl. by apply (plain_not_link m _ Hw [] Hplain Hne a t).
    + destruct e; cbn [map_err]; done.
Qed.

Lemma dirs_prefix m p n : dirs m [] p -> (0 < n <= length p)%nat -> m !! take n p = Some FDir.
Proof.
  intros Hd Hn. rewrite <- (take_drop n p) in Hd. apply dirs_app in Hd as [Hd _]. apply (dirs_node m _ [] Hd).
  intros E%(f_equal length). rewrite length_take in E. cbn in E. lia.
Qed.

(** Making directories for a path below the root makes them below the root. *)
Lemma made_below m m' rel : dirs m [] base_path -> made m m' [] (base_path ++ rel) -> made m m' base_path rel.
Proof.
  intros Hd Hm p. destruct (Hm p) as [->|(E1 & E2 & k & Hk & ->)]; [by left|]. right. split; [done|]. split; [done|]. cbn [app] in *.
  destruct (decide (S k <= length base_path)%nat) as [Hle|Hgt].
  - exfalso. rewrite take_app_le in E1 by done. rewrite dirs_prefix in E1 by (done || lia). done.
  - rewrite length_app in Hk. exists (S k - length base_path - 1)%nat. split; [lia|]. rewrite take_app_ge by lia. do 2 f_equal. lia.
Qed.

Lemma removelast_app_ne (l1 l2 : path) : l2 <> [] -> removelast (l1 ++ l2) = l1 ++ removelast l2.
Proof. intros Hl. by apply removelast_app. Qed.

Lemma removelast_Forall (P : string -> Prop) l : Forall P l -> Forall P (removelast l).
Proof. intros Hf. destruct (snoc_cases l) as [->|(q & c & ->)]; [done|]. rewrite removelast_last. by apply Forall_app in Hf as [? _]. Qed.

(** Directories made on the way to an object. *)
Definition prepared (m m' : fs) (rel : path) : Prop := root_ok m' /\ made m m' base_path (removelast rel).

Lemma prepared_refl m rel : root_ok m -> prepared m m rel.
Proof. split; [done|]. intros p. by left. Qed.

Lemma prepare_parent_spec m rel :
  root_ok m -> Forall (fun c => c <> "..") rel -> plain m [] (base_path ++ rel) ->
  let '(m', r) := prepare_parent base_path m (base_path ++ rel) in
  r <> Panic /\ prepared m m' rel /\ (r = Ok tt -> rel <> [] /\ reached m' (base_path ++ rel) /\ not_link m' (base_path ++ rel)).
Proof.
  intros [Hw Hd] Hdots Hplain. pose proof (prepared_refl m rel (conj Hw Hd)) as Hrefl. unfold prepare_parent, parent.
  destruct (base_path ++ rel) as [|x l] eqn:E; [done|]. rewrite <- E in *.
  assert (base_path ++ rel <> []) as Hbr by (by rewrite E). clear x l E. destruct rel as [|c rel'].
  - rewrite app_nil_r in *. unfold reject_symlink_components. pose proof (lstat_not_panic m base_path).
    destruct (symlink_metadata m base_path) as [[| |]|[]|]; try done.
    destruct (path_strip_prefix base_path (removelast base_path)) as [r|] eqn:Es; cbn [ok_or]; [|done].
    apply path_strip_prefix_Some, (f_equal length) in Es. rewrite length_app in Es.
    destruct (snoc_cases base_path) as [Eb|(q & y & Eb)]; [|rewrite Eb, removelast_last, length_app in Es; cbn in Es; lia].
    by rewrite Eb in Hbr.
  - set (rel := c :: rel') in *. assert (rel <> []) as Hrel by done. rewrite removelast_app_ne by done.
    pose proof (removelast_Forall _ _ Hdots) as Hdots'.
    destruct (reject_spec m (removelast rel) (conj Hw Hd) Hdots') as [Hnp Hpl]. destruct (reject_symlink_components _ _ _) as [[]|e|]; [|done..].
    specialize (Hpl eq_refl). pose proof (create_dirs_spec (base_path ++ removelast rel) m [] Hw I Hpl) as Hc.
    unfold create_dir_all. destruct (create_dirs m [] (base_path ++ removelast rel)) as [m' r].
    destruct Hc as (Hnp' & Hw' & _ & Hm & Hok); [apply Forall_app; split; [by eapply base_no_dots|done]|].
    apply made_below in Hm; [|done].
    assert (root_ok m') as Hroot by (split; [done|]; eapply dirs_mono; [intros p Hp; by eapply made_keeps|done]).
    destruct r as [[]|e|]; cbn [internal_with_source map_err]; [|done..]. specialize (Hok eq_refl).
    pose proof (canonicalize_confined_spec m' (removelast rel) Hroot Hdots') as Hcan.
    destruct (canonicalize_confined _ _ _) as [q|e|]; [|done..]. split; [done|]. split; [done|]. intros _. split; [done|].
    assert (exists q' x, base_path ++ rel = q' ++ [x] /\ q' = base_path ++ removelast rel /\ x <> "..") as (q' & x & E & -> & Hx).
    { destruct (snoc_cases rel) as [?|(q' & x & E)]; [done|]. rewrite E in *. rewrite removelast_last in *.
      exists (base_path ++ q'), x. rewrite app_assoc. split; [done|]. split; [done|]. apply Forall_app in Hdots as [_ Hx]. by inversion Hx. }
    rewrite E in *. split; [by exists (base_path ++ removelast rel), x|]. intros a t. rewrite node_at_snoc.
    assert ((base_path ++ removelast rel) ++ [x] <> []) as Hne by (by destruct (base_path ++ removelast rel)).
    destruct (Hm ((base_path ++ removelast rel) ++ [x])) as [->|(_ & -> & _)]; [|done].
    by apply (plain_not_link m _ Hw [] Hplain Hne a t).
Qed.

Lemma prepare_object_spec m key :
  root_ok m ->
  let '(m', r) := prepare_object base_path m key in
  r <> Panic /\ prepared m m' (key_components key) /\
  forall p, r = Ok p -> p = base_path ++ key_components key /\ key_components key <> [] /\ reached m' p /\ not_link m' p.
Proof.
  intros Hroot. pose proof (prepared_refl m (key_components key) Hroot) as Hrefl. unfold prepare_object.
  pose proof (object_path_not_panic key). destruct (object_path base_path key) as [p|e|] eqn:Eo; [|done..].
  apply object_path_Ok in Eo as [-> Hdots]. destruct (reject_spec m _ Hroot Hdots) as [Hnp Hpl].
  destruct (reject_symlink_components _ _ _) as [[]|e|]; [|done..]. specialize (Hpl eq_refl).
  pose proof (prepare_parent_spec m _ Hroot Hdots Hpl) as Hpp. destruct (prepare_parent _ _ _) as [m' r].
  destruct Hpp as (Hnp' & Hprep & Hok). destruct r as [[]|e|]; [|done..]. split; [done|]. split; [done|]. intros p [= <-].
  destruct (Hok eq_refl) as (Hne & Hr & Hl). done.
Qed.

(** Only [temp] and [p] changed: they hold what they held, nothing, or a file that is not larger than [n]. *)
Definition touched (temp p : path) (n : Z) (m m' : fs) : Prop :=
  fs_wf m' /\ (forall cur todo, dirs m cur todo -> dirs m' cur todo) /\
  forall q, m' !! q = m !! q \/
    ((q = temp \/ q = p) /\ m !! q <> Some FDir /\ (m' !! q = None \/ exists d, m' !! q = Some (FFile d) /\ len d <= n)).

Lemma touched_refl temp p n m : fs_wf m -> touched temp p n m m.
Proof. split; [done|]. split; [done|]. by left. Qed.

Lemma touched_trans temp p n m1 m2 m3 : touched temp p n m1 m2 -> touched temp p n m2 m3 -> touched temp p n m1 m3.
Proof.
  intros (_ & D1 & T1) (W & D2 & T2). split; [done|]. split; [auto|]. intros q. destruct (T2 q) as [->|(Hq & Hd & H2)]; [apply T1|].
  right. split; [done|]. split; [|done]. destruct (T1 q) as [<-|(_ & ? & _)]; done.
Qed.

Lemma touched_insert temp p n m q d :
  fs_wf m -> reached m q -> m !! q <> Some FDir -> len d <= n -> q = temp \/ q = p -> touched temp p n m (<[q := FFile d]> m).
Proof.
  intros Hw Hr Hn Hl Hq. destruct (reached_in_dir m q Hr) as [Hin Hne]. split; [apply insert_at; [done..|]; by rewrite reached_lookup|].
  split; [intros cur todo; by apply dirs_insert|]. intros q'. destruct (decide (q' = q)) as [->|Hd].
  - right. split; [done|]. split; [done|]. right. exists d. by rewrite lookup_insert_eq.
  - left. by rewrite lookup_insert_ne by congruence.
Qed.

Lemma touched_delete temp p n m q : fs_wf m -> m !! q <> Some FDir -> q = temp \/ q = p -> touched temp p n m (delete q m).
Proof.
  intros Hw Hn Hq. split; [by apply fs_wf_delete|]. split; [intros cur todo; by apply dirs_delete|]. intros q'.
  destruct (decide (q' = q)) as [->|Hd]; [right; rewrite lookup_delete_eq; auto|left; by rewrite lookup_delete_ne by congruence].
Qed.

Lemma touched_reached temp p n m m' q : touched temp p n m m' -> reached m q -> reached m' q.
Proof. intros (_ & D & _) (p' & c & -> & Hd & Hc). exists p', c. auto. Qed.

(** Writing a new file and renaming it onto [p]. *)
Lemma write_rename_spec m temp p data msg1 msg2 :
  fs_wf m -> reached m temp -> m !! temp = None -> reached m p ->
  let '(m', r) :=
    match write m temp data with
    | (m, Ok _) => let '(m, r) := rename m temp p in (m, internal_with_source msg1 r)
    | (m, r) => (m, internal_with_source msg2 r)
    end in
  let m' := fst (remove_file m' temp) in
  r <> Panic /\ touched temp p (len data) m m' /\
  (temp <> p -> (m' !! p = m !! p \/ m' !! p = Some (FFile data)) /\ (r = Ok tt -> m' !! p = Some (FFile data) /\ m' !! temp = None)).
Proof.
  intros Hw Ht Hn Hp. assert (not_link m temp) as Hl by (intros a t; by rewrite reached_lookup, Hn).
  assert (forall m1, touched temp p (len data) m m1 ->
    touched temp p (len data) m (fst (remove_file m1 temp)) /\ (temp <> p -> fst (remove_file m1 temp) !! p = m1 !! p /\ (m1 !! temp = None -> fst (remove_file m1 temp) !! temp = None))) as Hdrop.
  { intros m1 Htch. destruct (remove_reached m1 temp) as (Hnp & Hok & Hsame & _); [by eapply touched_reached|].
    destruct (remove_file m1 temp) as [m2 r]. cbn [fst snd] in *. destruct r as [[]|e|]; [|by rewrite Hsame..].
    destruct (Hok eq_refl) as [Hnd ->]. split; [|intros; split; [by apply lookup_delete_ne|by rewrite lookup_delete_eq]].
    eapply touched_trans; [done|]. apply touched_delete; [apply Htch|done|by left]. }
  destruct (write_reached m temp data Ht Hl) as (Hnp & Hok & Hst). destruct (write m temp data) as [m1 [[]|e|]]; cbn [fst snd] in *; [| |done].
  2: { assert (touched temp p (len data) m m1) as Htch.
       { destruct Hst as [->|(Hnd & d & Hd & ->)]; [by apply touched_refl|]. apply touched_insert; [done..|by left]. }
       destruct (Hdrop m1 Htch) as [Htch' Hp']. split; [done|]. split; [done|]. intros Hne. destruct (Hp' Hne) as [-> _]. split; [|done].
       left. destruct Hst as [->|(_ & d & _ & ->)]; [done|]. by apply lookup_insert_ne. }
  destruct (Hok eq_refl) as [Hnd ->]. set (m1 := <[temp := FFile data]> m).
  assert (touched temp p (len data) m m1) as Ht1 by (apply touched_insert; [done..|by left]).
  destruct (rename_reached m1 temp p) as (Hrp & Hrok & Hrsame); [by eapply touched_reached..|].
  destruct (rename m1 temp p) as [m2 [[]|e|]]; cbn [fst snd] in *; [| |done].
  - destruct (Hrok eq_refl) as (Ha & Hb & node & En & ->). unfold m1 in En. rewrite lookup_insert_eq in En. injection En as <-.
    assert (touched temp p (len data) m1 (delete temp m1)) as Ht2 by (apply touched_delete; [apply Ht1|done|by left]).
    assert (touched temp p (len data) (delete temp m1) (<[p := FFile data]> (delete temp m1))) as Ht3.
    { apply touched_insert; [apply Ht2| | |done|by right].
      - eapply touched_reached; [exact Ht2|]. by eapply touched_reached.
      - destruct (decide (p = temp)) as [->|Hne]; [by rewrite lookup_delete_eq|by rewrite lookup_delete_ne by congruence]. }
    destruct (Hdrop (<[p := FFile data]> (delete temp m1))) as [Htch' Hp'].
    { eapply touched_trans; [exact Ht1|]. by eapply touched_trans. }
    split; [done|]. split; [done|]. intros Hne. destruct (Hp' Hne) as [-> Hgone]. rewrite lookup_insert_eq.
    split; [by right|]. intros _. split; [done|]. apply Hgone. by rewrite lookup_insert_ne, lookup_delete_eq by congruence.
  - rewrite Hrsame by done. destruct (Hdrop m1 Ht1) as [Htch' Hp']. split; [done|]. split; [done|]. intros Hne. destruct (Hp' Hne) as [-> _]. split; [|done].
    left. by apply lookup_insert_ne.
Qed.

(** The temporary name next to [p] has a dot. *)
Lemma temp_name m p :
  p <> [] -> exists x, unique_temp_path uuid m p = removelast p ++ [x] /\ contains_char "." x = true /\ x <> "..".
Proof.
  intros Hne. unfold unique_temp_path. destruct (snoc_cases p) as [?|(q & name & ->)]; [done|]. rewrite last_snoc, removelast_last.
  eexists. split; [done|]. split; [by rewrite !contains_char_app, orb_true_r|].
  intros E%(f_equal (contains_char "t")). rewrite !contains_char_app in E. cbn in E. by rewrite !orb_true_r in E.
Qed.

Lemma temp_reached m p : reached m p -> reached m (unique_temp_path uuid m p).
Proof.
  intros (q & c & -> & Hd & Hc). destruct (temp_name m (q ++ [c])) as (x & -> & _ & Hx); [by destruct q|]. rewrite removelast_last. by exists q, x.
Qed.

(** What writing the object of a key may change: the directories above it, a
    temporary file next to it, and the object. *)
Definition object_changes (m m' : fs) (rel : path) (n : Z) : Prop :=
  forall q, m' !! q = m !! q \/
    (m !! q = None /\ m' !! q = Some FDir /\ exists k, (k < length (removelast rel))%nat /\ q = base_path ++ take (S k) (removelast rel)) \/
    (rel <> [] /\ (q = base_path ++ rel \/ exists x, contains_char "." x = true /\ q = base_path ++ removelast rel ++ [x]) /\
     m !! q <> Some FDir /\ (m' !! q = None \/ exists d, m' !! q = Some (FFile d) /\ len d <= n)).

(** What an operation on the object of a key changed, besides the file it moved
    from [source] if it succeeded: the object, which has the content [data] now; directories on
    the way to it, which were not there; and one temporary file next to it,
    which was not there and stays only if the operation failed. *)
Definition own_changes (m m' : fs) (rel : path) (data : list byte) (source : option path) (r : StorageResult unit) : Prop :=
  exists temp,
  (m' !! temp <> m !! temp -> m !! temp = None /\ r <> Ok tt /\ exists name, temp = base_path ++ removelast rel ++ [name]) /\
  forall q, m' !! q <> m !! q ->
    (q = base_path ++ rel /\ rel <> [] /\ m !! q <> Some FDir /\ m' !! q = Some (FFile data)) \/
    (m !! q = None /\ m' !! q = Some FDir /\ exists k, (k < length (removelast rel))%nat /\ q = base_path ++ take (S k) (removelast rel)) \/
    q = temp \/
    (source = Some q /\ m' !! q = None /\ r = Ok tt).

(** The object of a key. *)
Definition object_written (m m' : fs) (rel : path) (data : list byte) (r : StorageResult unit) : Prop :=
  (m' !! (base_path ++ rel) = m !! (base_path ++ rel) \/ m' !! (base_path ++ rel) = Some (FFile data)) /\
  (r = Ok tt -> m' !! (base_path ++ rel) = Some (FFile data)).

Lemma made_object m m' rel : made m m' base_path (removelast rel) -> m' !! (base_path ++ rel) = m !! (base_path ++ rel).
Proof.
  intros Hm. destruct (Hm (base_path ++ rel)) as [->|(_ & _ & k & Hk & E)]; [done|]. exfalso. apply app_inv_head, (f_equal length) in E.
  rewrite length_take in E. destruct (snoc_cases rel) as [->|(q & c & ->)]; [cbn in Hk; lia|]. rewrite removelast_last, length_app in *. cbn [length] in E. lia.
Qed.

Lemma made_changes m m' rel n : made m m' base_path (removelast rel) -> object_changes m m' rel n.
Proof. intros Hm q. destruct (Hm q) as [->|?]; [by left|right; by left]. Qed.

Lemma touched_changes m1 m2 m3 rel n :
  rel <> [] -> made m1 m2 base_path (removelast rel) -> touched (unique_temp_path uuid m2 (base_path ++ rel)) (base_path ++ rel) n m2 m3 ->
  object_changes m1 m3 rel n.
Proof.
  intros Hne Hm (_ & _ & Ht) q. destruct (Ht q) as [->|(Hq & Hd & H3)]; [by apply (made_changes m1 m2 rel n Hm)|].
  right. right. split; [done|]. split; [|split; [|done]].
  - destruct Hq as [->| ->]; [right|by left]. destruct (temp_name m2 (base_path ++ rel)) as (x & -> & Hx & _); [by destruct base_path, rel|].
    exists x. split; [done|]. by rewrite removelast_app_ne, <- app_assoc.
  - destruct (Hm q) as [<-|(E & _)]; [done|by rewrite E].
Qed.

Lemma made_own m m' rel data source e : root_ok m -> root_ok m' -> made m m' base_path (removelast rel) -> own_changes m m' rel data source (Err e).
Proof.
  intros Hroot Hroot' Hm. exists []. split; [intros []; by destruct Hroot as [[-> _] _], Hroot' as [[-> _] _]|]. intros q Hq. right. left. by destruct (Hm q).
Qed.

Lemma touched_own m1 m2 m3 rel n data source r :
  rel <> [] -> made m1 m2 base_path (removelast rel) -> let temp := unique_temp_path uuid m2 (base_path ++ rel) in
  touched temp (base_path ++ rel) n m2 m3 -> m2 !! temp = None -> object_written m1 m3 rel data r -> (r = Ok tt -> m3 !! temp = None) ->
  own_changes m1 m3 rel data source r.
Proof.
  intros Hne Hm temp (_ & _ & Ht) Hfr [Hw _] Hgone. exists temp.
  assert (m1 !! temp = None) as Hfr1 by (destruct (Hm temp) as [<-|(E & _)]; done). split.
  - intros Hq. split; [done|]. split; [intros E; specialize (Hgone E); congruence|]. destruct (temp_name m2 (base_path ++ rel)) as (x & Ex & _); [by destruct base_path, rel|].
    exists x. fold temp in Ex. by rewrite Ex, removelast_app_ne, <- app_assoc.
  - intros q Hq. destruct (Ht q) as [E|([->| ->] & Hd & _)]; [|by right; right; left|].
    + right. left. destruct (Hm q) as [E'|Hd]; [congruence|]. by rewrite E.
    + left. split; [done|]. split; [done|]. split; [by destruct (Hm (base_path ++ rel)) as [<-|(-> & _)]|]. by destruct Hw.
Qed.

Context (Hfresh : uuid_fresh uuid).

Lemma put_spec m key data :
  root_ok m ->
  let '(m', r) := put uuid base_path m key data in
  r <> Panic /\ root_ok m' /\ object_changes m m' (key_components key) (len data) /\ object_written m m' (key_components key) data r /\
  own_changes m m' (key_components key) data None r.
Proof.
  intros Hroot. unfold put. pose proof (prepare_object_spec m key Hroot) as Hp. destruct (prepare_object base_path m key) as [m1 r1].
  destruct Hp as (Hnp & (Hroot1 & Hm) & Hok). set (rel := key_components key) in *.
  assert (forall e, root_ok m1 /\ object_changes m m1 rel (len data) /\ object_written m m1 rel data (Err e) /\ own_changes m m1 rel data None (Err e)) as Hfail.
  { intros e. split; [done|]. split; [by apply (made_changes m m1)|]. split; [|by apply made_own]. unfold object_written. rewrite (made_object m m1 rel) by done. split; [by left|done]. }
  destruct r1 as [p|e|]; [|split; [done|apply Hfail]|done]. destruct (Hok p eq_refl) as (-> & Hne & Hr & Hl).
  pose proof (write_rename_spec m1 (unique_temp_path uuid m1 (base_path ++ rel)) (base_path ++ rel) data "Failed to rename temp to final"
    "Failed to write temp file" (proj1 Hroot1) (temp_reached _ _ Hr)) as Hwr.
  destruct (Hfresh m1 (base_path ++ rel) ltac:(by destruct base_path, rel)) as [Hn Hd]. specialize (Hwr Hn Hr).
  destruct (match write m1 _ data with (_, _) => _ end) as [m2 r2]. destruct Hwr as (Hnp2 & Ht & Hp).
  destruct (Hp Hd) as [H1 H2]. assert (object_written m (fst (remove_file m2 (unique_temp_path uuid m1 (base_path ++ rel)))) rel data r2) as Hw.
  { unfold object_written. rewrite <- (made_object m m1 rel) by done. split; [done|]. intros Hr2. by apply H2. }
  split; [done|]. split; [split; [apply Ht|apply Ht; apply Hroot1]|]. split; [by eapply touched_changes|]. split; [done|].
  eapply touched_own; [done|done|exact Ht|done|done|]. intros Hr2. by apply H2.
Qed.

Lemma copy_then_rename_spec m source p data :
  fs_wf m -> reached m p -> (forall d, read m source = Ok d -> d = data) ->
  let '(m', r) := copy_then_rename uuid m source p in
  let temp := unique_temp_path uuid m p in
  r <> Panic /\ touched temp p (len data) m m' /\
  (m' !! p = m !! p \/ m' !! p = Some (FFile data)) /\ (r = Ok tt -> m' !! p = Some (FFile data) /\ read m source = Ok data /\ m' !! temp = None).
Proof.
  intros Hw Hr Hd. unfold copy_then_rename. set (temp := unique_temp_path uuid m p). pose proof (temp_reached m p Hr) as Ht.
  destruct (Hfresh m p ltac:(by apply (reached_in_dir m p))) as [Hn Hd']. fold temp in Hn, Hd'.
  pose proof (write_rename_spec m temp p data "Failed to rename" "Failed to copy" Hw Ht Hn Hr) as Hwr.
  unfold copy. pose proof (read_not_panic m source). destruct (read m source) as [d|e|] eqn:E; [| |done].
  - rewrite (Hd d eq_refl) in *. destruct (match write m temp data with (_, _) => _ end) as [m2 r2].
    destruct Hwr as (Hnp & Htch & Hp). split; [done|]. split; [done|]. destruct (Hp Hd') as [H1 H2]. split; [done|]. intros Hr2. by destruct (H2 Hr2).
  - destruct (remove_reached m temp Ht) as (_ & Hok & Hsame & _). cbn [internal_with_source map_err].
    assert (fst (remove_file m temp) = m) as ->.
    { destruct (remove_file m temp) as [m2 [[]|e'|]]; cbn [fst snd] in *; [|by apply Hsame..].
      destruct (Hok eq_refl) as [_ ->]. by apply delete_id. }
    split; [done|]. split; [by apply touched_refl|]. split; [by left|done].
Qed.

(** Storing a file that lies outside the root. *)
Lemma put_from_path_spec m key source data :
  root_ok m -> reached m source -> m !! source = Some (FFile data) -> (forall rel, source <> base_path ++ rel) ->
  let '(m', r) := put_from_path uuid base_path m key source in
  r <> Panic /\ root_ok m' /\ object_written m m' (key_components key) data r /\
  own_changes m m' (key_components key) data (Some source) r /\
  exists m1, root_ok m1 /\ object_changes m m1 (key_components key) (len data) /\ (m' = m1 \/ m' = delete source m1).
Proof.
  intros Hroot Hs Hdata Hout. unfold put_from_path. pose proof (prepare_object_spec m key Hroot) as Hp.
  destruct (prepare_object base_path m key) as [m1 r1]. destruct Hp as (Hnp & (Hroot1 & Hm) & Hok). set (rel := key_components key) in *.
  assert (forall m' r, root_ok m' -> m' !! (base_path ++ rel) = m !! (base_path ++ rel) -> r <> Ok tt -> object_written m m' rel data r) as Hsame
    by (intros m' r _ E Hr; unfold object_written; rewrite E; split; [by left|done]).
  destruct r1 as [dest|e|]; [| |done].
  2: { split; [done|]. split; [done|]. split; [by apply Hsame; [|by apply made_object|]|]. split; [by apply made_own|]. exists m1. split; [done|]. split; [by apply made_changes|by left]. }
  destruct (Hok dest eq_refl) as (-> & Hne & Hr & Hl). destruct Hroot1 as [Hw1 Hd1].
  assert (m1 !! source = Some (FFile data)) as Hdata1.
  { destruct (Hm source) as [->|(_ & _ & k & _ & E)]; [done|]. by apply Hout in E. }
  assert (reached m1 source) as Hs1.
  { destruct Hs as (q & c & -> & Hd & Hc). exists q, c. split; [done|]. split; [|done]. eapply dirs_mono; [intros p Hp; by eapply made_keeps|done]. }
  assert (not_link m1 source) as Hsl by (intros a t; by rewrite reached_lookup, Hdata1).
  assert (source <> base_path ++ rel) as Hsd by apply Hout.
  assert (reached (delete source m1) (base_path ++ rel)) as Hr' by (apply reached_delete; [by rewrite Hdata1|done]).
  assert (root_ok (delete source m1)) as Hroot' by (split; [apply fs_wf_delete; [done|by rewrite Hdata1]|apply dirs_delete; [by rewrite Hdata1|done]]).
  destruct (rename_reached m1 source (base_path ++ rel) Hs1 Hr) as (Hrn & Hrok & Hrsame).
  destruct (rename m1 source (base_path ++ rel)) as [m2 [[]|e|]]; cbn [fst snd] in *; [| |done].
  - destruct (Hrok eq_refl) as (_ & Hb & node & En & ->). rewrite Hdata1 in En. injection En as <-.
    assert (fs_wf (<[base_path ++ rel := FFile data]> m1)) as Hwi
      by (destruct (reached_in_dir m1 _ Hr) as [Hin Hne']; apply insert_at; [done..|]; by rewrite reached_lookup).
    split; [done|]. rewrite <- delete_insert_ne by congruence. split; [|split].
    + split; [apply fs_wf_delete; [done|by rewrite lookup_insert_ne, Hdata1 by congruence]|].
      apply dirs_delete; [by rewrite lookup_insert_ne, Hdata1 by congruence|]. by apply dirs_insert.
    + unfold object_written. rewrite lookup_delete_ne, lookup_insert_eq by congruence. auto.
    + split; last first.
      { exists (<[base_path ++ rel := FFile data]> m1). split; [split; [done|by apply dirs_insert]|]. split; [|by right]. intros q. destruct (decide (q = base_path ++ rel)) as [->|Hq].
      * right. right. rewrite lookup_insert_eq. split; [done|]. split; [by left|]. split; [|right; eauto with lia].
        rewrite <- (made_object m m1 rel) by done. done.
      * rewrite lookup_insert_ne by congruence. by apply (made_changes m m1 rel). }
      exists []. split; [intros []; destruct Hroot as [[-> _] _]; rewrite lookup_delete_ne by (by destruct source; [destruct Hs as ([] & ? & ? & _)|]); destruct Hwi as [-> _]; done|].
      intros q Hq. destruct (decide (q = source)) as [->|Hqs]; [right; right; right; split; [done|split; [apply lookup_delete_eq|done]]|]. rewrite lookup_delete_ne in Hq |- * by congruence.
      destruct (decide (q = base_path ++ rel)) as [->|Hqd].
      * left. rewrite lookup_insert_eq. split; [done|]. split; [done|]. split; [|done]. rewrite <- (made_object m m1 rel) by done. done.
      * right. left. rewrite lookup_insert_ne in Hq |- * by congruence. by destruct (Hm q).
  - rewrite Hrsame by done. pose proof (copy_then_rename_spec m1 source (base_path ++ rel) data Hw1 Hr) as Hc.
    destruct (copy_then_rename uuid m1 source (base_path ++ rel)) as [m3 r3]. destruct Hc as (Hnp3 & Ht & H1 & H2).
    { intros d Hread. apply read_reached in Hread; [|done..]. congruence. }
    assert (object_changes m m3 rel (len data)) as Hch by (by eapply touched_changes).
    assert (root_ok m3) as Hroot3 by (split; [apply Ht|apply Ht; done]).
    assert (object_written m m3 rel data r3) as Hwr.
    { unfold object_written. rewrite <- (made_object m m1 rel) by done. split; [done|]. intros Hr3. by apply H2. }
    destruct (Hfresh m1 (base_path ++ rel) ltac:(by destruct base_path, rel)) as [Htn _].
    assert (own_changes m m3 rel data (Some source) r3) as Hown by (eapply touched_own; [done|done|exact Ht|done|done|]; intros Hr3; by apply H2).
    destruct r3 as [[]|e3|]; [| |done].
    2: { split; [done|]. split; [done|]. split; [done|]. split; [done|]. exists m3. split; [done|]. split; [done|by left]. }
    split; [done|]. assert (m3 !! source = Some (FFile data) \/ m3 !! source = None) as Hs3.
    { destruct Ht as (_ & _ & Ht). destruct (Ht source) as [->|([-> | ->] & _ & _)]; [by left| |done].
      exfalso. destruct (Hfresh m1 (base_path ++ rel) ltac:(by destruct base_path, rel)) as [E _]. congruence. }
    assert (reached m3 source) as Hrs3 by (by eapply touched_reached).
    destruct (remove_reached m3 source Hrs3) as (Hrnp & Hrmok & Hrmsame & _).
    destruct (remove_file m3 source) as [m4 [[]|e4|]]; cbn [fst snd] in *; [| |done].
    + destruct (Hrmok eq_refl) as [Hnd ->]. split; [split; [by apply fs_wf_delete; [apply Ht|]|by apply dirs_delete; [|apply Hroot3]]|]. split.
      * unfold object_written. rewrite lookup_delete_ne by congruence. by apply Hwr.
      * split; last first.
        { exists m3. split; [done|]. split; [done|by right]. }
        destruct Hown as (temp & Htemp & Hq). exists (if decide (temp = source) then [] else temp).
        assert (source <> []) as Hsn by (destruct Hs as (? & ? & -> & _); by destruct x).
        split; [case_decide|]; [|by rewrite lookup_delete_ne by congruence|].
        { rewrite lookup_delete_ne by done. destruct Hroot as [[-> _] _], Hroot3 as [[-> _] _]. done. }
        intros q Hne'. destruct (decide (q = source)) as [->|Hqs]; [right; right; right; split; [done|split; [apply lookup_delete_eq|done]]|].
        rewrite lookup_delete_ne in Hne' |- * by congruence. destruct (Hq q Hne') as [?|[?|[->|?]]]; [tauto|tauto| |tauto]. right. right. left. by rewrite decide_False.
    + rewrite Hrmsame by done. split; [done|]. split; [done|]. split; [done|]. exists m3. split; [done|]. split; [done|by left].
Qed.

(** *** Reading *)

Lemma existing_path_spec m key :
  root_ok m ->
  match existing_path base_path m key with
  | Ok p => p = base_path ++ key_components key /\ is_Some (node_at m p) /\ (key_components key <> [] -> reached m p /\ not_link m p)
  | Err (NotFound _) => key_components key <> [] /\ m !! (base_path ++ key_components key) = None
  | Err _ => True
  | Panic => False
  end.
Proof.
  intros Hroot. unfold existing_path. pose proof (object_path_not_panic key). destruct (object_path base_path key) as [p|e|] eqn:E; [| |done].
  - apply object_path_Ok in E as [-> Hdots]. pose proof (canonicalize_confined_spec m _ Hroot Hdots) as Hc.
    destruct (canonicalize_confined _ _ _) as [q|[]|]; done.
  - destruct e; try done. unfold object_path in E. by repeat case_match.
Qed.

(** The node of a key, when its path is not the root itself. *)
Lemma get_spec m key :
  root_ok m -> get base_path m key <> Panic /\
  forall d, get base_path m key = Ok d -> key_components key <> [] /\ m !! (base_path ++ key_components key) = Some (FFile d).
Proof.
  intros Hroot. pose proof (existing_path_spec m key Hroot) as He. unfold get. destruct (existing_path base_path m key) as [p|e|]; [|done..].
  destruct He as (-> & _ & Hr). split.
  - unfold not_found_key. pose proof (read_not_panic m (base_path ++ key_components key)). by destruct (read _ _).
  - intros d Hd. unfold not_found_key in Hd. destruct (read m _) as [d'| |] eqn:E; [|done..]. injection Hd as ->.
    destruct (key_components key) as [|c l] eqn:El.
    + exfalso. rewrite app_nil_r in E. destruct Hroot as [_ Hd]. unfold read, guarded in E. destruct (fails _); [done|].
      rewrite resolve_dirs, (node_at_dirs m base_path Hd) in E by done. done.
    + split; [done|]. destruct (Hr ltac:(done)) as [Hreach Hl]. by apply read_reached.
Qed.

Lemma get_path_spec m key :
  root_ok m ->
  match get_path base_path m key with
  | Ok (Some p) => p = base_path ++ key_components key /\ plain m [] p
  | Ok None | Panic => False
  | Err _ => True
  end.
Proof.
  intros Hroot. unfold get_path. pose proof (object_path_not_panic key). destruct (object_path base_path key) as [p|e|] eqn:E; [|done..].
  apply object_path_Ok in E as [-> Hdots]. destruct (reject_spec m _ Hroot Hdots) as [Hnp Hpl].
  destruct (reject_symlink_components _ _ _) as [[]|e|]; [|done..]. specialize (Hpl eq_refl).
  pose proof (canonicalize_confined_spec m _ Hroot Hdots) as Hc. destruct (canonicalize_confined _ _ _) as [q|[]|]; try done.
  by destruct Hc as [-> _].
Qed.

Lemma exists_spec m key :
  root_ok m ->
  match exists_ base_path m key with
  | Ok b => key_components key <> [] -> b = bool_decide (is_Some (m !! (base_path ++ key_components key)))
  | Err _ => True
  | Panic => False
  end.
Proof.
  intros Hroot. unfold exists_. pose proof (object_path_not_panic key). destruct (object_path base_path key) as [p|e|] eqn:E; [|done..].
  apply object_path_Ok in E as [-> Hdots]. destruct (reject_spec m _ Hroot Hdots) as [Hnp _].
  destruct (reject_symlink_components _ _ _) as [[]|e|]; [|done..].
  pose proof (canonicalize_confined_spec m _ Hroot Hdots) as Hc. destruct (canonicalize_confined _ _ _) as [q|[]|]; try done.
  - destruct Hc as (-> & Hs & _). intros Hne. symmetry. apply bool_decide_eq_true. destruct (key_components key); [done|]. by destruct base_path.
  - destruct Hc as [_ Hn]. intros _. rewrite Hn. symmetry. apply bool_decide_eq_false. by intros [? ?].
Qed.

Lemma get_size_spec m key :
  root_ok m ->
  match get_size base_path m key with
  | Ok n => key_components key <> [] -> m !! (base_path ++ key_components key) <> Some FDir ->
      exists d, m !! (base_path ++ key_components key) = Some (FFile d) /\ n = len d
  | Err (NotFound _) => key_components key <> [] -> m !! (base_path ++ key_components key) = None
  | Err _ => True
  | Panic => False
  end.
Proof.
  intros Hroot. pose proof (existing_path_spec m key Hroot) as He. unfold get_size. destruct (existing_path base_path m key) as [p|[]|]; try done.
  2: { by destruct He. }
  destruct He as (-> & _ & Hr). unfold metadata, guarded, not_found_key. destruct (fails _); [done|]. set (rel := key_components key) in *.
  destruct (decide (rel = [])) as [E|Hne].
  - rewrite E, app_nil_r. rewrite resolve_dirs, node_at_dirs by apply Hroot. cbn. done.
  - destruct (Hr Hne) as [Hreach Hl]. rewrite resolve_reached by done. rewrite reached_lookup by done.
    destruct (m !! (base_path ++ rel)) as [[|d|a t]|] eqn:En; cbn [ok_or map_err]; [done| | |done].
    + intros _ _. eauto.
    + exfalso. apply (Hl a t). rewrite reached_lookup; done.
Qed.

Lemma delete_spec m key :
  root_ok m ->
  let '(m', r) := local_delete base_path m key in
  r <> Panic /\ root_ok m' /\
  (m' = m \/ key_components key <> [] /\ m !! (base_path ++ key_components key) <> Some FDir /\ m' = delete (base_path ++ key_components key) m) /\
  (r = Ok tt -> key_components key <> [] -> m' !! (base_path ++ key_components key) = None).
Proof.
  intros Hroot. unfold local_delete. pose proof (object_path_not_panic key). destruct (object_path base_path key) as [p|e|] eqn:E; [| |done].
  2: { destruct e; [unfold object_path in E; by repeat case_match|..]; (split; [done|]; split; [done|]; split; [by left|done]). }
  apply object_path_Ok in E as [-> Hdots]. pose proof (canonicalize_confined_spec m _ Hroot Hdots) as Hc.
  destruct (canonicalize_confined _ _ _) as [q|e|]; [| |done].
  2: { destruct e; (split; [done|]; split; [done|]; split; [by left|]); try done. by destruct Hc. }
  destruct Hc as (-> & Hs & Hr). set (rel := key_components key) in *. destruct (decide (rel = [])) as [E|Hne].
  - rewrite E, app_nil_r in *. unfold remove_file. rewrite resolve_dirs, node_at_dirs by apply Hroot.
    destruct (fails _); (split; [done|]; split; [done|]; split; [by left|done]).
  - destruct (Hr Hne) as [Hreach _]. destruct (remove_reached m _ Hreach) as (Hnp & Hok & Hsame & Hnf).
    destruct (remove_file m (base_path ++ rel)) as [m2 [[]|[]|]]; cbn [fst snd] in *; [| | |done].
    + destruct (Hok eq_refl) as [Hnd ->]. split; [done|]. split; [split; [by apply fs_wf_delete; [apply Hroot|]|by apply dirs_delete; [|apply Hroot]]|].
      split; [by right|]. intros _ _. apply lookup_delete_eq.
    + rewrite Hsame by done. split; [done|]. split; [done|]. split; [by left|]. intros _ _. by apply Hnf.
    + rewrite Hsame by done. split; [done|]. split; [done|]. by split; [left|].
Qed.

Lemma object_changes_below m m' rel n q : object_changes m m' rel n -> m' !! q <> m !! q -> exists c rest, q = base_path ++ c :: rest.
Proof.
  intros Hch Hq. destruct (Hch q) as [?|[(_ & _ & k & Hk & ->)|(Hne & [->|(x & _ & ->)] & _)]]; [done|..].
  - destruct (removelast rel) as [|c l]; [cbn in Hk; lia|]. by exists c, (take k l).
  - destruct rel as [|c l]; [done|]. by exists c, l.
  - destruct (removelast rel) as [|c l]; [by exists x, []|]. by exists c, (l ++ [x]).
Qed.
End LocalLemmas.

(** ** The backend as an object store *)
Section Backend.
Context `{FsFaults} (uuid : fs -> path -> string) (base_path spool : path).

(** The content of the file at a path. *)
Definition file_at (m : fs) (p : path) : path_content :=
  match resolve m true p with
  | Ok q => match node_at m q with Some (FFile data) => Some data | _ => None end
  | _ => None
  end.

(** [spool] is the caller's temporary file, where it wants a download and
    what it hands over with [put_from_path]. *)
#[local] Instance local_backend : ObjectStore := {|
  store := fs;
  reads := fun m => mkView
    (fun key _ => let* p := get_path base_path m key in Ok (file_at m <$> p))
    (fun key _ => let '(m', r) := download_to_path uuid base_path m key spool in
                  let* _ := r in ok_or (file_at m' spool) (Internal "Failed to read"));
  st_exists := exists_ base_path;
  st_get_size := get_size base_path;
  st_put := put uuid base_path;
  st_put_from_path := fun m key data =>
    match write m spool data with
    | (m, Ok _) => put_from_path uuid base_path m key spool
    | (m, r) => (m, internal_with_source "Failed to write" r)
    end;
  st_delete := local_delete base_path;
|}.

Definition object_at (m : fs) (key : string) : option (list byte) :=
  match m !! (base_path ++ key_components key) with Some (FFile data) => Some data | _ => None end.

(** The invariant: the root is there, the spool file is outside, no object of
    the server is anything but a file, and files have a size. *)
Record backend_ok (m : fs) : Prop := {
  bo_root : root_ok base_path m;
  bo_spool : reached m spool;
  bo_outside : forall rel, spool <> base_path ++ rel;
  bo_spool_file : m !! spool = None \/ exists data, m !! spool = Some (FFile data);
  bo_objects : forall key, server_key key -> m !! (base_path ++ key_components key) = None \/
                 exists data, m !! (base_path ++ key_components key) = Some (FFile data);
  bo_small : forall p data, m !! p = Some (FFile data) -> len data < 2 ^ 64;
}.

Lemma hex_name_plain (c : ascii) name : is_hexdigit c = false -> all_hexdigits name = true -> contains_char c name = false.
Proof.
  intros Hc. unfold all_hexdigits. induction name as [|a name IH]; [done|]. cbn. intros [Ha Hn]%andb_true_iff.
  rewrite IH by done. rewrite orb_false_r. destruct (Ascii.eqb_spec a c); [congruence|done].
Qed.

Lemma key_components_slash dir name :
  contains_char "/" dir = false -> negb (dir =? "")%string && negb (dir =? ".")%string = true ->
  key_components (dir +:+ String "/" name) = dir :: key_components name.
Proof.
  intros Hd Hk. unfold key_components. change (split_where is_slash) with (split_on "/"). rewrite split_on_app by done. cbn [List.filter].
  by rewrite Hk.
Qed.

Lemma key_components_plain name :
  contains_char "/" name = false -> negb (name =? "")%string && negb (name =? ".")%string = true -> key_components name = [name].
Proof.
  intros Hd Hk. unfold key_components. change (split_where is_slash) with (split_on "/"). rewrite split_on_plain by done. cbn [List.filter].
  by rewrite Hk.
Qed.

Definition server_dirs : list path := [["xorbs"]; ["shards"]; ["lfs"; "objects"]].

Lemma server_key_components key :
  server_key key -> exists dirs name, dirs ∈ server_dirs /\ key_components key = dirs ++ [name] /\ contains_char "." name = false /\
    key = foldr (fun d s => d +:+ "/" +:+ s) name dirs.
Proof.
  intros (dir & name & Hdir & -> & Hne & Hhex). pose proof (hex_name_plain "/" name eq_refl Hhex) as Hs.
  pose proof (hex_name_plain "." name eq_refl Hhex) as Hd.
  assert (negb (name =? "")%string && negb (name =? ".")%string = true) as Hkeep.
  { destruct (String.eqb_spec name ""); [done|]. destruct (String.eqb_spec name "."); [subst name; discriminate Hd|done]. }
  unfold object_dirs in Hdir. rewrite !elem_of_cons, elem_of_nil in Hdir. destruct Hdir as [-> |[-> |[-> |[]]]].
  - exists ["xorbs"], name. split; [unfold server_dirs; set_solver|]. split; [|done].
    change ("xorbs/" +:+ name) with ("xorbs" +:+ String "/" name). rewrite key_components_slash by done. by rewrite key_components_plain.
  - exists ["shards"], name. split; [unfold server_dirs; set_solver|]. split; [|done].
    change ("shards/" +:+ name) with ("shards" +:+ String "/" name). rewrite key_components_slash by done. by rewrite key_components_plain.
  - exists ["lfs"; "objects"], name. split; [unfold server_dirs; set_solver|]. split; [|done].
    change ("lfs/objects/" +:+ name) with ("lfs" +:+ String "/" ("objects" +:+ String "/" name)).
    rewrite !key_components_slash by done. by rewrite key_components_plain.
Qed.

Lemma server_components_inj key key' :
  server_key key -> server_key key' -> key_components key = key_components key' -> key = key'.
Proof.
  intros (d & n & _ & E & _ & Hk)%server_key_components (d' & n' & _ & E' & _ & Hk')%server_key_components Heq.
  rewrite E, E' in Heq. apply app_inj_tail in Heq as [-> ->]. congruence.
Qed.

(** An object is in no place where a directory or a temporary file of another goes. *)
Lemma server_dirs_no_object key dirs' k :
  server_key key -> dirs' ∈ server_dirs -> (k < length dirs')%nat -> key_components key <> take (S k) dirs'.
Proof.
  intros (d & n & Hd & -> & _)%server_key_components Hd' Hk. unfold server_dirs in *.
  rewrite !elem_of_cons, elem_of_nil in Hd, Hd'.
  destruct Hd as [-> |[-> |[-> |[]]]], Hd' as [-> |[-> |[-> |[]]]]; destruct k as [|[|k]]; cbn in *; try lia; done.
Qed.

Lemma server_components_last key x : server_key key -> last (key_components key) = Some x -> contains_char "." x = false.
Proof. intros (d & n & _ & -> & Hdot & _)%server_key_components. rewrite last_snoc. by intros [= <-]. Qed.

Lemma server_components_ne key : server_key key -> key_components key <> [].
Proof. intros (d & n & _ & -> & _)%server_key_components. by destruct d. Qed.

Lemma components_cases key : server_key key -> removelast (key_components key) ∈ server_dirs.
Proof. intros (d & n & Hd & -> & _)%server_key_components. by rewrite removelast_last. Qed.

(** Writing one object leaves the others as they are. *)
Lemma changes_others m m' key key' n :
  server_key key -> server_key key' -> key' <> key -> object_changes base_path m m' (key_components key) n ->
  m' !! (base_path ++ key_components key') = m !! (base_path ++ key_components key').
Proof.
  intros Hk Hk' Hne Hch. destruct (Hch (base_path ++ key_components key')) as [?|[(_ & _ & k & Hlt & E)|(_ & [E|(x & Hx & E)] & _)]]; [done|exfalso..].
  - apply app_inv_head in E. exact (server_dirs_no_object key' _ k Hk' (components_cases key Hk) Hlt E).
  - apply app_inv_head in E. by apply server_components_inj in E.
  - apply app_inv_head in E. pose proof (server_components_last key' x Hk') as Hl. rewrite E, last_snoc in Hl. by rewrite Hl in Hx.
Qed.

Lemma changes_dirs m m' rel n p : object_changes base_path m m' rel n -> m !! p = Some FDir -> m' !! p = Some FDir.
Proof. intros Hch Hp. destruct (Hch p) as [->|[(E & _)|(_ & _ & Hd & _)]]; [done|congruence|done]. Qed.

Lemma changes_ok m m' key n :
  backend_ok m -> server_key key -> root_ok base_path m' -> object_changes base_path m m' (key_components key) n -> n < 2 ^ 64 ->
  backend_ok m'.
Proof.
  intros Hok Hk Hroot Hch Hn. assert (m' !! spool = m !! spool) as Hsp.
  { destruct (decide (m' !! spool = m !! spool)) as [|Hd]; [done|]. exfalso.
    apply (object_changes_below base_path m m' _ n spool Hch) in Hd as (c & rest & E). by apply (bo_outside m Hok) in E. }
  split; [done| |apply Hok|rewrite Hsp; apply Hok| |].
  - destruct (bo_spool m Hok) as (q & c & E & Hd & Hc). exists q, c. split; [done|]. split; [|done].
    eapply dirs_mono; [|done]. intros p. by eapply changes_dirs.
  - intros key' Hk'. destruct (decide (key' = key)) as [->|Hne].
    + destruct (Hch (base_path ++ key_components key)) as [->|[(_ & _ & k & Hlt & E)|(_ & _ & _ & [->|(d & -> & _)])]]; [by apply Hok| |by left|by right; eauto].
      apply app_inv_head in E. destruct (server_dirs_no_object key _ k Hk (components_cases key Hk) Hlt E).
    + rewrite (changes_others m m' key key' n) by done. by apply Hok.
  - intros p d Hp. destruct (Hch p) as [E|[(_ & E & _)|(_ & _ & _ & [E|(d' & E & Hd')])]].
    + rewrite E in Hp. by apply (bo_small m Hok p).
    + congruence.
    + congruence.
    + rewrite E in Hp. injection Hp as ->. lia.
Qed.

Lemma object_at_file m key data : object_at m key = Some data <-> m !! (base_path ++ key_components key) = Some (FFile data).
Proof. unfold object_at. destruct (m !! _) as [[| |]|]; split; congruence. Qed.

Lemma object_written_at m m' key data r :
  server_key key -> object_written base_path m m' (key_components key) data r ->
  (object_at m' key = object_at m key \/ object_at m' key = Some data) /\ (r = Ok tt -> object_at m' key = Some data).
Proof.
  intros Hk [H1 H2]. split.
  - unfold object_at. destruct H1 as [->| ->]; [by left|by right].
  - intros Hr. apply object_at_file. auto.
Qed.

(** The content of an object's path is the object. *)
Lemma file_at_plain m key :
  backend_ok m -> server_key key -> plain m [] (base_path ++ key_components key) -> file_at m (base_path ++ key_components key) = object_at m key.
Proof.
  intros Hok Hk Hp. pose proof (server_components_ne key Hk) as Hne. assert (base_path ++ key_components key <> []) as Hne' by (by destruct base_path, (key_components key)).
  pose proof (resolve_plain m true _ (proj1 (bo_root m Hok)) Hp Hne') as Hr. unfold file_at, object_at.
  destruct (resolve m true _) as [q|e|]; [| |done].
  - destruct Hr as [-> _]. assert (node_at m (base_path ++ key_components key) = m !! (base_path ++ key_components key)) as -> by (by destruct (base_path ++ key_components key)).
    done.
  - by rewrite Hr.
Qed.

(** *** The laws *)
Context (Hfresh : uuid_fresh uuid).

Lemma create_dirs_there m todo : forall cur, dirs m [] (cur ++ todo) -> create_dirs m cur todo = (m, Ok tt).
Proof.
  induction todo as [|c todo IH]; intros cur Hd; [done|]. cbn [create_dirs]. change (c :: todo) with ([c] ++ todo) in Hd. rewrite app_assoc in Hd.
  assert (dirs m [] (cur ++ [c])) as Hd' by (by apply dirs_app in Hd as [? _]).
  unfold create_dir. rewrite !resolve_dirs, node_at_dirs by done. by apply IH.
Qed.

Lemma parent_snoc (q : path) c : parent (q ++ [c]) = Some q.
Proof. unfold parent. destruct (q ++ [c]) eqn:E; [by destruct q|]. by rewrite <- E, removelast_last. Qed.

(** A download gives the file of the key's path. *)
Lemma download_spec m key :
  backend_ok m ->
  let '(m', r) := download_to_path uuid base_path m key spool in
  r <> Panic /\ (r = Ok tt -> exists data, m !! (base_path ++ key_components key) = Some (FFile data) /\ file_at m' spool = Some data).
Proof.
  intros Hok. pose proof (bo_root m Hok) as Hroot. unfold download_to_path. pose proof (existing_path_spec base_path m key Hroot) as He.
  destruct (existing_path base_path m key) as [p|e|]; [|done..]. destruct He as (-> & _ & Hr). set (rel := key_components key) in *.
  destruct (bo_spool m Hok) as (q & c & Es & Hd & Hc). assert (parent spool = Some q) as -> by (rewrite Es; apply parent_snoc).
  unfold create_dir_all. rewrite create_dirs_there by done. unfold metadata, guarded. destruct (fails _); [done|].
  destruct (decide (rel = [])) as [E|Hne].
  { rewrite E, app_nil_r. rewrite resolve_dirs, node_at_dirs by apply Hroot. done. }
  destruct (Hr Hne) as [Hreach Hl]. rewrite resolve_reached, reached_lookup by done.
  destruct (m !! (base_path ++ rel)) as [[|data|a t]|] eqn:En; cbn [ok_or]; [done| |done|done].
  pose proof (copy_then_rename_spec uuid Hfresh m (base_path ++ rel) spool data (proj1 Hroot) (bo_spool m Hok)) as Hcp.
  destruct (copy_then_rename _ _ _ _) as [m' r]. destruct Hcp as (Hnp & Ht & _ & H2).
  { intros d Hread. apply read_reached in Hread; [|done..]. congruence. }
  split; [done|]. intros Hrok. destruct (H2 Hrok) as [Hsp _]. exists data. split; [done|]. unfold file_at.
  assert (reached m' spool) as Hrs by (eapply touched_reached; [exact Ht|apply Hok]).
  rewrite resolve_reached; [|done|intros a t; by rewrite reached_lookup, Hsp]. by rewrite reached_lookup, Hsp.
Qed.

Lemma backend_view_wf m : backend_ok m -> view_wf (reads m).
Proof.
  intros Hok key n. cbn [reads local_backend Storage.get_path Storage.download_to_path]. split.
  - pose proof (get_path_spec base_path m key (bo_root m Hok)) as Hg. destruct (get_path base_path m key) as [[p|]|e|]; [|done..].
    destruct Hg as [-> Hpl]. split; [done|]. intros data [= Hf]. unfold file_at in Hf.
    destruct (resolve m true _) as [q| |]; [|done..]. destruct (node_at m q) as [[|d|]|] eqn:E; try done. injection Hf as ->.
    destruct q as [|x q]; [done|]. by apply (bo_small m Hok (x :: q)).
  - pose proof (download_spec m key Hok) as Hd. destruct (download_to_path uuid base_path m key spool) as [m' [[]|e|]]; [| |by destruct Hd].
    + destruct Hd as [_ Hd]. destruct (Hd eq_refl) as (data & E & ->). split; [done|]. intros d [= <-]. by apply (bo_small m Hok _ _ E).
    + done.
Qed.

Lemma spool_changes m m1 m' key n :
  backend_ok m -> server_key key -> root_ok base_path m' -> object_changes base_path m m1 (key_components key) n -> n < 2 ^ 64 ->
  root_ok base_path m1 -> (m' = m1 \/ m' = delete spool m1) -> backend_ok m'.
Proof.
  intros Hok Hk Hroot' Hch Hn Hroot1 Hm'. pose proof (changes_ok m m1 key n Hok Hk Hroot1 Hch Hn) as Hok1.
  destruct Hm' as [-> | ->]; [done|]. assert (m1 !! spool <> Some FDir) as Hsp by (destruct (bo_spool_file m1 Hok1) as [->|[d ->]]; done).
  split; [done|by apply reached_delete, Hok1|apply Hok|left; apply lookup_delete_eq| |].
  - intros key' Hk'. rewrite lookup_delete_ne by apply (bo_outside m Hok). by apply Hok1.
  - intros p d [_ Hp]%lookup_delete_Some. by apply (bo_small m1 Hok1 p).
Qed.

Lemma put_law m key data :
  backend_ok m -> server_key key -> len data < 2 ^ 64 ->
  let '(m', r) := put uuid base_path m key data in
  backend_ok m' /\ writes (object_at m) (object_at m') key (Some data) r.
Proof.
  intros Hok Hk Hl. pose proof (put_spec uuid base_path Hfresh m key data (bo_root m Hok)) as Hp.
  destruct (put uuid base_path m key data) as [m' r]. destruct Hp as (Hnp & Hroot & Hch & Hw & _). split; [by eapply changes_ok|].
  split; [done|]. destruct (object_written_at m m' key data r Hk Hw) as [H1 H2]. split; [done|]. split; [done|].
  intros key' Hk' Hne. unfold object_at. by rewrite (changes_others m m' key key' (len data)).
Qed.

Lemma put_from_path_law m key data :
  backend_ok m -> server_key key -> len data < 2 ^ 64 ->
  let '(m', r) := put_from_path uuid base_path m key spool in
  m !! spool = Some (FFile data) -> backend_ok m' /\ writes (object_at m) (object_at m') key (Some data) r.
Proof.
  intros Hok Hk Hl. pose proof (put_from_path_spec uuid base_path Hfresh m key spool data (bo_root m Hok) (bo_spool m Hok)) as Hp.
  destruct (put_from_path uuid base_path m key spool) as [m' r]. intros Hs. destruct (Hp Hs (bo_outside m Hok)) as (Hnp & Hroot & Hw & _ & m1 & Hroot1 & Hch & Hm').
  split; [by eapply spool_changes|]. split; [done|]. destruct (object_written_at m m' key data r Hk Hw) as [H1 H2]. split; [done|]. split; [done|].
  intros key' Hk' Hne. unfold object_at. rewrite <- (changes_others m m1 key key' (len data)) by done.
  destruct Hm' as [-> | ->]; [done|]. by rewrite lookup_delete_ne by apply (bo_outside m Hok).
Qed.

Lemma delete_law m key :
  backend_ok m -> server_key key ->
  let '(m', r) := local_delete base_path m key in
  backend_ok m' /\ writes (object_at m) (object_at m') key None r.
Proof.
  intros Hok Hk. pose proof (server_components_ne key Hk) as Hne. pose proof (delete_spec base_path m key (bo_root m Hok)) as Hd.
  destruct (local_delete base_path m key) as [m' r]. destruct Hd as (Hnp & Hroot & Hm & Hnone).
  assert (object_changes base_path m m' (key_components key) 0) as Hch.
  { intros q. destruct Hm as [->|(_ & Hnd & ->)]; [by left|]. destruct (decide (q = base_path ++ key_components key)) as [->|Hq].
    - right. right. split; [done|]. split; [by left|]. split; [done|]. left. apply lookup_delete_eq.
    - left. by apply lookup_delete_ne. }
  split; [by eapply changes_ok|]. split; [done|]. split; [|split].
  - intros Hr. unfold object_at. by rewrite Hnone.
  - destruct Hm as [->|(_ & _ & ->)]; [by left|right]. unfold object_at. by rewrite lookup_delete_eq.
  - intros key' Hk' Hd. unfold object_at. by rewrite (changes_others m m' key key' 0).
Qed.

(** Handing over a file. *)
Lemma upload_law m key data :
  backend_ok m -> server_key key -> len data < 2 ^ 64 ->
  backend_ok (fst (st_put_from_path m key data)) /\
  writes (object_at m) (object_at (fst (st_put_from_path m key data))) key (Some data) (snd (st_put_from_path m key data)).
Proof.
  intros Hok Hk Hl. cbn [st_put_from_path local_backend]. assert (not_link m spool) as Hnl.
  { intros a t. rewrite reached_lookup by apply Hok. destruct (bo_spool_file m Hok) as [->|[d ->]]; done. }
  destruct (write_reached m spool data (bo_spool m Hok) Hnl) as (Hnp & Hwok & Hw).
  assert (forall d, len d <= len data -> m !! spool <> Some FDir ->
    backend_ok (<[spool := FFile d]> m) /\ forall key', object_at (<[spool := FFile d]> m) key' = object_at m key') as Hspool.
  { intros d Hd Hnd. split; [split|].
    - split; [|by apply dirs_insert; [|apply Hok]]. destruct (reached_in_dir m _ (bo_spool m Hok)) as [Hin Hne].
      apply insert_at; [apply Hok|done..|]. by rewrite reached_lookup by apply Hok.
    - by apply reached_insert, Hok.
    - apply Hok.
    - rewrite lookup_insert_eq. eauto.
    - intros key' Hk'. rewrite lookup_insert_ne by apply (bo_outside m Hok). by apply Hok.
    - intros p d' [[-> [= <-]]|[_ Hp]]%lookup_insert_Some; [lia|by apply (bo_small m Hok p)].
    - intros key'. unfold object_at. by rewrite lookup_insert_ne by apply (bo_outside m Hok). }
  destruct (write m spool data) as [m1 [[]|e|]]; cbn [fst snd internal_with_source map_err] in *; [| |done].
  - destruct (Hwok eq_refl) as [Hnd ->]. destruct (Hspool data ltac:(lia) Hnd) as [Hok1 Hsame].
    pose proof (put_from_path_law (<[spool := FFile data]> m) key data Hok1 Hk Hl) as Hp.
    destruct (put_from_path uuid base_path _ key spool) as [m' r]. cbn [fst snd]. rewrite lookup_insert_eq in Hp.
    destruct (Hp eq_refl) as [Hok' (Hr & H1 & H2 & H3)]. split; [done|]. split; [done|]. split; [done|]. split.
    + by rewrite <- Hsame.
    + intros key' Hk' Hne. rewrite H3 by done. apply Hsame.
  - assert (backend_ok m1 /\ forall key', object_at m1 key' = object_at m key') as [Hok1 Hsame].
    { destruct Hw as [->|(Hnd & d & Hd & ->)]; [done|by apply Hspool]. }
    split; [done|]. split; [done|]. split; [done|]. split; [by left|]. intros key' _ _. apply Hsame.
Qed.

#[local] Instance local_laws : StoreLaws.
Proof.
  refine {| contents := object_at; store_ok := backend_ok |}.
  - apply backend_view_wf.
  - intros m key n pc Hok Hk E. cbn in E. pose proof (get_path_spec base_path m key (bo_root m Hok)) as Hg.
    destruct (get_path base_path m key) as [[p|]|e|]; [|done..]. destruct Hg as [-> Hpl]. injection E as <-. by apply file_at_plain.
  - intros m key n d Hok Hk E. cbn in E. pose proof (download_spec m key Hok) as Hd.
    destruct (download_to_path uuid base_path m key spool) as [m' [[]|e|]]; [|done..]. destruct Hd as [_ Hd].
    destruct (Hd eq_refl) as (data & En & Ef). rewrite Ef in E. injection E as <-. by apply object_at_file.
  - intros m key b Hok Hk E. cbn in E. pose proof (exists_spec base_path m key (bo_root m Hok)) as He. rewrite E in He.
    rewrite He by (by apply server_components_ne). apply bool_decide_ext. unfold object_at.
    destruct (bo_objects m Hok key Hk) as [->|[d ->]]; split; intros [? ?]; try done; by eexists.
  - intros m key Hok E. cbn in E. pose proof (exists_spec base_path m key (bo_root m Hok)) as He. by rewrite E in He.
  - intros m key n Hok Hk E. cbn in E. pose proof (get_size_spec base_path m key (bo_root m Hok)) as Hg. rewrite E in Hg.
    destruct Hg as (d & Hd & ->); [by apply server_components_ne|destruct (bo_objects m Hok key Hk) as [->|[d ->]]; done|].
    exists d. split; [by apply object_at_file|done].
  - intros m key e Hok Hk E. cbn in E. pose proof (get_size_spec base_path m key (bo_root m Hok)) as Hg. rewrite E in Hg.
    unfold object_at. by rewrite Hg by (by apply server_components_ne).
  - intros m key Hok E. cbn in E. pose proof (get_size_spec base_path m key (bo_root m Hok)) as Hg. by rewrite E in Hg.
  - intros m key d Hok Hk Hl. pose proof (put_law m key d Hok Hk Hl) as Hp. cbn. by destruct (put uuid base_path m key d).
  - apply upload_law.
  - intros m key Hok Hk. pose proof (delete_law m key Hok Hk) as Hp. cbn. by destruct (local_delete base_path m key).
Defined.
End Backend.

(** ** A concrete backend *)
Module LocalModel.
#[local] Instance no_faults : FsFaults := {| fails := fun _ => false; written := fun _ => 0%nat; dir_len := fun _ => 4096 |}.

Definition name_len (p : path) : nat := match last p with Some name => String.length name | None => 0%nat end.
Fixpoint long_name (n : nat) : string := match n with O => EmptyString | S n' => String "f" (long_name n') end.

(** A name longer than all those there are. *)
Definition long_uuid (m : fs) (dest : path) : string :=
  long_name (foldr Nat.max (name_len dest) (map (fun e => name_len (fst e)) (map_to_list m))).

Lemma long_name_length n : String.length (long_name n) = n.
Proof. induction n as [|n IH]; cbn; congruence. Qed.

Lemma string_length_app a b : String.length (a +:+ b) = (String.length a + String.length b)%nat.
Proof. induction a as [|x a IH]; [done|]. change (String x a +:+ b) with (String x (a +:+ b)). cbn [String.length]. by rewrite IH. Qed.

Lemma foldr_max a l : (a <= foldr Nat.max a l)%nat /\ forall b, b ∈ l -> (b <= foldr Nat.max a l)%nat.
Proof.
  induction l as [|c l [IHa IHl]]; cbn [foldr]; [split; [done|intros b Hb; by apply elem_of_nil in Hb]|]. split; [lia|].
  intros b [-> |Hb]%elem_of_cons; [lia|]. specialize (IHl b Hb). lia.
Qed.

Lemma long_uuid_fresh : uuid_fresh long_uuid.
Proof.
  intros m dest Hne. destruct (snoc_cases dest) as [?|(q & name & ->)]; [done|].
  set (temp := unique_temp_path long_uuid m (q ++ [name])).
  destruct (foldr_max (name_len (q ++ [name])) (map (fun e => name_len (fst e)) (map_to_list m))) as [Hd Hm].
  assert (foldr Nat.max (name_len (q ++ [name])) (map (fun e => name_len (fst e)) (map_to_list m)) < name_len temp)%nat as Hlt.
  { unfold temp, unique_temp_path. rewrite last_snoc. unfold name_len at 3. rewrite last_snoc, !string_length_app.
    unfold long_uuid. rewrite long_name_length. cbn [String.length]. lia. }
  split.
  - destruct (m !! temp) as [v|] eqn:E; [|done]. exfalso. apply elem_of_map_to_list in E.
    specialize (Hm (name_len temp)). rewrite elem_of_map in Hm. specialize (Hm ltac:(by exists (temp, v))). lia.
  - intros E. rewrite E in Hlt. lia.
Qed.

Definition base : path := ["data"].
Definition spool : path := ["upload"].
Definition empty_fs : fs := {[ base := FDir ]}.
#[export] Instance storage : ObjectStore := local_backend long_uuid base spool.
#[export] Instance storage_laws : StoreLaws := local_laws long_uuid base spool long_uuid_fresh.

Lemma empty_root : root_ok base empty_fs.
Proof.
  split; [split; [reflexivity|]|done]. intros p c [v Hv]. unfold empty_fs in Hv. apply lookup_singleton_Some in Hv as [E _].
  change base with ([] ++ ["data"]) in E. by apply app_inj_tail in E as [<- _].
Qed.

Lemma empty_ok : backend_ok base spool empty_fs.
Proof.
  assert (forall p, p <> base -> empty_fs !! p = None) as Hn by (intros p Hp; by apply lookup_singleton_ne).
  split; [apply empty_root|by exists [], "upload"|intros rel E; discriminate E|left; reflexivity| |].
  - intros key Hk. left. apply Hn. intros E. apply server_components_ne in Hk. by destruct (key_components key).
  - intros p d Hp. unfold empty_fs in Hp. apply lookup_singleton_Some in Hp as [_ Hp]. done.
Qed.
End LocalModel.

(** ** Properties *)

(** C36: The local backend stays at the key's own path, whatever links and files
    are there and whichever calls fail.  Writing an object, from memory or by
    moving a file that lies outside the root, changes that object and nothing
    else but directories on the way to it, which were not there, a temporary
    file next to it, which was not there and does not stay when the operation
    answers [Ok], and the file that was moved, if it answers [Ok]: no other
    object, directory or link.  Deleting changes the object alone, and what is read is the file at
    the key's own path, not one that a link or a [..] leads to.  After [Ok] the
    object is there with its content, or gone.  No operation panics. *)
Theorem local_storage_confined `{FsFaults} uuid base_path m key data source :
  uuid_fresh uuid -> root_ok base_path m ->
  let rel := key_components key in
  (let '(m', r) := put uuid base_path m key data in
   r <> Panic /\ root_ok base_path m' /\ own_changes base_path m m' rel data None r /\
   (r = Ok tt -> m' !! (base_path ++ rel) = Some (FFile data))) /\
  (reached m source -> m !! source = Some (FFile data) -> (forall rel, source <> base_path ++ rel) ->
   let '(m', r) := put_from_path uuid base_path m key source in
   r <> Panic /\ root_ok base_path m' /\ own_changes base_path m m' rel data (Some source) r /\
   (r = Ok tt -> m' !! (base_path ++ rel) = Some (FFile data))) /\
  (let '(m', r) := local_delete base_path m key in
   r <> Panic /\ root_ok base_path m' /\
   (forall q, m' !! q <> m !! q -> q = base_path ++ rel /\ rel <> [] /\ m !! q <> Some FDir /\ m' !! q = None) /\
   (r = Ok tt -> rel <> [] -> m' !! (base_path ++ rel) = None)) /\
  get base_path m key <> Panic /\
  (forall d, get base_path m key = Ok d -> rel <> [] /\ m !! (base_path ++ rel) = Some (FFile d)).
Proof.
  intros Hfresh Hroot rel. split; [|split; [|split]].
  - pose proof (put_spec uuid base_path Hfresh m key data Hroot) as Hp. destruct (put uuid base_path m key data) as [m' r].
    destruct Hp as (Hnp & Hroot' & _ & [_ Hw] & Hown). done.
  - intros Hs Hd Hout. pose proof (put_from_path_spec uuid base_path Hfresh m key source data Hroot Hs Hd Hout) as Hp.
    destruct (put_from_path uuid base_path m key source) as [m' r]. destruct Hp as (Hnp & Hroot' & [_ Hw] & Hown & _). done.
  - pose proof (delete_spec base_path m key Hroot) as Hd. destruct (local_delete base_path m key) as [m' r].
    destruct Hd as (Hnp & Hroot' & Hm & Hgone). split; [done|]. split; [done|]. split; [|done]. intros q Hq.
    destruct Hm as [-> |(Hne & Hnd & ->)]; [done|]. destruct (decide (q = base_path ++ key_components key)) as [->|Hd]; [by rewrite lookup_delete_eq|].
    by rewrite lookup_delete_ne in Hq by congruence.
  - by apply get_spec.
Qed.

(** An object that was stored is there: after a successful [put] its content
    is what was put, [exists] and [get_size] say so, [get] returns it unless a
    call fails, and every other object of the server is unchanged. *)
Theorem local_put_get `{FsFaults} uuid base_path spool m key data :
  uuid_fresh uuid -> backend_ok base_path spool m -> server_key key -> len data < 2 ^ 64 ->
  let '(m', r) := put uuid base_path m key data in
  backend_ok base_path spool m' /\
  (forall key', server_key key' -> key' <> key -> object_at base_path m' key' = object_at base_path m key') /\
  (r = Ok tt ->
     object_at base_path m' key = Some data /\
     (forall b, exists_ base_path m' key = Ok b -> b = true) /\
     (forall n, get_size base_path m' key = Ok n -> n = len data) /\
     (forall d, get base_path m' key = Ok d -> d = data) /\
     (forall k, get base_path m' key <> Err (NotFound k))).
Proof.
  intros Hfresh Hok Hk Hl. pose proof (put_law uuid base_path spool Hfresh m key data Hok Hk Hl) as Hp.
  destruct (put uuid base_path m key data) as [m' r]. destruct Hp as [Hok' (_ & Hw & _ & Hother)]. split; [done|]. split; [done|].
  intros Hr. specialize (Hw Hr). apply object_at_file in Hw as Hf. pose proof (server_components_ne key Hk) as Hne.
  pose proof (bo_root _ _ m' Hok') as Hroot. split; [done|]. split; [|split; [|split]].
  - intros b E. pose proof (exists_spec base_path m' key Hroot) as He. rewrite E in He. rewrite He, Hf by done. by apply bool_decide_eq_true.
  - intros n E. pose proof (get_size_spec base_path m' key Hroot) as Hg. rewrite E in Hg. destruct Hg as (d & Hd & ->); [done|by rewrite Hf|]. congruence.
  - intros d E. apply (get_spec base_path m' key Hroot) in E as [_ E]. congruence.
  - intros k E. unfold get in E. pose proof (existing_path_spec base_path m' key Hroot) as He.
    destruct (existing_path base_path m' key) as [p|e|]; [| |done].
    + destruct He as (-> & _ & Hr'). destruct (Hr' Hne) as [Hreach Hlink]. unfold read, guarded in E. destruct (fails _); [done|].
      rewrite resolve_reached, reached_lookup, Hf in E by done. done.
    + injection E as ->. destruct He as [_ He]. congruence.
Qed.

(** ** Witnesses *)
Import LocalModel.
#[local] Existing Instance no_faults.
Definition sample_key : string := "xorbs/00ff".
Definition sample_object : list byte := [Byte.x01; Byte.x02].

Lemma sample_key_server : server_key sample_key.
Proof. exists "xorbs/", "00ff". unfold object_dirs. split; [set_solver|]. done. Qed.

(** A link below the root that leads elsewhere. *)
Definition linked_fs : fs := <[base ++ ["xorbs"] := FLink true ["etc"]]> (<[["etc"] := FDir]> empty_fs).

Lemma linked_root : root_ok base linked_fs.
Proof.
  split; [|done]. assert (fs_wf (<[["etc"] := FDir]> empty_fs)) as Hw by (apply (fs_wf_insert empty_fs [] "etc"); [apply empty_root|done..]).
  by apply (fs_wf_insert _ base "xorbs").
Qed.

(** Another object, and a file to move. *)
Definition busy_fs : fs := fst (put_from_path long_uuid base (<[spool := FFile sample_object]> empty_fs) "xorbs/11ee" spool).
Definition spooled_fs : fs := <[spool := FFile sample_object]> busy_fs.

Lemma spool_root m : root_ok base m -> m !! spool <> Some FDir -> root_ok base (<[spool := FFile sample_object]> m).
Proof.
  intros [Hw Hd] Hn. split; [by apply (fs_wf_insert m [] "upload")|]. by apply dirs_insert.
Qed.

Lemma spooled_root : root_ok base spooled_fs.
Proof.
  apply spool_root; [|by vm_compute]. unfold busy_fs. set (m := <[spool := FFile sample_object]> empty_fs).
  pose proof (put_from_path_spec long_uuid base long_uuid_fresh m "xorbs/11ee" spool sample_object) as Hp.
  destruct (put_from_path long_uuid base m "xorbs/11ee" spool) as [m' r].
  apply Hp; [apply spool_root; [exact empty_root|by vm_compute]|by exists [], "upload"|apply lookup_insert_eq|intros rel E; discriminate E].
Qed.

(** A link is refused; moving a file to one key leaves the object of another. *)
Lemma local_storage_confined_witness :
  snd (put long_uuid base linked_fs sample_key sample_object) = Err (InvalidArgument "Object key contains a symbolic-link path component") /\
  own_changes base linked_fs (fst (put long_uuid base linked_fs sample_key sample_object)) (key_components sample_key) sample_object None
    (snd (put long_uuid base linked_fs sample_key sample_object)) /\
  fst (put_from_path long_uuid base spooled_fs sample_key spool) !! (base ++ ["xorbs"; "00ff"]) = Some (FFile sample_object) /\
  fst (put_from_path long_uuid base spooled_fs sample_key spool) !! (base ++ ["xorbs"; "11ee"]) = Some (FFile sample_object) /\
  own_changes base spooled_fs (fst (put_from_path long_uuid base spooled_fs sample_key spool)) (key_components sample_key) sample_object (Some spool) (Ok tt).
Proof.
  split; [vm_compute; reflexivity|].
  pose proof (local_storage_confined long_uuid base linked_fs sample_key sample_object spool long_uuid_fresh linked_root) as [Hp _].
  split; [destruct (put long_uuid base linked_fs sample_key sample_object) as [m' r]; apply Hp|].
  pose proof (local_storage_confined long_uuid base spooled_fs sample_key sample_object spool long_uuid_fresh spooled_root) as (_ & Hf & _).
  assert (snd (put_from_path long_uuid base spooled_fs sample_key spool) = Ok tt) as Hr by (vm_compute; reflexivity).
  split; [|split; [vm_compute; reflexivity|]]; (destruct (put_from_path long_uuid base spooled_fs sample_key spool) as [m' r]; cbn [snd] in Hr; subst r;
    apply Hf; [by exists [], "upload"|apply lookup_insert_eq|intros rel E; discriminate E|reflexivity..]).
Defined.

Lemma local_put_get_witness :
  get base (fst (put long_uuid base empty_fs sample_key sample_object)) sample_key = Ok sample_object /\
  object_at base (fst (put long_uuid base empty_fs sample_key sample_object)) sample_key = Some sample_object.
Proof.
  split; [vm_compute; reflexivity|].
  pose proof (local_put_get long_uuid base spool empty_fs sample_key sample_object long_uuid_fresh empty_ok sample_key_server eq_refl) as Hp.
  assert (is_ok (snd (put long_uuid base empty_fs sample_key sample_object)) = true) as Hr by (vm_compute; reflexivity).
  destruct (put long_uuid base empty_fs sample_key sample_object) as [m' [[]|e|]]; [|discriminate Hr..]. by apply Hp.
Defined.
