(* ===== verification/LocalListing.v ===== *)
(** * The listing of the local backend (src/storage/local.rs)

    [LocalStorage::new], and the stream of the keys below a prefix: a stack of
    open directories, the entries of the last one being read first.  Reading a
    directory gives its entries in an order of the system's; opening one,
    reading an entry and asking for its type are further calls that may fail.
    The file system stands still while it is listed. *)
From stdpp Require Import gmap sets list strings.
From S2P Require Import Prelude Bytes Crates Text Storage ObjectStore FileSystem LocalStorage Routing.
From Stdlib Require Import Ascii.

Local Open Scope string_scope.
Local Open Scope list_scope.

Inductive list_call := CallReadDir (dir : path) | CallNextEntry (dir : path) (left : nat) | CallFileType (entry : path).

(** [shuffle]: the order in which the entries of a directory come. *)
Class ListCalls := { list_fails : list_call -> bool; shuffle : path -> list string -> list string }.
Class ListLaws `{ListCalls} : Prop := shuffle_perm : forall p names, shuffle p names ≡ₚ names.

Section Listing.
Context `{FsFaults, ListCalls} (base_path : path).

(** [LocalStorage::new]: the root made, and its path without links. *)
Definition local_new (m : fs) (p : path) : fs * StorageResult path :=
  match p with
  | [] => (m, Err (InvalidArgument "Local storage path cannot be empty"))
  | _ =>
      match create_dir_all m p with
      | (m, Ok _) => (m, internal_with_source "Failed to resolve local storage root" (canonicalize m p))
      | (m, Err _) => (m, Err (Internal "Failed to create local storage root"))
      | (m, Panic) => (m, Panic)
      end
  end.

(** The names in a directory. *)
Definition name_in (p : path) (q : path) : option string :=
  match last q with Some c => if decide (q = p ++ [c]) then Some c else None | None => None end.
Definition names_in (m : fs) (p : path) : list string := omap (fun e => name_in p e.1) (map_to_list m).
Definition entries (m : fs) (p : path) : list string := shuffle p (names_in m p).

Definition read_dir (m : fs) (p : path) : outcome fs_error (list string) :=
  if list_fails (CallReadDir p) then Err FsOther
  else
    let* q := resolve m true p in
    match node_at m q with Some FDir => Ok (entries m q) | Some _ => Err FsOther | None => Err FsNotFound end.
(** Of the entry itself, links being not followed. *)
Definition file_type (m : fs) (p : path) : outcome fs_error fnode :=
  if list_fails (CallFileType p) then Err FsOther else ok_or (node_at m p) FsNotFound.

Definition listing_item : Type := StorageResult string.
(** The rest of the stream, the open directories being [stack]: each with the
    names that were not read.  An error is the last item. *)
Fixpoint list_loop (fuel : nat) (m : fs) (stack : list (path * list string)) : option (list listing_item) :=
  match fuel with
  | O => None
  | S fuel =>
      match stack with
      | [] => Some []
      | (dir, names) :: stack =>
          if list_fails (CallNextEntry dir (length names)) then Some [Err (Internal "Failed to read dir entry")]
          else
            match names with
            | [] => list_loop fuel m stack
            | name :: names =>
                let p := dir ++ [name] in
                match file_type m p with
                | Ok FDir =>
                    match canonicalize_confined base_path m p with
                    | Ok p =>
                        match read_dir m p with
                        | Ok names' => list_loop fuel m ((p, names') :: (dir, names) :: stack)
                        | Err FsNotFound => list_loop fuel m ((dir, names) :: stack)
                        | Err FsOther => Some [Err (Internal "Failed to read dir")]
                        | Panic => Some [Panic]
                        end
                    | Err (NotFound _) => list_loop fuel m ((dir, names) :: stack)
                    | Err e => Some [Err e]
                    | Panic => Some [Panic]
                    end
                | Ok (FLink _ _) => list_loop fuel m ((dir, names) :: stack)
                | Ok (FFile _) =>
                    match path_strip_prefix base_path p with
                    | Some rel => cons (Ok (join "/"%char rel)) <$> list_loop fuel m ((dir, names) :: stack)
                    | None => Some [Err (Internal "Failed to compute relative path")]
                    end
                | Err _ => Some [Err (Internal "Failed to get file type")]
                | Panic => Some [Panic]
                end
            end
      end
  end.

(** A step for every name, and one for the end, of every directory below. *)
Definition height (m : fs) : nat := foldr Nat.max 0 (map (fun e => length e.1) (map_to_list m)).
Fixpoint steps (h : nat) (m : fs) (p : path) : nat :=
  match h with
  | O => 1
  | S h => S (sum_list_with (fun c => S (match m !! (p ++ [c]) with Some FDir => steps h m (p ++ [c]) | _ => 0 end)) (entries m p))
  end.

Definition list_objects_stream (m : fs) (prefix : string) : option (list listing_item) :=
  match (if (prefix =? "")%string then Ok base_path else object_path base_path prefix) with
  | Ok root =>
      match canonicalize_confined base_path m root with
      | Ok root =>
          match read_dir m root with
          | Ok names => list_loop (S (steps (height m) m root)) m [(root, names)]
          | Err FsNotFound => Some []
          | Err FsOther => Some [Err (Internal "Failed to read dir")]
          | Panic => Some [Panic]
          end
      | Err (NotFound _) => Some []
      | Err e => Some [Err e]
      | Panic => Some [Panic]
      end
  | Err e => Some [Err e]
  | Panic => Some [Panic]
  end.
(** [try_collect]: all keys, or the first error. *)
Definition list_objects (m : fs) (prefix : string) : option (StorageResult (list string)) :=
  map_outcome (fun item => item) <$> list_objects_stream m prefix.

(** ** Specification *)

(** The files below a directory, links not being followed. *)
Definition visit (m : fs) (below : path -> list path) (p : path) (c : string) : list path :=
  match m !! (p ++ [c]) with Some FDir => below (p ++ [c]) | Some (FFile _) => [p ++ [c]] | _ => [] end.
Fixpoint files (h : nat) (m : fs) (p : path) : list path :=
  match h with O => [] | S h => entries m p ≫= visit m (files h m) p end.
Definition key_of (p : path) : string := join "/"%char (drop (length base_path) p).
End Listing.

(** ** Lemmas *)
Section ListingLemmas.
Context `{FsFaults, ListLaws} (base_path : path).

Lemma name_in_Some p q c : name_in p q = Some c <-> q = p ++ [c].
Proof.
  unfold name_in. split.
  - destruct (last q) as [c'|] eqn:El; [|done]. destruct (decide (q = p ++ [c'])) as [->|]; [|done]. by intros [= ->].
  - intros ->. rewrite last_snoc. by rewrite decide_True.
Qed.
Lemma entries_spec m p c : c ∈ entries m p <-> is_Some (m !! (p ++ [c])).
Proof.
  unfold entries, names_in. rewrite (shuffle_perm p), list_elem_of_omap. split.
  - intros ([q n] & Hin & Hq%name_in_Some). cbn [fst] in Hq. subst q. apply elem_of_map_to_list in Hin. by eexists.
  - intros [n Hn]. exists (p ++ [c], n). split; [by apply elem_of_map_to_list|]. by apply name_in_Some.
Qed.
Lemma entries_NoDup m p : NoDup (entries m p).
Proof.
  unfold entries, names_in. rewrite (shuffle_perm p). pose proof (NoDup_map_to_list m) as Hn. pose proof (NoDup_fst_map_to_list m) as Hf. revert Hf.
  generalize (map_to_list m) as l. clear Hn. induction l as [|[q n] l IH]; [constructor|]. cbn [fmap list_fmap fst omap list_omap]. intros [Hq Hl]%NoDup_cons.
  destruct (name_in p q) as [c|] eqn:E; [|by apply IH]. constructor; [|by apply IH]. intros ([q' n'] & Hin & E')%list_elem_of_omap. cbn [fst] in E'.
  apply name_in_Some in E, E'. apply Hq. rewrite E, <- E'. apply list_elem_of_fmap. by exists (q', n').
Qed.

Lemma height_bound m q n : m !! q = Some n -> (length q <= height m)%nat.
Proof.
  intros Hq%elem_of_map_to_list. unfold height. induction (map_to_list m) as [|[q' n'] l IH]; [by apply elem_of_nil in Hq|]. cbn [map foldr fst].
  apply elem_of_cons in Hq as [[= <- <-]|Hq]; [lia|]. specialize (IH Hq). lia.
Qed.
Definition shallow (m : fs) (h : nat) (p : path) : Prop := forall rest, is_Some (m !! (p ++ rest)) -> (length rest <= h)%nat.
Lemma shallow_down m h p c : shallow m (S h) p -> shallow m h (p ++ [c]).
Proof. intros Hs rest. rewrite <- app_assoc. intros Hr%(Hs ([c] ++ rest)). cbn in Hr. lia. Qed.

(** What is listed is below, and everything is. *)
Lemma visit_below m h p c q : (forall q, q ∈ files h m (p ++ [c]) -> exists rest, rest <> [] /\ q = (p ++ [c]) ++ rest) ->
  q ∈ visit m (files h m) p c -> exists rest, q = p ++ c :: rest.
Proof.
  intros Hf. unfold visit. destruct (m !! (p ++ [c])) as [[|d|a t]|]; [|intros ->%list_elem_of_singleton; by exists []|by intros ?%elem_of_nil..].
  intros (rest & _ & ->)%Hf. exists rest. by rewrite <- app_assoc.
Qed.
Lemma files_below m h : forall p q, q ∈ files h m p -> exists rest, rest <> [] /\ q = p ++ rest.
Proof.
  induction h as [|h IH]; intros p q; cbn [files]; [by intros ?%elem_of_nil|]. intros (c & Hq & _)%list_elem_of_bind.
  apply visit_below in Hq as [rest ->]; [by exists (c :: rest)|apply IH].
Qed.
Lemma files_NoDup m h : forall p, NoDup (files h m p).
Proof.
  induction h as [|h IH]; intros p; cbn [files]; [constructor|]. apply NoDup_bind; [| |apply entries_NoDup].
  - intros c1 c2 q _ _ Hq1 Hq2. apply visit_below in Hq1 as [r1 ->]; [|apply files_below]. apply visit_below in Hq2 as [r2 E]; [|apply files_below].
    apply app_inv_head in E. by injection E as -> _.
  - intros c _. unfold visit. destruct (m !! (p ++ [c])) as [[|d|a t]|]; [apply IH|apply NoDup_singleton|constructor..].
Qed.
Lemma files_spec m : fs_wf m -> forall h p q, shallow m h p -> q ∈ files h m p <-> exists c rest data, q = p ++ c :: rest /\ m !! q = Some (FFile data).
Proof.
  intros Hwf. induction h as [|h IH]; intros p q Hs; cbn [files].
  - split; [by intros ?%elem_of_nil|]. intros (c & rest & data & -> & Hq). specialize (Hs (c :: rest) ltac:(by eexists)). cbn in Hs. lia.
  - rewrite list_elem_of_bind. split.
    + intros (c & Hq & _). unfold visit in Hq. destruct (m !! (p ++ [c])) as [[|d|a t]|] eqn:Ec; [| |by apply elem_of_nil in Hq..].
      * apply IH in Hq as (c' & rest & data & -> & Hq); [|by apply shallow_down]. exists c, (c' :: rest), data. by rewrite <- app_assoc in *.
      * apply list_elem_of_singleton in Hq as ->. by exists c, [], d.
    + intros (c & rest & data & -> & Hq). exists c. unfold visit. destruct rest as [|c' rest].
      { split; [rewrite Hq; by apply list_elem_of_singleton|]. apply entries_spec. by eexists. }
      assert (m !! (p ++ [c]) = Some FDir) as Hc.
      { destruct (decide (node_at m (p ++ [c]) = Some FDir)) as [E|E]; [by rewrite node_at_snoc in E|]. exfalso.
        pose proof (nothing_below m (p ++ [c]) (c' :: rest) Hwf E ltac:(done)) as Hn. rewrite <- app_assoc in Hn. cbn [app] in Hn. congruence. }
      rewrite Hc. split; [|apply entries_spec; by eexists]. apply IH; [by apply shallow_down|]. exists c', rest, data. by rewrite <- app_assoc.
Qed.

(** *** The loop *)

(** No call fails; no name is the parent's. *)
Definition quiet : Prop := (forall call, fails call = false) /\ (forall call, list_fails call = false).
Definition no_dots (m : fs) : Prop := forall q n, m !! q = Some n -> Forall (fun c => c <> "..") q.

Lemma reject_links_dirs m rel : quiet -> forall cur, dirs m [] cur -> dirs m cur rel -> reject_links m cur rel = Ok tt.
Proof.
  intros [Hq _]. induction rel as [|c rel IH]; intros cur Hcur Hd; [done|]. cbn [reject_links]. destruct Hd as (Hc & Hdir & Hd).
  assert (dirs m [] (cur ++ [c])) as Hcur' by (by apply dirs_app).
  unfold symlink_metadata, guarded. rewrite Hq, (resolve_dirs m false _ Hcur'), (node_at_dirs m _ Hcur'). cbn [ok_or]. by apply IH.
Qed.
Lemma canonicalize_confined_dirs m rel : quiet -> dirs m [] base_path -> dirs m base_path rel -> canonicalize_confined base_path m (base_path ++ rel) = Ok (base_path ++ rel).
Proof.
  intros Hq Hb Hrel. assert (dirs m [] (base_path ++ rel)) as Hd by (by apply dirs_app). pose proof (proj2 (path_strip_prefix_Some base_path (base_path ++ rel) rel) eq_refl) as Hstrip.
  unfold canonicalize_confined, reject_symlink_components, symlink_metadata, canonicalize, guarded. rewrite !(proj1 Hq), (resolve_dirs m false _ Hb), (node_at_dirs m _ Hb), Hstrip.
  cbn [ok_or]. rewrite reject_links_dirs by done. rewrite (resolve_dirs m true _ Hd), (node_at_dirs m _ Hd). cbn [map_err].
  unfold ensure_resolved_within_base. by rewrite Hstrip.
Qed.

(** [o] gives the keys of what was [found] and goes on as [rest], or stops
    within them at a failure. *)
Definition goes_on (found : list path) (o rest : option (list listing_item)) : Prop :=
  o = app (map (fun q => Ok (key_of base_path q)) found) <$> rest \/
  exists pre post e, found = pre ++ post /\ o = Some (map (fun q => Ok (key_of base_path q)) pre ++ [Err e]) /\ ~ quiet.

Lemma goes_on_same o : goes_on [] o o.
Proof. left. by destruct o. Qed.
Lemma goes_on_trans f1 f2 o1 o2 o3 : goes_on f1 o1 o2 -> goes_on f2 o2 o3 -> goes_on (f1 ++ f2) o1 o3.
Proof.
  intros [->|(pre & post & e & -> & -> & Hq)] Ho2; [|right; exists pre, (post ++ f2), e; by rewrite <- app_assoc].
  destruct Ho2 as [->|(pre & post & e & -> & -> & Hq)].
  - left. destruct o3; [|done]. cbn. by rewrite map_app, <- app_assoc.
  - right. exists (f1 ++ pre), post, e. split; [by rewrite app_assoc|]. split; [|done]. cbn. by rewrite map_app, <- app_assoc.
Qed.
Lemma goes_on_cut found e rest : ~ quiet -> goes_on found (Some [Err e]) rest.
Proof. intros Hq. right. by exists [], found, e. Qed.

Lemma read_dir_at m p : dirs m [] p -> read_dir m p = Ok (entries m p) \/ read_dir m p = Err FsOther /\ ~ quiet.
Proof.
  intros Hd. unfold read_dir. destruct (list_fails _) eqn:E; [right; split; [done|]; intros [_ Hq]; congruence|left].
  by rewrite (resolve_dirs m true _ Hd), (node_at_dirs m _ Hd).
Qed.

Lemma loop_dir m : root_ok base_path m -> no_dots m -> forall h rel, dirs m base_path rel -> shallow m h (base_path ++ rel) -> forall stack f,
  goes_on (files h m (base_path ++ rel)) (list_loop base_path (steps h m (base_path ++ rel) + f) m ((base_path ++ rel, entries m (base_path ++ rel)) :: stack))
    (list_loop base_path f m stack).
Proof.
  intros [Hwf Hbase] Hdots. induction h as [|h IH]; intros rel Hrel Hs stack f.
  { assert (entries m (base_path ++ rel) = []) as ->.
    { apply elem_of_nil_inv. intros c Hc%entries_spec. specialize (Hs [c] Hc). cbn in Hs. lia. }
    cbn [files steps]. change (1 + f)%nat with (S f). cbn [list_loop length]. destruct (list_fails _) eqn:E; [|apply goes_on_same].
    apply goes_on_cut. intros [_ Hq]. congruence. }
  cbn [files steps]. set (p := base_path ++ rel) in *.
  assert (forall c, c ∈ entries m p -> is_Some (m !! (p ++ [c]))) as Hin by (intros c; apply entries_spec).
  revert Hin. generalize (entries m p) as names. intros names. induction names as [|c names IHn]; intros Hin.
  { cbn [sum_list_with mbind list_bind]. change (1 + f)%nat with (S f). cbn [list_loop length]. destruct (list_fails _) eqn:E; [|apply goes_on_same].
    apply goes_on_cut. intros [_ Hq]. congruence. }
  destruct (Hin c ltac:(by left)) as [n Hn]. specialize (IHn (fun c' Hc' => Hin c' (list_elem_of_further _ _ _ Hc'))).
  pose proof (Hdots _ _ Hn) as Hc. apply Forall_app in Hc as [_ Hc%Forall_inv].
  cbn [mbind list_bind sum_list_with]. rewrite Hn.
  match goal with |- goes_on _ (list_loop _ (S ?a + f) m _) _ => change (S a + f)%nat with (S (a + f)); remember (a + f)%nat as fuel eqn:Efuel end.
  cbn [list_loop]. destruct (list_fails (CallNextEntry _ _)) eqn:E; [apply goes_on_cut; intros [_ Hq]; congruence|].
  unfold file_type. destruct (list_fails (CallFileType _)) eqn:E2; [apply goes_on_cut; intros [_ Hq]; congruence|].
  rewrite node_at_snoc, Hn. cbn [ok_or]. unfold visit at 1. rewrite Hn. destruct n as [|data|a t].
  - assert (dirs m base_path (rel ++ [c])) as Hrel'.
    { apply dirs_app. split; [done|]. split; [done|]. split; [|done]. exact Hn. }
    assert (p ++ [c] = base_path ++ (rel ++ [c])) as Ep by (unfold p; by rewrite app_assoc).
    pose proof (canonicalize_confined_spec base_path m (rel ++ [c]) (conj Hwf Hbase)) as Hcan. rewrite <- Ep in Hcan.
    specialize (Hcan ltac:(pose proof (Hdots _ _ Hn) as Hall; rewrite Ep in Hall; by apply Forall_app in Hall as [_ Hall])).
    destruct (canonicalize_confined base_path m (p ++ [c])) as [q|e|] eqn:Ecan.
    + destruct Hcan as (-> & _). destruct (read_dir_at m (p ++ [c])) as [-> |[-> Hq]]; [rewrite Ep; by apply dirs_app| |by apply goes_on_cut].
      eapply goes_on_trans; [|exact IHn].
      specialize (IH (rel ++ [c]) Hrel' ltac:(rewrite <- Ep; by apply shallow_down) ((p, names) :: stack)
        (S (sum_list_with (fun c => S (match m !! (p ++ [c]) with Some FDir => steps h m (p ++ [c]) | _ => 0 end)) names) + f)). rewrite <- Ep in IH.
      subst fuel. match type of IH with goes_on _ (list_loop _ ?n _ _) _ => match goal with |- goes_on _ (list_loop _ ?n' _ _) _ => replace n' with n by lia end end.
      exact IH.
    + assert (~ quiet) as Hq.
      { intros Hq. rewrite Ep, canonicalize_confined_dirs in Ecan by done. done. }
      destruct e; try by apply goes_on_cut. destruct Hcan as [_ Hcan]. congruence.
    + done.
  - subst fuel. assert (path_strip_prefix base_path (p ++ [c]) = Some (rel ++ [c])) as ->.
    { apply path_strip_prefix_Some. unfold p. by rewrite app_assoc. }
    eapply (goes_on_trans [p ++ [c]]); [|exact IHn]. left. cbn [map]. f_equal.
    unfold key_of, p. rewrite <- app_assoc, drop_app_length. reflexivity.
  - subst fuel. exact IHn.
Qed.

(** *** Keys *)

(** What a system lets a name be. *)
Definition plain_names (m : fs) : Prop := forall q n, m !! q = Some n ->
  Forall (fun c => c <> "" /\ c <> "." /\ c <> ".." /\ contains_char "/"%char c = false) q.
Lemma plain_no_dots m : plain_names m -> no_dots m.
Proof. intros Hp q n Hq. eapply Forall_impl; [by eapply Hp|]. naive_solver. Qed.

Lemma components_of_key m rel n : plain_names m -> m !! (base_path ++ rel) = Some n -> rel <> [] ->
  key_components (key_of base_path (base_path ++ rel)) = rel.
Proof.
  intros Hp [_ Hn%Forall_and]%Hp%Forall_app Hne. unfold key_of. rewrite drop_app_length. unfold key_components. change (split_where is_slash) with (split_on "/"%char).
  destruct Hn as [He [Hd [_ Hs]%Forall_and]%Forall_and]. rewrite split_join by done. clear Hs Hne. induction rel as [|c rel IH]; [done|].
  apply Forall_cons in He as [He Hes], Hd as [Hd Hds]. cbn [List.filter]. apply String.eqb_neq in He, Hd. rewrite He, Hd. cbn. by rewrite IH.
Qed.

(** A path ends at a directory, or nothing is below it. *)
Lemma nothing_below_root m : root_ok base_path m -> forall rel rest, Forall (fun c => c <> "..") rel -> ~ dirs m base_path rel -> rest <> [] -> m !! (base_path ++ rel ++ rest) = None.
Proof.
  intros [Hwf _]. enough (forall rel cur rest, Forall (fun c => c <> "..") rel -> ~ dirs m cur rel -> rest <> [] -> m !! (cur ++ rel ++ rest) = None) by auto.
  induction rel as [|c rel IH]; intros cur rest Hdots Hn Hne; [by destruct Hn|]. apply Forall_cons in Hdots as [Hc Hdots].
  replace (cur ++ (c :: rel) ++ rest) with ((cur ++ [c]) ++ rel ++ rest) by by rewrite <- app_assoc.
  destruct (decide (m !! (cur ++ [c]) = Some FDir)) as [E|E].
  - apply IH; [done| |done]. intros Hd. by apply Hn.
  - apply nothing_below; [done|by rewrite node_at_snoc|]. by destruct rel.
Qed.

(** A directory, or the place of one. *)
Definition listable (m : fs) (prefix : string) : Prop :=
  prefix = "" \/ is_ok (object_path base_path prefix) = true /\
  exists pre post, key_components prefix = pre ++ post /\ dirs m base_path pre /\ match post with [] => True | c :: _ => m !! (base_path ++ pre ++ [c]) = None end.

Lemma walk_dirs_app m follow links pre rest : forall cur, dirs m cur pre -> walk links m follow cur (pre ++ rest) = walk links m follow (cur ++ pre) rest.
Proof.
  induction pre as [|c pre IH]; intros cur Hd; [by rewrite app_nil_r|]. destruct Hd as (Hc & E & Hd). cbn [app]. rewrite walk_step by done.
  rewrite E, IH by done. by rewrite <- app_assoc.
Qed.
Lemma canonicalize_missing m pre c post : quiet -> dirs m [] base_path -> dirs m base_path pre -> Forall (fun c => c <> "..") (c :: post) -> m !! (base_path ++ pre ++ [c]) = None ->
  exists k, canonicalize_confined base_path m (base_path ++ pre ++ c :: post) = Err (NotFound k).
Proof.
  intros [Hq1 Hq2] Hb Hpre [Hc _]%Forall_cons Hn. assert (dirs m [] (base_path ++ pre)) as Hd by (by apply dirs_app).
  assert (forall rel cur, dirs m [] cur -> dirs m cur rel -> m !! (cur ++ rel ++ [c]) = None -> reject_links m cur (rel ++ c :: post) = Ok tt) as Hlinks.
  { induction rel as [|c' rel IH]; intros cur Hcur Hrel Hm.
    - cbn [app reject_links]. cbn [app] in Hm. unfold symlink_metadata, guarded. rewrite Hq1.
      rewrite resolve_reached_nofollow by (exists cur, c; done). by rewrite node_at_snoc, Hm.
    - destruct Hrel as (Hc' & E & Hrel). cbn [app reject_links]. assert (dirs m [] (cur ++ [c'])) as Hcur' by (by apply dirs_app).
      unfold symlink_metadata, guarded. rewrite Hq1, (resolve_dirs m false _ Hcur'), (node_at_dirs m _ Hcur'). cbn [ok_or]. apply IH; [done..|].
      by rewrite <- app_assoc. }
  pose proof (proj2 (path_strip_prefix_Some base_path (base_path ++ pre ++ c :: post) _) eq_refl) as Hstrip.
  unfold canonicalize_confined, reject_symlink_components, symlink_metadata, canonicalize, guarded. rewrite !Hq1, (resolve_dirs m false _ Hb), (node_at_dirs m _ Hb), Hstrip.
  cbn [ok_or]. rewrite Hlinks by done. unfold resolve. rewrite app_assoc, walk_dirs_app by done. cbn [app]. rewrite walk_step by done.
  rewrite app_assoc in Hn. rewrite Hn. destruct post as [|c2 post]; cbn [ends]; [|by eexists]. rewrite node_at_snoc, Hn. by eexists.
Qed.

(** *** The stream *)
Lemma dirs_no_dots m rel : forall cur, dirs m cur rel -> Forall (fun c => c <> "..") rel.
Proof. induction rel as [|c rel IH]; intros cur Hd; [constructor|]. destruct Hd as (Hc & _ & Hd). constructor; eauto. Qed.

(** The keys of the objects below a prefix, as they are written in a listing. *)
Definition under (m : fs) (prefix key : string) : Prop :=
  is_Some (object_at base_path m key) /\ key = join "/"%char (key_components key) /\ exists c rest, key_components key = key_components prefix ++ c :: rest.
(** A stream of [keys], or of the first of them and an error that has a [cause]. *)
Definition streams (keys : list string) (items : list listing_item) (cause : Prop) : Prop :=
  items = map Ok keys \/ exists pre post e, keys = pre ++ post /\ items = map Ok pre ++ [Err e] /\ cause.

Lemma streams_error keys e (cause : Prop) : cause -> streams keys [Err e] cause.
Proof. intros Hc. right. by exists [], keys, e. Qed.

Lemma object_at_Some m key : is_Some (object_at base_path m key) <-> exists data, m !! (base_path ++ key_components key) = Some (FFile data).
Proof. unfold object_at. destruct (m !! _) as [[|d|a t]|]; split; naive_solver. Qed.

Lemma files_keys m prefix : root_ok base_path m -> plain_names m ->
  let keys := map (key_of base_path) (files (height m) m (base_path ++ key_components prefix)) in
  NoDup keys /\ forall key, key ∈ keys <-> under m prefix key.
Proof.
  intros Hroot Hplain. cbn zeta.
  assert (forall q, q ∈ files (height m) m (base_path ++ key_components prefix) <-> exists c rest data, q = (base_path ++ key_components prefix) ++ c :: rest /\ m !! q = Some (FFile data)) as Hfiles.
  { intros q. apply files_spec; [apply Hroot|]. intros rest [n Hn]. apply height_bound in Hn. rewrite length_app in Hn. lia. }
  assert (forall q, q ∈ files (height m) m (base_path ++ key_components prefix) -> q = base_path ++ key_components (key_of base_path q)) as Hkey.
  { intros q (c & rest & data & -> & Hq)%Hfiles. rewrite <- app_assoc in *. rewrite (components_of_key m _ _ Hplain Hq) by (by destruct (key_components prefix)). done. }
  split.
  - apply NoDup_fmap_2_strong; [|apply files_NoDup]. intros q1 q2 H1' H2' E. rewrite (Hkey q1 H1'), (Hkey q2 H2'). by rewrite E.
  - intros key. rewrite list_elem_of_fmap. split.
    + intros (q & -> & Hq). pose proof (Hkey q Hq) as E. apply Hfiles in Hq as (c & rest & data & Eq & Hq). split; [|split].
      * apply object_at_Some. rewrite <- E. by eexists.
      * rewrite E at 1. unfold key_of at 1. by rewrite drop_app_length.
      * rewrite Eq, <- app_assoc in E. apply app_inv_head in E. rewrite <- app_assoc in Eq. subst q. eauto.
    + intros ([data Hd]%object_at_Some & Hcanon & c & rest & Hc). exists (base_path ++ key_components key). split.
      * unfold key_of. by rewrite drop_app_length.
      * apply Hfiles. exists c, rest, data. split; [|done]. by rewrite Hc, app_assoc.
Qed.

Lemma stream_of_dir m prefix : root_ok base_path m -> plain_names m -> dirs m base_path (key_components prefix) -> exists items,
  list_objects_stream base_path m prefix = Some items /\
  streams (map (key_of base_path) (files (height m) m (base_path ++ key_components prefix))) items (quiet -> listable m prefix -> False).
Proof.
  intros Hroot Hplain Hd. unfold list_objects_stream.
  assert (dirs m [] (base_path ++ key_components prefix)) as Hdirs by (apply dirs_app; split; [apply Hroot|done]).
  assert ((if (prefix =? "")%string then Ok base_path else object_path base_path prefix) = Ok (base_path ++ key_components prefix) \/
          exists e, (if (prefix =? "")%string then Ok base_path else object_path base_path prefix) = Err e /\ (listable m prefix -> False)) as Hp.
  { destruct (String.eqb_spec prefix "") as [->|Hne]; [left; by rewrite app_nil_r|]. destruct (object_path base_path prefix) as [p|e|] eqn:Eo.
    - left. by apply object_path_Ok in Eo as [-> _].
    - right. exists e. split; [done|]. intros [|[Ho _]]; [done|]. by rewrite Eo in Ho.
    - by apply object_path_not_panic in Eo. }
  destruct Hp as [-> |(e & -> & Hl)]; [|eexists; split; [done|]; apply streams_error; auto].
  pose proof (canonicalize_confined_spec base_path m (key_components prefix) Hroot (dirs_no_dots _ _ _ Hd)) as Hcan.
  destruct (canonicalize_confined base_path m (base_path ++ key_components prefix)) as [q|e|] eqn:Ec; [| |done].
  - destruct Hcan as [-> _]. destruct (read_dir_at m _ Hdirs) as [-> |[-> Hq]]; [|eexists; split; [done|]; by apply streams_error].
    pose proof (loop_dir m Hroot (plain_no_dots m Hplain) (height m) (key_components prefix) Hd) as Hloop.
    specialize (Hloop ltac:(intros rest [n Hn]; apply height_bound in Hn; rewrite length_app in Hn; lia) [] 1%nat). rewrite Nat.add_1_r in Hloop.
    destruct Hloop as [-> |(pre & post & e & Ef & -> & Hq)]; eexists; (split; [reflexivity|]).
    + left. by rewrite app_nil_r, map_map.
    + right. exists (map (key_of base_path) pre), (map (key_of base_path) post), e. rewrite Ef, map_app, map_map. split; [done|]. by split.
  - assert (quiet -> False) as Hq by (intros Hq; by rewrite canonicalize_confined_dirs in Ec by (done || apply Hroot)).
    destruct e as [k|msg|msg|]; try (eexists; split; [done|]; apply streams_error; auto). exfalso. destruct Hcan as [Hne Hn].
    pose proof (dirs_node m _ _ Hd Hne). congruence.
Qed.

(** Where there is no directory, nothing is listed. *)
Lemma nothing_under m prefix key : root_ok base_path m -> plain_names m -> ~ dirs m base_path (key_components prefix) -> ~ under m prefix key.
Proof.
  intros Hroot Hplain Hd ([data Hdata]%object_at_Some & _ & c & rest & Hc). pose proof (plain_no_dots m Hplain _ _ Hdata) as Hdots.
  rewrite Hc in Hdots, Hdata. apply Forall_app in Hdots as [_ [Hdots _]%Forall_app].
  rewrite (nothing_below_root m Hroot (key_components prefix) (c :: rest)) in Hdata by done. done.
Qed.
Lemma stream_of_nothing m prefix : root_ok base_path m -> ~ dirs m base_path (key_components prefix) -> exists items,
  list_objects_stream base_path m prefix = Some items /\ streams [] items (quiet -> listable m prefix -> False).
Proof.
  intros Hroot Hd. unfold list_objects_stream. destruct (String.eqb_spec prefix "") as [->|Hne]; [by destruct Hd|].
  destruct (object_path base_path prefix) as [p|e|] eqn:Eo; [| |by apply object_path_not_panic in Eo].
  2: { eexists. split; [done|]. apply streams_error. intros _ [|[Ho _]]; [done|]. by rewrite Eo in Ho. }
  apply object_path_Ok in Eo as [-> Hdots]. pose proof (canonicalize_confined_spec base_path m (key_components prefix) Hroot Hdots) as Hcan.
  assert (quiet -> listable m prefix -> exists k, canonicalize_confined base_path m (base_path ++ key_components prefix) = Err (NotFound k)) as Hmissing.
  { intros Hq [|(_ & pre & post & Ec & Hpre & Hpost)]; [done|]. rewrite Ec in Hdots, Hd |- *. destruct post as [|c post]; [by rewrite app_nil_r in Hd|].
    apply Forall_app in Hdots as [_ Hdots]. apply canonicalize_missing; try done. apply Hroot. }
  destruct (canonicalize_confined base_path m (base_path ++ key_components prefix)) as [q|e|]; [| |done].
  - assert (quiet -> listable m prefix -> False) as Hcause by (intros Hq Hl; by destruct (Hmissing Hq Hl)).
    destruct Hcan as (-> & [n Hn] & Hreach). unfold read_dir. destruct (list_fails _); [eexists; split; [done|]; by apply streams_error|].
    assert (key_components prefix <> []) as Hcne by (intros E; by rewrite E in Hd). destruct (Hreach Hcne) as [Hr Hl]. rewrite resolve_reached by done. rewrite Hn.
    destruct n as [|data|a t]; [|eexists; (split; [done|]; by apply streams_error)..]. exfalso. apply Hd.
    destruct Hr as (p & c & E & Hp & Hc). assert (dirs m [] (p ++ [c])) as Hall.
    { apply dirs_app. split; [done|]. split; [done|]. split; [|done]. rewrite E, node_at_snoc in Hn. done. }
    rewrite <- E in Hall. by apply dirs_app in Hall as [_ Hall].
  - destruct e as [k|msg|msg|]; eexists; (split; [done|]); try (apply streams_error; intros Hq Hl; by destruct (Hmissing Hq Hl)). by left.
Qed.
End ListingLemmas.

Section Listed.
Context `{FsFaults, ListLaws} (base_path : path).

Lemma dirs_or_not m todo : forall cur, dirs m cur todo \/ ~ dirs m cur todo.
Proof.
  induction todo as [|c todo IH]; intros cur; [by left|]. cbn [dirs]. destruct (decide (c = "..")); [right; tauto|].
  destruct (decide (m !! (cur ++ [c]) = Some FDir)); [|right; tauto]. destruct (IH (cur ++ [c])); [by left|right; tauto].
Qed.

Lemma stream_exact m prefix : root_ok base_path m -> plain_names m -> exists items keys,
  list_objects_stream base_path m prefix = Some items /\ NoDup keys /\ (forall key, key ∈ keys <-> under base_path m prefix key) /\
  streams keys items (quiet -> listable base_path m prefix -> False).
Proof.
  intros Hroot Hplain. destruct (dirs_or_not m (key_components prefix) base_path) as [Hd|Hd].
  - destruct (stream_of_dir base_path m prefix Hroot Hplain Hd) as (items & Hs & Hitems). destruct (files_keys base_path m prefix Hroot Hplain) as [Hnd Hkeys].
    by eexists items, _.
  - destruct (stream_of_nothing base_path m prefix Hroot Hd) as (items & Hs & Hitems). exists items, []. split; [done|]. split; [constructor|]. split; [|done].
    intros key. split; [by intros ?%elem_of_nil|]. intros Hu. by destruct (nothing_under base_path m prefix key Hroot Hplain Hd).
Qed.

Lemma collect_keys (keys : list string) : map_outcome (fun item : listing_item => item) (map Ok keys) = Ok keys.
Proof. induction keys as [|key keys IH]; [done|]. cbn [map map_outcome]. by rewrite IH. Qed.
Lemma collect_error (keys : list string) e : map_outcome (fun item : listing_item => item) (map Ok keys ++ [Err e]) = Err e.
Proof. induction keys as [|key keys IH]; [done|]. cbn [map app map_outcome]. by rewrite IH. Qed.
End Listed.

(** ** The root *)
Section Root.
Context `{FsFaults}.

(** A missing last component is no link, and is found once it is made. *)
Lemma walk_missing m r follow : forall links todo cur, walk links m false cur todo = Ok r -> m !! r = None -> walk links m follow cur todo = Ok r.
Proof.
  induction links as [|links IHl]; induction todo as [|c todo IH]; intros cur Hw Hr; try done.
  all: destruct (decide (c = "..")) as [->|Hc]; [exact (IH _ Hw Hr)|rewrite walk_step in Hw |- * by done].
  all: destruct (m !! (cur ++ [c])) as [[|d|a t]|] eqn:E; try by auto.
  all: destruct (ends todo); cbn [andb negb] in *; [injection Hw as <-; congruence|]; auto.
Qed.
Lemma walk_made m r follow : forall links todo cur, walk links m follow cur todo = Ok r -> m !! r = None -> walk links (<[r := FDir]> m) follow cur todo = Ok r.
Proof.
  induction links as [|links IHl]; induction todo as [|c todo IH]; intros cur Hw Hr; try done.
  all: destruct (decide (c = "..")) as [->|Hc]; [exact (IH _ Hw Hr)|rewrite walk_step in Hw |- * by done].
  all: destruct (decide (cur ++ [c] = r)) as [<-|Hne];
    [rewrite Hr in Hw; rewrite lookup_insert_eq; destruct todo; done|rewrite lookup_insert_ne by done].
  all: destruct (m !! (cur ++ [c])) as [[|d|a t]|] eqn:E; try by auto.
  all: destruct (ends todo && negb follow); auto.
Qed.

Lemma create_dir_made m p m' : fs_wf m -> create_dir m p = (m', Ok tt) -> fs_wf m' /\ exists q, resolve m' true p = Ok q /\ node_at m' q = Some FDir.
Proof.
  intros Hwf. unfold create_dir. destruct (resolve m true p) as [q|e|] eqn:Eq; [|done..]. destruct (resolve m false p) as [r|e|] eqn:Er; [|done..].
  destruct (node_at m q) as [[|d|a t]|] eqn:Enq; [intros [= <-]; split; [done|]; by exists q|destruct (node_at m r); done..|].
  destruct (node_at m r) as [n|] eqn:Enr; [done|]. destruct (fails _); [done|]. intros [= <-].
  assert (r <> []) as Hr by (by intros ->). assert (m !! r = None) as Hnone by (by destruct r).
  split; [apply insert_at; [done|by eapply resolve_in_dir|done|congruence]|]. exists r. split.
  - apply walk_made; [|done]. by apply walk_missing.
  - destruct r; [done|]. cbn [node_at]. by rewrite lookup_insert_eq.
Qed.
Lemma create_dirs_made todo : forall m cur m', fs_wf m -> create_dirs m cur todo = (m', Ok tt) -> todo <> [] ->
  fs_wf m' /\ exists q, resolve m' true (cur ++ todo) = Ok q /\ node_at m' q = Some FDir.
Proof.
  induction todo as [|c todo IH]; intros m cur m' Hwf Hc Hne; [done|]. cbn [create_dirs] in Hc.
  destruct (create_dir m (cur ++ [c])) as [m1 [[]|e|]] eqn:E1; [|done..]. apply create_dir_made in E1 as (Hwf1 & q & Hq); [|done].
  destruct todo as [|c2 todo]; [injection Hc as <-; eauto|]. specialize (IH m1 (cur ++ [c]) m' Hwf1 Hc ltac:(done)). by rewrite <- app_assoc in IH.
Qed.

Lemma dirs_of_node m q : fs_wf m -> no_dots m -> node_at m q = Some FDir -> dirs m [] q.
Proof.
  intros Hwf Hdots. induction q as [|c q IH] using rev_ind; intros Hq; [done|]. apply dirs_app. split.
  - apply IH. apply parent_dir in Hq; [|done]. by rewrite removelast_last in Hq.
  - rewrite node_at_snoc in Hq. pose proof (Hdots _ _ Hq) as [_ Hc%Forall_inv]%Forall_app. by split.
Qed.

(** The root of a new backend is what its theorems ask for. *)
Lemma new_root m p m' base : fs_wf m -> local_new m p = (m', Ok base) -> no_dots m' -> root_ok base m'.
Proof.
  unfold local_new. intros Hwf Hnew Hdots. destruct p as [|c p]; [done|]. destruct (create_dir_all m (c :: p)) as [m1 [[]|e|]] eqn:E1; [|done..].
  apply create_dirs_made in E1 as (Hwf1 & q & Hq & Hn); [|done..]. injection Hnew as <- Hcan. cbn [app] in Hq. unfold canonicalize, guarded in Hcan.
  destruct (fails _); [done|]. rewrite Hq, Hn in Hcan. injection Hcan as <-. split; [done|]. by apply dirs_of_node.
Qed.
End Root.

(** ** The property *)
(** C37: Listing a prefix of the local backend ends, and gives the keys of
    exactly the objects below it, each once, whatever order the system gives
    the entries in; links are not followed, so nothing from outside the root is
    listed.  Where a call fails or the prefix is no directory, the stream is
    the first of those keys and then an error, and collecting it is that error:
    an answer that is not an error misses nothing. *)
Theorem listing_is_exact `{FsFaults, ListLaws} base_path m prefix :
  root_ok base_path m -> plain_names m -> exists items keys,
  list_objects_stream base_path m prefix = Some items /\ NoDup keys /\ (forall key, key ∈ keys <-> under base_path m prefix key) /\
  streams keys items (quiet -> listable base_path m prefix -> False) /\
  (forall l, list_objects base_path m prefix = Some (Ok l) -> l = keys) /\
  (quiet -> listable base_path m prefix -> list_objects base_path m prefix = Some (Ok keys)) /\
  list_objects base_path m prefix <> Some Panic.
Proof.
  intros Hroot Hplain. destruct (stream_exact base_path m prefix Hroot Hplain) as (items & keys & Hs & Hnd & Hkeys & Hitems).
  exists items, keys. split; [done|]. split; [done|]. split; [done|]. split; [done|]. unfold list_objects. rewrite Hs. cbn [fmap option_fmap option_map].
  destruct Hitems as [->|(pre & post & e & -> & -> & Hcause)].
  - rewrite collect_keys. split; [by intros l [= ->]|by split].
  - rewrite collect_error. split; [done|]. split; [|done]. intros Hq Hl. by destruct (Hcause Hq Hl).
Qed.

(** ** A listing *)
Import LocalModel.
#[local] Existing Instance no_faults.
#[local] Instance calls : ListCalls := {| list_fails := fun _ => false; shuffle := fun _ names => rev names |}.
#[local] Instance calls_laws : ListLaws := fun p names => Permutation_sym (Permutation_rev names).

(** Two shards, a link to a directory with a file, and an object elsewhere. *)
Definition listed_fs : fs :=
  <[base ++ ["shards"; "ff"] := FFile [Byte.x01]]> (<[base ++ ["shards"; "00"] := FFile []]> (<[base ++ ["shards"; "out"] := FLink true ["etc"]]>
  (<[base ++ ["shards"] := FDir]> (<[["etc"; "passwd"] := FFile []]> (<[["etc"] := FDir]> empty_fs))))).

Lemma listed_root : root_ok base listed_fs.
Proof.
  split; [|repeat split; done]. unfold listed_fs.
  apply (fs_wf_insert _ (base ++ ["shards"]) "ff"); [|reflexivity|discriminate].
  apply (fs_wf_insert _ (base ++ ["shards"]) "00"); [|reflexivity|discriminate].
  apply (fs_wf_insert _ (base ++ ["shards"]) "out"); [|reflexivity|discriminate].
  apply (fs_wf_insert _ base "shards"); [|reflexivity|discriminate].
  apply (fs_wf_insert _ ["etc"] "passwd"); [|reflexivity|discriminate].
  apply (fs_wf_insert _ [] "etc"); [|reflexivity|discriminate]. apply empty_root.
Qed.
Lemma listed_names : plain_names listed_fs.
Proof.
  intros q n Hq. unfold listed_fs, empty_fs in Hq.
  repeat (apply lookup_insert_Some in Hq as [[<- _]|[_ Hq]]; [repeat constructor; discriminate|]). apply lookup_singleton_Some in Hq as [<- _].
  repeat constructor; discriminate.
Qed.

Lemma listing_is_exact_witness : exists keys, list_objects base listed_fs "shards/" = Some (Ok keys) /\ keys = ["shards/00"; "shards/ff"] /\
  forall key, key ∈ keys <-> under base listed_fs "shards/" key.
Proof.
  destruct (listing_is_exact base listed_fs "shards/" listed_root listed_names) as (items & keys & _ & _ & Hkeys & _ & Hl & Hok & _).
  exists keys. assert (list_objects base listed_fs "shards/" = Some (Ok ["shards/00"; "shards/ff"])) as E by (vm_compute; reflexivity).
  pose proof (Hl _ E) as <-. split; [exact E|]. split; [reflexivity|exact Hkeys].
Defined.
