(* ===== verification/S3Storage.v ===== *)
(** * The S3 backend (src/src/storage/s3.rs)

    The backend over an S3 service, the service being a class of requests with
    its documented behaviour as laws: reads see completed writes, a request that
    fails may have been carried out, parts of a multipart upload stay until it is
    completed or aborted.  Multipart uploads in flight are registered, so that
    the parts of an upload that failed or was cancelled can be aborted later.

    What changes the bucket or the registry is written as a [task]: the requests
    it awaits and the accesses to the registry between them, one by one, so that
    the tasks of a backend can be interleaved and dropped at an await
    ([S3Backend]).  [alone] carries out a task that nothing interrupts. *)
From S2P Require Import Prelude Bytes Crates MerkleHash Hash Shard Text Storage ShardIo ObjectStore.

Local Open Scope string_scope.
Local Open Scope list_scope.
Local Open Scope Z_scope.

(** ** The service (aws_sdk_s3) *)
Record S3Error := mkS3Error { s3_code : option string }.
Record ListPage := mkPage { pg_contents : list (option string); pg_next_token : option string; pg_is_truncated : option bool }.

(** A body arrives in pieces. *)
Class S3 := {
  bucket : Type;
  s3_head_bucket : bucket -> unit + S3Error;
  s3_put_object : bucket -> string -> list byte -> bucket * (unit + S3Error);
  s3_get_object : bucket -> string -> nat -> list (list byte + S3Error) + S3Error;
  s3_head_object : bucket -> string -> option Z + S3Error;
  s3_delete_object : bucket -> string -> bucket * (unit + S3Error);
  s3_create_multipart_upload : bucket -> string -> bucket * (option string + S3Error);
  s3_upload_part : bucket -> string -> string -> Z -> list byte -> bucket * (option string + S3Error);
  s3_complete_multipart_upload : bucket -> string -> string -> list (Z * string) -> bucket * (unit + S3Error);
  s3_abort_multipart_upload : bucket -> string -> string -> bucket * (unit + S3Error);
  s3_list_objects_v2 : bucket -> string -> option string -> ListPage + S3Error;
}.

Definition MULTIPART_THRESHOLD : Z := 5 * 1024 * 1024.
Definition PART_SIZE : Z := 8 * 1024 * 1024.
Definition MAX_MULTIPART_PARTS : Z := 10000.
Definition MAX_S3_OBJECT_SIZE : Z := 5 * 1024 * 1024 * 1024 * 1024.
Definition LIST_PAGE_SIZE : Z := 1000.

(** Parts of the uploads in progress: their number, bytes and tag. *)
Record Upload := mkUpload { up_key : string; up_parts : gmap Z (list byte * string) }.

(** ** Tasks

    What a future does next: it answers, awaits a request, or goes through the
    registry of uploads in flight.  [NewGuard] is [ActiveUploadGuard::new], which
    registers the upload and arms the guard of the future; [Disarm] is
    [ActiveUploadGuard::disarm]. *)
Inductive task :=
| Answer (r : StorageResult unit)
| OutOfFuel
| PutObject (key : string) (data : list byte) (k : unit + S3Error -> task)
| DeleteObject (key : string) (k : unit + S3Error -> task)
| CreateMultipartUpload (key : string) (k : option string + S3Error -> task)
| UploadPart (key upload_id : string) (n : Z) (data : list byte) (k : option string + S3Error -> task)
| CompleteMultipartUpload (key upload_id : string) (parts : list (Z * string)) (k : unit + S3Error -> task)
| AbortMultipartUpload (key upload_id : string) (k : unit + S3Error -> task)
| NewGuard (upload_id key : string) (t : task)
| Disarm (t : task)
| Register (upload_id key : string) (t : task)
| Remove (upload_id : string) (k : option string -> task)
| Drain (k : list (string * string) -> task).

(** The request that a task awaits, and the task once it is answered. *)
Definition request `{S3} (b : bucket) (t : task) : option (bucket * task) :=
  match t with
  | PutObject key data k => let '(b, r) := s3_put_object b key data in Some (b, k r)
  | DeleteObject key k => let '(b, r) := s3_delete_object b key in Some (b, k r)
  | CreateMultipartUpload key k => let '(b, r) := s3_create_multipart_upload b key in Some (b, k r)
  | UploadPart key id n data k => let '(b, r) := s3_upload_part b key id n data in Some (b, k r)
  | CompleteMultipartUpload key id parts k => let '(b, r) := s3_complete_multipart_upload b key id parts in Some (b, k r)
  | AbortMultipartUpload key id k => let '(b, r) := s3_abort_multipart_upload b key id in Some (b, k r)
  | _ => None
  end.

(** The id that the answer to the request brings. *)
Definition created_id `{S3} (b : bucket) (t : task) : option string :=
  match t with
  | CreateMultipartUpload key _ => match (s3_create_multipart_upload b key).2 with inl id => id | inr _ => None end
  | _ => None
  end.

(** The accesses to the registry, which maps the ids of the uploads in flight to
    their keys.  [guard] is the id that the guard of the future is armed for. *)
Definition registry_step (active : gmap string string) (guard : option string) (t : task) : option (gmap string string * option string * task) :=
  match t with
  | NewGuard id key t => Some (<[id := key]> active, Some id, t)
  | Disarm t => Some (match guard with Some id => delete id active | None => active end, None, t)
  | Register id key t => Some (<[id := key]> active, guard, t)
  | Remove id k => Some (delete id active, guard, k (active !! id))
  | Drain k => Some (∅, guard, k (map_to_list active))
  | _ => None
  end.

(** ** What the service promises

    The ids of multipart uploads are never issued twice. *)
(** A code that says that the object is not there. *)
Definition missing_code (e : S3Error) : bool :=
  match s3_code e with Some code => (code =? "NoSuchKey")%string || (code =? "NotFound")%string | None => false end.

(** The whole of a body, unless one of its pieces is an error. *)
Fixpoint collect (pieces : list (list byte + S3Error)) : option (list byte) :=
  match pieces with
  | [] => Some []
  | inl piece :: pieces => app piece <$> collect pieces
  | inr _ :: _ => None
  end.

Class S3Laws `{S3} := {
  objects : bucket -> gmap string (list byte);
  uploads : bucket -> gmap string Upload;
  issued : bucket -> string -> Prop;
  listed : bucket -> string -> option string -> list string;
  objects_size : forall b key data, objects b !! key = Some data -> len data <= MAX_S3_OBJECT_SIZE;
  put_object_law : forall b key data b' r, s3_put_object b key data = (b', r) ->
    uploads b' = uploads b /\
    match r with inl _ => objects b' = <[key := data]> (objects b) | inr _ => objects b' = objects b \/ objects b' = <[key := data]> (objects b) end;
  get_object_law : forall b key n,
    match s3_get_object b key n with
    | inl pieces => exists data, objects b !! key = Some data /\ forall data', collect pieces = Some data' -> data' = data
    | inr e => missing_code e = true -> objects b !! key = None
    end;
  head_object_law : forall b key,
    match s3_head_object b key with
    | inl content_length => exists data, objects b !! key = Some data /\ (content_length = None \/ content_length = Some (len data))
    | inr e => missing_code e = true -> objects b !! key = None
    end;
  delete_object_law : forall b key b' r, s3_delete_object b key = (b', r) ->
    uploads b' = uploads b /\
    match r with inl _ => objects b' = delete key (objects b) | inr _ => objects b' = objects b \/ objects b' = delete key (objects b) end;
  issued_kept : forall b t b' t' id, request b t = Some (b', t') -> issued b id -> issued b' id;
  create_law : forall b key b' r, s3_create_multipart_upload b key = (b', r) ->
    objects b' = objects b /\ (forall id, issued b id -> uploads b' !! id = uploads b !! id) /\
    match r with
    | inl (Some id) => ~ issued b id /\ issued b' id /\ uploads b' = <[id := mkUpload key ∅]> (uploads b)
    | _ => uploads b ⊆ uploads b'
    end;
  upload_part_law : forall b key id n data b' r ps, s3_upload_part b key id n data = (b', r) -> uploads b !! id = Some (mkUpload key ps) ->
    objects b' = objects b /\
    match r with
    | inl tag => uploads b' = <[id := mkUpload key (<[n := (data, default "" tag)]> ps)]> (uploads b)
    | inr _ => exists ps', uploads b' = <[id := mkUpload key ps']> (uploads b)
    end;
  upload_part_absent : forall b key id n data b' r, s3_upload_part b key id n data = (b', r) -> uploads b !! id = None ->
    objects b' = objects b /\ uploads b' = uploads b;
  complete_law : forall b key id parts b' r ps, s3_complete_multipart_upload b key id parts = (b', r) -> uploads b !! id = Some (mkUpload key ps) ->
    let completed := exists pieces, Forall2 (fun part piece => ps !! part.1 = Some (piece, part.2)) parts pieces /\
      objects b' = <[key := concat pieces]> (objects b) /\ uploads b' = delete id (uploads b) in
    match r with inl _ => completed | inr _ => (objects b' = objects b /\ uploads b' = uploads b) \/ completed end;
  complete_absent : forall b key id parts b' r, s3_complete_multipart_upload b key id parts = (b', r) -> uploads b !! id = None ->
    objects b' = objects b /\ uploads b' = uploads b;
  abort_law : forall b key id b' r, s3_abort_multipart_upload b key id = (b', r) ->
    objects b' = objects b /\
    match r with inl _ => uploads b' = delete id (uploads b) | inr _ => uploads b' = uploads b \/ uploads b' = delete id (uploads b) end;
  listed_all : forall b prefix, NoDup (listed b prefix None) /\
    forall key, key ∈ listed b prefix None <-> is_Some (objects b !! key) /\ starts_with prefix key = true;
  list_law : forall b prefix token page, s3_list_objects_v2 b prefix token = inl page ->
    exists keys, pg_contents page = map Some keys /\ (length keys <= Z.to_nat LIST_PAGE_SIZE)%nat /\
    if default false (pg_is_truncated page) then
      exists next, pg_next_token page = Some next /\ next <> "" /\ keys <> [] /\ listed b prefix token = keys ++ listed b prefix (Some next)
    else pg_next_token page = None /\ listed b prefix token = keys;
}.

(** ** The backend *)
Record S3Storage `{S3} := mkS3 { ss_bucket : bucket; ss_active : gmap string string }.
Arguments mkS3 {_} _ _.

Section Backend.
Context `{S3, FileReads}.

(** A task that nothing interrupts, with the guard it leaves. *)
Fixpoint alone (st : S3Storage) (guard : option string) (t : task) : option (S3Storage * option string * StorageResult unit) :=
  match t with
  | Answer r => Some (st, guard, r)
  | OutOfFuel => None
  | PutObject key data k => let '(b, r) := s3_put_object (ss_bucket st) key data in alone (mkS3 b (ss_active st)) guard (k r)
  | DeleteObject key k => let '(b, r) := s3_delete_object (ss_bucket st) key in alone (mkS3 b (ss_active st)) guard (k r)
  | CreateMultipartUpload key k => let '(b, r) := s3_create_multipart_upload (ss_bucket st) key in alone (mkS3 b (ss_active st)) guard (k r)
  | UploadPart key id n data k => let '(b, r) := s3_upload_part (ss_bucket st) key id n data in alone (mkS3 b (ss_active st)) guard (k r)
  | CompleteMultipartUpload key id parts k => let '(b, r) := s3_complete_multipart_upload (ss_bucket st) key id parts in alone (mkS3 b (ss_active st)) guard (k r)
  | AbortMultipartUpload key id k => let '(b, r) := s3_abort_multipart_upload (ss_bucket st) key id in alone (mkS3 b (ss_active st)) guard (k r)
  | NewGuard id key t => alone (mkS3 (ss_bucket st) (<[id := key]> (ss_active st))) (Some id) t
  | Disarm t => alone (mkS3 (ss_bucket st) (match guard with Some id => delete id (ss_active st) | None => ss_active st end)) None t
  | Register id key t => alone (mkS3 (ss_bucket st) (<[id := key]> (ss_active st))) guard t
  | Remove id k => alone (mkS3 (ss_bucket st) (delete id (ss_active st))) guard (k (ss_active st !! id))
  | Drain k => alone (mkS3 (ss_bucket st) ∅) guard (k (map_to_list (ss_active st)))
  end.

Definition internal_error {A} (message : string) : StorageResult A := Err (Internal message).
Definition s3_error {A} (message : string) (r : A + S3Error) : StorageResult A :=
  match r with inl a => Ok a | inr _ => Err (Internal message) end.

(** *** Multipart uploads *)
Definition multipart_part_size (file_size : Z) : StorageResult Z :=
  ensure negb (MAX_S3_OBJECT_SIZE <? file_size) else (InvalidArgument "File size exceeds the S3 object limit") in
  let required_size := file_size / MAX_MULTIPART_PARTS + (if file_size mod MAX_MULTIPART_PARTS =? 0 then 0 else 1) in
  Ok (Z.max PART_SIZE required_size).

(** What the host answers during an upload or a download: the calls of the local
    file system. *)
Record s3_host := mkS3Host {
  metadata_ok : bool;
  open_ok : bool;
  read_ok : Z -> bool;
  dir_ok : bool;
  create_ok : bool;
  chunk_ok : nat -> bool;
  flushed_ok : bool;
  rename_ok : bool;
}.

(** Reading one part: exactly [remaining] bytes. *)
Fixpoint read_part (host : s3_host) (fuel : nat) (pos : Z) (rest : list byte) (remaining : Z) (acc : list byte) : option (StorageResult (list byte)) :=
  if 0 <? remaining then
    match fuel with
    | O => None
    | S fuel =>
        if negb (read_ok host pos) then Some (internal_error "Failed to read upload file")
        else
          let available := Z.min remaining (len rest) in
          let n := if available =? 0 then 0 else os_read pos available in
          if n =? 0 then Some (internal_error "Unexpected EOF")
          else read_part host fuel (pos + n) (drop (Z.to_nat n) rest) (remaining - n) (acc ++ take (Z.to_nat n) rest)
    end
  else Some (Ok acc).

(** The parts, one after the other; [k] goes on with their tags or an error. *)
Fixpoint upload_parts_loop (host : s3_host) (fuel : nat) (key upload_id : string) (file : list byte) (file_size part_size : Z)
    (part_number offset : Z) (parts : list (Z * string)) (k : StorageResult (list (Z * string)) -> task) : task :=
  if offset <? file_size then
    match fuel with
    | O => OutOfFuel
    | S fuel =>
        if MAX_MULTIPART_PARTS <? part_number then k (Err (InvalidArgument "Multipart upload requires too many parts"))
        else
          let to_read := Z.min (file_size - offset) part_size in
          match read_part host (Z.to_nat to_read) offset (drop (Z.to_nat offset) file) to_read [] with
          | None => OutOfFuel
          | Some (Err e) => k (Err e)
          | Some Panic => k Panic
          | Some (Ok part_data) =>
              UploadPart key upload_id part_number part_data (fun part_output =>
                match part_output with
                | inr _ => k (internal_error "S3 upload_part failed")
                | inl e_tag =>
                    upload_parts_loop host fuel key upload_id file file_size part_size (part_number + 1) (offset + to_read)
                      (parts ++ [(part_number, default "" e_tag)]) k
                end)
          end
    end
  else if bool_decide (parts = []) then k (internal_error "Multipart upload produced no parts")
  else k (Ok parts).
Definition upload_parts (host : s3_host) (key upload_id : string) (file : list byte) (file_size part_size : Z)
    (k : StorageResult (list (Z * string)) -> task) : task :=
  if negb (open_ok host) then k (internal_error "Failed to open file for multipart upload")
  else upload_parts_loop host (Z.to_nat (file_size / part_size + 1)) key upload_id file file_size part_size 1 0 [] k.

(** [abort] of an armed guard, which stays armed if the abort failed. *)
Definition guard_abort (key upload_id : string) (t : task) : task :=
  AbortMultipartUpload key upload_id (fun r => match r with inl _ => Disarm t | inr _ => t end).

(** The task that an armed guard spawns when it is dropped: it claims the upload
    when it runs, and registers it again if it could not be aborted. *)
Definition abort_claimed (key upload_id : string) : task :=
  AbortMultipartUpload key upload_id (fun r =>
    match r with
    | inl _ => Remove upload_id (fun _ => Answer (Ok tt))
    | inr _ => Register upload_id key (Answer (Ok tt))
    end).
Definition abort_dropped (upload_id : string) : task :=
  Remove upload_id (fun claimed => match claimed with None => Answer (Ok tt) | Some key => abort_claimed key upload_id end).
Definition guard_drop (has_runtime : bool) (guard : option string) : list task :=
  match guard with Some upload_id => if has_runtime then [abort_dropped upload_id] else [] | None => [] end.

Definition complete_parts (key upload_id : string) (parts : StorageResult (list (Z * string))) : task :=
  match parts with
  | Err e => guard_abort key upload_id (Answer (Err e))
  | Panic => Answer Panic
  | Ok parts =>
      CompleteMultipartUpload key upload_id parts (fun complete_result =>
        match complete_result with
        | inl _ => Disarm (Answer (Ok tt))
        | inr _ => guard_abort key upload_id (Answer (internal_error "S3 complete_multipart_upload failed"))
        end)
  end.
Definition multipart_upload (host : s3_host) (key : string) (file : list byte) (file_size : Z) : task :=
  match multipart_part_size file_size with
  | Err e => Answer (Err e)
  | Panic => Answer Panic
  | Ok part_size =>
      CreateMultipartUpload key (fun create_output =>
        match create_output with
        | inr _ => Answer (internal_error "S3 create_multipart_upload failed")
        | inl None => Answer (internal_error "S3 create_multipart_upload returned no upload_id")
        | inl (Some upload_id) =>
            NewGuard upload_id key (upload_parts host key upload_id file file_size part_size (complete_parts key upload_id))
        end)
  end.

(** [abort_all_active_uploads], the shutdown of the backend: the registry is
    drained, and what could not be aborted is registered again. *)
Fixpoint abort_each (drained : list (string * string)) (first_error : StorageResult unit) : task :=
  match drained with
  | [] => Answer first_error
  | (upload_id, key) :: drained =>
      AbortMultipartUpload key upload_id (fun r =>
        match r with
        | inl _ => abort_each drained first_error
        | inr _ => Register upload_id key (abort_each drained
            (match first_error with Ok _ => internal_error "Failed to abort one or more multipart uploads during shutdown" | _ => first_error end))
        end)
  end.
Definition abort_all_active_uploads : task := Drain (fun uploads => abort_each uploads (Ok tt)).

(** [Drop]: the registry is drained, and a task makes one attempt to abort each
    upload, if there is a runtime left. *)
Fixpoint abort_once (drained : list (string * string)) : task :=
  match drained with
  | [] => Answer (Ok tt)
  | (upload_id, key) :: drained => AbortMultipartUpload key upload_id (fun _ => abort_once drained)
  end.
Definition storage_drop (has_runtime : bool) (st : S3Storage) : S3Storage * list task :=
  if bool_decide (ss_active st = ∅) then (st, [])
  else (mkS3 (ss_bucket st) ∅, if has_runtime then [abort_once (map_to_list (ss_active st))] else []).

(** *** The operations of [StorageBackend] *)
Definition health_check (st : S3Storage) : StorageResult unit := s3_error "S3 head_bucket failed" (s3_head_bucket (ss_bucket st)).
Definition shutdown : task := abort_all_active_uploads.

Definition put (key : string) (data : list byte) : task := PutObject key data (fun r => Answer (s3_error "S3 put failed" r)).

(** [file] is the content of the file at the path. *)
Definition put_from_path (host : s3_host) (key : string) (file : list byte) : task :=
  if negb (metadata_ok host) then Answer (internal_error "Failed to read file metadata")
  else
    let file_size := len file in
    if file_size <? MULTIPART_THRESHOLD then
      if negb (read_ok host 0) then Answer (internal_error "Failed to read file")
      else put key file
    else multipart_upload host key file file_size.

Definition get_object (st : S3Storage) (key : string) (n : nat) : StorageResult (list (list byte + S3Error)) :=
  match s3_get_object (ss_bucket st) key n with
  | inl body => Ok body
  | inr e => if missing_code e then Err (NotFound key) else internal_error "S3 get failed"
  end.
Definition get (st : S3Storage) (key : string) (n : nat) : StorageResult (list byte) :=
  let* body := get_object st key n in
  ok_or (collect body) (Internal "Failed to read body").

(** The pieces go to a temporary file, which becomes the destination. *)
Fixpoint write_body (host : s3_host) (writes : nat) (body : list (list byte + S3Error)) (file : list byte) : StorageResult (list byte) :=
  match body with
  | [] => if flushed_ok host then Ok file else internal_error "Failed to flush"
  | inr _ :: _ => internal_error "Failed to read S3 stream"
  | inl chunk :: body => if chunk_ok host writes then write_body host (S writes) body (file ++ chunk) else internal_error "Failed to write"
  end.
Definition s3_download_to_path (host : s3_host) (st : S3Storage) (key : string) (n : nat) : StorageResult (list byte) :=
  let* body := get_object st key n in
  ensure dir_ok host else (Internal "Failed to create download directory") in
  ensure create_ok host else (Internal "Failed to create file") in
  let* file := write_body host 0 body [] in
  ensure rename_ok host else (Internal "Failed to rename temp file") in
  Ok file.

Definition s3_exists (st : S3Storage) (key : string) : StorageResult bool :=
  match s3_head_object (ss_bucket st) key with
  | inl _ => Ok true
  | inr e => if missing_code e then Ok false else internal_error "S3 head failed"
  end.
Definition s3_delete (key : string) : task := DeleteObject key (fun r => Answer (s3_error "S3 delete failed" r)).
Definition s3_get_size (st : S3Storage) (key : string) : StorageResult Z :=
  match s3_head_object (ss_bucket st) key with
  | inl content_length =>
      let* content_length := ok_or content_length (Internal "S3 HEAD response omitted Content-Length") in
      ensure 0 <=? content_length else (Internal "S3 HEAD returned a negative Content-Length") in
      Ok content_length
  | inr e => if missing_code e then Err (NotFound key) else internal_error "S3 head_object failed"
  end.

(** *** Listing *)
Definition validate_next_continuation_token (seen : gset string) (next : option string) (is_truncated : bool)
  : StorageResult (gset string * option string) :=
  if negb is_truncated && (match next with Some _ => true | None => false end) then internal_error "S3 listing returned a continuation token for a complete page"
  else
    match next with
    | None => if is_truncated then internal_error "S3 listing was truncated without a continuation token" else Ok (seen, None)
    | Some token =>
        if (token =? "")%string then internal_error "S3 listing returned an empty continuation token"
        else if bool_decide (token ∈ seen) then internal_error "S3 listing repeated a continuation token"
        else Ok ({[token]} ∪ seen, Some token)
    end.

(** The items of the stream; it ends after an error. *)
Fixpoint list_pages (fuel : nat) (st : S3Storage) (prefix : string) (token : option string) (seen : gset string) : option (list (StorageResult string)) :=
  match fuel with
  | O => None
  | S fuel =>
      match s3_list_objects_v2 (ss_bucket st) prefix token with
      | inr _ => Some [internal_error "S3 list_objects_v2 failed"]
      | inl response =>
          if (Z.to_nat LIST_PAGE_SIZE <? length (pg_contents response))%nat then Some [internal_error "S3 listing exceeded the requested page size"]
          else
            let keys := map Ok (omap id (pg_contents response)) in
            match validate_next_continuation_token seen (pg_next_token response) (default false (pg_is_truncated response)) with
            | Err e => Some [Err e]
            | Panic => Some [Panic]
            | Ok (seen, None) => Some keys
            | Ok (seen, Some token) => app keys <$> list_pages fuel st prefix (Some token) seen
            end
      end
  end.
Definition list_objects_stream (fuel : nat) (st : S3Storage) (prefix : string) : option (list (StorageResult string)) :=
  list_pages fuel st prefix None ∅.
Definition list_objects (fuel : nat) (st : S3Storage) (prefix : string) : option (StorageResult (list string)) :=
  map_outcome (fun item => item) <$> list_objects_stream fuel st prefix.
End Backend.

(** ** Lemmas *)
Section Facts.
Context `{S3Laws, FileReadsLaws}.

Lemma read_part_spec host rest : forall fuel pos remaining acc skip, 0 <= remaining <= Z.of_nat fuel -> 0 <= skip ->
  exists r, read_part host fuel pos (drop (Z.to_nat skip) rest) remaining acc = Some r /\ r <> Panic /\ (forall e, r = Err e -> exists m, e = Internal m) /\
    forall d, r = Ok d -> d = acc ++ take (Z.to_nat remaining) (drop (Z.to_nat skip) rest) /\ (0 < remaining -> skip + remaining <= len rest).
Proof.
  induction fuel as [|fuel IH]; intros pos remaining acc skip Hr Hs; cbn [read_part];
    (destruct (Z.ltb_spec 0 remaining) as [Hpos|]; [|eexists; split; [done|]; split; [done|]; split; [done|]; intros d [= <-];
      replace remaining with 0 by lia; rewrite app_nil_r; split; [done|lia]]); [lia|].
  destruct (read_ok host pos); cbn [negb]; [|eexists; split; [done|]; split; [done|]; split; [intros e [= <-]; by eexists|done]].
  set (available := Z.min remaining (len (drop (Z.to_nat skip) rest))). pose proof (len_nonneg (drop (Z.to_nat skip) rest)) as Hl.
  destruct (Z.eqb_spec available 0) as [Ea|Ea]; [cbn; eexists; split; [done|]; split; [done|]; split; [intros e [= <-]; by eexists|done]|].
  pose proof (os_read_range pos available ltac:(lia)) as Hn. set (n := os_read pos available) in *.
  destruct (Z.eqb_spec n 0); [lia|]. rewrite drop_drop. replace (Z.to_nat skip + Z.to_nat n)%nat with (Z.to_nat (skip + n)) by lia.
  destruct (IH (pos + n) (remaining - n) (acc ++ take (Z.to_nat n) (drop (Z.to_nat skip) rest)) (skip + n) ltac:(lia) ltac:(lia)) as (r & -> & Hp & Hi & Hd).
  exists r. split; [done|]. split; [done|]. split; [done|]. intros d Er. destruct (Hd d Er) as [-> Hlen].
  rewrite <- app_assoc. split.
  - f_equal. replace (Z.to_nat (skip + n)) with (Z.to_nat skip + Z.to_nat n)%nat by lia. rewrite <- drop_drop, take_take_drop. f_equal. lia.
  - intros _. destruct (Z.eq_dec remaining n) as [En|]; [|specialize (Hlen ltac:(lia)); lia].
    clear - En Hn Ea Hs. unfold available, len in *. rewrite length_drop in *. lia.
Qed.
End Facts.

(** ** Multipart uploads *)
Section Multipart.
Context `{S3Laws, FileReadsLaws}.

(** What parts are stored under which tags. *)
Definition stored_parts (ps : gmap Z (list byte * string)) (parts : list (Z * string)) (pieces : list (list byte)) : Prop :=
  Forall2 (fun part piece => ps !! part.1 = Some (piece, part.2)) parts pieces.

Lemma stored_parts_snoc ps parts pieces n data tag : stored_parts ps parts pieces -> Forall (fun part => part.1 < n) parts ->
  stored_parts (<[n := (data, tag)]> ps) (parts ++ [(n, tag)]) (pieces ++ [data]).
Proof.
  intros Hst Hlt. apply Forall2_app; [|constructor; [by rewrite lookup_insert_eq|constructor]].
  induction Hst as [|part piece parts pieces Hp _ IH]; constructor; inversion_clear Hlt; [|by apply IH].
  rewrite lookup_insert_ne by lia. done.
Qed.

Lemma upload_parts_loop_spec host key id file file_size part_size : 0 < part_size -> file_size <= MAX_MULTIPART_PARTS * part_size -> forall active guard k,
  forall fuel b part_number offset parts ps pieces,
  0 <= offset -> offset = (part_number - 1) * part_size \/ file_size <= offset -> 1 <= part_number -> file_size - offset <= part_size * Z.of_nat fuel ->
  uploads b !! id = Some (mkUpload key ps) -> stored_parts ps parts pieces -> Forall (fun part => part.1 < part_number) parts ->
  concat pieces = take (Z.to_nat (Z.min offset file_size)) file -> (0 < Z.min offset file_size -> Z.min offset file_size <= len file) ->
  exists b' r ps', alone (mkS3 b active) guard (upload_parts_loop host fuel key id file file_size part_size part_number offset parts k) = alone (mkS3 b' active) guard (k r) /\
    objects b' = objects b /\ uploads b' = <[id := mkUpload key ps']> (uploads b) /\
    match r with
    | Ok parts' => exists pieces', stored_parts ps' parts' pieces' /\ concat pieces' = take (Z.to_nat file_size) file /\ file_size <= len file
    | Err e => exists m, e = Internal m
    | Panic => False
    end.
Proof.
  intros Hps Hmax active guard k. induction fuel as [|fuel IH]; intros b part_number offset parts ps pieces Ho Hoff Hn Hfuel Hup Hst Hlt Hcat Hlen; cbn [upload_parts_loop];
    (destruct (Z.ltb_spec offset file_size) as [Hmore|Hdone]; [|
      exists b; assert (uploads b = <[id := mkUpload key ps]> (uploads b)) as Hid by (by rewrite insert_id);
      case_bool_decide; [by exists (internal_error "Multipart upload produced no parts"), ps; split; [done|]; split; [done|]; split; [done|]; eexists|];
      exists (Ok parts), ps; split; [done|]; split; [done|]; split; [done|]; exists pieces; split; [done|];
      rewrite Z.min_r in Hcat, Hlen by lia; split; [done|]; destruct (Z.leb_spec file_size 0); [pose proof (len_nonneg file); lia|apply Hlen; lia]]); [lia|].
  destruct Hoff as [Hoff|]; [|lia]. rewrite Z.min_l in Hcat, Hlen by lia.
  destruct (Z.ltb_spec MAX_MULTIPART_PARTS part_number) as [Hbad|Hgood].
  { exfalso. assert (MAX_MULTIPART_PARTS * part_size <= (part_number - 1) * part_size) by (apply Z.mul_le_mono_nonneg_r; lia). lia. }
  set (to_read := Z.min (file_size - offset) part_size).
  destruct (read_part_spec host file (Z.to_nat to_read) offset to_read [] offset ltac:(lia) Ho) as (r & -> & Hnp & Hni & Hread).
  destruct r as [data|e|]; [| |done].
  2: { exists b, (Err e), ps. split; [done|]. split; [done|]. split; [by rewrite insert_id|]. by apply Hni. }
  destruct (Hread data eq_refl) as [Hdata Henough]. cbn [app] in Hdata.
  cbn [alone ss_bucket ss_active]. destruct (s3_upload_part b key id part_number data) as [b1 out] eqn:Eup. destruct (upload_part_law _ _ _ _ _ _ _ _ Eup Hup) as [Hobj Hups].
  destruct out as [tag|e].
  2: { destruct Hups as [ps' Hups]. exists b1, (internal_error "S3 upload_part failed"), ps'. split; [done|]. split; [done|]. split; [done|by eexists]. }
  assert (uploads b1 !! id = Some (mkUpload key (<[part_number := (data, default "" tag)]> ps))) as Hup1 by (by rewrite Hups, lookup_insert_eq).
  assert (offset + to_read = (part_number + 1 - 1) * part_size \/ file_size <= offset + to_read) as Hnext
    by (unfold to_read; destruct (Z.leb_spec part_size (file_size - offset)); [left; rewrite Z.min_r by lia; nia|right; lia]).
  assert (file_size - (offset + to_read) <= part_size * Z.of_nat fuel) as Hleft.
  { unfold to_read. rewrite Nat2Z.inj_succ, Z.mul_succ_r in Hfuel. destruct (Z.leb_spec part_size (file_size - offset)); [rewrite Z.min_r by lia; lia|].
    rewrite Z.min_l by lia. pose proof (Z.mul_nonneg_nonneg part_size (Z.of_nat fuel)). lia. }
  assert (0 < to_read <= file_size - offset) as Hto by (unfold to_read; lia). clearbody to_read.
  destruct (IH b1 (part_number + 1) (offset + to_read) (parts ++ [(part_number, default "" tag)]) (<[part_number := (data, default "" tag)]> ps) (pieces ++ [data]))
    as (b' & r & ps' & -> & Hobj' & Hups' & Hr); try done; try lia.
  - by apply stored_parts_snoc.
  - apply Forall_app. split; [eapply Forall_impl; [exact Hlt|intros part Hp; cbn in Hp |- *; lia]|by constructor; [cbn; lia|]].
  - rewrite concat_app, Hcat. cbn [concat]. rewrite app_nil_r, Hdata.
    replace (Z.min (offset + to_read) file_size) with (offset + to_read) by lia.
    replace (Z.to_nat (offset + to_read)) with (Z.to_nat offset + Z.to_nat to_read)%nat by lia. by rewrite take_take_drop.
  - exists b', r, ps'. split; [done|]. split; [by rewrite Hobj'|]. split; [by rewrite Hups', Hups, insert_insert_eq|done].
Qed.

Lemma part_size_bounds file_size : 0 <= file_size ->
  match multipart_part_size file_size with
  | Ok part_size => file_size <= MAX_S3_OBJECT_SIZE /\ PART_SIZE <= part_size /\ file_size <= MAX_MULTIPART_PARTS * part_size
  | Err _ => MAX_S3_OBJECT_SIZE < file_size
  | Panic => False
  end.
Proof.
  intros Hf. unfold multipart_part_size. destruct (Z.ltb_spec MAX_S3_OBJECT_SIZE file_size); cbn [negb]; [done|].
  split; [lia|]. split; [lia|]. pose proof (Z.div_mod file_size MAX_MULTIPART_PARTS ltac:(done)) as Hd.
  pose proof (Z.mod_pos_bound file_size MAX_MULTIPART_PARTS ltac:(done)). unfold MAX_MULTIPART_PARTS in *. destruct (Z.eqb_spec (file_size mod 10000) 0); lia.
Qed.

(** What storing [data] under [key] did to the objects: nothing or a write, and
    a write if it answered [Ok]. *)
Definition uploaded (st st' : S3Storage) (key : string) (data : list byte) (r : StorageResult unit) : Prop :=
  r <> Panic /\
  (objects (ss_bucket st') = objects (ss_bucket st) \/ objects (ss_bucket st') = <[key := data]> (objects (ss_bucket st))) /\
  (r = Ok tt -> objects (ss_bucket st') = <[key := data]> (objects (ss_bucket st))).

Lemma uploaded_unless st st' key data r : objects (ss_bucket st') = objects (ss_bucket st) -> r <> Panic -> r <> Ok tt -> uploaded st st' key data r.
Proof. intros Ho Hp Hr. split; [done|]. split; [by left|done]. Qed.

Lemma guard_abort_alone st guard key id r :
  exists st' guard', alone st guard (guard_abort key id (Answer r)) = Some (st', guard', r) /\ objects (ss_bucket st') = objects (ss_bucket st).
Proof.
  unfold guard_abort. cbn [alone]. destruct (s3_abort_multipart_upload (ss_bucket st) key id) as [b o] eqn:Eb. destruct (abort_law _ _ _ _ _ Eb) as [Ho _].
  by destruct o; eexists _, _.
Qed.

(** The request that completes the upload may be carried out without an answer. *)
Lemma complete_parts_alone st guard key id parts ps pieces data : uploads (ss_bucket st) !! id = Some (mkUpload key ps) ->
  stored_parts ps parts pieces -> concat pieces = data ->
  exists st' guard' r, alone st guard (complete_parts key id (Ok parts)) = Some (st', guard', r) /\ uploaded st st' key data r.
Proof.
  intros Hup Hst Hcat. unfold complete_parts. cbn [alone].
  destruct (s3_complete_multipart_upload (ss_bucket st) key id parts) as [b r] eqn:Eb. pose proof (complete_law _ _ _ _ _ _ _ Eb Hup) as Hlaw.
  assert (Hwritten : forall pieces', Forall2 (fun part piece => ps !! part.1 = Some (piece, part.2)) parts pieces' -> pieces' = pieces).
  { clear -Hst. intros pieces' Hst'. revert pieces Hst. induction Hst' as [|part piece parts pieces' Hp _ IH]; intros pieces Hst; inversion Hst as [|? piece2 ? ? Hp2 Hst2]; subst; [done|].
    f_equal; [congruence|by apply IH]. }
  assert (Hdone : forall pieces', Forall2 (fun part piece => ps !! part.1 = Some (piece, part.2)) parts pieces' -> concat pieces' = data) by (intros pieces' ->%Hwritten; done).
  destruct r as [[]|e].
  - destruct Hlaw as (pieces' & Hst' & Ho & _). eexists _, _, _. split; [done|]. split; [done|]. cbn. by rewrite Ho, (Hdone _ Hst'); auto.
  - destruct (guard_abort_alone (mkS3 b (ss_active st)) guard key id (internal_error "S3 complete_multipart_upload failed")) as (st' & guard' & E & Ho).
    exists st', guard', (internal_error "S3 complete_multipart_upload failed"). split; [exact E|]. split; [done|]. split; [|done]. rewrite Ho. cbn.
    destruct Hlaw as [[-> _]|(pieces' & Hst' & -> & _)]; [by left|right]. by rewrite (Hdone _ Hst').
Qed.

(** The loop of the parts is given enough fuel. *)
Lemma parts_fuel file_size part_size : 0 < part_size -> 0 <= file_size -> file_size <= part_size * Z.of_nat (Z.to_nat (file_size / part_size + 1)).
Proof.
  intros Hpos Hs. pose proof (Z.div_mod file_size part_size ltac:(lia)). pose proof (Z.mod_pos_bound file_size part_size Hpos).
  pose proof (Z.div_pos file_size part_size Hs Hpos). rewrite Z2Nat.id by lia. nia.
Qed.

Lemma upload_parts_alone host b active guard key id file part_size k : 0 < part_size -> len file <= MAX_MULTIPART_PARTS * part_size ->
  uploads b !! id = Some (mkUpload key ∅) ->
  exists b' parts ps, alone (mkS3 b active) guard (upload_parts host key id file (len file) part_size k) = alone (mkS3 b' active) guard (k parts) /\
    objects b' = objects b /\ uploads b' !! id = Some (mkUpload key ps) /\
    match parts with
    | Ok parts => exists pieces, stored_parts ps parts pieces /\ concat pieces = file
    | Panic => False
    | _ => True
    end.
Proof.
  intros Hpos Hmax Hup1. unfold upload_parts.
  destruct (open_ok host); cbn [negb]; [|by exists b, (internal_error "Failed to open file for multipart upload"), ∅].
  pose proof (len_nonneg file). pose proof (parts_fuel (len file) part_size Hpos ltac:(lia)).
  destruct (upload_parts_loop_spec host key id file (len file) part_size Hpos Hmax active guard k (Z.to_nat (len file / part_size + 1)) b 1 0 [] ∅ [])
    as (b' & parts & ps & Hl & Ho & Hu & Hp); [lia|lia|lia|lia|done|constructor|constructor|by rewrite Z.min_l by lia|lia|].
  exists b', parts, ps. split; [done|]. split; [done|]. split; [by rewrite Hu, lookup_insert_eq|]. destruct parts as [parts|e|]; try done.
  destruct Hp as (pieces & Hst & Hcat & _). exists pieces. split; [done|]. rewrite Hcat. apply firstn_all2. unfold len. lia.
Qed.

Lemma multipart_upload_alone host st key file :
  exists st' guard r, alone st None (multipart_upload host key file (len file)) = Some (st', guard, r) /\ uploaded st st' key file r.
Proof.
  unfold multipart_upload. pose proof (part_size_bounds (len file) (len_nonneg file)) as Hsize.
  destruct (multipart_part_size (len file)) as [part_size|e|]; [|by eexists st, None, (Err e); split; [done|]; apply uploaded_unless|done]. destruct Hsize as (_ & Hmin & Hmax).
  assert (0 < part_size) as Hpos by (unfold PART_SIZE in Hmin; lia). cbn [alone].
  destruct (s3_create_multipart_upload (ss_bucket st) key) as [b r] eqn:Eb. pose proof (create_law _ _ _ _ Eb) as (Hob & _ & Hup).
  destruct r as [[id|]|e]; [|by eexists _, _, _; split; [done|]; apply uploaded_unless..]. destruct Hup as (_ & _ & Hup). cbn [alone ss_bucket ss_active].
  assert (Hup1 : uploads b !! id = Some (mkUpload key ∅)) by (by rewrite Hup, lookup_insert_eq).
  destruct (upload_parts_alone host b (<[id := key]> (ss_active st)) (Some id) key id file part_size (complete_parts key id) Hpos Hmax Hup1)
    as (b' & parts & ps & -> & Hob' & Hups & Hparts). assert (objects b' = objects (ss_bucket st)) as Hob2 by congruence.
  destruct parts as [parts|e|]; [| |done].
  - destruct Hparts as (pieces & Hsp & Hcat).
    destruct (complete_parts_alone (mkS3 b' (<[id := key]> (ss_active st))) (Some id) key id parts ps pieces file Hups Hsp Hcat) as (st' & guard & r & -> & Hp & Hs & Hok).
    exists st', guard, r. split; [done|]. cbn in Hs, Hok. rewrite Hob2 in Hs, Hok. by split.
  - destruct (guard_abort_alone (mkS3 b' (<[id := key]> (ss_active st))) (Some id) key id (Err e)) as (st' & guard & E & Ho).
    exists st', guard, (Err e). split; [exact E|]. apply uploaded_unless; [by rewrite Ho|done..].
Qed.

Lemma s3_put_alone st guard key data : exists st' r, alone st guard (put key data) = Some (st', guard, r) /\ uploaded st st' key data r.
Proof.
  unfold put. cbn [alone]. destruct (s3_put_object (ss_bucket st) key data) as [b o] eqn:Eb. destruct (put_object_law _ _ _ _ _ Eb) as [_ Ho].
  eexists _, _. split; [done|]. destruct o; cbn [s3_error]; (split; [done|]; split; [|done]); cbn; tauto.
Qed.

Lemma s3_put_from_path_alone host st key file :
  exists st' guard r, alone st None (put_from_path host key file) = Some (st', guard, r) /\ uploaded st st' key file r.
Proof.
  unfold put_from_path. destruct (metadata_ok host); cbn [negb]; [|by eexists st, None, _; split; [done|]; apply uploaded_unless].
  destruct (Z.ltb_spec (len file) MULTIPART_THRESHOLD); [|apply multipart_upload_alone].
  destruct (read_ok host 0); cbn [negb]; [|by eexists st, None, _; split; [done|]; apply uploaded_unless].
  destruct (s3_put_alone st None key file) as (st' & r & E & Hup). by exists st', None, r.
Qed.
End Multipart.
