(* ===== verification/S3Backend.v ===== *)
(** * The S3 backend as an object store (src/src/storage/s3.rs)

    The futures of the backend and the tasks of its guards, interleaved at their
    requests and their accesses to the registry, with the uploads they may leave
    behind; the pages of a listing; and [ObjectStore]'s laws for the backend,
    with a concrete service that fails at chosen requests. *)
From S2P Require Import Prelude Bytes Crates MerkleHash Hash Shard Text Storage ShardIo ObjectStore S3Storage.

Local Open Scope string_scope.
Local Open Scope list_scope.
Local Open Scope Z_scope.

(** ** Runs of the backend *)
Section Runs.
Context `{S3, FileReads}.

(** A future, with the id that its guard is armed for; [Dropped] keeps what it
    was waiting for when it was dropped. *)
Inductive future :=
| Running (guard : option string) (t : task)
| Finished (r : StorageResult unit)
| Dropped (t : task).

(** The backend, its futures and the tasks they spawned, and the ids of
    multipart uploads that the service's answers brought to a running future. *)
Record system := mkSystem { sy_backend : S3Storage; sy_futures : list future; sy_told : gset string }.

(** The operations of [StorageBackend] that are not just reads. *)
Inductive operation : task -> Prop :=
| op_put key data : operation (put key data)
| op_put_from_path host key file : operation (put_from_path host key file)
| op_delete key : operation (s3_delete key)
| op_shutdown : operation shutdown.

(** One step of a future, with the tasks it spawns and the id it is told.  A
    future can be dropped where it awaits a request, which may have been carried
    out; a guard that is still armed spawns its task if there is a runtime. *)
Inductive future_step : S3Storage -> future -> S3Storage -> future -> list task -> option string -> Prop :=
| step_request b active guard t b' t' : request b t = Some (b', t') ->
    future_step (mkS3 b active) (Running guard t) (mkS3 b' active) (Running guard t') [] (created_id b t)
| step_registry b active guard t active' guard' t' : registry_step active guard t = Some (active', guard', t') ->
    future_step (mkS3 b active) (Running guard t) (mkS3 b active') (Running guard' t') [] None
| step_answer runtime st guard r :
    future_step st (Running guard (Answer r)) st (Finished r) (guard_drop runtime guard) None
| step_drop runtime (carried_out : bool) b active guard t b' t' : request b t = Some (b', t') ->
    future_step (mkS3 b active) (Running guard t) (mkS3 (if carried_out then b' else b) active) (Dropped t) (guard_drop runtime guard) None.

Inductive s3_step : system -> system -> Prop :=
| step_call st futures told t : operation t -> s3_step (mkSystem st futures told) (mkSystem st (futures ++ [Running None t]) told)
| step_future st futures told i f st' f' spawned id : futures !! i = Some f -> future_step st f st' f' spawned id ->
    s3_step (mkSystem st futures told) (mkSystem st' (<[i := f']> futures ++ map (Running None) spawned) (option_to_set id ∪ told)).

(** A backend that was just made, on any bucket. *)
Definition new_backend (b : bucket) : system := mkSystem (mkS3 b ∅) [] ∅.



End Runs.

(** ** Keeping track of uploads *)
Section Tracking.
Context `{S3Laws, FileReadsLaws}.




































End Tracking.

Section Facts.
Context `{S3Laws, FileReadsLaws}.

Lemma s3_delete_alone st key : exists st' r, alone st None (s3_delete key) = Some (st', None, r) /\ r <> Panic /\
  (objects (ss_bucket st') = objects (ss_bucket st) \/ objects (ss_bucket st') = delete key (objects (ss_bucket st))) /\
  (r = Ok tt -> objects (ss_bucket st') = delete key (objects (ss_bucket st))).
Proof.
  unfold s3_delete. cbn [alone]. destruct (s3_delete_object (ss_bucket st) key) as [b o] eqn:Eb. destruct (delete_object_law _ _ _ _ Eb) as [_ Ho].
  eexists _, _. split; [done|]. destruct o; cbn; (split; [done|]; split; [|done]); tauto.
Qed.

(** The body of an object, in pieces, gives the object. *)
Lemma write_body_collect host body : forall writes file data, write_body host writes body file = Ok data -> exists rest, collect body = Some rest /\ data = file ++ rest.
Proof.
  induction body as [|[piece|e] body IH]; intros writes file data; cbn [write_body collect]; [|destruct (chunk_ok host writes); [|done]|done].
  - destruct (flushed_ok host); [|done]. intros [= <-]. exists []. by rewrite app_nil_r.
  - intros E. apply IH in E as (rest & -> & ->). exists (piece ++ rest). by rewrite <- app_assoc.
Qed.

Lemma write_body_total host body : forall writes file, write_body host writes body file <> Panic.
Proof. induction body as [|[piece|e] body IH]; intros writes file; cbn [write_body]; [by destruct (flushed_ok host)|destruct (chunk_ok host writes); [apply IH|done]|done]. Qed.

Lemma get_object_spec st key n :
  match get_object st key n with
  | Ok body => exists data, objects (ss_bucket st) !! key = Some data /\ forall data', collect body = Some data' -> data' = data
  | Err (NotFound _) => objects (ss_bucket st) !! key = None
  | Err _ => True
  | Panic => False
  end.
Proof.
  unfold get_object. pose proof (get_object_law (ss_bucket st) key n) as Hl. destruct (s3_get_object _ _ _) as [body|e]; [done|].
  destruct (missing_code e); [by apply Hl|done].
Qed.

Lemma s3_get_spec st key n :
  match get st key n with
  | Ok data => objects (ss_bucket st) !! key = Some data
  | Err (NotFound _) => objects (ss_bucket st) !! key = None
  | Err _ => True
  | Panic => False
  end.
Proof.
  unfold get. pose proof (get_object_spec st key n) as Hg. destruct (get_object st key n) as [body|e|]; cbn; [|done..].
  destruct Hg as (data & Hd & Hc). destruct (collect body) as [data'|] eqn:E; cbn [ok_or]; [|done]. by rewrite (Hc data' eq_refl).
Qed.

Lemma s3_download_spec host st key n :
  match s3_download_to_path host st key n with
  | Ok data => objects (ss_bucket st) !! key = Some data
  | Err (NotFound _) => objects (ss_bucket st) !! key = None
  | Err _ => True
  | Panic => False
  end.
Proof.
  unfold s3_download_to_path. pose proof (get_object_spec st key n) as Hg. destruct (get_object st key n) as [body|e|]; cbn; [|done..].
  destruct (dir_ok host); [|done]. destruct (create_ok host); [|done]. destruct Hg as (data & Hd & Hc).
  destruct (write_body host 0 body []) as [file|e|] eqn:E; cbn; [| |by apply write_body_total in E].
  - destruct (rename_ok host); [|done]. apply write_body_collect in E as (rest & Er & ->). cbn. by rewrite (Hc rest Er).
  - clear -E. revert E. generalize (@nil byte), 0%nat. induction body as [|[piece|e'] body IH]; intros file writes; cbn [write_body];
      [destruct (flushed_ok host)|destruct (chunk_ok host writes); [apply IH|]|]; by intros [= <-].
Qed.

Lemma s3_get_size_spec st key :
  match s3_get_size st key with
  | Ok n => exists data, objects (ss_bucket st) !! key = Some data /\ n = len data
  | Err (NotFound _) => objects (ss_bucket st) !! key = None
  | Err _ => True
  | Panic => False
  end.
Proof.
  unfold s3_get_size. pose proof (head_object_law (ss_bucket st) key) as Hl. destruct (s3_head_object _ _) as [length|e].
  - destruct Hl as (data & Hd & [-> | ->]); cbn [ok_or]; [done|]. destruct (0 <=? len data); [|done]. by exists data.
  - destruct (missing_code e); [by apply Hl|done].
Qed.

Lemma s3_exists_spec st key :
  match s3_exists st key with
  | Ok b => b = bool_decide (is_Some (objects (ss_bucket st) !! key))
  | Err _ => True
  | Panic => False
  end.
Proof.
  unfold s3_exists. pose proof (head_object_law (ss_bucket st) key) as Hl. destruct (s3_head_object _ _) as [length|e].
  - destruct Hl as (data & Hd & _). rewrite bool_decide_true; [done|]. by exists data.
  - destruct (missing_code e); [|done]. rewrite Hl by done. by rewrite bool_decide_false by (intros [? E]; discriminate E).
Qed.
End Facts.

(** ** Listing *)
Section Listing.
Context `{S3Laws, FileReadsLaws}.

(** The tokens seen are those of earlier pages: more was left to list then. *)
Lemma list_pages_spec st prefix : forall fuel token seen,
  (length (listed (ss_bucket st) prefix token) < fuel)%nat ->
  (forall t, t ∈ seen -> (length (listed (ss_bucket st) prefix token) <= length (listed (ss_bucket st) prefix (Some t)))%nat) ->
  exists items, list_pages fuel st prefix token seen = Some items /\
    ((exists ks m, items = map Ok ks ++ [internal_error m]) \/ items = map Ok (listed (ss_bucket st) prefix token)).
Proof.
  induction fuel as [|fuel IH]; intros token seen Hf Hseen; cbn [list_pages]; [lia|].
  destruct (s3_list_objects_v2 (ss_bucket st) prefix token) as [page|e] eqn:Ep; [|eexists; split; [done|]; left; by eexists [], _].
  destruct (list_law _ _ _ _ Ep) as (keys & Ek & Hlen & Hrest). rewrite Ek, length_map.
  destruct (Nat.ltb_spec (Z.to_nat LIST_PAGE_SIZE) (length keys)); [eexists; split; [done|]; left; by eexists [], _|]. clear Hlen.
  assert (omap id (map Some keys) = keys) as -> by (clear; induction keys as [|k keys IH]; cbn; [done|by rewrite IH]).
  unfold validate_next_continuation_token. destruct (default false (pg_is_truncated page)); cbn [negb andb].
  - destruct Hrest as (next & -> & Hne & Hkeys & Hl). rewrite Hl, length_app in Hf, Hseen. destruct keys as [|k keys]; [done|]. cbn [length] in Hf, Hseen.
    destruct (String.eqb_spec next ""); [done|].
    rewrite bool_decide_false by (intros Hi; specialize (Hseen _ Hi); lia).
    destruct (IH (Some next) ({[next]} ∪ seen)) as (items & -> & Hitems); [lia| |].
    + intros t [->%elem_of_singleton|Ht]%elem_of_union; [done|]. specialize (Hseen t Ht). lia.
    + eexists. split; [done|]. rewrite Hl, map_app. destruct Hitems as [(ks & m & ->)| ->]; [|by right].
      left. exists (k :: keys ++ ks), m. cbn. by rewrite map_app, app_assoc.
  - destruct Hrest as [-> <-]. eexists. split; [done|]. by right.
Qed.

Lemma map_outcome_oks {E A} (l : list A) : map_outcome (fun item => item) (map (@Ok E A) l) = Ok l.
Proof. induction l as [|a l IH]; cbn [map map_outcome]; [done|by rewrite IH]. Qed.

Lemma map_outcome_oks_err {E A} (l : list A) (e : E) : map_outcome (fun item => item) (map (@Ok E A) l ++ [Err e]) = Err e.
Proof. induction l as [|a l IH]; cbn [map app map_outcome]; [done|by rewrite IH]. Qed.

(** How much fuel a listing takes. *)
Definition listing_fuel (st : S3Storage) (prefix : string) : nat := S (length (listed (ss_bucket st) prefix None)).

Lemma list_objects_spec st prefix :
  exists r, list_objects (listing_fuel st prefix) st prefix = Some r /\ ((exists m, r = internal_error m) \/ r = Ok (listed (ss_bucket st) prefix None)).
Proof.
  destruct (list_pages_spec st prefix (listing_fuel st prefix) None ∅) as (items & Hp & Hi); [unfold listing_fuel; lia|intros t Ht; by apply elem_of_empty in Ht|].
  unfold list_objects, list_objects_stream. rewrite Hp. cbn [fmap option_fmap option_map]. eexists. split; [done|].
  destruct Hi as [(ks & m & ->)| ->]; [left; exists m; apply map_outcome_oks_err|right; apply map_outcome_oks].
Qed.
End Listing.

(** ** The laws of an object store *)
Section Store.
Context `{S3Laws, FileReadsLaws} (hosts : nat -> nat -> s3_host).

(** The calls are numbered; [hosts time n] is the host at call [time], and for
    a download at its [n]th attempt.  Callers see no paths, and wait for the
    answers; the task of a guard touches no object. *)
Definition answer (time : nat) (st : S3Storage) (t : task) : nat * S3Storage * StorageResult unit :=
  match alone st None t with Some (st, _, r) => (S time, st, r) | None => (S time, st, Panic) end.

#[local] Instance s3_backend : ObjectStore := {|
  store := nat * S3Storage;
  reads := fun '(time, st) => mkView (fun _ _ => Ok None) (fun key n => s3_download_to_path (hosts time n) st key n);
  st_exists := fun '(_, st) key => s3_exists st key;
  st_get_size := fun '(_, st) key => s3_get_size st key;
  st_put := fun '(time, st) key data => answer time st (put key data);
  st_put_from_path := fun '(time, st) key file => answer time st (put_from_path (hosts time 0%nat) key file);
  st_delete := fun '(time, st) key => answer time st (s3_delete key);
|}.

Lemma uploaded_writes st st' key data r : uploaded st st' key data r ->
  writes (fun key => objects (ss_bucket st) !! key) (fun key => objects (ss_bucket st') !! key) key (Some data) r.
Proof.
  intros (Hp & Ho & Hr). split; [done|]. split; [intros ->; rewrite Hr by done; apply lookup_insert_eq|].
  split; [destruct Ho as [->| ->]; [by left|right; apply lookup_insert_eq]|]. intros key' _ Hne. destruct Ho as [->| ->]; [done|by rewrite lookup_insert_ne by congruence].
Qed.

#[local] Instance s3_laws : StoreLaws.
Proof.
  refine {| contents := fun '(_, st) key => objects (ss_bucket st) !! key; store_ok := fun _ => True |}.
  - intros [time st] _ key n. cbn. split; [done|]. pose proof (s3_download_spec (hosts time n) st key n) as Hd.
    destruct (s3_download_to_path (hosts time n) st key n) as [data|e|]; [|done..]. split; [done|]. intros data' [= <-].
    apply objects_size in Hd. unfold MAX_S3_OBJECT_SIZE in Hd. lia.
  - intros [time st] key n pc _ _ E. done.
  - intros [time st] key n d _ _ E. cbn in E. pose proof (s3_download_spec (hosts time n) st key n) as Hd. by rewrite E in Hd.
  - intros [time st] key b _ _ E. cbn in E. pose proof (s3_exists_spec st key) as He. by rewrite E in He.
  - intros [time st] key _ E. cbn in E. pose proof (s3_exists_spec st key) as He. by rewrite E in He.
  - intros [time st] key n _ _ E. cbn in E. pose proof (s3_get_size_spec st key) as He. by rewrite E in He.
  - intros [time st] key e _ _ E. cbn in E. pose proof (s3_get_size_spec st key) as He. by rewrite E in He.
  - intros [time st] key _ E. cbn in E. pose proof (s3_get_size_spec st key) as He. by rewrite E in He.
  - intros [time st] key d _ _ _. cbn. destruct (s3_put_alone st None key d) as (st' & r & E & Hup). unfold answer. rewrite E. split; [done|]. by apply uploaded_writes.
  - intros [time st] key d _ _ _. cbn. destruct (s3_put_from_path_alone (hosts time 0%nat) st key d) as (st' & guard & r & E & Hup). unfold answer. rewrite E.
    split; [done|]. by apply uploaded_writes.
  - intros [time st] key _ _. cbn. destruct (s3_delete_alone st key) as (st' & r & E & Hp & Ho & Hr). unfold answer. rewrite E. split; [done|]. cbn.
    split; [done|]. split; [intros ->; rewrite Hr by done; apply lookup_delete_eq|]. split; [destruct Ho as [->| ->]; [by left|right; apply lookup_delete_eq]|].
    intros key' _ Hne. destruct Ho as [->| ->]; [done|by rewrite lookup_delete_ne by congruence].
Defined.
End Store.

(** ** A concrete service *)
Module S3Model.
Section Model.
Context (faults : nat -> bool).

(** Requests that change the bucket are numbered, and the ones in [faults]
    fail without an effect.  Pages have two keys; a token says how many keys
    are left. *)
Record cbucket := mkBucket { cb_objects : gmap string (list byte); cb_uploads : gmap string Upload; cb_time : nat }.

Definition failure : S3Error := mkS3Error None.
Definition tick (b : cbucket) : cbucket := mkBucket (cb_objects b) (cb_uploads b) (S (cb_time b)).
Definition numbered {A} (b : cbucket) (f : cbucket -> cbucket * (A + S3Error)) : cbucket * (A + S3Error) :=
  if faults (cb_time b) then (tick b, inr failure) else f (tick b).
Definition fits (data : list byte) : bool := len data <=? MAX_S3_OBJECT_SIZE.
Definition kept (b : cbucket) : gmap string (list byte) := filter (fun kv => fits kv.2 = true) (cb_objects b).
Definition write_object (b : cbucket) (key : string) (data : list byte) (uploads : gmap string Upload) : cbucket * (unit + S3Error) :=
  if fits data then (mkBucket (<[key := data]> (cb_objects b)) uploads (cb_time b), inl tt) else (b, inr failure).
Definition find_parts (ps : gmap Z (list byte * string)) (parts : list (Z * string)) : option (list (list byte)) :=
  mapM (fun part => '(data, tag) ← ps !! part.1; if decide (tag = part.2) then Some data else None) parts.
Definition all_keys (b : cbucket) (prefix : string) : list string := filter (fun key => starts_with prefix key = true) (map_to_list (kept b)).*1.
Definition from_token (b : cbucket) (prefix : string) (token : option string) : list string :=
  match token with None => all_keys b prefix | Some t => drop (length (all_keys b prefix) - String.length t) (all_keys b prefix) end.
Fixpoint unary (n : nat) : string := match n with O => "" | S n => "x" +:+ unary n end.

#[export] Instance service : S3 := {|
  bucket := cbucket;
  s3_head_bucket := fun _ => inl tt;
  s3_put_object := fun b key data => numbered b (fun b => write_object b key data (cb_uploads b));
  s3_get_object := fun b key _ => match kept b !! key with Some data => inl [inl (take 1 data); inl (drop 1 data)] | None => inr (mkS3Error (Some "NoSuchKey")) end;
  s3_head_object := fun b key => match kept b !! key with Some data => inl (Some (len data)) | None => inr (mkS3Error (Some "NotFound")) end;
  s3_delete_object := fun b key => numbered b (fun b => (mkBucket (delete key (cb_objects b)) (cb_uploads b) (cb_time b), inl tt));
  s3_create_multipart_upload := fun b key => numbered b (fun b =>
    let id := unary (cb_time b) in
    match cb_uploads b !! id with
    | None => (mkBucket (cb_objects b) (<[id := mkUpload key ∅]> (cb_uploads b)) (cb_time b), inl (Some id))
    | Some _ => (b, inr failure)
    end);
  s3_upload_part := fun b key id n data => numbered b (fun b =>
    match cb_uploads b !! id with
    | Some up => (mkBucket (cb_objects b) (<[id := mkUpload (up_key up) (<[n := (data, "tag")]> (up_parts up))]> (cb_uploads b)) (cb_time b), inl (Some "tag"))
    | None => (b, inr (mkS3Error (Some "NoSuchUpload")))
    end);
  s3_complete_multipart_upload := fun b key id parts => numbered b (fun b =>
    match cb_uploads b !! id ≫= (fun up => find_parts (up_parts up) parts) with
    | Some pieces => write_object b key (concat pieces) (delete id (cb_uploads b))
    | None => (b, inr failure)
    end);
  s3_abort_multipart_upload := fun b key id => numbered b (fun b => (mkBucket (cb_objects b) (delete id (cb_uploads b)) (cb_time b), inl tt));
  s3_list_objects_v2 := fun b prefix token =>
    let keys := from_token b prefix token in
    inl (mkPage (map Some (take 2 keys)) (if (length keys <=? 2)%nat then None else Some (unary (length keys - 2))) (Some (negb (length keys <=? 2)%nat)));
|}.

Lemma unary_length n : String.length (unary n) = n.
Proof. induction n as [|n IH]; [done|]. change (S (String.length (unary n)) = S n). by rewrite IH. Qed.

Lemma kept_size b key data : kept b !! key = Some data -> len data <= MAX_S3_OBJECT_SIZE.
Proof. intros [_ E]%map_lookup_filter_Some. cbn in E. by apply Z.leb_le. Qed.

Lemma kept_write b b' key data : cb_objects b' = <[key := data]> (cb_objects b) -> fits data = true -> kept b' = <[key := data]> (kept b).
Proof. intros E Hd. unfold kept. by rewrite E, map_filter_insert_True. Qed.

Lemma find_parts_spec ps parts pieces : find_parts ps parts = Some pieces -> Forall2 (fun part piece => ps !! part.1 = Some (piece, part.2)) parts pieces.
Proof.
  intros E%mapM_Some. eapply Forall2_impl; [exact E|]. intros [n tag] piece Hp. cbn in *. apply bind_Some in Hp as ([data tag'] & -> & Hd).
  case_decide; [|done]. congruence.
Qed.

Lemma numbered_time {A} b (f : cbucket -> cbucket * (A + S3Error)) : (forall b, cb_time (f b).1 = cb_time b) -> cb_time (numbered b f).1 = S (cb_time b).
Proof. intros Hf. unfold numbered. destruct (faults _); [done|by rewrite Hf]. Qed.

Lemma request_time b t b' t' : S3Storage.request b t = Some (b', t') -> cb_time b' = S (cb_time b).
Proof.
  destruct t as [r| |key data k|key k|key k|key id n data k|key id parts k|key id k|id key t|t|id key t|id k|k]; try done; cbn;
    (match goal with |- (let '(_, _) := numbered b ?f in _) = _ -> _ => pose proof (numbered_time b f) as Ht; destruct (numbered b f) as [b1 r] end);
    intros [= <- _]; apply Ht; intros b2.
  - unfold write_object. by destruct (fits data).
  - done.
  - by destruct (_ !! _).
  - by destruct (_ !! _).
  - destruct (_ ≫= _); [|done]. unfold write_object. by destruct (fits _).
  - done.
Qed.

Lemma unary_inj n m : unary n = unary m -> n = m.
Proof. intros E. by rewrite <- (unary_length n), E, unary_length. Qed.

#[export] Instance service_laws : S3Laws.
Proof.
  refine {| objects := kept; uploads := cb_uploads; issued := fun b id => exists n, (n <= cb_time b)%nat /\ id = unary n; listed := from_token |}.
  - apply kept_size.
  - intros b key data b' r. cbn. unfold numbered, write_object. destruct (faults _); [intros [= <- <-]; split; [done|by left]|].
    destruct (fits data) eqn:Ef; intros [= <- <-]; (split; [done|]); [by eapply kept_write|by left].
  - intros b key n. cbn. destruct (kept b !! key) as [data|]; [|done]. exists data. split; [done|]. cbn. intros data' [= <-]. by rewrite app_nil_r, take_drop.
  - intros b key. cbn. destruct (kept b !! key) as [data|]; [|done]. exists data. auto.
  - intros b key b' r. cbn. unfold numbered. destruct (faults _); intros [= <- <-]; (split; [done|]); [by left|]. unfold kept. cbn. by rewrite map_filter_delete.
  - intros b t b' t' id E (n & Hn & ->). exists n. split; [|done]. rewrite (request_time _ _ _ _ E). lia.
  - intros b key b' r. cbn. unfold numbered. destruct (faults _); [by intros [= <- <-]|]. cbn [tick cb_uploads cb_time cb_objects].
    destruct (cb_uploads b !! unary (S (cb_time b))) eqn:Eid; intros [= <- <-]; (split; [done|]); [done|]. cbn [cb_uploads cb_time].
    split; [intros id (n & Hn & ->); apply lookup_insert_ne; intros E; pose proof (unary_inj (S (cb_time b)) n E); lia|].
    split; [intros (n & Hn & E); pose proof (unary_inj (S (cb_time b)) n E); lia|]. split; [by eexists|done].
  - intros b key id n data b' r ps. cbn. unfold numbered. destruct (faults _); [intros [= <- <-] Hup; split; [done|]; exists ps; by rewrite insert_id|].
    cbn. intros E Hup. rewrite Hup in E. injection E as <- <-. done.
  - intros b key id n data b' r. cbn. unfold numbered. destruct (faults _); [by intros [= <- <-]|]. cbn. intros E Hup. rewrite Hup in E. by injection E as <- <-.
  - intros b key id parts b' r ps. cbn. unfold numbered. destruct (faults _); [intros [= <- <-] Hup; by left|]. cbn. intros E Hup. rewrite Hup in E. cbn in E.
    destruct (find_parts ps parts) as [pieces|] eqn:Ef; [|injection E as <- <-; by left]. unfold write_object in E.
    destruct (fits (concat pieces)) eqn:Efit; injection E as <- <-; [|by left]. exists pieces. split; [by apply find_parts_spec|]. split; [|done]. by eapply kept_write.
  - intros b key id parts b' r. cbn. unfold numbered. destruct (faults _); [by intros [= <- <-]|]. cbn. intros E Hup. rewrite Hup in E. by injection E as <- <-.
  - intros b key id b' r. cbn. unfold numbered. destruct (faults _); intros [= <- <-]; (split; [done|]); [by left|done].
  - intros b prefix. cbn. unfold all_keys. split; [apply NoDup_filter, NoDup_fst_map_to_list|]. intros key. rewrite list_elem_of_filter, list_elem_of_fmap. split.
    + intros [Hp ([k d] & -> & Hi)]. apply elem_of_map_to_list in Hi. split; [by exists d|done].
    + intros [[d Hd] Hp]. split; [done|]. exists (key, d). split; [done|]. by apply elem_of_map_to_list.
  - intros b prefix token page. cbn. intros [= <-]. exists (take 2 (from_token b prefix token)). cbn [pg_contents pg_is_truncated pg_next_token default].
    split; [done|]. split; [rewrite length_take; unfold LIST_PAGE_SIZE; lia|]. destruct (Nat.leb_spec (length (from_token b prefix token)) 2) as [Hle|Hgt]; cbn [negb].
    + split; [done|]. by rewrite take_ge by lia.
    + eexists. split; [done|]. split; [intros E; apply (f_equal String.length) in E; rewrite unary_length in E; cbn in E; lia|].
      split; [destruct (from_token b prefix token); cbn in Hgt |- *; [lia|done]|]. rewrite <- (take_drop 2 (from_token b prefix token)) at 1. f_equal. cbn [from_token].
      rewrite unary_length. destruct token as [t|]; cbn [from_token] in *; [|f_equal; lia]. rewrite drop_drop, length_drop in *. f_equal. lia.
Defined.
End Model.

Definition empty : cbucket := mkBucket ∅ ∅ 0.
End S3Model.

(** ** Properties *)
Section Properties.
Context `{S3Laws, FileReadsLaws}.


(** Storing a file that nothing interrupts ends, whatever fails on the way: it
    either leaves the objects as they were or makes the object the file's
    content, however many parts it was sent in and read in, touches no other
    object and does not panic, and after [Ok] every read of the key that
    succeeds gives the file.  The part size keeps a file that S3 can hold within
    S3's number of parts. *)
Theorem s3_put_from_path_ends host st key file :
  exists st' guard r, alone st None (put_from_path host key file) = Some (st', guard, r) /\ r <> Panic /\
    (objects (ss_bucket st') = objects (ss_bucket st) \/ objects (ss_bucket st') = <[key := file]> (objects (ss_bucket st))) /\
    (r = Ok tt -> forall n data, get st' key n = Ok data \/ s3_download_to_path host st' key n = Ok data -> data = file) /\
    match multipart_part_size (len file) with
    | Ok part_size => MULTIPART_THRESHOLD <= part_size /\ len file <= MAX_MULTIPART_PARTS * part_size
    | _ => MAX_S3_OBJECT_SIZE < len file
    end.
Proof.
  destruct (s3_put_from_path_alone host st key file) as (st' & guard & r & E & (Hp & Ho & Hr)). exists st', guard, r. split; [done|]. split; [done|].
  split; [done|]. split.
  - intros Eok n data Hread. specialize (Hr Eok). assert (objects (ss_bucket st') !! key = Some file) as Hf by (rewrite Hr; apply lookup_insert_eq).
    pose proof (s3_get_spec st' key n) as Hg. pose proof (s3_download_spec host st' key n) as Hd.
    destruct Hread as [E'|E']; [rewrite E' in Hg|rewrite E' in Hd]; congruence.
  - pose proof (part_size_bounds (len file) (len_nonneg file)) as Hb. destruct (multipart_part_size (len file)); [|done..].
    unfold PART_SIZE, MULTIPART_THRESHOLD in *. lia.
Qed.

(** A listing ends, within as many pages as there are objects: the service
    cannot lead it in circles, since each token was given for a shorter rest.
    When no request fails, it is the keys of the objects under the prefix,
    each once. *)
Theorem s3_listing_ends st prefix :
  exists r, list_objects (listing_fuel st prefix) st prefix = Some r /\ r <> Panic /\
    forall keys, r = Ok keys -> NoDup keys /\ forall key, key ∈ keys <-> is_Some (objects (ss_bucket st) !! key) /\ starts_with prefix key = true.
Proof.
  destruct (list_objects_spec st prefix) as (r & E & Hr). exists r. split; [done|]. destruct Hr as [[m ->]| ->]; (split; [done|]); [done|].
  intros keys [= <-]. apply listed_all.
Qed.
End Properties.

(** ** Schedules

    Runs of the backend, computed: a future makes its next step, or is dropped
    where it waits. *)
Section Schedules.
Context `{S3, FileReads}.
Inductive move := Next (i : nat) | DropFuture (i : nat).

Definition move_future (st : S3Storage) (f : future) (dropped : bool) : option (S3Storage * future * list task * option string) :=
  match f with
  | Running guard t =>
      match request (ss_bucket st) t with
      | Some (b, t') => Some (if dropped then (st, Dropped t, guard_drop true guard, None) else (mkS3 b (ss_active st), Running guard t', [], created_id (ss_bucket st) t))
      | None =>
          if dropped then None
          else
            match registry_step (ss_active st) guard t, t with
            | Some (active, guard, t), _ => Some (mkS3 (ss_bucket st) active, Running guard t, [], None)
            | None, Answer r => Some (st, Finished r, guard_drop true guard, None)
            | None, _ => None
            end
      end
  | _ => None
  end.
Definition make_move (s : system) (m : move) : option system :=
  let '(i, dropped) := match m with Next i => (i, false) | DropFuture i => (i, true) end in
  f ← sy_futures s !! i;
  '(st, f', spawned, id) ← move_future (sy_backend s) f dropped;
  Some (mkSystem st (<[i := f']> (sy_futures s) ++ map (Running None) spawned) (option_to_set id ∪ sy_told s)).
Fixpoint make_moves (s : system) (ms : list move) : option system :=
  match ms with [] => Some s | m :: ms => s' ← make_move s m; make_moves s' ms end.

Lemma move_future_step st f dropped st' f' spawned id : move_future st f dropped = Some (st', f', spawned, id) -> future_step st f st' f' spawned id.
Proof.
  destruct st as [b active], f as [guard t| |]; [|done..]. cbn. destruct (request b t) as [[b' t']|] eqn:Er.
  - destruct dropped; intros [= <- <- <- <-]; [by eapply (step_drop true false)|by apply step_request].
  - destruct dropped; [done|]. destruct (registry_step active guard t) as [[[active' guard'] t']|] eqn:Eg; [intros [= <- <- <- <-]; by apply step_registry|].
    destruct t; try done. intros [= <- <- <- <-]. apply (step_answer true).
Qed.

Lemma make_moves_run ms : forall s s', make_moves s ms = Some s' -> rtc s3_step s s'.
Proof.
  induction ms as [|m ms IH]; intros [st futures told] s'; cbn [make_moves]; [by intros [= ->]|]. intros (s1 & Em & Ems)%bind_Some.
  eapply rtc_l; [|by apply IH]. unfold make_move in Em. destruct (match m with Next i => _ | DropFuture i => _ end) as [i dropped].
  apply bind_Some in Em as (f & Ef & Em). apply bind_Some in Em as ([[[st' f'] spawned] id] & Emf & Em). injection Em as <-.
  eapply step_future; [exact Ef|by eapply move_future_step].
Qed.

Lemma call_run s t : operation t -> rtc s3_step s (mkSystem (sy_backend s) (sy_futures s ++ [Running None t]) (sy_told s)).
Proof. intros Hop. destruct s as [st futures told]. eapply rtc_once. by apply step_call. Qed.
End Schedules.

(** ** Witnesses *)
Module S3Witness.
Import S3Model.
#[local] Existing Instance Model.reads.
#[local] Existing Instance Model.reads_laws.

(** The requests 1 and 2, after the creation of an upload, fail. *)
Definition faults (n : nat) : bool := (n =? 1)%nat || (n =? 2)%nat.
#[local] Instance aws : S3 := service faults.
#[local] Instance aws_laws : S3Laws := service_laws faults.

(** A host on which nothing fails, and one that cannot open the file. *)
Definition host (open : bool) : s3_host := mkS3Host true open (fun _ => true) true true (fun _ => true) true true.
Definition large : list byte := repeat Byte.x2a (Z.to_nat MULTIPART_THRESHOLD).

Lemma large_len : len large = MULTIPART_THRESHOLD.
Proof. unfold large, len. rewrite repeat_length. by apply Z2Nat.id. Qed.

(** The upload of a file that cannot be opened, without its file. *)
Definition failing : task :=
  CreateMultipartUpload "k" (fun r =>
    match r with
    | inr _ => Answer (internal_error "S3 create_multipart_upload failed")
    | inl None => Answer (internal_error "S3 create_multipart_upload returned no upload_id")
    | inl (Some id) => NewGuard id "k" (complete_parts "k" id (internal_error "Failed to open file for multipart upload"))
    end).

Lemma large_upload : put_from_path (host false) "k" large = failing.
Proof. unfold put_from_path. rewrite large_len. generalize large. intros file. reflexivity. Qed.

Lemma failing_called : operation failing.
Proof. rewrite <- large_upload. exact (op_put_from_path (host false) "k" large). Qed.

Definition start : system := new_backend (S3Model.empty : bucket).
Definition calling (s : system) (t : task) : system := mkSystem (sy_backend s) (sy_futures s ++ [Running None t]) (sy_told s).
Definition state_after (s : option system) : system := default start s.

(** The upload is created, fails and could not be aborted; the task of its guard
    claims it.  Meanwhile a shutdown is called. *)
Definition claimed : system :=
  calling (state_after (make_moves (calling start failing) [Next 0; Next 0; Next 0; Next 0; Next 1])) shutdown.
(** The shutdown is faster. *)
Definition shutdown_first : system := state_after (make_moves claimed [Next 2; Next 2]).

Lemma claimed_run : rtc s3_step start claimed.
Proof.
  etransitivity; [|apply call_run, op_shutdown]. etransitivity; [exact (call_run start failing failing_called)|].
  apply (make_moves_run [Next 0; Next 0; Next 0; Next 0; Next 1]). reflexivity.
Qed.


Lemma shutdown_first_run : rtc s3_step claimed shutdown_first.
Proof. apply (make_moves_run [Next 2; Next 2]). reflexivity. Qed.


(** A shutdown can answer [Ok] while the task of a guard has claimed an upload
    that is still in progress: nothing waits for that task. *)
Example shutdown_overtakes_a_claim : rtc s3_step start shutdown_first /\
  sy_futures shutdown_first !! 2%nat = Some (Finished (Ok tt)) /\ ss_active (sy_backend shutdown_first) = ∅ /\
  uploads (ss_bucket (sy_backend shutdown_first)) !! "x" = Some (mkUpload "k" ∅) /\
  sy_futures shutdown_first !! 1%nat = Some (Running None (abort_claimed "k" "x")).
Proof. split; [etransitivity; [exact claimed_run|exact shutdown_first_run]|]. repeat split; reflexivity. Qed.

(** A shutdown whose future is dropped forgets what it had drained. *)
Example dropped_shutdown_forgets :
  let drained := state_after (make_moves (calling (calling start failing) shutdown) [Next 0; Next 0; Next 1; DropFuture 1]) in
  rtc s3_step start drained /\ ss_active (sy_backend drained) = ∅ /\
  uploads (ss_bucket (sy_backend drained)) !! "x" = Some (mkUpload "k" ∅) /\ (exists t, sy_futures drained !! 1%nat = Some (Dropped t)).
Proof.
  split; [|split; [reflexivity|split; [reflexivity|by eexists]]].
  etransitivity; [exact (call_run start failing failing_called)|]. etransitivity; [apply call_run, op_shutdown|].
  apply (make_moves_run [Next 0; Next 0; Next 1; DropFuture 1]). reflexivity.
Qed.

Lemma s3_put_from_path_ends_witness :
  exists st', (exists guard, alone (sy_backend start) None (put_from_path (host true) "k" [Byte.x01; Byte.x02; Byte.x03]) = Some (st', guard, Ok tt)) /\
    get st' "k" 0 = Ok [Byte.x01; Byte.x02; Byte.x03].
Proof.
  destruct (s3_put_from_path_ends (host true) (sy_backend start) "k" [Byte.x01; Byte.x02; Byte.x03]) as (st' & guard & r & E & _ & _ & Hr & _).
  assert (snd <$> alone (sy_backend start) None (put_from_path (host true) "k" [Byte.x01; Byte.x02; Byte.x03]) = Some (Ok tt)) as Er by reflexivity.
  assert ((fun x => is_ok (get x.1.1 "k" 0)) <$> alone (sy_backend start) None (put_from_path (host true) "k" [Byte.x01; Byte.x02; Byte.x03]) = Some true) as Hok by reflexivity.
  rewrite E in Er, Hok. cbn in Er, Hok. injection Er as Er. injection Hok as Hok. exists st'. split; [exists guard; rewrite <- Er; exact E|].
  destruct (get st' "k" 0) as [data|e|] eqn:Eg; [|discriminate Hok..]. f_equal. apply (Hr Er 0%nat data). left. exact Eg.
Defined.

(** Three objects, one of them elsewhere: two pages of two keys when all are
    listed, and the keys under a prefix. *)
Definition stored : S3Storage :=
  mkS3 (mkBucket {["xorbs/aa" := [Byte.x01]; "shards/bb" := [Byte.x02]; "xorbs/cc" := []]} ∅ 0 : bucket) ∅.

Lemma s3_listing_ends_witness :
  exists keys, list_objects (listing_fuel stored "xorbs/") stored "xorbs/" = Some (Ok keys) /\ ("xorbs/cc" ∈ keys) /\ ~ ("shards/bb" ∈ keys) /\
  list_objects (listing_fuel stored "") stored "" <> None.
Proof.
  destruct (s3_listing_ends stored "xorbs/") as (r & E & _ & Hr). destruct (s3_listing_ends stored "") as (r' & E' & _).
  assert (is_ok <$> list_objects (listing_fuel stored "xorbs/") stored "xorbs/" = Some true) as Hok by (vm_compute; reflexivity).
  rewrite E in Hok. cbn in Hok. injection Hok as Hok. destruct r as [keys|e|]; [|discriminate Hok..].
  destruct (Hr keys eq_refl) as [_ Hkeys]. exists keys. split; [exact E|]. split; [|split; [|rewrite E'; discriminate]].
  - apply (Hkeys "xorbs/cc"). split; [eexists; reflexivity|reflexivity].
  - intros Hi. apply (Hkeys "shards/bb") in Hi as [_ Hp]. discriminate Hp.
Defined.
End S3Witness.
