(* ===== verification/ShardValidation.v ===== *)
(** * Validating shards against stored xorbs (src/shard_validation.rs)

    A shard enters the index only if the files it declares can be rebuilt from
    the stored xorbs.  A temporary file is its content; failures of the local
    temporary directory are not modelled.  An error is the literal text of its
    message. *)
From S2P Require Import Prelude Bytes Crates MerkleHash Hash Compression Xorb XorbBuilder Shard ReconPlan Storage ShardIo Index.

Local Open Scope Z_scope.

Record ValidatedXorb := mkValidated {
  temp_guard : list byte;
  vx_info : VerifiedXorbInfo;
}.

Section Validate.
Context `{Blake3, HexCrate, Sha2, Lz4, FileReads}.

Definition xorb_key (xorb_hash : MerkleHash) : string := "xorbs/" +:+ to_hex xorb_hash.

(** One pair of the zip of shard chunks and verified chunks. *)
Definition check_chunk_entry (_ : unit) (pair : XorbChunkSequenceEntry * VerifiedXorbChunkInfo) : outcome string unit :=
  let '(shard_chunk, verified_chunk) := pair in
  ensure bool_decide (xe_chunk_hash shard_chunk = serialized_chunk_hash verified_chunk)
    else "Xorb chunk metadata mismatch: serialized hash"%string in
  ensure xe_chunk_byte_range_start shard_chunk =? serialized_start verified_chunk
    else "Xorb chunk metadata mismatch: start"%string in
  ensure xe_unpacked_segment_bytes shard_chunk =? unpacked_len verified_chunk
    else "Xorb chunk metadata mismatch: unpacked length"%string in
  Ok tt.

(** The body of the loop over the xorb entries. *)
Definition validate_xorb (storage : StorageView) (shard : MDBShardFile)
    (st : gmap MerkleHash ValidatedXorb * Z) (xorb_entry : XorbChunkSequenceHeader)
  : outcome string (gmap MerkleHash ValidatedXorb * Z) :=
  let '(validated_xorbs, xorb_chunk_offset) := st in
  ensure bool_decide (validated_xorbs !! xh_xorb_hash xorb_entry = None)
    else "Duplicate xorb in shard validation"%string in
  let num_entries := xh_num_entries xorb_entry in
  let* xorb_chunk_end := ok_or (checked_add xorb_chunk_offset num_entries) "chunk table offset overflow"%string in
  ensure xorb_chunk_end <=? len (ms_xorb_chunk_entries shard) else "beyond shard chunk table length"%string in
  let xorb_hash := xh_xorb_hash xorb_entry in
  let* temp_file := map_err (fun _ => "Failed to download xorb"%string)
    (download_to_path_with_retries storage (xorb_key xorb_hash)) in
  let* xorb_info :=
    match verify_xorb_from_file_with_info temp_file with
    | Ok info => Ok info
    | Err _ => Err "Failed to verify xorb"%string
    | Panic => Err "xorb verify task failed"%string
    end in
  ensure bool_decide (vx_xorb_hash xorb_info = xorb_hash) else "Xorb hash mismatch for shard entry"%string in
  ensure xh_num_entries xorb_entry =? len (vx_chunks xorb_info) else "Xorb chunk count mismatch"%string in
  ensure xh_num_bytes_in_xorb xorb_entry =? total_unpacked_bytes xorb_info
    else "Xorb size mismatch: unpacked bytes"%string in
  ensure xh_num_bytes_on_disk xorb_entry =? total_compressed_payload_bytes xorb_info
    else "Xorb size mismatch: compressed payload bytes"%string in
  let* shard_chunk_entries := slice (ms_xorb_chunk_entries shard) xorb_chunk_offset xorb_chunk_end in
  let* _ := fold_outcome check_chunk_entry tt (combine shard_chunk_entries (vx_chunks xorb_info)) in
  Ok (<[xorb_hash := mkValidated temp_file xorb_info]> validated_xorbs, xorb_chunk_end).

(** The locals of the loop over the planned chunks of a file. *)
Record file_state := mkFileState {
  fs_sha256 : sha256_hasher;
  fs_blake3 : StreamingHasher;
  fs_raw_chunks : list node;
  fs_file_size : Z;
  fs_validated_chunks : gset (MerkleHash * Z);
}.

Definition validate_planned (validated_xorbs : gmap MerkleHash ValidatedXorb) (st : file_state) (planned : PlannedChunk)
  : outcome string file_state :=
  let* validated_xorb := ok_or (validated_xorbs !! pc_xorb_hash planned) "xorb that was not downloaded"%string in
  ensure negb (len (vx_chunks (vx_info validated_xorb)) <=? pc_xorb_chunk_index planned)
    else "beyond verified chunk count"%string in
  let* raw_chunk := map_err (fun e => "Failed to extract xorb chunk: " +:+ e)
    (extract_chunk_verified_from_file (temp_guard validated_xorb) (pc_chunk_byte_range_start planned)
       (pc_unpacked_segment_bytes planned) (pc_serialized_chunk_hash planned)) in
  let actual_raw_chunk_hash := compute_data_hash raw_chunk in
  ensure bool_decide (actual_raw_chunk_hash = pc_raw_chunk_hash planned) else "Raw chunk hash mismatch"%string in
  let raw_chunk_size := len raw_chunk in
  let* file_size := ok_or (checked_add (fs_file_size st) raw_chunk_size) "Reconstructed size overflow"%string in
  Ok (mkFileState (sha256_update (fs_sha256 st) raw_chunk) (streaming_update (fs_blake3 st) raw_chunk)
        (fs_raw_chunks st ++ [(actual_raw_chunk_hash, raw_chunk_size)]) file_size
        ({[ (pc_xorb_hash planned, pc_xorb_chunk_index planned) ]} ∪ fs_validated_chunks st)).

(** The body of the loop over the file entries. *)
Definition validate_file (shard : MDBShardFile) (validated_xorbs : gmap MerkleHash ValidatedXorb)
    (st : list VerifiedFileMapping * gset (MerkleHash * Z)) (entry : nat * FileDataSequenceHeader)
  : outcome string (list VerifiedFileMapping * gset (MerkleHash * Z)) :=
  let '(files, validated_chunks) := st in
  let '(file_index, file_entry) := entry in
  let declared_file_hash := fh_file_hash file_entry in
  let* plan := map_err (fun _ => "Failed to build validation plan"%string)
    (build_file_chunk_plan shard declared_file_hash (Some file_index)) in
  let* fs := fold_outcome (validate_planned validated_xorbs)
    (mkFileState sha256_new streaming_new [] 0 validated_chunks) (pf_chunks plan) in
  let sha256_hex := hex_encode (sha256_finalize (fs_sha256 fs)) in
  let blake3_hash := streaming_finalize (fs_blake3 fs) in
  let xet_file_hash := file_hash (fs_raw_chunks fs) in
  ensure negb (negb (to_hex declared_file_hash =? sha256_hex)%string &&
               negb (bool_decide (declared_file_hash = blake3_hash)) &&
               negb (bool_decide (declared_file_hash = xet_file_hash)))
    else "File hash mismatch"%string in
  Ok (files ++ [mkFileMapping declared_file_hash file_index (fs_file_size fs)], fs_validated_chunks fs).

Definition validate_shard_for_index (shard_id : string) (shard : MDBShardFile) (storage : StorageView)
  : outcome string VerifiedShardRegistration :=
  let* '(validated_xorbs, xorb_chunk_offset) := fold_outcome (validate_xorb storage shard) (∅, 0) (ms_xorb_entries shard) in
  ensure xorb_chunk_offset =? len (ms_xorb_chunk_entries shard)
    else "Shard has unclaimed xorb chunk entries after validation"%string in
  let* '(files, validated_chunks) :=
    fold_outcome (validate_file shard validated_xorbs) ([], ∅) (enumerate (ms_file_entries shard)) in
  let chunks := map (fun entry => mkChunkMapping (cl_chunk_hash entry) (cl_xorb_hash entry) (cl_chunk_index entry))
    (List.filter (fun entry => bool_decide ((cl_xorb_hash entry, cl_chunk_index entry) ∈ validated_chunks))
       (ms_chunk_lookup_entries shard)) in
  Ok (mkRegistration shard_id files chunks).
End Validate.

(** ** Specification *)
Section Spec.
Context `{Blake3, HexCrate, Sha2, Lz4}.

(** The xorb stored under its key. *)
Definition stored_xorb (storage : StorageView) (x : MerkleHash) (ps : list part) : Prop :=
  (exists attempt, download_to_path storage (xorb_key x) attempt = Ok (xorb_bytes ps)) /\
  parts_fit ps /\ xorb_hash (part_nodes ps) = x.

(** The content of chunk [i] of a xorb. *)
Definition chunk_content (ps : list part) (i : Z) (raw : list byte) : Prop :=
  exists p, ps !! Z.to_nat i = Some p /\
    decompress (compression_scheme (fst p)) (snd p) (uncompressed_length (fst p)) = Ok raw.

(** [raws] is what the stored xorbs hold for the planned chunks. *)
Definition rebuilt (storage : StorageView) (chunks : list PlannedChunk) (raws : list (list byte)) : Prop :=
  Forall2 (fun c raw => exists ps, stored_xorb storage (pc_xorb_hash c) ps /\
    chunk_content ps (pc_xorb_chunk_index c) raw /\ compute_data_hash raw = pc_raw_chunk_hash c) chunks raws.

(** The three forms of a whole-file hash. *)
Definition whole_file_hash (h : MerkleHash) (raws : list (list byte)) : Prop :=
  to_hex h = hex_encode (sha256_digest (concat raws)) \/
  h = compute_data_hash (concat raws) \/
  h = file_hash (map (fun raw => (compute_data_hash raw, len raw)) raws).
End Spec.

(** ** Lemmas: chunks of a xorb file *)
Section ChunkLemmas.
Context `{Blake3Laws, HexCrate, Lz4Laws}.

Lemma chunk_bytes_prefix p q r r' :
  part_wf p -> part_wf q -> chunk_bytes p ++ r = chunk_bytes q ++ r' -> p = q.
Proof.
  intros [Wp Lp] [Wq Lq] E. unfold chunk_bytes in E. rewrite <- !app_assoc in E.
  pose proof (header_roundtrip (fst p) (snd p ++ r) Wp) as Hp. rewrite E, header_roundtrip in Hp by done.
  injection Hp as Eh _. rewrite Eh in E. apply app_inv_head in E. destruct p as [hp dp], q as [hq dq]. cbn in *. subst hq.
  f_equal. apply app_inj_1 in E as [-> _]; [done|]. unfold len in *. lia.
Qed.

Lemma parts_verified_lookup ps : forall i off unp v,
  parts_verified off unp ps !! i = Some v ->
  exists p, ps !! i = Some p /\ serialized_chunk_hash v = part_hash p /\
    serialized_start v = off + len (payload (take i ps)) /\ unpacked_len v = uncompressed_length (fst p).
Proof.
  induction ps as [|p ps IH]; intros [|i] off unp v; cbn [parts_verified lookup list_lookup]; try done.
  - intros [= <-]. exists p. split; [done|]. cbn [serialized_chunk_hash serialized_start unpacked_len take payload map concat].
    change (len []) with 0. split; [done|]. split; [lia|done].
  - intros Hv. apply IH in Hv as (q & Hq & ? & Hs & ?). exists q. split; [done|]. split; [done|]. split; [|done].
    cbn [take]. rewrite payload_cons, len_app. lia.
Qed.

Lemma drop_payload ps i p :
  ps !! i = Some p -> exists rest, drop (Z.to_nat (len (payload (take i ps)))) (xorb_bytes ps) = chunk_bytes p ++ rest.
Proof.
  intros Hi. unfold xorb_bytes.
  assert (payload ps = payload (take i ps) ++ chunk_bytes p ++ payload (drop (S i) ps)) as ->
    by (rewrite <- payload_cons, <- payload_app; by rewrite take_drop_middle).
  rewrite <- !app_assoc. eexists. by apply drop_len_app.
Qed.

Lemma parts_verified_length off unp ps : length (parts_verified off unp ps) = length ps.
Proof. revert off unp. induction ps as [|p ps IH]; intros; cbn; [done|]. by rewrite IH. Qed.

(** Extracting from a stored xorb at the place of a chunk gives its content. *)
Lemma extract_stored ps i p out :
  parts_fit ps -> ps !! i = Some p ->
  extract_chunk_verified_from_file (xorb_bytes ps) (len (payload (take i ps))) (uncompressed_length (fst p)) (part_hash p) = Ok out ->
  chunk_content ps (Z.of_nat i) out.
Proof.
  intros (Wps & _) Hi E. pose proof Wps as Wps'. rewrite Forall_lookup in Wps'. pose proof (Wps' i p Hi) as Wp.
  assert (0 <= uncompressed_length (fst p)) as Hu by (destruct Wp as [(_ & _ & Hu) _]; lia).
  apply (proj2 (extract_sound _ _ _ _ (len_nonneg _) Hu)) in E as (_ & _ & q & rest & Wq & Ed & _ & _ & Eq).
  destruct (drop_payload ps i p Hi) as [rest' Ed']. rewrite Ed' in Ed.
  apply chunk_bytes_prefix in Ed as ->; [|done..]. exists q. rewrite Nat2Z.id. by split.
Qed.
End ChunkLemmas.

(** ** Lemmas: the loop over the xorbs *)
Section XorbLemmas.
Context `{Blake3Laws, HexCrate, Lz4Laws, FileReadsLaws}.
Context (storage : StorageView) (Hview : view_wf storage).

Definition entry_matches (ce : XorbChunkSequenceEntry) (v : VerifiedXorbChunkInfo) : Prop :=
  xe_chunk_hash ce = serialized_chunk_hash v /\ xe_chunk_byte_range_start ce = serialized_start v /\
  xe_unpacked_segment_bytes ce = unpacked_len v.

(** Each validated xorb is stored and is described by its group of the shard. *)
Definition xorbs_valid (l : xorb_groups) (m : gmap MerkleHash ValidatedXorb) : Prop :=
  forall x v, m !! x = Some v -> exists xh ces ps, (xh, ces) ∈ l /\ xh_xorb_hash xh = x /\ stored_xorb storage x ps /\
    temp_guard v = xorb_bytes ps /\ vx_info v = parts_report ps /\ Forall2 entry_matches ces (parts_verified 0 0 ps).

Lemma check_entries_ok l1 l2 :
  length l1 = length l2 -> fold_outcome check_chunk_entry tt (combine l1 l2) = Ok tt -> Forall2 entry_matches l1 l2.
Proof.
  revert l2. induction l1 as [|ce l1 IH]; intros [|v l2] Hl; cbn [combine fold_outcome]; try done.
  unfold check_chunk_entry at 1. case_bool_decide as Hh; [|done].
  destruct (Z.eqb_spec (xe_chunk_byte_range_start ce) (serialized_start v)); [|done].
  destruct (Z.eqb_spec (xe_unpacked_segment_bytes ce) (unpacked_len v)); [|done].
  intros E. constructor; [done|]. apply IH; [by injection Hl|done].
Qed.

Lemma check_entries_not_panic l : fold_outcome check_chunk_entry tt l <> Panic.
Proof.
  apply (fold_outcome_not_panic (fun _ => True)); [|done..]. intros [] [ce v] _. unfold check_chunk_entry.
  case_bool_decide; [|done]. destruct (_ =? _); [|done]. by destruct (_ =? _).
Qed.

Lemma validate_xorb_spec shard fgs xgs l1 xh ces l2 m :
  shard_groups shard fgs xgs -> xgs = l1 ++ (xh, ces) :: l2 -> xorbs_valid l1 m ->
  validate_xorb storage shard (m, offset_of l1) xh <> Panic /\
  forall m' off', validate_xorb storage shard (m, offset_of l1) xh = Ok (m', off') ->
    xorbs_valid (l1 ++ [(xh, ces)]) m' /\ off' = offset_of (l1 ++ [(xh, ces)]).
Proof.
  intros (_ & _ & _ & _ & Hce & Wg) Exg Hv. unfold validate_xorb.
  assert (xh_num_entries xh = len ces) as Hn.
  { rewrite Exg in Wg. apply Forall_app in Wg as [_ [Hn _]%Forall_cons]. done. }
  case_bool_decide as Hnone; [|done]. rewrite Hn.
  destruct (checked_add _ _) as [end_|] eqn:Ea; cbn [ok_or]; [|done]. apply checked_add_Some in Ea as [-> _].
  destruct (Z.leb_spec (offset_of l1 + len ces) (len (ms_xorb_chunk_entries shard))); [|done].
  destruct (download_to_path_with_retries storage _) as [file| |] eqn:Ed; cbn [map_err]; [|done|].
  2: { exfalso. revert Ed. apply with_retries_not_panic. intros n. apply (Hview _ n). }
  apply with_retries_Ok in Ed as [attempt Ed].
  destruct (verify_xorb_from_file_with_info file) as [info| |] eqn:Ev; [|done..].
  apply verify_file_sound in Ev as (ps & Hfit & -> & _ & ->); [|by eapply (Hview _ attempt)].
  case_bool_decide as Hx; [|done]. cbn [parts_report vx_chunks vx_xorb_hash] in *.
  destruct (Z.eqb_spec (len ces) (len (parts_verified 0 0 ps))) as [Hc|]; [|done].
  destruct (_ =? _); [|done]. destruct (_ =? _); [|done].
  assert (slice (E := string) (ms_xorb_chunk_entries shard) (offset_of l1) (offset_of l1 + len ces) = Ok ces) as ->.
  { rewrite Hce, Exg, map_app, concat_app. cbn [map concat snd]. apply slice_app. }
  pose proof (check_entries_not_panic (combine ces (parts_verified 0 0 ps))) as Hnp.
  destruct (fold_outcome _ _ _) as [[]| |] eqn:Ec; [|done..]. apply check_entries_ok in Ec; [|unfold len in *; lia].
  split; [done|]. intros m' off' [= <- <-]. split.
  - intros x v [[<- <-]|[Hne Hm]]%lookup_insert_Some.
    + exists xh, ces, ps. split; [set_solver|]. split; [done|]. split; [|done]. split; [by exists attempt|done].
    + apply Hv in Hm as (xh' & ces' & ps' & Hin & ?). exists xh', ces', ps'. split; [set_solver|done].
  - unfold offset_of. rewrite map_app, concat_app, len_app. cbn. by rewrite app_nil_r.
Qed.

Lemma validate_xorbs_spec shard fgs xgs : shard_groups shard fgs xgs -> forall l2 l1 m,
  xgs = l1 ++ l2 -> xorbs_valid l1 m ->
  fold_outcome (validate_xorb storage shard) (m, offset_of l1) (map fst l2) <> Panic /\
  forall m' off', fold_outcome (validate_xorb storage shard) (m, offset_of l1) (map fst l2) = Ok (m', off') ->
    xorbs_valid xgs m'.
Proof.
  intros Hg. induction l2 as [|[xh ces] l2 IH]; intros l1 m E Hv; cbn [map fst fold_outcome].
  - rewrite app_nil_r in E. subst l1. split; [done|]. by intros ? ? [= <- <-].
  - destruct (validate_xorb_spec shard fgs xgs l1 xh ces l2 m Hg E Hv) as [Hnp Hok].
    destruct (validate_xorb _ _ _ _) as [[m1 off1]| |]; [|done..].
    destruct (Hok _ _ eq_refl) as [Hv1 ->]. apply IH; [by rewrite <- app_assoc|done].
Qed.
End XorbLemmas.

(** ** Lemmas: the loop over the files *)
Section FileLemmas.
Context `{Blake3Laws, HexCrate, Sha2Laws, Lz4Laws, FileReadsLaws}.
Context (storage : StorageView) (shard : MDBShardFile) (xgs : xorb_groups) (validated_xorbs : gmap MerkleHash ValidatedXorb).
Context (Hvalid : xorbs_valid storage xgs validated_xorbs).
Abbreviation lookups := (ms_chunk_lookup_entries shard).

(** A chunk that was rebuilt and has its raw hash. *)
Definition chunk_rebuilt (c : PlannedChunk) (raw : list byte) : Prop :=
  exists ps, stored_xorb storage (pc_xorb_hash c) ps /\ chunk_content ps (pc_xorb_chunk_index c) raw /\
    compute_data_hash raw = pc_raw_chunk_hash c.

Definition step_file_state (st : file_state) (c : PlannedChunk) (raw : list byte) : file_state :=
  mkFileState (sha256_update (fs_sha256 st) raw) (streaming_update (fs_blake3 st) raw)
    (fs_raw_chunks st ++ [(compute_data_hash raw, len raw)]) (fs_file_size st + len raw)
    ({[ (pc_xorb_hash c, pc_xorb_chunk_index c) ]} ∪ fs_validated_chunks st).

Lemma validate_planned_spec st x i c :
  NoDup (map (fun g => xh_xorb_hash (fst g)) xgs) -> planned xgs lookups x i c ->
  validate_planned validated_xorbs st c <> Panic /\
  forall st', validate_planned validated_xorbs st c = Ok st' ->
    exists raw, chunk_rebuilt c raw /\ len raw = pc_unpacked_segment_bytes c /\ st' = step_file_state st c raw.
Proof.
  intros Hnd (xh & ces & ce & raw & Hin & Ex & Hce & Hr & ->). unfold validate_planned.
  cbn [pc_xorb_hash pc_xorb_chunk_index pc_chunk_byte_range_start pc_unpacked_segment_bytes pc_serialized_chunk_hash pc_raw_chunk_hash].
  destruct (validated_xorbs !! x) as [v|] eqn:Ev; cbn [ok_or]; [|done].
  destruct (_ <=? i); cbn [negb]; [done|].
  destruct (Hvalid x v Ev) as (xh' & ces' & ps & Hin' & Ex' & Hst & -> & _ & Hm).
  destruct (group_unique xgs xh xh' ces ces' Hnd Hin Hin' ltac:(congruence)) as [<- <-].
  eapply Forall2_lookup_l in Hm as (vc & Hvc & Eh & Es & Eu); [|exact Hce].
  apply parts_verified_lookup in Hvc as (p & Hp & Eh' & Es' & Eu'). rewrite Eh, Es, Eu, Eh', Es', Eu', Z.add_0_l.
  pose proof Hst as (_ & Hfit & _). pose proof Hfit as (Wps & _). rewrite Forall_lookup in Wps.
  destruct (Wps _ _ Hp) as [(_ & _ & Hu) _].
  destruct (extract_sound (xorb_bytes ps) (len (payload (take (Z.to_nat i) ps))) (uncompressed_length (fst p)) (part_hash p)
    (len_nonneg _) (proj1 Hu)) as [Hnp Hlen].
  pose proof (extract_stored ps (Z.to_nat i) p) as Hx.
  destruct (extract_chunk_verified_from_file _ _ _ _) as [out| |] eqn:Ee; cbn [map_err]; [|done..].
  case_bool_decide as Hraw; [|done]. destruct (checked_add _ _) as [sz|] eqn:Ea; cbn [ok_or]; [|done].
  apply checked_add_Some in Ea as [-> _]. split; [done|]. intros st' [= <-]. exists out.
  split; [|split; [by apply Hlen|done]].
  exists ps. split; [done|]. split; [|done]. specialize (Hx out Hfit Hp eq_refl).
  unfold chunk_content in *. by rewrite Nat2Z.id in Hx.
Qed.

(** Folding over chunks adds their contents. *)
Lemma validate_chunks_spec cs : forall st,
  NoDup (map (fun g => xh_xorb_hash (fst g)) xgs) -> Forall (fun c => exists x i, planned xgs lookups x i c) cs ->
  fold_outcome (validate_planned validated_xorbs) st cs <> Panic /\
  forall st', fold_outcome (validate_planned validated_xorbs) st cs = Ok st' ->
    exists raws, Forall2 chunk_rebuilt cs raws /\
      fs_sha256 st' = fold_left sha256_update raws (fs_sha256 st) /\
      fs_blake3 st' = fold_left streaming_update raws (fs_blake3 st) /\
      fs_raw_chunks st' = fs_raw_chunks st ++ map (fun raw => (compute_data_hash raw, len raw)) raws /\
      fs_file_size st' = fs_file_size st + len (concat raws) /\
      len (concat raws) = sum_by pc_unpacked_segment_bytes cs /\
      forall k, k ∈ fs_validated_chunks st' <-> k ∈ fs_validated_chunks st \/
        exists c, c ∈ cs /\ k = (pc_xorb_hash c, pc_xorb_chunk_index c).
Proof.
  induction cs as [|c cs IH]; intros st Hnd Hp; cbn [fold_outcome].
  - split; [done|]. intros st' [= <-]. exists []. cbn. rewrite app_nil_r, Z.add_0_r.
    split; [constructor|]. do 5 (split; [done|]). set_solver.
  - apply Forall_cons in Hp as [(x & i & Hp) Hps]. destruct (validate_planned_spec st x i c Hnd Hp) as [Hnp Hok].
    destruct (validate_planned _ _ _) as [st1| |]; [|done..]. destruct (Hok _ eq_refl) as (raw & Hr & Hl & ->).
    destruct (IH (step_file_state st c raw) Hnd Hps) as [Hnp' Hok']. split; [done|]. intros st' E.
    destruct (Hok' st' E) as (raws & Hrs & E1 & E2 & E3 & E4 & E5 & E6). exists (raw :: raws).
    unfold step_file_state in *. cbn [fs_sha256 fs_blake3 fs_raw_chunks fs_file_size fs_validated_chunks fold_left map concat] in *.
    split; [by constructor|]. split; [done|]. split; [done|]. split; [by rewrite E3, <- app_assoc|].
    rewrite len_app. split; [lia|]. unfold sum_by in *. cbn [foldr]. split; [lia|].
    intros k. rewrite E6. set_solver.
Qed.

Lemma streaming_fold raws : streaming_finalize (fold_left streaming_update raws streaming_new) = compute_data_hash (concat raws).
Proof.
  unfold streaming_finalize, compute_data_hash. f_equal. destruct (streaming_updates raws streaming_new) as [-> _].
  cbn [sh_hasher streaming_new]. apply blake3_streaming.
Qed.

(** What a validated file satisfies. *)
Definition file_valid (i : nat) (h : FileDataSequenceHeader) (f : VerifiedFileMapping) : Prop :=
  exists plan raws, build_file_chunk_plan shard (fh_file_hash h) (Some i) = Ok plan /\
    rebuilt storage (pf_chunks plan) raws /\ whole_file_hash (fh_file_hash h) raws /\
    len (concat raws) = sum_by pc_unpacked_segment_bytes (pf_chunks plan) /\
    f = mkFileMapping (fh_file_hash h) i (len (concat raws)).

(** A validated chunk has content with the raw hash of its lookup entry. *)
Definition chunk_key_valid (k : MerkleHash * Z) : Prop :=
  NoDup (map lookup_key lookups) /\
  exists raw_hash raw ps, mkLookup raw_hash (fst k) (snd k) ∈ lookups /\ stored_xorb storage (fst k) ps /\
    chunk_content ps (snd k) raw /\ compute_data_hash raw = raw_hash.

Lemma validate_file_spec n fgs files validated i h :
  shard_wf n shard -> n < 2 ^ 64 -> shard_groups shard fgs xgs ->
  (forall k, k ∈ validated -> chunk_key_valid k) ->
  validate_file shard validated_xorbs (files, validated) (i, h) <> Panic /\
  forall files' validated', validate_file shard validated_xorbs (files, validated) (i, h) = Ok (files', validated') ->
    (exists f, file_valid i h f /\ files' = files ++ [f]) /\ (forall k, k ∈ validated' -> chunk_key_valid k).
Proof.
  intros W Hn Hg Hv. unfold validate_file.
  destruct (plan_iff shard n fgs xgs (fh_file_hash h) (Some i) W Hn Hg) as [Hnp Hplan].
  destruct (build_file_chunk_plan _ _ _) as [plan| |] eqn:Ep; cbn [map_err]; [|done..].
  destruct (proj1 (Hplan plan) eq_refl) as (Hnd & Hnl & _ & fe & segs & css & _ & Hcss & _ & Eplan).
  assert (Forall (fun c => exists x i, planned xgs lookups x i c) (pf_chunks plan)) as Hpl.
  { rewrite Eplan. cbn [pf_chunks]. clear -Hcss. induction Hcss as [|seg cs segs css (_ & _ & Hcs & _) _ IH]; [constructor|].
    cbn [concat]. apply Forall_app_2; [|done]. clear -Hcs. induction Hcs; constructor; eauto. }
  destruct (validate_chunks_spec (pf_chunks plan) (mkFileState sha256_new streaming_new [] 0 validated) Hnd Hpl) as [Hnp' Hok].
  destruct (fold_outcome _ _ _) as [fs| |]; [|done..]. destruct (Hok _ eq_refl) as (raws & Hr & E1 & E2 & E3 & E4 & E5 & E6).
  cbn [fs_sha256 fs_blake3 fs_raw_chunks fs_file_size fs_validated_chunks app] in *.
  set (b := negb _ && _ && _). destruct b eqn:Eb; cbn [negb]; [done|]. split; [done|]. intros files' validated' [= <- <-].
  split.
  - eexists. split; [|done]. exists plan, raws. split; [done|]. split; [exact Hr|]. split; [|split; [done|by rewrite E4, Z.add_0_l]].
    subst b. rewrite E1, E2, E3 in Eb. rewrite sha256_streaming, streaming_fold in Eb. unfold whole_file_hash.
    apply andb_false_iff in Eb as [[Eb|Eb]%andb_false_iff|Eb]; apply negb_false_iff in Eb.
    + left. by apply String.eqb_eq.
    + right; left. by apply bool_decide_eq_true in Eb.
    + right; right. by apply bool_decide_eq_true in Eb.
  - intros k [Hk|(c & Hc & ->)]%E6; [by apply Hv|]. split; [done|]. cbn [fst snd].
    eapply Forall_forall in Hpl as (x & j & Hp); [|exact Hc].
    apply list_elem_of_lookup in Hc as [a Ha]. eapply Forall2_lookup_l in Hr as (raw & _ & ps & Hst & Hcc & Hh); [|exact Ha].
    destruct Hp as (xh & ces & ce & rh & _ & _ & _ & Hl & ->). cbn in *. exists rh, raw, ps. done.
Qed.
End FileLemmas.

Section ValidateLemmas.
Context `{Blake3Laws, HexCrate, Sha2Laws, Lz4Laws, FileReadsLaws}.

Lemma validate_files_spec storage shard xgs validated_xorbs n fgs :
  xorbs_valid storage xgs validated_xorbs -> shard_wf n shard -> n < 2 ^ 64 -> shard_groups shard fgs xgs ->
  forall entries files validated, (forall k, k ∈ validated -> chunk_key_valid storage shard k) ->
  fold_outcome (validate_file shard validated_xorbs) (files, validated) entries <> Panic /\
  forall files' validated', fold_outcome (validate_file shard validated_xorbs) (files, validated) entries = Ok (files', validated') ->
    (exists news, Forall2 (fun e f => file_valid storage shard (fst e) (snd e) f) entries news /\ files' = files ++ news) /\
    (forall k, k ∈ validated' -> chunk_key_valid storage shard k).
Proof.
  intros Hx W Hn Hg. induction entries as [|[i h] entries IH]; intros files validated Hv; cbn [fold_outcome].
  - split; [done|]. intros files' validated' [= <- <-]. split; [|done]. exists []. by rewrite app_nil_r.
  - destruct (validate_file_spec storage shard xgs validated_xorbs Hx n fgs files validated i h W Hn Hg Hv) as [Hnp Hok].
    destruct (validate_file _ _ _ _) as [[files1 validated1]| |]; [|done..].
    destruct (Hok _ _ eq_refl) as ((f & Hf & ->) & Hv1). destruct (IH (files ++ [f]) validated1 Hv1) as [Hnp' Hok'].
    split; [done|]. intros files' validated' E. destruct (Hok' _ _ E) as ((news & Hnews & ->) & Hv'). split; [|done].
    exists (f :: news). split; [by constructor|]. by rewrite <- app_assoc.
Qed.

Lemma shard_wf_groups n shard : shard_wf n shard -> exists fgs xgs, shard_groups shard fgs xgs.
Proof.
  intros (_ & _ & _ & _ & _ & _ & _ & _ & _ & (fgs & E1 & E2 & W1) & (xgs & E3 & E4 & W2) & _).
  exists fgs, xgs. done.
Qed.

Lemma validate_spec shard_id shard storage n :
  shard_wf n shard -> n < 2 ^ 64 -> view_wf storage ->
  validate_shard_for_index shard_id shard storage <> Panic /\
  forall reg, validate_shard_for_index shard_id shard storage = Ok reg ->
    vr_shard_id reg = shard_id /\
    Forall2 (fun e f => file_valid storage shard (fst e) (snd e) f) (enumerate (ms_file_entries shard)) (vr_files reg) /\
    forall c, c ∈ vr_chunks reg -> exists raw ps, stored_xorb storage (vm_xorb_hash c) ps /\
      chunk_content ps (vm_chunk_index c) raw /\ compute_data_hash raw = vm_chunk_hash c.
Proof.
  intros W Hn Hview. destruct (shard_wf_groups n shard W) as (fgs & xgs & Hg). unfold validate_shard_for_index.
  pose proof Hg as (_ & _ & _ & Hxe & _).
  destruct (validate_xorbs_spec storage Hview shard fgs xgs Hg xgs [] ∅ eq_refl) as [Hnp Hok].
  { intros x v. by rewrite lookup_empty. }
  rewrite Hxe. change (offset_of []) with 0 in *.
  destruct (fold_outcome (validate_xorb storage shard) _ _) as [[m off]| |]; [|done..]. specialize (Hok _ _ eq_refl).
  destruct (_ =? _); [|done].
  destruct (validate_files_spec storage shard xgs m n fgs Hok W Hn Hg (enumerate (ms_file_entries shard)) [] ∅) as [Hnp' Hok'];
    [set_solver|].
  destruct (fold_outcome _ _ _) as [[files validated]| |]; [|done..]. destruct (Hok' _ _ eq_refl) as ((news & Hf & ->) & Hv).
  split; [done|]. intros reg [= <-]. cbn [vr_shard_id vr_files vr_chunks app]. split; [done|]. split; [done|].
  intros c (e & <- & He)%elem_of_map. cbn [vm_xorb_hash vm_chunk_index vm_chunk_hash].
  apply list_elem_of_In, filter_In in He as [Hin%list_elem_of_In Hk%bool_decide_eq_true].
  apply Hv in Hk as (Hnd & rh & raw & ps & Hl & Hst & Hcc & Hh). cbn [fst snd] in *. exists raw, ps.
  split; [done|]. split; [done|]. rewrite Hh. destruct e as [h x i]. cbn in *.
  apply list_elem_of_lookup in Hin as [a Ha], Hl as [b Hb].
  assert (a = b) as ->; [|congruence].
  eapply (NoDup_lookup _ a b (x, i) Hnd); by rewrite list_lookup_fmap, ?Ha, ?Hb.
Qed.
End ValidateLemmas.

(** ** Properties *)

(** C24: A shard that passes validation is true of the storage: each of its files
    is rebuilt, chunk by chunk, from xorbs stored under their own hash, the
    content has one of the three supported forms of the declared file hash,
    and the registered size is the size of that content, which the segments
    declare; and every chunk mapping that is registered leads to a stored chunk
    whose content has that hash.  Validation never panics, whatever is stored. *)
Theorem validated_shard_is_true `{Blake3Laws, HexCrate, Sha2Laws, Lz4Laws, FileReadsLaws} shard_id shard storage n :
  shard_wf n shard -> n < 2 ^ 64 -> view_wf storage ->
  validate_shard_for_index shard_id shard storage <> Panic /\
  forall reg, validate_shard_for_index shard_id shard storage = Ok reg ->
    vr_shard_id reg = shard_id /\
    Forall2 (fun e f => file_valid storage shard (fst e) (snd e) f) (enumerate (ms_file_entries shard)) (vr_files reg) /\
    forall c, c ∈ vr_chunks reg -> exists raw ps, stored_xorb storage (vm_xorb_hash c) ps /\
      chunk_content ps (vm_chunk_index c) raw /\ compute_data_hash raw = vm_chunk_hash c.
Proof. apply validate_spec. Qed.

(** ** Witnesses *)
Definition sample_xorb_file : list byte := xb_data (unwrap_or sample_build (mkBuildResult [] hash_default [] 0 0)).
Definition sample_info : VerifiedXorbInfo :=
  unwrap_or (@verify_xorb_from_file_with_info Model.blake3 Model.hex Model.reads sample_xorb_file)
    (mkVerifiedXorb hash_default 0 0 [] 0 0).
Definition sample_files_builder : ShardBuilder.ShardBuilder :=
  ShardBuilder.add_file
    (fst (unwrap_or
      (ShardBuilder.add_xorb_with_raw_chunk_hashes ShardBuilder.shard_builder_new (vx_xorb_hash sample_info)
        (total_unpacked_bytes sample_info) (total_compressed_payload_bytes sample_info)
        (map (fun v => ShardBuilder.mkChunkBuild (serialized_chunk_hash v) (serialized_start v) (unpacked_len v)) (vx_chunks sample_info))
        (map (@compute_data_hash Model.blake3) sample_datas)) (ShardBuilder.shard_builder_new, 0)))
    (@compute_data_hash Model.blake3 (concat sample_datas)) [ShardBuilder.mkSegment (vx_xorb_hash sample_info) 0 0 3 28].
Definition sample_buf : list byte := unwrap_or (@ShardBuilder.build Model.blake3 Model.hex sample_files_builder) [].
Definition sample_parsed : MDBShardFile :=
  unwrap_or (@parse Model.blake3 Model.hex sample_buf) (mkShardFile shard_header_default sample_footer [] [] [] [] [] [] [] "").

Definition constant_view (data : list byte) : StorageView := mkView (fun _ _ => Ok None) (fun _ _ => Ok data).

Lemma constant_view_wf data : len data < 2 ^ 64 -> view_wf (constant_view data).
Proof. intros Hl key attempt. cbn. split; [by split|]. split; [done|]. by intros ? [= <-]. Qed.

Definition sample_validated : VerifiedShardRegistration :=
  unwrap_or (@validate_shard_for_index Model.blake3 Model.hex Model.sha2 Model.lz4 Model.reads "s" sample_parsed
    (constant_view sample_xorb_file)) (mkRegistration "" [] []).

Lemma validated_shard_is_true_witness :
  @validate_shard_for_index Model.blake3 Model.hex Model.sha2 Model.lz4 Model.reads "s" sample_parsed
    (constant_view sample_xorb_file) = Ok sample_validated /\
  map vf_file_size (vr_files sample_validated) = [28] /\ length (vr_chunks sample_validated) = 3%nat /\
  forall c, c ∈ vr_chunks sample_validated -> exists raw ps,
    @stored_xorb Model.blake3 Model.hex (constant_view sample_xorb_file) (vm_xorb_hash c) ps /\
    @chunk_content Model.lz4 ps (vm_chunk_index c) raw /\ @compute_data_hash Model.blake3 raw = vm_chunk_hash c.
Proof.
  assert (@validate_shard_for_index Model.blake3 Model.hex Model.sha2 Model.lz4 Model.reads "s" sample_parsed
    (constant_view sample_xorb_file) = Ok sample_validated) as Ev by (vm_compute; reflexivity).
  assert (@parse Model.blake3 Model.hex sample_buf = Ok sample_parsed) as Hp by (vm_compute; reflexivity).
  assert (len sample_buf < 2 ^ 64) as Hl by (vm_compute; reflexivity).
  assert (len sample_xorb_file < 2 ^ 64) as Hx by (vm_compute; reflexivity).
  split; [exact Ev|]. split; [vm_compute; reflexivity|]. split; [vm_compute; reflexivity|].
  destruct (@validated_shard_is_true Model.blake3 Model.blake3_laws Model.hex Model.sha2 Model.sha2_laws
    Model.lz4 Model.lz4_laws Model.reads Model.reads_laws "s" sample_parsed (constant_view sample_xorb_file) (len sample_buf)
    (@parse_wf Model.blake3 Model.hex sample_buf sample_parsed Hl Hp) Hl (constant_view_wf sample_xorb_file Hx)) as [_ Hall].
  destruct (Hall sample_validated Ev) as (_ & _ & Hc). exact Hc.
Defined.
