(* ===== verification/Rebuild.v ===== *)
(** * Rebuilding the index at startup (src/index.rs, [rebuild_from_storage])

    The listing is the list of the items of the stream.  Each shard is fetched
    and validated by a task of its own; [views n] is what the [n]-th task
    observes of the storage, so any interleaving of the tasks of a batch is
    covered.  Registration happens in the main task, in the order of the batch. *)
From S2P Require Import Prelude Bytes Crates MerkleHash Hash Xorb XorbBuilder Shard ReconPlan Storage ShardIo Index ShardValidation.

Local Open Scope Z_scope.

(** What a spawned task returns; a panic of the task is an error of its handle. *)
Inductive join_error := TaskPanicked.

(** [str::strip_prefix] followed by [unwrap_or]. *)
Definition strip_prefix_or_self (prefix s : string) : string :=
  if String.prefix prefix s then String.substring (String.length prefix) (String.length s - String.length prefix) s else s.

Definition BATCH_SIZE : nat := 10.

(** What the rebuild reports: shards indexed, shards failed, listing failed. *)
Record rebuild_counts := mkCounts {
  total_count : nat;
  failure_count : nat;
  listing_failed : bool;
}.

(** Filling a batch: at most [n] keys, stopping at the end of the listing or at an error. *)
Fixpoint take_batch (n : nat) (items : list (StorageResult string)) : list string * list (StorageResult string) * bool :=
  match n with
  | O => ([], items, false)
  | S n' =>
      match items with
      | [] => ([], [], false)
      | Ok key :: items' => let '(batch, rest, failed) := take_batch n' items' in (key :: batch, rest, failed)
      | _ :: items' => ([], items', true)
      end
  end.

Section Rebuild.
Context `{Blake3, HexCrate, Sha2, Lz4, FileReads}.
Context (views : nat -> StorageView).

(** One spawned task. *)
Definition index_task (storage : StorageView) (key : string) : outcome join_error (option VerifiedShardRegistration) :=
  match parse_shard_from_storage storage key with
  | Ok shard =>
      let shard_id := strip_prefix_or_self "shards/" key in
      match validate_shard_for_index shard_id shard storage with
      | Ok registration => Ok (Some registration)
      | Err _ => Ok None
      | Panic => Err TaskPanicked
      end
  | Err _ => Ok None
  | Panic => Err TaskPanicked
  end.

(** Awaiting one handle. *)
Definition register_result (st : MetadataIndex * (nat * nat)) (result : outcome join_error (option VerifiedShardRegistration))
  : MetadataIndex * (nat * nat) :=
  let '(index, (total_count, failure_count)) := st in
  match result with
  | Ok (Some registration) =>
      let '(index, answer) := register_verified_shard index registration in
      match answer with
      | Ok _ => (index, (S total_count, failure_count))
      | _ => (index, (total_count, S failure_count))
      end
  | Ok None => (index, (total_count, S failure_count))
  | _ => (index, (total_count, S failure_count))
  end.

(** The loop over the batches; [spawned] counts the tasks so far. *)
Fixpoint rebuild_loop (fuel : nat) (items : list (StorageResult string)) (spawned : nat)
    (st : MetadataIndex * (nat * nat)) : option (MetadataIndex * rebuild_counts) :=
  match fuel with
  | O => None
  | S fuel' =>
      let '(batch, items, listing_failed) := take_batch BATCH_SIZE items in
      let finish '(index, (total, failures)) := Some (index, mkCounts total failures listing_failed) in
      if bool_decide (batch = []) then finish st
      else
        let handles := imap (fun i key => index_task (views (spawned + i)) key) batch in
        let st := fold_left register_result handles st in
        if listing_failed then finish st
        else rebuild_loop fuel' items (spawned + length batch) st
  end.

(** Fuel: every batch but the last consumes an item. *)
Definition rebuild_from_storage (index : MetadataIndex) (items : list (StorageResult string))
  : option (MetadataIndex * outcome rebuild_counts nat) :=
  match rebuild_loop (S (length items)) items 0 (index, (0%nat, 0%nat)) with
  | Some (index, counts) =>
      Some (index, if (0 <? failure_count counts)%nat || listing_failed counts then Err counts else Ok (total_count counts))
  | None => None
  end.
End Rebuild.

(** ** Specification: one shard after the other *)

(** The keys listed before the first error. *)
Fixpoint listed (items : list (StorageResult string)) : list string :=
  match items with
  | Ok key :: items' => key :: listed items'
  | _ => []
  end.
Definition listing_ok (items : list (StorageResult string)) : bool := forallb is_ok items.

Section Spec.
Context `{Blake3, HexCrate, Sha2, Lz4, FileReads}.
Context (views : nat -> StorageView).

Definition results (items : list (StorageResult string)) : list (outcome join_error (option VerifiedShardRegistration)) :=
  imap (fun i key => index_task (views i) key) (listed items).

(** The registrations that the tasks produced. *)
Definition registrations (rs : list (outcome join_error (option VerifiedShardRegistration))) : list VerifiedShardRegistration :=
  omap (fun r => match r with Ok (Some registration) => Some registration | _ => None end) rs.
End Spec.

(** ** Lemmas *)

Lemma take_batch_spec n items :
  let '(batch, rest, failed) := take_batch n items in
  listed items = batch ++ (if failed then [] else listed rest) /\
  (length batch + length rest <= length items)%nat /\
  (failed = true -> listing_ok items = false) /\
  (failed = false -> listing_ok items = listing_ok rest) /\
  (batch = [] -> (0 < n)%nat -> failed = false -> items = [] /\ rest = []).
Proof.
  revert items. induction n as [|n IH]; intros items; cbn [take_batch].
  - cbn. split; [done|]. split; [lia|]. split; [done|]. split; [done|]. intros _ Hn. lia.
  - destruct items as [|[key|e|] items]; cbn.
    + split; [done|]. split; [lia|]. done.
    + specialize (IH items). destruct (take_batch n items) as [[batch rest] failed].
      destruct IH as (-> & Hl & Hf & Ho & _). cbn. split; [done|]. split; [lia|]. split; [done|]. split; [done|]. done.
    + split; [done|]. split; [lia|]. done.
    + split; [done|]. split; [lia|]. done.
Qed.

Section RebuildLemmas.
Context `{Blake3, HexCrate, Sha2, Lz4, FileReads}.
Context (views : nat -> StorageView).

Lemma rebuild_loop_spec fuel : forall items spawned st,
  (length items < fuel)%nat ->
  rebuild_loop views fuel items spawned st =
  let '(index, (total, failures)) :=
    fold_left register_result (imap (fun i key => index_task (views (spawned + i)) key) (listed items)) st in
  Some (index, mkCounts total failures (negb (listing_ok items))).
Proof.
  induction fuel as [|fuel IH]; intros items spawned st Hf; [lia|]. cbn [rebuild_loop].
  pose proof (take_batch_spec BATCH_SIZE items) as Hb. destruct (take_batch BATCH_SIZE items) as [[batch rest] failed].
  destruct Hb as (Hl & Hlen & Hfail & Hok & Hempty). rewrite Hl.
  destruct (decide (batch = [])) as [->|Hne]; [rewrite bool_decide_true by done|rewrite bool_decide_false by done].
  - destruct failed.
    + rewrite Hfail by done. by destruct st as [index [total failures]].
    + destruct (Hempty eq_refl ltac:(unfold BATCH_SIZE; lia) eq_refl) as [-> ->]. by destruct st as [index [total failures]].
  - destruct failed.
    + rewrite app_nil_r, Hfail by done. by destruct (fold_left _ _ st) as [index [total failures]].
    + rewrite IH.
      2: { assert (0 < length batch)%nat by (destruct batch; [done|cbn; lia]). lia. }
      rewrite imap_app, fold_left_app, Hok by done.
      rewrite (imap_ext (fun i key => index_task (views (spawned + length batch + i)) key)
        ((fun i key => index_task (views (spawned + i)) key) ∘ Nat.add (length batch)))
        by (intros i key _; cbn; do 2 f_equal; lia). done.
Qed.
End RebuildLemmas.

(** Awaiting results on top of a log: [k] are the registrations accepted. *)
Definition awaited (rs : list (outcome join_error (option VerifiedShardRegistration))) (log k : list VerifiedShardRegistration)
    (total failures total' failures' : nat) (index' : MetadataIndex) : Prop :=
  (exists answers, accepts log (registrations rs) answers (log ++ k)) /\ represents index' (log ++ k) /\
  (forall r, r ∈ k -> Ok (Some r) ∈ rs) /\ (length k <= length rs)%nat /\
  total' = (total + length k)%nat /\ (total' + failures' = total + failures + length rs)%nat /\
  (failures' = failures -> rs = map (fun r => Ok (Some r)) k).

Lemma awaited_skip r rs log k total failures total' failures' index' :
  (forall reg, r <> Ok (Some reg)) -> awaited rs log k total (S failures) total' failures' index' ->
  awaited (r :: rs) log k total failures total' failures' index'.
Proof.
  intros Hr ((answers & Ha) & Hrep & Hin & Hl & Ht & Hs & _). split; [|split; [done|]].
  - exists answers. by destruct r as [[reg|]| |]; [destruct (Hr reg)|..].
  - split; [set_solver|]. cbn. split; [lia|]. split; [done|]. split; [lia|]. intros ->. lia.
Qed.

Lemma register_results_spec rs : forall index total failures log,
  represents index log ->
  let '(index', (total', failures')) := fold_left register_result rs (index, (total, failures)) in
  exists k, awaited rs log k total failures total' failures' index'.
Proof.
  induction rs as [|r rs IH]; intros index total failures log Hr; cbn [fold_left].
  - exists []. unfold awaited. rewrite app_nil_r. split; [exists []; constructor|]. split; [done|]. split; [set_solver|].
    cbn. split; [lia|]. split; [lia|]. split; [lia|done].
  - assert ((forall reg, r <> Ok (Some reg)) -> register_result (index, (total, failures)) r = (index, (total, S failures))) as Hskip.
    { intros Hne. destruct r as [[reg|]| |]; [by destruct (Hne reg)|done..]. }
    destruct r as [[reg|]| |].
    2-4: rewrite Hskip by done; specialize (IH index total (S failures) log Hr);
      destruct (fold_left _ rs _) as [index' [total' failures']]; destruct IH as [k Hk]; exists k; by apply awaited_skip.
    cbn [register_result]. pose proof (register_refines_log index log reg Hr) as Hs.
    destruct (register_verified_shard index reg) as [index1 answer]. destruct answer as [[]|e|]; [| |done].
    + destruct Hs as [Hag Hr1]. specialize (IH index1 (S total) failures (log ++ [reg]) Hr1).
      destruct (fold_left _ rs _) as [index' [total' failures']].
      destruct IH as (k & (answers & Ha) & Hrep & Hin & Hl & Ht & Hsum & Hall). exists (reg :: k).
      rewrite <- app_assoc in *. cbn [app] in *. split; [exists (Ok tt :: answers); cbn; by constructor|]. split; [done|].
      split; [set_solver|]. cbn. split; [lia|]. split; [lia|]. split; [lia|]. intros Hf. by rewrite (Hall Hf) at 1.
    + destruct Hs as [Hag ->]. specialize (IH index total (S failures) log Hr).
      destruct (fold_left _ rs _) as [index' [total' failures']].
      destruct IH as (k & (answers & Ha) & Hrep & Hin & Hl & Ht & Hsum & Hall). exists k.
      split; [exists (Err e :: answers); cbn; by constructor|]. split; [done|]. split; [set_solver|]. cbn.
      split; [lia|]. split; [lia|]. split; [lia|]. intros ->. lia.
Qed.

Section RebuildSpec.
Context `{Blake3Laws, HexCrate, Sha2Laws, Lz4Laws, FileReadsLaws}.

(** The result of a rebuild in terms of the tasks' results. *)
Lemma rebuild_spec views items :
  exists index' counts k,
    rebuild_from_storage views index_new items =
      Some (index', if (0 <? failure_count counts)%nat || listing_failed counts then Err counts else Ok (total_count counts)) /\
    awaited (results views items) [] k 0 0 (total_count counts) (failure_count counts) index' /\
    listing_failed counts = negb (listing_ok items).
Proof.
  unfold rebuild_from_storage. rewrite rebuild_loop_spec by lia.
  pose proof (register_results_spec (results views items) index_new 0 0 [] represents_new) as Hs.
  unfold results in *. cbn [Nat.add]. destruct (fold_left _ _ _) as [index' [total failures]]. destruct Hs as [k Hk].
  exists index', (mkCounts total failures (negb (listing_ok items))), k. done.
Qed.

Lemma length_results views items : length (results views items) = length (listed items).
Proof. unfold results. by rewrite length_imap. Qed.

Lemma results_task views items r :
  r ∈ results views items -> exists i key, listed items !! i = Some key /\ r = index_task (views i) key.
Proof.
  intros Hr. apply list_elem_of_lookup in Hr as [i Hi]. unfold results in Hi. rewrite list_lookup_imap in Hi.
  destruct (listed items !! i) as [key|] eqn:E; [|done]. injection Hi as <-. eauto.
Qed.

(** What a registration that passed validation says is true of the storage. *)
Lemma validated_true shard_id shard storage n reg :
  shard_wf n shard -> n < 2 ^ 64 -> view_wf storage -> validate_shard_for_index shard_id shard storage = Ok reg ->
  vr_shard_id reg = shard_id /\
  (forall c, c ∈ vr_chunks reg -> exists raw ps, stored_xorb storage (vm_xorb_hash c) ps /\
     chunk_content ps (vm_chunk_index c) raw /\ compute_data_hash raw = vm_chunk_hash c) /\
  (forall f, f ∈ vr_files reg -> exists raws, whole_file_hash (vf_file_hash f) raws /\ vf_file_size f = len (concat raws) /\
     Forall (fun raw => exists x ps i, stored_xorb storage x ps /\ chunk_content ps i raw) raws).
Proof.
  intros W Hl Hw Ev. destruct (proj2 (validate_spec _ shard storage n W Hl Hw) _ Ev) as (Hid & Hf & Hc). split; [done|]. split; [done|].
  intros f Hin. apply list_elem_of_lookup in Hin as [i Hi].
  eapply Forall2_lookup_r in Hf as ((j & h) & _ & plan & raws & _ & Hr & Hh & _ & ->); [|exact Hi]. cbn.
  exists raws. split; [done|]. split; [done|]. unfold rebuilt in Hr.
  clear -Hr. induction Hr as [|c raw cs raws (ps & ? & ? & _)]; constructor; eauto.
Qed.

Lemma index_task_ok storage key reg :
  view_wf storage -> index_task storage key = Ok (Some reg) ->
  (forall c, c ∈ vr_chunks reg -> exists raw ps, stored_xorb storage (vm_xorb_hash c) ps /\
     chunk_content ps (vm_chunk_index c) raw /\ compute_data_hash raw = vm_chunk_hash c) /\
  (forall f, f ∈ vr_files reg -> exists raws, whole_file_hash (vf_file_hash f) raws /\ vf_file_size f = len (concat raws) /\
     Forall (fun raw => exists x ps i, stored_xorb storage x ps /\ chunk_content ps i raw) raws).
Proof.
  intros Hw. unfold index_task. destruct (parse_shard_from_storage storage key) as [shard| |] eqn:Ep; [|done..].
  unfold parse_shard_from_storage in Ep. apply with_retries_Ok in Ep as [attempt Ep].
  apply parse_once_Ok in Ep as (file & Hst & Hp).
  pose proof (stored_small storage key file Hw Hst) as Hl. pose proof (parse_wf file shard Hl Hp) as W.
  destruct (validate_shard_for_index _ shard storage) as [reg'| |] eqn:Ev; [|done..]. intros [= <-].
  by destruct (validated_true _ shard storage (len file) _ W Hl Hw Ev) as (_ & ?).
Qed.
End RebuildSpec.

(** ** Properties *)

(** A rebuild in batches of concurrent tasks is the registration of the
    listed shards one after the other: it always ends, the index is the view
    of the registrations that were accepted, and it succeeds with [n] exactly
    when the whole listing was read and all [n] listed shards were fetched,
    validated and accepted; otherwise it reports how many were and how many
    were not, and every listed shard is counted once. *)
Theorem rebuild_is_sequential `{Blake3, HexCrate, Sha2, Lz4, FileReads} views items :
  exists index' answer log,
    rebuild_from_storage views index_new items = Some (index', answer) /\
    (exists answers, accepts [] (registrations (results views items)) answers log) /\ represents index' log /\
    match answer with
    | Ok n => listing_ok items = true /\ results views items = map (fun r => Ok (Some r)) log /\ n = length log
    | Err counts => total_count counts = length log /\
        (total_count counts + failure_count counts = length (listed items))%nat /\
        listing_failed counts = negb (listing_ok items) /\ (listing_ok items = true -> (0 < failure_count counts)%nat)
    | Panic => False
    end.
Proof.
  destruct (rebuild_spec views items) as (index' & counts & k & -> & (Ha & Hr & _ & _ & Ht & Hs & Hall) & Hlf).
  cbn [app Nat.add] in *. rewrite length_results in Hs. eexists _, _, k. split; [done|]. split; [done|]. split; [done|]. rewrite Hlf.
  destruct (Nat.ltb_spec 0 (failure_count counts)); cbn [orb].
  - done.
  - destruct (listing_ok items); cbn [negb].
    + split; [done|]. split; [apply Hall; lia|done].
    + split; [done|]. split; [lia|]. split; [by rewrite Hlf|done].
Qed.

(** C26: Whatever the storage holds, everything a rebuilt index answers is true
    of it: a chunk is found in a stored xorb and has the hash that was asked
    for, and a file with a size has content of that size, made of chunks of
    stored xorbs, with one of the supported forms of its hash. *)
Theorem rebuilt_index_is_true `{Blake3Laws, HexCrate, Sha2Laws, Lz4Laws, FileReadsLaws} views items index' answer h :
  (forall n, view_wf (views n)) -> rebuild_from_storage views index_new items = Some (index', answer) ->
  (forall x i, get_xorb_for_chunk index' h = Some (x, i) ->
     exists n raw ps, stored_xorb (views n) x ps /\ chunk_content ps i raw /\ compute_data_hash raw = h) /\
  (forall size, get_file_size index' h = Some size ->
     exists n raws, whole_file_hash h raws /\ size = len (concat raws) /\
       Forall (fun raw => exists x ps i, stored_xorb (views n) x ps /\ chunk_content ps i raw) raws).
Proof.
  intros Hw E. destruct (rebuild_spec views items) as (index1 & counts & k & E' & (_ & Hr & Hin & _) & _).
  rewrite E' in E. injection E as -> _. clear E' answer.
  assert (forall reg, reg ∈ k -> exists n key, index_task (views n) key = Ok (Some reg)) as Htask.
  { intros reg Hreg%Hin. apply results_task in Hreg as (i & key & _ & Et). eauto. }
  cbn [app] in Hr. split.
  - intros x i Hx. destruct Hr as (_ & _ & Hc). rewrite Hc in Hx. unfold last_chunk in Hx.
    apply fmap_Some in Hx as (c & Hl & [= -> ->]). apply last_Some_elem_of, list_elem_of_filter in Hl as [<- Hl].
    apply list_elem_of_In, in_concat in Hl as (cs & Hcs & Hl). apply list_elem_of_In, elem_of_map in Hcs as (reg & <- & Hreg).
    apply list_elem_of_In in Hl. destruct (Htask reg Hreg) as (n & key & Et).
    destruct (proj1 (index_task_ok _ _ _ (Hw n) Et) c Hl) as (raw & ps & ?). exists n, raw, ps. done.
  - intros size Hs. pose proof (represented_size index' k h Hr) as Hrs. rewrite Hs in Hrs.
    destruct Hrs as [(f & Hf & <-) Hall]. rewrite <- (Hall f Hf eq_refl).
    apply log_files_elem in Hf as (reg & Hreg & Hf). destruct (Htask reg Hreg) as (n & key & Et).
    destruct (proj2 (index_task_ok _ _ _ (Hw n) Et) f Hf) as (raws & ?). exists n, raws. done.
Qed.

(** ** Witnesses *)
Definition sample_view : StorageView := mkView (fun _ _ => Ok None)
  (fun key _ => Ok (if String.prefix "shards/" key then sample_buf else sample_xorb_file)).

Lemma sample_view_wf : view_wf sample_view.
Proof.
  intros key attempt. cbn. split; [by split|]. split; [done|]. intros data [= <-].
  destruct (String.prefix "shards/" key); vm_compute; reflexivity.
Qed.

Definition sample_items : list (StorageResult string) := [Ok "shards/one"; Ok "shards/two"].
Abbreviation sample_rebuild := (@rebuild_from_storage Model.blake3 Model.hex Model.sha2 Model.lz4 Model.reads
  (fun _ => sample_view) index_new sample_items).
Definition sample_content_hash : MerkleHash := @compute_data_hash Model.blake3 (concat sample_datas).

Lemma rebuilt_index_is_true_witness :
  exists index', sample_rebuild = Some (index', Ok 2%nat) /\ get_file_size index' sample_content_hash = Some 28 /\
    exists raws, @whole_file_hash Model.blake3 Model.hex Model.sha2 sample_content_hash raws /\ 28 = len (concat raws) /\
       Forall (fun raw => exists x ps i, @stored_xorb Model.blake3 Model.hex sample_view x ps /\ @chunk_content Model.lz4 ps i raw) raws.
Proof.
  assert ((fun r => (snd <$> r, (fun r => get_file_size (fst r) sample_content_hash) <$> r)) sample_rebuild =
    (Some (Ok 2%nat), Some (Some 28))) as E by (vm_compute; reflexivity).
  destruct sample_rebuild as [[index' answer]|] eqn:Er; [|discriminate].
  cbn [fmap option_fmap option_map fst snd] in E. injection E as -> Es. exists index'.
  split; [reflexivity|]. split; [exact Es|].
  destruct (@rebuilt_index_is_true Model.blake3 Model.blake3_laws Model.hex Model.sha2 Model.sha2_laws Model.lz4 Model.lz4_laws
    Model.reads Model.reads_laws (fun _ => sample_view) sample_items index' (Ok 2%nat) sample_content_hash
    (fun _ => sample_view_wf) Er) as [_ Hs].
  destruct (Hs 28 Es) as (n & raws & Hr). exists raws. exact Hr.
Defined.
