(* ===== verification/Reconstruction.v ===== *)
(** * Rebuilding a file (src/reconstruction_io.rs)

    The temporary output file is its content.  Failures of the local
    temporary directory are not modelled, so [TempIo] only comes from the
    storage quota.  An error is the literal text of its message. *)
From S2P Require Import Prelude Bytes Crates MerkleHash Hash Compression Xorb XorbBuilder Shard ReconPlan Storage ShardIo Index ShardValidation Rebuild.

Local Open Scope Z_scope.

Inductive ReconstructionError :=
| RecInvalidInput (msg : string)
| RecStale (msg : string)
| RecStorage (msg : string)
| RecTempIo (msg : string)
| RecParse (msg : string)
| RecIntegrity (msg : string).

Definition is_stale (e : ReconstructionError) : bool :=
  match e with RecStale _ => true | _ => false end.

Record VerifiedReconstruction := mkReconstruction {
  rec_content : list byte;
  rec_size : Z;
}.

Definition map_storage_error (key : string) (error : StorageError) : ReconstructionError :=
  match error with
  | NotFound _ => RecStale ("missing " +:+ key)
  | Internal message => RecStorage (key +:+ ": " +:+ message)
  | InvalidArgument e => RecStorage (key +:+ ": " +:+ e)
  | Quota => RecTempIo "temporary storage unavailable"
  end.

(** The locals of the loop over the planned chunks. *)
Record rec_state `{Blake3, Sha2} := mkRecState {
  rs_xorb_cache : gmap MerkleHash (list byte);
  rs_output : list byte;
  rs_sha : sha256_hasher;
  rs_blake3 : StreamingHasher;
  rs_chunk_nodes : list node;
  rs_total_size : Z;
}.

Section Reconstruct.
Context `{Blake3, HexCrate, Sha2, Lz4, FileReads}.

Definition fetch_shard (shard_id : string) (storage : StorageView) : outcome ReconstructionError MDBShardFile :=
  let key := "shards/" +:+ shard_id in
  match parse_shard_from_storage storage key with
  | Ok shard => Ok shard
  | Err (ShardStorage _ source) => Err (map_storage_error key source)
  | Err (ShardParse _ (IoError NotFoundIo)) => Err (RecStale ("missing " +:+ key))
  | Err (ShardParse _ _) => Err (RecParse ("failed to parse shard " +:+ shard_id))
  | Err (TempIo message) => Err (RecTempIo message)
  | Err (ParseTask _ message) => Err (RecParse message)
  | Panic => Panic
  end.

Definition cached_xorb_guard (xorb_cache : gmap MerkleHash (list byte)) (xorb_hash : MerkleHash)
  : outcome ReconstructionError (list byte) :=
  ok_or (xorb_cache !! xorb_hash) (RecIntegrity "xorb was not present in reconstruction cache").

(** The rest of the loop body, once the xorb file is open. *)
Definition append_chunk (st : rec_state) (xorb_cache : gmap MerkleHash (list byte)) (xorb_file : list byte)
    (planned : PlannedChunk) : outcome ReconstructionError rec_state :=
  let* bytes := map_err RecIntegrity
    (extract_chunk_verified_from_file xorb_file (pc_chunk_byte_range_start planned)
       (pc_unpacked_segment_bytes planned) (pc_serialized_chunk_hash planned)) in
  let raw_hash := compute_data_hash bytes in
  ensure bool_decide (raw_hash = pc_raw_chunk_hash planned) else (RecIntegrity "raw chunk hash mismatch") in
  Ok (mkRecState _ _ xorb_cache (rs_output st ++ bytes) (sha256_update (rs_sha st) bytes) (streaming_update (rs_blake3 st) bytes)
        (rs_chunk_nodes st ++ [(raw_hash, len bytes)]) (as_u64 (rs_total_size st + len bytes))).

Definition reconstruct_chunk (storage : StorageView) (st : rec_state) (planned : PlannedChunk)
  : outcome ReconstructionError rec_state :=
  let* xorb_cache :=
    match rs_xorb_cache st !! pc_xorb_hash planned with
    | Some _ => Ok (rs_xorb_cache st)
    | None =>
        let key := "xorbs/" +:+ to_hex (pc_xorb_hash planned) in
        let* guard := map_err (map_storage_error key) (download_to_path_with_retries storage key) in
        Ok (<[pc_xorb_hash planned := guard]> (rs_xorb_cache st))
    end in
  let* xorb_file := cached_xorb_guard xorb_cache (pc_xorb_hash planned) in
  append_chunk st xorb_cache xorb_file planned.

Definition reconstruct_single_file_ref_to_temp (canonical_file_id : string) (target_hash : MerkleHash)
    (file_ref : FileShardRef) (storage : StorageView) : outcome ReconstructionError VerifiedReconstruction :=
  let* shard := fetch_shard (fr_shard_id file_ref) storage in
  let* plan := map_err (fun _ => RecIntegrity "plan")
    (build_file_chunk_plan shard target_hash (Some (fr_file_index file_ref))) in
  let* st := fold_outcome (reconstruct_chunk storage) (mkRecState _ _ ∅ [] sha256_new streaming_new [] 0) (pf_chunks plan) in
  let sha_hex := hex_encode (sha256_finalize (rs_sha st)) in
  let blake3_hex := to_hex (streaming_finalize (rs_blake3 st)) in
  let xet_file_hash := to_hex (file_hash (rs_chunk_nodes st)) in
  ensure negb (negb (canonical_file_id =? sha_hex)%string && negb (canonical_file_id =? blake3_hex)%string &&
               negb (canonical_file_id =? xet_file_hash)%string)
    else (RecIntegrity "reconstructed file hash mismatch") in
  Ok (mkReconstruction (rs_output st) (rs_total_size st)).

(** The loop over the references; the third argument is [first_non_stale_error]. *)
Fixpoint try_file_refs (canonical_file_id : string) (target_hash : MerkleHash) (first_non_stale_error : option ReconstructionError)
    (storage : StorageView) (file_refs : list FileShardRef) : outcome ReconstructionError VerifiedReconstruction :=
  match file_refs with
  | [] => Err (default (RecStale "no verified shard reference could reconstruct") first_non_stale_error)
  | file_ref :: file_refs' =>
      match reconstruct_single_file_ref_to_temp canonical_file_id target_hash file_ref storage with
      | Ok reconstruction => Ok reconstruction
      | Err e =>
          let first_non_stale_error :=
            if is_stale e then first_non_stale_error
            else match first_non_stale_error with None => Some e | Some _ => first_non_stale_error end in
          try_file_refs canonical_file_id target_hash first_non_stale_error storage file_refs'
      | Panic => Panic
      end
  end.

Definition reconstruct_verified_file_to_temp (file_id : string) (file_refs : list FileShardRef) (storage : StorageView)
  : outcome ReconstructionError VerifiedReconstruction :=
  let* target_hash := map_err (fun _ => RecInvalidInput "invalid file id") (from_hex file_id) in
  let canonical_file_id := to_hex target_hash in
  try_file_refs canonical_file_id target_hash None storage file_refs.
End Reconstruct.

(** ** Lemmas *)

Lemma data_hash_wf `{Blake3} data : hash_wf (compute_data_hash data).
Proof. apply from_bytes_wf. Qed.

Lemma file_hash_wf `{Blake3, HexCrate} nodes : hash_wf (file_hash nodes).
Proof. destruct nodes; [apply hash_default_wf|apply from_bytes_wf]. Qed.

Section ReconLemmas.
Context `{Blake3Laws, HexLaws, Sha2Laws, Lz4Laws, FileReadsLaws}.
Context (storage : StorageView) (Hview : view_wf storage).

(** What the loop computes from the contents of the chunks. *)
Definition rec_after (st : rec_state) (cache : gmap MerkleHash (list byte)) (raws : list (list byte)) : rec_state :=
  mkRecState _ _ cache (rs_output st ++ concat raws) (fold_left sha256_update raws (rs_sha st))
    (fold_left streaming_update raws (rs_blake3 st))
    (rs_chunk_nodes st ++ map (fun raw => (compute_data_hash raw, len raw)) raws)
    (fold_left (fun acc raw => as_u64 (acc + len raw)) raws (rs_total_size st)).

Definition chunk_ranges_ok (c : PlannedChunk) : Prop := 0 <= pc_chunk_byte_range_start c /\ 0 <= pc_unpacked_segment_bytes c.
Definition chunk_bytes_ok (c : PlannedChunk) (raw : list byte) : Prop :=
  compute_data_hash raw = pc_raw_chunk_hash c /\ len raw = pc_unpacked_segment_bytes c.

Lemma append_chunk_sound st cache file c :
  chunk_ranges_ok c ->
  append_chunk st cache file c <> Panic /\
  forall st', append_chunk st cache file c = Ok st' -> exists raw, st' = rec_after st cache [raw] /\ chunk_bytes_ok c raw.
Proof.
  intros [Hs Hu]. unfold append_chunk, chunk_bytes_ok.
  destruct (extract_sound file (pc_chunk_byte_range_start c) (pc_unpacked_segment_bytes c)
    (pc_serialized_chunk_hash c) Hs Hu) as [Hnp Hok].
  destruct (extract_chunk_verified_from_file _ _ _ _) as [raw| |]; cbn [map_err]; [|done..]. cbn zeta.
  case_bool_decide; [|done]. split; [done|]. intros st' [= <-]. exists raw. unfold rec_after. cbn [concat fold_left map].
  rewrite app_nil_r. split; [done|]. split; [done|]. by apply Hok.
Qed.

Lemma reconstruct_chunk_sound st c :
  chunk_ranges_ok c ->
  reconstruct_chunk storage st c <> Panic /\
  forall st', reconstruct_chunk storage st c = Ok st' ->
    exists cache raw, st' = rec_after st cache [raw] /\ chunk_bytes_ok c raw.
Proof.
  intros Hc. unfold reconstruct_chunk, cached_xorb_guard. destruct (rs_xorb_cache st !! pc_xorb_hash c) as [file|] eqn:Ec.
  - rewrite Ec. cbn [ok_or]. destruct (append_chunk_sound st (rs_xorb_cache st) file c Hc) as [Hnp Hok].
    split; [done|]. intros st' (raw & ?)%Hok. by exists (rs_xorb_cache st), raw.
  - destruct (download_to_path_with_retries storage _) as [file| |] eqn:Ed; cbn [map_err]; [|done|].
    2: { exfalso. revert Ed. apply with_retries_not_panic. intros n. apply (Hview _ n). }
    rewrite lookup_insert_eq. cbn [ok_or].
    destruct (append_chunk_sound st (<[pc_xorb_hash c:=file]> (rs_xorb_cache st)) file c Hc) as [Hnp Hok].
    split; [done|]. intros st' (raw & ?)%Hok. by eexists _, raw.
Qed.

Lemma rec_after_app st cache cache' raw raws :
  rec_after (rec_after st cache [raw]) cache' raws = rec_after st cache' (raw :: raws).
Proof. unfold rec_after. cbn. by rewrite !app_nil_r, <- !app_assoc. Qed.

Lemma reconstruct_chunks_sound cs : forall st,
  Forall chunk_ranges_ok cs ->
  fold_outcome (reconstruct_chunk storage) st cs <> Panic /\
  forall st', fold_outcome (reconstruct_chunk storage) st cs = Ok st' ->
    exists cache raws, st' = rec_after st cache raws /\ Forall2 chunk_bytes_ok cs raws.
Proof.
  induction cs as [|c cs IH]; intros st Hcs; cbn [fold_outcome].
  - split; [done|]. intros st' [= <-]. exists (rs_xorb_cache st), []. split; [|constructor].
    unfold rec_after. cbn. rewrite !app_nil_r. by destruct st.
  - apply Forall_cons in Hcs as [Hc Hcs]. destruct (reconstruct_chunk_sound st c Hc) as [Hnp Hok].
    destruct (reconstruct_chunk _ _ _) as [st1| |]; [|done..]. destruct (Hok _ eq_refl) as (cache & raw & -> & Hr).
    destruct (IH (rec_after st cache [raw]) Hcs) as [Hnp' Hok']. split; [done|]. intros st' E.
    destruct (Hok' st' E) as (cache' & raws & -> & Hrs). exists cache', (raw :: raws). rewrite rec_after_app.
    split; [done|]. by constructor.
Qed.

Lemma total_size_fold (raws : list (list byte)) acc :
  0 <= acc -> acc + len (concat raws) <= u64_max ->
  fold_left (fun acc raw => as_u64 (acc + len raw)) raws acc = acc + len (concat raws).
Proof.
  revert acc. induction raws as [|raw raws IH]; intros acc Ha Hm; cbn [fold_left concat] in *.
  - change (len (@nil byte)) with 0. lia.
  - rewrite len_app in *. pose proof (len_nonneg raw). pose proof (len_nonneg (concat raws)). unfold u64_max in *.
    rewrite IH; unfold as_u64; rewrite Z.mod_small; lia.
Qed.

(** A plan of a parsed shard has ranges in range and a total that fits. *)
Lemma plan_ranges n shard h expected plan :
  shard_wf n shard -> n < 2 ^ 64 -> build_file_chunk_plan shard h expected = Ok plan ->
  Forall chunk_ranges_ok (pf_chunks plan) /\ sum_by pc_unpacked_segment_bytes (pf_chunks plan) = pf_total_unpacked_bytes plan /\
  pf_total_unpacked_bytes plan <= u64_max.
Proof.
  intros W Hn Ep. destruct (shard_wf_groups n shard W) as (fgs & xgs & Hg).
  destruct (proj1 (proj2 (plan_iff shard n fgs xgs h expected W Hn Hg) plan) Ep) as (Hnd & _ & _ & fe & segs & css & _ & Hcss & Hm & Eplan).
  rewrite Eplan. cbn [pf_chunks pf_total_unpacked_bytes]. clear Eplan. destruct W as (_ & _ & _ & _ & _ & _ & _ & Wxe & _).
  split; [|split; [|done]].
  - clear -Hnd Hcss Hg Wxe. induction Hcss as [|seg cs segs css (_ & _ & Hcs & _) _ IH]; [constructor|].
    cbn [concat]. apply Forall_app_2; [|done]. clear -Hnd Hcs Hg Wxe. induction Hcs as [|i c is_ cs Hp]; constructor; [|done].
    by apply (planned_ranges shard fgs xgs Hg Wxe _ _ _ Hp).
  - clear -Hcss. induction Hcss as [|seg cs segs css (_ & _ & _ & Hs) _ IH]; [done|]. cbn [concat].
    unfold sum_by in *. cbn [foldr]. rewrite <- Hs, <- IH. clear. induction cs; cbn [app foldr]; lia.
Qed.
End ReconLemmas.

Section ReconSound.
Context `{Blake3Laws, HexLaws, Sha2Laws, Lz4Laws, FileReadsLaws}.

(** The final comparison, made on hex strings, is on hashes. *)
Lemma hash_check_iff h raws :
  hash_wf h ->
  (to_hex h = hex_encode (sha256_digest (concat raws)) \/ to_hex h = to_hex (compute_data_hash (concat raws)) \/
   to_hex h = to_hex (file_hash (map (fun raw => (compute_data_hash raw, len raw)) raws))) <-> whole_file_hash h raws.
Proof.
  intros W. unfold whole_file_hash. split.
  - intros [E|[E|E]]; [by left|right; left|right; right]; apply to_hex_inj in E; auto using data_hash_wf, file_hash_wf.
  - intros [E|[->|E]]; [by left|by right; left|right; right; by rewrite E].
Qed.

Lemma three_checks (a b c d : string) :
  negb (negb (a =? b)%string && negb (a =? c)%string && negb (a =? d)%string) = true <-> a = b \/ a = c \/ a = d.
Proof.
  rewrite negb_true_iff, !andb_false_iff, !negb_false_iff, !String.eqb_eq. tauto.
Qed.

Lemma fetch_shard_ok storage shard_id shard :
  view_wf storage -> fetch_shard shard_id storage = Ok shard ->
  exists file, len file < 2 ^ 64 /\ parse file = Ok shard /\ shard_wf (len file) shard.
Proof.
  intros Hw. unfold fetch_shard.
  destruct (parse_shard_from_storage storage _) as [s|e|] eqn:Ep; [|by destruct e as [| |? [| | | |[]]|]|done].
  intros [= <-]. unfold parse_shard_from_storage in Ep. apply with_retries_Ok in Ep as [attempt Ep].
  apply parse_once_Ok in Ep as (file & Hst & Hp). exists file. pose proof (stored_small _ _ _ Hw Hst).
  split; [done|]. split; [done|]. by apply parse_wf.
Qed.

Lemma fetch_shard_not_panic storage shard_id : view_wf storage -> fetch_shard shard_id storage <> Panic.
Proof.
  intros Hw. unfold fetch_shard.
  pose proof (with_retries_not_panic (parse_shard_once storage ("shards/" +:+ shard_id)) is_retryable_shard_fetch_error
    (fun n => parse_once_not_panic _ _ n Hw)) as Hp. fold (parse_shard_from_storage storage ("shards/" +:+ shard_id)) in Hp.
  destruct (parse_shard_from_storage storage _) as [s|e|]; [done|by destruct e as [| |? [| | | |[]]|]|done].
Qed.

Lemma single_sound storage h file_ref :
  view_wf storage -> hash_wf h ->
  reconstruct_single_file_ref_to_temp (to_hex h) h file_ref storage <> Panic /\
  forall r, reconstruct_single_file_ref_to_temp (to_hex h) h file_ref storage = Ok r ->
    exists raws, rec_content r = concat raws /\ rec_size r = len (concat raws) /\ whole_file_hash h raws.
Proof.
  intros Hw W. unfold reconstruct_single_file_ref_to_temp.
  pose proof (fetch_shard_not_panic storage (fr_shard_id file_ref) Hw) as Hnp.
  destruct (fetch_shard _ _) as [shard| |] eqn:Ef; [|done..]. apply fetch_shard_ok in Ef as (file & Hl & Hp & Ws); [|done].
  destruct (shard_wf_groups _ shard Ws) as (fgs & xgs & Hg).
  destruct (plan_iff shard (len file) fgs xgs h (Some (fr_file_index file_ref)) Ws Hl Hg) as [Hnpp _].
  destruct (build_file_chunk_plan _ _ _) as [plan| |] eqn:Ep; cbn [map_err]; [|done..].
  destruct (plan_ranges _ _ _ _ _ Ws Hl Ep) as (Hr & Hsum & Hm).
  destruct (reconstruct_chunks_sound storage Hw (pf_chunks plan) (mkRecState _ _ ∅ [] sha256_new streaming_new [] 0) Hr) as [Hnpc Hok].
  destruct (fold_outcome _ _ _) as [st| |]; [|done..]. destruct (Hok _ eq_refl) as (cache & raws & -> & Hraws).
  assert (len (concat raws) = sum_by pc_unpacked_segment_bytes (pf_chunks plan)) as Hlen.
  { clear -Hraws. induction Hraws as [|c raw cs raws [_ Hl] _ IH]; [done|]. cbn [concat]. unfold sum_by in *. cbn [foldr].
    rewrite len_app. lia. }
  cbn [rec_after rs_sha rs_blake3 rs_chunk_nodes rs_output rs_total_size app].
  rewrite sha256_streaming, streaming_fold, total_size_fold by lia.
  destruct (negb _) eqn:Ec; [|done]. split; [done|]. intros r [= <-]. exists raws. cbn [rec_content rec_size].
  split; [done|]. split; [lia|]. apply hash_check_iff; [done|]. by apply three_checks.
Qed.

(** The first error that is not staleness. *)
Lemma first_non_stale_spec {A B} (f : A -> outcome ReconstructionError B) msg l :
  Forall (fun a => exists e, f a = Err e) l ->
  let e := default (RecStale msg) (head (omap (fun a => match f a with Err e => if is_stale e then None else Some e | _ => None end) l)) in
  (exists pre a post, l = pre ++ a :: post /\ f a = Err e /\ is_stale e = false /\
     Forall (fun a => exists e, f a = Err e /\ is_stale e = true) pre) \/
  (is_stale e = true /\ Forall (fun a => exists e, f a = Err e /\ is_stale e = true) l).
Proof.
  induction 1 as [|a l (e & He) Hl IH]; cbn zeta; [by right|]. cbn [omap list_omap]. rewrite He. destruct (is_stale e) eqn:Hst.
  - destruct IH as [(pre & a' & post & -> & Ha & Hns & Hpre)|[Hs Hall]].
    + left. exists (a :: pre), a', post. split; [done|]. split; [done|]. split; [done|]. constructor; [eauto|done].
    + right. split; [done|]. constructor; [eauto|done].
  - left. cbn. exists [], a, l. done.
Qed.

(** Which reference answers. *)
Lemma try_file_refs_spec storage id h refs : forall first,
  match try_file_refs id h first storage refs with
  | Ok r => exists pre ref post, refs = pre ++ ref :: post /\
      reconstruct_single_file_ref_to_temp id h ref storage = Ok r /\
      Forall (fun ref => exists e, reconstruct_single_file_ref_to_temp id h ref storage = Err e) pre
  | Err e => Forall (fun ref => exists e, reconstruct_single_file_ref_to_temp id h ref storage = Err e) refs /\
      e = default (RecStale "no verified shard reference could reconstruct")
            (match first with
             | Some e0 => Some e0
             | None => head (omap (fun ref => match reconstruct_single_file_ref_to_temp id h ref storage with
                                              | Err e => if is_stale e then None else Some e | _ => None end) refs)
             end)
  | Panic => Exists (fun ref => reconstruct_single_file_ref_to_temp id h ref storage = Panic) refs
  end.
Proof.
  induction refs as [|ref refs IH]; intros first; cbn [try_file_refs omap list_omap].
  { split; [constructor|]. by destruct first. }
  destruct (reconstruct_single_file_ref_to_temp id h ref storage) as [r|e|] eqn:Er.
  - exists [], ref, refs. split; [done|]. split; [done|constructor].
  - match goal with |- context [try_file_refs _ _ ?f _ _] => specialize (IH f) end.
    destruct (try_file_refs _ _ _ _ _) as [r|e'|].
    + destruct IH as (pre & ref' & post & -> & Hok & Hpre). exists (ref :: pre), ref', post.
      split; [done|]. split; [done|]. constructor; [by exists e|done].
    + destruct IH as [Hall ->]. split; [constructor; [by exists e|done]|].
      destruct (is_stale e); [done|]. by destruct first.
    + by apply Exists_cons_tl.
  - by apply Exists_cons_hd.
Qed.
End ReconSound.

(** ** Lemmas: replaying a validation *)

(** [later] answers the reads that succeeded for [earlier] in the same way. *)
Definition still_serves `{Blake3, HexCrate, FileReads} (earlier later : StorageView) : Prop :=
  (forall key data, download_to_path_with_retries earlier key = Ok data -> download_to_path_with_retries later key = Ok data) /\
  (forall key shard, parse_shard_from_storage earlier key = Ok shard -> parse_shard_from_storage later key = Ok shard).

Section Replay.
Context `{Blake3Laws, HexLaws, Sha2Laws, Lz4Laws, FileReadsLaws}.
Context (earlier later : StorageView) (Hserves : still_serves earlier later).

(** A validated xorb is the download of its key; so is a cached one. *)
Definition xorbs_downloaded (m : gmap MerkleHash ValidatedXorb) : Prop :=
  forall x v, m !! x = Some v -> download_to_path_with_retries earlier (xorb_key x) = Ok (temp_guard v).
Definition cache_downloaded (cache : gmap MerkleHash (list byte)) : Prop :=
  forall x file, cache !! x = Some file -> download_to_path_with_retries later (xorb_key x) = Ok file.

Lemma validate_xorbs_downloaded shard entries st m off :
  xorbs_downloaded (fst st) -> fold_outcome (validate_xorb earlier shard) st entries = Ok (m, off) -> xorbs_downloaded m.
Proof.
  intros Hst E. change m with (fst (m, off)).
  eapply (fold_outcome_inv (fun st => xorbs_downloaded (fst st))); [exact Hst| |exact E].
  intros [m0 off0] xh [m1 off1] Hm0 _ Ev. cbn [fst] in *. unfold validate_xorb in Ev.
  case_bool_decide; [|done]. destruct (checked_add _ _); cbn [ok_or] in Ev; [|done].
  destruct (_ <=? _); [|done]. destruct (download_to_path_with_retries earlier _) as [file| |] eqn:Ed; cbn [map_err] in Ev; [|done..].
  destruct (verify_xorb_from_file_with_info file); [|done..].
  case_bool_decide; [|done]. destruct (_ =? _); [|done]. destruct (_ =? _); [|done]. destruct (_ =? _); [|done].
  destruct (slice _ _ _); [|done..]. destruct (fold_outcome check_chunk_entry _ _); [|done..]. injection Ev as <- _.
  intros x v [[<- <-]|[_ Hv]]%lookup_insert_Some; [done|by apply Hm0].
Qed.

Lemma replay_chunk m st st' rst c :
  xorbs_downloaded m -> cache_downloaded (rs_xorb_cache rst) -> validate_planned m st c = Ok st' ->
  exists cache raw, reconstruct_chunk later rst c = Ok (rec_after rst cache [raw]) /\ cache_downloaded cache /\
    st' = step_file_state st c raw /\ fs_file_size st + len raw <= u64_max.
Proof.
  intros Hm Hc E. unfold validate_planned in E.
  destruct (m !! pc_xorb_hash c) as [v|] eqn:Ev; cbn [ok_or] in E; [|done]. destruct (negb _); [|done].
  destruct (extract_chunk_verified_from_file _ _ _ _) as [raw| |] eqn:Ex; cbn [map_err] in E; [|done..].
  case_bool_decide as Hh; [|done]. destruct (checked_add _ _) as [sz|] eqn:Ea; cbn [ok_or] in E; [|done].
  apply checked_add_Some in Ea as [-> Hle]. injection E as <-.
  assert (download_to_path_with_retries later (xorb_key (pc_xorb_hash c)) = Ok (temp_guard v)) as Ed
    by (apply Hserves; by apply Hm).
  assert (forall cache, append_chunk rst cache (temp_guard v) c = Ok (rec_after rst cache [raw])) as Happ.
  { intros cache. unfold append_chunk. rewrite Ex. cbn [map_err]. rewrite bool_decide_true by done.
    unfold rec_after. cbn. by rewrite app_nil_r. }
  unfold reconstruct_chunk, cached_xorb_guard. destruct (rs_xorb_cache rst !! pc_xorb_hash c) as [file|] eqn:Ec.
  - assert (file = temp_guard v) as -> by (apply Hc in Ec; congruence). rewrite Ec. cbn [ok_or]. rewrite Happ.
    exists (rs_xorb_cache rst), raw. done.
  - unfold xorb_key in Ed. rewrite Ed. cbn [map_err]. rewrite lookup_insert_eq. cbn [ok_or]. rewrite Happ.
    exists (<[pc_xorb_hash c:=temp_guard v]> (rs_xorb_cache rst)), raw. split; [done|]. split; [|done].
    intros x file [[<- <-]|[_ Hx]]%lookup_insert_Some; [done|by apply Hc].
Qed.

Lemma replay_chunks m cs : forall st st' rst,
  xorbs_downloaded m -> cache_downloaded (rs_xorb_cache rst) -> 0 <= fs_file_size st <= u64_max ->
  fold_outcome (validate_planned m) st cs = Ok st' ->
  exists cache raws, fold_outcome (reconstruct_chunk later) rst cs = Ok (rec_after rst cache raws) /\
    fs_sha256 st' = fold_left sha256_update raws (fs_sha256 st) /\
    fs_blake3 st' = fold_left streaming_update raws (fs_blake3 st) /\
    fs_raw_chunks st' = fs_raw_chunks st ++ map (fun raw => (compute_data_hash raw, len raw)) raws /\
    fs_file_size st' = fs_file_size st + len (concat raws) /\ fs_file_size st' <= u64_max.
Proof.
  induction cs as [|c cs IH]; intros st st' rst Hm Hc Hsz E; cbn [fold_outcome] in *.
  - injection E as <-. exists (rs_xorb_cache rst), []. unfold rec_after. cbn. rewrite !app_nil_r, Z.add_0_r.
    split; [by destruct rst|]. do 4 (split; [done|]). lia.
  - destruct (validate_planned m st c) as [st1| |] eqn:Ev; [|done..].
    destruct (replay_chunk m st st1 rst c Hm Hc Ev) as (cache & raw & -> & Hc' & -> & Hle).
    destruct (IH (step_file_state st c raw) st' (rec_after rst cache [raw]) Hm Hc') as (cache' & raws & -> & E1 & E2 & E3 & E4 & E5);
      [cbn; pose proof (len_nonneg raw); lia|done|].
    exists cache', (raw :: raws). rewrite rec_after_app. unfold step_file_state in *.
    cbn [fs_sha256 fs_blake3 fs_raw_chunks fs_file_size fold_left map concat] in *. rewrite len_app.
    split; [done|]. split; [done|]. split; [done|]. split; [by rewrite E3, <- app_assoc|]. lia.
Qed.

Lemma replay_file shard_id shard m files validated i h files' validated' :
  xorbs_downloaded m -> hash_wf (fh_file_hash h) -> parse_shard_from_storage earlier ("shards/" +:+ shard_id) = Ok shard ->
  validate_file shard m (files, validated) (i, h) = Ok (files', validated') ->
  exists f r, files' = files ++ [f] /\ vf_file_hash f = fh_file_hash h /\
    reconstruct_single_file_ref_to_temp (to_hex (vf_file_hash f)) (vf_file_hash f)
      (mkRef shard_id (vf_file_index f) (vf_file_size f)) later = Ok r /\ rec_size r = vf_file_size f.
Proof.
  intros Hm W Hp E. unfold validate_file in E. unfold reconstruct_single_file_ref_to_temp, fetch_shard. cbn [fr_shard_id fr_file_index].
  rewrite (proj2 Hserves _ _ Hp).
  destruct (build_file_chunk_plan shard _ _) as [plan| |] eqn:Ep; cbn [map_err] in E; [|done..].
  destruct (fold_outcome _ _ (pf_chunks plan)) as [fs| |] eqn:Ef in E; [|done..].
  eapply (replay_chunks m _ _ _ (mkRecState _ _ ∅ [] sha256_new streaming_new [] 0)) in Ef as (cache & raws & Er & E1 & E2 & E3 & E4 & E5);
    [|done|intros x file Hx; cbn [rs_xorb_cache] in Hx; by rewrite lookup_empty in Hx|cbn; unfold u64_max; lia].
  cbn [fs_sha256 fs_blake3 fs_raw_chunks fs_file_size app] in *. rewrite Z.add_0_l in E4.
  destruct (negb (negb _ && _ && _)) eqn:Ec in E; [|done]. injection E as <- <-.
  eexists. eexists. split; [done|]. cbn [vf_file_hash vf_file_index vf_file_size]. split; [done|]. rewrite Ep. cbn [map_err].
  rewrite Er. cbn [rec_after rs_sha rs_blake3 rs_chunk_nodes rs_output rs_total_size app].
  rewrite sha256_streaming, streaming_fold, total_size_fold by lia.
  assert (whole_file_hash (fh_file_hash h) raws) as Hh.
  { rewrite E1, E2, E3, sha256_streaming, streaming_fold in Ec. unfold whole_file_hash.
    apply negb_true_iff, andb_false_iff in Ec as [[Ec|Ec]%andb_false_iff|Ec]; apply negb_false_iff in Ec.
    - left. by apply String.eqb_eq.
    - right; left. by apply bool_decide_eq_true in Ec.
    - right; right. by apply bool_decide_eq_true in Ec. }
  apply hash_check_iff, three_checks in Hh; [|done]. rewrite Hh. split; [done|]. cbn. lia.
Qed.
Lemma replay_files shard_id shard m entries : forall files validated files' validated',
  xorbs_downloaded m -> Forall (fun e => hash_wf (fh_file_hash (snd e))) entries ->
  parse_shard_from_storage earlier ("shards/" +:+ shard_id) = Ok shard ->
  fold_outcome (validate_file shard m) (files, validated) entries = Ok (files', validated') ->
  exists news, files' = files ++ news /\ Forall (fun f => hash_wf (vf_file_hash f) /\ exists r,
    reconstruct_single_file_ref_to_temp (to_hex (vf_file_hash f)) (vf_file_hash f)
      (mkRef shard_id (vf_file_index f) (vf_file_size f)) later = Ok r /\ rec_size r = vf_file_size f) news.
Proof.
  induction entries as [|[i h] entries IH]; intros files validated files' validated' Hm Hw Hp E; cbn [fold_outcome] in E.
  - injection E as <- <-. exists []. by rewrite app_nil_r.
  - apply Forall_cons in Hw as [Hh Hw]. destruct (validate_file shard m _ _) as [[files1 validated1]| |] eqn:Ev; [|done..].
    destruct (replay_file shard_id shard m files validated i h files1 validated1 Hm Hh Hp Ev) as (f & r & -> & Ef & Hr & Hs).
    destruct (IH _ _ _ _ Hm Hw Hp E) as (news & -> & Hn). exists (f :: news). rewrite <- app_assoc. split; [done|].
    constructor; [|done]. cbn [snd] in Hh. split; [by rewrite Ef|by exists r].
Qed.

Lemma replay_task shard_id reg f :
  view_wf earlier -> index_task earlier ("shards/" +:+ shard_id) = Ok (Some reg) -> f ∈ vr_files reg ->
  hash_wf (vf_file_hash f) /\ exists r,
    reconstruct_single_file_ref_to_temp (to_hex (vf_file_hash f)) (vf_file_hash f)
      (mkRef shard_id (vf_file_index f) (vf_file_size f)) later = Ok r /\ rec_size r = vf_file_size f.
Proof.
  intros Hw E Hf. unfold index_task in E.
  destruct (parse_shard_from_storage earlier _) as [shard| |] eqn:Ep; [|done..].
  destruct (validate_shard_for_index _ shard earlier) as [reg'| |] eqn:Ev; [|done..]. injection E as ->.
  unfold validate_shard_for_index in Ev.
  destruct (fold_outcome (validate_xorb earlier shard) _ _) as [[m off]| |] eqn:Ex; [|done..].
  apply validate_xorbs_downloaded in Ex; [|intros x v Hx; cbn [fst] in Hx; by rewrite lookup_empty in Hx].
  destruct (_ =? _); [|done].
  destruct (fold_outcome (validate_file shard m) _ _) as [[files validated]| |] eqn:Ef; [|done..].
  injection Ev as <-. cbn [vr_files] in Hf.
  assert (Forall file_header_wf (ms_file_entries shard)) as Wf.
  { pose proof Ep as Ep'. unfold parse_shard_from_storage in Ep'. apply with_retries_Ok in Ep' as [attempt Ep'].
    apply parse_once_Ok in Ep' as (file & Hst & Hpf).
    apply (parse_wf file shard (stored_small _ _ _ Hw Hst)) in Hpf as (_ & _ & _ & _ & Wf & _). done. }
  eapply (replay_files shard_id shard m) in Ef as (news & -> & Hn); [|done| |done].
  - by eapply Forall_forall in Hn.
  - apply Forall_forall. intros [i h] Hin. apply elem_of_zip_r in Hin. cbn.
    eapply Forall_forall in Wf; [|exact Hin]. apply Wf.
Qed.
End Replay.

(** Whatever the references, what is returned was checked. *)
Lemma verified_sound `{Blake3Laws, HexLaws, Sha2Laws, Lz4Laws, FileReadsLaws} file_id file_refs storage :
  view_wf storage ->
  reconstruct_verified_file_to_temp file_id file_refs storage <> Panic /\
  forall r, reconstruct_verified_file_to_temp file_id file_refs storage = Ok r ->
    exists h raws, from_hex file_id = Ok h /\ rec_content r = concat raws /\ rec_size r = len (rec_content r) /\
      whole_file_hash h raws.
Proof.
  intros Hw. unfold reconstruct_verified_file_to_temp.
  destruct (from_hex_outcome file_id) as [Hnp Hwf].
  destruct (from_hex file_id) as [h| |]; cbn [map_err]; [|done..]. destruct (Hwf h eq_refl) as [Wh _].
  pose proof (try_file_refs_spec storage (to_hex h) h file_refs None) as Hs.
  destruct (try_file_refs _ _ _ _ _) as [r| |]; [|done|].
  - destruct Hs as (pre & ref & post & _ & Hok & _). split; [done|]. intros r' [= <-].
    destruct (proj2 (single_sound storage h ref Hw Wh) r Hok) as (raws & Hc & Hsz & Hh). exists h, raws.
    split; [done|]. split; [done|]. split; [by rewrite Hc|done].
  - exfalso. apply Exists_exists in Hs as (ref & _ & Hp). by apply (single_sound storage h ref Hw Wh) in Hp.
Qed.

(** ** Properties *)

(** C28: Whatever the references and the storage, reconstruction never panics,
    and the file it returns has the size it reports and one of the supported
    forms of the hash that was asked for, in either case of the hex digits. *)
Theorem reconstruction_sound `{Blake3Laws, HexLaws, Sha2Laws, Lz4Laws, FileReadsLaws} file_id file_refs storage :
  view_wf storage ->
  reconstruct_verified_file_to_temp file_id file_refs storage <> Panic /\
  forall r, reconstruct_verified_file_to_temp file_id file_refs storage = Ok r ->
    exists h raws, from_hex file_id = Ok h /\ rec_content r = concat raws /\ rec_size r = len (rec_content r) /\
      whole_file_hash h raws.
Proof. apply verified_sound. Qed.

(** The order of the references: the result is that of the first reference
    that can be rebuilt; if none can, the error is the first one that is not
    staleness, or staleness when all references are stale. *)
Theorem first_reference_wins `{Blake3Laws, HexLaws, Sha2Laws, Lz4Laws, FileReadsLaws} file_id h refs storage :
  view_wf storage -> from_hex file_id = Ok h ->
  let one ref := reconstruct_single_file_ref_to_temp (to_hex h) h ref storage in
  match reconstruct_verified_file_to_temp file_id refs storage with
  | Ok r => exists pre ref post, refs = pre ++ ref :: post /\ one ref = Ok r /\ Forall (fun ref => exists e, one ref = Err e) pre
  | Err e => Forall (fun ref => exists e, one ref = Err e) refs /\
      ((exists pre ref post, refs = pre ++ ref :: post /\ one ref = Err e /\ is_stale e = false /\
          Forall (fun ref => exists e, one ref = Err e /\ is_stale e = true) pre) \/
       (is_stale e = true /\ Forall (fun ref => exists e, one ref = Err e /\ is_stale e = true) refs))
  | Panic => False
  end.
Proof.
  intros Hw Eh one. unfold reconstruct_verified_file_to_temp. rewrite Eh. cbn [map_err].
  destruct (proj2 (from_hex_outcome file_id) h Eh) as [Wh _].
  pose proof (try_file_refs_spec storage (to_hex h) h refs None) as Hs.
  destruct (try_file_refs _ _ _ _ _) as [r|e|]; [done| |].
  - destruct Hs as [Hall ->]. split; [done|]. by apply first_non_stale_spec.
  - apply Exists_exists in Hs as (ref & _ & Hp). by apply (single_sound storage h ref Hw Wh) in Hp.
Qed.

(** C27: A file that entered the index can be downloaded: if a task validated and
    registered the shard, and the storage later still serves what it served to
    that task, then rebuilding from any references that include the registered
    one succeeds, and from that one alone gives exactly the registered size. *)
Theorem registered_file_downloads `{Blake3Laws, HexLaws, Sha2Laws, Lz4Laws, FileReadsLaws} earlier later shard_id reg f refs :
  view_wf earlier -> view_wf later -> still_serves earlier later ->
  index_task earlier ("shards/" +:+ shard_id) = Ok (Some reg) -> f ∈ vr_files reg ->
  let ref := mkRef shard_id (vf_file_index f) (vf_file_size f) in
  (ref ∈ refs -> is_ok (reconstruct_verified_file_to_temp (to_hex (vf_file_hash f)) refs later) = true) /\
  exists r, reconstruct_verified_file_to_temp (to_hex (vf_file_hash f)) [ref] later = Ok r /\ rec_size r = vf_file_size f.
Proof.
  intros Hw Hw' Hserves Et Hf ref. destruct (replay_task earlier later Hserves shard_id reg f Hw Et Hf) as (Wh & r & Er & Hs).
  unfold reconstruct_verified_file_to_temp. rewrite from_hex_of_hex by done. cbn [map_err]. split.
  - intros Hin. pose proof (try_file_refs_spec later (to_hex (vf_file_hash f)) (vf_file_hash f) refs None) as Hspec.
    destruct (try_file_refs _ _ _ _ _) as [r'|e|]; [done| |].
    + destruct Hspec as [Hall _]. eapply Forall_forall in Hall as [e' Hall]; [|exact Hin]. subst ref. congruence.
    + apply Exists_exists in Hspec as (ref' & _ & Hp). by apply (single_sound later _ ref' Hw' Wh) in Hp.
  - exists r. cbn [try_file_refs]. subst ref. by rewrite Er.
Qed.

(** ** Witnesses *)
Abbreviation sample_reconstruct refs := (@reconstruct_verified_file_to_temp Model.blake3 Model.hex Model.sha2 Model.lz4 Model.reads
  (@to_hex Model.hex sample_content_hash) refs sample_view).
Definition sample_ref : FileShardRef := mkRef "one" 0 28.
Definition sample_reg : VerifiedShardRegistration :=
  default (mkRegistration "" [] [])
    (unwrap_or (@index_task Model.blake3 Model.hex Model.sha2 Model.lz4 Model.reads sample_view "shards/one") None).
Definition sample_file : VerifiedFileMapping := mkFileMapping sample_content_hash 0 28.

Lemma sample_task : @index_task Model.blake3 Model.hex Model.sha2 Model.lz4 Model.reads sample_view "shards/one" = Ok (Some sample_reg).
Proof. vm_compute. reflexivity. Qed.

Lemma reconstruction_sound_witness :
  exists r, sample_reconstruct [mkRef "one" 1 28; sample_ref] = Ok r /\ rec_content r = concat sample_datas /\
    exists h raws, @from_hex Model.hex (@to_hex Model.hex sample_content_hash) = Ok h /\
      @whole_file_hash Model.blake3 Model.hex Model.sha2 h raws /\ rec_content r = concat raws.
Proof.
  assert (sample_reconstruct [mkRef "one" 1 28; sample_ref] = Ok (mkReconstruction (concat sample_datas) 28)) as E
    by (vm_compute; reflexivity).
  exists (mkReconstruction (concat sample_datas) 28). split; [exact E|]. split; [reflexivity|].
  destruct (proj2 (@reconstruction_sound Model.blake3 Model.blake3_laws Model.hex Model.hex_laws Model.sha2 Model.sha2_laws
    Model.lz4 Model.lz4_laws Model.reads Model.reads_laws (@to_hex Model.hex sample_content_hash) [mkRef "one" 1 28; sample_ref]
    sample_view sample_view_wf) _ E) as (h & raws & H1 & H2 & _ & H4).
  exists h, raws. split; [exact H1|]. split; [exact H4|exact H2].
Defined.

Lemma first_reference_wins_witness :
  exists pre ref post, [mkRef "one" 1 28; sample_ref] = pre ++ ref :: post /\ fr_file_index ref = 0%nat.
Proof.
  assert (@from_hex Model.hex (@to_hex Model.hex sample_content_hash) = Ok sample_content_hash) as Eh by (vm_compute; reflexivity).
  pose proof (@first_reference_wins Model.blake3 Model.blake3_laws Model.hex Model.hex_laws Model.sha2 Model.sha2_laws
    Model.lz4 Model.lz4_laws Model.reads Model.reads_laws (@to_hex Model.hex sample_content_hash) sample_content_hash
    [mkRef "one" 1 28; sample_ref] sample_view sample_view_wf Eh) as Hw.
  assert (is_ok (sample_reconstruct [mkRef "one" 1 28; sample_ref]) = true) as Hok by (vm_compute; reflexivity).
  cbn zeta in Hw. destruct (sample_reconstruct [mkRef "one" 1 28; sample_ref]) as [r|e|]; [|discriminate Hok..].
  destruct Hw as (pre & ref & post & E & Er & _). exists pre, ref, post. split; [exact E|].
  destruct pre as [|a [|b pre]]; cbn in E.
  - injection E as <- _. exfalso. vm_compute in Er. discriminate.
  - injection E as _ <- _. reflexivity.
  - exfalso. injection E as _ _ E. destruct pre; discriminate.
Defined.

Lemma registered_file_downloads_witness :
  sample_file ∈ vr_files sample_reg /\ exists r, sample_reconstruct [sample_ref] = Ok r /\ rec_size r = 28.
Proof.
  assert (vr_files sample_reg = [sample_file]) as Ef by (vm_compute; reflexivity).
  assert (sample_file ∈ vr_files sample_reg) as Hin by (rewrite Ef; left). split; [exact Hin|].
  exact (proj2 (@registered_file_downloads Model.blake3 Model.blake3_laws Model.hex Model.hex_laws Model.sha2 Model.sha2_laws
    Model.lz4 Model.lz4_laws Model.reads Model.reads_laws sample_view sample_view "one" sample_reg sample_file [sample_ref]
    sample_view_wf sample_view_wf (conj (fun _ _ E => E) (fun _ _ E => E)) sample_task Hin)).
Defined.
