(* ===== verification/Quota.v ===== *)
(** * The temporary-space ledger (xet-common/src/lib.rs)

    The ledger is two atomic counters shared by all reservations.  Each
    operation is modelled twice: as the function it computes when nothing
    interferes, and as the atomic steps it is made of, which interleave with
    those of the other reservations. *)
From S2P Require Import Prelude.

Local Open Scope Z_scope.

Inductive TempQuotaError :=
| QuotaExhausted
| InsufficientFreeSpace
| Overflow.

Record TempQuotaLedger := mkLedger {
  quota_bytes : Z;
  min_free_bytes : Z;
  charged_bytes : Z;
  reserved_bytes : Z;
}.

Definition set_charged (l : TempQuotaLedger) (v : Z) : TempQuotaLedger :=
  mkLedger (quota_bytes l) (min_free_bytes l) v (reserved_bytes l).
Definition set_reserved (l : TempQuotaLedger) (v : Z) : TempQuotaLedger :=
  mkLedger (quota_bytes l) (min_free_bytes l) (charged_bytes l) v.

Definition ledger_new (quota min_free : Z) : outcome TempQuotaError TempQuotaLedger :=
  ensure negb ((quota =? 0) || (min_free =? 0)) else Overflow in
  Ok (mkLedger quota min_free 0 0).

(** [fetch_update] returns the previous value, so [next] is the old counter. *)
Definition account_existing (l : TempQuotaLedger) (bytes : Z) : TempQuotaLedger * outcome TempQuotaError unit :=
  match checked_add (charged_bytes l) bytes with
  | None => (l, Err Overflow)
  | Some charged =>
      let next := charged_bytes l in
      let l := set_charged l charged in
      if quota_bytes l <? next
      then (set_charged l (as_u64 (charged_bytes l - bytes)), Err QuotaExhausted)
      else (l, Ok tt)
  end.

(** The check of [reserve] on the values it loaded. *)
Definition reserve_check (quota charged reserved bytes : Z) : outcome TempQuotaError unit :=
  let* total :=
    ok_or (match checked_add charged reserved with Some v => checked_add v bytes | None => None end) Overflow in
  ensure negb (quota <? total) else QuotaExhausted in
  Ok tt.

(** A reservation: its own counters. *)
Record TempReservation := mkReservation {
  r_reserved : Z;
  r_charged : Z;
}.
Definition reservation_empty : TempReservation := mkReservation 0 0.

(** ** The operations without interference *)

Definition ledger_reserve (l : TempQuotaLedger) (bytes : Z) : TempQuotaLedger * outcome TempQuotaError TempReservation :=
  if bytes =? 0 then (l, Ok reservation_empty)
  else
    match reserve_check (quota_bytes l) (charged_bytes l) (reserved_bytes l) bytes with
    | Ok _ => (set_reserved l (reserved_bytes l + bytes), Ok (mkReservation bytes 0))
    | Err e => (l, Err e)
    | Panic => (l, Panic)
    end.

Definition commit (l : TempQuotaLedger) (bytes : Z) : TempQuotaLedger * outcome TempQuotaError unit :=
  if bytes =? 0 then (l, Ok tt)
  else
    let l := set_reserved l (as_u64 (reserved_bytes l - bytes)) in
    match checked_add (charged_bytes l) bytes with
    | Some charged => (set_charged l charged, Ok tt)
    | None => (l, Err Overflow)
    end.

Definition release_reserved (l : TempQuotaLedger) (bytes : Z) : TempQuotaLedger :=
  if bytes =? 0 then l else set_reserved l (as_u64 (reserved_bytes l - bytes)).
Definition release_charged (l : TempQuotaLedger) (bytes : Z) : TempQuotaLedger :=
  if bytes =? 0 then l else set_charged l (as_u64 (charged_bytes l - bytes)).

(** Operations of a reservation return the ledger, the reservation and the answer. *)
Definition reserve_additional (l : TempQuotaLedger) (r : TempReservation) (bytes : Z)
  : TempQuotaLedger * TempReservation * outcome TempQuotaError unit :=
  let '(l, additional) := ledger_reserve l bytes in
  match additional with
  | Ok a =>
      match checked_add (r_reserved r) (r_reserved a) with
      | Some reserved => (l, mkReservation reserved (r_charged r), Ok tt)
      | None => (release_charged (release_reserved l (r_reserved a)) (r_charged a), r, Err Overflow)
      end
  | Err e => (l, r, Err e)
  | Panic => (l, r, Panic)
  end.

Definition commit_written (l : TempQuotaLedger) (r : TempReservation) (bytes : Z)
  : TempQuotaLedger * TempReservation * outcome TempQuotaError unit :=
  if r_reserved r <? bytes then (l, r, Err Overflow)
  else
    let '(l, answer) := commit l bytes in
    match answer with
    | Ok _ =>
        let r := mkReservation (r_reserved r - bytes) (r_charged r) in
        match checked_add (r_charged r) bytes with
        | Some charged => (l, mkReservation (r_reserved r) charged, Ok tt)
        | None => (l, r, Err Overflow)
        end
    | Err e => (l, r, Err e)
    | Panic => (l, r, Panic)
    end.

Definition release_written (l : TempQuotaLedger) (r : TempReservation) (bytes : Z)
  : TempQuotaLedger * TempReservation * outcome TempQuotaError unit :=
  if r_charged r <? bytes then (l, r, Err Overflow)
  else (release_charged l bytes, mkReservation (r_reserved r) (r_charged r - bytes), Ok tt).

Definition reservation_drop (l : TempQuotaLedger) (r : TempReservation) : TempQuotaLedger :=
  release_charged (release_reserved l (r_reserved r)) (r_charged r).

(** [TempResourceManager::reserve]: [available] is what [statvfs] answers. *)
Definition manager_reserve (available : option Z) (l : TempQuotaLedger) (bytes : Z)
  : TempQuotaLedger * outcome TempQuotaError TempReservation :=
  let available := default u64_max available in
  match match checked_add (min_free_bytes l) (reserved_bytes l) with Some v => checked_add v bytes | None => None end with
  | None => (l, Err Overflow)
  | Some needed => if available <? needed then (l, Err InsufficientFreeSpace) else ledger_reserve l bytes
  end.

(** Replenishment period of a rate limit, in nanoseconds. *)
Definition NANOS_PER_MINUTE : Z := 60000000000.
Definition rate_limit_period (rpm : Z) : option Z :=
  if rpm =? 0 then None else Some ((NANOS_PER_MINUTE + rpm - 1) / rpm).

(** ** The operations as atomic steps

    A slot holds a reservation and where its current operation is.  A slot
    whose reservation was dropped is an empty one that can be used again. *)
Inductive op_pc :=
| Idle
| Reserving (bytes : Z)
| LoadedCharged (bytes charged : Z)
| LoadedBoth (bytes charged reserved : Z)
| Committing (bytes : Z)
| Dropping.

Record slot := mkSlot { s_res : TempReservation; s_pc : op_pc }.
Record system := mkSystem { sys_ledger : TempQuotaLedger; sys_slots : list slot }.

(** One step of one slot: the shared ledger and the slot before and after. *)
Inductive slot_step : TempQuotaLedger -> slot -> TempQuotaLedger -> slot -> Prop :=
| step_reserve l r bytes : 0 < bytes -> in_u64 bytes ->
    slot_step l (mkSlot r Idle) l (mkSlot r (Reserving bytes))
| step_load_charged l r bytes :
    slot_step l (mkSlot r (Reserving bytes)) l (mkSlot r (LoadedCharged bytes (charged_bytes l)))
| step_load_reserved l r bytes c :
    slot_step l (mkSlot r (LoadedCharged bytes c)) l (mkSlot r (LoadedBoth bytes c (reserved_bytes l)))
| step_reserve_fails l r bytes c v e : reserve_check (quota_bytes l) c v bytes = Err e ->
    slot_step l (mkSlot r (LoadedBoth bytes c v)) l (mkSlot r Idle)
| step_exchange_fails l r bytes c v : reserved_bytes l <> v ->
    slot_step l (mkSlot r (LoadedBoth bytes c v)) l (mkSlot r (Reserving bytes))
| step_exchange l r bytes c v : reserve_check (quota_bytes l) c v bytes = Ok tt -> reserved_bytes l = v ->
    slot_step l (mkSlot r (LoadedBoth bytes c v))
      (set_reserved l (v + bytes)) (mkSlot (mkReservation (r_reserved r + bytes) (r_charged r)) Idle)
| step_commit_sub l r bytes : 0 < bytes <= r_reserved r ->
    slot_step l (mkSlot r Idle)
      (set_reserved l (as_u64 (reserved_bytes l - bytes))) (mkSlot r (Committing bytes))
| step_commit_add l r bytes charged : checked_add (charged_bytes l) bytes = Some charged ->
    slot_step l (mkSlot r (Committing bytes))
      (set_charged l charged) (mkSlot (mkReservation (r_reserved r - bytes) (r_charged r + bytes)) Idle)
| step_commit_overflow l r bytes : checked_add (charged_bytes l) bytes = None ->
    slot_step l (mkSlot r (Committing bytes)) l (mkSlot r Idle)
| step_release l r bytes : 0 <= bytes <= r_charged r ->
    slot_step l (mkSlot r Idle)
      (release_charged l bytes) (mkSlot (mkReservation (r_reserved r) (r_charged r - bytes)) Idle)
| step_drop_reserved l r :
    slot_step l (mkSlot r Idle) (release_reserved l (r_reserved r)) (mkSlot r Dropping)
| step_drop_charged l r :
    slot_step l (mkSlot r Dropping) (release_charged l (r_charged r)) (mkSlot reservation_empty Idle).

Inductive step : system -> system -> Prop :=
| step_slot l slots i s l' s' :
    slots !! i = Some s -> slot_step l s l' s' -> step (mkSystem l slots) (mkSystem l' (<[i := s']> slots)).

Definition initial (n : nat) (quota min_free : Z) : system :=
  mkSystem (mkLedger quota min_free 0 0) (replicate n (mkSlot reservation_empty Idle)).
Definition reachable (n : nat) (quota min_free : Z) : system -> Prop := rtc step (initial n quota min_free).

(** ** Specification *)

(** What a slot holds, and what the shared counters show of it: during a commit
    the bytes in transit are in neither counter. *)
Definition held (s : slot) : Z := r_reserved (s_res s) + r_charged (s_res s).
Definition shown_reserved (s : slot) : Z :=
  match s_pc s with
  | Committing bytes => r_reserved (s_res s) - bytes
  | Dropping => 0
  | _ => r_reserved (s_res s)
  end.
Definition shown_charged (s : slot) : Z := r_charged (s_res s).

Definition slot_ok (quota : Z) (s : slot) : Prop :=
  0 <= r_reserved (s_res s) /\ 0 <= r_charged (s_res s) /\ held s <= quota /\
  match s_pc s with
  | Reserving bytes => 0 < bytes
  | LoadedCharged bytes c => 0 < bytes /\ r_charged (s_res s) <= c
  | LoadedBoth bytes c v => 0 < bytes /\ r_charged (s_res s) <= c /\ r_reserved (s_res s) <= v
  | Committing bytes => 0 < bytes <= r_reserved (s_res s)
  | _ => True
  end.

Definition accounts (n : nat) (quota : Z) (sys : system) : Prop :=
  length (sys_slots sys) = n /\ quota_bytes (sys_ledger sys) = quota /\ Forall (slot_ok quota) (sys_slots sys) /\
  reserved_bytes (sys_ledger sys) = sum_by shown_reserved (sys_slots sys) /\
  charged_bytes (sys_ledger sys) = sum_by shown_charged (sys_slots sys).

(** ** Lemmas *)

Lemma reserve_check_ok quota c v bytes : reserve_check quota c v bytes = Ok tt -> c + v + bytes <= quota.
Proof.
  unfold reserve_check. destruct (checked_add c v) as [t|] eqn:E1; [|done]. apply checked_add_Some in E1 as [-> _].
  destruct (checked_add (c + v) bytes) as [t|] eqn:E2; [|done]. apply checked_add_Some in E2 as [-> _]. cbn [ok_or].
  destruct (Z.ltb_spec quota (c + v + bytes)); [done|lia].
Qed.

Lemma as_u64_small z : 0 <= z <= u64_max -> as_u64 z = z.
Proof. intros. unfold as_u64, u64_max in *. apply Z.mod_small. lia. Qed.

Lemma slot_shown quota s : slot_ok quota s ->
  0 <= shown_reserved s /\ 0 <= shown_charged s /\ shown_reserved s + shown_charged s <= held s.
Proof. destruct s as [[res chg] []]; unfold slot_ok, shown_reserved, shown_charged, held; cbn; lia. Qed.

Section Accounting.
Context (n : nat) (quota : Z) (Hquota : 0 < quota) (Hfits : Z.of_nat n * quota <= u64_max).

Lemma accounts_bounds sys i s :
  accounts n quota sys -> sys_slots sys !! i = Some s ->
  shown_reserved s <= reserved_bytes (sys_ledger sys) /\ shown_charged s <= charged_bytes (sys_ledger sys) /\
  reserved_bytes (sys_ledger sys) + charged_bytes (sys_ledger sys) + (held s - shown_reserved s - shown_charged s) <= u64_max.
Proof.
  intros (Hn & _ & Hok & -> & ->) Hi.
  assert (Forall (fun s => 0 <= shown_reserved s) (sys_slots sys)) as H1
    by (eapply Forall_impl; [exact Hok|]; intros t Ht; apply slot_shown in Ht; lia).
  assert (Forall (fun s => 0 <= shown_charged s) (sys_slots sys)) as H2
    by (eapply Forall_impl; [exact Hok|]; intros t Ht; apply slot_shown in Ht; lia).
  split; [by eapply sum_by_elem|]. split; [by eapply sum_by_elem|].
  pose proof (sum_by_bound (fun t => held t) (sys_slots sys) quota) as Hb.
  assert (sum_by (fun t => held t - shown_reserved t - shown_charged t) (sys_slots sys) =
    sum_by held (sys_slots sys) - sum_by shown_reserved (sys_slots sys) - sum_by shown_charged (sys_slots sys)) as Hd
    by (unfold sum_by; clear; induction (sys_slots sys) as [|t l IH]; cbn; lia).
  pose proof (sum_by_elem (fun t => held t - shown_reserved t - shown_charged t) (sys_slots sys) i s) as He.
  lapply Hb; [clear Hb; intros Hb|eapply Forall_impl; [exact Hok|]; by intros t (_ & _ & Ht & _)].
  lapply He; [clear He; intros He|eapply Forall_impl; [exact Hok|]; intros t Ht; apply slot_shown in Ht; lia].
  specialize (He Hi).
  unfold len in Hb. rewrite Hn in Hb. change (fun t => held t) with held in Hb. lia.
Qed.

Lemma accounts_step sys sys' : accounts n quota sys -> step sys sys' -> accounts n quota sys'.
Proof.
  intros Ha Hs. destruct Hs as [l slots i s l' s' Hi Hs]. pose proof (accounts_bounds _ i s Ha Hi) as (Br & Bc & Bt).
  destruct Ha as (Hn & Hq & Hok & Hr & Hc). cbn [sys_ledger sys_slots] in *.
  pose proof (Forall_lookup_1 _ _ _ _ Hok Hi) as Hsok.
  enough (quota_bytes l' = quota /\ slot_ok quota s' /\
    reserved_bytes l' = reserved_bytes l - shown_reserved s + shown_reserved s' /\
    charged_bytes l' = charged_bytes l - shown_charged s + shown_charged s') as (E1 & E2 & E3 & E4).
  { unfold accounts. cbn [sys_ledger sys_slots]. split; [by rewrite length_insert|]. split; [done|]. split; [by apply Forall_insert|].
    rewrite !(sum_by_insert _ _ _ _ _ Hi). lia. }
  clear Hok Hn Hi. unfold slot_ok, held in *.
  destruct Hs; unfold release_charged, release_reserved, shown_reserved, shown_charged, set_reserved, set_charged in *;
    cbn [s_res s_pc r_reserved r_charged quota_bytes reserved_bytes charged_bytes] in *.
  all: repeat match goal with
       | |- context [?b =? 0] => destruct (Z.eqb_spec b 0)
       | H : reserve_check _ _ _ _ = Ok tt |- _ => apply reserve_check_ok in H
       | H : checked_add _ _ = Some _ |- _ => apply checked_add_Some in H as [-> ?]
       | H : checked_add ?a ?b = None |- _ => unfold checked_add in H; destruct (Z.leb_spec (a + b) u64_max); [done|]
       end.
  all: cbn [quota_bytes reserved_bytes charged_bytes]; rewrite ?as_u64_small by lia.
  all: unfold reservation_empty; cbn [r_reserved r_charged]; split; [done|]; lia.
Qed.

Lemma accounts_initial min_free : accounts n quota (initial n quota min_free).
Proof.
  unfold accounts, initial. cbn [sys_ledger sys_slots quota_bytes reserved_bytes charged_bytes].
  split; [apply length_replicate|]. split; [done|]. split; [apply Forall_replicate; unfold slot_ok, held; cbn; lia|].
  clear. induction n as [|m [H1 H2]]; [done|]. unfold sum_by in *. cbn [replicate foldr]. unfold shown_reserved, shown_charged in *. cbn in *. lia.
Qed.

Lemma reachable_accounts min_free sys : reachable n quota min_free sys -> accounts n quota sys.
Proof.
  intros Hr. unfold reachable in Hr. pose proof (accounts_initial min_free) as Hi.
  induction Hr as [|sys sys1 sys2 Hs _ IH]; [done|]. eauto using accounts_step.
Qed.
End Accounting.

(** ** Sequential use: one operation at a time *)

Inductive seq_step : TempQuotaLedger * list TempReservation -> TempQuotaLedger * list TempReservation -> Prop :=
| seq_new l rs bytes l' r : in_u64 bytes -> ledger_reserve l bytes = (l', Ok r) -> seq_step (l, rs) (l', rs ++ [r])
| seq_reserve l rs i r bytes l' r' answer : in_u64 bytes -> rs !! i = Some r ->
    reserve_additional l r bytes = (l', r', answer) -> seq_step (l, rs) (l', <[i := r']> rs)
| seq_commit l rs i r bytes l' r' answer : in_u64 bytes -> rs !! i = Some r ->
    commit_written l r bytes = (l', r', answer) -> seq_step (l, rs) (l', <[i := r']> rs)
| seq_release l rs i r bytes l' r' answer : in_u64 bytes -> rs !! i = Some r ->
    release_written l r bytes = (l', r', answer) -> seq_step (l, rs) (l', <[i := r']> rs)
| seq_drop l rs i r : rs !! i = Some r -> seq_step (l, rs) (reservation_drop l r, delete i rs).

Definition seq_ok (quota min_free : Z) (st : TempQuotaLedger * list TempReservation) : Prop :=
  let '(l, rs) := st in
  quota_bytes l = quota /\ min_free_bytes l = min_free /\ Forall (fun r => 0 <= r_reserved r /\ 0 <= r_charged r) rs /\
  reserved_bytes l = sum_by r_reserved rs /\ charged_bytes l = sum_by r_charged rs /\
  reserved_bytes l + charged_bytes l <= quota.

Lemma sum_by_delete {A} (f : A -> Z) l i a : l !! i = Some a -> sum_by f (delete i l) = sum_by f l - f a.
Proof.
  intros Hi. rewrite delete_take_drop, sum_by_app. rewrite <- (take_drop_middle l i a Hi) at 3. rewrite sum_by_app.
  unfold sum_by. cbn [foldr]. lia.
Qed.

Lemma reserve_check_iff quota c v bytes :
  0 <= c -> 0 <= v -> 0 <= bytes -> quota <= u64_max ->
  match reserve_check quota c v bytes with
  | Ok _ => c + v + bytes <= quota
  | Err _ => quota < c + v + bytes
  | Panic => False
  end.
Proof.
  intros. unfold reserve_check, checked_add. destruct (Z.leb_spec (c + v) u64_max); cbn [ok_or]; [|lia].
  destruct (Z.leb_spec (c + v + bytes) u64_max); cbn [ok_or]; [|lia].
  destruct (Z.ltb_spec quota (c + v + bytes)); cbn [negb]; lia.
Qed.

(** What each operation does to the shared counters and to its reservation. *)
Definition moves (l l' : TempQuotaLedger) (dr dc : Z) : Prop :=
  quota_bytes l' = quota_bytes l /\ min_free_bytes l' = min_free_bytes l /\
  reserved_bytes l' = reserved_bytes l + dr /\ charged_bytes l' = charged_bytes l + dc.

Section Seq.
Context (l : TempQuotaLedger) (Hq : quota_bytes l <= u64_max) (Hc : 0 <= charged_bytes l) (Hr : 0 <= reserved_bytes l)
        (Hm : reserved_bytes l + charged_bytes l <= quota_bytes l).

Lemma moves_same : moves l l 0 0.
Proof. unfold moves. lia. Qed.

Lemma ledger_reserve_spec bytes : 0 <= bytes ->
  let '(l', answer) := ledger_reserve l bytes in
  match answer with
  | Ok r => r = mkReservation bytes 0 /\ moves l l' bytes 0 /\ charged_bytes l + reserved_bytes l + bytes <= quota_bytes l
  | Err e => l' = l /\ quota_bytes l < charged_bytes l + reserved_bytes l + bytes
  | Panic => False
  end.
Proof.
  intros Hb. unfold ledger_reserve. destruct (Z.eqb_spec bytes 0) as [->|Hn]; [split; [done|]; split; [apply moves_same|lia]|].
  pose proof (reserve_check_iff (quota_bytes l) (charged_bytes l) (reserved_bytes l) bytes Hc Hr Hb Hq) as Hk.
  destruct (reserve_check _ _ _ _); [|done..]. split; [done|]. split; [|lia].
  unfold moves, set_reserved. cbn. lia.
Qed.

Lemma release_reserved_moves bytes : 0 <= bytes <= reserved_bytes l -> moves l (release_reserved l bytes) (- bytes) 0.
Proof.
  intros Hb. unfold release_reserved. destruct (Z.eqb_spec bytes 0) as [->|]; [apply moves_same|].
  unfold moves, set_reserved. cbn [quota_bytes min_free_bytes reserved_bytes charged_bytes]. rewrite as_u64_small by lia. lia.
Qed.

Lemma release_charged_moves bytes : 0 <= bytes <= charged_bytes l -> moves l (release_charged l bytes) 0 (- bytes).
Proof.
  intros Hb. unfold release_charged. destruct (Z.eqb_spec bytes 0) as [->|]; [apply moves_same|].
  unfold moves, set_charged. cbn [quota_bytes min_free_bytes reserved_bytes charged_bytes]. rewrite as_u64_small by lia. lia.
Qed.

Lemma commit_spec bytes : 0 <= bytes <= reserved_bytes l ->
  exists l', commit l bytes = (l', Ok tt) /\ moves l l' (- bytes) bytes.
Proof.
  intros Hb. unfold commit. destruct (Z.eqb_spec bytes 0) as [->|]; [eexists; split; [done|apply moves_same]|].
  cbn [charged_bytes set_reserved]. rewrite checked_add_le by (unfold set_reserved; cbn; lia).
  eexists. split; [done|]. unfold moves, set_charged, set_reserved. cbn [quota_bytes min_free_bytes reserved_bytes charged_bytes]. rewrite as_u64_small by lia. lia.
Qed.

Context (r : TempReservation) (Hrr : 0 <= r_reserved r <= reserved_bytes l) (Hrc : 0 <= r_charged r <= charged_bytes l).

Lemma reserve_additional_spec bytes : 0 <= bytes ->
  let '(l', r', answer) := reserve_additional l r bytes in
  match answer with
  | Ok _ => r' = mkReservation (r_reserved r + bytes) (r_charged r) /\ moves l l' bytes 0 /\
      charged_bytes l + reserved_bytes l + bytes <= quota_bytes l
  | Err _ => r' = r /\ l' = l /\ quota_bytes l < charged_bytes l + reserved_bytes l + bytes
  | Panic => False
  end.
Proof.
  intros Hb. unfold reserve_additional. pose proof (ledger_reserve_spec bytes Hb) as Hs.
  destruct (ledger_reserve l bytes) as [l' [a|e|]]; [|by destruct Hs as [-> ?]|done].
  destruct Hs as (-> & Hmv & Hfit). cbn [r_reserved]. by rewrite checked_add_le by lia.
Qed.

Lemma commit_written_spec bytes : 0 <= bytes ->
  let '(l', r', answer) := commit_written l r bytes in
  match answer with
  | Ok _ => bytes <= r_reserved r /\ r' = mkReservation (r_reserved r - bytes) (r_charged r + bytes) /\ moves l l' (- bytes) bytes
  | Err _ => r_reserved r < bytes /\ r' = r /\ l' = l
  | Panic => False
  end.
Proof.
  intros Hb. unfold commit_written. destruct (Z.ltb_spec (r_reserved r) bytes); [done|].
  destruct (commit_spec bytes ltac:(lia)) as (l' & -> & Hmv). cbn [r_charged]. by rewrite checked_add_le by lia.
Qed.

Lemma release_written_spec bytes : 0 <= bytes ->
  let '(l', r', answer) := release_written l r bytes in
  match answer with
  | Ok _ => bytes <= r_charged r /\ r' = mkReservation (r_reserved r) (r_charged r - bytes) /\ moves l l' 0 (- bytes)
  | Err _ => r_charged r < bytes /\ r' = r /\ l' = l
  | Panic => False
  end.
Proof.
  intros Hb. unfold release_written. destruct (Z.ltb_spec (r_charged r) bytes); [done|].
  split; [done|]. split; [done|]. apply release_charged_moves. lia.
Qed.
End Seq.

Lemma drop_moves l r :
  quota_bytes l <= u64_max -> 0 <= r_reserved r <= reserved_bytes l -> 0 <= r_charged r <= charged_bytes l ->
  reserved_bytes l + charged_bytes l <= quota_bytes l ->
  moves l (reservation_drop l r) (- r_reserved r) (- r_charged r).
Proof.
  intros Hq Hr Hc Hm. unfold reservation_drop.
  assert (moves l (release_reserved l (r_reserved r)) (- r_reserved r) 0) as (E1 & E2 & E3 & E4)
    by (apply release_reserved_moves; lia).
  assert (moves (release_reserved l (r_reserved r)) (release_charged (release_reserved l (r_reserved r)) (r_charged r)) 0 (- r_charged r))
    as (F1 & F2 & F3 & F4) by (apply release_charged_moves; lia).
  unfold moves. lia.
Qed.

Lemma seq_ok_bounds quota min_free l rs i r :
  seq_ok quota min_free (l, rs) -> rs !! i = Some r ->
  0 <= r_reserved r <= reserved_bytes l /\ 0 <= r_charged r <= charged_bytes l.
Proof.
  intros (_ & _ & Hr & -> & -> & _) Hi. destruct (Forall_lookup_1 _ _ _ _ Hr Hi) as [? ?].
  pose proof (sum_by_elem r_reserved rs i r) as H1. pose proof (sum_by_elem r_charged rs i r) as H2.
  lapply H1; [clear H1; intros H1; specialize (H1 Hi)|eapply Forall_impl; [exact Hr|]; by intros x []].
  lapply H2; [clear H2; intros H2; specialize (H2 Hi)|eapply Forall_impl; [exact Hr|]; by intros x []]. lia.
Qed.

Lemma seq_ok_nonneg quota min_free l rs : seq_ok quota min_free (l, rs) -> 0 <= reserved_bytes l /\ 0 <= charged_bytes l.
Proof.
  intros (_ & _ & Hr & -> & -> & _). split; apply sum_by_nonneg; (eapply Forall_impl; [exact Hr|]; by intros x []).
Qed.

Lemma seq_ok_update quota min_free l rs i r l' r' dr dc :
  seq_ok quota min_free (l, rs) -> rs !! i = Some r -> moves l l' dr dc ->
  r_reserved r' = r_reserved r + dr -> r_charged r' = r_charged r + dc -> 0 <= r_reserved r' -> 0 <= r_charged r' ->
  reserved_bytes l + charged_bytes l + dr + dc <= quota -> seq_ok quota min_free (l', <[i := r']> rs).
Proof.
  intros (E1 & E2 & Hr & E3 & E4 & Hm) Hi (M1 & M2 & M3 & M4) Er Ec H1 H2 Hq.
  unfold seq_ok. split; [congruence|]. split; [congruence|]. split; [by apply Forall_insert|].
  rewrite !(sum_by_insert _ _ _ _ _ Hi). lia.
Qed.

Lemma seq_ok_step quota min_free st st' :
  quota <= u64_max -> seq_ok quota min_free st -> seq_step st st' -> seq_ok quota min_free st'.
Proof.
  intros Hq Ha Hs. destruct Hs as [l rs bytes l' r Hb E|l rs i r bytes l' r' answer Hb Hi E|l rs i r bytes l' r' answer Hb Hi E|
    l rs i r bytes l' r' answer Hb Hi E|l rs i r Hi]; pose proof (seq_ok_nonneg _ _ _ _ Ha) as [Hnr Hnc];
    pose proof Ha as (Eq & Em & Hr & Er & Ec & Hm); try (unfold in_u64 in Hb);
    try pose proof (seq_ok_bounds _ _ _ _ _ _ Ha Hi) as [Br Bc].
  - pose proof (ledger_reserve_spec l ltac:(lia) Hnc Hnr ltac:(lia) bytes ltac:(lia)) as Hs. rewrite E in Hs.
    destruct Hs as (-> & (M1 & M2 & M3 & M4) & Hfit). split; [congruence|]. split; [congruence|].
    split; [apply Forall_app_2; [done|]; apply Forall_singleton; cbn; lia|]. rewrite !sum_by_app. unfold sum_by in *. cbn [foldr r_reserved r_charged]. lia.
  - assert (Hs : let '(l', r', answer) := reserve_additional l r bytes in _)
      by (apply (reserve_additional_spec l); lia). rewrite E in Hs.
    destruct answer; [|by destruct Hs as (-> & -> & _); rewrite list_insert_id|done].
    destruct Hs as (-> & Hmv & Hfit). eapply seq_ok_update; eauto; cbn; lia.
  - assert (Hs : let '(l', r', answer) := commit_written l r bytes in _)
      by (apply (commit_written_spec l); lia). rewrite E in Hs.
    destruct answer; [|by destruct Hs as (_ & -> & ->); rewrite list_insert_id|done].
    destruct Hs as (Hle & -> & Hmv). eapply seq_ok_update; eauto; cbn; lia.
  - assert (Hs : let '(l', r', answer) := release_written l r bytes in _)
      by (apply (release_written_spec l); lia). rewrite E in Hs.
    destruct answer; [|by destruct Hs as (_ & -> & ->); rewrite list_insert_id|done].
    destruct Hs as (Hle & -> & Hmv). eapply seq_ok_update; eauto; cbn; lia.
  - destruct (drop_moves l r ltac:(lia) Br Bc ltac:(lia)) as (M1 & M2 & M3 & M4).
    unfold seq_ok. split; [congruence|]. split; [congruence|]. split; [by apply Forall_delete|].
    rewrite !(sum_by_delete _ _ _ _ Hi). lia.
Qed.

(** *** The functions are the steps of an undisturbed slot *)

Definition slot_steps : TempQuotaLedger * slot -> TempQuotaLedger * slot -> Prop :=
  rtc (fun a b => slot_step (fst a) (snd a) (fst b) (snd b)).

Lemma slot_steps_one l s l' s' : slot_step l s l' s' -> slot_steps (l, s) (l', s').
Proof. intros Hs. by eapply rtc_once. Qed.

Lemma slot_steps_l l s l1 s1 b : slot_step l s l1 s1 -> slot_steps (l1, s1) b -> slot_steps (l, s) b.
Proof. intros Hs Hr. by eapply rtc_l; [|exact Hr]. Qed.

Lemma reserve_steps l r bytes l' r' answer :
  0 < bytes -> in_u64 bytes -> r_reserved r + bytes <= u64_max ->
  reserve_additional l r bytes = (l', r', answer) -> slot_steps (l, mkSlot r Idle) (l', mkSlot r' Idle).
Proof.
  intros Hb Hu Hfit E. unfold reserve_additional, ledger_reserve in E. destruct (Z.eqb_spec bytes 0); [lia|].
  apply (slot_steps_l _ _ _ _ _ (step_reserve l r bytes Hb Hu)). eapply slot_steps_l; [apply step_load_charged|].
  eapply slot_steps_l; [apply step_load_reserved|].
  destruct (reserve_check (quota_bytes l) (charged_bytes l) (reserved_bytes l) bytes) as [[]|e|] eqn:Ec.
  - cbn [r_reserved r_charged] in E. rewrite checked_add_le in E by (cbn; lia). injection E as <- <- <-.
    apply slot_steps_one. by apply step_exchange.
  - injection E as <- <- <-. apply slot_steps_one. by eapply step_reserve_fails.
  - unfold reserve_check in Ec. destruct (checked_add (charged_bytes l) _) as [t|]; [|done].
    destruct (checked_add t _) as [total|]; [|done]. cbn [ok_or] in Ec. by destruct (quota_bytes l <? total).
Qed.

Lemma commit_steps l r bytes l' r' :
  0 < bytes -> r_charged r + bytes <= u64_max ->
  commit_written l r bytes = (l', r', Ok tt) -> slot_steps (l, mkSlot r Idle) (l', mkSlot r' Idle).
Proof.
  intros Hb Hfit E. unfold commit_written in E. destruct (Z.ltb_spec (r_reserved r) bytes); [done|].
  unfold commit in E. destruct (Z.eqb_spec bytes 0); [lia|].
  destruct (checked_add _ bytes) as [charged|] eqn:Ea in E; [|done]. cbn [r_charged r_reserved] in E.
  rewrite checked_add_le in E by (cbn; lia). injection E as <- <-.
  eapply slot_steps_l; [apply (step_commit_sub _ _ bytes); lia|]. apply slot_steps_one. by apply step_commit_add.
Qed.

Lemma drop_steps l r : slot_steps (l, mkSlot r Idle) (reservation_drop l r, mkSlot reservation_empty Idle).
Proof. eapply slot_steps_l; [apply step_drop_reserved|]. apply slot_steps_one, step_drop_charged. Qed.

(** Steps of one slot are steps of the system. *)
Lemma slot_steps_system l s l' s' slots i :
  slot_steps (l, s) (l', s') -> slots !! i = Some s -> rtc step (mkSystem l slots) (mkSystem l' (<[i := s']> slots)).
Proof.
  intros Hs. remember (l, s) as a eqn:Ea. remember (l', s') as b eqn:Eb. revert l s slots Ea.
  induction Hs as [a|a [l1 s1] b Hs _ IH]; intros l s slots -> Hi.
  - injection Eb as -> ->. rewrite list_insert_id by done. reflexivity.
  - eapply rtc_l; [by eapply step_slot|]. cbn [fst snd] in *. rewrite <- (list_insert_insert_eq slots i s' s1).
    eapply IH; [done..|]. apply list_lookup_insert_eq. by apply lookup_lt_Some in Hi.
Qed.

(** ** Properties *)

(** With any interleaving of the atomic steps of [n] reservations, as long
    as [n] times the quota fits a [u64]: the shared counters always show what
    the reservations hold, bytes in transit in a commit aside; no subtraction
    wraps and no commit overflows; no single reservation ever holds more than
    the quota, so together they hold at most [n] times the quota; and when all
    are dropped the ledger is back to zero. *)
Theorem quota_interleaved n quota min_free sys :
  0 < quota -> Z.of_nat n * quota <= u64_max -> reachable n quota min_free sys ->
  reserved_bytes (sys_ledger sys) = sum_by shown_reserved (sys_slots sys) /\
  charged_bytes (sys_ledger sys) = sum_by shown_charged (sys_slots sys) /\
  Forall (fun s => 0 <= r_reserved (s_res s) /\ 0 <= r_charged (s_res s) /\ held s <= quota) (sys_slots sys) /\
  0 <= reserved_bytes (sys_ledger sys) + charged_bytes (sys_ledger sys) <= Z.of_nat n * quota /\
  (forall r bytes, mkSlot r (Committing bytes) ∈ sys_slots sys -> is_Some (checked_add (charged_bytes (sys_ledger sys)) bytes)) /\
  (Forall (fun s => s = mkSlot reservation_empty Idle) (sys_slots sys) ->
     reserved_bytes (sys_ledger sys) = 0 /\ charged_bytes (sys_ledger sys) = 0).
Proof.
  intros Hq Hf Hr. apply reachable_accounts in Hr; [|done..]. pose proof Hr as (Hn & Eq & Hok & -> & ->).
  assert (forall f, (forall s, slot_ok quota s -> 0 <= f s) -> 0 <= sum_by f (sys_slots sys)) as Hnn
    by (intros f Hfs; apply sum_by_nonneg; eapply Forall_impl; [exact Hok|done]).
  pose proof (Hnn shown_reserved (fun s Hs => proj1 (slot_shown quota s Hs))).
  pose proof (Hnn shown_charged (fun s Hs => proj1 (proj2 (slot_shown quota s Hs)))).
  pose proof (sum_by_bound (fun s => shown_reserved s + shown_charged s) (sys_slots sys) quota) as Hb.
  lapply Hb; [clear Hb; intros Hb|eapply Forall_impl; [exact Hok|]; intros s Hs; pose proof (slot_shown quota s Hs); destruct Hs as (_ & _ & ? & _); lia].
  rewrite sum_by_plus in Hb. unfold len in Hb. rewrite Hn in Hb.
  split; [done|]. split; [done|]. split; [eapply Forall_impl; [exact Hok|]; intros s (? & ? & ? & _); done|].
  split; [lia|]. split.
  - intros r bytes Hin. apply list_elem_of_lookup in Hin as [i Hi]. destruct (accounts_bounds n quota Hf sys i _ Hr Hi) as (B1 & _ & B3).
    pose proof (Forall_lookup_1 _ _ _ _ Hok Hi) as (S1 & S2 & _ & S3). unfold held, shown_reserved, shown_charged in B1, B3. cbn in *.
    destruct Hr as (_ & _ & _ & Er & Ec). pose proof (Hnn shown_reserved (fun s Hs => proj1 (slot_shown quota s Hs))).
    unfold checked_add. replace (sum_by shown_charged (sys_slots sys)) with (charged_bytes (sys_ledger sys)) by done.
    destruct (Z.leb_spec (charged_bytes (sys_ledger sys) + bytes) u64_max); [done|lia].
  - intros He. clear -He. unfold sum_by. induction He as [|s l -> _ [IH1 IH2]]; [done|]. cbn. rewrite IH1, IH2. done.
Qed.

(** When every operation completes before the next one begins, the bytes
    reserved and written together never exceed the quota, and are exactly what
    the live reservations hold; so the ledger enforces its budget whenever the
    atomic steps do not interleave. *)
Theorem quota_sequential quota min_free l l' rs :
  0 <= quota <= u64_max -> ledger_new quota min_free = Ok l -> rtc seq_step (l, []) (l', rs) ->
  reserved_bytes l' + charged_bytes l' <= quota /\
  reserved_bytes l' = sum_by r_reserved rs /\ charged_bytes l' = sum_by r_charged rs /\
  (forall i r bytes, rs !! i = Some r -> 0 <= bytes ->
     is_ok (snd (reserve_additional l' r bytes)) = bool_decide (charged_bytes l' + reserved_bytes l' + bytes <= quota)).
Proof.
  intros Hq Hnew Hs. unfold ledger_new in Hnew. destruct (negb _); [|done]. injection Hnew as <-.
  assert (seq_ok quota min_free (l', rs)) as Hok.
  { assert (seq_ok quota min_free (mkLedger quota min_free 0 0, [])) as H0 by (unfold seq_ok; cbn; repeat split; (constructor || lia)).
    revert H0 Hs. generalize (mkLedger quota min_free 0 0, @nil TempReservation). intros st H0 Hs.
    remember (l', rs) as st' eqn:Est. clear Est. induction Hs; [done|]. eauto using seq_ok_step with lia. }
  pose proof Hok as (Eq & Em & Hr & Er & Ec & Hm). split; [done|]. split; [done|]. split; [done|].
  intros i r bytes Hi Hb. destruct (seq_ok_bounds _ _ _ _ _ _ Hok Hi) as [Br Bc].
  assert (Hsp : let '(l1, r', answer) := reserve_additional l' r bytes in _) by (apply (reserve_additional_spec l'); lia).
  destruct (reserve_additional l' r bytes) as [[l1 r'] [[]|e|]]; cbn [snd is_ok]; [| |done].
  - rewrite bool_decide_true; [done|]. lia.
  - rewrite bool_decide_false; [done|]. lia.
Qed.

(** An undisturbed reservation of [bytes] followed by their commit. *)
Lemma reserve_commit_steps l bytes :
  0 < bytes -> in_u64 bytes -> 0 <= charged_bytes l -> reserved_bytes l = 0 ->
  charged_bytes l + bytes <= quota_bytes l -> quota_bytes l <= u64_max ->
  slot_steps (l, mkSlot reservation_empty Idle)
    (set_charged l (charged_bytes l + bytes), mkSlot (mkReservation 0 bytes) Idle).
Proof.
  intros Hb Hu Hc Hr Hq Hm. destruct l as [q m c v]. cbn [charged_bytes reserved_bytes quota_bytes] in *. subst v.
  etrans; [eapply (reserve_steps _ _ bytes (mkLedger q m c bytes) (mkReservation bytes 0) (Ok tt))|
           eapply (commit_steps _ _ bytes)]; [done..| | |done| |]; try (cbn; unfold u64_max in *; lia).
  - unfold reserve_additional, ledger_reserve. destruct (Z.eqb_spec bytes 0); [lia|]. cbn [quota_bytes charged_bytes reserved_bytes].
    pose proof (reserve_check_iff q c 0 bytes) as Hk. destruct (reserve_check q c 0 bytes); [|lia..]. cbn [r_reserved r_charged reservation_empty].
    by rewrite checked_add_le by (cbn; lia).
  - unfold commit_written, commit. cbn [r_reserved r_charged]. destruct (Z.ltb_spec bytes bytes); [lia|]. destruct (Z.eqb_spec bytes 0); [lia|].
    cbn [charged_bytes set_reserved]. rewrite checked_add_le by (cbn; lia). rewrite checked_add_le by lia.
    unfold set_charged, set_reserved. cbn. rewrite as_u64_small by (unfold u64_max; lia). by rewrite !Z.sub_diag.
Qed.

(** ** What the ledger does not promise *)

(** Two reservations can hold the whole quota each: a reservation that loaded
    the charged bytes before another one committed misses the committed bytes
    in both counters. *)
Theorem quota_can_be_exceeded quota min_free :
  0 < quota -> 2 * quota <= u64_max ->
  exists sys, reachable 2 quota min_free sys /\
    reserved_bytes (sys_ledger sys) + charged_bytes (sys_ledger sys) = 2 * quota.
Proof.
  intros Hq Hf. assert (in_u64 quota) as Hu by (unfold in_u64, u64_max in *; lia).
  set (l0 := mkLedger quota min_free 0 0). set (e := mkSlot reservation_empty Idle).
  set (a1 := mkSlot reservation_empty (LoadedCharged quota 0)). set (b := mkSlot (mkReservation 0 quota) Idle).
  set (l1 := mkLedger quota min_free quota 0). set (l2 := mkLedger quota min_free quota quota).
  exists (mkSystem l2 [mkSlot (mkReservation quota 0) Idle; b]). split; [|cbn; lia].
  unfold reachable. change (initial 2 quota min_free) with (mkSystem l0 [e; e]).
  assert (slot_steps (l0, e) (l0, a1)) as H1.
  { apply (slot_steps_l _ _ _ _ _ (step_reserve l0 _ quota Hq Hu)). apply slot_steps_one, (step_load_charged l0). }
  assert (slot_steps (l0, e) (l1, b)) as H2.
  { apply (reserve_commit_steps l0 quota); cbn; try lia; done. }
  assert (slot_steps (l1, a1) (l2, mkSlot (mkReservation quota 0) Idle)) as H3.
  { apply (slot_steps_l _ _ _ _ _ (step_load_reserved l1 reservation_empty quota 0)). apply slot_steps_one.
    apply (step_exchange l1 reservation_empty quota 0 0); [|done].
    pose proof (reserve_check_iff quota 0 0 quota) as Hk. cbn [quota_bytes l1 reserved_bytes].
    destruct (reserve_check quota 0 0 quota) as [[]|?|]; [done|lia..]. }
  etrans; [exact (slot_steps_system _ _ _ _ [e; e] 0 H1 eq_refl)|]. cbn [list_insert insert].
  etrans; [exact (slot_steps_system _ _ _ _ [a1; e] 1 H2 eq_refl)|]. cbn [list_insert insert].
  exact (slot_steps_system _ _ _ _ [a1; b] 0 H3 eq_refl).
Qed.

(** Reconciling existing bytes compares the counter before the update. *)
Theorem account_existing_exceeds quota min_free bytes :
  0 < quota -> 0 < min_free -> quota < bytes <= u64_max ->
  exists l l', ledger_new quota min_free = Ok l /\ account_existing l bytes = (l', Ok tt) /\ quota < charged_bytes l'.
Proof.
  intros Hq Hm Hb. unfold ledger_new. destruct (Z.eqb_spec quota 0); [lia|]. destruct (Z.eqb_spec min_free 0); [lia|]. cbn [orb negb].
  eexists _, _. split; [done|]. unfold account_existing. cbn [charged_bytes quota_bytes]. rewrite checked_add_le by lia.
  cbn [quota_bytes set_charged]. destruct (Z.ltb_spec quota 0); [lia|]. split; [reflexivity|]. cbn. lia.
Qed.

(** ** Witnesses *)

Definition sample_ledger : TempQuotaLedger := mkLedger 100 10 60 0.

Lemma quota_interleaved_witness :
  reachable 2 100 10 (mkSystem sample_ledger [mkSlot (mkReservation 0 60) Idle; mkSlot reservation_empty Idle]) /\
  0 <= reserved_bytes sample_ledger + charged_bytes sample_ledger <= 200.
Proof.
  assert (reachable 2 100 10 (mkSystem sample_ledger [mkSlot (mkReservation 0 60) Idle; mkSlot reservation_empty Idle])) as H.
  { apply (slot_steps_system (mkLedger 100 10 0 0) (mkSlot reservation_empty Idle) _ _
      [mkSlot reservation_empty Idle; mkSlot reservation_empty Idle] 0); [|reflexivity].
    apply (reserve_commit_steps (mkLedger 100 10 0 0) 60); unfold in_u64, u64_max; cbn; lia. }
  split; [exact H|].
  refine (proj1 (proj2 (proj2 (proj2 (quota_interleaved 2 100 10 _ _ _ H))))); unfold u64_max; lia.
Defined.

Lemma quota_sequential_witness :
  rtc seq_step (mkLedger 100 10 0 0, []) (sample_ledger, [mkReservation 0 60]) /\
  is_ok (snd (reserve_additional sample_ledger (mkReservation 0 60) 40)) = true /\
  is_ok (snd (reserve_additional sample_ledger (mkReservation 0 60) 41)) = false.
Proof.
  assert (rtc seq_step (mkLedger 100 10 0 0, []) (sample_ledger, [mkReservation 0 60])) as H.
  { eapply rtc_l; [apply (seq_new _ _ 60 (mkLedger 100 10 0 60) (mkReservation 60 0)); [unfold in_u64; lia|reflexivity]|].
    apply rtc_once. exact (seq_commit (mkLedger 100 10 0 60) [mkReservation 60 0] 0 (mkReservation 60 0) 60 sample_ledger (mkReservation 0 60) (Ok tt) ltac:(unfold in_u64; lia) eq_refl eq_refl). }
  split; [exact H|].
  destruct (quota_sequential 100 10 _ _ _ ltac:(unfold u64_max; lia) eq_refl H) as (_ & _ & _ & Hr).
  split; (etrans; [apply (Hr 0%nat _ _ eq_refl); lia|]); reflexivity.
Defined.
