(* ===== verification/RateLimit.v ===== *)
(** * Rate limits (src/xet-common/src/lib.rs, actix_governor)

    The period after which the rate limiter grants the next request, and the
    limiter's builder, which is third-party code. *)
From S2P Require Import Prelude Quota.

Local Open Scope Z_scope.

(** actix_governor's builder: from a period in nanoseconds and a burst size. *)
Class Governor := { GovernorConfig : Type; governor_finish : Z -> Z -> option GovernorConfig }.
Class GovernorLaws `{Governor} : Prop := governor_finish_iff : forall period burst, is_Some (governor_finish period burst) <-> period <> 0 /\ burst <> 0.

(** The period of the rate limiter. *)
Lemma rate_limit_period_spec rpm : 0 < rpm -> exists period, rate_limit_period rpm = Some period /\ 0 < period /\ NANOS_PER_MINUTE <= period * rpm < NANOS_PER_MINUTE + rpm.
Proof.
  intros Hr. unfold rate_limit_period. destruct (Z.eqb_spec rpm 0); [lia|]. eexists. split; [done|].
  pose proof (Z.div_mod (NANOS_PER_MINUTE + rpm - 1) rpm ltac:(lia)). pose proof (Z.mod_pos_bound (NANOS_PER_MINUTE + rpm - 1) rpm ltac:(lia)).
  assert (0 < NANOS_PER_MINUTE) by done. nia.
Qed.

(** ** A model of the builder *)
Module GovernorModel.
#[export] Instance builder : Governor := {|
  GovernorConfig := Z * Z;
  governor_finish period burst := if (period =? 0) || (burst =? 0) then None else Some (period, burst);
|}.
#[export] Instance builder_laws : GovernorLaws.
Proof.
  intros period burst. cbn. destruct (Z.eqb_spec period 0), (Z.eqb_spec burst 0); cbn; (split; [intros [? E]; try discriminate E; done|]);
    intros [? ?]; try done; by eexists.
Qed.
End GovernorModel.
