(* ===== verification/TokenCrates.v ===== *)
(** * Interfaces of the token code: base64, serde_json, ed25519_dalek

    As in [Crates]: operations, the documented laws the program relies on, and
    concrete models that satisfy them.  The data types of a token are here
    because the interface to serde_json mentions them. *)
From S2P Require Import Prelude Bytes Crates Text.
From Stdlib Require Import Ascii.

Local Open Scope Z_scope.

(** ** The data of a token (xet-auth-types/src/lib.rs) *)
Record XetClaims := mkClaims {
  sub : string;
  scope : string;
  repo_id : string;
  repo_type : string;
  revision : string;
  exp : Z;
  iat : Z;
  kid : string;
  token_type : string;
  oid : option string;
  operation : option string;
}.

Record JwtHeader := mkHeader {
  h_alg : string;
  h_typ : string;
  h_kid : string;
}.

(** ** base64: the URL-safe alphabet without padding, and the standard one *)
Class Base64 := {
  url_encode : list byte -> string;
  url_decode : string -> option (list byte);
  std_decode : string -> option (list byte);
}.
(** Decoding inverts encoding; the alphabet has no dot. *)
Class Base64Laws `{Base64} : Prop := {
  url_decode_encode : forall bs, url_decode (url_encode bs) = Some bs;
  url_encode_alphabet : forall bs, contains_char "."%char (url_encode bs) = false;
}.

(** ** serde_json on the two records *)
Class TokenJson := {
  header_to_vec : JwtHeader -> option (list byte);
  header_from_slice : list byte -> option JwtHeader;
  claims_to_vec : XetClaims -> option (list byte);
  claims_from_slice : list byte -> option XetClaims;
}.
(** Serialization succeeds and is read back; a number read into a [u64] fits it. *)
Class TokenJsonLaws `{TokenJson} : Prop := {
  header_json : forall h, exists bs, header_to_vec h = Some bs /\ header_from_slice bs = Some h;
  claims_json : forall c, in_u64 (exp c) -> in_u64 (iat c) ->
    exists bs, claims_to_vec c = Some bs /\ claims_from_slice bs = Some c;
  claims_range : forall bs c, claims_from_slice bs = Some c -> in_u64 (exp c) /\ in_u64 (iat c);
}.

(** ** ed25519_dalek: a signature is its 64 bytes, a message its string *)
Class Ed25519 := {
  SigningKey : Type;
  VerifyingKey : Type;
  verifying_key : SigningKey -> VerifyingKey;
  verifying_key_bytes : VerifyingKey -> list byte;
  verifying_key_eqb : VerifyingKey -> VerifyingKey -> bool;
  ed_sign : SigningKey -> string -> list byte;
  ed_verify : VerifyingKey -> string -> list byte -> bool;
}.
Class Ed25519Laws `{Ed25519} : Prop := {
  verifying_key_length : forall k, length (verifying_key_bytes k) = 32%nat;
  verifying_key_eqb_eq : forall a b, verifying_key_eqb a b = true <-> a = b;
  ed_sign_length : forall k m, length (ed_sign k m) = 64%nat;
  ed_verify_sign : forall k m, ed_verify (verifying_key k) m (ed_sign k m) = true;
}.

(** [Signature::from_slice]: fails on a slice of another length than 64. *)
Definition signature_from_slice (bs : list byte) : option (list byte) :=
  if (length bs =? 64)%nat then Some bs else None.

(** ** Concrete models *)
Module TokenModel.
Fixpoint pos_bits (p : positive) : list byte :=
  match p with
  | xH => []
  | xO p => byte.of_Z 0 :: pos_bits p
  | xI p => byte.of_Z 1 :: pos_bits p
  end.
Fixpoint bits_pos (bs : list byte) : positive :=
  match bs with
  | [] => xH
  | b :: bs => if byte.unsigned b =? 0 then xO (bits_pos bs) else xI (bits_pos bs)
  end.
Lemma bits_pos_bits p : bits_pos (pos_bits p) = p.
Proof. induction p as [p IH|p IH|]; cbn; by rewrite ?IH. Qed.

Definition claims_fields (c : XetClaims) : list positive :=
  [encode (sub c); encode (scope c); encode (repo_id c); encode (repo_type c); encode (revision c);
   encode (exp c); encode (iat c); encode (kid c); encode (token_type c); encode (oid c); encode (operation c)].
Definition fields_claims (l : list positive) : option XetClaims :=
  match l with
  | [a; b; c; d; e; f; g; h; i; j; k] =>
      match decode a, decode b, decode c, decode d, decode e, decode f, decode g, decode h, decode i, decode j, decode k with
      | Some a, Some b, Some c, Some d, Some e, Some f, Some g, Some h, Some i, Some j, Some k =>
          if (0 <=? f) && (f <=? u64_max) && (0 <=? g) && (g <=? u64_max)
          then Some (mkClaims a b c d e f g h i j k) else None
      | _, _, _, _, _, _, _, _, _, _, _ => None
      end
  | _ => None
  end.

Definition base64 : Base64 := {|
  url_encode := Model.encode;
  url_decode := Model.decode;
  std_decode := Model.decode;
|}.
Definition json : TokenJson := {|
  header_to_vec h := Some (pos_bits (encode [h_alg h; h_typ h; h_kid h]));
  header_from_slice bs :=
    match decode (bits_pos bs) with Some [a; t; k] => Some (mkHeader a t k) | _ => None end;
  claims_to_vec c := Some (pos_bits (encode (claims_fields c)));
  claims_from_slice bs := match decode (bits_pos bs) with Some l => fields_claims l | None => None end;
|}.
(** Keys are numbers; a signature depends on the key and the message. *)
Definition sig_of (k : Z) (m : string) : list byte :=
  Model.digest k (String.list_byte_of_string m) ++ Model.digest (k + 1) (String.list_byte_of_string m).
Definition ed25519 : Ed25519 := {|
  SigningKey := Z;
  VerifyingKey := Z;
  verifying_key k := k;
  verifying_key_bytes k := Model.digest k [];
  verifying_key_eqb := Z.eqb;
  ed_sign := sig_of;
  ed_verify k m sig := bool_decide (sig = sig_of k m);
|}.

Lemma base64_laws : @Base64Laws base64.
Proof.
  split; cbn; [apply Model.hex_laws|]. intros bs. eapply (string_forallb_contains is_lower_hex_digit); [done|].
  apply Model.hex_laws.
Qed.

Lemma json_laws : @TokenJsonLaws json.
Proof.
  split; cbn [header_to_vec header_from_slice claims_to_vec claims_from_slice json].
  - intros [a t k]. eexists. split; [done|]. by rewrite bits_pos_bits, decode_encode.
  - intros c He Hi. eexists. split; [done|]. rewrite bits_pos_bits, decode_encode. unfold fields_claims, claims_fields.
    rewrite !decode_encode. unfold in_u64, u64_max in *. destruct c as [? ? ? ? ? e i ? ? ? ?]. cbn [exp iat sub scope repo_id repo_type revision kid token_type oid operation] in *.
    replace (0 <=? e) with true by lia. replace (e <=? 2 ^ 64 - 1) with true by lia.
    replace (0 <=? i) with true by lia. by replace (i <=? 2 ^ 64 - 1) with true by lia.
  - intros bs c. destruct (decode (bits_pos bs)) as [l|]; [|done]. unfold fields_claims.
    do 11 (destruct l as [|? l]; [done|]). destruct l; [|done].
    repeat match goal with |- context [match ?x with Some _ => _ | None => _ end] => destruct x; [|done] end.
    destruct (_ && _ && _ && _) eqn:E; [|done]. intros [= <-]. cbn [exp iat]. bool_to_prop. unfold in_u64, u64_max in *. lia.
Qed.

Lemma ed25519_laws : @Ed25519Laws ed25519.
Proof.
  split; cbn; [intros; apply Model.digest_length|apply Z.eqb_eq| |].
  - intros. unfold sig_of. by rewrite length_app, !Model.digest_length.
  - intros. by apply bool_decide_eq_true.
Qed.
End TokenModel.
