(* ===== verification/Tokens.v ===== *)
(** * The token wire format (xet-auth-types/src/lib.rs)

    Signing and verification as the shared crate does them; [now] is what the
    system clock answers, [None] when it is before the epoch. *)
From S2P Require Import Prelude Bytes Crates Text TokenCrates.
From Stdlib Require Import Ascii.

Local Open Scope string_scope.
Local Open Scope Z_scope.

Inductive TokenKind := User | Proxy | Internal.
#[export] Instance TokenKind_eq_dec : EqDecision TokenKind.
Proof. solve_decision. Defined.

Inductive TokenWireError :=
| InvalidToken
| Expired
| InvalidSignature
| UnknownKid.

Definition MAX_TOKEN_LIFETIME_SECS : Z := 7 * 24 * 3600.

Definition prefix (k : TokenKind) : string :=
  match k with User => "xet_" | Proxy => "proxy_" | Internal => "internal_" end.
Definition kind_type (k : TokenKind) : string :=
  match k with User => "user" | Proxy => "proxy" | Internal => "internal" end.

Fixpoint first_prefix (kinds : list TokenKind) (token : string) : option (TokenKind * string) :=
  match kinds with
  | [] => None
  | kind :: kinds =>
      match strip_prefix (prefix kind) token with
      | Some body => Some (kind, body)
      | None => first_prefix kinds token
      end
  end.
Definition from_prefix (token : string) : option (TokenKind * string) := first_prefix [User; Proxy; Internal] token.

Definition token_parts (token : string) : outcome TokenWireError (TokenKind * (string * string * string)) :=
  let* ' (kind, token_body) := ok_or (from_prefix token) InvalidToken in
  match split_on "."%char token_body with
  | [header; claims; signature] => Ok (kind, (header, claims, signature))
  | _ => Err InvalidToken
  end.

Section Tokens.
Context `{Base64, TokenJson, Ed25519}.

Definition decode_header (encoded : string) : outcome TokenWireError JwtHeader :=
  let* header_bytes := ok_or (url_decode encoded) InvalidToken in
  let* header := ok_or (header_from_slice header_bytes) InvalidToken in
  if negb (h_alg header =? "EdDSA")%string || negb (h_typ header =? "JWT")%string then Err InvalidToken
  else if (h_kid header =? "")%string then Err UnknownKid
  else Ok header.

Definition validate_claims_for_kind (claims : XetClaims) (kind : TokenKind) : outcome TokenWireError unit :=
  if negb (token_type claims =? kind_type kind)%string || (kid claims =? "")%string then Err InvalidToken
  else
    let* lifetime := ok_or (checked_sub (exp claims) (iat claims)) InvalidToken in
    if (lifetime =? 0) || (MAX_TOKEN_LIFETIME_SECS <? lifetime) then Err InvalidToken
    else if decide (kind = Proxy) then
      let oid := match oid claims with Some o => if is_blank o then None else Some o | None => None end in
      let* expected_scope :=
        match operation claims with
        | Some op =>
            if (op =? "upload")%string then Ok "lfs-upload"
            else if (op =? "download")%string then Ok "lfs-download"
            else Err InvalidToken
        | None => Err InvalidToken
        end in
      if (match oid with None => true | Some _ => false end) || negb (scope claims =? expected_scope)%string
      then Err InvalidToken else Ok tt
    else Ok tt.

Definition unverified_token_kid (token : string) : outcome TokenWireError string :=
  let* ' (_, parts) := token_parts token in
  let '(header, _, _) := parts in
  let* header := decode_header header in
  Ok (h_kid header).

Definition sign_claims (claims : XetClaims) (signing_key : SigningKey) (kind : TokenKind) : outcome TokenWireError string :=
  let* _ := validate_claims_for_kind claims kind in
  let header := mkHeader "EdDSA" "JWT" (kid claims) in
  let* header_json := ok_or (header_to_vec header) InvalidToken in
  let header_b64 := url_encode header_json in
  let* claims_json := ok_or (claims_to_vec claims) InvalidToken in
  let claims_b64 := url_encode claims_json in
  let signing_input := header_b64 +:+ "." +:+ claims_b64 in
  let signature := ed_sign signing_key signing_input in
  Ok (prefix kind +:+ signing_input +:+ "." +:+ url_encode signature).

Definition verify_token_any_kind (now : option Z) (token : string) (public_key : VerifyingKey) (expected_kid : string)
  : outcome TokenWireError (TokenKind * XetClaims) :=
  let* ' (kind, parts) := token_parts token in
  let '(header_part, claims_part, signature_part) := parts in
  let* header := decode_header header_part in
  ensure (h_kid header =? expected_kid)%string else UnknownKid in
  let* signature_bytes := ok_or (url_decode signature_part) InvalidToken in
  let* signature := ok_or (signature_from_slice signature_bytes) InvalidSignature in
  let signing_input := header_part +:+ "." +:+ claims_part in
  ensure ed_verify public_key signing_input signature else InvalidSignature in
  let* claims_bytes := ok_or (url_decode claims_part) InvalidToken in
  let* claims := ok_or (claims_from_slice claims_bytes) InvalidToken in
  ensure (kid claims =? expected_kid)%string else UnknownKid in
  ensure (token_type claims =? kind_type kind)%string else InvalidToken in
  let* now := ok_or now InvalidToken in
  if exp claims <=? now then Err Expired
  else if now <? iat claims then Err InvalidToken
  else if MAX_TOKEN_LIFETIME_SECS <? now - iat claims then Err Expired
  else
    let* _ := validate_claims_for_kind claims kind in
    Ok (kind, claims).

Definition verify_token (now : option Z) (token : string) (public_key : VerifyingKey) (expected_kid : string)
  (expected_kind : TokenKind) : outcome TokenWireError XetClaims :=
  let* ' (kind, claims) := verify_token_any_kind now token public_key expected_kid in
  if decide (kind = expected_kind) then Ok claims else Err InvalidToken.
End Tokens.

(** ** Specification *)

(** Claims a token of this kind may carry. *)
Definition proxy_claims (c : XetClaims) : Prop :=
  (exists o, oid c = Some o /\ is_blank o = false) /\
  ((operation c = Some "upload" /\ scope c = "lfs-upload") \/
   (operation c = Some "download" /\ scope c = "lfs-download")).
Definition claims_valid (k : TokenKind) (c : XetClaims) : Prop :=
  token_type c = kind_type k /\ kid c <> "" /\ 0 < exp c - iat c <= MAX_TOKEN_LIFETIME_SECS /\
  (k = Proxy -> proxy_claims c).

(** What the verification of a genuine token answers. *)
Definition verdict (now : option Z) (expected_kid : string) (k : TokenKind) (c : XetClaims)
  : outcome TokenWireError (TokenKind * XetClaims) :=
  if negb (kid c =? expected_kid)%string then Err UnknownKid
  else match now with
  | None => Err InvalidToken
  | Some t => if exp c <=? t then Err Expired else if t <? iat c then Err InvalidToken else Ok (k, c)
  end.

(** ** Lemmas *)

Lemma validate_claims_iff c k : validate_claims_for_kind c k = Ok tt <-> claims_valid k c.
Proof.
  unfold validate_claims_for_kind, claims_valid.
  destruct (String.eqb_spec (token_type c) (kind_type k)) as [Ht|]; cbn [negb orb]; [|naive_solver].
  destruct (String.eqb_spec (kid c) ""); [naive_solver|]. unfold checked_sub.
  destruct (Z.leb_spec (iat c) (exp c)); cbn [ok_or]; [|split; [done|intros (_ & _ & ? & _); lia]].
  destruct (Z.eqb_spec (exp c - iat c) 0); cbn [orb]; [split; [done|intros (_ & _ & ? & _); lia]|].
  destruct (Z.ltb_spec MAX_TOKEN_LIFETIME_SECS (exp c - iat c)); [split; [done|intros (_ & _ & ? & _); lia]|].
  destruct (decide (k = Proxy)) as [->|]; [|split; [intros _; repeat split; (lia || done)|done]].
  assert (Hr : forall P : Prop, ((exp c - iat c > 0)%Z -> (P <-> proxy_claims c)) ->
    (P <-> token_type c = kind_type Proxy /\ kid c <> "" /\ 0 < exp c - iat c <= MAX_TOKEN_LIFETIME_SECS /\ (Proxy = Proxy -> proxy_claims c)))
    by (intros P HP; rewrite HP by lia; split; [intros Hp; split; [done|split; [done|split; [lia|done]]]|intros (_ & _ & _ & Hp); auto]).
  apply Hr. intros _. unfold proxy_claims.
  destruct (operation c) as [op|]; [|split; [done|intros [_ [[? _]|[? _]]]; done]].
  assert (forall e : string, (match (match oid c with Some o => if is_blank o then None else Some o | None => None end) with Some _ => false | None => true end)
      || negb (scope c =? e)%string = false <-> (exists o, oid c = Some o /\ is_blank o = false) /\ scope c = e) as Ho.
  { intros e. rewrite orb_false_iff, negb_false_iff, String.eqb_eq. destruct (oid c) as [o|]; [|naive_solver].
    destruct (is_blank o) eqn:Eb; naive_solver. }
  destruct (String.eqb_spec op "upload") as [->|]; [|destruct (String.eqb_spec op "download") as [->|]; [|naive_solver]].
  - specialize (Ho "lfs-upload"). match goal with |- context [if ?b then Err _ else _] => destruct b end; naive_solver.
  - specialize (Ho "lfs-download"). match goal with |- context [if ?b then Err _ else _] => destruct b end; naive_solver.
Qed.

Lemma validate_claims_not_panic c k : validate_claims_for_kind c k <> Panic.
Proof.
  unfold validate_claims_for_kind. repeat case_match; try done; unfold ok_or in *; repeat case_match; simplify_eq.
Qed.

Lemma from_prefix_Some token k body : from_prefix token = Some (k, body) <-> token = prefix k +:+ body.
Proof.
  unfold from_prefix. cbn [first_prefix]. split.
  - repeat (destruct (strip_prefix _ token) eqn:E; [apply strip_prefix_Some in E; by intros [= <- <-]|clear E]). done.
  - intros ->. destruct k; cbn [prefix]; try (by rewrite strip_prefix_app).
    all: by rewrite ?strip_prefix_app.
Qed.

Lemma token_parts_Ok token k h m s :
  token_parts token = Ok (k, (h, m, s)) <->
  token = prefix k +:+ h +:+ "." +:+ m +:+ "." +:+ s /\
  contains_char "."%char h = false /\ contains_char "."%char m = false /\ contains_char "."%char s = false.
Proof.
  unfold token_parts. transitivity (exists body, from_prefix token = Some (k, body) /\ split_on "."%char body = [h; m; s]).
  - destruct (from_prefix token) as [[k' body]|]; cbn [ok_or]; [|split; [done|by intros (? & ? & ?)]]. split.
    + intros E. exists body. destruct (split_on "."%char body) as [|? [|? [|? []]]]; try done. by injection E as -> -> -> ->.
    + intros (? & [= -> ->] & ->). done.
  - split.
    + intros (body & Hb & Hs). apply from_prefix_Some in Hb as ->. apply split_on_three in Hs as (-> & ?). done.
    + intros (-> & Hs). exists (h +:+ "." +:+ m +:+ "." +:+ s). split; [by apply from_prefix_Some|]. by apply split_on_three.
Qed.

Lemma token_parts_not_panic token : token_parts token <> Panic.
Proof. unfold token_parts. destruct (from_prefix token) as [[]|]; cbn; [|done]. repeat case_match; done. Qed.

Lemma kind_type_inj k k' : kind_type k = kind_type k' -> k = k'.
Proof. by destruct k, k'. Qed.

Lemma dotted_inj h m h' m' :
  contains_char "."%char h = false -> contains_char "."%char h' = false ->
  contains_char "."%char m = false -> contains_char "."%char m' = false ->
  h +:+ "." +:+ m = h' +:+ "." +:+ m' -> h = h' /\ m = m'.
Proof.
  intros Hh Hh' Hm Hm' E. apply (f_equal (split_on "."%char)) in E.
  change ("." +:+ m) with (String "."%char m) in E. change ("." +:+ m') with (String "."%char m') in E.
  rewrite !split_on_app, !split_on_plain in E by done. by injection E.
Qed.

Section Facts.
Context `{Base64Laws, TokenJsonLaws, Ed25519Laws}.

Lemma decode_header_not_panic s : decode_header s <> Panic.
Proof. unfold decode_header. unfold ok_or. repeat case_match; simplify_eq; done. Qed.

Lemma sign_claims_Ok c sk k token :
  sign_claims c sk k = Ok token <->
  claims_valid k c /\ exists hj cj, header_to_vec (mkHeader "EdDSA" "JWT" (kid c)) = Some hj /\ claims_to_vec c = Some cj /\
    let input := url_encode hj +:+ "." +:+ url_encode cj in
    token = prefix k +:+ input +:+ "." +:+ url_encode (ed_sign sk input).
Proof.
  unfold sign_claims. rewrite <- validate_claims_iff. destruct (validate_claims_for_kind c k) as [[]| |]; [|naive_solver..].
  destruct (header_to_vec _) as [hj|]; cbn [ok_or]; [|naive_solver]. destruct (claims_to_vec c) as [cj|]; cbn [ok_or]; [|naive_solver].
  split; [intros [= <-]; naive_solver|]. intros (_ & hj' & cj' & [= <-] & [= <-] & ->). done.
Qed.

Lemma sign_claims_total c sk k : in_u64 (exp c) -> in_u64 (iat c) -> claims_valid k c -> exists token, sign_claims c sk k = Ok token.
Proof.
  intros He Hi Hv. destruct (header_json (mkHeader "EdDSA" "JWT" (kid c))) as (hj & Eh & _). destruct (claims_json c He Hi) as (cj & Ec & _).
  eexists. apply sign_claims_Ok. split; [done|]. by exists hj, cj.
Qed.

Lemma signed_token_parts c sk k token :
  sign_claims c sk k = Ok token -> in_u64 (exp c) -> in_u64 (iat c) ->
  exists h m sg, token_parts token = Ok (k, (h, m, url_encode sg)) /\ decode_header h = Ok (mkHeader "EdDSA" "JWT" (kid c)) /\
    url_decode m ≫= claims_from_slice = Some c /\ signature_from_slice sg = Some sg /\
    ed_verify (verifying_key sk) (h +:+ "." +:+ m) sg = true /\ claims_valid k c.
Proof.
  intros Hs He Hi. apply sign_claims_Ok in Hs as (Hv & hj & cj & Eh & Ec & ->). set (input := url_encode hj +:+ "." +:+ url_encode cj).
  exists (url_encode hj), (url_encode cj), (ed_sign sk input). split; [|split; [|split; [|split; [|split; [|done]]]]].
  - apply token_parts_Ok. split; [|split; [|split]; apply url_encode_alphabet]. subst input. by rewrite !string_app_assoc.
  - unfold decode_header. rewrite url_decode_encode. cbn [ok_or]. destruct (header_json (mkHeader "EdDSA" "JWT" (kid c))) as (? & E & E').
    rewrite Eh in E. injection E as <-. rewrite E'. cbn [ok_or h_alg h_typ h_kid]. cbn [negb orb String.eqb Ascii.eqb Bool.eqb].
    destruct Hv as (_ & Hk & _). destruct (String.eqb_spec (kid c) ""); [done|]. done.
  - rewrite url_decode_encode. cbn. destruct (claims_json c He Hi) as (? & E & E'). rewrite Ec in E. by injection E as <-.
  - unfold signature_from_slice. by rewrite ed_sign_length.
  - apply ed_verify_sign.
Qed.

Lemma verify_genuine now token kid' k c pk h m sg :
  token_parts token = Ok (k, (h, m, url_encode sg)) -> decode_header h = Ok (mkHeader "EdDSA" "JWT" (kid c)) ->
  url_decode m ≫= claims_from_slice = Some c -> signature_from_slice sg = Some sg ->
  ed_verify pk (h +:+ "." +:+ m) sg = true -> claims_valid k c ->
  verify_token_any_kind now token pk kid' = verdict now kid' k c.
Proof.
  intros Ep Eh Em Es Ev Hv. unfold verify_token_any_kind, verdict. rewrite Ep, Eh. cbn [h_kid].
  destruct (String.eqb_spec (kid c) kid') as [<-|]; cbn [negb]; [|done].
  rewrite url_decode_encode. cbn [ok_or]. rewrite Es. cbn [ok_or]. rewrite Ev.
  destruct (url_decode m) as [mb|]; [|done]. cbn in Em. cbn [ok_or]. rewrite Em. cbn [ok_or]. rewrite String.eqb_refl.
  pose proof Hv as (Ht & _ & Hl & _). rewrite Ht, String.eqb_refl. destruct now as [t|]; cbn [ok_or]; [|done].
  destruct (Z.leb_spec (exp c) t); [done|]. destruct (Z.ltb_spec t (iat c)); [done|].
  destruct (Z.ltb_spec MAX_TOKEN_LIFETIME_SECS (t - iat c)); [lia|]. apply validate_claims_iff in Hv as ->. done.
Qed.

Lemma verify_Ok now token pk kid' k c :
  verify_token_any_kind now token pk kid' = Ok (k, c) ->
  exists h m s sg t, token_parts token = Ok (k, (h, m, s)) /\ (exists hd, decode_header h = Ok hd /\ h_kid hd = kid') /\
    url_decode s = Some sg /\ length sg = 64%nat /\ ed_verify pk (h +:+ "." +:+ m) sg = true /\
    url_decode m ≫= claims_from_slice = Some c /\ kid c = kid' /\ now = Some t /\ iat c <= t < exp c /\ claims_valid k c.
Proof.
  unfold verify_token_any_kind. destruct (token_parts token) as [[k' [[h m] s]]| |]; [|done..].
  destruct (decode_header h) as [hd| |] eqn:Ehd; [|done..]. destruct (String.eqb_spec (h_kid hd) kid') as [Ek|]; [|done].
  destruct (url_decode s) as [sg|] eqn:Es; cbn [ok_or]; [|done]. unfold signature_from_slice.
  destruct (Nat.eqb_spec (length sg) 64); cbn [ok_or]; [|done]. destruct (ed_verify _ _ _) eqn:Ev; [|done].
  destruct (url_decode m) as [mb|] eqn:Em; cbn [ok_or]; [|done]. destruct (claims_from_slice mb) as [c'|] eqn:Ec; cbn [ok_or]; [|done].
  destruct (String.eqb_spec (kid c') kid') as [Ek'|]; [|done]. destruct (String.eqb_spec (token_type c') (kind_type k')); [|done].
  destruct now as [t|]; cbn [ok_or]; [|done]. destruct (Z.leb_spec (exp c') t); [done|]. destruct (Z.ltb_spec t (iat c')); [done|].
  destruct (_ <? _); [done|]. destruct (validate_claims_for_kind c' k') as [[]| |] eqn:Ev'; [|done..].
  intros [= <- <-]. apply validate_claims_iff in Ev'. exists h, m, s, sg, t. rewrite Em. cbn. naive_solver lia.
Qed.

Lemma verify_not_panic now token pk kid' : verify_token_any_kind now token pk kid' <> Panic.
Proof.
  unfold verify_token_any_kind. pose proof (token_parts_not_panic token). destruct (token_parts token) as [[k' [[h m] s]]| |]; [|done..].
  pose proof (decode_header_not_panic h). destruct (decode_header h); [|done..]. unfold ok_or.
  repeat case_match; simplify_eq; try done. by destruct (validate_claims_not_panic a3 k').
Qed.
End Facts.

(** ** Properties *)

(** Signing succeeds exactly on claims the kind may carry, and the token
    verifies under the key's public key, its kid and within its lifetime to the
    signed kind and claims; each failure has the error the checks give in order. *)
Theorem token_roundtrip `{Base64Laws, TokenJsonLaws, Ed25519Laws} c sk k :
  in_u64 (exp c) -> in_u64 (iat c) ->
  (is_ok (sign_claims c sk k) = true <-> claims_valid k c) /\
  forall token, sign_claims c sk k = Ok token ->
    unverified_token_kid token = Ok (kid c) /\
    (forall now kid', verify_token_any_kind now token (verifying_key sk) kid' = verdict now kid' k c) /\
    (forall now k', verify_token now token (verifying_key sk) (kid c) k' =
      let* ' (k, c) := verdict now (kid c) k c in if decide (k = k') then Ok c else Err InvalidToken).
Proof.
  intros He Hi. split.
  { split.
    - destruct (sign_claims c sk k) as [token| |] eqn:E; [|done..]. intros _. by apply sign_claims_Ok in E as [? _].
    - intros Hv. by destruct (sign_claims_total c sk k He Hi Hv) as [token ->]. }
  intros token Hs. destruct (signed_token_parts _ _ _ _ Hs He Hi) as (h & m & sg & Ep & Eh & Em & Es & Ev & Hv).
  split; [|split].
  - unfold unverified_token_kid. rewrite Ep, Eh. done.
  - intros now kid'. by eapply verify_genuine.
  - intros now k'. unfold verify_token. by erewrite verify_genuine by done.
Qed.

(** Verification never panics, and a verified token carries a signature of
    the key over its header and claims, by the expected key, of valid claims, in
    their lifetime.  The signed bytes determine the answer: any token with the
    same header and claims that verifies, under whatever prefix, key and time,
    has the same kind and claims. *)
Theorem verified_token_is_signed `{Base64Laws, TokenJsonLaws, Ed25519Laws} now token pk kid' :
  verify_token_any_kind now token pk kid' <> Panic /\
  forall k c, verify_token_any_kind now token pk kid' = Ok (k, c) ->
    exists h m s sg t, token = prefix k +:+ h +:+ "." +:+ m +:+ "." +:+ s /\
      url_decode s = Some sg /\ length sg = 64%nat /\ ed_verify pk (h +:+ "." +:+ m) sg = true /\
      url_decode m ≫= claims_from_slice = Some c /\ kid c = kid' /\ claims_valid k c /\ now = Some t /\ iat c <= t < exp c /\
      forall now2 token2 pk2 kid2 k2 c2 h2 m2 s2,
        verify_token_any_kind now2 token2 pk2 kid2 = Ok (k2, c2) -> token_parts token2 = Ok (k2, (h2, m2, s2)) ->
        h2 +:+ "." +:+ m2 = h +:+ "." +:+ m -> k2 = k /\ c2 = c.
Proof.
  split; [apply verify_not_panic|]. intros k c Hv.
  destruct (verify_Ok _ _ _ _ _ _ Hv) as (h & m & s & sg & t & Ep & _ & Es & Hl & Ev & Em & Hk & Hn & Ht & Hc).
  pose proof Ep as (Etok & Dh & Dm & _)%token_parts_Ok. exists h, m, s, sg, t. do 9 (split; [done|]).
  intros now2 token2 pk2 kid2 k2 c2 h2 m2 s2 Hv2 Ep2 E.
  destruct (verify_Ok _ _ _ _ _ _ Hv2) as (h2' & m2' & s2' & sg2 & t2 & Ep2' & _ & _ & _ & _ & Em2 & _ & _ & _ & Hc2).
  rewrite Ep2 in Ep2'. injection Ep2' as <- <- <-. apply token_parts_Ok in Ep2 as (_ & Dh2 & Dm2 & _).
  destruct (dotted_inj h2 m2 h m) as [-> ->]; [done..|]. rewrite Em in Em2. injection Em2 as ->. split; [|done].
  apply kind_type_inj. destruct Hc as [<- _], Hc2 as [<- _]. done.
Qed.

(** ** Witnesses *)
#[local] Existing Instances TokenModel.base64 TokenModel.json TokenModel.ed25519.
#[local] Existing Instances TokenModel.base64_laws TokenModel.json_laws TokenModel.ed25519_laws.

Definition sample_claims : XetClaims :=
  mkClaims "alice" "read" "alice/model" "model" "main" 1300 1000 "k1" "user" None None.
Definition sample_token : string := unwrap_or (sign_claims sample_claims (7 : @SigningKey TokenModel.ed25519) User) "".

Lemma sample_signed : sign_claims sample_claims (7 : @SigningKey TokenModel.ed25519) User = Ok sample_token.
Proof. vm_compute. reflexivity. Qed.

Lemma token_roundtrip_witness :
  verify_token_any_kind (Some 1100) sample_token (7 : @VerifyingKey TokenModel.ed25519) "k1" = Ok (User, sample_claims) /\
  verify_token_any_kind (Some 1300) sample_token (7 : @VerifyingKey TokenModel.ed25519) "k1" = Err Expired /\
  verify_token (Some 1100) sample_token (7 : @VerifyingKey TokenModel.ed25519) "k1" Internal = Err InvalidToken.
Proof.
  assert (in_u64 1300) as He by (unfold in_u64; lia). assert (in_u64 1000) as Hi by (unfold in_u64; lia).
  destruct (token_roundtrip sample_claims (7 : @SigningKey TokenModel.ed25519) User He Hi) as [_ Hr].
  destruct (Hr sample_token sample_signed) as (_ & H1 & H2).
  split; [exact (H1 (Some 1100) "k1")|]. split; [exact (H1 (Some 1300) "k1")|]. exact (H2 (Some 1100) Internal).
Defined.

Lemma verified_token_is_signed_witness :
  verify_token_any_kind (Some 1100) sample_token (7 : @VerifyingKey TokenModel.ed25519) "k1" = Ok (User, sample_claims) /\
  claims_valid User sample_claims.
Proof.
  assert (verify_token_any_kind (Some 1100) sample_token (7 : @VerifyingKey TokenModel.ed25519) "k1" = Ok (User, sample_claims)) as Hv
    by (vm_compute; reflexivity).
  split; [exact Hv|].
  destruct (proj2 (verified_token_is_signed (Some 1100) sample_token (7 : @VerifyingKey TokenModel.ed25519) "k1") _ _ Hv)
    as (h & m & s & sg & t & _ & _ & _ & _ & _ & _ & Hc & _). exact Hc.
Defined.
