(* ===== verification/CasAuth.v ===== *)
(** * Authentication of requests by the CAS server (src/api/auth.rs, src/api/guard.rs)

    The keyring built from the configuration, the extraction of a token from a
    request, and the one decision every protected handler makes. *)
From S2P Require Import Prelude Bytes Crates Text TokenCrates Tokens.
From Stdlib Require Import Ascii.

Local Open Scope string_scope.
Local Open Scope Z_scope.

Inductive AuthError :=
| AeInvalidToken
| AeExpired
| AeInvalidSignature
| AeUnknownKid
| AeInvalidKey.

Definition map_token_wire_error (err : TokenWireError) : AuthError :=
  match err with
  | InvalidToken => AeInvalidToken
  | Expired => AeExpired
  | InvalidSignature => AeInvalidSignature
  | UnknownKid => AeUnknownKid
  end.

Definition PROXY_TOKEN_TTL_SECONDS : Z := 300.

(** ** Configuration of the keyring (src/config.rs) *)
Record PublicKeyConfig := mkPublicKey { pk_kid : string; pk_path : string }.

Record AuthConfig := mkAuthConfig {
  public_key_path : string;
  public_keys : list PublicKeyConfig;
  trusted_kids : list string;
  private_key_path : option string;
  config_signing_kid : option string;
}.

Definition check_public_key (configured_kids : gset string) (key : PublicKeyConfig) : outcome string (gset string) :=
  ensure negb (is_blank (pk_kid key)) else "CAS_PUBLIC_KEYS must not contain an empty key ID" in
  ensure negb (is_blank (pk_path key)) else "CAS_PUBLIC_KEYS path for key ID" in
  ensure bool_decide (pk_kid key ∉ configured_kids) else "CAS_PUBLIC_KEYS contains duplicate key ID" in
  Ok ({[pk_kid key]} ∪ configured_kids).

Definition check_trusted_kid (public_keys : list PublicKeyConfig) (configured_kids : gset string)
  (trusted : gset string) (kid : string) : outcome string (gset string) :=
  ensure negb (is_blank kid) else "CAS_TRUSTED_KIDS must not contain empty key IDs" in
  ensure bool_decide (kid ∉ trusted) else "CAS_TRUSTED_KIDS contains duplicate key ID" in
  ensure negb (negb (bool_decide (public_keys = [])) && negb (bool_decide (kid ∈ configured_kids)))
    else "CAS_TRUSTED_KIDS contains a key ID that is not configured in CAS_PUBLIC_KEYS" in
  Ok ({[kid]} ∪ trusted).

Definition validate (c : AuthConfig) : outcome string unit :=
  let* configured_kids :=
    match public_keys c with
    | [] =>
        ensure negb (is_blank (public_key_path c)) else "CAS_PUBLIC_KEY_PATH must not be empty in legacy key mode" in
        Ok ∅
    | keys => fold_outcome check_public_key ∅ keys
    end in
  ensure negb (bool_decide (trusted_kids c = [])) else "CAS_TRUSTED_KIDS must contain at least one key ID" in
  let* trusted := fold_outcome (check_trusted_kid (public_keys c) configured_kids) ∅ (trusted_kids c) in
  ensure negb (match private_key_path c with Some path => is_blank path | None => false end)
    else "CAS_PRIVATE_KEY_PATH must not be empty when set" in
  match config_signing_kid c with
  | Some signing_kid =>
      ensure negb (is_blank signing_kid) else "CAS_SIGNING_KID must not be empty when set" in
      ensure bool_decide (signing_kid ∈ trusted) else "CAS_SIGNING_KID is not present in CAS_TRUSTED_KIDS" in
      Ok tt
  | None => Ok tt
  end.

Definition is_trusted (c : AuthConfig) (kid : string) : bool := bool_decide (kid ∈ trusted_kids c).

Definition verification_key_paths (c : AuthConfig) : outcome string (list (string * string)) :=
  let* _ := validate c in
  match public_keys c with
  | [] => Ok (map (fun kid => (kid, public_key_path c)) (trusted_kids c))
  | keys => Ok (map (fun key => (pk_kid key, pk_path key)) (List.filter (fun key => is_trusted c (pk_kid key)) keys))
  end.

Definition effective_signing_kid (c : AuthConfig) : option string :=
  match config_signing_kid c with
  | Some kid => Some kid
  | None =>
      match public_keys c with
      | [] => head (trusted_kids c)
      | keys => option_map pk_kid (List.find (fun key => is_trusted c (pk_kid key)) keys)
      end
  end.

(** ** The verifier *)

(** Files of the host and the PEM parsers of ed25519_dalek, which the server
    calls once at startup. *)
Class KeyFiles `{Ed25519} := {
  read_to_string : string -> option string;
  public_key_from_pem : string -> option VerifyingKey;
  private_key_from_pem : string -> option SigningKey;
}.

Section Verifier.
Context `{Base64, TokenJson, Ed25519}.

Record AuthVerifier := mkVerifier {
  verification_keys : list (string * VerifyingKey);
  signing_key : option SigningKey;
  signing_kid : option string;
}.

Definition find_key (kid : string) (keys : list (string * VerifyingKey)) : option VerifyingKey :=
  option_map snd (List.find (fun entry => (fst entry =? kid)%string) keys).

Definition load_key `{!KeyFiles} (entry : string * string) : outcome AuthError (string * VerifyingKey) :=
  let* pem_content := ok_or (read_to_string (snd entry)) AeInvalidKey in
  let* key := ok_or (public_key_from_pem pem_content) AeInvalidKey in
  Ok (fst entry, key).

Definition from_config `{!KeyFiles} (auth_config : AuthConfig) : outcome AuthError AuthVerifier :=
  let* key_paths := map_err (fun _ => AeInvalidKey) (verification_key_paths auth_config) in
  let* verification_keys := map_outcome load_key key_paths in
  let* signing_kid := ok_or (effective_signing_kid auth_config) AeInvalidKey in
  let* signing_key :=
    match private_key_path auth_config with
    | Some pk_path =>
        let* pk_pem := ok_or (read_to_string pk_path) AeInvalidKey in
        let* keypair := ok_or (private_key_from_pem pk_pem) AeInvalidKey in
        let* configured_signing_key := ok_or (find_key signing_kid verification_keys) AeInvalidKey in
        ensure verifying_key_eqb configured_signing_key (verifying_key keypair) else AeInvalidKey in
        Ok (Some keypair)
    | None => Ok None
    end in
  Ok (mkVerifier verification_keys signing_key (Some signing_kid)).

(** [verify_xet_token], and [AuthVerifier::verify_token]. *)
Definition verify_xet_token (now : option Z) (token : string) (public_key : VerifyingKey) (expected_kid : string)
  : outcome AuthError XetClaims :=
  map_err map_token_wire_error
    (let* ' (_, claims) := verify_token_any_kind now token public_key expected_kid in Ok claims).

Definition verifier_verify_token (v : AuthVerifier) (now : option Z) (token : string) : outcome AuthError XetClaims :=
  let* kid := map_err map_token_wire_error (unverified_token_kid token) in
  let* key := ok_or (find_key kid (verification_keys v)) AeUnknownKid in
  verify_xet_token now token key kid.

Record SignedProxyToken := mkProxyToken { p_token : string; p_exp : Z; p_expires_in : Z }.

(** [SystemTime::now().duration_since(UNIX_EPOCH).unwrap_or_default()]: [now] or zero. *)
Definition sign_proxy_token (v : AuthVerifier) (now : option Z) (sub oid operation : string) : option SignedProxyToken :=
  match signing_key v, signing_kid v with
  | Some key, Some kid =>
      let now := default 0 now in
      let exp := as_u64 (now + PROXY_TOKEN_TTL_SECONDS) in
      let claims := mkClaims sub ("lfs-" +:+ operation) "" "" "" exp now kid "proxy" (Some oid) (Some operation) in
      match sign_claims claims key Proxy with
      | Ok token => Some (mkProxyToken token exp PROXY_TOKEN_TTL_SECONDS)
      | _ => None
      end
  | _, _ => None
  end.

Definition can_sign_proxy_tokens (v : AuthVerifier) : bool := match signing_key v with Some _ => true | None => false end.

(** ** Scopes *)
Definition has_word (w s : string) : bool := bool_decide (w ∈ split_whitespace s).

Definition check_scope (claims : XetClaims) (required_scope : string) : bool :=
  if (required_scope =? "internal")%string || negb (token_type claims =? "user")%string then false
  else if has_word "internal" (scope claims) then false
  else has_word required_scope (scope claims).

Definition is_internal_token (claims : XetClaims) : bool :=
  (sub claims =? "hub-service")%string && has_word "internal" (scope claims) && (token_type claims =? "internal")%string.

Definition authorize_endpoint (claims : XetClaims) (required_scope : string) : bool := check_scope claims required_scope.

(** ** Requests *)

(** The value of the [Authorization] header, if it is there and is visible ASCII. *)
Definition extract_bearer_token (auth_header : string) : option string := strip_prefix "Bearer " auth_header.

Definition extract_token_from_request (auth_header : option string) : option string :=
  match auth_header with
  | None => None
  | Some auth_str =>
      match extract_bearer_token auth_str with
      | Some token => Some token
      | None =>
          match strip_prefix "Basic " auth_str with
          | Some encoded =>
              match std_decode encoded with
              | Some decoded =>
                  match from_utf8 decoded with
                  | Some credentials => option_map snd (split_once ":"%char credentials)
                  | None => None
                  end
              | None => None
              end
          | None => None
          end
      end
  end.

Inductive LfsOperation := Upload | Download.
Definition required_regular_scope (o : LfsOperation) : string := match o with Upload => "write" | Download => "read" end.
Definition proxy_scope (o : LfsOperation) : string := match o with Upload => "lfs-upload" | Download => "lfs-download" end.
Definition claim_value (o : LfsOperation) : string := match o with Upload => "upload" | Download => "download" end.

Inductive AuthNeed :=
| Scope (s : string)
| ScopeMsg (s msg : string)
| NeedInternal (msg : string)
| LfsObject (operation : LfsOperation) (oid message : string).

Definition authorize_lfs_object (claims : XetClaims) (op : LfsOperation) (object : string) : bool :=
  if (token_type claims =? "proxy")%string then
    has_word (proxy_scope op) (scope claims) &&
    bool_decide (oid claims = Some object) && bool_decide (operation claims = Some (claim_value op))
  else authorize_endpoint claims (required_regular_scope op).

Definition forbidden_message (need : AuthNeed) : string :=
  match need with
  | Scope _ => "Insufficient scope"
  | ScopeMsg _ msg => msg
  | NeedInternal msg => msg
  | LfsObject _ _ message => message
  end.

Inductive AuthReject :=
| MissingToken
| RejectInvalidToken
| Forbidden (msg : string).

Definition error_parts (r : AuthReject) : Z * string :=
  match r with
  | MissingToken => (401, "Missing or invalid authorization token")
  | RejectInvalidToken => (401, "Invalid token")
  | Forbidden msg => (403, msg)
  end.
Definition message_parts (r : AuthReject) : Z * string :=
  match r with
  | MissingToken => (401, "Missing or invalid authorization")
  | RejectInvalidToken => (401, "Invalid token")
  | Forbidden msg => (403, msg)
  end.

Definition need_authorized (need : AuthNeed) (claims : XetClaims) : bool :=
  match need with
  | Scope scope | ScopeMsg scope _ => authorize_endpoint claims scope
  | NeedInternal _ => is_internal_token claims
  | LfsObject op object _ => authorize_lfs_object claims op object
  end.

Definition require_auth (auth_header : option string) (v : AuthVerifier) (now : option Z) (need : AuthNeed)
  : outcome AuthReject XetClaims :=
  let* token := ok_or (extract_token_from_request auth_header) MissingToken in
  let* claims := map_err (fun _ => RejectInvalidToken) (verifier_verify_token v now token) in
  if need_authorized need claims then Ok claims else Err (Forbidden (forbidden_message need)).
End Verifier.

(** ** Specification *)

(** What a verified token of kind [k] with claims [c] may do. *)
Definition grants (need : AuthNeed) (k : TokenKind) (c : XetClaims) : Prop :=
  let user_scope s := k = User /\ s <> "internal" /\ "internal" ∉ split_whitespace (scope c) /\ s ∈ split_whitespace (scope c) in
  match need with
  | Scope s | ScopeMsg s _ => user_scope s
  | NeedInternal _ => k = Internal /\ sub c = "hub-service" /\ "internal" ∈ split_whitespace (scope c)
  | LfsObject op object _ =>
      (k = Proxy /\ oid c = Some object /\ operation c = Some (claim_value op)) \/ user_scope (required_regular_scope op)
  end.
Definition is_internal_need (need : AuthNeed) : bool := match need with NeedInternal _ => true | _ => false end.

Section Identity.
Context `{Base64, TokenJson, Ed25519}.

(** Who a request is from: the token in its header, verified under the key the
    keyring has for the kid the token names. *)
Definition identity (v : AuthVerifier) (now : option Z) (auth_header : option string) (k : TokenKind) (c : XetClaims) : Prop :=
  exists token kid key, extract_token_from_request auth_header = Some token /\ unverified_token_kid token = Ok kid /\
    find_key kid (verification_keys v) = Some key /\ verify_token_any_kind now token key kid = Ok (k, c).
End Identity.

(** ** Lemmas *)

Lemma check_scope_iff c k s : token_type c = kind_type k ->
  check_scope c s = true <-> k = User /\ s <> "internal" /\ "internal" ∉ split_whitespace (scope c) /\ s ∈ split_whitespace (scope c).
Proof.
  intros Ht. unfold check_scope. rewrite Ht. destruct (String.eqb_spec s "internal"); cbn [orb]; [naive_solver|].
  assert ((kind_type k =? "user")%string = true <-> k = User) as Hk by (destruct k; naive_solver).
  destruct (kind_type k =? "user")%string; cbn [negb]; [|naive_solver]. unfold has_word.
  case_bool_decide; [naive_solver|]. rewrite bool_decide_eq_true. naive_solver.
Qed.

Lemma need_authorized_iff need k c : claims_valid k c -> need_authorized need c = true <-> grants need k c.
Proof.
  intros Hv. pose proof Hv as (Ht & _ & _ & Hp). destruct need as [s|s m|m|op object m]; cbn [need_authorized grants].
  1-2: by apply check_scope_iff.
  - unfold is_internal_token, has_word. rewrite Ht. rewrite !andb_true_iff, !String.eqb_eq, bool_decide_eq_true. destruct k; naive_solver.
  - unfold authorize_lfs_object. rewrite Ht. destruct (decide (k = Proxy)) as [->|Hk].
    + destruct (Hp eq_refl) as [_ Hop]. cbn [kind_type String.eqb Ascii.eqb Bool.eqb]. unfold has_word.
      rewrite !andb_true_iff, !bool_decide_eq_true. split; [intros [[_ ?] ?]; by left|].
      intros [(_ & -> & Eo)|[? _]]; [|done]. split; [split; [|done]|done].
      destruct op, Hop as [[Eo' ->]|[Eo' ->]]; cbn [claim_value] in Eo; try congruence; cbn; by left.
    + replace (kind_type k =? "proxy")%string with false by (by destruct k). unfold authorize_endpoint.
      rewrite (check_scope_iff c k) by done. naive_solver.
Qed.

Lemma grants_internal need k c : grants need k c -> is_internal_need need = bool_decide (k = Internal).
Proof. destruct need; cbn; intros Hg; case_bool_decide; naive_solver. Qed.

Lemma grants_proxy need c : grants need Proxy c ->
  exists op object m, need = LfsObject op object m /\ oid c = Some object /\ operation c = Some (claim_value op).
Proof. destruct need as [s|s m|m|op object m]; cbn; [by intros []..|]. intros [(_ & ? & ?)|[? _]]; [|done]. by exists op, object, m. Qed.

Section AuthFacts.
Context `{Base64Laws, TokenJsonLaws, Ed25519Laws}.

Lemma unverified_kid_not_panic token : unverified_token_kid token <> Panic.
Proof.
  unfold unverified_token_kid. pose proof (token_parts_not_panic token). destruct (token_parts token) as [[k [[h m] s]]| |]; [|done..].
  pose proof (decode_header_not_panic h). by destruct (decode_header h).
Qed.

Lemma verifier_Ok v now token c :
  verifier_verify_token v now token = Ok c <->
  exists k kid key, unverified_token_kid token = Ok kid /\ find_key kid (verification_keys v) = Some key /\
    verify_token_any_kind now token key kid = Ok (k, c).
Proof.
  unfold verifier_verify_token, verify_xet_token. split.
  - destruct (unverified_token_kid token) as [kid| |] eqn:Ek; cbn [map_err]; [|done..].
    destruct (find_key kid _) as [key|] eqn:Ef; cbn [ok_or]; [|done].
    destruct (verify_token_any_kind now token key kid) as [[k c']| |] eqn:Ev; cbn [map_err]; [|done..]. intros [= ->]. by exists k, kid, key.
  - intros (k & kid & key & -> & Ef & Ev). cbn [map_err]. rewrite Ef. cbn [ok_or]. by rewrite Ev.
Qed.

Lemma verifier_not_panic v now token : verifier_verify_token v now token <> Panic.
Proof.
  unfold verifier_verify_token, verify_xet_token. pose proof (unverified_kid_not_panic token).
  destruct (unverified_token_kid token) as [kid| |]; cbn [map_err]; [|done..]. destruct (find_key kid _) as [key|]; cbn [ok_or]; [|done].
  pose proof (verify_not_panic now token key kid). by destruct (verify_token_any_kind now token key kid) as [[]| |].
Qed.

Lemma identity_valid v now h k c : identity v now h k c -> claims_valid k c.
Proof.
  intros (token & kid & key & _ & _ & _ & Hv).
  by destruct (verify_Ok _ _ _ _ _ _ Hv) as (? & ? & ? & ? & ? & _ & _ & _ & _ & _ & _ & _ & _ & _ & Hc).
Qed.

Lemma find_key_spec kid keys key : find_key kid keys = Some key -> (kid, key) ∈ keys.
Proof.
  unfold find_key. destruct (List.find _ keys) as [[kid' key']|] eqn:E; [|done]. intros [= <-].
  apply List.find_some in E as [Hin Heq%String.eqb_eq]. cbn in *. subst. by apply list_elem_of_In.
Qed.

(** A genuine token as a bearer token: the guard decides by lifetime and need. *)
Lemma signed_bearer v sk c k token now need :
  sign_claims c sk k = Ok token -> in_u64 (exp c) -> in_u64 (iat c) ->
  find_key (kid c) (verification_keys v) = Some (verifying_key sk) ->
  is_ok (require_auth (Some ("Bearer " +:+ token)) v (Some now) need) =
  bool_decide (iat c <= now < exp c) && need_authorized need c.
Proof.
  intros Es He Hi Efind. destruct (signed_token_parts _ _ _ _ Es He Hi) as (h & m & sg & Ep & Eh & Em & Esg & Ev & Hv).
  unfold require_auth, extract_token_from_request, extract_bearer_token. rewrite strip_prefix_app. cbn [ok_or].
  unfold verifier_verify_token, unverified_token_kid. rewrite Ep, Eh. cbn [map_err h_kid]. rewrite Efind. cbn [ok_or].
  unfold verify_xet_token. erewrite verify_genuine by done. unfold verdict. rewrite String.eqb_refl. cbn [negb].
  destruct (Z.leb_spec (exp c) now); [rewrite bool_decide_false by lia; done|].
  destruct (Z.ltb_spec now (iat c)); [rewrite bool_decide_false by lia; done|]. rewrite bool_decide_true by lia. cbn [map_err andb].
  by destruct (need_authorized need c).
Qed.

(** The signing key of a loaded verifier is the private half of the key its
    keyring has for the signing kid. *)
Lemma from_config_signing `{!KeyFiles} cfg v sk :
  from_config cfg = Ok v -> signing_key v = Some sk ->
  exists kid, signing_kid v = Some kid /\ find_key kid (verification_keys v) = Some (verifying_key sk).
Proof.
  unfold from_config. destruct (map_err _ _) as [paths| |]; [|done..]. destruct (map_outcome load_key paths) as [keys| |]; [|done..].
  destruct (effective_signing_kid cfg) as [kid|]; cbn [ok_or]; [|done]. destruct (private_key_path cfg) as [path|].
  - destruct (read_to_string path); cbn [ok_or]; [|done]. destruct (private_key_from_pem _) as [sk'|]; cbn [ok_or]; [|done].
    destruct (find_key kid keys) as [key|] eqn:Ef; cbn [ok_or]; [|done]. destruct (verifying_key_eqb key _) eqn:Ek; [|done].
    apply verifying_key_eqb_eq in Ek as ->. intros [= <-] [= <-]. by exists kid.
  - intros [= <-]. done.
Qed.
End AuthFacts.

(** ** Properties *)

(** C38: The guard never panics.  It lets a request through exactly when the
    token in its header verifies under the key its kid selects and the token's
    kind and claims grant what the handler needs; otherwise it answers 401
    without a usable token and 403 for a valid token that does not grant it.
    Privileges are separate: no token passes both an internal guard and a public
    one, and a proxy token passes only the guard of its own object and operation. *)
Theorem require_auth_spec `{Base64Laws, TokenJsonLaws, Ed25519Laws} auth_header v now need :
  require_auth auth_header v now need <> Panic /\
  (forall c, require_auth auth_header v now need = Ok c <-> exists k, identity v now auth_header k c /\ grants need k c) /\
  (require_auth auth_header v now need = Err MissingToken <-> extract_token_from_request auth_header = None) /\
  (forall msg, require_auth auth_header v now need = Err (Forbidden msg) <->
     msg = forbidden_message need /\ exists k c, identity v now auth_header k c /\ ~ grants need k c) /\
  (forall need' k c, grants need k c -> grants need' k c ->
     is_internal_need need = is_internal_need need' /\
     (k = Proxy -> exists op object m m', need = LfsObject op object m /\ need' = LfsObject op object m')).
Proof.
  assert (forall token c, extract_token_from_request auth_header = Some token -> verifier_verify_token v now token = Ok c ->
    exists k, identity v now auth_header k c) as Hid.
  { intros token c Et Ev. apply verifier_Ok in Ev as (k & kid & key & ? & ? & ?). exists k, token, kid, key. done. }
  assert (forall k c, identity v now auth_header k c ->
    require_auth auth_header v now need = if need_authorized need c then Ok c else Err (Forbidden (forbidden_message need))) as Hrun.
  { intros k c (token & kid & key & Et & Ek & Ef & Ev). unfold require_auth. rewrite Et. cbn [ok_or].
    rewrite (proj2 (verifier_Ok v now token c)); [done|]. by exists k, kid, key. }
  assert (forall k c, identity v now auth_header k c -> need_authorized need c = true <-> grants need k c) as Hg
    by (intros k c Hi; eapply need_authorized_iff, identity_valid, Hi).
  split; [|split; [|split; [|split]]].
  - unfold require_auth. destruct (extract_token_from_request auth_header) as [token|]; cbn [ok_or]; [|done].
    pose proof (verifier_not_panic v now token). destruct (verifier_verify_token v now token); cbn [map_err]; [|done..]. by destruct (need_authorized need a).
  - intros c. split.
    + intros E. unfold require_auth in E. destruct (extract_token_from_request auth_header) as [token|] eqn:Et; cbn [ok_or] in E; [|done].
      destruct (verifier_verify_token v now token) as [c'| |] eqn:Ev; cbn [map_err] in E; [|done..].
      destruct (need_authorized need c') eqn:Ea; [|done]. injection E as <-. destruct (Hid _ _ eq_refl Ev) as [k Hi].
      exists k. split; [done|]. by apply (Hg k c').
    + intros (k & Hi & Hgr). rewrite (Hrun k c Hi). by rewrite (proj2 (Hg k c Hi) Hgr).
  - unfold require_auth. destruct (extract_token_from_request auth_header) as [token|]; cbn [ok_or]; [|done]. split; [|done].
    destruct (verifier_verify_token v now token); cbn [map_err]; try done. by destruct (need_authorized need a).
  - intros msg. split.
    + intros E. unfold require_auth in E. destruct (extract_token_from_request auth_header) as [token|] eqn:Et; cbn [ok_or] in E; [|done].
      destruct (verifier_verify_token v now token) as [c'| |] eqn:Ev; cbn [map_err] in E; [|done..].
      destruct (need_authorized need c') eqn:Ea; [done|]. injection E as <-. split; [done|]. destruct (Hid _ _ eq_refl Ev) as [k Hi].
      exists k, c'. split; [done|]. rewrite <- (Hg k c' Hi). by rewrite Ea.
    + intros (-> & k & c & Hi & Hn). rewrite (Hrun k c Hi). rewrite <- (Hg k c Hi) in Hn. by destruct (need_authorized need c).
  - intros need' k c G1 G2. split; [by rewrite (grants_internal need k c G1), (grants_internal need' k c G2)|]. intros ->.
    destruct (grants_proxy need c G1) as (op & object & m & -> & Eo & Ec), (grants_proxy need' c G2) as (op' & object' & m' & -> & Eo' & Ec').
    rewrite Eo in Eo'. rewrite Ec in Ec'. injection Eo' as <-. injection Ec' as E. exists op, object, m, m'. split; [done|]. f_equal. by destruct op, op'.
Qed.

(** A proxy token the batch endpoint hands out opens one door: when the
    verifier was loaded from a configuration with a private key, the token is
    issued exactly for an upload or download of a non-blank oid, and for the
    next 300 seconds the guards it passes are those of that operation on that
    object, whatever the request. *)
Theorem proxy_token_opens_one_door `{Base64Laws, TokenJsonLaws, Ed25519Laws} `{!KeyFiles} cfg v sk now subject object op :
  from_config cfg = Ok v -> signing_key v = Some sk -> signing_kid v <> Some "" ->
  0 <= now -> now + PROXY_TOKEN_TTL_SECONDS <= u64_max ->
  (is_Some (sign_proxy_token v (Some now) subject object op) <->
     is_blank object = false /\ (op = "upload" \/ op = "download")) /\
  forall t, sign_proxy_token v (Some now) subject object op = Some t ->
    p_exp t = now + 300 /\ p_expires_in t = 300 /\
    forall now2 need, is_ok (require_auth (Some ("Bearer " +:+ p_token t)) v (Some now2) need) =
      bool_decide (now <= now2 < now + 300) &&
      match need with
      | LfsObject op' object' _ => bool_decide (claim_value op' = op) && bool_decide (object' = object)
      | _ => false
      end.
Proof.
  intros Hcfg Hsk Hkid Hn Hfit. destruct (from_config_signing cfg v sk Hcfg Hsk) as (kd & Ekd & Efind).
  unfold sign_proxy_token. rewrite Hsk, Ekd. change (default 0 (Some now)) with now. unfold PROXY_TOKEN_TTL_SECONDS in *. cbv zeta.
  assert (as_u64 (now + 300) = now + 300) as -> by (unfold as_u64, u64_max in *; apply Z.mod_small; lia).
  set (c := mkClaims subject ("lfs-" +:+ op) "" "" "" (now + 300) now kd "proxy" (Some object) (Some op)).
  assert (claims_valid Proxy c <-> is_blank object = false /\ (op = "upload" \/ op = "download")) as Hcv.
  { unfold claims_valid, proxy_claims, MAX_TOKEN_LIFETIME_SECS. subst c. cbn [token_type kid exp iat oid operation scope kind_type].
    assert (kd <> "") by congruence. split.
    - intros (_ & _ & _ & Hp). destruct (Hp eq_refl) as [(o & [= <-] & ?) Hop]. naive_solver.
    - intros [Hb Hop]. split; [done|]. split; [done|]. split; [lia|]. intros _. split; [by exists object|].
      destruct Hop as [-> | ->]; [by left|by right]. }
  assert (in_u64 (exp c) /\ in_u64 (iat c)) as [He Hi] by (subst c; cbn [exp iat]; unfold in_u64, u64_max in *; lia).
  split.
  { rewrite <- Hcv. split.
    - intros [t Ht]. destruct (sign_claims c sk Proxy) as [token| |] eqn:Es; [|done..]. by apply sign_claims_Ok in Es as [? _].
    - intros Hv. apply (sign_claims_total c sk) in Hv as [token ->]; [done..|]. done. }
  intros t Ht. destruct (sign_claims c sk Proxy) as [token| |] eqn:Es; [|done..]. injection Ht as <-. cbn [p_exp p_expires_in p_token].
  split; [done|]. split; [done|]. intros now2 need.
  assert (claims_valid Proxy c) as Hv by (by apply sign_claims_Ok in Es as [? _]).
  rewrite (signed_bearer v sk c Proxy token now2 need Es He Hi Efind). change (exp c) with (now + 300). change (iat c) with now. f_equal.
  pose proof (need_authorized_iff need Proxy c Hv) as Hneed.
  apply eq_true_iff_eq. rewrite Hneed. destruct need as [| | |op' object' ?]; cbn [grants]; [naive_solver..|].
  rewrite andb_true_iff, !bool_decide_eq_true. subst c. cbn [oid operation]. naive_solver.
Qed.

(** ** Witnesses *)
#[local] Existing Instances TokenModel.base64 TokenModel.json TokenModel.ed25519.
#[local] Existing Instances TokenModel.base64_laws TokenModel.json_laws TokenModel.ed25519_laws.

(** A host where a file holds its name, and a key is its length. *)
Definition sample_files : KeyFiles := {|
  read_to_string path := Some path;
  public_key_from_pem pem := Some (Z.of_nat (String.length pem) : @VerifyingKey TokenModel.ed25519);
  private_key_from_pem pem := Some (Z.of_nat (String.length pem) : @SigningKey TokenModel.ed25519);
|}.
#[local] Existing Instance sample_files.
Definition sample_config : AuthConfig :=
  mkAuthConfig "" [mkPublicKey "k1" "/keys/a"; mkPublicKey "k2" "/keys/bb"] ["k2"; "k1"] (Some "/keys/a") None.
Definition sample_verifier : AuthVerifier := unwrap_or (from_config sample_config) (mkVerifier [] None None).

Lemma sample_loaded : from_config sample_config = Ok sample_verifier.
Proof. apply ok_unwrap. vm_compute. reflexivity. Qed.

Definition sample_user : XetClaims := mkClaims "alice" "read write" "r" "model" "main" 1300 1000 "k1" "user" None None.
Definition sample_user_token : string := unwrap_or (sign_claims sample_user (7 : @SigningKey TokenModel.ed25519) User) "".
Definition sample_header : option string := Some ("Bearer " +:+ sample_user_token).

Lemma require_auth_spec_witness :
  require_auth sample_header sample_verifier (Some 1100) (Scope "write") = Ok sample_user /\
  (exists k, identity sample_verifier (Some 1100) sample_header k sample_user /\ grants (Scope "write") k sample_user) /\
  require_auth None sample_verifier (Some 1100) (Scope "write") = Err MissingToken.
Proof.
  assert (require_auth sample_header sample_verifier (Some 1100) (Scope "write") = Ok sample_user) as Hr by (vm_compute; reflexivity).
  split; [exact Hr|]. split.
  - exact (proj1 (proj1 (proj2 (require_auth_spec sample_header sample_verifier (Some 1100) (Scope "write"))) sample_user) Hr).
  - apply (proj1 (proj2 (proj2 (require_auth_spec None sample_verifier (Some 1100) (Scope "write"))))). reflexivity.
Defined.

Lemma proxy_token_opens_one_door_witness :
  exists t, sign_proxy_token sample_verifier (Some 1000) "alice" "0123" "upload" = Some t /\
    is_ok (require_auth (Some ("Bearer " +:+ p_token t)) sample_verifier (Some 1200) (LfsObject Upload "0123" "")) = true /\
    is_ok (require_auth (Some ("Bearer " +:+ p_token t)) sample_verifier (Some 1200) (LfsObject Upload "4567" "")) = false /\
    is_ok (require_auth (Some ("Bearer " +:+ p_token t)) sample_verifier (Some 1300) (LfsObject Upload "0123" "")) = false.
Proof.
  assert (signing_key sample_verifier = Some 7) as Hk by reflexivity.
  assert (signing_kid sample_verifier <> Some "") as Hd by (vm_compute; discriminate).
  destruct (proxy_token_opens_one_door sample_config sample_verifier 7 1000 "alice" "0123" "upload" sample_loaded Hk Hd
    ltac:(lia) ltac:(unfold PROXY_TOKEN_TTL_SECONDS, u64_max; lia)) as [Hi Hd'].
  destruct (proj2 Hi ltac:(split; [reflexivity|left; reflexivity])) as [t Ht]. exists t. split; [exact Ht|].
  destruct (Hd' t Ht) as (_ & _ & Hr).
  split; [exact (Hr 1200 (LfsObject Upload "0123" ""))|]. split; [exact (Hr 1200 (LfsObject Upload "4567" ""))|exact (Hr 1300 (LfsObject Upload "0123" ""))].
Defined.
