(* ===== verification/HubSigner.v ===== *)
(** * Tokens issued by the Hub (hub/src/auth/xet_signer.rs)

    The Hub signs user, proxy and internal tokens; the CAS server checks them
    with [CasAuth].  The theorem here spans the two services. *)
From S2P Require Import Prelude Bytes Crates Text TokenCrates Tokens CasAuth.

Local Open Scope string_scope.
Local Open Scope Z_scope.

Section Signer.
Context `{Base64, TokenJson, Ed25519}.

Record XetSigner := mkSigner {
  s_signing_key : SigningKey;
  s_kid : string;
  ttl_seconds : Z;
  proxy_ttl_seconds : Z;
  internal_ttl_seconds : Z;
}.

Definition expiration (now ttl_seconds : Z) : outcome string Z :=
  ok_or (checked_add now ttl_seconds) "Token expiration timestamp overflow".

(** [new_with_internal_ttl], and [new] with its default of a day. *)
Definition new_with_internal_ttl (key : SigningKey) (kid : string) (ttl proxy_ttl internal_ttl : Z) : XetSigner :=
  mkSigner key kid ttl proxy_ttl internal_ttl.
Definition signer_new (key : SigningKey) (kid : string) (ttl proxy_ttl : Z) : XetSigner := mkSigner key kid ttl proxy_ttl 86400.

Definition wire_error_debug (e : TokenWireError) : string :=
  match e with
  | InvalidToken => "InvalidToken"
  | Expired => "Expired"
  | InvalidSignature => "InvalidSignature"
  | UnknownKid => "UnknownKid"
  end.

Definition signer_sign_claims (s : XetSigner) (claims : XetClaims) (kind : TokenKind) : outcome string (string * Z) :=
  let e := exp claims in
  let* token := map_err wire_error_debug (sign_claims claims (s_signing_key s) kind) in
  Ok (token, e).

Definition clock_error : string := "System clock is before UNIX_EPOCH, cannot sign tokens".

Definition sign (s : XetSigner) (now : option Z) (sub scope repo_id repo_type revision : string) : outcome string (string * Z) :=
  let* now := ok_or now clock_error in
  let* exp := expiration now (ttl_seconds s) in
  let claims := mkClaims sub scope repo_id repo_type revision exp now (s_kid s) "user" None None in
  signer_sign_claims s claims User.

Definition sign_proxy (s : XetSigner) (now : option Z) (sub oid operation repo_id repo_type : string) : outcome string (string * Z) :=
  let* now := ok_or now clock_error in
  let* exp := expiration now (proxy_ttl_seconds s) in
  let claims := mkClaims sub ("lfs-" +:+ operation) repo_id repo_type "" exp now (s_kid s) "proxy" (Some oid) (Some operation) in
  signer_sign_claims s claims Proxy.

Definition sign_internal (s : XetSigner) (now : option Z) : outcome string (string * Z) :=
  let* now := ok_or now clock_error in
  let* exp := expiration now (internal_ttl_seconds s) in
  let claims := mkClaims "hub-service" "internal" "" "" "" exp now (s_kid s) "internal" None None in
  signer_sign_claims s claims Internal.

Definition verify_token_inner (s : XetSigner) (now : option Z) (token expected_prefix expected_token_type : string) : option XetClaims :=
  let kind :=
    if (expected_prefix =? "xet_")%string && (expected_token_type =? "user")%string then Some User
    else if (expected_prefix =? "proxy_")%string && (expected_token_type =? "proxy")%string then Some Proxy
    else if (expected_prefix =? "internal_")%string && (expected_token_type =? "internal")%string then Some Internal
    else None in
  match kind with
  | None => None
  | Some expected_kind =>
      match verify_token now token (verifying_key (s_signing_key s)) (s_kid s) expected_kind with
      | Ok claims => Some claims
      | _ => None
      end
  end.
Definition verify_proxy_token (s : XetSigner) (now : option Z) (token : string) : option XetClaims :=
  verify_token_inner s now token "proxy_" "proxy".
Definition signer_verify_xet_token (s : XetSigner) (now : option Z) (token : string) : option XetClaims :=
  verify_token_inner s now token "xet_" "user".
Definition verify_internal_token (s : XetSigner) (now : option Z) (token : string) : option XetClaims :=
  verify_token_inner s now token "internal_" "internal".
End Signer.

(** ** Specification *)

(** What the Hub was asked to sign. *)
Inductive hub_request :=
| ReqUser (sub scope repo_id repo_type revision : string)
| ReqProxy (sub oid operation repo_id repo_type : string)
| ReqInternal.

Section Contract.
Context `{Base64, TokenJson, Ed25519}.

Definition hub_sign (s : XetSigner) (now : option Z) (r : hub_request) : outcome string (string * Z) :=
  match r with
  | ReqUser sub scope repo_id repo_type revision => sign s now sub scope repo_id repo_type revision
  | ReqProxy sub oid operation repo_id repo_type => sign_proxy s now sub oid operation repo_id repo_type
  | ReqInternal => sign_internal s now
  end.
Definition hub_verify (s : XetSigner) (now : option Z) (r : hub_request) (token : string) : option XetClaims :=
  match r with
  | ReqUser _ _ _ _ _ => signer_verify_xet_token s now token
  | ReqProxy _ _ _ _ _ => verify_proxy_token s now token
  | ReqInternal => verify_internal_token s now token
  end.
Definition hub_ttl (s : XetSigner) (r : hub_request) : Z :=
  match r with ReqUser _ _ _ _ _ => ttl_seconds s | ReqProxy _ _ _ _ _ => proxy_ttl_seconds s | ReqInternal => internal_ttl_seconds s end.

Definition hub_kind (r : hub_request) : TokenKind :=
  match r with ReqUser _ _ _ _ _ => User | ReqProxy _ _ _ _ _ => Proxy | ReqInternal => Internal end.
Definition hub_claims (s : XetSigner) (t : Z) (r : hub_request) : XetClaims :=
  let kid := s_kid s in let e := t + hub_ttl s r in
  match r with
  | ReqUser sub scope repo_id repo_type revision => mkClaims sub scope repo_id repo_type revision e t kid "user" None None
  | ReqProxy sub oid operation repo_id repo_type =>
      mkClaims sub ("lfs-" +:+ operation) repo_id repo_type "" e t kid "proxy" (Some oid) (Some operation)
  | ReqInternal => mkClaims "hub-service" "internal" "" "" "" e t kid "internal" None None
  end.
End Contract.

(** What each request lets its bearer do at the CAS server. *)
Definition request_allows (r : hub_request) (need : AuthNeed) : Prop :=
  let scope_in scope s := s <> "internal" /\ "internal" ∉ split_whitespace scope /\ s ∈ split_whitespace scope in
  match r, need with
  | ReqUser _ scope _ _ _, (Scope s | ScopeMsg s _) => scope_in scope s
  | ReqUser _ scope _ _ _, LfsObject op _ _ => scope_in scope (required_regular_scope op)
  | ReqProxy _ oid operation _ _, LfsObject op object _ => oid = object /\ operation = claim_value op
  | ReqInternal, NeedInternal _ => True
  | _, _ => False
  end.

(** ** Lemmas *)
Section Facts.
Context `{Base64Laws, TokenJsonLaws, Ed25519Laws}.

Lemma hub_sign_run s now r :
  hub_sign s now r =
  match now with
  | None => Err clock_error
  | Some t =>
      if t + hub_ttl s r <=? u64_max then
        map_err wire_error_debug (let* token := sign_claims (hub_claims s t r) (s_signing_key s) (hub_kind r) in Ok (token, t + hub_ttl s r))
      else Err "Token expiration timestamp overflow"
  end.
Proof.
  destruct now as [t|]; [|by destruct r].
  destruct r; cbn [hub_sign]; unfold sign, sign_proxy, sign_internal, expiration, checked_add, signer_sign_claims; cbn [ok_or hub_ttl];
    (destruct (_ <=? u64_max); cbn [ok_or]; [|done]); cbn [exp hub_claims hub_kind hub_ttl]; by destruct (sign_claims _ _ _).
Qed.

Lemma hub_need s t r need : claims_valid (hub_kind r) (hub_claims s t r) ->
  need_authorized need (hub_claims s t r) = true <-> request_allows r need.
Proof.
  intros Hv. rewrite (need_authorized_iff need (hub_kind r)) by done.
  destruct r, need; cbn [grants hub_kind hub_claims TokenCrates.scope TokenCrates.sub TokenCrates.oid TokenCrates.operation request_allows]; try naive_solver.
  assert ("internal" ∈ split_whitespace "internal") by (cbn; by left). naive_solver.
Qed.
End Facts.

(** ** Properties *)

(** The contract between the two services.  The Hub signs a request exactly
    when the clock is past the epoch, the lifetime is between a second and seven
    days, the signer has a kid and a proxy request names a non-blank object and an
    LFS operation.  The token it returns is the one its own verifier accepts, and
    a CAS server whose keyring has the Hub's public key under the Hub's kid lets
    its bearer do, until the expiry the Hub reported, exactly what was asked. *)
Theorem hub_tokens_at_cas `{Base64Laws, TokenJsonLaws, Ed25519Laws} s v t r :
  0 <= t -> 0 <= hub_ttl s r -> t + hub_ttl s r <= u64_max ->
  find_key (s_kid s) (verification_keys v) = Some (verifying_key (s_signing_key s)) ->
  (is_ok (hub_sign s (Some t) r) = true <->
    s_kid s <> "" /\ 0 < hub_ttl s r <= MAX_TOKEN_LIFETIME_SECS /\
    match r with ReqProxy _ oid op _ _ => is_blank oid = false /\ (op = "upload" \/ op = "download") | _ => True end) /\
  forall token e, hub_sign s (Some t) r = Ok (token, e) ->
    e = t + hub_ttl s r /\
    (forall now, is_Some (hub_verify s (Some now) r token) <-> t <= now < e) /\
    (forall now need, is_ok (require_auth (Some ("Bearer " +:+ token)) v (Some now) need) = true <-> t <= now < e /\ request_allows r need).
Proof.
  intros Ht Hl Hfit Hkey. rewrite hub_sign_run. replace (t + hub_ttl s r <=? u64_max) with true by lia.
  set (c := hub_claims s t r). assert (exp c = t + hub_ttl s r /\ iat c = t /\ kid c = s_kid s /\ token_type c = kind_type (hub_kind r)) as (Ee & Ei & Ek & Ett)
    by (by destruct r).
  assert (in_u64 (exp c) /\ in_u64 (iat c)) as [He Hi] by (rewrite Ee, Ei; unfold in_u64, u64_max in *; lia).
  assert (claims_valid (hub_kind r) c <-> s_kid s <> "" /\ 0 < hub_ttl s r <= MAX_TOKEN_LIFETIME_SECS /\
    match r with ReqProxy _ oid op _ _ => is_blank oid = false /\ (op = "upload" \/ op = "download") | _ => True end) as Hcv.
  { unfold claims_valid. rewrite Ee, Ei, Ek, Ett. replace (t + hub_ttl s r - t) with (hub_ttl s r) by lia.
    destruct r; cbn [hub_kind]; [naive_solver| |naive_solver]. unfold proxy_claims. subst c. cbn [hub_claims TokenCrates.oid TokenCrates.operation TokenCrates.scope].
    split; [intros (_ & ? & ? & Hp); destruct (Hp eq_refl) as [(? & [= <-] & ?) Hop]; naive_solver|].
    intros (? & ? & ? & Hop). split; [done|]. split; [done|]. split; [done|]. intros _. split; [by eexists|]. destruct Hop as [-> | ->]; [by left|by right]. }
  split.
  { rewrite <- Hcv. split.
    - destruct (sign_claims c _ _) as [token| |] eqn:Es; [|done..]. intros _. by apply sign_claims_Ok in Es as [? _].
    - intros Hv. by destruct (sign_claims_total c (s_signing_key s) _ He Hi Hv) as [token ->]. }
  intros token e Hs. destruct (sign_claims c _ _) as [token'| |] eqn:Es; [|done..]. cbn in Hs. injection Hs as <- <-. split; [done|].
  destruct (signed_token_parts _ _ _ _ Es He Hi) as (h & m & sg & Ep & Eh & Em & Esg & Ev & Hv). split.
  - intros now. assert (hub_verify s (Some now) r token' =
      match verify_token (Some now) token' (verifying_key (s_signing_key s)) (s_kid s) (hub_kind r) with Ok claims => Some claims | _ => None end) as ->
      by (by destruct r).
    unfold verify_token. rewrite (verify_genuine _ _ _ _ _ _ _ _ _ Ep Eh Em Esg Ev Hv). unfold verdict. rewrite Ek, String.eqb_refl. cbn [negb].
    rewrite Ee, Ei. destruct (Z.leb_spec (t + hub_ttl s r) now); [split; [by intros []|lia]|].
    destruct (Z.ltb_spec now t); [split; [by intros []|lia]|]. rewrite decide_True by done. split; [lia|by eexists].
  - intros now need. rewrite (signed_bearer v _ c _ _ now need Es He Hi) by (by rewrite Ek).
    rewrite andb_true_iff, bool_decide_eq_true, Ee, Ei. pose proof (hub_need s t r need Hv) as Hn. fold c in Hn. by rewrite Hn.
Qed.

(** ** Witness *)
#[local] Existing Instances TokenModel.base64 TokenModel.json TokenModel.ed25519.
#[local] Existing Instances TokenModel.base64_laws TokenModel.json_laws TokenModel.ed25519_laws.

Definition sample_signer : XetSigner := signer_new (7 : @SigningKey TokenModel.ed25519) "hub" 3600 300.
Definition sample_keyring : AuthVerifier := mkVerifier [("hub", 7 : @VerifyingKey TokenModel.ed25519)] None None.

Lemma hub_tokens_at_cas_witness :
  exists token, hub_sign sample_signer (Some 1000) (ReqUser "alice" "read" "r" "model" "main") = Ok (token, 4600) /\
    is_ok (require_auth (Some ("Bearer " +:+ token)) sample_keyring (Some 2000) (Scope "read")) = true.
Proof.
  destruct (hub_tokens_at_cas sample_signer sample_keyring 1000 (ReqUser "alice" "read" "r" "model" "main")
    ltac:(lia) ltac:(cbn; lia) ltac:(unfold u64_max; cbn; lia) eq_refl) as [Hok Hgo].
  assert (is_ok (hub_sign sample_signer (Some 1000) (ReqUser "alice" "read" "r" "model" "main")) = true) as Hs
    by (apply Hok; split; [discriminate|]; split; [cbn; unfold MAX_TOKEN_LIFETIME_SECS; lia|exact I]).
  destruct (hub_sign sample_signer (Some 1000) (ReqUser "alice" "read" "r" "model" "main")) as [[token e]| |]; [|discriminate Hs..].
  destruct (Hgo token e eq_refl) as (-> & _ & Hr). exists token. split; [reflexivity|].
  apply Hr. split; [cbn; lia|]. cbn. split; [discriminate|]. split; [|left].
  intros Hin. apply list_elem_of_In in Hin. destruct Hin as [E|[]]. discriminate E.
Defined.
