(* ===== verification/Scheduler.v ===== *)
(** * Scheduling conversions (src/conversion/converting_oids.rs)

    Workers take object ids from a bounded queue; callers of [try_enqueue] and
    the shutdown run at the same time.  Every access to the shared state (a
    locked section, an atomic counter, a channel operation) is one step.  The
    global metrics repeat the scheduler's own counters and are left out. *)
From S2P Require Import Prelude Bytes Quota.

Local Open Scope string_scope.
Local Open Scope list_scope.
Local Open Scope Z_scope.

Inductive EnqueueResult := Accepted | Duplicate | QueueFull | ShuttingDown.

(** [ConversionScheduler].  The queue is the channel, [receiver_dropped] once
    every worker has ended; [aborting] once the deadline of the shutdown passed. *)
Record shared := mkShared {
  capacity : nat;
  channel : list string;
  receiver_dropped : bool;
  sender : bool;
  sender_locked : bool;
  state : gset string;
  cancelled : bool;
  aborting : bool;
  closed : bool;
  queued : Z;
  running : Z;
  accepted : Z;
  rejected_full : Z;
  rejected_duplicate : Z;
}.

(** What a step changes. *)
Definition set_channel (s : shared) (l : list string) : shared :=
  mkShared (capacity s) l (receiver_dropped s) (sender s) (sender_locked s) (state s) (cancelled s) (aborting s) (closed s)
    (queued s) (running s) (accepted s) (rejected_full s) (rejected_duplicate s).
Definition drop_receiver (s : shared) : shared :=
  mkShared (capacity s) [] true (sender s) (sender_locked s) (state s) (cancelled s) (aborting s) (closed s)
    (queued s) (running s) (accepted s) (rejected_full s) (rejected_duplicate s).
Definition take_sender (s : shared) : shared :=
  mkShared (capacity s) (channel s) (receiver_dropped s) false (sender_locked s) (state s) (cancelled s) (aborting s) (closed s)
    (queued s) (running s) (accepted s) (rejected_full s) (rejected_duplicate s).
Definition set_locked (s : shared) (b : bool) : shared :=
  mkShared (capacity s) (channel s) (receiver_dropped s) (sender s) b (state s) (cancelled s) (aborting s) (closed s)
    (queued s) (running s) (accepted s) (rejected_full s) (rejected_duplicate s).
Definition set_state (s : shared) (m : gset string) : shared :=
  mkShared (capacity s) (channel s) (receiver_dropped s) (sender s) (sender_locked s) m (cancelled s) (aborting s) (closed s)
    (queued s) (running s) (accepted s) (rejected_full s) (rejected_duplicate s).
Definition set_flags (s : shared) (c a cl : bool) : shared :=
  mkShared (capacity s) (channel s) (receiver_dropped s) (sender s) (sender_locked s) (state s) c a cl
    (queued s) (running s) (accepted s) (rejected_full s) (rejected_duplicate s).
Definition set_counts (s : shared) (q r a f d : Z) : shared :=
  mkShared (capacity s) (channel s) (receiver_dropped s) (sender s) (sender_locked s) (state s) (cancelled s) (aborting s) (closed s) q r a f d.
Definition add_queued (s : shared) (n : Z) : shared :=
  set_counts s (as_u64 (queued s + n)) (running s) (accepted s) (rejected_full s) (rejected_duplicate s).
Definition add_running (s : shared) (n : Z) : shared :=
  set_counts s (queued s) (as_u64 (running s + n)) (accepted s) (rejected_full s) (rejected_duplicate s).

(** [ConversionScheduler::new]. *)
Definition scheduler_new (concurrency queue_capacity : nat) : option shared :=
  if (concurrency =? 0)%nat || (queue_capacity =? 0)%nat then None
  else Some (mkShared queue_capacity [] false true false ∅ false false false 0 0 0 0 0).

(** ** A worker *)
Inductive worker_pc :=
| Selecting
| Received (oid : string)
| Starting (oid : string)
| Converting (oid : string)
| Converted (oid : string)
| Releasing (oid : string)
| Cancelling (oid : string)
| Cancelled
| Stopped.

Inductive worker_step : shared -> worker_pc -> shared -> worker_pc -> Prop :=
| w_cancelled s : cancelled s = true -> worker_step s Selecting s Stopped
| w_recv s oid rest : channel s = oid :: rest -> worker_step s Selecting (set_channel s rest) (Received oid)
| w_recv_none s : channel s = [] -> sender s = false -> worker_step s Selecting s Stopped
| w_dequeued s oid : worker_step s (Received oid) (add_queued s (-1)) (Starting oid)
| w_started s oid : worker_step s (Starting oid) (add_running s 1) (Converting oid)
| w_converted s oid : worker_step s (Converting oid) s (Converted oid)
| w_interrupted s oid : cancelled s = true -> worker_step s (Converting oid) s (Cancelling oid)
| w_finished s oid : worker_step s (Converted oid) (add_running s (-1)) (Releasing oid)
| w_released s oid : worker_step s (Releasing oid) (set_state s (state s ∖ {[ oid ]})) Selecting
| w_forgotten s oid : worker_step s (Cancelling oid) (set_state s (state s ∖ {[ oid ]})) Cancelled
| w_resumed s : worker_step s Cancelled (add_running s (-1)) Selecting
| w_aborted_idle s : aborting s = true -> worker_step s Selecting s Stopped
| w_aborted_converting s oid : aborting s = true -> worker_step s (Converting oid) s Stopped.

(** ** A call of [try_enqueue]; [locked] says whether it holds the sender's lock *)
Inductive caller_pc :=
| Calling (oid : string)
| Open (oid : string)
| Inserted (oid : string)
| Locked (oid : string)
| Sent (oid : string)
| Counted
| BackingOut (locked : bool) (oid : string) (answer : EnqueueResult)
| Rejecting (locked : bool) (answer : EnqueueResult)
| Unlocking (answer : EnqueueResult)
| Answered (answer : EnqueueResult).

Inductive caller_step : shared -> caller_pc -> shared -> caller_pc -> Prop :=
| c_closed s oid : closed s = true -> caller_step s (Calling oid) s (Answered ShuttingDown)
| c_open s oid : closed s = false -> caller_step s (Calling oid) s (Open oid)
| c_duplicate s oid : oid ∈ state s ->
    caller_step s (Open oid)
      (set_counts s (queued s) (running s) (accepted s) (rejected_full s) (as_u64 (rejected_duplicate s + 1))) (Answered Duplicate)
| c_insert s oid : oid ∉ state s -> caller_step s (Open oid) (set_state s ({[ oid ]} ∪ state s)) (Inserted oid)
| c_contended s oid : sender_locked s = true -> caller_step s (Inserted oid) s (BackingOut false oid QueueFull)
| c_lock s oid : sender_locked s = false -> caller_step s (Inserted oid) (set_locked s true) (Locked oid)
| c_no_sender s oid : sender s = false -> caller_step s (Locked oid) s (BackingOut true oid ShuttingDown)
| c_receiver_dropped s oid : sender s = true -> receiver_dropped s = true ->
    caller_step s (Locked oid) s (BackingOut true oid ShuttingDown)
| c_full s oid : sender s = true -> receiver_dropped s = false -> (capacity s <= length (channel s))%nat ->
    caller_step s (Locked oid) s (BackingOut true oid QueueFull)
| c_send s oid : sender s = true -> receiver_dropped s = false -> (length (channel s) < capacity s)%nat ->
    caller_step s (Locked oid) (set_channel s (channel s ++ [oid])) (Sent oid)
| c_count_queued s oid : caller_step s (Sent oid) (add_queued s 1) Counted
| c_count_accepted s :
    caller_step s Counted
      (set_counts s (queued s) (running s) (as_u64 (accepted s + 1)) (rejected_full s) (rejected_duplicate s)) (Unlocking Accepted)
| c_back_out s locked oid answer :
    caller_step s (BackingOut locked oid answer) (set_state s (state s ∖ {[ oid ]})) (Rejecting locked answer)
| c_reject_full s locked :
    caller_step s (Rejecting locked QueueFull)
      (set_counts s (queued s) (running s) (accepted s) (as_u64 (rejected_full s + 1)) (rejected_duplicate s))
      (if locked then Unlocking QueueFull else Answered QueueFull)
| c_reject s locked answer : answer <> QueueFull ->
    caller_step s (Rejecting locked answer) s (if locked then Unlocking answer else Answered answer)
| c_unlock s answer : caller_step s (Unlocking answer) (set_locked s false) (Answered answer).

(** ** The shutdown, called once *)
Inductive closer_pc := Serving | Closing | SenderTaken | CancelSent | Joining | Joined | Done.

#[export] Instance closer_pc_eq_dec : EqDecision closer_pc.
Proof. solve_decision. Defined.

Inductive thread :=
| Worker (pc : worker_pc)
| Caller (pc : caller_pc).

Definition is_worker (t : thread) : bool := match t with Worker _ => true | Caller _ => false end.
Definition stopped (t : thread) : Prop := match t with Worker pc => pc = Stopped | Caller _ => True end.

Record system := mkSystem { sys_shared : shared; sys_closer : closer_pc; sys_threads : list thread }.

Inductive closer_step (threads : list thread) : shared -> closer_pc -> shared -> closer_pc -> Prop :=
| s_close s : closer_step threads s Serving (set_flags s (cancelled s) (aborting s) true) Closing
| s_take_sender s : sender_locked s = false -> closer_step threads s Closing (take_sender s) SenderTaken
| s_cancel s : closer_step threads s SenderTaken (set_flags s true (aborting s) (closed s)) CancelSent
| s_swap_queued s :
    closer_step threads s CancelSent (set_counts s 0 (running s) (accepted s) (rejected_full s) (rejected_duplicate s)) Joining
| s_deadline s : closer_step threads s Joining (set_flags s (cancelled s) true (closed s)) Joining
| s_joined s : Forall stopped threads -> closer_step threads s Joining s Joined
| s_clear s : closer_step threads s Joined (set_state s ∅) Done.

Inductive step : system -> system -> Prop :=
| step_worker s c threads i pc s' pc' : threads !! i = Some (Worker pc) -> worker_step s pc s' pc' ->
    step (mkSystem s c threads) (mkSystem s' c (<[i := Worker pc']> threads))
| step_caller s c threads i pc s' pc' : threads !! i = Some (Caller pc) -> caller_step s pc s' pc' ->
    step (mkSystem s c threads) (mkSystem s' c (<[i := Caller pc']> threads))
| step_closer s c threads s' c' : closer_step threads s c s' c' -> step (mkSystem s c threads) (mkSystem s' c' threads)
| step_receiver_dropped s c threads : Forall stopped threads ->
    step (mkSystem s c threads) (mkSystem (drop_receiver s) c threads).

(** [concurrency] workers, and calls of [try_enqueue] with the given ids. *)
Definition threads_initial (concurrency : nat) (calls : list string) : list thread :=
  replicate concurrency (Worker Selecting) ++ map (fun oid => Caller (Calling oid)) calls.
Definition reachable (concurrency : nat) (calls : list string) (s0 : shared) : system -> Prop :=
  rtc step (mkSystem s0 Serving (threads_initial concurrency calls)).

(** ** Specification *)

(** The object ids a thread is responsible for. *)
Definition holds (t : thread) : list string :=
  match t with
  | Worker (Received oid) | Worker (Starting oid) | Worker (Converting oid) | Worker (Converted oid)
  | Worker (Releasing oid) | Worker (Cancelling oid) => [oid]
  | Caller (Inserted oid) | Caller (Locked oid) | Caller (BackingOut _ oid _) => [oid]
  | _ => []
  end.
Definition in_progress (sys : system) : list string := channel (sys_shared sys) ++ concat (map holds (sys_threads sys)).

(** What a thread has still to add to the counters, and the workers that count as running. *)
Definition queued_due (t : thread) : Z := match t with Worker (Received _) => 1 | Caller (Sent _) => -1 | _ => 0 end.
Definition counts_running (t : thread) : Z :=
  match t with Worker (Converting _) | Worker (Converted _) | Worker (Cancelling _) | Worker Cancelled => 1 | _ => 0 end.
Definition is_converting (t : thread) : bool := match t with Worker (Converting _) => true | _ => false end.

Definition sender_gone (c : closer_pc) : bool := match c with Serving | Closing => false | _ => true end.
Definition workers_gone (c : closer_pc) : bool := match c with Joined | Done => true | _ => false end.
Definition counting (c : closer_pc) : bool := match c with Serving | Closing | SenderTaken | CancelSent => true | _ => false end.

Record scheduler_inv (cap : nat) (workers : list bool) (sys : system) : Prop := {
  si_capacity : capacity (sys_shared sys) = cap;
  si_workers : map is_worker (sys_threads sys) = workers;
  si_bound : (length (channel (sys_shared sys)) <= cap)%nat;
  si_distinct : sys_closer sys <> Done -> NoDup (in_progress sys) /\ forall oid, oid ∈ in_progress sys -> oid ∈ state (sys_shared sys);
  si_sender : sender_gone (sys_closer sys) = true -> sender (sys_shared sys) = false;
  si_stopped : workers_gone (sys_closer sys) = true -> Forall stopped (sys_threads sys);
  si_queued : counting (sys_closer sys) = true -> receiver_dropped (sys_shared sys) = false ->
    queued (sys_shared sys) = as_u64 (len (channel (sys_shared sys)) + sum_by queued_due (sys_threads sys));
  si_running : aborting (sys_shared sys) = false -> running (sys_shared sys) = as_u64 (sum_by counts_running (sys_threads sys));
}.

(** ** Lemmas *)

Lemma as_u64_add a n : as_u64 (as_u64 a + n) = as_u64 (a + n).
Proof. unfold as_u64. by rewrite Zplus_mod_idemp_l. Qed.

(** The ids in progress when a thread changes. *)
Lemma holds_insert threads i t t' :
  threads !! i = Some t ->
  exists rest, concat (map holds threads) ≡ₚ holds t ++ rest /\ concat (map holds (<[i := t']> threads)) ≡ₚ holds t' ++ rest.
Proof.
  intros Hi. exists (concat (map holds (take i threads)) ++ concat (map holds (drop (S i) threads))).
  assert (forall l1 l2 x, concat (map holds (l1 ++ x :: l2)) ≡ₚ holds x ++ concat (map holds l1) ++ concat (map holds l2)) as Hp.
  { intros l1 l2 x. rewrite map_app, concat_app. cbn [map concat]. rewrite !app_assoc. f_equiv. apply Permutation_app_comm. }
  split; [rewrite <- (take_drop_middle threads i t Hi) at 1; apply Hp|].
  rewrite insert_take_drop by (by eapply lookup_lt_Some). apply Hp.
Qed.

Section Invariant.
Context (cap : nat) (workers : list bool).

(** A thread's step keeps the ids in progress distinct and known. *)
Lemma progress_step s s' c threads i t t' :
  threads !! i = Some t ->
  (forall rest, NoDup (channel s ++ holds t ++ rest) -> (forall oid, oid ∈ channel s ++ holds t ++ rest -> oid ∈ state s) ->
    NoDup (channel s' ++ holds t' ++ rest) /\ forall oid, oid ∈ channel s' ++ holds t' ++ rest -> oid ∈ state s') ->
  NoDup (in_progress (mkSystem s c threads)) /\ (forall oid, oid ∈ in_progress (mkSystem s c threads) -> oid ∈ state s) ->
  NoDup (in_progress (mkSystem s' c (<[i := t']> threads))) /\
  forall oid, oid ∈ in_progress (mkSystem s' c (<[i := t']> threads)) -> oid ∈ state s'.
Proof.
  intros Hi Hst [Hnd Hin]. destruct (holds_insert threads i t t' Hi) as (rest & E & E').
  assert (in_progress (mkSystem s c threads) ≡ₚ channel s ++ holds t ++ rest) as Ep by (unfold in_progress; cbn; by rewrite E).
  assert (in_progress (mkSystem s' c (<[i := t']> threads)) ≡ₚ channel s' ++ holds t' ++ rest) as Ep' by (unfold in_progress; cbn; by rewrite E').
  destruct (Hst rest) as [H1 H2]; [by rewrite <- Ep|intros oid; rewrite <- Ep; apply Hin|].
  split; [by rewrite Ep'|]. intros oid. rewrite Ep'. apply H2.
Qed.

Lemma worker_progress s pc s' pc' rest :
  worker_step s pc s' pc' -> NoDup (channel s ++ holds (Worker pc) ++ rest) ->
  (forall oid, oid ∈ channel s ++ holds (Worker pc) ++ rest -> oid ∈ state s) ->
  NoDup (channel s' ++ holds (Worker pc') ++ rest) /\ forall oid, oid ∈ channel s' ++ holds (Worker pc') ++ rest -> oid ∈ state s'.
Proof.
  intros Hs Hnd Hin. destruct Hs; cbn [holds channel state set_channel add_queued add_running set_counts set_state app] in *; try done.
  - match goal with E : channel _ = _ |- _ => rewrite E in * end.
    assert ((oid :: rest0) ++ rest ≡ₚ rest0 ++ oid :: rest) as Ep by (apply Permutation_middle). split; [by rewrite <- Ep|].
    intros o. rewrite <- Ep. apply Hin.
  - rewrite <- Permutation_middle in Hnd. apply NoDup_cons in Hnd as [Hn Hnd]. split; [done|]. intros o Ho.
    apply elem_of_difference. split; [apply Hin; rewrite <- Permutation_middle; by right|]. intros ->%elem_of_singleton. done.
  - rewrite <- Permutation_middle in Hnd. apply NoDup_cons in Hnd as [Hn Hnd]. split; [done|]. intros o Ho.
    apply elem_of_difference. split; [apply Hin; rewrite <- Permutation_middle; by right|]. intros ->%elem_of_singleton. done.
  - rewrite <- Permutation_middle in Hnd. apply NoDup_cons in Hnd as [Hn Hnd]. split; [done|]. intros o Ho.
    apply Hin. rewrite <- Permutation_middle. by right.
Qed.

Lemma caller_progress s pc s' pc' rest :
  caller_step s pc s' pc' -> NoDup (channel s ++ holds (Caller pc) ++ rest) ->
  (forall oid, oid ∈ channel s ++ holds (Caller pc) ++ rest -> oid ∈ state s) ->
  NoDup (channel s' ++ holds (Caller pc') ++ rest) /\ forall oid, oid ∈ channel s' ++ holds (Caller pc') ++ rest -> oid ∈ state s'.
Proof.
  intros Hs Hnd Hin. destruct Hs; cbn [holds channel state set_channel add_queued set_counts set_state set_locked app] in *; try done.
  - split.
    + rewrite <- Permutation_middle. apply NoDup_cons. split; [|done]. intros Ho. by apply Hin in Ho.
    + intros o. rewrite <- Permutation_middle. intros [-> |Ho]%elem_of_cons; [set_solver|]. apply elem_of_union_r. auto.
  - rewrite <- app_assoc. done.
  - rewrite <- Permutation_middle in Hnd. apply NoDup_cons in Hnd as [Hn Hnd]. split; [done|]. intros o Ho.
    apply elem_of_difference. split; [apply Hin; rewrite <- Permutation_middle; by right|]. intros ->%elem_of_singleton. done.
  - by destruct locked.
  - by destruct locked.
Qed.

Lemma workers_insert threads i t t' :
  threads !! i = Some t -> is_worker t' = is_worker t -> map is_worker (<[i := t']> threads) = map is_worker threads.
Proof.
  intros Hi Ht. change (is_worker <$> <[i := t']> threads = is_worker <$> threads). rewrite list_fmap_insert, Ht. apply list_insert_id.
  rewrite list_lookup_fmap, Hi. done.
Qed.

(** What a worker's step does to the shared state, besides the ids in progress. *)
Lemma worker_effect s pc s' pc' :
  worker_step s pc s' pc' ->
  pc <> Stopped /\ capacity s' = capacity s /\ (length (channel s') <= length (channel s))%nat /\ sender s' = sender s /\
  receiver_dropped s' = receiver_dropped s /\ aborting s' = aborting s /\
  (queued s' = queued s /\ len (channel s') + queued_due (Worker pc') = len (channel s) + queued_due (Worker pc) \/
   queued s' = as_u64 (queued s - 1) /\ channel s' = channel s /\ queued_due (Worker pc') = queued_due (Worker pc) - 1) /\
  (aborting s = false ->
   running s' = running s /\ counts_running (Worker pc') = counts_running (Worker pc) \/
   exists n, running s' = as_u64 (running s + n) /\ counts_running (Worker pc') = counts_running (Worker pc) + n).
Proof.
  intros Hs. destruct Hs; cbn [capacity channel sender receiver_dropped aborting queued running set_channel add_queued add_running
    set_counts set_state queued_due counts_running]; (split; [done|]); (split; [done|]).
  all: try match goal with E : channel _ = _ :: _ |- _ => rewrite E, ?len_cons; cbn [length] end.
  all: split; [lia|]; (do 3 (split; [done|])).
  all: split; [first [left; split; [done|lia]|right; split; [done|split; [done|lia]]]|].
  all: intros Ha; first [left; done|right; eexists; split; [reflexivity|lia]|congruence].
Qed.

Lemma caller_effect s pc s' pc' :
  caller_step s pc s' pc' ->
  capacity s' = capacity s /\ (length (channel s') <= length (channel s) \/ length (channel s') <= capacity s)%nat /\ sender s' = sender s /\
  receiver_dropped s' = receiver_dropped s /\ aborting s' = aborting s /\ running s' = running s /\
  (queued s' = queued s /\ len (channel s') + queued_due (Caller pc') = len (channel s) + queued_due (Caller pc) \/
   queued s' = as_u64 (queued s + 1) /\ channel s' = channel s /\ queued_due (Caller pc') = queued_due (Caller pc) + 1).
Proof.
  intros Hs. destruct Hs; cbn [capacity channel sender receiver_dropped aborting queued running set_channel add_queued
    set_counts set_state set_locked queued_due]; (split; [done|]).
  all: rewrite ?length_app, ?len_app; cbn [length]; split; [lia|]; (do 4 (split; [done|])).
  all: try (left; split; [done|]; try destruct locked; cbn; change (len [oid]) with 1; lia).
  all: try (left; split; [done|]; try destruct locked; cbn; lia).
  right. split; [done|]. split; [done|lia].
Qed.

Lemma inv_step sys sys' : scheduler_inv cap workers sys -> step sys sys' -> scheduler_inv cap workers sys'.
Proof.
  intros [Hcap Hw Hb Hd Hsend Hstop Hq Hr] Hs. destruct Hs as [s c threads i pc s' pc' Hi Hs|s c threads i pc s' pc' Hi Hs|s c threads s' c' Hs|s c threads Hall].
  - cbn [sys_shared sys_closer sys_threads] in *. destruct (worker_effect _ _ _ _ Hs) as (Hnst & E1 & E2 & E3 & E4 & E5 & E6 & E7).
    split; cbn [sys_shared sys_closer sys_threads].
    + congruence.
    + rewrite (workers_insert threads i _ _ Hi); done.
    + lia.
    + intros Hc. eapply progress_step; [exact Hi| |by apply Hd]. intros rest. by eapply worker_progress.
    + intros Hc. rewrite E3. auto.
    + intros Hc. exfalso. apply Hnst. pose proof (Forall_lookup_1 _ _ _ _ (Hstop Hc) Hi) as Ht. exact Ht.
    + intros Hc Hrd. rewrite E4 in Hrd. rewrite (sum_by_insert _ _ _ _ _ Hi). specialize (Hq Hc Hrd).
      destruct E6 as [[-> E]|(-> & -> & E)]; [rewrite Hq; f_equal; lia|]. rewrite Hq, <- Z.add_opp_r, as_u64_add. f_equal. lia.
    + intros Ha. rewrite E5 in Ha. rewrite (sum_by_insert _ _ _ _ _ Hi). specialize (Hr Ha).
      destruct (E7 Ha) as [[-> E]|(n & -> & E)]; [rewrite Hr; f_equal; lia|]. rewrite Hr, as_u64_add. f_equal. lia.
  - cbn [sys_shared sys_closer sys_threads] in *. destruct (caller_effect _ _ _ _ Hs) as (E1 & E2 & E3 & E4 & E5 & E6 & E7).
    split; cbn [sys_shared sys_closer sys_threads].
    + congruence.
    + rewrite (workers_insert threads i _ _ Hi); done.
    + lia.
    + intros Hc. eapply progress_step; [exact Hi| |by apply Hd]. intros rest. by eapply caller_progress.
    + intros Hc. rewrite E3. auto.
    + intros Hc. apply Forall_insert; [by apply Hstop|done].
    + intros Hc Hrd. rewrite E4 in Hrd. rewrite (sum_by_insert _ _ _ _ _ Hi). specialize (Hq Hc Hrd).
      destruct E7 as [[-> E]|(-> & -> & E)]; [rewrite Hq; f_equal; lia|]. rewrite Hq, as_u64_add. f_equal. lia.
    + intros Ha. rewrite E5 in Ha. rewrite (sum_by_insert _ _ _ _ _ Hi), E6. cbn [counts_running]. rewrite Hr by done. f_equal. lia.
  - cbn [sys_shared sys_closer sys_threads] in *.
    destruct Hs; split; cbn [sys_shared sys_closer sys_threads capacity channel sender receiver_dropped aborting queued running state
      set_flags take_sender set_counts set_state] in *; try done.
    all: try (intros Hc; by apply Hd).
  - cbn [sys_shared sys_closer sys_threads] in *. split; cbn [sys_shared sys_closer sys_threads capacity channel sender receiver_dropped aborting
      queued running state drop_receiver] in *; try done; [cbn; lia|].
    intros Hc. destruct (Hd Hc) as [Hnd Hin]. unfold in_progress in *. cbn in *. apply NoDup_app in Hnd as (_ & _ & Hnd). split; [done|].
    intros oid Ho. apply Hin. apply elem_of_app. by right.
Qed.
End Invariant.

Lemma initial_inv concurrency calls cap s0 :
  scheduler_new concurrency cap = Some s0 ->
  scheduler_inv cap (map is_worker (threads_initial concurrency calls)) (mkSystem s0 Serving (threads_initial concurrency calls)).
Proof.
  intros Hn. unfold scheduler_new in Hn. destruct (_ || _); [done|]. injection Hn as <-.
  assert (forall f : thread -> Z, f (Worker Selecting) = 0 -> (forall oid, f (Caller (Calling oid)) = 0) -> sum_by f (threads_initial concurrency calls) = 0) as Hsum.
  { intros f H1 H2. unfold threads_initial. rewrite sum_by_app.
    assert (sum_by f (replicate concurrency (Worker Selecting)) = 0) as -> by (induction concurrency as [|n IH]; [done|]; cbn [replicate]; unfold sum_by in *; cbn [foldr]; lia).
    induction calls as [|oid l IH]; [done|]. unfold sum_by in *. cbn [map foldr]. rewrite H2. lia. }
  assert (concat (map holds (threads_initial concurrency calls)) = []) as Hheld.
  { unfold threads_initial. rewrite map_app, concat_app.
    assert (concat (map holds (replicate concurrency (Worker Selecting))) = []) as -> by (clear; induction concurrency; done).
    clear. induction calls; done. }
  split; cbn [sys_shared sys_closer sys_threads capacity channel sender receiver_dropped aborting queued running state]; try done.
  - cbn. lia.
  - intros _. unfold in_progress. cbn. rewrite Hheld. split; [constructor|]. intros oid Ho. by apply elem_of_nil in Ho.
  - intros _ _. by rewrite Hsum.
  - intros _. by rewrite Hsum.
Qed.

Lemma reachable_inv concurrency calls cap s0 sys :
  scheduler_new concurrency cap = Some s0 -> reachable concurrency calls s0 sys ->
  scheduler_inv cap (map is_worker (threads_initial concurrency calls)) sys.
Proof.
  intros Hn Hr. pose proof (initial_inv concurrency calls cap s0 Hn) as Hi. unfold reachable in Hr.
  induction Hr as [|sys sys1 sys2 Hs _ IH]; [done|]. apply IH. by eapply inv_step.
Qed.

(** ** Conversions do not overlap *)

Lemma concat_holds_unique threads i j oid ti tj :
  NoDup (concat (map holds threads)) -> threads !! i = Some ti -> threads !! j = Some tj ->
  oid ∈ holds ti -> oid ∈ holds tj -> i = j.
Proof.
  revert i j. induction threads as [|t l IH]; intros i j Hnd Hi Hj Hti Htj; [done|]. cbn [map concat] in Hnd.
  apply NoDup_app in Hnd as (Hnd1 & Hdis & Hnd2).
  assert (forall k tk, l !! k = Some tk -> oid ∈ holds tk -> oid ∈ concat (map holds l)) as Hc.
  { intros k tk Hk Ho. apply list_elem_of_In, in_concat. exists (holds tk). rewrite <- !list_elem_of_In.
    split; [|done]. apply (list_elem_of_fmap_2 holds). by eapply list_elem_of_lookup_2. }
  destruct i as [|i], j as [|j]; cbn in Hi, Hj; [done| | |f_equal; eauto].
  - injection Hi as ->. exfalso. eapply Hdis; eauto.
  - injection Hj as ->. exfalso. eapply Hdis; eauto.
Qed.

Lemma converting_le_workers threads : (length (filter is_converting threads) <= length (filter is_worker threads))%nat.
Proof.
  induction threads as [|t l IH]; [done|]. rewrite !filter_cons.
  destruct (decide (is_converting t)) as [Ht|Ht], (decide (is_worker t)) as [Hw|Hw]; cbn [length]; try lia.
  by destruct t.
Qed.

Lemma count_workers threads : length (filter is_worker threads) = length (filter (fun b => Is_true b) (map is_worker threads)).
Proof.
  induction threads as [|t l IH]; [done|]. cbn [map]. rewrite !filter_cons. destruct (is_worker t); cbn [length].
  - rewrite !decide_True by done. cbn [length]. by rewrite IH.
  - rewrite !decide_False by auto. done.
Qed.

Lemma initial_workers concurrency calls : length (filter is_worker (threads_initial concurrency calls)) = concurrency.
Proof.
  unfold threads_initial. rewrite filter_app, length_app.
  assert (filter is_worker (map (fun oid => Caller (Calling oid)) calls) = []) as -> by (induction calls; done).
  cbn [length]. rewrite Nat.add_0_r. induction concurrency as [|n IH]; [done|]. cbn [replicate]. rewrite filter_cons, decide_True by done. cbn [length]. by rewrite IH.
Qed.

Definition is_counting (t : thread) : bool := match t with Worker (Received _) | Caller (Sent _) => true | _ => false end.

(** C34: In every reachable state the channel holds at most the configured number of ids, at most
    [concurrency] workers convert, no two threads convert the same id, an id that is queued or being
    converted is answered [Duplicate] by [try_enqueue] as long as the shutdown has not finished, every
    worker has stopped when it has, and while no thread is between a channel operation and its counter the
    [queued] counter is the number of queued ids. *)
Theorem scheduler_converts_once concurrency calls cap s0 sys :
  scheduler_new concurrency cap = Some s0 -> reachable concurrency calls s0 sys ->
  (length (channel (sys_shared sys)) <= cap)%nat /\
  (length (filter is_converting (sys_threads sys)) <= concurrency)%nat /\
  (forall i j oid, sys_threads sys !! i = Some (Worker (Converting oid)) -> sys_threads sys !! j = Some (Worker (Converting oid)) -> i = j) /\
  (forall i oid s' pc', sys_closer sys <> Done ->
    oid ∈ channel (sys_shared sys) \/ sys_threads sys !! i = Some (Worker (Converting oid)) ->
    caller_step (sys_shared sys) (Open oid) s' pc' -> pc' = Answered Duplicate /\ channel s' = channel (sys_shared sys)) /\
  (sys_closer sys = Done -> Forall stopped (sys_threads sys)) /\
  (counting (sys_closer sys) = true -> receiver_dropped (sys_shared sys) = false -> Forall (fun t => is_counting t = false) (sys_threads sys) ->
    queued (sys_shared sys) = as_u64 (len (channel (sys_shared sys)))).
Proof.
  intros Hn Hr. destruct (reachable_inv _ _ _ _ _ Hn Hr) as [Hcap Hw Hb Hd Hsend Hstop Hq Hrun].
  split; [done|]. split; [|split; [|split; [|split]]].
  - etrans; [apply converting_le_workers|]. rewrite count_workers, Hw, <- count_workers, initial_workers. done.
  - intros i j oid Hi Hj. destruct (decide (sys_closer sys = Done)) as [E|E].
    + pose proof (Hstop ltac:(by rewrite E)) as Hs. pose proof (Forall_lookup_1 _ _ _ _ Hs Hi). done.
    + destruct (Hd E) as [Hnd _]. apply NoDup_app in Hnd as (_ & _ & Hnd).
      eapply (concat_holds_unique _ i j oid _ _ Hnd Hi Hj); by left.
  - intros i oid s' pc' E Ho Hs. destruct (Hd E) as [_ Hin].
    assert (oid ∈ state (sys_shared sys)) as Hst.
    { apply Hin. unfold in_progress. apply elem_of_app. destruct Ho as [Ho|Hi]; [by left|right].
      apply list_elem_of_In, in_concat. exists [oid]. rewrite <- !list_elem_of_In. split; [|by left].
      change [oid] with (holds (Worker (Converting oid))). apply (list_elem_of_fmap_2 holds). by eapply list_elem_of_lookup_2. }
    inversion Hs; subst; [done|contradiction].
  - intros E. apply Hstop. by rewrite E.
  - intros Hc Hrd Hall. rewrite (Hq Hc Hrd). f_equal.
    assert (sum_by queued_due (sys_threads sys) = 0) as ->; [|lia].
    clear - Hall. induction Hall as [|t l Ht _ IH]; [done|]. rewrite sum_by_cons, IH. by destruct t as [[]|[]].
Qed.

(** ** The shutdown can always finish *)

Definition lock_held (t : thread) : Z :=
  match t with Caller (Locked _) | Caller (Sent _) | Caller Counted | Caller (BackingOut true _ _) | Caller (Rejecting true _) | Caller (Unlocking _) => 1 | _ => 0 end.

(** How far a caller is from its answer, and a worker that is being aborted from its end. *)
Definition caller_rank (t : thread) : nat :=
  match t with
  | Caller (Calling _) => 8 | Caller (Open _) => 7 | Caller (Inserted _) => 6 | Caller (Locked _) => 5 | Caller (Sent _) => 4
  | Caller Counted => 3 | Caller (BackingOut _ _ _) => 3 | Caller (Rejecting _ _) => 2 | Caller (Unlocking _) => 1 | _ => 0
  end.
Definition worker_rank (t : thread) : nat :=
  match t with
  | Worker Stopped | Caller _ => 0 | Worker Selecting | Worker (Converting _) => 1
  | Worker (Starting _) | Worker (Releasing _) | Worker Cancelled => 2
  | Worker (Received _) | Worker (Converted _) | Worker (Cancelling _) => 3
  end.

Lemma lock_held_nonneg t : 0 <= lock_held t.
Proof. destruct t as [|[]]; try destruct locked; done. Qed.

Lemma lock_step sys sys' :
  sum_by lock_held (sys_threads sys) = Z.b2z (sender_locked (sys_shared sys)) -> step sys sys' ->
  sum_by lock_held (sys_threads sys') = Z.b2z (sender_locked (sys_shared sys')).
Proof.
  intros Hl Hs. destruct Hs as [s c threads i pc s' pc' Hi Hs|s c threads i pc s' pc' Hi Hs|s c threads s' c' Hs|s c threads Hall];
    cbn [sys_shared sys_threads] in *.
  - rewrite (sum_by_insert _ _ _ _ _ Hi). destruct Hs; cbn in *; lia.
  - rewrite (sum_by_insert _ _ _ _ _ Hi).
    assert (lock_held (Caller pc) <= sum_by lock_held threads) as Hle by (eapply sum_by_elem; [apply Forall_forall; intros; apply lock_held_nonneg|exact Hi]).
    destruct Hs; try destruct locked; cbn in *; try lia.
    all: try (match goal with E : sender_locked _ = _ |- _ => rewrite E in * end; cbn in *; lia).
    all: destruct (sender_locked _); cbn in *; lia.
  - destruct Hs; done.
  - done.
Qed.

Lemma drain (f : thread -> nat) (P : shared -> Prop) :
  (forall s c threads i t, threads !! i = Some t -> P s -> (0 < f t)%nat ->
     exists s' t', step (mkSystem s c threads) (mkSystem s' c (<[i := t']> threads)) /\ (f t' < f t)%nat /\ P s') ->
  forall s c threads, P s ->
  exists s' threads', rtc step (mkSystem s c threads) (mkSystem s' c threads') /\ P s' /\ Forall (fun t => f t = 0%nat) threads'.
Proof.
  intros Hstep s c threads. remember (Z.to_nat (sum_by (fun t => Z.of_nat (f t)) threads)) as n eqn:Hn.
  revert s threads Hn. induction n as [n IH] using (well_founded_induction lt_wf). intros s threads Hn Hp.
  destruct (decide (Forall (fun t => f t = 0%nat) threads)) as [Hall|Hall]; [by exists s, threads|].
  apply not_Forall_Exists in Hall; [|solve_decision]. apply Exists_exists in Hall as (t & [i Hi]%list_elem_of_lookup & Ht).
  destruct (Hstep s c threads i t Hi Hp) as (s1 & t' & Hs & Hlt & Hp1); [cbn in Ht; lia|].
  assert (forall l, Forall (fun t => 0 <= Z.of_nat (f t)) l) as Hnn by (intros l; apply Forall_forall; intros; lia).
  destruct (IH (Z.to_nat (sum_by (fun t => Z.of_nat (f t)) (<[i := t']> threads))) ltac:(
    rewrite Hn, (sum_by_insert _ _ _ _ _ Hi); pose proof (sum_by_elem _ _ _ _ (Hnn threads) Hi); cbn beta in *; lia) s1 _ eq_refl Hp1)
    as (s' & threads' & Hr & Hp' & Hall'). exists s', threads'. split; [|done]. by eapply rtc_l.
Qed.

Lemma callers_answer s c threads :
  exists s' threads', rtc step (mkSystem s c threads) (mkSystem s' c threads') /\ Forall (fun t => caller_rank t = 0%nat) threads'.
Proof.
  destruct (drain caller_rank (fun _ => True)) with (s := s) (c := c) (threads := threads) as (s' & t' & Hr & _ & Ha); [|done|by eauto].
  clear. intros s c threads i t Hi _ Ht.
  assert (exists s' pc', forall pc, t = Caller pc -> caller_step s pc s' pc' /\ (caller_rank (Caller pc') < caller_rank t)%nat) as (s' & pc' & H).
  { destruct t as [pc|[oid|oid|oid|oid|oid| |locked oid a|locked a|a|a]]; try (cbn in Ht; lia).
    all: enough (exists s' pc', caller_step s _ s' pc' /\ (caller_rank (Caller pc') < caller_rank (Caller _))%nat) as (s' & pc' & H1 & H2)
      by (exists s', pc'; intros ? [= <-]; split; [exact H1|exact H2]).
    - destruct (closed s) eqn:E; eexists _, _; (split; [by constructor|cbn; lia]).
    - destruct (decide (oid ∈ state s)); eexists _, _; (split; [by constructor|cbn; lia]).
    - destruct (sender_locked s) eqn:E; eexists _, _; (split; [by constructor|cbn; lia]).
    - destruct (sender s) eqn:E1; [destruct (receiver_dropped s) eqn:E2;
        [|destruct (decide (capacity s <= length (channel s))%nat)]|]; eexists _, _;
        (split; [first [apply c_receiver_dropped; done|apply c_full; done|apply c_send; [done|done|lia]|apply c_no_sender; done]|cbn; lia]).
    - eexists _, _; (split; [by constructor|cbn; lia]).
    - eexists _, _; (split; [by constructor|cbn; lia]).
    - eexists _, _; (split; [by constructor|cbn; lia]).
    - destruct a; eexists _, _; (split; [first [apply c_reject_full|by apply c_reject]|destruct locked; cbn; lia]).
    - eexists _, _; (split; [by constructor|cbn; lia]). }
  destruct t as [pc|pc]; [by cbn in Ht; destruct pc; cbn in Ht; lia|]. destruct (H pc eq_refl) as [Hs Hlt].
  exists s', (Caller pc'). split; [by eapply step_caller|done].
Qed.

Lemma workers_stop s c threads :
  aborting s = true -> exists s' threads', rtc step (mkSystem s c threads) (mkSystem s' c threads') /\ Forall stopped threads'.
Proof.
  intros Hab. destruct (drain worker_rank (fun s => aborting s = true)) with (s := s) (c := c) (threads := threads) as (s' & t' & Hr & _ & Ha); [|done|].
  - clear. intros s c threads i t Hi Hab Ht.
    destruct t as [[|oid|oid|oid|oid|oid|oid| |]|pc]; try (cbn in Ht; lia);
      eexists _, (Worker _); (split; [eapply step_worker; [exact Hi|first [by apply w_aborted_idle|by apply w_aborted_converting|by constructor]]|cbn; split; [lia|done]]).
  - exists s', t'. split; [done|]. eapply Forall_impl; [exact Ha|]. intros [[]|]; done.
Qed.

Lemma lock_reachable concurrency calls cap s0 sys :
  scheduler_new concurrency cap = Some s0 -> reachable concurrency calls s0 sys ->
  sum_by lock_held (sys_threads sys) = Z.b2z (sender_locked (sys_shared sys)).
Proof.
  intros Hn Hr. unfold reachable in Hr.
  assert (sum_by lock_held (threads_initial concurrency calls) = Z.b2z (sender_locked s0)) as Hi.
  { unfold scheduler_new in Hn. destruct (_ || _); [done|]. injection Hn as <-. unfold threads_initial. rewrite sum_by_app. cbn [sender_locked].
    assert (sum_by lock_held (replicate concurrency (Worker Selecting)) = 0) as -> by (clear; induction concurrency; done).
    clear. induction calls; done. }
  remember (mkSystem s0 Serving (threads_initial concurrency calls)) as sys0 eqn:E0.
  assert (sum_by lock_held (sys_threads sys0) = Z.b2z (sender_locked (sys_shared sys0))) as H0 by (by rewrite E0).
  clear E0 Hi Hn. revert H0. induction Hr as [|sys1 sys2 sys3 Hs Hr IH]; intros H0.
  - exact H0.
  - apply IH. by eapply lock_step.
Qed.

Lemma lock_free_answered threads : Forall (fun t => caller_rank t = 0%nat) threads -> sum_by lock_held threads = 0.
Proof. induction 1 as [|t l Ht _ IH]; [done|]. rewrite sum_by_cons, IH. by destruct t as [|[]]. Qed.

(** From the point where the workers are joined, the shutdown reaches its end. *)
Lemma join_finishes s threads : exists sys', rtc step (mkSystem s Joining threads) sys' /\ sys_closer sys' = Done /\ state (sys_shared sys') = ∅.
Proof.
  destruct (workers_stop (set_flags s (cancelled s) true (closed s)) Joining threads eq_refl) as (s1 & threads1 & Hr & Hst).
  exists (mkSystem (set_state s1 ∅) Done threads1). split; [|done].
  eapply rtc_l; [apply step_closer, s_deadline|]. etrans; [exact Hr|].
  eapply rtc_l; [apply step_closer, s_joined; exact Hst|]. eapply rtc_l; [apply step_closer, s_clear|]. reflexivity.
Qed.

(** No reachable state can block the shutdown: from it, whatever calls and conversions are under way,
    some continuation brings [shutdown] to its end with no id left in the state, the workers stopped and
    every call that was under way answered or able to finish. *)
Theorem scheduler_can_shut_down concurrency calls cap s0 sys :
  scheduler_new concurrency cap = Some s0 -> reachable concurrency calls s0 sys -> sys_closer sys <> Done ->
  exists sys', rtc step sys sys' /\ sys_closer sys' = Done /\ state (sys_shared sys') = ∅ /\ Forall stopped (sys_threads sys').
Proof.
  intros Hn Hr Hnd.
  enough (exists sys', rtc step sys sys' /\ sys_closer sys' = Done /\ state (sys_shared sys') = ∅) as (sys' & Hr' & Hd & Hs).
  { exists sys'. split; [done|]. split; [done|]. split; [done|].
    assert (reachable concurrency calls s0 sys') as Hr2 by (unfold reachable in *; by etrans).
    apply (si_stopped _ _ _ (reachable_inv _ _ _ _ _ Hn Hr2)). by rewrite Hd. }
  destruct sys as [s c threads]. cbn in Hnd.
  destruct (callers_answer s c threads) as (s1 & threads1 & Hr1 & Ha).
  assert (sender_locked s1 = false) as Hl.
  { assert (reachable concurrency calls s0 (mkSystem s1 c threads1)) as Hr2 by (unfold reachable in *; by etrans).
    pose proof (lock_reachable _ _ _ _ _ Hn Hr2) as E. cbn [sys_threads sys_shared] in E. rewrite (lock_free_answered _ Ha) in E.
    by destruct (sender_locked s1). }
  enough (exists s2, rtc step (mkSystem s1 c threads1) (mkSystem s2 Joining threads1) \/ c = Joined /\ s2 = s1) as (s2 & [Hr2|[-> _]]).
  - destruct (join_finishes s2 threads1) as (sys' & Hr3 & Hd). exists sys'. split; [|done]. etrans; [exact Hr1|]. by etrans.
  - exists (mkSystem (set_state s1 ∅) Done threads1). split; [|done]. etrans; [exact Hr1|]. apply rtc_once, step_closer, s_clear.
  - clear - Hl Hnd.
    assert (forall s, rtc step (mkSystem s SenderTaken threads1)
      (mkSystem (set_counts (set_flags s true (aborting s) (closed s)) 0 (running s) (accepted s) (rejected_full s) (rejected_duplicate s)) Joining threads1)) as Hst.
    { intros s. eapply rtc_l; [apply step_closer, s_cancel|].
      apply rtc_once, step_closer. exact (s_swap_queued threads1 (set_flags s true (aborting s) (closed s))). }
    destruct c; [| | | | | |done]; try (eexists; right; done); eexists; left.
    + eapply rtc_l; [apply step_closer, s_close|]. eapply rtc_l; [apply step_closer, s_take_sender; exact Hl|]. apply Hst.
    + eapply rtc_l; [apply step_closer, s_take_sender; exact Hl|]. apply Hst.
    + apply Hst.
    + apply rtc_once, step_closer, s_swap_queued.
    + reflexivity.
Qed.

(** ** Runs *)

Definition run_start : shared := mkShared 1 [] false true false ∅ false false false 0 0 0 0 0.

(** One worker and two calls for the same id: the worker takes the id before the caller has counted it. *)
Definition run_dequeued : system :=
  mkSystem (mkShared 1 [] false true true ({["a"]} ∪ ∅) false false false (2 ^ 64 - 1) 0 0 0 0) Serving
    [Worker (Starting "a"); Caller (Sent "a"); Caller (Open "a")].

(** The same run, once the caller has counted the id and the worker converts it. *)
Definition run_converting : system :=
  mkSystem (mkShared 1 [] false true false ({["a"]} ∪ ∅) false false false 0 1 1 0 0) Serving
    [Worker (Converting "a"); Caller (Answered Accepted); Caller (Open "a")].

Ltac call i rule := eapply rtc_l; [eapply (step_caller _ _ _ i); [reflexivity|eapply rule; try reflexivity; try set_solver]|cbn].
Ltac work i rule := eapply rtc_l; [eapply (step_worker _ _ _ i); [reflexivity|eapply rule; try reflexivity]|cbn].

Lemma run_dequeued_reachable : reachable 1 ["a"; "a"] run_start run_dequeued.
Proof.
  unfold reachable, threads_initial. cbn. call 1%nat c_open. call 2%nat c_open. call 1%nat c_insert. call 1%nat c_lock.
  call 1%nat c_send. work 0%nat w_recv. work 0%nat w_dequeued. reflexivity.
Qed.

Lemma run_converting_reachable : reachable 1 ["a"; "a"] run_start run_converting.
Proof.
  unfold reachable. etrans; [apply run_dequeued_reachable|]. unfold run_dequeued. work 0%nat w_started. call 1%nat c_count_queued. call 1%nat c_count_accepted.
  call 1%nat c_unlock. reflexivity.
Qed.

(** The counter of queued ids can wrap: a worker subtracts an id its caller has not added yet. *)
Lemma queued_can_wrap : exists sys, reachable 1 ["a"; "a"] run_start sys /\ channel (sys_shared sys) = [] /\ queued (sys_shared sys) = 2 ^ 64 - 1.
Proof. exists run_dequeued. split; [apply run_dequeued_reachable|done]. Qed.

Lemma scheduler_converts_once_witness :
  scheduler_new 1 1 = Some run_start /\ reachable 1 ["a"; "a"] run_start run_converting /\
  forall s' pc', caller_step (sys_shared run_converting) (Open "a") s' pc' -> pc' = Answered Duplicate.
Proof.
  split; [reflexivity|]. split; [apply run_converting_reachable|]. intros s' pc' Hs.
  destruct (scheduler_converts_once 1 ["a"; "a"] 1 run_start run_converting eq_refl run_converting_reachable) as (_ & _ & _ & H & _).
  apply (H 0%nat "a" s' pc'); [done|by right|exact Hs].
Defined.

Lemma scheduler_can_shut_down_witness :
  reachable 1 ["a"; "a"] run_start run_converting /\
  exists sys', rtc step run_converting sys' /\ sys_closer sys' = Done /\ state (sys_shared sys') = ∅ /\ Forall stopped (sys_threads sys').
Proof.
  split; [apply run_converting_reachable|].
  apply (scheduler_can_shut_down 1 ["a"; "a"] 1 run_start run_converting eq_refl run_converting_reachable). done.
Defined.

(** ** [ConvertingOids]: the ids that are being converted outside the scheduler *)
Definition try_acquire (inner : gset string) (oid : string) : gset string * bool := ({[ oid ]} ∪ inner, negb (bool_decide (oid ∈ inner))).
Definition release (inner : gset string) (oid : string) : gset string := inner ∖ {[ oid ]}.

Lemma try_acquire_once inner oid : snd (try_acquire inner oid) = true <-> oid ∉ inner.
Proof. cbn. by rewrite negb_true_iff, bool_decide_eq_false. Qed.
Lemma try_acquire_release inner oid : oid ∉ inner -> release (fst (try_acquire inner oid)) oid = inner.
Proof. intros. unfold release, try_acquire; cbn. set_solver. Qed.
