(* ===== verification/Operations.v ===== *)
(** * Programs of storage and index operations

    The asynchronous functions of the CAS server (the handlers of src/src/api,
    the conversion of src/src/conversion) await the storage, the index and the
    scheduler one operation at a time, and between two operations those of other
    tasks take place.  A program is such a function: an operation with what
    follows each of its answers, up to a result.  A panic has no result.

    [Read] stands for the reads of objects up to the next operation: the view
    says what each of them answers.  [Queries] stands for several lookups in the
    index in a row, each of which may find another state of it. *)
From S2P Require Import Prelude Bytes Crates MerkleHash Storage Index ShardIo Scheduler.

Inductive program (A : Type) :=
| Respond (r : A)
| Crash
| Exists (key : string) (k : StorageResult bool -> program A)
| Size (key : string) (k : StorageResult Z -> program A)
| Read (k : StorageView -> program A)
| PutFile (key : string) (data : list byte) (k : StorageResult unit -> program A)
| Put (key : string) (data : list byte) (k : StorageResult unit -> program A)
| Delete (key : string) (k : StorageResult unit -> program A)
| Query (k : MetadataIndex -> program A)
| Queries (k : (nat -> MetadataIndex) -> program A)
| Register (registration : VerifiedShardRegistration) (k : outcome IndexRegistrationError unit -> program A)
| Enqueue (oid : string) (k : option EnqueueResult -> program A).
Arguments Respond {A}.
Arguments Crash {A}.
Arguments Exists {A}.
Arguments Size {A}.
Arguments Read {A}.
Arguments PutFile {A}.
Arguments Put {A}.
Arguments Delete {A}.
Arguments Query {A}.
Arguments Queries {A}.
Arguments Register {A}.
Arguments Enqueue {A}.

(** [?]: an error ends the program. *)
Definition attempt {A E R} (o : outcome E A) (k : A -> program (outcome E R)) : program (outcome E R) :=
  match o with
  | Ok a => k a
  | Err e => Respond (Err e)
  | Panic => Crash
  end.
Notation "'attempt*' x := o ; k" := (attempt o (fun x => k)) (at level 100, x pattern, o at level 99, k at level 200, right associativity).
