(* ===== verification/Conversion.v ===== *)
(** * Converting raw blobs (src/conversion/mod.rs)

    A raw LFS object becomes a xorb and a shard, the index learns the file, and
    the object may be deleted.  [convert_steps] is the pipeline as a program of
    [Operations]: requests are served between any two of its operations
    ([CasServer]); [convert] is its run when nothing else happens.  Reading the
    staged file does not fail, and the temporary directory is there. *)
From S2P Require Import Prelude Bytes Crates MerkleHash Hash Cdc Compression Xorb XorbBuilder Shard ShardBuilder ReconPlan.
From S2P Require Import Text Storage Index ShardIo ObjectStore ShardValidation Rebuild Reconstruction Quota Scheduler Operations.

Local Open Scope string_scope.
Local Open Scope list_scope.
Local Open Scope Z_scope.

Definition CONVERSION_BLOCK_SIZE : Z := 1024 * 1024.

Record ConversionConfig := mkConversion {
  cc_enabled : bool;
  cc_compression_scheme : string;
  delete_raw_after_conversion : bool;
  min_conversion_size : Z;
  max_conversion_size : Z;
  cc_concurrency : Z;
  cc_queue_capacity : Z;
  cc_shutdown_grace_secs : Z;
}.

Inductive ConversionError :=
| CvNotFound (oid : string)
| CvStorage (msg : string)
| CvChunking (msg : string)
| CvBuild (msg : string)
| CvTooSmall (size : Z)
| CvTooLarge (size : Z)
| CvDisabled.

Record ConversionResult := mkConverted {
  cr_xorb_hash : string;
  cr_shard_hash : string;
  cr_num_chunks : Z;
  cr_num_deduped_chunks : Z;
  cr_raw_size : Z;
  cr_xorb_size : Z;
}.

(** [ConversionConfig::scheme]. *)
Definition config_scheme {E} (c : ConversionConfig) : outcome E CompressionScheme :=
  let s := string_to_lower (cc_compression_scheme c) in
  if (s =? "none")%string then Ok NoCompression
  else if (s =? "lz4")%string then Ok LZ4
  else if (s =? "bg4lz4")%string then Ok ByteGrouping4LZ4
  else Panic.

(** ** Chunking and compressing the blob *)

(** The locals of the loops over the chunks. *)
Record conv_state := mkConv {
  cv_builder : XorbBuilder;
  cv_num_deduped : Z;
  cv_num_chunks : Z;
  cv_chunk_entries : list XorbChunkBuildEntry;
  cv_raw_chunk_hashes : list MerkleHash;
  cv_cumulative_uncompressed : Z;
  cv_xorb_offset : Z;
  cv_chunk_data_buf : list byte;
}.

Section Chunking.
Context `{Blake3, HexCrate, Lz4, GearHash, FileReads}.
(** The index as each lookup of a chunk, counted from 0, finds it. *)
Context (indexes : nat -> MetadataIndex).

Definition conv_new (scheme : CompressionScheme) : conv_state := mkConv (builder_new scheme) 0 0 [] [] 0 0 [].

Definition extend_buf (st : conv_state) (block : list byte) : conv_state :=
  mkConv (cv_builder st) (cv_num_deduped st) (cv_num_chunks st) (cv_chunk_entries st) (cv_raw_chunk_hashes st)
    (cv_cumulative_uncompressed st) (cv_xorb_offset st) (cv_chunk_data_buf st ++ block).

(** The body shared by the two loops over chunks. *)
Definition process_chunk (st : conv_state) (chunk : Chunk) : outcome ConversionError conv_state :=
  let* chunk_data := slice (cv_chunk_data_buf st) 0 (size chunk) in
  let unpacked_size := as_u32 (size chunk) in
  let chunk_hash := compute_data_hash chunk_data in
  let num_deduped := if chunk_exists (indexes (Z.to_nat (cv_num_chunks st))) chunk_hash then cv_num_deduped st + 1 else cv_num_deduped st in
  let* '(builder, added) := map_err (fun _ => CvBuild "Add chunk failed") (XorbBuilder.add_chunk (cv_builder st) chunk_data) in
  let '(serialized_chunk_hash, compressed_len) := added in
  Ok (mkConv builder num_deduped (cv_num_chunks st + 1)
        (cv_chunk_entries st ++ [mkChunkBuild serialized_chunk_hash (cv_xorb_offset st) unpacked_size])
        (cv_raw_chunk_hashes st ++ [chunk_hash])
        (as_u32 (cv_cumulative_uncompressed st + unpacked_size))
        (as_u32 (cv_xorb_offset st + (8 + compressed_len)))
        (drop (Z.to_nat (size chunk)) (cv_chunk_data_buf st))).

(** The read loop: [rest] is the file from position [pos] on. *)
Fixpoint read_blocks (fuel : nat) (pos : Z) (rest : list byte) (chunker : StreamingChunker) (st : conv_state)
  : option (outcome ConversionError (StreamingChunker * conv_state)) :=
  match fuel with
  | O => None
  | S fuel' =>
      let available := Z.min CONVERSION_BLOCK_SIZE (len rest) in
      let bytes_read := if available =? 0 then 0 else os_read pos available in
      if bytes_read =? 0 then Some (Ok (chunker, st))
      else
        let block := take (Z.to_nat bytes_read) rest in
        let st := extend_buf st block in
        match next_block chunker block with
        | Ok (chunker, new_chunks) =>
            match fold_outcome process_chunk st new_chunks with
            | Ok st => read_blocks fuel' (pos + bytes_read) (drop (Z.to_nat bytes_read) rest) chunker st
            | Err e => Some (Err e)
            | Panic => Some Panic
            end
        | _ => Some Panic
        end
  end.

(** Steps 3 to the end of the chunk loops; the fuel is one more than there are
    bytes, and [chunk_blob_spec] shows that it is enough. *)
Definition chunk_blob (scheme : CompressionScheme) (raw : list byte) : outcome ConversionError conv_state :=
  match streaming_chunker_new config_new with
  | Ok chunker =>
      let* '(chunker, st) := default Panic (read_blocks (S (length raw)) 0 raw chunker (conv_new scheme)) in
      match finalize chunker with
      | Ok remaining_chunks => fold_outcome process_chunk st remaining_chunks
      | _ => Panic
      end
  | _ => Panic
  end.
End Chunking.

(** ** Building the shard *)
Section ShardOf.
Context `{Blake3, HexCrate}.

Definition verified_chunks_of (xorb_hash : MerkleHash) (raw_chunk_hashes : list MerkleHash) : list VerifiedChunkMapping :=
  imap (fun i h => mkChunkMapping h xorb_hash (as_u32 (Z.of_nat i))) raw_chunk_hashes.

Definition build_shard (file_hash : MerkleHash) (xorb : XorbBuildResult) (st : conv_state) : outcome ConversionError (list byte) :=
  let* '(shard_builder, xorb_index) := map_err (fun _ => CvBuild "Add xorb to shard failed")
    (add_xorb_with_raw_chunk_hashes shard_builder_new (xb_xorb_hash xorb) (as_u32 (total_uncompressed_size xorb))
       (as_u32 (total_compressed_size xorb)) (cv_chunk_entries st) (cv_raw_chunk_hashes st)) in
  let segment := mkSegment (xb_xorb_hash xorb) xorb_index 0 (as_u32 (cv_num_chunks st)) (cv_cumulative_uncompressed st) in
  let shard_builder := ShardBuilder.add_file shard_builder file_hash [segment] in
  map_err (fun _ => CvBuild "Shard build failed") (ShardBuilder.build shard_builder).
End ShardOf.

(** ** The pipeline *)
Section Pipeline.
Context `{Blake3, HexCrate, Lz4, GearHash, FileReads}.

Definition storage_err {A} (msg : string) (o : StorageResult A) : outcome ConversionError A := map_err (fun _ => CvStorage msg) o.

Definition check_size (c : ConversionConfig) (n : Z) : outcome ConversionError unit :=
  if n <? min_conversion_size c then Err (CvTooSmall n)
  else if max_conversion_size c <? n then Err (CvTooLarge n)
  else Ok tt.

Definition conversion : Type := program (outcome ConversionError ConversionResult).

(** The bounds of a remote object, before it is staged. *)
Definition check_remote_size (c : ConversionConfig) (object_key : string) (k : unit -> conversion) : conversion :=
  Read (fun view =>
    match get_path view object_key 1 with
    | Ok (Some _) => k tt
    | _ => Size object_key (fun answer =>
        attempt* remote_size := storage_err "Failed to stat blob" answer;
        attempt (check_size c remote_size) k)
    end).

(** [open_blob_for_streaming]: the path of the object, or a download of it to a
    temporary file of the size the backend declares, accounted in the ledger.
    The file at the path is opened and read to the end as part of this read. *)
Definition open_blob_for_streaming (available : option Z) (ledger : TempQuotaLedger) (object_key : string)
    (k : path_content -> conversion) : conversion :=
  Read (fun view =>
    match get_path view object_key 2 with
    | Ok (Some path) => k path
    | _ => Size object_key (fun answer =>
        attempt* expected_size := storage_err "Failed to stat blob" answer;
        let '(ledger, reserved) := manager_reserve available ledger expected_size in
        attempt* reservation :=
          map_err (fun e => match e with Overflow => CvStorage "temporary quota arithmetic overflow" | _ => CvStorage "temporary storage unavailable" end)
            reserved;
        Read (fun view =>
          attempt* blob := storage_err "Failed to download blob to temp file" (download_to_path_with_retries view object_key);
          attempt* _ := (if len blob =? expected_size then Ok tt else Err (CvStorage "downloaded blob size mismatch"));
          attempt* _ := map_err (fun _ => CvStorage "quota") (snd (commit_written ledger reservation expected_size));
          k (Some blob)))
    end).

(** Steps 6 to 10: the shard, its registration, and the end of the raw blob. *)
Definition store_shard (c : ConversionConfig) (oid : string) (raw_size : Z) (xorb_result : XorbBuildResult) (st : conv_state) : conversion :=
  let object_key := "lfs/objects/" +:+ oid in
  attempt* file_hash := map_err (fun _ => CvBuild "Invalid OID as MerkleHash") (from_hex oid);
  attempt* shard_data := build_shard file_hash xorb_result st;
  let shard_hash := to_hex (compute_data_hash shard_data) in
  Put ("shards/" +:+ shard_hash) shard_data (fun answer =>
    attempt* _ := storage_err "Failed to store shard" answer;
    Register (mkRegistration shard_hash [mkFileMapping file_hash 0 raw_size]
                (verified_chunks_of (xb_xorb_hash xorb_result) (cv_raw_chunk_hashes st))) (fun answer =>
      attempt* _ := map_err (fun _ => CvBuild "Metadata index rejected converted file") answer;
      let result := mkConverted (to_hex (xb_xorb_hash xorb_result)) shard_hash (cv_num_chunks st) (cv_num_deduped st) raw_size
                      (total_compressed_size xorb_result) in
      if delete_raw_after_conversion c then Delete object_key (fun _ => Respond (Ok result)) else Respond (Ok result))).

(** Steps 3 to 5: the chunks and their xorb, which is stored unless it is there. *)
Definition store_xorb (c : ConversionConfig) (oid : string) (raw : list byte) : conversion :=
  attempt* scheme := config_scheme c;
  Queries (fun indexes =>
    attempt* st := chunk_blob indexes scheme raw;
    attempt* xorb_result := map_err (fun _ => CvBuild "Xorb build failed") (XorbBuilder.build (cv_builder st));
    let xorb_key := "xorbs/" +:+ to_hex (xb_xorb_hash xorb_result) in
    Exists xorb_key (fun answer =>
      attempt* xorb_exists := storage_err "storage" answer;
      if xorb_exists : bool then store_shard c oid (len raw) xorb_result st
      else Put xorb_key (xb_data xorb_result) (fun answer =>
        attempt* _ := storage_err "Failed to store xorb" answer;
        store_shard c oid (len raw) xorb_result st))).

(** [ConversionPipeline::convert], an operation at a time. *)
Definition convert_steps (c : ConversionConfig) (available : option Z) (ledger : TempQuotaLedger) (oid : string) : conversion :=
  if negb (cc_enabled c) then Respond (Err CvDisabled)
  else
    let object_key := "lfs/objects/" +:+ oid in
    check_remote_size c object_key (fun _ =>
      open_blob_for_streaming available ledger object_key (fun path =>
        attempt* raw := ok_or path (CvStorage "Failed to stat blob");
        attempt* _ := check_size c (len raw);
        store_xorb c oid raw)).

(** A program that runs while nothing else does; the scheduler takes nothing. *)
Context `{ObjectStore}.
Record world := mkWorld { w_store : store; w_index : MetadataIndex }.

Fixpoint alone {E A} (p : program (outcome E A)) (w : world) : world * outcome E A :=
  match p with
  | Respond answer => (w, answer)
  | Crash => (w, Panic)
  | Exists key k => alone (k (st_exists (w_store w) key)) w
  | Size key k => alone (k (st_get_size (w_store w) key)) w
  | Read k => alone (k (reads (w_store w))) w
  | PutFile key data k => let '(s, answer) := st_put_from_path (w_store w) key data in alone (k answer) (mkWorld s (w_index w))
  | Put key data k => let '(s, answer) := st_put (w_store w) key data in alone (k answer) (mkWorld s (w_index w))
  | Delete key k => let '(s, answer) := st_delete (w_store w) key in alone (k answer) (mkWorld s (w_index w))
  | Query k => alone (k (w_index w)) w
  | Queries k => alone (k (fun _ => w_index w)) w
  | Register registration k =>
      let '(index, answer) := register_verified_shard (w_index w) registration in alone (k answer) (mkWorld (w_store w) index)
  | Enqueue oid k => alone (k None) w
  end.

(** [ConversionPipeline::convert], when no other task touches the storage or the index. *)
Definition convert (c : ConversionConfig) (available : option Z) (ledger : TempQuotaLedger) (oid : string) (w : world)
    : world * outcome ConversionError ConversionResult :=
  alone (convert_steps c available ledger oid) w.
End Pipeline.

(** ** Specification *)

(** The data cut into pieces of the given sizes. *)
Fixpoint cut (sizes : list Z) (data : list byte) : list (list byte) :=
  match sizes with
  | [] => []
  | n :: sizes => take (Z.to_nat n) data :: cut sizes (drop (Z.to_nat n) data)
  end.

(** The pieces of a blob: its content-defined chunks. *)
Definition blob_pieces `{GearHash} (raw : list byte) (ds : list (list byte)) : Prop :=
  exists c chunks, chunker_new config_new = Ok c /\ chunk_data c raw = Ok (c, chunks) /\ ds = cut (map size chunks) raw.

(** ** Lemmas: chunking *)

Lemma cut_app s1 s2 data :
  Forall (fun n => 0 <= n) s1 -> cut (s1 ++ s2) data = cut s1 data ++ cut s2 (drop (Z.to_nat (sum_by id s1)) data).
Proof.
  intros Hs. revert data. induction Hs as [|n s1 Hn Hs IH]; intros data; [done|]. cbn [app cut]. rewrite IH. do 3 f_equal.
  rewrite drop_drop, sum_by_cons. f_equal.
  assert (0 <= sum_by id s1) by (by apply sum_by_nonneg). unfold id at 2. lia.
Qed.

Lemma cut_prefix sizes x y :
  Forall (fun n => 0 <= n) sizes -> sum_by id sizes <= len x -> cut sizes (x ++ y) = cut sizes x.
Proof.
  intros Hs. revert x. induction Hs as [|n sizes Hn Hs IH]; intros x Hl; [done|]. cbn [cut].
  assert (0 <= sum_by id sizes) as H0 by (by apply sum_by_nonneg). rewrite sum_by_cons in Hl. unfold id at 1 in Hl.
  rewrite take_app_le by (unfold len in *; lia). rewrite drop_app_le by (unfold len in *; lia). f_equal. apply IH.
  rewrite len_drop by lia. lia.
Qed.

Lemma cut_sizes sizes data :
  Forall (fun n => 0 <= n) sizes -> sum_by id sizes <= len data ->
  map len (cut sizes data) = sizes /\ concat (cut sizes data) = take (Z.to_nat (sum_by id sizes)) data.
Proof.
  intros Hs. revert data. induction Hs as [|n sizes Hn Hs IH]; intros data Hl; [done|]. cbn [cut map concat].
  assert (0 <= sum_by id sizes) as H0 by (by apply sum_by_nonneg). rewrite sum_by_cons in *. unfold id at 1 in Hl.
  destruct (IH (drop (Z.to_nat n) data)) as [-> ->]; [rewrite len_drop by lia; lia|]. split; [rewrite len_take by lia; f_equal; lia|].
  rewrite take_take_drop. f_equal. unfold id at 2. lia.
Qed.

Section ChunkLemmas.
Context `{GearLaws}.

Lemma chunking_sum c base rest chunks :
  chunker_ok c -> chunking c base rest chunks ->
  Forall (fun n => 0 <= n) (map size chunks) /\ sum_by id (map size chunks) = len rest.
Proof.
  intros Hok Hc. apply (chunking_tiles c base rest chunks Hok) in Hc. revert base Hc. generalize (len rest).
  induction chunks as [|k chunks IH]; intros total base Ht; cbn [map tiles] in *; [by subst|].
  destruct Ht as (_ & Hs & _ & _ & Ht). destruct (IH _ _ Ht) as [Hf Hsum]. split; [constructor; [lia|done]|].
  rewrite sum_by_cons. unfold id at 1. lia.
Qed.

Lemma chunking_exists c base rest : chunker_ok c -> exists chunks, chunking c base rest chunks.
Proof.
  intros Hok. destruct (chunk_data_spec c rest Hok) as (chunks & _ & Hc). eexists. by apply (chunking_shift c 0 base).
Qed.

Lemma default_chunker_ok c : chunker_new config_new = Ok c -> chunker_ok c /\ c_min c = 8192 /\ c_max c = 131072.
Proof.
  intros Hc. unfold chunker_new in Hc. destruct (is_power_of_two _); [|done]. injection Hc as <-. unfold chunker_ok. cbn [c_min c_max c_hash].
  change (min_chunk_size config_new) with 8192. change (max_chunk_size config_new) with 131072. split; [|done].
  split; [lia|apply gear_default_zero].
Qed.
End ChunkLemmas.

(** ** Lemmas: the state of the loops *)

(** The shard entries of the chunks added from offset [start] on. *)
Fixpoint entries_from `{Blake3, Lz4} (scheme : CompressionScheme) (start : Z) (ds : list (list byte)) : list XorbChunkBuildEntry :=
  match ds with
  | [] => []
  | d :: ds => mkChunkBuild (part_hash (part_of scheme d)) start (len d) ::
      entries_from scheme (start + len (chunk_bytes (part_of scheme d))) ds
  end.

(** How many of the pieces the index had when they were looked up. *)
Definition num_found `{Blake3} (indexes : nat -> MetadataIndex) (ds : list (list byte)) : Z :=
  sum_by id (imap (fun n d => if chunk_exists (indexes n) (compute_data_hash d) then 1 else 0) ds).
(** The state after the pieces [ds], with [buf] left in the buffer. *)
Definition conv_of `{Blake3, HexCrate, Lz4} (indexes : nat -> MetadataIndex) (scheme : CompressionScheme) (ds : list (list byte)) (buf : list byte) : conv_state :=
  mkConv (builder_of scheme (parts_of scheme ds))
    (num_found indexes ds) (len ds)
    (entries_from scheme 0 ds) (map compute_data_hash ds) (len (concat ds)) (len (payload (parts_of scheme ds))) buf.

Section StateLemmas.
Context `{Blake3Laws, HexCrate, Lz4Laws, GearLaws, FileReadsLaws}.
Context (indexes : nat -> MetadataIndex) (scheme : CompressionScheme).

Lemma parts_of_app ds1 ds2 : parts_of scheme (ds1 ++ ds2) = parts_of scheme ds1 ++ parts_of scheme ds2.
Proof. apply map_app. Qed.

Lemma entries_from_snoc start ds d :
  entries_from scheme start (ds ++ [d]) =
  entries_from scheme start ds ++ [mkChunkBuild (part_hash (part_of scheme d)) (start + len (payload (parts_of scheme ds))) (len d)].
Proof.
  revert start. induction ds as [|e ds IH]; intros start; cbn [app entries_from].
  - change (len (payload (parts_of scheme []))) with 0. by rewrite Z.add_0_r.
  - rewrite IH. cbn [parts_of map]. by rewrite payload_cons, len_app, Z.add_assoc.
Qed.

Lemma entries_from_length start ds : length (entries_from scheme start ds) = length ds.
Proof. revert start. induction ds as [|d ds IH]; intros start; cbn; [done|]. by rewrite IH. Qed.

Lemma entries_from_lookup start ds i d :
  ds !! i = Some d ->
  entries_from scheme start ds !! i = Some (mkChunkBuild (part_hash (part_of scheme d)) (start + chunk_start scheme ds i) (len d)).
Proof.
  revert start i. induction ds as [|e ds IH]; intros start [|i]; cbn [entries_from lookup list_lookup]; [done..| |].
  - intros [= ->]. unfold chunk_start. cbn [take parts_of map]. change (len (payload [])) with 0. by rewrite Z.add_0_r.
  - intros Hi. rewrite (IH _ i Hi). unfold chunk_start. cbn [take parts_of map]. by rewrite payload_cons, len_app, Z.add_assoc.
Qed.

Lemma process_chunk_step ds d buf chunk :
  builder_fits (parts_of scheme (ds ++ [d])) -> size chunk = len d ->
  process_chunk indexes (conv_of indexes scheme ds (d ++ buf)) chunk = Ok (conv_of indexes scheme (ds ++ [d]) buf).
Proof.
  intros Hf Hs. unfold process_chunk. cbn [conv_of cv_chunk_data_buf cv_builder cv_num_deduped cv_num_chunks cv_chunk_entries
    cv_raw_chunk_hashes cv_cumulative_uncompressed cv_xorb_offset]. rewrite Hs.
  pose proof (slice_app (E := ConversionError) [] d buf) as Hsl. cbn [app] in Hsl. change (len (@nil byte)) with 0 in Hsl.
  rewrite Z.add_0_l in Hsl. rewrite Hsl.
  rewrite parts_of_app in Hf. cbn [parts_of map] in Hf. rewrite (add_chunk_part scheme (parts_of scheme ds) d Hf). cbn [map_err].
  destruct Hf as (W & Hp & Hu). rewrite sum_unpacked_app, sum_unpacked_one in Hu. cbn [part_of fst uncompressed_length] in Hu.
  rewrite payload_app, payload_one, len_app, len_chunk_bytes in Hp. cbn [part_of snd] in Hp.
  rewrite (sum_unpacked_parts scheme ds) in Hu. pose proof (len_nonneg (concat ds)). pose proof (len_nonneg d).
  pose proof (len_nonneg (payload (parts_of scheme ds))). pose proof (len_nonneg (compressed scheme d)).
  unfold conv_of. rewrite parts_of_app, entries_from_snoc, map_app, concat_app, payload_app, !len_app. cbn [parts_of map concat].
  rewrite payload_one, app_nil_r, len_chunk_bytes. cbn [part_of snd].
  assert (as_u32 (len d) = len d) as -> by (unfold as_u32; apply Z.mod_small; lia).
  f_equal. f_equal.
  - unfold num_found. rewrite imap_app, sum_by_app. cbn [imap]. rewrite sum_by_cons, Nat.add_0_r. unfold len. rewrite Nat2Z.id.
    destruct (chunk_exists _ _); [change (id 1 + sum_by id []) with 1|change (id 0 + sum_by id []) with 0]; lia.
  - unfold as_u32. apply Z.mod_small. lia.
  - unfold as_u32. apply Z.mod_small. lia.
  - unfold len. by rewrite Nat2Z.id, drop_app_length.
Qed.

Lemma process_chunks chunks : forall ds buf,
  Forall (fun n => 0 <= n) (map size chunks) -> sum_by id (map size chunks) <= len buf ->
  builder_fits (parts_of scheme (ds ++ cut (map size chunks) buf)) ->
  fold_outcome (process_chunk indexes) (conv_of indexes scheme ds buf) chunks =
  Ok (conv_of indexes scheme (ds ++ cut (map size chunks) buf) (drop (Z.to_nat (sum_by id (map size chunks))) buf)).
Proof.
  induction chunks as [|k chunks IH]; intros ds buf Hs Hl Hf; cbn [map cut fold_outcome] in *; [by rewrite app_nil_r|].
  apply Forall_cons in Hs as [Hk Hs]. rewrite sum_by_cons in Hl. unfold id at 1 in Hl.
  assert (0 <= sum_by id (map size chunks)) by (by apply sum_by_nonneg).
  replace (ds ++ take (Z.to_nat (size k)) buf :: cut (map size chunks) (drop (Z.to_nat (size k)) buf)) with
    ((ds ++ [take (Z.to_nat (size k)) buf]) ++ cut (map size chunks) (drop (Z.to_nat (size k)) buf)) in * by (by rewrite <- app_assoc).
  rewrite <- (take_drop (Z.to_nat (size k)) buf) at 1. rewrite process_chunk_step.
  - rewrite IH; [|done|rewrite len_drop by lia; lia|done]. rewrite drop_drop, sum_by_cons. do 3 f_equal. unfold id at 2. lia.
  - rewrite parts_of_app in Hf. by eapply builder_fits_prefix.
  - rewrite len_take by lia. lia.
Qed.

Lemma read_blocks_spec c all raw fuel : forall pos rest chunker ds buf todo,
  chunker_ok c -> s_chunker chunker = c -> streaming_ok chunker -> len rest < Z.of_nat fuel ->
  len (s_buffer chunker) = len buf -> s_total_offset chunker = len (concat ds) -> len raw < 2 ^ 64 ->
  raw = concat ds ++ buf ++ rest -> all = ds ++ cut (map size todo) (buf ++ rest) ->
  chunking c (s_total_offset chunker) (s_buffer chunker ++ rest) todo -> builder_fits (parts_of scheme all) ->
  exists chunker' ds' buf' todo', read_blocks indexes fuel pos rest chunker (conv_of indexes scheme ds buf) = Some (Ok (chunker', conv_of indexes scheme ds' buf')) /\
    s_chunker chunker' = c /\ streaming_ok chunker' /\ len (s_buffer chunker') = len buf' /\ s_total_offset chunker' = len (concat ds') /\
    raw = concat ds' ++ buf' /\ all = ds' ++ cut (map size todo') buf' /\ chunking c (s_total_offset chunker') (s_buffer chunker') todo'.
Proof.
  induction fuel as [|fuel IH]; intros pos rest chunker ds buf todo Hok Hc Hst Hfuel Hlb Hto Hraw Eraw Eall Hch Hfit;
    [pose proof (len_nonneg rest); lia|]. cbn [read_blocks].
  set (available := Z.min CONVERSION_BLOCK_SIZE (len rest)). pose proof (len_nonneg rest) as Hr0.
  destruct (Z.eqb_spec available 0) as [Ha|Ha]; cbn [Z.eqb].
  { assert (rest = []) as -> by (apply len_0_inv; subst available; unfold CONVERSION_BLOCK_SIZE in Ha; lia).
    rewrite app_nil_r in *. exists chunker, ds, buf, todo. done. }
  pose proof (os_read_range pos available ltac:(subst available; unfold CONVERSION_BLOCK_SIZE in *; lia)) as Hn.
  set (n := os_read pos available) in *. destruct (Z.eqb_spec n 0); [lia|].
  set (block := take (Z.to_nat n) rest). set (rest' := drop (Z.to_nat n) rest).
  assert (rest = block ++ rest') as Erest by (symmetry; apply take_drop).
  assert (len block = n) as Hblk by (subst block; rewrite len_take by lia; lia).
  assert (len raw = len (concat ds) + len buf + len block + len rest') as Hlraw by (rewrite Eraw, Erest, !len_app; lia).
  pose proof (len_nonneg rest'). change (extend_buf (conv_of indexes scheme ds buf) block) with (conv_of indexes scheme ds (buf ++ block)).
  destruct (next_block_spec chunker block Hst) as (chunker' & out & -> & Hst' & Hc' & Hsum & Hk); [rewrite len_app; lia|].
  destruct (chunking_exists c (s_total_offset chunker') (s_buffer chunker' ++ rest') Hok) as [todo' Htodo'].
  rewrite Hc in Hc'. rewrite Hc in Hk. pose proof (Hk rest' todo' Htodo') as Hch'. rewrite Erest in Hch.
  assert (todo = out ++ todo') as -> by (eapply chunking_det; [exact Hch|exact Hch']).
  destruct (chunking_sum _ _ _ _ Hok Hch) as [Hf1 Hs1], (chunking_sum _ _ _ _ Hok Htodo') as [Hf2 Hs2].
  rewrite map_app in Hf1, Hs1, Eall. apply Forall_app in Hf1 as [Hf1 _]. rewrite sum_by_app, !len_app in Hs1. rewrite len_app in Hs2.
  pose proof (len_nonneg (s_buffer chunker')).
  assert (sum_by id (map size out) <= len (buf ++ block)) as Hle by (rewrite len_app; lia).
  assert (0 <= sum_by id (map size out)) by (by apply sum_by_nonneg).
  destruct (cut_sizes (map size out) (buf ++ block) Hf1 Hle) as [_ Hcat].
  assert (cut (map size out ++ map size todo') (buf ++ rest) =
    cut (map size out) (buf ++ block) ++ cut (map size todo') (drop (Z.to_nat (sum_by id (map size out))) (buf ++ block) ++ rest')) as Ecut.
  { rewrite Erest, app_assoc, cut_app by done. rewrite cut_prefix by done. f_equal. f_equal. rewrite drop_app_le; [done|]. unfold len in *. lia. }
  rewrite Ecut in Eall.
  rewrite process_chunks; [|done|done|].
  2: { rewrite Eall, app_assoc, parts_of_app in Hfit. by eapply builder_fits_prefix. }
  apply (IH _ _ _ _ _ todo'); [done|done|done|unfold rest'; rewrite len_drop by lia; lia| | |done| | |done|done].
  - rewrite len_drop by lia. rewrite len_app. lia.
  - rewrite concat_app, len_app, Hcat, len_take by lia. rewrite len_app in Hle. lia.
  - rewrite concat_app, Hcat, Eraw, <- app_assoc. f_equal. rewrite Erest, (app_assoc (take _ _)), take_drop. by rewrite app_assoc.
  - by rewrite <- app_assoc.
Qed.

Lemma chunk_blob_spec raw ds :
  blob_pieces raw ds -> len raw < 2 ^ 64 -> builder_fits (parts_of scheme ds) ->
  chunk_blob indexes scheme raw = Ok (conv_of indexes scheme ds []) /\ concat ds = raw.
Proof.
  intros (c & chunks & Hc & Hd & ->) Hl Hf. destruct (default_chunker_ok c Hc) as (Hok & _ & Hmax).
  destruct (chunk_data_spec c raw Hok) as (chunks' & Hd' & Hch). rewrite Hd in Hd'. injection Hd' as <-.
  unfold chunk_blob, streaming_chunker_new. rewrite Hc.
  destruct (read_blocks_spec c (cut (map size chunks) raw) raw (S (length raw)) 0 raw (mkStreamingChunker c [] 0) [] [] chunks)
    as (chunker' & ds' & buf' & todo' & Hread & Hc' & Hst' & Hlb & Hto & Eraw & Eall & Hch'); try done.
  { split; [done|]. split; [done|]. cbn. rewrite Hmax. change (len []) with 0. lia. }
  { unfold len. lia. }
  change (conv_new scheme) with (conv_of indexes scheme [] []). rewrite Hread. cbn [from_option]. unfold id at 1.
  destruct (finalize_spec chunker' Hst') as (fin & -> & Hfin).
  { rewrite Hto, Hlb. rewrite Eraw, len_app in Hl. done. }
  rewrite Hc' in Hfin. pose proof (chunking_det _ _ _ _ _ Hfin Hch') as ->.
  destruct (chunking_sum _ _ _ _ Hok Hch') as [Hs1 Hs2]. rewrite Hlb in Hs2.
  rewrite process_chunks; [|done|lia|by rewrite <- Eall]. rewrite <- Eall. split.
  - do 2 f_equal. rewrite Hs2. apply drop_ge. unfold len. lia.
  - rewrite Eall, concat_app. destruct (cut_sizes (map size todo') buf' Hs1 ltac:(lia)) as [_ ->]. rewrite Hs2. unfold len. rewrite Nat2Z.id.
    by rewrite firstn_all.
Qed.
End StateLemmas.
