(* ===== verification/Converted.v ===== *)
(** * What a conversion produces (src/conversion/mod.rs)

    The pipeline of [Conversion] against the readers: the xorb and the shard
    it stores rebuild exactly the blob it read. *)
From S2P Require Import Prelude Bytes Crates MerkleHash Hash Cdc Compression Xorb XorbBuilder Shard ShardBuilder ReconPlan.
From S2P Require Import Text Storage Index ShardIo ObjectStore ShardValidation Rebuild Reconstruction Quota Scheduler Operations Conversion.

Local Open Scope string_scope.
Local Open Scope list_scope.
Local Open Scope Z_scope.

(** The largest blob the default configuration converts, 512 MiB. *)
Definition DEFAULT_MAX_CONVERSION_SIZE : Z := 512 * 1024 * 1024.

(** ** Lemmas: the pieces of a blob fit a xorb *)
Section Pieces.
Context `{Blake3Laws, HexLaws, Sha2Laws, Lz4Laws, GearLaws, FileReadsLaws}.

Lemma blob_pieces_exist raw : exists ds, blob_pieces raw ds.
Proof.
  destruct (chunker_new config_new) as [c| |] eqn:Hc; [|by (unfold chunker_new in Hc; destruct (is_power_of_two _) eqn:E in Hc)|].
  - destruct (default_chunker_ok c Hc) as (Hok & _ & _). destruct (chunk_data_spec c raw Hok) as (chunks & Hd & _).
    exists (cut (map size chunks) raw), c, chunks. done.
  - unfold chunker_new in Hc. by destruct (is_power_of_two (target_chunk_size config_new)) eqn:E.
Qed.

Lemma blob_pieces_det raw ds ds' : blob_pieces raw ds -> blob_pieces raw ds' -> ds = ds'.
Proof. intros (c & ch & Hc & Hd & ->) (c' & ch' & Hc' & Hd' & ->). rewrite Hc in Hc'. injection Hc' as <-. congruence. Qed.

Lemma tiles_count c chunks : 0 <= c_min c -> forall base total,
  tiles c base total chunks -> c_min c * (len chunks - 1) <= total /\ Forall (fun k => 0 <= size k <= c_max c) chunks.
Proof.
  intros Hmin. induction chunks as [|k chunks IH]; intros base total Ht; cbn [tiles] in Ht.
  - subst. rewrite len_nil. split; [lia|constructor].
  - destruct Ht as (_ & Hk & Hle & Hlast & Ht). destruct (IH _ _ Ht) as [Hc Hf]. rewrite len_cons. split; [|constructor; [lia|done]].
    destruct chunks as [|k' chunks]; [change (len []) with 0; lia|]. specialize (Hlast ltac:(done)). lia.
Qed.

Lemma cut_length sizes data : length (cut sizes data) = length sizes.
Proof. revert data. induction sizes as [|n sizes IH]; intros data; [done|]. cbn. by rewrite IH. Qed.

Lemma blob_pieces_shape raw ds :
  blob_pieces raw ds -> concat ds = raw /\ Forall (fun d => len d <= 131072) ds /\ 8192 * (len ds - 1) <= len raw.
Proof.
  intros (c & chunks & Hc & Hd & ->). destruct (default_chunker_ok c Hc) as (Hok & Hmin & Hmax).
  destruct (chunk_data_spec c raw Hok) as (chunks' & Hd' & Hch). rewrite Hd in Hd'. injection Hd' as <-.
  destruct (chunking_sum _ _ _ _ Hok Hch) as [Hs Hsum]. apply chunking_tiles in Hch; [|done].
  destruct (tiles_count c chunks ltac:(lia) _ _ Hch) as [Hcount Hsizes].
  destruct (cut_sizes (map size chunks) raw Hs ltac:(lia)) as [Hlens Hcat]. split; [|split].
  - rewrite Hcat, Hsum. unfold len. rewrite Nat2Z.id. apply firstn_all.
  - apply Forall_map with (f := len) (P := fun n => n <= 131072). rewrite Hlens. apply Forall_map.
    eapply Forall_impl; [exact Hsizes|]. intros k Hk. cbv beta in *. lia.
  - unfold len at 1. rewrite cut_length, length_map. change (Z.of_nat (length chunks)) with (len chunks). lia.
Qed.

Lemma payload_bound scheme ds : len (payload (parts_of scheme ds)) <= 2 * len (concat ds) + 28 * len ds.
Proof.
  induction ds as [|d ds IH]; cbn [parts_of map concat]; [unfold len; cbn [payload map concat length]; lia|]. rewrite payload_cons, !len_app, len_chunk_bytes, len_cons.
  cbn [part_of snd]. pose proof (compressed_bound scheme d) as Hb. pose proof (len_nonneg d).
  assert (len d / 255 <= len d) by (apply Z.div_le_upper_bound; lia).
  assert (max_compressed_len_for_chunk scheme (len d) <= 2 * len d + 20) by (destruct scheme; cbn [max_compressed_len_for_chunk]; lia).
  unfold parts_of in IH. lia.
Qed.

Lemma pieces_fit scheme raw ds :
  blob_pieces raw ds -> len raw <= DEFAULT_MAX_CONVERSION_SIZE -> chunks_fit scheme ds.
Proof.
  intros Hp Hl. destruct (blob_pieces_shape raw ds Hp) as (Hc & Hs & Hn). unfold DEFAULT_MAX_CONVERSION_SIZE in Hl.
  split; [exact Hs|]. split; [unfold MAX_CHUNKS_PER_XORB; lia|]. pose proof (payload_bound scheme ds). rewrite Hc in *. lia.
Qed.
End Pieces.

(** ** Lemmas: the shard of a blob *)
Section ShardOfBlob.
Context `{Blake3Laws, HexLaws, Sha2Laws, Lz4Laws, GearLaws, FileReadsLaws}.
Context (scheme : CompressionScheme) (ds : list (list byte)) (h : MerkleHash).
Context (Hfit : chunks_fit scheme ds) (Hh : hash_wf h).
Abbreviation ps := (parts_of scheme ds).
Abbreviation xh := (xorb_hash (part_nodes ps)).

Definition blob_xorb : XorbBuildResult :=
  mkBuildResult (xorb_bytes ps) xh (map part_hash ps) (XorbBuilder.sum_u64 (map (fun p => uncompressed_length (fst p)) ps))
    (XorbBuilder.sum_u64 (map (fun p => compressed_length (fst p)) ps)).

Lemma build_blob r : XorbBuilder.build (builder_of scheme ps) = Ok r -> r = blob_xorb.
Proof. rewrite build_parts. destruct (verify_xorb _) as [[]| |]; [|done..]. by intros [= <-]. Qed.

Lemma build_blob_not_panic : XorbBuilder.build (builder_of scheme ps) <> Panic.
Proof. rewrite build_parts. pose proof (verify_layout_not_panic ps). by destruct (verify_xorb _). Qed.

Definition blob_shard_builder : ShardBuilder.ShardBuilder :=
  mkShardBuilder [mkFileBuild h [mkSegment xh 0 0 (len ds) (len (concat ds))]]
    [mkXorbBuild xh (as_u32 (total_uncompressed_size blob_xorb)) (as_u32 (total_compressed_size blob_xorb)) (entries_from scheme 0 ds)]
    (imap (fun i raw_hash => mkLookup raw_hash xh (as_u32 (Z.of_nat i))) (map compute_data_hash ds)).

Lemma count_small : len ds < 2 ^ 32.
Proof. destruct Hfit as (_ & Hn & _). unfold MAX_CHUNKS_PER_XORB in Hn. lia. Qed.

Lemma build_shard_blob index : 
  build_shard h blob_xorb (conv_of index scheme ds []) = map_err (fun _ => CvBuild "Shard build failed") (ShardBuilder.build blob_shard_builder).
Proof.
  unfold build_shard, add_xorb_with_raw_chunk_hashes. cbn [conv_of cv_chunk_entries cv_raw_chunk_hashes cv_num_chunks cv_cumulative_uncompressed].
  assert ((len (entries_from scheme 0 ds) =? len (map compute_data_hash ds)) = true) as ->
    by (unfold len; rewrite entries_from_length, length_map; lia).
  cbn [add_xorb_unchecked map_err]. rewrite (as_u32_small (len ds)) by (pose proof count_small; pose proof (len_nonneg ds); lia). reflexivity.
Qed.

Lemma part_hash_wf p : hash_wf (part_hash p).
Proof. apply from_bytes_wf. Qed.

Lemma blob_xorb_hash_wf : hash_wf xh.
Proof. apply xorb_hash_wf, Forall_map, Forall_true. intros p. apply part_hash_wf. Qed.

Lemma entries_wf l start :
  0 <= start -> start + len (payload (parts_of scheme l)) < 2 ^ 32 -> len (concat l) < 2 ^ 32 ->
  Forall chunk_build_wf (entries_from scheme start l).
Proof.
  revert start. induction l as [|d l IH]; intros start Hs Hl Hc; cbn [entries_from]; [constructor|].
  cbn [parts_of map concat] in Hl, Hc. rewrite payload_cons in Hl. rewrite !len_app in *.
  pose proof (len_nonneg (payload (parts_of scheme l))). pose proof (len_nonneg d). pose proof (len_nonneg (concat l)).
  pose proof (len_nonneg (chunk_bytes (part_of scheme d))). unfold parts_of in *. constructor; [|apply IH; lia].
  split; [apply part_hash_wf|]. unfold in_u32. cbn. lia.
Qed.

Lemma blob_builder_built : built blob_shard_builder.
Proof.
  destruct Hfit as (Hsz & Hn & Hp & Hc). pose proof count_small.
  eapply (built_file (mkShardBuilder [] (sb_xorbs blob_shard_builder) (sb_chunk_lookup_entries blob_shard_builder)) h
    [mkSegment xh 0 0 (len ds) (len (concat ds))]).
  - eapply (built_xorb shard_builder_new xh (as_u32 (total_uncompressed_size blob_xorb)) (as_u32 (total_compressed_size blob_xorb))
      (entries_from scheme 0 ds) (map compute_data_hash ds)); [constructor|apply blob_xorb_hash_wf|apply as_u32_range..| | |].
    + apply entries_wf; lia.
    + apply Forall_map, Forall_true. intros d. apply from_bytes_wf.
    + unfold add_xorb_with_raw_chunk_hashes.
      assert ((len (entries_from scheme 0 ds) =? len (map compute_data_hash ds)) = true) as ->
        by (unfold len; rewrite entries_from_length, length_map; lia). reflexivity.
  - done.
  - constructor; [|constructor]. split; [apply blob_xorb_hash_wf|]. unfold in_u32. cbn.
    pose proof (len_nonneg ds). pose proof (len_nonneg (concat ds)). lia.
Qed.

Lemma blob_counts_fit : counts_fit blob_shard_builder.
Proof.
  pose proof count_small. assert (len (entries_from scheme 0 ds) = len ds) as He by (unfold len; by rewrite entries_from_length).
  split; [|split].
  - constructor; [|constructor]. cbn [fb_segments]. unfold len. cbn [length]. lia.
  - constructor; [|constructor]. cbn [xbe_chunks]. lia.
  - assert (len (sb_chunk_lookup_entries blob_shard_builder) = len ds) as Hi
      by (cbn [blob_shard_builder sb_chunk_lookup_entries]; unfold len; by rewrite length_imap, length_map).
    unfold ShardBuilder.total_size. rewrite Hi. cbn [blob_shard_builder sb_files sb_xorbs map fb_segments xbe_chunks sum_z foldr].
    rewrite He. change (len [mkSegment xh 0 0 (len ds) (len (concat ds))]) with 1.
    unfold HEADER_SIZE, FILE_HEADER_SIZE, FILE_ENTRY_SIZE, XORB_HEADER_SIZE, XORB_ENTRY_SIZE, BUILD_LOOKUP_ENTRY_SIZE, FOOTER_SIZE. lia.
Qed.

(** The shard and what a parse of it gives. *)
Definition blob_shard (buf : list byte) : MDBShardFile :=
  mkShardFile shard_header_default (footer_of blob_shard_builder)
    [file_header_of (mkFileBuild h [mkSegment xh 0 0 (len ds) (len (concat ds))])]
    [file_entry_of (mkSegment xh 0 0 (len ds) (len (concat ds)))]
    (map xorb_header_of (sb_xorbs blob_shard_builder)) (map xorb_entry_of (entries_from scheme 0 ds))
    (sb_chunk_lookup_entries blob_shard_builder) [h]
    (map (fun e => (cl_chunk_hash e, cl_xorb_hash e, cl_chunk_index e)) (sb_chunk_lookup_entries blob_shard_builder))
    (to_hex (compute_data_hash buf)).

Lemma build_shard_spec index :
  exists buf, build_shard h blob_xorb (conv_of index scheme ds []) = Ok buf /\ len buf < 2 ^ 64 /\ parse buf = Ok (blob_shard buf).
Proof.
  rewrite build_shard_blob. destruct (build_spec blob_shard_builder) as (buf & -> & Hl & Hp).
  - apply built_inv, blob_builder_built.
  - apply blob_counts_fit.
  - exists buf. split; [done|]. split; [rewrite Hl; apply blob_counts_fit|]. rewrite Hp. unfold blob_shard. do 2 f_equal.
    cbn [blob_shard_builder sb_xorbs map concat xbe_chunks]. by rewrite app_nil_r.
Qed.
End ShardOfBlob.

(** ** Lemmas: rebuilding the blob *)
Section RebuildBlob.
Context `{Blake3Laws, HexLaws, Sha2Laws, Lz4Laws, GearLaws, FileReadsLaws}.
Context (scheme : CompressionScheme) (ds : list (list byte)) (h : MerkleHash).
Context (Hfit : chunks_fit scheme ds) (Hh : hash_wf h).
Abbreviation ps := (parts_of scheme ds).
Abbreviation xh := (xorb_hash (part_nodes ps)).

Definition blob_chunks : list PlannedChunk :=
  imap (fun i d => mkPlannedChunk xh (Z.of_nat i) (chunk_start scheme ds i) (len d) (part_hash (part_of scheme d)) (compute_data_hash d)) ds.

Lemma sum_by_imap {A B} (f : nat -> A -> B) (g : B -> Z) (k : A -> Z) l :
  (forall i a, g (f i a) = k a) -> sum_by g (imap f l) = sum_by k l.
Proof.
  revert f. induction l as [|a l IH]; intros f Hfg; [done|]. rewrite imap_cons, !sum_by_cons, Hfg. f_equal. apply IH. intros i. apply Hfg.
Qed.

Lemma len_concat (l : list (list byte)) : len (concat l) = sum_by len l.
Proof. induction l as [|d l IH]; [done|]. cbn [concat]. by rewrite len_app, sum_by_cons, IH. Qed.

Lemma lookups_lookup i e :
  sb_chunk_lookup_entries (blob_shard_builder scheme ds h) !! i = Some e <->
  exists d, ds !! i = Some d /\ e = mkLookup (compute_data_hash d) xh (Z.of_nat i).
Proof.
  cbn [blob_shard_builder sb_chunk_lookup_entries]. rewrite list_lookup_imap, list_lookup_fmap. destruct (ds !! i) as [d|] eqn:E; cbn.
  - apply lookup_lt_Some in E. pose proof (count_small scheme ds Hfit) as Hn. unfold len in Hn. rewrite as_u32_small by lia. split.
    + intros [= <-]. eauto.
    + by intros (d' & [= <-] & ->).
  - split; [done|]. by intros (d' & ? & _).
Qed.

Lemma lookup_keys_NoDup : NoDup (map lookup_key (sb_chunk_lookup_entries (blob_shard_builder scheme ds h))).
Proof.
  apply NoDup_alt. intros i j k. rewrite !list_lookup_fmap. intros Hi Hj.
  destruct (_ !! i) as [e|] eqn:Ei in Hi; [|done]. destruct (_ !! j) as [e'|] eqn:Ej in Hj; [|done].
  apply lookups_lookup in Ei as (d & _ & ->), Ej as (d' & _ & ->). injection Hi as <-. injection Hj as Hj. lia.
Qed.

Lemma blob_plan buf :
  len buf < 2 ^ 64 -> parse buf = Ok (blob_shard scheme ds h buf) ->
  exists plan, build_file_chunk_plan (blob_shard scheme ds h buf) h (Some 0%nat) = Ok plan /\ pf_chunks plan = blob_chunks.
Proof.
  intros Hl Hp. pose proof (parse_wf _ _ Hl Hp) as W. destruct Hfit as (_ & Hn & _ & Hc). pose proof (len_nonneg ds).
  set (fgs := map file_group (sb_files (blob_shard_builder scheme ds h)) : file_groups).
  set (xgs := map xorb_group (sb_xorbs (blob_shard_builder scheme ds h)) : xorb_groups).
  assert (len (entries_from scheme 0 ds) = len ds) as He by (unfold len; by rewrite entries_from_length).
  assert (shard_groups (blob_shard scheme ds h buf) fgs xgs) as Hg.
  { unfold shard_groups, fgs, xgs. cbn. rewrite app_nil_r. do 2 (split; [done|]). split; [constructor; [done|constructor]|].
    do 2 (split; [done|]). constructor; [|constructor]. cbn. rewrite len_map. apply as_u32_small. rewrite He.
    unfold MAX_CHUNKS_PER_XORB in Hn. lia. }
  exists (mkPlannedFile h 0 blob_chunks (len (concat ds))). split; [|done].
  apply (plan_iff _ _ _ _ h (Some 0%nat) W Hl Hg). unfold plan_spec. cbn [pf_file_index].
  split; [apply NoDup_singleton|]. split; [apply lookup_keys_NoDup|]. split; [split; [by eexists|done]|].
  exists (file_header_of (mkFileBuild h [mkSegment xh 0 0 (len ds) (len (concat ds))])),
    [file_entry_of (mkSegment xh 0 0 (len ds) (len (concat ds)))], [blob_chunks].
  split; [done|]. split; [|split; [cbn; unfold u64_max; lia|cbn; by rewrite app_nil_r, Z.add_0_r]]. constructor; [|constructor].
  split; [done|]. cbn [file_entry_of fe_chunk_index_start fe_chunk_index_end fe_xorb_hash fe_unpacked_segment_bytes
    seg_chunk_index_start seg_chunk_index_end seg_xorb_hash seg_unpacked_segment_bytes]. split.
  { eexists _, _. split; [apply list_elem_of_singleton; reflexivity|]. split; [done|]. cbn. rewrite len_map. lia. }
  split; [|rewrite len_concat; by apply sum_by_imap].
  apply Forall2_same_length_lookup_2; [unfold blob_chunks; rewrite length_seqZ, length_imap; unfold len; lia|].
  intros i z c Hz Hch. apply lookup_seqZ in Hz as [-> _]. rewrite Z.add_0_l. unfold blob_chunks in Hch. rewrite list_lookup_imap in Hch.
  destruct (ds !! i) as [d|] eqn:Ed; [|done]. injection Hch as <-.
  eexists _, _, _, _. split; [apply list_elem_of_singleton; reflexivity|]. split; [done|]. rewrite Nat2Z.id. split; [|split].
  - cbn. rewrite list_lookup_fmap, (entries_from_lookup scheme 0 ds i d Ed). reflexivity.
  - apply list_elem_of_lookup. exists i. apply lookups_lookup. eauto.
  - reflexivity.
Qed.

(** A planned chunk whose place in the stored xorb holds [d]. *)
Definition chunk_held (c : PlannedChunk) (d : list byte) : Prop :=
  pc_xorb_hash c = xh /\ pc_raw_chunk_hash c = compute_data_hash d /\
  extract_chunk_verified_from_file (xorb_bytes ps) (pc_chunk_byte_range_start c) (pc_unpacked_segment_bytes c) (pc_serialized_chunk_hash c) = Ok d.

Lemma blob_chunks_held : Forall2 chunk_held blob_chunks ds.
Proof.
  apply Forall2_same_length_lookup_2; [unfold blob_chunks; by rewrite length_imap|]. intros i c d Hc Hd.
  unfold blob_chunks in Hc. rewrite list_lookup_imap, Hd in Hc. injection Hc as <-. split; [done|]. split; [done|]. cbn.
  destruct (chunk_at scheme ds i d (info_serialize (parts_footer ps)) Hd) as [rest Hrest].
  destruct Hfit as (Hs & _). apply (extract_at _ _ d _ (len_nonneg _) scheme rest); [|done|done].
  rewrite Forall_lookup in Hs. by apply (Hs i).
Qed.

Section View.
Context (view : StorageView) (Hx : serves view (xorb_key xh) (xorb_bytes ps)).

Lemma held_chunks cs raws : Forall2 chunk_held cs raws -> forall st,
  (rs_xorb_cache st = ∅ \/ rs_xorb_cache st = {[ xh := xorb_bytes ps ]}) ->
  exists cache, fold_outcome (reconstruct_chunk view) st cs = Ok (rec_after st cache raws).
Proof.
  induction 1 as [|c d cs raws (Exh & Eraw & Ex) _ IH]; intros st Hcache.
  - exists (rs_xorb_cache st). unfold rec_after. destruct st. cbn. by rewrite !app_nil_r.
  - assert (reconstruct_chunk view st c = Ok (rec_after st {[ xh := xorb_bytes ps ]} [d])) as E.
    { unfold reconstruct_chunk, cached_xorb_guard. rewrite Exh.
      assert (forall cache, append_chunk st cache (xorb_bytes ps) c = Ok (rec_after st cache [d])) as Happ.
      { intros cache. unfold append_chunk. rewrite Ex. cbn [map_err]. rewrite bool_decide_true by done. unfold rec_after. cbn. by rewrite app_nil_r. }
      destruct Hcache as [-> | ->].
      - rewrite lookup_empty. unfold xorb_key in Hx. rewrite (serves_download _ _ _ Hx). cbn [map_err]. rewrite lookup_insert_eq. cbn [ok_or].
        rewrite Happ, insert_empty. done.
      - rewrite !lookup_singleton_eq. cbn [ok_or]. by rewrite Happ. }
    cbn [fold_outcome]. rewrite E. destruct (IH (rec_after st {[ xh := xorb_bytes ps ]} [d])) as [cache ->]; [by right|].
    exists cache. by rewrite rec_after_app.
Qed.

Lemma rebuild_blob buf :
  len buf < 2 ^ 64 -> parse buf = Ok (blob_shard scheme ds h buf) ->
  serves view ("shards/" +:+ to_hex (compute_data_hash buf)) buf -> whole_file_hash h ds ->
  reconstruct_single_file_ref_to_temp (to_hex h) h (mkRef (to_hex (compute_data_hash buf)) 0 (len (concat ds))) view =
  Ok (mkReconstruction (concat ds) (len (concat ds))).
Proof.
  intros Hl Hp Hs Hw. unfold reconstruct_single_file_ref_to_temp, fetch_shard. cbn [fr_shard_id fr_file_index].
  rewrite (serves_parse _ _ _ _ Hs Hp). destruct (blob_plan buf Hl Hp) as (plan & -> & Hplan). cbn [map_err]. rewrite Hplan.
  destruct (held_chunks _ _ blob_chunks_held (mkRecState _ _ ∅ [] sha256_new streaming_new [] 0)) as [cache ->]; [by left|].
  cbn [rec_after rs_sha rs_blake3 rs_chunk_nodes rs_output rs_total_size app]. destruct Hfit as (_ & _ & _ & Hc).
  rewrite sha256_streaming, streaming_fold, total_size_fold by (unfold u64_max; lia). rewrite Z.add_0_l.
  rewrite (proj2 (three_checks _ _ _ _)); [done|]. by apply hash_check_iff.
Qed.
End View.
End RebuildBlob.

(** ** Lemmas: the pipeline *)

(** Objects that are stored under a key made of their own hash. *)
Definition addressed `{Blake3, HexCrate} (key : string) (data : list byte) : Prop :=
  (exists ps, key = xorb_key (xorb_hash (part_nodes ps)) /\ data = xorb_bytes ps) \/
  key = "shards/" +:+ to_hex (compute_data_hash data).

(** A blob's key. *)
Definition blob_key (oid : string) : string := "lfs/objects/" +:+ oid.

(** The stored objects but the blob are what they were, or were added under their hash. *)
Definition only_adds `{Blake3, HexCrate} (key : string) (before after : string -> option (list byte)) : Prop :=
  forall key', server_key key' -> key' <> key ->
    after key' = before key' \/ exists data, after key' = Some data /\ addressed key' data.

Lemma commit_written_not_panic ledger r n : snd (commit_written ledger r n) <> Panic.
Proof.
  unfold commit_written, commit. destruct (_ <? _); [done|]. destruct (n =? 0); [destruct (checked_add _ _); done|].
  destruct (checked_add _ _); [|done]. by destruct (checked_add _ _).
Qed.

Lemma manager_reserve_not_panic available ledger n : snd (manager_reserve available ledger n) <> Panic.
Proof.
  destruct (manager_reserve available ledger n) as [l r] eqn:E. intros Hr. cbn in Hr. subst r.
  unfold manager_reserve, ledger_reserve, reserve_check, ok_or in E. by repeat case_match; simplify_eq.
Qed.

Lemma check_size_not_panic c n : check_size c n <> Panic.
Proof. unfold check_size. by repeat case_match. Qed.

Section PipelineLemmas.
Context `{Blake3Laws, HexLaws, Sha2Laws, Lz4Laws, GearLaws, FileReadsLaws, StoreLaws}.
Context (oid : string) (Hdigits : all_hexdigits oid = true) (Hnonempty : oid <> "").
Abbreviation key := (blob_key oid).

Definition advances (s s' : store) : Prop :=
  store_ok s' /\ contents s' key = contents s key /\ only_adds key (contents s) (contents s').

Lemma advances_refl s : store_ok s -> advances s s.
Proof. split; [done|]. split; [done|]. by left. Qed.

Lemma advances_trans s1 s2 s3 : advances s1 s2 -> advances s2 s3 -> advances s1 s3.
Proof.
  intros (_ & E1 & A1) (O & E2 & A2). split; [done|]. split; [congruence|]. intros key' Hk Hne.
  destruct (A2 key' Hk Hne) as [-> |]; [by apply A1|by right].
Qed.

Lemma blob_key_server : server_key key.
Proof. exists "lfs/objects/", oid. unfold object_dirs. split; [set_solver|done]. Qed.

Lemma dir_in n dir : object_dirs !! n = Some dir -> dir ∈ object_dirs.
Proof. apply list_elem_of_lookup_2. Qed.

Lemma xorb_key_server h : server_key (xorb_key h) /\ xorb_key h <> key.
Proof. split; [by apply hex_key, (dir_in 0)|]. apply dir_keys_differ; [by apply (dir_in 0)|by apply (dir_in 2)|done]. Qed.

Lemma shard_key_server h : server_key ("shards/" +:+ to_hex h) /\ "shards/" +:+ to_hex h <> key.
Proof. split; [by apply hex_key, (dir_in 1)|]. apply dir_keys_differ; [by apply (dir_in 1)|by apply (dir_in 2)|done]. Qed.

Lemma xorb_shard_keys h h' : xorb_key h <> "shards/" +:+ to_hex h'.
Proof. apply dir_keys_differ; [by apply (dir_in 0)|by apply (dir_in 1)|done]. Qed.

(** Storing an object under its hash. *)
Lemma put_advances s key' data :
  store_ok s -> server_key key' -> key' <> key -> len data < 2 ^ 64 -> addressed key' data ->
  advances s (fst (st_put s key' data)) /\ snd (st_put s key' data) <> Panic /\
  (snd (st_put s key' data) = Ok tt -> contents (fst (st_put s key' data)) key' = Some data) /\
  forall key'', server_key key'' -> key'' <> key' -> contents (fst (st_put s key' data)) key'' = contents s key''.
Proof.
  intros Hs Hk Hne Hl Ha. destruct (put_writes s key' data Hs Hk Hl) as (Ho & Hnp & Hok & Hkeep & Hother).
  split; [|done]. split; [done|]. split; [apply Hother; [apply blob_key_server|done]|].
  intros key'' Hk'' _. destruct (decide (key'' = key')) as [-> |Hd]; [|left; by apply Hother].
  destruct Hkeep as [->|E]; [by left|right; eauto].
Qed.

Lemma alone_attempt {A R} (o : outcome ConversionError A) (k : A -> program (outcome ConversionError R)) w :
  alone (attempt o k) w = match o with Ok a => alone (k a) w | Err e => (w, Err e) | Panic => (w, Panic) end.
Proof. by destruct o. Qed.

(** What a conversion that fails leaves behind. *)
Definition gave_up (w w' : world) : Prop := advances (w_store w) (w_store w') /\ w_index w' = w_index w.
Definition outcome_of (post : world -> ConversionResult -> Prop) (w : world) (result : world * outcome ConversionError ConversionResult) : Prop :=
  match snd result with
  | Ok r => post (fst result) r
  | Err _ => gave_up w (fst result)
  | Panic => False
  end.

Lemma check_remote_alone c k w post :
  store_ok (w_store w) -> outcome_of post w (alone (k tt) w) -> outcome_of post w (alone (check_remote_size c key k) w).
Proof.
  intros Hs Hk. pose proof (advances_refl _ Hs) as Hrefl. unfold check_remote_size. cbn [alone].
  assert (outcome_of post w (alone (Size key (fun answer => attempt (storage_err "Failed to stat blob" answer)
    (fun remote_size => attempt (check_size c remote_size) k))) w)) as Hsize.
  { cbn [alone]. rewrite alone_attempt. pose proof (size_total (w_store w) key Hs).
    destruct (st_get_size (w_store w) key) as [n| |]; cbn [storage_err map_err]; [|by split|done]. rewrite alone_attempt.
    pose proof (check_size_not_panic c n). by destruct (check_size c n) as [[]| |]; [|by split|]. }
  by destruct (get_path (reads (w_store w)) key 1) as [[path|]| |].
Qed.

Lemma open_blob_alone available ledger k w post :
  store_ok (w_store w) ->
  (forall path, match path with Some raw => contents (w_store w) key = Some raw /\ len raw < 2 ^ 64 | None => True end ->
     outcome_of post w (alone (k path) w)) ->
  outcome_of post w (alone (open_blob_for_streaming available ledger key k) w).
Proof.
  intros Hs Hk. pose proof (advances_refl _ Hs) as Hrefl. pose proof (reads_wf _ Hs) as Hv. unfold open_blob_for_streaming. cbn [alone].
  match goal with |- context [Size key ?f] => assert (outcome_of post w (alone (Size key f) w)) as Hremote end.
  { cbn [alone]. rewrite alone_attempt. pose proof (size_total (w_store w) key Hs).
    destruct (st_get_size (w_store w) key) as [n| |]; cbn [storage_err map_err]; [|by split|done].
    pose proof (manager_reserve_not_panic available ledger n) as Hr. destruct (manager_reserve available ledger n) as [l r]. cbn [snd] in Hr.
    rewrite alone_attempt. destruct r as [res|e|]; cbn [map_err]; [|by split|done]. cbn [alone]. rewrite alone_attempt.
    destruct (download_to_path_with_retries (reads (w_store w)) key) as [blob| |] eqn:Ed; cbn [storage_err map_err]; [|by split|].
    2: by apply (with_retries_not_panic _ _ (fun k => proj1 (proj2 (Hv key k)))) in Ed.
    rewrite alone_attempt. destruct (len blob =? n); [|by split]. rewrite alone_attempt.
    pose proof (commit_written_not_panic l res n). destruct (snd (commit_written l res n)) as [a| |]; cbn [map_err]; [|by split|done].
    apply Hk. apply with_retries_Ok in Ed as [n' Ed]. split; [by eapply download_reads; [done|apply blob_key_server|]|].
    by apply (proj2 (proj2 (Hv key n'))). }
  destruct (get_path (reads (w_store w)) key 2) as [[[raw|]|]| |] eqn:Ep; [|by apply Hk|exact Hremote..].
  apply Hk. split; [symmetry; by eapply get_path_reads; [|apply blob_key_server|]|]. by apply (proj2 (proj1 (Hv key 2%nat))).
Qed.

Lemma register_not_panic index reg : snd (register_verified_shard index reg) <> Panic.
Proof.
  unfold register_verified_shard. destruct (fold_outcome _ _ _) eqn:E; [done|done|]. exfalso. revert E.
  apply (fold_outcome_not_panic (fun _ => True)); [|done|done]. intros sizes f _. unfold check_file. by repeat case_match.
Qed.

Lemma register_err index reg index' e : register_verified_shard index reg = (index', Err e) -> index' = index.
Proof. unfold register_verified_shard. destruct (fold_outcome _ _ _); congruence. Qed.

(** One file registered: it has the reference. *)
Lemma register_one_file index index' id f chunks :
  register_verified_shard index (mkRegistration id [f] chunks) = (index', Ok tt) ->
  exists refs, get_file_refs index' (vf_file_hash f) = Some refs /\ mkRef id (vf_file_index f) (vf_file_size f) ∈ refs.
Proof.
  unfold register_verified_shard. destruct (fold_outcome _ _ _); [|done..]. intros [= <-]. unfold get_file_refs. cbn.
  unfold add_file. rewrite lookup_insert_eq. eexists. split; [done|]. apply push_ref_elem. by right.
Qed.

(** A finished conversion: [s] is the store before the blob is deleted. *)
Definition converted (c : ConversionConfig) (w w' : world) (r : ConversionResult) : Prop :=
  exists raw scheme ds h buf s,
    let ps := parts_of scheme ds in let xh := xorb_hash (part_nodes ps) in let shard_hash := to_hex (compute_data_hash buf) in
    contents (w_store w) key = Some raw /\ len raw <= max_conversion_size c /\ blob_pieces raw ds /\
    @config_scheme ConversionError c = Ok scheme /\ from_hex oid = Ok h /\ len buf < 2 ^ 64 /\ parse buf = Ok (blob_shard scheme ds h buf) /\
    advances (w_store w) s /\ contents s ("shards/" +:+ shard_hash) = Some buf /\
    (contents s (xorb_key xh) = Some (xorb_bytes ps) \/
     (contents s (xorb_key xh) = contents (w_store w) (xorb_key xh) /\ is_Some (contents (w_store w) (xorb_key xh)))) /\
    register_verified_shard (w_index w) (mkRegistration shard_hash [mkFileMapping h 0 (len raw)]
      (verified_chunks_of xh (map compute_data_hash ds))) = (w_index w', Ok tt) /\
    w_store w' = (if delete_raw_after_conversion c then fst (st_delete s key) else s) /\
    cr_shard_hash r = shard_hash /\ cr_raw_size r = len raw.

Lemma xorb_bytes_small scheme ds : chunks_fit scheme ds -> len (xorb_bytes (parts_of scheme ds)) < 2 ^ 64.
Proof.
  intros Hf. destruct (chunks_parts_fit scheme ds Hf) as [Hp _]. destruct Hf as (_ & Hn & Hl & _).
  unfold xorb_bytes. rewrite len_app, footer_length by done. unfold parts_of. rewrite len_map. unfold MAX_CHUNKS_PER_XORB in Hn.
  unfold parts_of in Hl. lia.
Qed.

(** Steps 6 to 10, once the xorb is stored. *)
Lemma store_shard_alone c raw scheme ds indexes w w1 :
  contents (w_store w) key = Some raw -> len raw <= max_conversion_size c -> blob_pieces raw ds -> chunks_fit scheme ds ->
  @config_scheme ConversionError c = Ok scheme ->
  advances (w_store w) (w_store w1) -> w_index w1 = w_index w ->
  (let ps := parts_of scheme ds in let xh := xorb_hash (part_nodes ps) in
   contents (w_store w1) (xorb_key xh) = Some (xorb_bytes ps) \/
   (contents (w_store w1) (xorb_key xh) = contents (w_store w) (xorb_key xh) /\ is_Some (contents (w_store w) (xorb_key xh)))) ->
  outcome_of (converted c w) w (alone (store_shard c oid (len raw) (blob_xorb scheme ds) (conv_of indexes scheme ds [])) w1).
Proof.
  intros Hraw Hle Hds Hfit Hscheme Hadv Hix Hx. cbn zeta in Hx. unfold store_shard. rewrite alone_attempt.
  destruct (from_hex_outcome oid) as [Hfp Hfh]. destruct (from_hex oid) as [h| |] eqn:Eh; cbn [map_err]; [|done..].
  destruct (Hfh h eq_refl) as [Hh _]. rewrite alone_attempt.
  destruct (build_shard_spec scheme ds h Hfit Hh indexes) as (buf & -> & Hl & Hparse).
  set (sh := to_hex (compute_data_hash buf)). set (xh := xorb_hash (part_nodes (parts_of scheme ds))) in *.
  destruct (xorb_key_server xh) as [Hxk Hxne]. destruct (shard_key_server (compute_data_hash buf)) as [Hsk Hsne]. cbn [alone].
  destruct (put_advances (w_store w1) ("shards/" +:+ sh) buf (proj1 Hadv) Hsk Hsne Hl) as (Ha & Hnp & Hok & Hother); [by right|].
  destruct (st_put (w_store w1) _ _) as [s2 answer]. cbn [fst snd] in *. pose proof (advances_trans _ _ _ Hadv Ha) as Hadv2.
  rewrite alone_attempt. destruct answer as [[]| |]; cbn [storage_err map_err]; [|by split|done]. specialize (Hok eq_refl).
  cbn [alone w_store w_index conv_of cv_raw_chunk_hashes blob_xorb xb_xorb_hash].
  fold xh. pose proof (register_not_panic (w_index w1) (mkRegistration sh [mkFileMapping h 0 (len raw)] (verified_chunks_of xh (map compute_data_hash ds)))) as Hrp.
  destruct (register_verified_shard _ _) as [index' answer] eqn:Ereg. cbn [snd] in Hrp. rewrite alone_attempt.
  destruct answer as [[]|e|]; cbn [map_err]; [| |done].
  2: { split; [done|]. cbn. apply register_err in Ereg. congruence. }
  assert (forall s' r, s' = (if delete_raw_after_conversion c then fst (st_delete s2 key) else s2) ->
    cr_shard_hash r = sh -> cr_raw_size r = len raw -> converted c w (mkWorld s' index') r) as Hdone.
  { intros s' r -> Hr1 Hr2. exists raw, scheme, ds, h, buf, s2. cbn zeta. do 7 (split; [done|]). split; [done|]. split; [done|].
    split; [|split; [by rewrite <- Hix|done]]. fold xh. rewrite (Hother (xorb_key xh) Hxk (xorb_shard_keys _ _)). done. }
  destruct (delete_raw_after_conversion c) eqn:Edel; cbn [alone w_store w_index]; [|by apply Hdone].
  change ("lfs/objects/" +:+ oid) with key. destruct (st_delete s2 key) as [s3 answer] eqn:Ed.
  by apply Hdone.
Qed.

Lemma store_xorb_alone c raw w :
  store_ok (w_store w) -> contents (w_store w) key = Some raw -> len raw < 2 ^ 64 -> len raw <= max_conversion_size c ->
  max_conversion_size c <= DEFAULT_MAX_CONVERSION_SIZE -> @config_scheme ConversionError c <> Panic ->
  outcome_of (converted c w) w (alone (store_xorb c oid raw) w).
Proof.
  intros Hs Hraw Hraw64 Hle Hmax Hscheme. pose proof (advances_refl _ Hs) as Hrefl. unfold store_xorb. rewrite alone_attempt.
  destruct (config_scheme c) as [scheme|e|] eqn:Esch; [|by split|done].
  destruct (blob_pieces_exist raw) as [ds Hds]. pose proof (pieces_fit scheme raw ds Hds ltac:(lia)) as Hfit.
  destruct (chunks_parts_fit _ _ Hfit) as [_ Hbf]. cbn [alone]. rewrite alone_attempt.
  destruct (chunk_blob_spec (fun _ => w_index w) scheme raw ds Hds Hraw64 Hbf) as [-> _]. rewrite alone_attempt. cbn [conv_of cv_builder].
  pose proof (build_blob_not_panic scheme ds). destruct (XorbBuilder.build _) as [xr| |] eqn:Eb; cbn [map_err]; [|by split|done].
  apply build_blob in Eb as ->. cbn [blob_xorb xb_xorb_hash xb_data]. fold (blob_xorb scheme ds).
  fold (conv_of (fun _ => w_index w) scheme ds []).
  set (xh := xorb_hash (part_nodes (parts_of scheme ds))).
  change ("xorbs/" +:+ to_hex xh) with (xorb_key xh). destruct (xorb_key_server xh) as [Hxk Hxne].
  cbn [alone]. rewrite alone_attempt. pose proof (exists_total (w_store w) (xorb_key xh) Hs) as Hexn.
  destruct (st_exists _ _) as [xorb_exists| |] eqn:Eex; cbn [storage_err map_err]; [|by split|done].
  apply exists_reads in Eex; [|done..]. destruct xorb_exists.
  - eapply store_shard_alone; try done. right. split; [done|]. by apply (bool_decide_eq_true_1 _ (eq_sym Eex)).
  - cbn [alone]. destruct (put_advances (w_store w) (xorb_key xh) (xorb_bytes (parts_of scheme ds)) Hs Hxk Hxne (xorb_bytes_small scheme ds Hfit))
      as (Ha & Hnp & Hok & _); [left; eauto|].
    destruct (st_put _ _ _) as [s1 answer]. cbn [fst snd] in *. rewrite alone_attempt.
    destruct answer as [[]| |]; cbn [storage_err map_err]; [|by split|done].
    eapply store_shard_alone; try done. left. by apply Hok.
Qed.

Lemma convert_spec c available ledger w :
  store_ok (w_store w) -> max_conversion_size c <= DEFAULT_MAX_CONVERSION_SIZE ->
  @config_scheme ConversionError c <> Panic ->
  let '(w', answer) := convert c available ledger oid w in
  match answer with
  | Ok r => converted c w w' r
  | Err _ => advances (w_store w) (w_store w') /\ w_index w' = w_index w
  | Panic => False
  end.
Proof.
  intros Hs Hmax Hscheme. pose proof (advances_refl _ Hs) as Hrefl.
  enough (outcome_of (converted c w) w (convert c available ledger oid w)) as Hc by (by destruct (convert c available ledger oid w) as [w' [| |]]).
  unfold convert, convert_steps. destruct (negb (cc_enabled c)); [by split|].
  apply check_remote_alone; [done|]. apply open_blob_alone; [done|]. intros path Hpath. rewrite alone_attempt.
  destruct path as [raw|]; cbn [ok_or]; [|by split]. rewrite alone_attempt. destruct Hpath as [Hraw Hraw64]. unfold check_size.
  destruct (_ <? _); [by split|]. destruct (Z.ltb_spec (max_conversion_size c) (len raw)) as [|Hle]; [by split|].
  by apply store_xorb_alone.
Qed.
End PipelineLemmas.

Lemma conversion_keeps_ok `{Blake3Laws, HexLaws, Sha2Laws, Lz4Laws, GearLaws, FileReadsLaws, StoreLaws} c available ledger oid w :
  all_hexdigits oid = true -> oid <> "" ->
  store_ok (w_store w) -> max_conversion_size c <= DEFAULT_MAX_CONVERSION_SIZE -> @config_scheme ConversionError c <> Panic ->
  store_ok (w_store (fst (convert c available ledger oid w))).
Proof.
  intros Hdig Hne Hs Hmax Hsch. pose proof (convert_spec oid Hdig Hne c available ledger w Hs Hmax Hsch) as Hspec.
  destruct (convert c available ledger oid w) as [w' [r|e|]]; [|apply Hspec|done].
  destruct Hspec as (raw & scheme & ds & h & buf & s & _ & _ & _ & _ & _ & _ & _ & (Ho & _) & _ & _ & _ & Hw' & _). cbn [fst]. rewrite Hw'.
  destruct (delete_raw_after_conversion c); [|done]. by apply delete_writes; [|apply blob_key_server].
Qed.

(** ** Properties *)

(** C33: A converted blob can be downloaded: the index gains a reference to the
    shard that the conversion stored, and as long as the storage serves what it
    then holds, rebuilding the file from that reference gives exactly the bytes
    of the raw blob, also when the raw blob was deleted; the download from all
    the references the index has succeeds.  The blob has the SHA-256 it is
    stored under and is not larger than the default limit, and an object already
    stored under the key of its xorb is that xorb. *)
Theorem converted_file_downloads `{Blake3Laws, HexLaws, Sha2Laws, Lz4Laws, GearLaws, FileReadsLaws, StoreLaws}
    c available ledger oid h raw w w' r :
  store_ok (w_store w) -> max_conversion_size c <= DEFAULT_MAX_CONVERSION_SIZE -> @config_scheme ConversionError c <> Panic ->
  all_hexdigits oid = true -> from_hex oid = Ok h -> contents (w_store w) (blob_key oid) = Some raw ->
  to_hex h = hex_encode (sha256_digest raw) ->
  (forall scheme ds d, @config_scheme ConversionError c = Ok scheme -> blob_pieces raw ds ->
     contents (w_store w) (xorb_key (xorb_hash (part_nodes (parts_of scheme ds)))) = Some d -> d = xorb_bytes (parts_of scheme ds)) ->
  convert c available ledger oid w = (w', Ok r) ->
  cr_raw_size r = len raw /\ exists refs,
    let ref := mkRef (cr_shard_hash r) 0 (len raw) in
    get_file_refs (w_index w') h = Some refs /\ ref ∈ refs /\
    forall view, view_wf view ->
      (forall key d, server_key key -> contents (w_store w') key = Some d -> serves view key d) ->
      reconstruct_verified_file_to_temp oid [ref] view = Ok (mkReconstruction raw (len raw)) /\
      is_ok (reconstruct_verified_file_to_temp oid refs view) = true.
Proof.
  intros Hs Hmax Hsch Hdig Hh Hraw Hsha Hxorb Hc. destruct (from_hex_outcome oid) as [_ Hwf]. destruct (Hwf h Hh) as (W & Hlen & _).
  assert (oid <> "") as Hne by (intros ->; done).
  pose proof (convert_spec oid Hdig Hne c available ledger w Hs Hmax Hsch) as Hspec. rewrite Hc in Hspec.
  destruct Hspec as (raw' & scheme & ds & h' & buf & s & Hraw' & Hle & Hds & Hs' & Hh' & Hl & Hp & Ha & Hsk & Hxk & Hreg & Hw' & Er & Ers).
  rewrite Hraw in Hraw'. injection Hraw' as <-. rewrite Hh in Hh'. injection Hh' as <-.
  split; [done|]. apply register_one_file in Hreg as (refs & Hrefs & Hin). cbn [vf_file_hash vf_file_index vf_file_size] in *.
  exists refs. cbn zeta. rewrite Er. split; [done|]. split; [done|]. intros view Hv Hserve.
  pose proof (pieces_fit scheme raw ds Hds ltac:(lia)) as Hfit. destruct (blob_pieces_shape raw ds Hds) as [Hcat _].
  assert (forall key', server_key key' -> key' <> blob_key oid -> contents (w_store w') key' = contents s key') as Hkept.
  { intros key' Hk Hd. rewrite Hw'. destruct (delete_raw_after_conversion c); [|done].
    apply (delete_writes s (blob_key oid)); [apply Ha|by apply blob_key_server|done|done]. }
  destruct (xorb_key_server oid (xorb_hash (part_nodes (parts_of scheme ds)))) as [Hxs Hxne].
  destruct (shard_key_server oid (compute_data_hash buf)) as [Hss Hsne].
  assert (contents s (xorb_key (xorb_hash (part_nodes (parts_of scheme ds)))) = Some (xorb_bytes (parts_of scheme ds))) as Hx.
  { destruct Hxk as [|[E [d Hd]]]; [done|]. rewrite E, Hd. f_equal. by eapply Hxorb. }
  assert (reconstruct_single_file_ref_to_temp (to_hex h) h (mkRef (to_hex (compute_data_hash buf)) 0 (len raw)) view =
    Ok (mkReconstruction raw (len raw))) as Hone.
  { rewrite <- Hcat. apply (rebuild_blob scheme ds h Hfit W view); [|done|done| |].
    - apply Hserve; [done|]. by rewrite Hkept.
    - apply Hserve; [done|]. by rewrite Hkept.
    - left. by rewrite Hcat. }
  unfold reconstruct_verified_file_to_temp. rewrite Hh. cbn [map_err]. split; [cbn [try_file_refs]; by rewrite Hone|].
  pose proof (try_file_refs_spec view (to_hex h) h refs None) as Htry. destruct (try_file_refs _ _ _ _ _) as [res|e|]; [done| |].
  - destruct Htry as [Hall _]. rewrite Forall_forall in Hall. destruct (Hall _ Hin) as [e' He']. rewrite Hone in He'. done.
  - apply Exists_exists in Htry as (ref & _ & Hpanic). by apply (single_sound view h ref Hv W) in Hpanic.
Qed.

(** A conversion never loses a blob: it does not panic; unless it succeeds, the
    raw blob and the index are what they were, and the storage has at most
    gained objects stored under their own hash; when it succeeds the shard is
    stored, and the blob is gone only if the configuration says so. *)
Theorem conversion_preserves_blob `{Blake3Laws, HexLaws, Sha2Laws, Lz4Laws, GearLaws, FileReadsLaws, StoreLaws}
    c available ledger oid w :
  store_ok (w_store w) -> max_conversion_size c <= DEFAULT_MAX_CONVERSION_SIZE -> @config_scheme ConversionError c <> Panic ->
  all_hexdigits oid = true -> oid <> "" ->
  let '(w', answer) := convert c available ledger oid w in
  answer <> Panic /\ store_ok (w_store w') /\ only_adds (blob_key oid) (contents (w_store w)) (contents (w_store w')) /\
  match answer with
  | Ok r => (contents (w_store w') (blob_key oid) = contents (w_store w) (blob_key oid) \/
             (delete_raw_after_conversion c = true /\ contents (w_store w') (blob_key oid) = None)) /\
            contents (w_store w') ("shards/" +:+ cr_shard_hash r) <> None
  | _ => contents (w_store w') (blob_key oid) = contents (w_store w) (blob_key oid) /\ w_index w' = w_index w
  end.
Proof.
  intros Hs Hmax Hsch Hdig Hne. pose proof (convert_spec oid Hdig Hne c available ledger w Hs Hmax Hsch) as Hspec.
  destruct (convert c available ledger oid w) as [w' [r|e|]]; [|destruct Hspec as [(Ho & Hk & Hadds) Hi]; done|done].
  destruct Hspec as (raw & scheme & ds & h & buf & s & _ & _ & _ & _ & _ & _ & _ & (Ho & Hk & Hadds) & Hsk & _ & _ & Hw' & Er & _).
  split; [done|]. destruct (shard_key_server oid (compute_data_hash buf)) as [Hss Hsne]. rewrite Hw', Er.
  destruct (delete_raw_after_conversion c).
  - destruct (delete_writes s (blob_key oid) Ho (blob_key_server oid Hdig Hne)) as (Ho' & _ & _ & Hkeep & Hother).
    split; [done|]. split; [|split].
    + intros key' Hk' Hd. rewrite Hother by done. by apply Hadds.
    + destruct Hkeep as [->| ->]; [left; done|by right].
    + rewrite Hother by done. by rewrite Hsk.
  - split; [done|]. split; [done|]. split; [by left|]. by rewrite Hsk.
Qed.

(** ** Witnesses *)
From S2P Require Import FileSystem LocalStorage.
#[local] Existing Instances Model.blake3 Model.blake3_laws Model.hex Model.hex_laws Model.sha2 Model.sha2_laws Model.lz4 Model.lz4_laws
  Model.gear Model.gear_laws Model.reads Model.reads_laws LocalModel.no_faults LocalModel.storage LocalModel.storage_laws.

Definition sample_config : ConversionConfig := mkConversion true "LZ4" true 1 DEFAULT_MAX_CONVERSION_SIZE 1 128 30.
Definition sample_ledger : TempQuotaLedger := mkLedger 1000000 1000 0 0.
Definition sample_raw : list byte := sample_text ++ sample_text.
Definition sample_oid : string := hex_encode (sha256_digest sample_raw).
Definition sample_oid_hash : MerkleHash := unwrap_or (from_hex sample_oid) hash_default.
Definition sample_world : world :=
  mkWorld (fst (LocalStorage.put LocalModel.long_uuid LocalModel.base LocalModel.empty_fs (blob_key sample_oid) sample_raw)) index_new.
Definition sample_converted : world * outcome ConversionError ConversionResult :=
  convert sample_config (Some 1000000) sample_ledger sample_oid sample_world.

(** A backend that downloads what is stored. *)
Definition view_of (s : store) : StorageView :=
  mkView (fun _ _ => Ok None) (fun key _ => match contents s key with Some d => Ok d | None => Err (NotFound key) end).

Lemma view_of_serves s key d : contents s key = Some d -> serves (view_of s) key d.
Proof. intros E n. split; [by right|]. unfold view_of. cbn [Storage.download_to_path]. by rewrite E. Qed.

Lemma sample_world_ok : store_ok (w_store sample_world).
Proof.
  refine (proj1 (put_writes LocalModel.empty_fs (blob_key sample_oid) sample_raw LocalModel.empty_ok _ _)); [|reflexivity].
  apply blob_key_server; [vm_compute; reflexivity|discriminate].
Qed.

Lemma view_of_wf (s : store) : store_ok s -> view_wf (view_of s).
Proof.
  intros Hok key n. split; [done|]. unfold view_of. cbn [Storage.download_to_path]. destruct (contents s key) as [d|] eqn:E; [|done].
  split; [done|]. intros d' [= <-]. apply object_at_file in E. by apply (bo_small _ _ s Hok _ d E).
Qed.

Definition sample_result : ConversionResult := unwrap_or (snd sample_converted) (mkConverted "" "" 0 0 0 0).

Lemma sample_converts : snd sample_converted = Ok sample_result.
Proof. apply ok_unwrap. vm_compute. reflexivity. Qed.

Lemma sample_stored key : contents (w_store sample_world) (xorb_key key) = None.
Proof.
  destruct (@put_writes LocalModel.storage LocalModel.storage_laws LocalModel.empty_fs (blob_key sample_oid) sample_raw LocalModel.empty_ok) as [_ (_ & _ & _ & Hother)];
    [apply blob_key_server; [vm_compute; reflexivity|discriminate]|reflexivity|].
  destruct (xorb_key_server sample_oid key) as [Hk Hne]. unfold sample_world. cbn [w_store]. etransitivity; [apply (Hother _ Hk Hne)|].
  cbn [contents LocalModel.storage_laws local_laws]. unfold object_at, LocalModel.empty_fs. rewrite lookup_singleton_ne; [done|].
  intros E. apply server_components_ne in Hk. by destruct (key_components (xorb_key key)).
Qed.

Lemma converted_file_downloads_witness :
  exists w', sample_converted = (w', Ok sample_result) /\ contents (w_store w') (blob_key sample_oid) = None /\
    reconstruct_verified_file_to_temp sample_oid [mkRef (cr_shard_hash sample_result) 0 18] (view_of (w_store w')) =
      Ok (mkReconstruction sample_raw 18).
Proof.
  exists (fst sample_converted). rewrite <- sample_converts. split; [by destruct sample_converted|]. split; [vm_compute; reflexivity|].
  assert (exists h, from_hex sample_oid = Ok h /\ to_hex h = sample_oid) as (h & Eh & Eto).
  { exists sample_oid_hash. split; [apply ok_unwrap; vm_compute; reflexivity|vm_compute; reflexivity]. }
  assert (sample_converted = (fst sample_converted, Ok sample_result)) as Ec
    by (rewrite <- sample_converts; by destruct sample_converted).
  destruct (converted_file_downloads sample_config (Some 1000000) sample_ledger sample_oid h sample_raw sample_world (fst sample_converted)
    sample_result) as (_ & refs & _ & _ & Hview).
  - exact sample_world_ok.
  - apply Z.le_refl.
  - vm_compute. discriminate.
  - vm_compute. reflexivity.
  - exact Eh.
  - vm_compute. reflexivity.
  - exact Eto.
  - intros scheme ds d _ _ E. by rewrite sample_stored in E.
  - exact Ec.
  - apply Hview; [apply view_of_wf|intros key d _; apply view_of_serves].
    assert (DEFAULT_MAX_CONVERSION_SIZE <= DEFAULT_MAX_CONVERSION_SIZE) as Hmax by done.
    apply (conversion_keeps_ok sample_config (Some 1000000) sample_ledger sample_oid sample_world eq_refl ltac:(discriminate) sample_world_ok Hmax).
    vm_compute. discriminate.
Defined.

Definition absent_world : world := mkWorld LocalModel.empty_fs index_new.
Definition absent_converted : world * outcome ConversionError ConversionResult :=
  convert sample_config None sample_ledger sample_oid absent_world.

Lemma absent_fails : is_ok (snd absent_converted) = false.
Proof. vm_compute. reflexivity. Qed.

Lemma conversion_preserves_blob_witness :
  is_ok (snd absent_converted) = false /\ snd absent_converted <> Panic /\
  only_adds (blob_key sample_oid) (contents (w_store absent_world)) (contents (w_store (fst absent_converted))).
Proof.
  split; [exact absent_fails|].
  assert (@config_scheme ConversionError sample_config <> Panic) as Hs by (vm_compute; discriminate).
  assert (sample_oid <> "") as Hne by discriminate.
  pose proof (conversion_preserves_blob sample_config None sample_ledger sample_oid absent_world LocalModel.empty_ok
    (Z.le_refl _) Hs eq_refl Hne) as Hc.
  fold absent_converted in Hc. destruct absent_converted as [w' answer]. split; apply Hc.
Defined.
