(* ===== verification/Payload.v ===== *)
(** * Spooling uploads (src/util/temp_file.rs, src/util/payload_stream.rs, src/util/disk.rs)

    An upload is streamed to a temporary file whose growth is charged to the
    temporary-space ledger.  What the host does during one upload (calls that
    fail, free space) is a record of answers, arbitrary in every theorem.  The
    ledger is the one the upload meets; interleaved reservations are in
    [Quota]. *)
From S2P Require Import Prelude Bytes Crates Hash Storage Quota.

Local Open Scope string_scope.
Local Open Scope list_scope.
Local Open Scope Z_scope.

(** What the host answers to the calls of one upload; writes are numbered. *)
Record upload_host := mkHost {
  dir_created : bool;
  space : option Z;
  manager_available : option Z;
  file_created : bool;
  write_ok : nat -> bool;
  flush_ok : bool;
  fsync_ok : bool;
}.

(** ** Disk space (src/util/disk.rs) *)
Definition check_disk_space (available : option Z) (required_bytes : Z) : outcome string unit :=
  match available with
  | None => Err "statvfs failed"
  | Some available => if available <? required_bytes then Err "Insufficient disk space" else Ok tt
  end.
Definition ensure_dir_and_check_space (host : upload_host) (required_bytes : Z) : outcome string unit :=
  ensure dir_created host else "Failed to create temp dir" in
  check_disk_space (space host) required_bytes.

(** ** Temporary files (src/util/temp_file.rs)

    [tf_data] is the content of the file; [tf_open] until it is stored. *)
Record TempFile := mkTemp {
  tf_data : list byte;
  tf_open : bool;
  tf_writes : nat;
  tf_ledger : TempQuotaLedger;
  tf_reservation : option TempReservation;
}.

Section TempFiles.
Context (host : upload_host).

Definition create_with_manager (ledger : TempQuotaLedger) : StorageResult TempFile :=
  ensure dir_created host else (Internal "Failed to create temp dir") in
  let '(ledger, reserved) := manager_reserve (manager_available host) ledger 0 in
  let* reservation := map_err (fun _ => Quota) reserved in
  ensure file_created host else (Internal "Failed to create temp file") in
  Ok (mkTemp [] true 0 ledger (Some reservation)).

(** [TempFile::create]: no quota; the ledger is not used. *)
Definition create (ledger : TempQuotaLedger) : StorageResult TempFile :=
  ensure dir_created host else (Internal "Failed to create temp dir") in
  ensure file_created host else (Internal "Failed to create temp file") in
  Ok (mkTemp [] true 0 ledger None).
Definition create_with_quota (quota_bytes min_free_bytes : Z) : StorageResult TempFile :=
  let* ledger := map_err (fun _ => Quota) (ledger_new quota_bytes min_free_bytes) in
  create_with_manager ledger.
Definition create_with_ledger (ledger : TempQuotaLedger) : StorageResult TempFile := create_with_manager ledger.

Definition write_all (t : TempFile) (data : list byte) : TempFile * StorageResult unit :=
  let '(ledger, reservation, answer) :=
    match tf_reservation t with
    | Some r => let '(l, r, answer) := reserve_additional (tf_ledger t) r (len data) in (l, Some r, answer)
    | None => (tf_ledger t, None, Ok tt)
    end in
  let t1 := mkTemp (tf_data t) (tf_open t) (S (tf_writes t)) ledger reservation in
  match answer with
  | Err _ => (t1, Err Quota)
  | Panic => (t1, Panic)
  | Ok _ =>
      if negb (tf_open t) then (t1, Err (Internal "TempFile already closed for storage"))
      else if negb (write_ok host (tf_writes t)) then (t1, Err (Internal "Failed to write to temp file"))
      else
        match reservation with
        | Some r =>
            let '(ledger, r, answer) := commit_written ledger r (len data) in
            (mkTemp (tf_data t ++ data) (tf_open t) (S (tf_writes t)) ledger (Some r), map_err (fun _ => Quota) answer)
        | None => (mkTemp (tf_data t ++ data) (tf_open t) (S (tf_writes t)) ledger None, Ok tt)
        end
  end.

Definition sync_all (t : TempFile) : StorageResult unit :=
  ensure tf_open t else (Internal "TempFile already closed for storage") in
  ensure flush_ok host else (Internal "Failed to flush temp file") in
  ensure fsync_ok host else (Internal "Failed to fsync temp file") in
  Ok tt.

(** Dropping the file removes it and drops its reservation. *)
Definition temp_drop (t : TempFile) : TempQuotaLedger :=
  match tf_reservation t with Some r => reservation_drop (tf_ledger t) r | None => tf_ledger t end.

(** ** Streaming a payload (src/util/payload_stream.rs) *)
Inductive StreamPayloadError :=
| StPayload (msg : string)
| StTooLarge (max_bytes : Z)
| StWrite (msg : string)
| StSync (msg : string)
| StQuota.

(** The loop over the payload; [on_chunk] threads the caller's hasher. *)
Fixpoint stream_loop {H} (on_chunk : H -> list byte -> H) (payload : list (outcome string (list byte))) (max_bytes total_bytes : Z)
    (t : TempFile) (h : H) : TempFile * H * outcome StreamPayloadError Z :=
  match payload with
  | [] => (t, h, Ok total_bytes)
  | Ok chunk :: payload =>
      match checked_add total_bytes (len chunk) with
      | None => (t, h, Err StQuota)
      | Some total_bytes =>
          if max_bytes <? total_bytes then (t, h, Err (StTooLarge max_bytes))
          else
            let h := on_chunk h chunk in
            let '(t, answer) := write_all t chunk in
            match answer with
            | Ok _ => stream_loop on_chunk payload max_bytes total_bytes t h
            | Err Quota => (t, h, Err StQuota)
            | Err _ => (t, h, Err (StWrite "Failed to write to temp file"))
            | Panic => (t, h, Panic)
            end
      end
  | Err e :: _ => (t, h, Err (StPayload e))
  | Panic :: _ => (t, h, Panic)
  end.

Definition stream_payload_to_temp {H} (on_chunk : H -> list byte -> H) (payload : list (outcome string (list byte))) (max_bytes : Z)
    (t : TempFile) (h : H) : TempFile * H * outcome StreamPayloadError Z :=
  let '(t, h, answer) := stream_loop on_chunk payload max_bytes 0 t h in
  match answer with
  | Ok total_bytes =>
      match sync_all t with
      | Ok _ => (t, h, Ok total_bytes)
      | Err _ => (t, h, Err (StSync "Failed to sync temp file"))
      | Panic => (t, h, Panic)
      end
  | _ => (t, h, answer)
  end.
End TempFiles.

(** ** Specification *)

(** What is left of the quota for a file that started from ledger [l]. *)
Definition ledger_room (l : TempQuotaLedger) : Z := quota_bytes l - charged_bytes l - reserved_bytes l.

(** A sane ledger: its counters are within the quota. *)
Definition ledger_ok (l : TempQuotaLedger) : Prop :=
  0 <= charged_bytes l /\ 0 <= reserved_bytes l /\ charged_bytes l + reserved_bytes l <= quota_bytes l <= u64_max.

(** A file that started from [l0] and to which [data] was written. *)
Definition spooled (l0 : TempQuotaLedger) (t : TempFile) (data : list byte) : Prop :=
  tf_open t = true /\ tf_data t = data /\ tf_reservation t = Some (mkReservation 0 (len data)) /\
  tf_ledger t = set_charged l0 (charged_bytes l0 + len data) /\ len data <= ledger_room l0.

(** The payload's chunks, up to the first that failed. *)
Fixpoint payload_chunks (payload : list (outcome string (list byte))) : list (list byte) :=
  match payload with Ok chunk :: payload => chunk :: payload_chunks payload | _ => [] end.
Definition payload_complete (payload : list (outcome string (list byte))) : bool := forallb is_ok payload.

(** ** Lemmas *)
Section Lemmas.
Context (host : upload_host) (l0 : TempQuotaLedger) (Hl0 : ledger_ok l0).

(** The reservation part of a write that fits. *)
Lemma reserve_chunk l n :
  quota_bytes l <= u64_max -> 0 <= charged_bytes l -> 0 <= reserved_bytes l -> 0 < n ->
  reserve_check (quota_bytes l) (charged_bytes l) (reserved_bytes l) n =
    (if quota_bytes l <? charged_bytes l + reserved_bytes l + n
     then Err (if charged_bytes l + reserved_bytes l + n <=? u64_max then QuotaExhausted else Overflow) else Ok tt).
Proof.
  intros Hq Hc Hr Hn. unfold reserve_check.
  destruct (Z.leb_spec (charged_bytes l + reserved_bytes l + n) u64_max) as [Hle|Hle].
  - rewrite !checked_add_le by lia. cbn [ok_or]. by destruct (quota_bytes l <? _).
  - replace (quota_bytes l <? _) with true by lia. unfold checked_add. destruct (_ <=? u64_max); cbn [ok_or]; [|done].
    by replace (_ <=? u64_max) with false by lia.
Qed.

(** Writing a chunk: it succeeds exactly when it fits and the file system takes it. *)
Lemma write_all_spec t data chunk :
  spooled l0 t data ->
  let '(t', answer) := write_all host t chunk in
  if (0 <? len chunk) && (ledger_room l0 <? len data + len chunk) then answer = Err Quota
  else if write_ok host (tf_writes t) then answer = Ok tt /\ spooled l0 t' (data ++ chunk) /\ tf_writes t' = S (tf_writes t)
  else answer = Err (Internal "Failed to write to temp file").
Proof.
  intros (Ho & Hd & Hr & Hl & Hroom). destruct Hl0 as (Hc & Hres & Hq). unfold write_all, reserve_additional, ledger_reserve. rewrite Hr, Hl.
  pose proof (len_nonneg chunk). pose proof (len_nonneg data). unfold ledger_room in *.
  destruct (Z.eqb_spec (len chunk) 0) as [E0|E0].
  - apply len_0_inv in E0 as ->. change (len []) with 0. cbn [reservation_empty r_reserved r_charged]. rewrite checked_add_le by done.
    rewrite Ho. cbn [negb andb Z.ltb Z.compare]. destruct (write_ok host (tf_writes t)); cbn [negb]; [|done].
    unfold commit_written, commit. change (0 + 0 <? 0) with false. change (0 =? 0) with true. cbn [r_reserved r_charged]. cbn match.
    rewrite checked_add_le by lia. cbn [map_err]. split; [done|]. split; [|done].
    unfold spooled. cbn. by rewrite Hd, app_nil_r, !Z.add_0_r.
  - rewrite reserve_chunk by (cbn; lia). cbn [set_charged charged_bytes reserved_bytes quota_bytes].
    replace (0 <? len chunk) with true by lia. cbn [andb].
    replace (quota_bytes l0 - charged_bytes l0 - reserved_bytes l0 <? len data + len chunk)
      with (quota_bytes l0 <? charged_bytes l0 + len data + reserved_bytes l0 + len chunk) by lia.
    destruct (Z.ltb_spec (quota_bytes l0) (charged_bytes l0 + len data + reserved_bytes l0 + len chunk)) as [|Hle]; [done|].
    cbn [r_reserved r_charged]. rewrite checked_add_le by lia. rewrite Ho. cbn [negb].
    destruct (write_ok host (tf_writes t)); cbn [negb]; [|done].
    unfold commit_written, commit. cbn [r_reserved r_charged set_reserved set_charged charged_bytes reserved_bytes quota_bytes min_free_bytes].
    replace (0 + len chunk <? len chunk) with false by lia. replace (len chunk =? 0) with false by lia.
    rewrite !checked_add_le by lia. cbn [r_reserved r_charged map_err set_charged set_reserved reserved_bytes quota_bytes min_free_bytes].
    split; [done|]. split; [|done]. unfold spooled. cbn. rewrite Hd, len_app.
    split; [done|]. split; [done|]. split; [do 2 f_equal; lia|]. split; [|unfold ledger_room; lia].
    unfold set_charged. cbn. f_equal; [|rewrite as_u64_small; lia]. lia.
Qed.

(** The whole stream: what stops it, and what it leaves when nothing does. *)
Lemma stream_loop_spec {H} (on_chunk : H -> list byte -> H) payload max_bytes : forall t data h,
  spooled l0 t data -> Panic ∉ payload -> max_bytes <= u64_max -> len data <= max_bytes ->
  let '(t', h', answer) := stream_loop host on_chunk payload max_bytes (len data) t h in
  let content := data ++ concat (payload_chunks payload) in
  match answer with
  | Ok total => payload_complete payload = true /\ total = len content /\ len content <= max_bytes /\ spooled l0 t' content /\
      h' = fold_left on_chunk (payload_chunks payload) h
  | Err (StPayload e) => Err e ∈ payload /\ len content <= max_bytes /\ len content <= ledger_room l0
  | Err (StTooLarge m) => m = max_bytes /\ max_bytes < len content
  | Err StQuota => ledger_room l0 < len content
  | Err (StWrite _) => exists n, write_ok host n = false
  | Err (StSync _) | Panic => False
  end.
Proof.
  induction payload as [|chunk payload IH]; intros t data h Hs Hp Hm Hd; cbn [stream_loop].
  - cbn. rewrite app_nil_r. done.
  - destruct chunk as [chunk|e|]; [| |set_solver]; cbn [payload_chunks concat].
    2: { split; [by left|]. cbn. rewrite app_nil_r. split; [done|]. apply Hs. }
    assert (len data + len chunk <= len (data ++ chunk ++ concat (payload_chunks payload))) as Hle
      by (rewrite !len_app; pose proof (len_nonneg (concat (payload_chunks payload))); lia).
    destruct (Z.ltb_spec max_bytes (len data + len chunk)) as [Hbig|Hsmall].
    { unfold checked_add. destruct (Z.leb_spec (len data + len chunk) u64_max).
      - replace (max_bytes <? _) with true by lia. split; [done|lia].
      - unfold ledger_room. destruct Hl0 as (? & ? & ?). lia. }
    rewrite checked_add_le by lia. replace (max_bytes <? _) with false by lia.
    pose proof (write_all_spec t data chunk Hs) as Hw. destruct (write_all host t chunk) as [t1 answer].
    destruct (_ && _) eqn:Eq in Hw.
    { subst answer. apply andb_prop in Eq as [_ Eq]. lia. }
    destruct (write_ok host (tf_writes t)) eqn:Ew; [|subst answer; by eauto]. destruct Hw as (-> & Hs1 & _).
    specialize (IH t1 (data ++ chunk) (on_chunk h chunk) Hs1 ltac:(set_solver) Hm ltac:(rewrite len_app; lia)).
    rewrite len_app in IH. destruct (stream_loop _ _ _ _ _ _ _) as [[t' h'] answer]. rewrite <- app_assoc in IH.
    destruct answer as [total|[]|]; try done. destruct IH as (He & ?). split; [by right|done].
Qed.
End Lemmas.

Lemma created_spooled host l t : ledger_ok l -> create_with_manager host l = Ok t -> spooled l t [].
Proof.
  intros (Hc & Hr & Hq) Ht. unfold create_with_manager, manager_reserve in Ht. destruct (dir_created host); [|done].
  destruct (checked_add _ _); [|done]. destruct (checked_add _ _); [|done]. destruct (_ <? _); [done|].
  unfold ledger_reserve in Ht. cbn in Ht. destruct (file_created host); [|done]. injection Ht as <-.
  unfold spooled, ledger_room. cbn. change (len []) with 0. rewrite Z.add_0_r. do 3 (split; [done|]). split; [by destruct l|lia].
Qed.

(** ** Properties *)

(** Spooling an upload: it never panics; it succeeds exactly when the file can be made, the payload is
    complete, not larger than the limit, fits in what is left of the quota and the file system does its
    part, and then the file holds the payload, the reported size is its size, the hasher has seen every
    chunk in order and the ledger is charged for exactly these bytes; too large and out of quota are
    reported exactly then; and dropping the file gives the ledger back what the upload took. *)
Theorem spool_upload {H} host l (on_chunk : H -> list byte -> H) payload max_bytes h t :
  ledger_ok l -> Panic ∉ payload -> 0 <= max_bytes <= u64_max -> create_with_manager host l = Ok t ->
  let content := concat (payload_chunks payload) in
  let '(t', h', answer) := stream_payload_to_temp host on_chunk payload max_bytes t h in
  match answer with
  | Ok total => payload_complete payload = true /\ tf_data t' = content /\ total = len content /\ len content <= max_bytes /\
      len content <= ledger_room l /\ h' = fold_left on_chunk (payload_chunks payload) h /\
      tf_ledger t' = set_charged l (charged_bytes l + len content) /\ temp_drop t' = l
  | Err (StPayload e) => Err e ∈ payload
  | Err (StTooLarge m) => m = max_bytes /\ max_bytes < len content
  | Err StQuota => ledger_room l < len content
  | Err (StWrite _) => exists n, write_ok host n = false
  | Err (StSync _) => flush_ok host = false \/ fsync_ok host = false
  | Panic => False
  end.
Proof.
  intros Hl Hp Hm Ht content. pose proof (created_spooled host l t Hl Ht) as Hs.
  pose proof (stream_loop_spec host l Hl on_chunk payload max_bytes t [] h Hs Hp (proj2 Hm) ltac:(change (len []) with 0; lia)) as Hloop.
  unfold stream_payload_to_temp. change (len []) with 0 in Hloop. destruct (stream_loop _ _ _ _ _ _ _) as [[t' h'] answer].
  cbn [app] in Hloop. fold content in Hloop. destruct answer as [total|[]|]; try done; [|tauto].
  destruct Hloop as (Hc & -> & Hmax & (Ho & Hd & Hr & Hled & Hroom) & ->). unfold sync_all. rewrite Ho.
  destruct (flush_ok host); [|by left]. destruct (fsync_ok host); [|by right].
  do 6 (split; [done|]). split; [done|]. unfold temp_drop. rewrite Hr, Hled. unfold reservation_drop, release_reserved, release_charged.
  cbn. destruct Hl as (Hcl & Hrl & Hql). pose proof (len_nonneg content). destruct (Z.eqb_spec (len content) 0) as [->|].
  - rewrite Z.add_0_r. by destruct l.
  - unfold set_charged. cbn. destruct l; cbn in *. f_equal. rewrite as_u64_small; lia.
Qed.

(** ** Witnesses *)
Definition good_host : upload_host := mkHost true (Some 1000000) (Some 1000000) true (fun _ => true) true true.
Definition sample_quota : TempQuotaLedger := mkLedger 100 10 20 30.
Definition sample_payload : list (outcome string (list byte)) := [Ok (str_bytes "hello "); Ok []; Ok (str_bytes "world")].
Definition sample_temp : TempFile := mkTemp [] true 0 sample_quota (Some reservation_empty).

Lemma spool_upload_witness :
  create_with_manager good_host sample_quota = Ok sample_temp /\
  let '(t, h, answer) := stream_payload_to_temp good_host (fun h c => h + len c) sample_payload 1000 sample_temp 0 in
  answer = Ok 11 /\ tf_data t = str_bytes "hello world" /\ h = 11 /\ temp_drop t = sample_quota.
Proof.
  split; [reflexivity|].
  assert (ledger_ok sample_quota) as Hl by (unfold ledger_ok, sample_quota, u64_max; cbn; lia).
  pose proof (spool_upload good_host sample_quota (fun h c => h + len c) sample_payload 1000 0 sample_temp Hl
    ltac:(unfold sample_payload; set_solver) ltac:(unfold u64_max; lia) eq_refl) as H.
  destruct (stream_payload_to_temp good_host (fun h c => h + len c) sample_payload 1000 sample_temp 0) as [[t h] answer] eqn:E.
  assert (answer = Ok 11) as -> by (vm_compute in E; congruence).
  destruct H as (_ & Hd & _ & _ & _ & Hh & _ & Hdrop). split; [reflexivity|]. split; [exact Hd|]. split; [exact Hh|exact Hdrop].
Defined.
