(* ===== verification/CasConfig.v ===== *)
(** * The CAS server's configuration (src/config.rs)

    Loading from the environment and the checks, and where the temporary files
    go.  Warnings that are only logged are left out. *)
From stdpp Require Import gmap strings.
From Stdlib Require Import Ascii.
From S2P Require Import Prelude Bytes Crates Hash Compression Text Url Config TokenCrates Tokens CasAuth Conversion.

Local Open Scope string_scope.
Local Open Scope list_scope.
Local Open Scope Z_scope.

(** ** Settings *)
Record ServerSettings := mkSettings {
  ss_host : string;
  ss_port : Z;
  public_base_url : option string;
  max_body_size_mb : Z;
  rate_limit_rpm : Z;
  index_rebuild_strict : bool;
}.
Record StorageConfig := mkStorageConfig {
  st_backend : string;
  st_s3_bucket : option string;
  st_s3_region : option string;
  st_s3_endpoint : option string;
  st_local_path : option string;
  st_upload_temp_dir : option string;
  st_reconstruction_temp_dir : option string;
  st_verify_download_integrity : bool;
  st_temp_quota_bytes : Z;
  st_temp_min_free_bytes : Z;
}.
Record ServerConfig := mkServerConfig { cf_server : ServerSettings; cf_storage : StorageConfig; cf_auth : AuthConfig; cf_conversion : ConversionConfig }.

(** [ServerSettings::base_url] and [max_body_size_bytes]. *)
Definition settings_base_url (s : ServerSettings) : string :=
  trim_end_slashes (default ("http://" +:+ ss_host s +:+ ":" +:+ u64_to_string (ss_port s)) (public_base_url s)).
Definition settings_max_body (s : ServerSettings) : Z := Z.min u64_max (max_body_size_mb s * (1024 * 1024)).

(** [Path::join] with a relative path. *)
Definition path_join (p rel : string) : string := p +:+ (if (p =? "")%string || negb (trim_end_slashes p =? p)%string then "" else "/") +:+ rel.
Definition resolve_upload_temp_dir (c : StorageConfig) : string :=
  match st_upload_temp_dir c, st_local_path c with
  | Some dir, _ => dir
  | None, Some local_path => path_join local_path ".tmp"
  | None, None => "/var/tmp/xet-uploads"
  end.
(** [temp_dir] is the host's. *)
Definition resolve_reconstruction_temp_dir (temp_dir : string) (c : StorageConfig) : string :=
  match st_reconstruction_temp_dir c, st_local_path c with
  | Some dir, _ => dir
  | None, Some local_path => path_join local_path ".reconstruction"
  | None, None => path_join temp_dir "xet-reconstruction"
  end.

Definition default_conversion : ConversionConfig := mkConversion true "lz4" true 65536 (512 * 1024 * 1024) 1 128 30.

(** ** Checks *)
Section Loading.
Context `{UrlCrate}.

(** The reason that the url crate gives is left out of the message. *)
Definition validate_base_url (s : ServerSettings) : outcome string unit :=
  match public_base_url s with
  | Some url =>
      let url := trim_end_slashes url in
      let* parsed := ok_or (url_parse url) ("public_base_url '" +:+ url +:+ "' is not a valid URL. This will cause client connection failures.") in
      ensure (match url_host_str parsed with None => false | Some _ => true end)
        else ("public_base_url '" +:+ url +:+ "' is missing a valid host. This will cause client connection failures.") in
      ensure negb (negb (url_scheme parsed =? "http")%string && negb (url_scheme parsed =? "https")%string)
        else ("public_base_url '" +:+ url +:+ "' uses unsupported scheme '" +:+ url_scheme parsed +:+ "'; expected http or https") in
      Ok tt
  | None => Ok tt
  end.

(** [as_deref().is_none_or(blank)] and [is_some_and(blank)]. *)
Definition missing (s : option string) : bool := match s with Some s => is_blank s | None => true end.
Definition blank_if_set (s : option string) : bool := match s with Some s => is_blank s | None => false end.

Definition validate_backend (st : StorageConfig) : outcome string unit :=
  if (st_backend st =? "local")%string then
    ensure negb (missing (st_local_path st)) else "XET_LOCAL_PATH must be set and non-empty for local storage" in
    Ok tt
  else if (st_backend st =? "s3")%string then
    ensure negb (missing (st_s3_bucket st)) else "XET_S3_BUCKET must be set and non-empty for S3 storage" in
    match st_s3_endpoint st with Some endpoint => validate_http_url "XET_S3_ENDPOINT" endpoint | None => Ok tt end
  else Err ("XET_STORAGE_BACKEND '" +:+ st_backend st +:+ "' is invalid; expected local or s3").

Definition validate_scheme (c : ConversionConfig) : outcome string unit :=
  let scheme := string_to_lower (cc_compression_scheme c) in
  ensure (scheme =? "none")%string || (scheme =? "lz4")%string || (scheme =? "bg4lz4")%string
    else ("XET_CONVERSION_SCHEME '" +:+ scheme +:+ "' is invalid; expected none, lz4, or bg4lz4") in
  Ok tt.

Definition validate_config (c : ServerConfig) : outcome string unit :=
  let* _ := validate_base_url (cf_server c) in
  let* _ := positive (rate_limit_rpm (cf_server c)) "XET_RATE_LIMIT_RPM must be > 0 (got 0). This would disable rate limiting." in
  let* _ := positive (max_body_size_mb (cf_server c)) "XET_MAX_BODY_SIZE_MB must be > 0 (got 0). This would prevent all uploads." in
  let* _ := validate_backend (cf_storage c) in
  ensure negb (blank_if_set (st_upload_temp_dir (cf_storage c))) else "XET_UPLOAD_TEMP_DIR must not be empty" in
  ensure negb (blank_if_set (st_reconstruction_temp_dir (cf_storage c))) else "XET_RECONSTRUCTION_TEMP_DIR must not be empty" in
  let* _ := positive (st_temp_quota_bytes (cf_storage c)) "XET_TEMP_QUOTA_BYTES must be > 0" in
  let* _ := positive (st_temp_min_free_bytes (cf_storage c)) "XET_TEMP_MIN_FREE_BYTES must be > 0" in
  let* _ := CasAuth.validate (cf_auth c) in
  let* _ := validate_scheme (cf_conversion c) in
  let* _ := positive (max_conversion_size (cf_conversion c)) "XET_MAX_CONVERSION_SIZE must be > 0" in
  let* _ := positive (cc_concurrency (cf_conversion c)) "XET_CONVERSION_CONCURRENCY must be > 0" in
  let* _ := positive (cc_queue_capacity (cf_conversion c)) "XET_CONVERSION_QUEUE_CAPACITY must be > 0" in
  let* _ := positive (cc_shutdown_grace_secs (cf_conversion c)) "XET_CONVERSION_SHUTDOWN_GRACE_SECS must be > 0" in
  ensure negb (max_conversion_size (cf_conversion c) <? min_conversion_size (cf_conversion c))
    else ("XET_MIN_CONVERSION_SIZE (" +:+ u64_to_string (min_conversion_size (cf_conversion c)) +:+ ") must be <= XET_MAX_CONVERSION_SIZE (" +:+
          u64_to_string (max_conversion_size (cf_conversion c)) +:+ "). Current values would prevent all conversions from triggering.") in
  Ok tt.

(** ** Loading *)
Context (env : environment).

Definition parse_bool_env (key : string) (default : bool) : outcome string bool :=
  match var env key with
  | Some value =>
      let lower := string_to_lower value in
      if (lower =? "true")%string || (lower =? "1")%string then Ok true
      else if (lower =? "false")%string || (lower =? "0")%string then Ok false
      else Err (key +:+ " '" +:+ value +:+ "' is not a valid boolean value; expected true/false or 1/0")
  | None => Ok default
  end.

Definition add_public_key (st : gset string * list PublicKeyConfig) (mapping : string) : outcome string (gset string * list PublicKeyConfig) :=
  let '(seen_kids, public_keys) := st in
  let* ' (kid, path) := ok_or (split_once "="%char mapping) ("CAS_PUBLIC_KEYS entry '" +:+ mapping +:+ "' is invalid; expected kid=/path/to/public.pem") in
  let kid := trim kid in
  let path := trim path in
  ensure negb ((kid =? "")%string || (path =? "")%string)
    else ("CAS_PUBLIC_KEYS entry '" +:+ mapping +:+ "' must contain a non-empty key ID and path") in
  ensure bool_decide (kid ∉ seen_kids) else ("CAS_PUBLIC_KEYS contains duplicate key ID '" +:+ kid +:+ "'") in
  Ok ({[kid]} ∪ seen_kids, public_keys ++ [mkPublicKey kid path]).
Definition parse_public_keys (value : string) : outcome string (list PublicKeyConfig) :=
  ensure negb (is_blank value) else "CAS_PUBLIC_KEYS must not be empty when set" in
  let* st := fold_outcome add_public_key (∅, []) (split_on ","%char value) in
  Ok st.2.

Definition public_keys_from_env : outcome string (list PublicKeyConfig) :=
  match env "CAS_PUBLIC_KEYS" with
  | Present value => parse_public_keys value
  | NotPresent => Ok []
  | NotUnicode => Err "CAS_PUBLIC_KEYS must contain valid Unicode"
  end.
Definition trusted_kids_from_env (public_keys : list PublicKeyConfig) : outcome string (list string) :=
  match env "CAS_TRUSTED_KIDS" with
  | Present value => Ok (map trim (split_on ","%char value))
  | NotPresent => Ok (match public_keys with [] => ["hub-key-1"] | _ => map pk_kid public_keys end)
  | NotUnicode => Err "CAS_TRUSTED_KIDS must contain valid Unicode"
  end.

Definition try_from_env : outcome string ServerConfig :=
  let* port := parse_env u16_max env "XET_PORT" 8081 in
  let* max_body := parse_env u64_max env "XET_MAX_BODY_SIZE_MB" 2048 in
  let* rpm := parse_env u32_max env "XET_RATE_LIMIT_RPM" 60 in
  let* strict := parse_bool_env "XET_INDEX_REBUILD_STRICT" false in
  let backend := default "local" (var env "XET_STORAGE_BACKEND") in
  let local_path := match var env "XET_LOCAL_PATH" with Some path => Some path | None => if (backend =? "local")%string then Some "./data" else None end in
  let* integrity := parse_bool_env "XET_VERIFY_DOWNLOAD_INTEGRITY" false in
  let* quota := parse_env u64_max env "XET_TEMP_QUOTA_BYTES" (8 * 1024 * 1024 * 1024) in
  let* min_free := parse_env u64_max env "XET_TEMP_MIN_FREE_BYTES" (1024 * 1024 * 1024) in
  ensure negb ((quota =? 0) || (min_free =? 0)) else "XET_TEMP_QUOTA_BYTES and XET_TEMP_MIN_FREE_BYTES must be > 0" in
  let* public_keys := public_keys_from_env in
  let* trusted_kids := trusted_kids_from_env public_keys in
  let* enabled := parse_bool_env "XET_CONVERSION_ENABLED" true in
  let* delete_raw := parse_bool_env "XET_DELETE_RAW_AFTER_CONVERSION" true in
  let* min_size := parse_env u64_max env "XET_MIN_CONVERSION_SIZE" 65536 in
  let* max_size := parse_env u64_max env "XET_MAX_CONVERSION_SIZE" (512 * 1024 * 1024) in
  let* concurrency := parse_env u64_max env "XET_CONVERSION_CONCURRENCY" 1 in
  let* capacity := parse_env u64_max env "XET_CONVERSION_QUEUE_CAPACITY" 128 in
  let* grace := parse_env u64_max env "XET_CONVERSION_SHUTDOWN_GRACE_SECS" 30 in
  let config :=
    mkServerConfig
      (mkSettings (default "127.0.0.1" (var env "XET_HOST")) port (var env "XET_PUBLIC_BASE_URL") max_body rpm strict)
      (mkStorageConfig backend (var env "XET_S3_BUCKET") (var env "XET_S3_REGION") (var env "XET_S3_ENDPOINT") local_path
         (var env "XET_UPLOAD_TEMP_DIR") (var env "XET_RECONSTRUCTION_TEMP_DIR") integrity quota min_free)
      (mkAuthConfig (default "/etc/xet/public-key.pem" (var env "CAS_PUBLIC_KEY_PATH")) public_keys trusted_kids
         (var env "CAS_PRIVATE_KEY_PATH") (var env "CAS_SIGNING_KID"))
      (mkConversion enabled (default "lz4" (var env "XET_CONVERSION_SCHEME")) delete_raw min_size max_size concurrency capacity grace) in
  let* _ := validate_config config in
  Ok config.
End Loading.

(** [check_public_key_permissions]; [mode] is that of the file, if it is there. *)
Definition check_public_key_permissions (path : string) (mode : option Z) : option string :=
  match mode with
  | None => None
  | Some mode =>
      let world_writable := negb (Z.land mode 2 =? 0) in
      let group_writable := negb (Z.land mode 16 =? 0) in
      if world_writable || group_writable then
        let warnings := (if world_writable then ["world-writable (any user can modify)"] else []) ++
                        (if group_writable then ["group-writable (group members can modify)"] else []) in
        Some ("SECURITY WARNING: Public key file '" +:+ path +:+ "' is " +:+ String.concat " and " warnings +:+
              ". An attacker could replace this file to forge authentication tokens. Use a secure path (e.g., /etc/xet/) with mode 0644 or 0600.")
      else None
  end.

(** ** What a loaded configuration is *)
Record cas_valid `{UrlCrate} (c : ServerConfig) : Prop := mkCasValid {
  cv_base_url : forall url, public_base_url (cf_server c) = Some url -> http_url (trim_end_slashes url);
  cv_rpm : rate_limit_rpm (cf_server c) <> 0;
  cv_body : max_body_size_mb (cf_server c) <> 0;
  cv_backend :
    (st_backend (cf_storage c) = "local" /\ missing (st_local_path (cf_storage c)) = false) \/
    (st_backend (cf_storage c) = "s3" /\ missing (st_s3_bucket (cf_storage c)) = false /\
     forall endpoint, st_s3_endpoint (cf_storage c) = Some endpoint -> http_url endpoint);
  cv_temp_dirs : blank_if_set (st_upload_temp_dir (cf_storage c)) = false /\ blank_if_set (st_reconstruction_temp_dir (cf_storage c)) = false;
  cv_quota : st_temp_quota_bytes (cf_storage c) <> 0 /\ st_temp_min_free_bytes (cf_storage c) <> 0;
  cv_auth : CasAuth.validate (cf_auth c) = Ok tt;
  cv_scheme : forall E, @config_scheme E (cf_conversion c) <> Panic;
  cv_workers : cc_concurrency (cf_conversion c) <> 0 /\ cc_queue_capacity (cf_conversion c) <> 0 /\ cc_shutdown_grace_secs (cf_conversion c) <> 0;
  cv_sizes : max_conversion_size (cf_conversion c) <> 0 /\ min_conversion_size (cf_conversion c) <= max_conversion_size (cf_conversion c);
}.

(** The integers of the settings fit their types. *)
Definition cas_in_width (c : ServerConfig) : Prop :=
  0 <= ss_port (cf_server c) <= u16_max /\ 0 <= rate_limit_rpm (cf_server c) <= u32_max /\
  Forall (fun n => 0 <= n <= u64_max)
    [max_body_size_mb (cf_server c); st_temp_quota_bytes (cf_storage c); st_temp_min_free_bytes (cf_storage c); min_conversion_size (cf_conversion c);
     max_conversion_size (cf_conversion c); cc_concurrency (cf_conversion c); cc_queue_capacity (cf_conversion c); cc_shutdown_grace_secs (cf_conversion c)].

Section Facts.
Context `{UrlCrate}.

Lemma validate_base_url_checks s : checks (validate_base_url s) (forall url, public_base_url s = Some url -> http_url (trim_end_slashes url)).
Proof.
  unfold validate_base_url, http_url. destruct (public_base_url s) as [url|]; [|done]. cbn zeta.
  destruct (url_parse (trim_end_slashes url)) as [parsed|] eqn:Ep; cbn; [|intros Hf; destruct (Hf url eq_refl) as (p & Hp & _); congruence].
  destruct (url_host_str parsed) eqn:Eh; [|intros Hf; destruct (Hf url eq_refl) as (p & Hp & Hh & _); congruence].
  destruct (String.eqb_spec (url_scheme parsed) "http") as [Hs|Hs]; cbn [negb andb]; [intros ? [= <-]; exists parsed; rewrite Eh; by eauto|].
  destruct (String.eqb_spec (url_scheme parsed) "https") as [Hs'|Hs']; cbn [negb andb]; [intros ? [= <-]; exists parsed; rewrite Eh; by eauto|].
  intros Hf. destruct (Hf url eq_refl) as (p & Hp & _ & Hsch). rewrite Ep in Hp. injection Hp as <-. by destruct Hsch.
Qed.

Lemma validate_backend_checks st : checks (validate_backend st)
  ((st_backend st = "local" /\ missing (st_local_path st) = false) \/
   (st_backend st = "s3" /\ missing (st_s3_bucket st) = false /\ forall endpoint, st_s3_endpoint st = Some endpoint -> http_url endpoint)).
Proof.
  unfold validate_backend. destruct (String.eqb_spec (st_backend st) "local") as [->|Hl].
  { destruct (missing (st_local_path st)); cbn; [|by left]. by intros [[_ ?]|[? _]]. }
  destruct (String.eqb_spec (st_backend st) "s3") as [->|Hs]; [|by intros [[? _]|[? _]]].
  destruct (missing (st_s3_bucket st)); cbn [negb]; [by intros [[? _]|(_ & ? & _)]|].
  eapply checks_iff; [|apply (checks_option _ (fun url => http_url url)); intros; apply validate_http_url_spec]. naive_solver.
Qed.

Lemma validate_scheme_checks c : checks (validate_scheme c) (forall E, @config_scheme E c <> Panic).
Proof.
  unfold validate_scheme, config_scheme. cbn zeta. destruct (_ =? "none")%string; [done|]. destruct (_ =? "lz4")%string; [done|].
  destruct (_ =? "bg4lz4")%string; [done|]. cbn. intros Hf. by apply (Hf unit).
Qed.

Lemma fold_outcome_no_panic {E A B} (f : B -> A -> outcome E B) l : (forall b a, f b a <> Panic) -> forall b, fold_outcome f b l <> Panic.
Proof. intros Hf. induction l as [|a l IH]; intros b; cbn; [done|]. pose proof (Hf b a). by destruct (f b a). Qed.
Lemma check_public_key_no_panic b key : check_public_key b key <> Panic.
Proof. unfold check_public_key. by repeat case_match. Qed.
Lemma check_trusted_kid_no_panic keys kids b kid : check_trusted_kid keys kids b kid <> Panic.
Proof. unfold check_trusted_kid. by repeat case_match. Qed.

Lemma auth_checks a : checks (CasAuth.validate a) (CasAuth.validate a = Ok tt).
Proof.
  assert (CasAuth.validate a <> Panic) as Hp; [|by destruct (CasAuth.validate a) as [[]| |]].
  unfold CasAuth.validate.
  assert ((match public_keys a with [] => ensure negb (is_blank (public_key_path a)) else "CAS_PUBLIC_KEY_PATH must not be empty in legacy key mode" in Ok ∅
           | keys => fold_outcome check_public_key ∅ keys end) <> (Panic : outcome string (gset string))) as Hk.
  { destruct (public_keys a) as [|k l]; [by destruct (is_blank _)|]. apply fold_outcome_no_panic, check_public_key_no_panic. }
  destruct (match public_keys a with [] => _ | _ => _ end); [|done..]. destruct (negb _); [|done].
  pose proof (fold_outcome_no_panic (check_trusted_kid (public_keys a) a0) (trusted_kids a) (check_trusted_kid_no_panic _ _) ∅).
  destruct (fold_outcome _ _ (trusted_kids a)); [|done..]. destruct (negb _); [|done]. by repeat case_match.
Qed.

Lemma validate_config_checks c : checks (validate_config c) (cas_valid c).
Proof.
  eapply checks_iff; cycle 1.
  - unfold validate_config.
    repeat first
      [ apply checks_seq; [first [apply validate_base_url_checks|apply validate_backend_checks|apply positive_checks|apply auth_checks|apply validate_scheme_checks]|]
      | apply checks_ensure
      | apply checks_done ].
  - rewrite !negb_true_iff, Z.ltb_ge. split.
    + intros (? & ? & ? & ? & ? & ? & ? & ? & ? & ? & ? & ? & ? & ? & ? & _). by constructor.
    + intros [? ? ? ? [] [] ? ? (? & ? & ?) []]. by repeat split.
Qed.

Context (env : environment).

Lemma parse_env_bounds max key base n : 0 <= base <= max -> parse_env max env key base = Ok n -> 0 <= n <= max.
Proof.
  intros Hb Hp. pose proof (parse_env_setting max env key base) as Hs. rewrite Hp in Hs. eapply setting_int_bounds; [|exact Hb|exact Hs]. lia.
Qed.

Lemma try_from_env_valid c : try_from_env env = Ok c -> cas_valid c /\ cas_in_width c.
Proof.
  intros Hl. unfold try_from_env in Hl.
  repeat match type of Hl with
  | (match ?o with Ok _ => _ | Err _ => _ | Panic => _ end) = _ => let E := fresh "E" in destruct o eqn:E; try discriminate Hl
  | (if ?b then _ else _) = _ => destruct b; try discriminate Hl
  end.
  injection Hl as <-. split.
  - match goal with E : validate_config ?r = Ok _ |- _ => pose proof (validate_config_checks r) as Hv; by rewrite E in Hv end.
  - unfold cas_in_width. rewrite !Forall_cons.
    repeat match goal with E : parse_env ?max _ _ _ = Ok _ |- _ => apply (parse_env_bounds max) in E; [|split; [done|by vm_compute]] end.
    repeat (split; [done|]). constructor.
Qed.
End Facts.
