(* ===== verification/CasApi.v ===== *)
(** * The handlers of the CAS server (src/api/)

    A handler is a program: it talks to the storage and to the index one
    operation at a time, so that the operations of concurrent requests can
    interleave ([CasServer]), and ends with a response.  A panic of a handler
    ends the connection without a response.  Metrics and log lines are left
    out; a message is its literal text, without the interpolated values. *)
From S2P Require Import Prelude Bytes Crates MerkleHash Hash Compression Xorb Shard ReconPlan Text Storage Index ShardIo ShardValidation.
From S2P Require Import Reconstruction Quota TokenCrates Tokens CasAuth Scheduler Operations Payload.
From Stdlib Require Import Ascii.

Local Open Scope string_scope.
Local Open Scope list_scope.
Local Open Scope Z_scope.

(** ** Responses *)

Record BatchAction := mkAction { ba_href : string; ba_header : gmap string string; ba_expires_in : Z }.
Record BatchResponseObject := mkBatchObject {
  bo_oid : string;
  bo_size : Z;
  bo_authenticated : bool;
  bo_upload : option BatchAction;
  bo_download : option BatchAction;
  bo_error : option (Z * string);
}.

(** An item of a streamed body. *)
Definition body_item : Type := outcome io_error_kind (list byte).

Inductive body :=
| ErrorBody (msg : string)
| MessageBody (msg : string)
| XorbBody (was_inserted : bool)
| ShardBody (was_inserted : bool) (shard_id : string)
| DedupBody (hash : string) (found : bool) (xorb_hash : option string) (chunk_index : option Z)
| StateBody (state : string) (xet_file_id : option string) (blob_size : Z) (sha256 : string)
| HeadBody (state : string) (xet_file_id : option string) (blob_size : Z)
| ReconstructionBody (file_id : string) (xorbs : list (string * Z)) (fetch_info : gmap string (string * Z))
| BatchBody (transfer : string) (objects : list BatchResponseObject)
| StreamBody (declared : Z) (items : list body_item)
| NoBody.

Record response := mkResponse { rs_status : Z; rs_body : body }.

Definition error (status : Z) (msg : string) : response := mkResponse status (ErrorBody msg).
Definition INTERNAL_ERROR_MESSAGE : string := "Internal server error".
Definition internal_error : response := error 500 INTERNAL_ERROR_MESSAGE.
Definition temporary_unavailable : response := error 503 "Temporary storage unavailable".

(** [AuthReject::respond] and [respond_message]. *)
Definition respond (r : AuthReject) : response := let '(status, msg) := error_parts r in error status msg.
Definition respond_message (r : AuthReject) : response := let '(status, msg) := message_parts r in mkResponse status (MessageBody msg).

(** [StreamPayloadError::error_response]. *)
Definition error_response (e : StreamPayloadError) : response :=
  match e with
  | StPayload _ => error 400 "Invalid upload stream"
  | StTooLarge _ => error 413 "Upload exceeds maximum size"
  | StQuota => temporary_unavailable
  | StWrite _ | StSync _ => internal_error
  end.

(** ** Programs *)
Abbreviation prog := (program response).

(** tokio-util's [ReaderStream]: the pieces in which a file is streamed. *)
Class ReaderStream := reader_stream : list byte -> list (list byte).
Class ReaderStreamLaws `{ReaderStream} : Prop := reader_stream_concat : forall data, concat (reader_stream data) = data.

(** What a handler reads of the configuration. *)
Record AppConfig := mkApp {
  max_body_size_bytes : Z;
  verify_download_integrity : bool;
  temp_quota_bytes : Z;
  temp_min_free_bytes : Z;
  temp_quota : option TempQuotaLedger;
  conversion_enabled : bool;
  base_url : string;
}.

(** What the host answers while an object is streamed to the client. *)
Record stream_host := mkStreamHost { sh_dir_created : bool; sh_space : option Z; sh_open_error : option io_error_kind }.

Section Handlers.
Context `{Blake3, HexCrate, Sha2, Lz4, FileReads, ReaderStream} `{Base64, TokenJson, Ed25519}.
Context (app : AppConfig) (auth : AuthVerifier) (auth_header : option string) (now : option Z).

(** The guard, as the handlers use it. *)
Definition guarded (need : AuthNeed) (reject : AuthReject -> response) (k : XetClaims -> prog) : prog :=
  match require_auth auth_header auth now need with
  | Ok claims => k claims
  | Err rej => Respond (reject rej)
  | Panic => Crash
  end.

(** ** Uploads *)

Definition temp_file_result (host : upload_host) : StorageResult TempFile :=
  match temp_quota app with
  | Some ledger => create_with_ledger host ledger
  | None => create_with_quota host (temp_quota_bytes app) (temp_min_free_bytes app)
  end.

(** The beginning of the three uploads: disk check, temporary file, payload. *)
Definition spool {S} (host : upload_host) (payload : list (outcome string (list byte))) (on_chunk : S -> list byte -> S) (s : S)
    (k : TempFile -> S -> Z -> prog) : prog :=
  let check_bytes := Z.min (max_body_size_bytes app) (100 * 1024 * 1024) in
  match ensure_dir_and_check_space host check_bytes with
  | Err _ => Respond temporary_unavailable
  | Panic => Crash
  | Ok _ =>
      match temp_file_result host with
      | Err Quota => Respond temporary_unavailable
      | Err _ => Respond internal_error
      | Panic => Crash
      | Ok temp_file =>
          let '(temp_file, s, total) := stream_payload_to_temp host on_chunk payload (max_body_size_bytes app) temp_file s in
          match total with
          | Ok total_bytes => k temp_file s total_bytes
          | Err e => Respond (error_response e)
          | Panic => Crash
          end
      end
  end.

(** [TempFile::store]. *)
Definition store_file (temp_file : TempFile) (key : string) (k : StorageResult unit -> prog) : prog := PutFile key (tf_data temp_file) k.

(** [if let Err(e) = ...] of the calls that answer 500. *)
Definition or_internal {A} (r : StorageResult A) (k : A -> prog) : prog :=
  match r with Ok a => k a | Err _ => Respond internal_error | Panic => Crash end.

Definition upload_xorb (host : upload_host) (prefix hash_str : string) (payload : list (outcome string (list byte))) : prog :=
  if negb (prefix =? "default")%string then Respond (error 400 "Invalid prefix, expected 'default'")
  else
    match from_hex hash_str with
    | Err _ => Respond (error 400 "Invalid hash format")
    | Panic => Crash
    | Ok expected_hash =>
        guarded (Scope "write") respond (fun _ =>
        spool host payload (fun s _ => s) tt (fun temp_file _ total_bytes =>
        match verify_xorb_from_file_with_info (tf_data temp_file) with
        | Err _ => Respond (error 400 "Xorb verification failed")
        | Panic => Respond internal_error
        | Ok xorb_info =>
            if negb (bool_decide (vx_xorb_hash xorb_info = expected_hash)) then Respond (error 400 "Hash mismatch")
            else
              let xorb_key := "xorbs/" +:+ to_hex (vx_xorb_hash xorb_info) in
              Exists xorb_key (fun exists_ =>
              or_internal exists_ (fun already_exists =>
              if already_exists : bool then Respond (mkResponse 200 (XorbBody false))
              else store_file temp_file xorb_key (fun stored =>
                   or_internal stored (fun _ => Respond (mkResponse 200 (XorbBody true))))))
        end))
    end.

Definition upload_lfs_object (host : upload_host) (oid : string) (payload : list (outcome string (list byte))) : prog :=
  if negb ((String.length oid =? 64)%nat && all_hexdigits oid)
  then Respond (error 400 "Invalid oid format, expected 64-character hex string")
  else
    guarded (LfsObject Upload oid "Insufficient scope or invalid LFS upload token") respond (fun _ =>
    spool host payload dual_update dual_new (fun temp_file hasher total_bytes =>
    let '(blake3_hash, sha256_hash) := dual_finalize hasher in
    if negb (blake3_hash =? oid)%string && negb (sha256_hash =? oid)%string then Respond (error 400 "Hash mismatch")
    else
      let object_key := "lfs/objects/" +:+ oid in
      Exists object_key (fun exists_ =>
      or_internal exists_ (fun already_exists =>
      if already_exists : bool then Respond (mkResponse 200 (MessageBody "Object already exists"))
      else store_file temp_file object_key (fun stored =>
           or_internal stored (fun _ => Respond (mkResponse 200 (MessageBody "Object uploaded successfully")))))))).

(** The end of a shard upload: validation, then the registration. *)
Definition validated (shard_id : string) (shard : MDBShardFile) (k : VerifiedShardRegistration -> prog) : prog :=
  Read (fun storage =>
  match validate_shard_for_index shard_id shard storage with
  | Ok registration => k registration
  | Err _ => Respond (error 400 "Shard validation failed")
  | Panic => Crash
  end).
Definition registered (registration : VerifiedShardRegistration) (was_inserted : bool) (shard_id : string) : prog :=
  Register registration (fun answer =>
  match answer with
  | Ok _ => Respond (mkResponse 200 (ShardBody was_inserted shard_id))
  | Err _ => Respond (error 409 "Metadata index conflict")
  | Panic => Crash
  end).

Definition existing_shard_error (e : ShardIoError) : response :=
  match e with
  | ShardParse _ (IoError _) => internal_error
  | ShardParse _ _ => error 400 "Invalid existing shard format"
  | _ => internal_error
  end.

Definition upload_shard (host : upload_host) (payload : list (outcome string (list byte))) : prog :=
  guarded (Scope "write") respond (fun _ =>
  spool host payload streaming_update streaming_new (fun temp_file hasher total_bytes =>
  match parse_from_file (tf_data temp_file) with
  | Err _ => Respond (error 400 "Invalid shard format")
  | Panic => Respond internal_error
  | Ok shard =>
      let shard_id := to_hex (streaming_finalize hasher) in
      let shard_key := "shards/" +:+ shard_id in
      Exists shard_key (fun exists_ =>
      or_internal exists_ (fun already_exists =>
      if already_exists : bool then
        Read (fun storage =>
        match parse_shard_from_storage storage shard_key with
        | Err e => Respond (existing_shard_error e)
        | Panic => Crash
        | Ok stored_shard =>
            if negb (ms_hash stored_shard =? shard_id)%string
            then Respond (error 400 "Existing shard content does not match requested shard id")
            else validated shard_id stored_shard (fun registration => registered registration false shard_id)
        end)
      else
        validated shard_id shard (fun registration =>
        store_file temp_file shard_key (fun stored =>
        or_internal stored (fun _ => registered registration true shard_id)))))
  end)).

(** ** Downloads *)

(** [download_to_temp_stream] (src/util/download_stream.rs): the object, of the
    size the backend declares, in a temporary file that is streamed. *)
Definition download_to_temp_stream (host : stream_host) (key : string) (k : StorageResult (Z * list byte) -> prog) : prog :=
  if negb (sh_dir_created host) then k (Err (Storage.Internal "Failed to create download temp directory"))
  else
    Size key (fun expected =>
    match expected with
    | Err e => k (Err e)
    | Panic => Crash
    | Ok expected_size =>
        match check_disk_space (sh_space host) expected_size with
        | Err _ => k (Err (Storage.Internal "Insufficient disk space"))
        | Panic => Crash
        | Ok _ =>
            Read (fun storage =>
            match download_to_path storage key 1 with
            | Err e => k (Err e)
            | Panic => Crash
            | Ok data =>
                match sh_open_error host with
                | Some _ => k (Err (Storage.Internal "Failed to open downloaded object"))
                | None => if len data =? expected_size then k (Ok (len data, data))
                          else k (Err (Storage.Internal "Downloaded object size mismatch"))
                end
            end)
        end
    end).

(** What opening a local object gives: its content, that it is gone, or a failure. *)
Inductive opened := Opened (content : list byte) | Gone | OpenFailed.
Definition open_object (host : stream_host) (path : path_content) : opened :=
  match sh_open_error host with
  | Some NotFoundIo => Gone
  | Some _ => OpenFailed
  | None => match path with Some content => Opened content | None => Gone end
  end.

Definition stream_items (content : list byte) : list body_item := map (fun piece => Ok piece) (reader_stream content).

Definition download_xorb (host : stream_host) (prefix hash_str : string) : prog :=
  if negb (prefix =? "default")%string then Respond (error 400 "Invalid prefix, expected 'default'")
  else
    match from_hex hash_str with
    | Err _ => Respond (error 400 "Invalid hash format")
    | Panic => Crash
    | Ok xorb_hash =>
        guarded (Scope "read") respond (fun _ =>
        let xorb_key := "xorbs/" +:+ to_hex xorb_hash in
        let streamed content := Respond (mkResponse 200 (StreamBody (len content) (stream_items content))) in
        Read (fun storage =>
        match get_path storage xorb_key 1 with
        | Ok (Some path) =>
            match open_object host path with
            | Opened content => streamed content
            | Gone => Respond (error 404 "Xorb not found")
            | OpenFailed => Respond internal_error
            end
        | Ok None =>
            download_to_temp_stream host xorb_key (fun download =>
            match download with
            | Ok (_, content) => streamed content
            | Err (NotFound _) => Respond (error 404 "Xorb not found")
            | Err _ => Respond internal_error
            | Panic => Crash
            end)
        | Err (NotFound _) => Respond (error 404 "Xorb not found")
        | Err _ => Respond internal_error
        | Panic => Crash
        end))
    end.

(** [IntegrityVerifyingStream]: the stream with an error at its end if the
    SHA-256 of what went by is not the object id. *)
Fixpoint integrity_verifying_stream (expected_oid : string) (hasher : sha256_hasher) (inner : list body_item) : list body_item :=
  match inner with
  | Ok chunk :: inner => Ok chunk :: integrity_verifying_stream expected_oid (sha256_update hasher chunk) inner
  | e :: inner => e :: integrity_verifying_stream expected_oid hasher inner
  | [] => if (hex_encode (sha256_finalize hasher) =? expected_oid)%string then [] else [Err InvalidData]
  end.

Inductive RawBlobResult := Served (r : response) | Missing | RawError (r : response).

Definition serve_raw_blob (host : stream_host) (oid : string) (k : RawBlobResult -> prog) : prog :=
  let object_key := "lfs/objects/" +:+ oid in
  let served content :=
    let base_stream := stream_items content in
    let items := if verify_download_integrity app then integrity_verifying_stream oid sha256_new base_stream else base_stream in
    Served (mkResponse 200 (StreamBody (len content) items)) in
  Read (fun storage =>
  match get_path storage object_key 1 with
  | Ok (Some path) =>
      match open_object host path with
      | Opened content => k (served content)
      | Gone => k Missing
      | OpenFailed => k (RawError internal_error)
      end
  | Ok None =>
      download_to_temp_stream host object_key (fun download =>
      match download with
      | Ok (_, content) => k (served content)
      | Err (NotFound _) => k Missing
      | Err _ => k (RawError internal_error)
      | Panic => Crash
      end)
  | Err (NotFound _) => k Missing
  | Err _ => k (RawError internal_error)
  | Panic => Crash
  end).

Definition serve_verified_xet_reconstruction (host : stream_host) (oid : string) (file_refs : list FileShardRef) : prog :=
  Read (fun storage =>
  match reconstruct_verified_file_to_temp oid file_refs storage with
  | Err e => Respond (if is_stale e then error 404 "Object not found" else internal_error)
  | Panic => Crash
  | Ok reconstruction =>
      match sh_open_error host with
      | Some _ => Respond internal_error
      | None => Respond (mkResponse 200 (StreamBody (rec_size reconstruction) (stream_items (rec_content reconstruction))))
      end
  end).

Definition download_lfs_object (raw_host rec_host : stream_host) (oid : string) : prog :=
  match from_hex oid with
  | Err _ => Respond (error 400 "Invalid oid format, expected 64-character hex string")
  | Panic => Crash
  | Ok oid_hash =>
      guarded (LfsObject Download oid "Insufficient scope or invalid LFS download token") respond (fun _ =>
      let from_index :=
        Query (fun index =>
        match get_file_refs index oid_hash with
        | Some file_refs => serve_verified_xet_reconstruction rec_host oid file_refs
        | None => Respond (error 404 "Object not found")
        end) in
      Exists ("lfs/objects/" +:+ oid) (fun exists_ =>
      match exists_ with
      | Ok true =>
          serve_raw_blob raw_host oid (fun raw =>
          match raw with
          | Served response =>
              if conversion_enabled app then Enqueue oid (fun _ => Respond response) else Respond response
          | Missing => from_index
          | RawError response => Respond response
          end)
      | Ok false => from_index
      | Err _ => Respond internal_error
      | Panic => Crash
      end))
  end.

(** ** Queries *)

(** Fetching the shard of one reference and planning the file: the xorbs the
    client has to fetch, each once, in the order of the shard. *)
Definition list_xorbs (shard : MDBShardFile) (plan : PlannedFile) : list (string * Z) * gmap string (string * Z) :=
  let planned_xorbs : gset string := list_to_set (map (fun chunk => to_hex (pc_xorb_hash chunk)) (pf_chunks plan)) in
  let '(xorbs, fetch_info, _) :=
    fold_left (fun st xorb_entry =>
      let '(xorbs, fetch_info, seen_xorbs) := st in
      let xorb_hash := to_hex (xh_xorb_hash xorb_entry) in
      if negb (bool_decide (xorb_hash ∈ planned_xorbs)) then st
      else
        let xorb_size := xh_num_bytes_in_xorb xorb_entry in
        let storage_path := "xorbs/" +:+ xorb_hash in
        if bool_decide (xorb_hash ∈ (seen_xorbs : gset string)) then st
        else (xorbs ++ [(xorb_hash, xorb_size)], <[xorb_hash := (storage_path, xorb_size)]> fetch_info, {[xorb_hash]} ∪ seen_xorbs))
    (ms_xorb_entries shard) ([], ∅, ∅) in
  (xorbs, fetch_info).

Fixpoint plan_candidates (file_id : string) (target_hash : MerkleHash) (file_refs : list FileShardRef) : prog :=
  match file_refs with
  | [] => Respond internal_error
  | file_ref :: file_refs =>
      Read (fun storage =>
      match parse_shard_from_storage storage ("shards/" +:+ fr_shard_id file_ref) with
      | Err _ => plan_candidates file_id target_hash file_refs
      | Panic => Crash
      | Ok shard =>
          match build_file_chunk_plan shard target_hash (Some (fr_file_index file_ref)) with
          | Err _ => plan_candidates file_id target_hash file_refs
          | Panic => Crash
          | Ok plan =>
              let '(xorbs, fetch_info) := list_xorbs shard plan in
              Respond (mkResponse 200 (ReconstructionBody file_id xorbs fetch_info))
          end
      end)
  end.

Definition get_reconstruction (file_id : string) : prog :=
  guarded (ScopeMsg "read" "Insufficient scope, 'read' required") respond (fun _ =>
  if negb ((String.length file_id =? 64)%nat && all_hexdigits file_id)
  then Respond (error 400 "Invalid file_id format, expected 64-character hex string")
  else
    match from_hex file_id with
    | Err _ => Respond (error 400 "Invalid file_id format, expected 64-character hex string")
    | Panic => Crash
    | Ok target_hash =>
        Query (fun index =>
        match get_file_refs index target_hash with
        | None | Some [] => Respond (error 404 "File not found")
        | Some file_refs => plan_candidates file_id target_hash file_refs
        end)
    end).

Definition query_chunk_dedup (prefix hash : string) : prog :=
  guarded (ScopeMsg "read" "Insufficient scope, 'read' required") respond (fun _ =>
  if negb (prefix =? "default")%string then Respond (error 400 "Invalid prefix, expected 'default'")
  else
    match from_hex hash with
    | Err _ => Respond (error 400 "Invalid hash format, expected 64-character hex string")
    | Panic => Crash
    | Ok chunk_hash =>
        let not_found := mkResponse 200 (DedupBody hash false None None) in
        Query (fun index =>
        match get_xorb_for_chunk index chunk_hash with
        | Some (xorb_hash, chunk_index) =>
            Exists ("xorbs/" +:+ to_hex xorb_hash) (fun exists_ =>
            or_internal exists_ (fun here =>
            Respond (if here : bool then mkResponse 200 (DedupBody hash true (Some (to_hex xorb_hash)) (Some chunk_index)) else not_found)))
        | None => Respond not_found
        end)
    end).

(** The two internal queries share the lookups; [head] tells them apart. *)
Definition blob_lookup (head : bool) (oid : string) : prog :=
  let not_found := if head then mkResponse 404 NoBody else error 404 "Blob not found" in
  let failed := if head then mkResponse 500 NoBody else internal_error in
  let found state file_id n := Respond (mkResponse 200 (if head then HeadBody state file_id n else StateBody state file_id n oid)) in
  match from_hex oid with
  | Err _ => Respond (error 400 "Invalid oid format, expected 64-character hex string")
  | Panic => Crash
  | Ok oid_hash =>
      guarded (NeedInternal "Internal endpoint requires internal token type and scope") respond (fun _ =>
      Query (fun index =>
      match get_file_size index oid_hash with
      | Some n => found "xet_only" (Some oid) n
      | None =>
          Size ("lfs/objects/" +:+ oid) (fun answer =>
          match answer with
          | Ok n => found "raw_only" None n
          | Err (NotFound _) => Respond not_found
          | Err _ => Respond failed
          | Panic => Crash
          end)
      end))
  end.
Definition get_blob_state : string -> prog := blob_lookup false.
Definition head_blob : string -> prog := blob_lookup true.

(** ** The LFS batch API (src/api/batch.rs) *)
Definition MAX_BATCH_SIZE : nat := 1000.

Record BatchRequest := mkBatch { br_operation : string; br_transfers : option (list string); br_objects : list (string * Z) }.

Definition batch_failed (oid : string) (size code : Z) (msg : string) : BatchResponseObject :=
  mkBatchObject oid size false None None (Some (code, msg)).

Definition batch_object (claims : XetClaims) (token : string) (caller_expires_in : Z) (operation : string) (obj : string * Z)
  : BatchResponseObject :=
  let '(oid, size) := obj in
  if negb ((String.length oid =? 64)%nat && all_hexdigits oid)
  then batch_failed oid size 422 "Invalid OID format: expected 64-character hex string"
  else
    let action_token :=
      if can_sign_proxy_tokens auth then
        match sign_proxy_token auth now (sub claims) oid operation with
        | Some proxy => Some (p_token proxy, p_expires_in proxy)
        | None => None
        end
      else Some (token, caller_expires_in) in
    match action_token with
    | None => batch_failed oid size 500 "Internal error: failed to generate action token"
    | Some (auth_token_for_action, action_expires_in) =>
        let url := base_url app +:+ "/lfs/objects/" +:+ oid in
        let bearer : gmap string string := <["Authorization" := "Bearer " +:+ auth_token_for_action]> ∅ in
        if (operation =? "upload")%string then
          mkBatchObject oid size true
            (Some (mkAction url (<["Content-Type" := "application/octet-stream"]> bearer) action_expires_in)) None None
        else if (operation =? "download")%string then
          mkBatchObject oid size true None (Some (mkAction url bearer action_expires_in)) None
        else batch_failed oid size 400 "Unknown operation"
    end.

Definition batch_operation (rq : BatchRequest) : prog :=
  let bad_request msg := Respond (mkResponse 400 (MessageBody msg)) in
  let required_scope :=
    if (br_operation rq =? "upload")%string then Some "write"
    else if (br_operation rq =? "download")%string then Some "read" else None in
  match required_scope with
  | None => bad_request "Unknown operation"
  | Some required_scope =>
      if (MAX_BATCH_SIZE <? length (br_objects rq))%nat then bad_request "Too many objects"
      else if match br_transfers rq with
              | Some transfers => negb (bool_decide (transfers = [])) && negb (existsb (String.eqb "basic") transfers)
              | None => false
              end
      then bad_request "Unsupported transfer protocol"
      else
        guarded (Scope required_scope) respond_message (fun claims =>
        let token := default "" (extract_token_from_request auth_header) in
        let now_secs := default 0 now in
        let caller_expires_in := Z.max (saturating_sub (exp claims) now_secs) 1 in
        Respond (mkResponse 200 (BatchBody "basic"
          (map (batch_object claims token caller_expires_in (br_operation rq)) (br_objects rq)))))
  end.
End Handlers.

(** ** Requests *)
Inductive request :=
| UploadXorb (host : upload_host) (prefix hash_str : string) (payload : list (outcome string (list byte)))
| UploadShard (host : upload_host) (payload : list (outcome string (list byte)))
| UploadLfs (host : upload_host) (oid : string) (payload : list (outcome string (list byte)))
| DownloadXorb (host : stream_host) (prefix hash_str : string)
| DownloadLfs (raw_host rec_host : stream_host) (oid : string)
| GetReconstruction (file_id : string)
| QueryDedup (prefix hash : string)
| GetBlobState (oid : string)
| HeadBlob (oid : string)
| Batch (rq : BatchRequest).

Definition handle `{Blake3, HexCrate, Sha2, Lz4, FileReads, ReaderStream, Base64, TokenJson, Ed25519}
    (app : AppConfig) (auth : AuthVerifier) (auth_header : option string) (now : option Z) (rq : request) : prog :=
  match rq with
  | UploadXorb host prefix hash_str payload => upload_xorb app auth auth_header now host prefix hash_str payload
  | UploadShard host payload => upload_shard app auth auth_header now host payload
  | UploadLfs host oid payload => upload_lfs_object app auth auth_header now host oid payload
  | DownloadXorb host prefix hash_str => download_xorb auth auth_header now host prefix hash_str
  | DownloadLfs raw_host rec_host oid => download_lfs_object app auth auth_header now raw_host rec_host oid
  | GetReconstruction file_id => get_reconstruction auth auth_header now file_id
  | QueryDedup prefix hash => query_chunk_dedup auth auth_header now prefix hash
  | GetBlobState oid => get_blob_state auth auth_header now oid
  | HeadBlob oid => head_blob auth auth_header now oid
  | Batch rq => batch_operation app auth auth_header now rq
  end.
