(* ===== verification/CasServer.v ===== *)
(** * The CAS server as a whole: concurrent requests and conversions

    The state is the storage and the index.  Requests and conversions of enqueued
    objects run at the same time, each one operation at a time, in any order; a
    read of objects sees, for every object, some state of the storage since the
    previous operation of the program that reads.  A request whose connection is
    lost, or a conversion that its worker drops at the end of a shutdown, takes no
    further step.  The storage is any backend that satisfies the laws of
    [ObjectStore]. *)
From S2P Require Import Prelude Bytes Crates MerkleHash Hash Cdc Compression Xorb XorbBuilder Shard ReconPlan Text Storage Index ShardIo ObjectStore.
From S2P Require Import ShardValidation.
From Stdlib Require Import Ascii.
From S2P Require Import Rebuild Reconstruction Quota TokenCrates Tokens CasAuth Scheduler Operations Conversion Converted Payload CasApi.

Local Open Scope string_scope.
Local Open Scope list_scope.
Local Open Scope Z_scope.

(** The hex crate decodes strings of hexadecimal digits only. *)
Class HexDigitsLaw `{HexCrate} : Prop := hex_decode_digits : forall s bs, hex_decode s = Some bs -> all_hexdigits s = true.

(** What the configuration and the payloads of requests satisfy. *)
Definition app_ok (a : AppConfig) : Prop :=
  0 <= max_body_size_bytes a <= u64_max /\ 0 <= temp_quota_bytes a <= u64_max /\ (forall l, temp_quota a = Some l -> ledger_ok l).
Definition payload_of (rq : request) : list (outcome string (list byte)) :=
  match rq with UploadXorb _ _ _ payload | UploadShard _ payload | UploadLfs _ _ payload => payload | _ => [] end.
Definition request_ok (rq : request) : Prop := Panic ∉ payload_of rq.

Section Server.
Context `{Blake3, HexCrate, Sha2, Lz4, GearHash, FileReads, ReaderStream, ObjectStore} `{Base64, TokenJson, Ed25519}.

(** [sv_past] are the states the storage has had, the newest first. *)
Record server := mkServer {
  sv_past : list store;
  sv_store : store;
  sv_index : MetadataIndex;
  sv_queue : gset string;
}.
Definition set_store (s : server) (st : store) : server := mkServer (sv_store s :: sv_past s) st (sv_index s) (sv_queue s).
Definition set_index (s : server) (index : MetadataIndex) : server := mkServer (sv_past s) (sv_store s) index (sv_queue s).
Definition enqueue (s : server) (oid : string) (answer : option EnqueueResult) : server :=
  match answer with
  | Some Accepted => mkServer (sv_past s) (sv_store s) (sv_index s) ({[oid]} ∪ sv_queue s)
  | _ => s
  end.
(** A worker takes the object from the queue. *)
Definition dequeue (s : server) (oid : string) : server := mkServer (sv_past s) (sv_store s) (sv_index s) (sv_queue s ∖ {[oid]}).

(** The answers of [view] are those of the given states. *)
Definition observes (states : list store) (view : StorageView) : Prop :=
  forall key n, (exists st, st ∈ states /\ get_path view key n = get_path (reads st) key n) /\
    (exists st, st ∈ states /\ download_to_path view key n = download_to_path (reads st) key n).

(** A program under way, and how many past states there were when it made its
    last operation. *)
Record thread (A : Type) := mkThread { th_prog : program A; th_since : nat }.
Arguments mkThread {A}.
Arguments th_prog {A}.
Arguments th_since {A}.
Definition states_since (s : server) (n : nat) : list store := sv_store s :: take (length (sv_past s) - n) (sv_past s).

(** One operation of a program.  The index may be any at each of the lookups of
    [Queries]: a superset of what can happen, from which only a count follows. *)
Inductive prog_step {A} (s : server) (since : nat) : program A -> server -> program A -> Prop :=
| p_exists key k : prog_step s since (Exists key k) s (k (st_exists (sv_store s) key))
| p_size key k : prog_step s since (Size key k) s (k (st_get_size (sv_store s) key))
| p_read k view : observes (states_since s since) view -> prog_step s since (Read k) s (k view)
| p_put_file key data k st answer : st_put_from_path (sv_store s) key data = (st, answer) ->
    prog_step s since (PutFile key data k) (set_store s st) (k answer)
| p_put key data k st answer : st_put (sv_store s) key data = (st, answer) -> prog_step s since (Put key data k) (set_store s st) (k answer)
| p_delete key k st answer : st_delete (sv_store s) key = (st, answer) -> prog_step s since (Delete key k) (set_store s st) (k answer)
| p_query k : prog_step s since (Query k) s (k (sv_index s))
| p_queries k indexes : prog_step s since (Queries k) s (k indexes)
| p_register registration k index answer : register_verified_shard (sv_index s) registration = (index, answer) ->
    prog_step s since (Register registration k) (set_index s index) (k answer)
| p_enqueue oid k answer : prog_step s since (Enqueue oid k) (enqueue s oid answer) (k answer).

(** A listing of stored shards: it may stop early and may miss some. *)
Definition listing_of (st : store) (items : list (StorageResult string)) : Prop :=
  forall key, Ok key ∈ items -> exists name, key = "shards/" +:+ name /\ all_hexdigits name = true /\ name <> "" /\
    st_exists st key = Ok true.

(** The requests that were made, and the conversions that were started, with
    what they run; what has ended is kept. *)
Record system := mkSystem {
  sys_server : server;
  sys_requests : list (request * thread response);
  sys_conversions : list (string * thread (outcome ConversionError ConversionResult));
}.

Context (config : ConversionConfig).

Inductive step : system -> system -> Prop :=
| step_request s requests conversions app auth auth_header now rq :
    app_ok app -> request_ok rq ->
    step (mkSystem s requests conversions)
      (mkSystem s (requests ++ [(rq, mkThread (handle app auth auth_header now rq) (length (sv_past s)))]) conversions)
| step_thread s requests conversions i rq th s' p' :
    requests !! i = Some (rq, th) -> prog_step s (th_since th) (th_prog th) s' p' ->
    step (mkSystem s requests conversions) (mkSystem s' (<[i := (rq, mkThread p' (length (sv_past s')))]> requests) conversions)
| step_convert s requests conversions oid available ledger :
    oid ∈ sv_queue s ->
    step (mkSystem s requests conversions)
      (mkSystem (dequeue s oid) requests
         (conversions ++ [(oid, mkThread (convert_steps config available ledger oid) (length (sv_past s)))]))
| step_converting s requests conversions i oid th s' p' :
    conversions !! i = Some (oid, th) -> prog_step s (th_since th) (th_prog th) s' p' ->
    step (mkSystem s requests conversions) (mkSystem s' requests (<[i := (oid, mkThread p' (length (sv_past s')))]> conversions))
| step_restart s requests conversions views items index answer :
    (forall n, observes [sv_store s] (views n)) -> listing_of (sv_store s) items ->
    rebuild_from_storage views index_new items = Some (index, answer) ->
    step (mkSystem s requests conversions) (mkSystem (mkServer (sv_past s) (sv_store s) index ∅) [] []).

(** A system whose server was just started on a storage. *)
Definition started (st : store) : system := mkSystem (mkServer [] st index_new ∅) [] [].
End Server.
Arguments mkThread {A}.
Arguments th_prog {A}.
Arguments th_since {A}.

(** ** Specification *)

(** An object id is a supported hash of a content. *)
Definition names `{Blake3, HexCrate, Sha2} (oid : string) (content : list byte) : Prop :=
  exists h raws, from_hex oid = Ok h /\ content = concat raws /\ whole_file_hash h raws.

(** What may be stored under a key of the server: a xorb or a shard under its
    hash, a blob under its object id. *)
Definition genuine `{Blake3, HexCrate, Sha2} (key : string) (data : list byte) : Prop :=
  addressed key data \/
  exists oid, key = blob_key oid /\ (oid = to_hex (compute_data_hash data) \/ oid = hex_encode (sha256_digest data)).

Definition oid_ok (oid : string) : Prop := all_hexdigits oid = true /\ oid <> "".

(** Objects that are never deleted. *)
Definition kept_key (key : string) : Prop := server_key key /\ exists name, key = "xorbs/" +:+ name \/ key = "shards/" +:+ name.

Section Spec.
Context `{Blake3, HexCrate, Sha2, Lz4, GearHash, FileReads, ReaderStream, StoreLaws} `{Base64, TokenJson, Ed25519}.

Definition store_genuine (st : store) : Prop :=
  store_ok st /\ forall key data, server_key key -> contents st key = Some data -> genuine key data.
Definition has (st : store) (key : string) : Prop := is_Some (contents st key).
Definition keeps (st st' : store) : Prop := forall key, kept_key key -> has st key -> has st' key.

(** Chunk [i] of a xorb with hash [x] has the raw hash [h]; a xorb with this
    hash is stored. *)
Definition chunk_true (st : store) (h x : MerkleHash) (i : Z) : Prop :=
  has st (xorb_key x) /\ exists ps raw, xorb_hash (part_nodes ps) = x /\ chunk_content ps i raw /\ compute_data_hash raw = h.
Definition size_true (h : MerkleHash) (size : Z) : Prop := exists raws, whole_file_hash h raws /\ size = len (concat raws).

Definition registration_true (st : store) (reg : VerifiedShardRegistration) : Prop :=
  oid_ok (vr_shard_id reg) /\ has st ("shards/" +:+ vr_shard_id reg) /\
  (forall f, f ∈ vr_files reg -> size_true (vf_file_hash f) (vf_file_size f)) /\
  (forall c, c ∈ vr_chunks reg -> chunk_true st (vm_chunk_hash c) (vm_xorb_hash c) (vm_chunk_index c)).
Definition index_true (st : store) (index : MetadataIndex) : Prop :=
  exists log, represents index log /\ Forall (registration_true st) log.

(** The invariant of the server. *)
Definition server_inv (s : server) : Prop :=
  store_genuine (sv_store s) /\ Forall (fun st => store_genuine st /\ keeps st (sv_store s)) (sv_past s) /\ index_true (sv_store s) (sv_index s) /\
  forall oid, oid ∈ sv_queue s -> oid_ok oid.

(** An uploaded object is in the storage or in the index. *)
Definition available (s : server) (oid : string) : Prop :=
  (oid_ok oid /\ has (sv_store s) (blob_key oid)) \/ exists h r, from_hex oid = Ok h /\ r ∈ default [] (get_file_refs (sv_index s) h).

(** What never goes away while the server runs. *)
Definition evolves (s s' : server) : Prop :=
  (exists new, sv_store s' :: sv_past s' = new ++ sv_store s :: sv_past s /\ Forall (keeps (sv_store s)) new) /\
  (forall h r, r ∈ default [] (get_file_refs (sv_index s) h) -> r ∈ default [] (get_file_refs (sv_index s') h)) /\
  (forall oid, available s oid -> available s' oid).

(** An object that the index knows as a file. *)
Definition indexed (s : server) (oid : string) : Prop := exists h r, from_hex oid = Ok h /\ r ∈ default [] (get_file_refs (sv_index s) h).

(** A program whose operations keep the invariant and whose result is [good],
    from state [s] on and whatever the other programs do in between. *)
Fixpoint safe {A} (good : server -> A -> Prop) (s : server) (p : program A) : Prop :=
  forall s', server_inv s' -> evolves s s' ->
  match p with
  | Respond r => good s' r
  | Crash => False
  | Exists key k => server_key key /\ safe good s' (k (st_exists (sv_store s') key))
  | Size key k => server_key key /\ safe good s' (k (st_get_size (sv_store s') key))
  | Read k => forall view, observes (states_since s' (length (sv_past s))) view -> safe good s' (k view)
  | PutFile key data k => server_key key /\ len data < 2 ^ 64 /\ genuine key data /\
      forall st answer, st_put_from_path (sv_store s') key data = (st, answer) -> safe good (set_store s' st) (k answer)
  | Put key data k => server_key key /\ len data < 2 ^ 64 /\ genuine key data /\
      forall st answer, st_put (sv_store s') key data = (st, answer) -> safe good (set_store s' st) (k answer)
  | Delete key k => (exists oid, key = blob_key oid /\ oid_ok oid /\ indexed s' oid) /\
      forall st answer, st_delete (sv_store s') key = (st, answer) -> safe good (set_store s' st) (k answer)
  | Query k => safe good s' (k (sv_index s'))
  | Queries k => forall indexes, safe good s' (k indexes)
  | Register registration k => registration_true (sv_store s') registration /\
      forall index answer, register_verified_shard (sv_index s') registration = (index, answer) ->
        safe good (set_index s' index) (k answer)
  | Enqueue oid k => oid_ok oid /\ forall answer, safe good (enqueue s' oid answer) (k answer)
  end.
End Spec.

(** ** Lemmas: what persists *)
Section Evolution.
Context `{Blake3Laws, HexLaws, Sha2Laws, Lz4Laws, GearLaws, FileReadsLaws, ReaderStream, StoreLaws} `{Base64, TokenJson, Ed25519}.

Lemma keeps_refl st : keeps st st.
Proof. by intros key Hk Hh. Qed.
Lemma keeps_trans st1 st2 st3 : keeps st1 st2 -> keeps st2 st3 -> keeps st1 st3.
Proof. intros K1 K2 key Hk Hh. auto. Qed.

Lemma kept_xorb x : kept_key (xorb_key x).
Proof. split; [|eexists; by left]. apply hex_key. unfold object_dirs. set_solver. Qed.

Lemma kept_shard name : oid_ok name -> kept_key ("shards/" +:+ name).
Proof.
  intros [Hd Hn]. split; [|eexists; by right]. exists "shards/", name. split; [unfold object_dirs; set_solver|done].
Qed.

Lemma kept_not_blob key oid : kept_key key -> key <> blob_key oid.
Proof.
  intros [_ [name [-> | ->]]]; unfold blob_key; apply dir_keys_differ; unfold object_dirs; try set_solver; done.
Qed.

Lemma evolves_refl s : evolves s s.
Proof. split; [by exists []|]. by split. Qed.

Lemma evolves_current s s' : evolves s s' -> keeps (sv_store s) (sv_store s').
Proof.
  intros [(new & E & Hk) _]. destruct new as [|st new]; [injection E as -> _; apply keeps_refl|]. injection E as -> _. by inversion Hk.
Qed.

Lemma evolves_trans s1 s2 s3 : evolves s1 s2 -> evolves s2 s3 -> evolves s1 s3.
Proof.
  intros Hev [(new2 & E2 & K2) [R2 A2]]. pose proof (evolves_current _ _ Hev) as Hc. destruct Hev as [(new1 & E1 & K1) [R1 A1]].
  split; [|split; auto]. exists (new2 ++ new1). rewrite E2, E1, app_assoc. split; [done|]. apply Forall_app. split; [|done].
  eapply Forall_impl; [exact K2|]. intros st Hst. by eapply keeps_trans.
Qed.

(** The states a read may see keep what was there before it. *)
Lemma states_since_spec s s' : evolves s s' ->
  exists new, states_since s' (length (sv_past s)) = new ++ [sv_store s] /\ sv_store s' :: sv_past s' = new ++ sv_store s :: sv_past s /\
    Forall (keeps (sv_store s)) new.
Proof.
  intros [(new & E & Hk) _]. exists new. split; [|done]. unfold states_since. destruct new as [|st new]; injection E as -> ->.
  - by rewrite Nat.sub_diag.
  - rewrite length_app. cbn [length app]. f_equal. rewrite take_app. f_equal; [by rewrite take_ge by lia|].
    replace (length new + S (length (sv_past s)) - length (sv_past s) - length new)%nat with 1%nat by lia. cbn. by rewrite take_0.
Qed.

Lemma states_genuine s n st : server_inv s -> st ∈ states_since s n -> store_genuine st /\ keeps st (sv_store s).
Proof.
  intros (Hs & Hp & _) Hin. unfold states_since in Hin. apply elem_of_cons in Hin as [-> |Hin]; [split; [done|apply keeps_refl]|].
  rewrite Forall_forall in Hp. apply Hp. rewrite <- (take_drop (length (sv_past s) - n) (sv_past s)). apply elem_of_app. by left.
Qed.

(** The past of a server whose storage changes. *)
Lemma past_change s st :
  server_inv s -> keeps (sv_store s) st -> Forall (fun st0 => store_genuine st0 /\ keeps st0 st) (sv_store s :: sv_past s).
Proof.
  intros (Hg & Hp & _) Hk. constructor; [done|]. eapply Forall_impl; [exact Hp|]. intros st0 [H1' H2']. split; [done|].
  by eapply keeps_trans.
Qed.

Lemma blob_server_key oid : oid_ok oid -> server_key (blob_key oid).
Proof. intros [Hd Hn]. exists "lfs/objects/", oid. split; [unfold object_dirs; set_solver|done]. Qed.

Lemma registration_true_keeps st st' reg : keeps st st' -> registration_true st reg -> registration_true st' reg.
Proof.
  intros Hk (Hid & Hs & Hf & Hc). split; [done|]. split; [by apply Hk; [apply kept_shard|]|]. split; [done|]. intros c Hin.
  destruct (Hc c Hin) as [Hx Hps]. split; [|done]. apply Hk; [apply kept_xorb|done].
Qed.

Lemma index_true_keeps st st' index : keeps st st' -> index_true st index -> index_true st' index.
Proof.
  intros Hk (log & Hr & Hl). exists log. split; [done|]. eapply Forall_impl; [exact Hl|]. intros reg. by apply registration_true_keeps.
Qed.

(** A write of a genuine object. *)
Lemma write_keeps st st' key d r :
  writes (contents st) (contents st') key (Some d) r -> forall key', server_key key' -> has st key' -> has st' key'.
Proof.
  intros (_ & _ & Hk & Ho) key' Hsk Hh. unfold has in *. destruct (decide (key' = key)) as [->|Hne].
  - destruct Hk as [-> | ->]; [done|by eexists].
  - by rewrite Ho.
Qed.

Lemma write_genuine st st' key d r :
  store_genuine st -> server_key key -> genuine key d -> store_ok st' -> writes (contents st) (contents st') key (Some d) r ->
  store_genuine st'.
Proof.
  intros [_ Hg] Hsk Hd Hok (_ & _ & Hk & Ho). split; [done|]. intros key' d' Hsk' Hc. destruct (decide (key' = key)) as [->|Hne].
  - destruct Hk as [E|E]; rewrite E in Hc; [by apply Hg|by injection Hc as <-].
  - rewrite Ho in Hc by done. by apply Hg.
Qed.

Lemma set_store_evolves s st :
  (forall key, server_key key -> has (sv_store s) key -> has st key) -> evolves s (set_store s st).
Proof.
  intros Hk. split; [|split; [done|]].
  - exists [st]. split; [done|]. constructor; [|done]. intros key [Hsk _]. by apply Hk.
  - intros oid [[Hoid Hh]|Hr]; [left|by right]. split; [done|]. apply Hk; [by apply blob_server_key|done].
Qed.

Lemma write_preserves s key d st answer :
  server_inv s -> server_key key -> genuine key d -> store_ok st -> writes (contents (sv_store s)) (contents st) key (Some d) answer ->
  server_inv (set_store s st) /\ evolves s (set_store s st) /\ answer <> Panic /\ (answer = Ok tt -> has st key).
Proof.
  intros Hinv Hsk Hgen Hok Hw. pose proof Hinv as (Hg & Hp & Hi & Hq). pose proof (write_keeps _ _ _ _ _ Hw) as Hkeep.
  split; [|split; [by apply set_store_evolves|split; [apply Hw|]]].
  - assert (keeps (sv_store s) st) as Hks by (intros k [Hk _]; by apply Hkeep).
    split; [by eapply write_genuine|]. split; [by apply past_change|]. split; [|done]. by eapply index_true_keeps.
  - intros Ha. destruct Hw as (_ & Hw & _). unfold has. rewrite Hw by done. by eexists.
Qed.

Lemma put_preserves s key d st answer :
  server_inv s -> server_key key -> len d < 2 ^ 64 -> genuine key d ->
  st_put_from_path (sv_store s) key d = (st, answer) \/ st_put (sv_store s) key d = (st, answer) ->
  server_inv (set_store s st) /\ evolves s (set_store s st) /\ answer <> Panic /\ (answer = Ok tt -> has st key).
Proof.
  intros Hinv Hsk Hl Hgen [Hput|Hput].
  - pose proof (put_from_path_writes (sv_store s) key d (proj1 (proj1 Hinv)) Hsk Hl) as [Hok Hw]. rewrite Hput in Hok, Hw. by apply (write_preserves s key d).
  - pose proof (put_writes (sv_store s) key d (proj1 (proj1 Hinv)) Hsk Hl) as [Hok Hw]. rewrite Hput in Hok, Hw. by apply (write_preserves s key d).
Qed.

(** A blob is deleted once its file is in the index. *)
Lemma delete_preserves s oid st answer :
  server_inv s -> oid_ok oid -> indexed s oid -> st_delete (sv_store s) (blob_key oid) = (st, answer) ->
  server_inv (set_store s st) /\ evolves s (set_store s st).
Proof.
  intros Hinv Ho Hix Hdel. pose proof Hinv as ([Hok Hg] & Hp & Hi & Hq).
  pose proof (delete_writes (sv_store s) (blob_key oid) Hok (blob_server_key oid Ho)) as [Hok' (_ & _ & Hk & Hother)].
  rewrite Hdel in Hok', Hk, Hother. cbn [fst snd] in *.
  assert (keeps (sv_store s) st) as Hks.
  { intros key Hkey. unfold has. rewrite Hother; [done|apply Hkey|by apply kept_not_blob]. }
  split.
  - split; [|split; [by apply past_change|split; [by eapply index_true_keeps|done]]]. split; [done|]. cbn [set_store sv_store]. intros key d Hsk Hc.
    destruct (decide (key = blob_key oid)) as [->|Hne]; [|rewrite Hother in Hc by done; by apply Hg].
    destruct Hk as [E|E]; rewrite E in Hc; [by apply Hg|done].
  - split; [exists [st]; split; [done|]; by constructor|]. split; [done|]. intros o [[Hoo Hh]|Hr]; [|by right].
    destruct (decide (o = oid)) as [->|Hne]; [right; exact Hix|left]. split; [done|]. unfold has. cbn [set_store sv_store]. rewrite Hother; [done| |].
    + by apply blob_server_key.
    + unfold blob_key. intros E. by apply string_app_inj_l in E.
Qed.

Lemma indexed_evolves s s' oid : evolves s s' -> indexed s oid -> indexed s' oid.
Proof. intros (_ & Hr & _) (h & r & Hh & Hin). exists h, r. auto. Qed.

Lemma dequeue_preserves s oid : server_inv s -> server_inv (dequeue s oid) /\ evolves s (dequeue s oid).
Proof.
  intros (Hg & Hp & Hx & Hq). split; [|split; [by exists []|done]]. split; [done|]. split; [done|]. split; [done|]. intros o Ho. apply Hq.
  cbn in Ho. set_solver.
Qed.

Lemma register_preserves s reg index answer :
  server_inv s -> registration_true (sv_store s) reg -> register_verified_shard (sv_index s) reg = (index, answer) ->
  server_inv (set_index s index) /\ evolves s (set_index s index) /\ answer <> Panic /\
  (answer = Ok tt -> forall f, f ∈ vr_files reg ->
     mkRef (vr_shard_id reg) (vf_file_index f) (vf_file_size f) ∈ default [] (get_file_refs index (vf_file_hash f))).
Proof.
  intros (Hg & Hp & (log & Hr & Hl) & Hq) Ht Hreg. pose proof (register_refines_log (sv_index s) log reg Hr) as Hs. rewrite Hreg in Hs.
  assert (forall index' log' h r, represents index' log' -> r ∈ default [] (get_file_refs index' h) <-> r ∈ log_refs log' h) as Hrefs.
  { intros index' log' h r Hrep. pose proof (represented_refs index' log' h Hrep) as Hx. destruct (get_file_refs index' h) as [refs|]; cbn; [apply Hx|].
    rewrite Hx. split; by intros ?%elem_of_nil. }
  destruct answer as [[]|e|]; [|destruct Hs as [_ ->]|done].
  - destruct Hs as [_ Hrep].
    assert (forall h r, r ∈ default [] (get_file_refs (sv_index s) h) -> r ∈ default [] (get_file_refs index h)) as Hgrow.
    { intros h r. rewrite (Hrefs _ _ _ _ Hr), (Hrefs _ _ _ _ Hrep), log_refs_app. intros Hin. apply elem_of_app. by left. }
    split; [|split; [|split; [done|]]].
    + split; [done|]. split; [done|]. split; [|done]. exists (log ++ [reg]). split; [done|]. apply Forall_app. by split; [|constructor].
    + split; [by exists []|]. split; [done|]. intros oid [Hb|(h & r & Hh & Hin)]; [by left|right]. eauto.
    + intros _ f Hf. apply (Hrefs _ _ _ _ Hrep), log_refs_elem.
      exists reg, f. split; [apply elem_of_app; right; by left|done].
  - split; [|split; [by destruct s; apply evolves_refl|done]]. split; [done|]. split; [done|]. split; [|done]. by exists log.
Qed.

Lemma enqueue_preserves s oid answer : server_inv s -> oid_ok oid -> server_inv (enqueue s oid answer) /\ evolves s (enqueue s oid answer).
Proof.
  intros Hi Ho. destruct answer as [[]|]; cbn; try by split; [|apply evolves_refl].
  destruct Hi as (Hg & Hp & Hx & Hq). split.
  - split; [done|]. split; [done|]. split; [done|]. cbn. intros o [->%elem_of_singleton|Hin]%elem_of_union; [done|by apply Hq].
  - split; [by exists []|]. done.
Qed.
End Evolution.

(** ** Lemmas: hashes as object ids *)
Section Oids.
Context `{Blake3Laws, HexLaws, Sha2Laws, Lz4Laws, GearLaws, FileReadsLaws, ReaderStream, StoreLaws} `{Base64, TokenJson, Ed25519}.

Lemma to_hex_oid h : oid_ok (to_hex h).
Proof.
  split.
  - eapply string_forallb_impl; [apply is_hexdigit_lower|]. apply hex_encode_digits.
  - intros E. pose proof (to_hex_length h) as Hl. by rewrite E in Hl.
Qed.

(** Hex in either case is a well-formed object id. *)
Lemma from_hex_oid oid h : all_hexdigits oid = true -> from_hex oid = Ok h -> oid_ok oid.
Proof. intros Hd Hf. split; [done|]. intros ->. by destruct (proj2 (from_hex_outcome "") h Hf) as (_ & ? & _). Qed.

(** A content stored under its id has it as one of its hashes. *)
Lemma oid_whole_hash oid h content :
  (oid = to_hex (compute_data_hash content) \/ oid = hex_encode (sha256_digest content)) -> from_hex oid = Ok h ->
  whole_file_hash h [content].
Proof.
  intros Ho Hf. unfold whole_file_hash. cbn [concat]. rewrite app_nil_r. destruct Ho as [->| ->].
  - right. left. rewrite from_hex_of_hex in Hf by apply data_hash_wf. by injection Hf as <-.
  - left. destruct (proj2 (from_hex_outcome _) h Hf) as (_ & _ & Hd). rewrite hex_decode_encode in Hd. injection Hd as ->. done.
Qed.

Lemma oid_names oid content :
  oid = to_hex (compute_data_hash content) \/ oid = hex_encode (sha256_digest content) -> names oid content.
Proof.
  intros Ho. assert (exists h, from_hex oid = Ok h) as [h Hf].
  { destruct Ho as [->| ->]; [eexists; apply from_hex_of_hex, data_hash_wf|]. unfold from_hex.
    rewrite hex_encode_length, sha256_length. cbn [Nat.mul Nat.add Nat.eqb negb]. rewrite hex_decode_encode. cbn [ok_or].
    rewrite sha256_length. cbn. by eexists. }
  exists h, [content]. split; [done|]. split; [cbn; by rewrite app_nil_r|by eapply oid_whole_hash].
Qed.

(** What is stored under a blob's key has the object id as a hash. *)
Lemma genuine_blob oid content : oid_ok oid -> genuine (blob_key oid) content ->
  oid = to_hex (compute_data_hash content) \/ oid = hex_encode (sha256_digest content).
Proof.
  intros Ho [Ha|(oid' & E & Hh)].
  - exfalso. destruct Ha as [(ps & E & _)|E]; symmetry in E; revert E.
    + apply kept_not_blob, kept_xorb.
    + apply kept_not_blob, kept_shard, to_hex_oid.
  - unfold blob_key in E. apply string_app_inj_l in E. by subst oid'.
Qed.

(** A chunk of a converted blob, in the xorb that the conversion built. *)
Lemma piece_content scheme ds i d :
  chunks_fit scheme ds -> ds !! i = Some d -> chunk_content (parts_of scheme ds) (as_u32 (Z.of_nat i)) d.
Proof.
  intros (Hs & Hn & _) Hi. pose proof (lookup_lt_Some _ _ _ Hi) as Hlt. unfold MAX_CHUNKS_PER_XORB, len in Hn.
  exists (part_of scheme d). unfold as_u32. rewrite Z.mod_small by lia. rewrite Nat2Z.id. split; [unfold parts_of; by rewrite list_lookup_fmap, Hi|].
  cbn. rewrite Forall_lookup in Hs. pose proof (Hs i d Hi) as Hd. cbn in Hd.
  destruct (decompress_inverts scheme d) as (c & Hc & Hdec).
  { intros _. unfold MAX_DECOMPRESSED_SIZE. change (max_chunk_size config_new) with 131072 in Hd. lia. }
  rewrite compress_ok in Hc. by injection Hc as ->.
Qed.
End Oids.

(** ** Lemmas: a conversion *)
Section Converting.
Context `{Blake3Laws, HexLaws, Sha2Laws, Lz4Laws, GearLaws, FileReadsLaws, ReaderStream, StoreLaws} `{Base64, TokenJson, Ed25519}.

(** What the conversion registers is true once its xorb and shard are stored. *)
Lemma conversion_registration st oid h scheme raw ds shard_hash :
  from_hex oid = Ok h -> (oid = to_hex (compute_data_hash raw) \/ oid = hex_encode (sha256_digest raw)) ->
  chunks_fit scheme ds -> let xh := xorb_hash (part_nodes (parts_of scheme ds)) in
  has st (xorb_key xh) -> has st ("shards/" +:+ shard_hash) -> oid_ok shard_hash ->
  registration_true st (mkRegistration shard_hash [mkFileMapping h 0 (len raw)] (verified_chunks_of xh (map compute_data_hash ds))).
Proof.
  intros Hf Ho Hfit xh Hx Hs Hid. split; [done|]. split; [done|]. split; cbn [vr_files vr_chunks].
  - intros f ->%list_elem_of_singleton. exists [raw]. cbn. rewrite app_nil_r. split; [by eapply oid_whole_hash|done].
  - intros m Hm. unfold verified_chunks_of in Hm. apply elem_of_lookup_imap in Hm as (i & dh & -> & Hi).
    rewrite list_lookup_fmap in Hi. destruct (ds !! i) as [d|] eqn:Hd; [|done]. injection Hi as <-. cbn.
    split; [done|]. exists (parts_of scheme ds), d. split; [done|]. split; [by apply piece_content|done].
Qed.

End Converting.

(** ** What a successful response says *)
Section Claims.
Context `{Blake3, HexCrate, Sha2, Lz4, GearHash, FileReads, ReaderStream, StoreLaws} `{Base64, TokenJson, Ed25519}.

(** The bytes a body delivers. *)
Definition delivered (items : list body_item) : list byte := concat (map (fun item => unwrap_or item []) items).

(** The files of a shard are in the index. *)
Definition shard_indexed (s : server) (shard_id : string) : Prop :=
  exists data shard, shard_id = to_hex (compute_data_hash data) /\ parse data = Ok shard /\
    forall i e, ms_file_entries shard !! i = Some e -> exists size, size_true (fh_file_hash e) size /\
      mkRef shard_id i size ∈ default [] (get_file_refs (sv_index s) (fh_file_hash e)).

Definition claim (rq : request) (s : server) (b : body) : Prop :=
  let content := concat (payload_chunks (payload_of rq)) in
  match rq with
  | UploadXorb _ _ hash_str _ => exists x, from_hex hash_str = Ok x /\ has (sv_store s) (xorb_key x)
  | UploadShard _ _ => exists inserted, let id := to_hex (compute_data_hash content) in
      b = ShardBody inserted id /\ has (sv_store s) ("shards/" +:+ id) /\ shard_indexed s id
  | UploadLfs _ oid _ => (oid = to_hex (compute_data_hash content) \/ oid = hex_encode (sha256_digest content)) /\ available s oid
  | DownloadXorb _ _ hash_str => exists ps items, from_hex hash_str = Ok (xorb_hash (part_nodes ps)) /\
      b = StreamBody (len (xorb_bytes ps)) items /\ delivered items = xorb_bytes ps
  | DownloadLfs _ _ oid => exists content items, names oid content /\ b = StreamBody (len content) items /\ delivered items = content
  | GetReconstruction file_id => exists h size xorbs info, from_hex file_id = Ok h /\ size_true h size /\
      b = ReconstructionBody file_id xorbs info
  | QueryDedup _ hash => b = DedupBody hash false None None \/
      exists h x i, from_hex hash = Ok h /\ b = DedupBody hash true (Some (to_hex x)) (Some i) /\ chunk_true (sv_store s) h x i
  | GetBlobState oid => exists state file_id size h, b = StateBody state file_id size oid /\ from_hex oid = Ok h /\ size_true h size /\ available s oid
  | HeadBlob oid => exists state file_id size h, b = HeadBody state file_id size /\ from_hex oid = Ok h /\ size_true h size /\ available s oid
  | Batch _ => True
  end.

(** A conversion that succeeded has put its file in the index, and the shard is stored. *)
Definition converted_true (oid : string) (s : server) (answer : outcome ConversionError ConversionResult) : Prop :=
  match answer with
  | Ok r => indexed s oid /\ has (sv_store s) ("shards/" +:+ cr_shard_hash r)
  | Err _ => True
  | Panic => False
  end.

(** Responses that are not a success claim nothing. *)
Definition succeeded (r : response) : bool := (200 <=? rs_status r) && (rs_status r <? 300).
Definition good (rq : request) (s : server) (r : response) : Prop := succeeded r = true -> claim rq s (rs_body r).
End Claims.

(** ** Lemmas: programs *)
Section Safety.
Context `{Blake3Laws, HexLaws, !HexDigitsLaw, Sha2Laws, Lz4Laws, GearLaws, FileReadsLaws, ReaderStreamLaws, StoreLaws} `{Base64Laws, TokenJsonLaws, Ed25519Laws}.

Lemma require_auth_not_panic auth_header v now need : require_auth auth_header v now need <> Panic.
Proof.
  unfold require_auth. destruct (extract_token_from_request auth_header) as [token|]; [|done]. cbn [ok_or].
  pose proof (verifier_not_panic v now token). destruct (verifier_verify_token v now token); cbn [map_err]; [|done..].
  by destruct (need_authorized _ _).
Qed.

Lemma safe_respond rq s r : succeeded r = false -> safe (good rq) s (Respond r).
Proof. intros Hr s' _ _ E. by rewrite Hr in E. Qed.

Lemma safe_guarded rq s v auth_header now need reject k :
  (forall rej, succeeded (reject rej) = false) -> (forall claims, safe (good rq) s (k claims)) ->
  safe (good rq) s (guarded v auth_header now need reject k).
Proof.
  intros Hrej Hk. unfold guarded. pose proof (require_auth_not_panic auth_header v now need).
  destruct (require_auth _ _ _ _) as [claims|rej|]; [apply Hk|by apply safe_respond|done].
Qed.

Lemma respond_status rej : succeeded (respond rej) = false.
Proof. by destruct rej. Qed.
Lemma respond_message_status rej : succeeded (respond_message rej) = false.
Proof. by destruct rej. Qed.
Lemma error_response_status e : succeeded (error_response e) = false.
Proof. by destruct e. Qed.

Lemma temp_file_spooled a host t : app_ok a -> temp_file_result a host = Ok t -> exists l, ledger_ok l /\ spooled l t [].
Proof.
  intros (_ & Hq & Hl) Ht. unfold temp_file_result in Ht. destruct (temp_quota a) as [l|].
  - exists l. specialize (Hl l eq_refl). split; [done|]. by eapply created_spooled.
  - unfold create_with_quota, ledger_new in Ht. destruct (_ || _); [done|]. cbn [negb map_err] in Ht.
    assert (ledger_ok (mkLedger (temp_quota_bytes a) (temp_min_free_bytes a) 0 0)) as Hok by (unfold ledger_ok; cbn; lia).
    eexists. split; [exact Hok|]. by eapply created_spooled.
Qed.

Lemma temp_file_not_panic a host : temp_file_result a host <> Panic.
Proof.
  unfold temp_file_result, create_with_ledger, create_with_quota, create_with_manager, manager_reserve.
  destruct (temp_quota a); cbn; [|unfold ledger_new; destruct (_ || _); cbn; [done|]]; (destruct (dir_created host); [|done]);
    repeat (case_match; try done); cbn in *; simplify_eq; done.
Qed.

(** An upload whose payload was spooled. *)
Lemma safe_spool {S} rq s a host payload (on_chunk : S -> list byte -> S) s0 k :
  app_ok a -> Panic ∉ payload ->
  (forall t, tf_data t = concat (payload_chunks payload) -> len (tf_data t) < 2 ^ 64 ->
     safe (good rq) s (k t (fold_left on_chunk (payload_chunks payload) s0) (len (tf_data t)))) ->
  safe (good rq) s (spool a host payload on_chunk s0 k).
Proof.
  intros Ha Hp Hk. unfold spool, ensure_dir_and_check_space, check_disk_space.
  destruct (dir_created host); [|by apply safe_respond]. destruct (space host) as [n|]; [|by apply safe_respond].
  destruct (n <? _); [by apply safe_respond|]. pose proof (temp_file_not_panic a host) as Hnp.
  destruct (temp_file_result a host) as [t|[]|] eqn:Et; try done; try by apply safe_respond.
  destruct (temp_file_spooled a host t Ha Et) as (l & Hl & Hs). unfold stream_payload_to_temp.
  destruct Ha as (Hm & _). 
  pose proof (stream_loop_spec host l Hl on_chunk payload (max_body_size_bytes a) t [] s0 Hs Hp (proj2 Hm) ltac:(change (len []) with 0; lia)) as Hloop.
  change (len []) with 0 in Hloop. destruct (stream_loop _ _ _ _ _ _ _) as [[t' h'] answer]. cbn [app] in Hloop.
  destruct answer as [total|e|]; [|apply safe_respond, error_response_status|done].
  destruct Hloop as (_ & -> & Hmax & (Ho & Hd & _) & ->). unfold sync_all. rewrite Ho.
  destruct (flush_ok host); [|by apply safe_respond]. destruct (fsync_ok host); [|by apply safe_respond].
  rewrite <- Hd. apply Hk; [done|]. rewrite Hd. unfold u64_max in Hm. lia.
Qed.

(** What a read sees is genuine, and what is kept is still there. *)
Lemma observed s s' view :
  server_inv s' -> evolves s s' -> observes (states_since s' (length (sv_past s))) view ->
  view_wf view /\
  forall key n d, server_key key -> get_path view key n = Ok (Some (Some d)) \/ download_to_path view key n = Ok d ->
    genuine key d /\ (kept_key key -> has (sv_store s') key).
Proof.
  intros Hinv Hev Hobs. split.
  - intros key n. destruct (Hobs key n) as [(st1 & Hin1 & ->) (st2 & Hin2 & ->)].
    split; [apply (reads_wf st1)|apply (reads_wf st2)]; by eapply states_genuine.
  - intros key n d Hk Hd. assert (exists st, st ∈ states_since s' (length (sv_past s)) /\ contents st key = Some d) as (st & Hin & Hc).
    { destruct (Hobs key n) as [(st1 & Hin1 & E1) (st2 & Hin2 & E2)]. destruct Hd as [Hd|Hd].
      - exists st1. split; [done|]. rewrite E1 in Hd. symmetry. eapply get_path_reads; [|exact Hk|exact Hd]. by eapply states_genuine.
      - exists st2. split; [done|]. rewrite E2 in Hd. eapply download_reads; [|exact Hk|exact Hd]. by eapply states_genuine. }
    destruct (states_genuine s' _ st Hinv Hin) as [[_ Hg] Hkeep]. split; [by apply Hg|]. intros Hkk. apply Hkeep; [done|]. by eexists.
Qed.

(** ** Lemmas: the operations *)
Lemma safe_exists rq s key k :
  server_key key -> (forall s' b, server_inv s' -> evolves s s' -> (b = true -> has (sv_store s') key) -> safe (good rq) s' (k b)) ->
  safe (good rq) s (Exists key (fun answer => or_internal answer k)).
Proof.
  intros Hk Hn s' Hi He. split; [done|]. pose proof (exists_total (sv_store s') key (proj1 (proj1 Hi))).
  destruct (st_exists (sv_store s') key) as [b|e|] eqn:E; [|by apply safe_respond|done]. apply Hn; [done..|]. intros ->.
  apply exists_reads in E; [|apply Hi|done]. by apply (bool_decide_eq_true_1 _ (eq_sym E)).
Qed.

Lemma safe_put rq s key d k :
  server_key key -> len d < 2 ^ 64 -> genuine key d ->
  (forall s', server_inv s' -> evolves s s' -> has (sv_store s') key -> safe (good rq) s' k) ->
  safe (good rq) s (PutFile key d (fun answer => or_internal answer (fun _ => k))).
Proof.
  intros Hk Hl Hg Hn s' Hi He. split; [done|]. split; [done|]. split; [done|]. intros st answer Hput.
  destruct (put_preserves s' key d st answer Hi Hk Hl Hg (or_introl Hput)) as (Hi' & He' & Hnp & Hok).
  destruct answer as [[]|e|]; [|by apply safe_respond|done]. apply Hn; [done|by eapply evolves_trans|by apply Hok].
Qed.

Lemma safe_read {A} (post : server -> A -> Prop) s k :
  (forall s' view, server_inv s' -> evolves s s' -> view_wf view ->
     (forall key n d, server_key key -> get_path view key n = Ok (Some (Some d)) \/ download_to_path view key n = Ok d ->
        genuine key d /\ (kept_key key -> has (sv_store s') key)) -> safe post s' (k view)) ->
  safe post s (Read k).
Proof. intros Hn s' Hi He view Hobs. destruct (observed s s' view Hi He Hobs) as [Hw Hg]. by apply Hn. Qed.

Lemma safe_query rq s k :
  (forall s', server_inv s' -> evolves s s' -> safe (good rq) s' (k (sv_index s'))) -> safe (good rq) s (Query k).
Proof. intros Hn s' Hi He. by apply Hn. Qed.

Lemma safe_size rq s key k :
  server_key key ->
  (forall s' answer, server_inv s' -> evolves s s' -> answer <> Panic ->
     (forall n, answer = Ok n -> exists d, contents (sv_store s') key = Some d /\ n = len d) -> safe (good rq) s' (k answer)) ->
  safe (good rq) s (Size key k).
Proof.
  intros Hk Hn s' Hi He. split; [done|]. apply Hn; [done|done|apply size_total, Hi|]. intros n. apply size_reads; [apply Hi|done].
Qed.

Lemma safe_register rq s reg k :
  registration_true (sv_store s) reg ->
  (forall s' answer, server_inv s' -> evolves s s' -> answer <> Panic ->
     (answer = Ok tt -> forall f, f ∈ vr_files reg ->
        mkRef (vr_shard_id reg) (vf_file_index f) (vf_file_size f) ∈ default [] (get_file_refs (sv_index s') (vf_file_hash f))) ->
     safe (good rq) s' (k answer)) ->
  safe (good rq) s (Register reg k).
Proof.
  intros Hr Hn s' Hi He. assert (registration_true (sv_store s') reg) as Hr'
    by (eapply registration_true_keeps; [by apply evolves_current|done]).
  split; [done|]. intros index answer Hreg. destruct (register_preserves s' reg index answer Hi Hr' Hreg) as (Hi' & He' & Hnp & Hok).
  apply Hn; [done|by eapply evolves_trans|done|done].
Qed.

(** A response whose claim holds now and keeps holding. *)
Lemma safe_ok rq s b : (forall s', server_inv s' -> evolves s s' -> claim rq s' b) -> safe (good rq) s (Respond (mkResponse 200 b)).
Proof. intros Hc s' Hi He _. by apply Hc. Qed.

(** ** Lemmas: uploads *)
Lemma upload_xorb_safe s a v auth_header now host prefix hash_str payload :
  app_ok a -> Panic ∉ payload ->
  let rq := UploadXorb host prefix hash_str payload in
  safe (good rq) s (upload_xorb a v auth_header now host prefix hash_str payload).
Proof.
  intros Ha Hp rq. unfold upload_xorb. destruct (negb _); [by apply safe_respond|].
  pose proof (from_hex_outcome hash_str) as [Hnp _]. destruct (from_hex hash_str) as [x| |] eqn:Ex; [|by apply safe_respond|done].
  apply safe_guarded; [apply respond_status|intros _]. apply safe_spool; [done|done|]. intros t Ht Hl.
  pose proof (verify_file_not_panic (tf_data t)) as Hnv. destruct (verify_xorb_from_file_with_info (tf_data t)) as [info| |] eqn:Ev;
    [|by apply safe_respond|done]. destruct (bool_decide_reflect (vx_xorb_hash info = x)) as [Hx|]; [|by apply safe_respond]. cbn [negb].
  destruct (verify_file_sound _ _ Hl Ev) as (ps & Hfit & Hdata & _ & ->). cbn [parts_report vx_xorb_hash] in Hx. subst x.
  assert (genuine (xorb_key (xorb_hash (part_nodes ps))) (tf_data t)) as Hg by (left; left; eauto).
  apply safe_exists; [apply kept_xorb|]. intros s1 b Hi1 He1 Hb.
  assert (forall s', server_inv s' -> has (sv_store s') (xorb_key (xorb_hash (part_nodes ps))) -> forall b, safe (good rq) s' (Respond (mkResponse 200 (XorbBody b)))) as Hdone.
  { intros s' Hi' Hh b'. apply safe_ok. intros s2 _ He2. eexists. split; [exact Ex|]. eapply evolves_current; [exact He2|apply kept_xorb|done]. }
  destruct b; [by apply Hdone, Hb|]. apply safe_put; [apply kept_xorb|done|done|]. intros s2 Hi2 He2 Hh. by apply Hdone.
Qed.

Lemma upload_lfs_safe s a v auth_header now host oid payload :
  app_ok a -> Panic ∉ payload ->
  let rq := UploadLfs host oid payload in
  safe (good rq) s (upload_lfs_object a v auth_header now host oid payload).
Proof.
  intros Ha Hp rq. unfold upload_lfs_object. destruct (String.length oid =? 64)%nat eqn:El; [|by apply safe_respond].
  destruct (all_hexdigits oid) eqn:Ed; [|by apply safe_respond]. cbn [andb negb].
  assert (oid_ok oid) as Ho by (split; [done|intros ->; done]).
  apply safe_guarded; [apply respond_status|intros _]. apply safe_spool; [done|done|]. intros t Ht Hl.
  rewrite (proj2 (proj2 (streaming_hash_oneshot (payload_chunks payload)))). rewrite <- Ht.
  set (content := tf_data t) in *.
  assert (hex_encode (keyed_hash DATA_KEY content) = to_hex (compute_data_hash content)) as ->.
  { unfold to_hex, compute_data_hash. by rewrite as_bytes_from_bytes by apply keyed_hash_length. }
  destruct (_ && _) eqn:Eh; [by apply safe_respond|].
  assert (oid = to_hex (compute_data_hash content) \/ oid = hex_encode (sha256_digest content)) as Hoid.
  { apply andb_false_iff in Eh as [Eh|Eh]; apply negb_false_iff, String.eqb_eq in Eh; auto. }
  assert (forall s' b, server_inv s' -> has (sv_store s') (blob_key oid) -> safe (good rq) s' (Respond (mkResponse 200 b))) as Hdone.
  { intros s' b Hi' Hh. apply safe_ok. intros s2 _ He2. cbn [claim payload_of rq]. rewrite <- Ht. split; [done|]. apply He2. by left. }
  assert (genuine (blob_key oid) content) as Hg by (right; eauto).
  apply safe_exists; [by apply blob_server_key|]. intros s1 b Hi1 He1 Hb. destruct b; [by apply Hdone, Hb|].
  apply safe_put; [by apply blob_server_key|done|done|]. intros s2 Hi2 He2 Hh. by apply Hdone.
Qed.

(** The registration of a validated shard that is stored. *)
Lemma validated_registered s shard_id shard view n reg :
  server_inv s -> shard_wf n shard -> n < 2 ^ 64 -> view_wf view ->
  (forall key k d, server_key key -> get_path view key k = Ok (Some (Some d)) \/ download_to_path view key k = Ok d ->
     genuine key d /\ (kept_key key -> has (sv_store s) key)) ->
  validate_shard_for_index shard_id shard view = Ok reg -> oid_ok shard_id ->
  vr_shard_id reg = shard_id /\
  (forall s', evolves s s' -> has (sv_store s') ("shards/" +:+ shard_id) -> registration_true (sv_store s') reg) /\
  (forall i e, ms_file_entries shard !! i = Some e -> exists f, f ∈ vr_files reg /\ vf_file_hash f = fh_file_hash e /\ vf_file_index f = i /\
     size_true (fh_file_hash e) (vf_file_size f)).
Proof.
  intros Hi W Hl Hw Hg Hv Ho. destruct (validated_true _ _ _ n _ W Hl Hw Hv) as (Hid & Hc & Hf).
  destruct (proj2 (validate_spec _ shard view n W Hl Hw) _ Hv) as (_ & Hfiles & _). split; [done|]. split.
  - intros s' He Hs. unfold registration_true. rewrite Hid. split; [done|]. split; [done|]. split.
    + intros f Hin. destruct (Hf f Hin) as (raws & Hh & Hsz & _). by exists raws.
    + intros c Hin. destruct (Hc c Hin) as (raw & ps & ((attempt & Hd) & _ & Hx) & Hcc & Hh). split; [|eauto].
      eapply evolves_current; [exact He|apply kept_xorb|]. eapply (Hg _ attempt); [apply kept_xorb|right; exact Hd|apply kept_xorb].
  - intros i e Hie. assert (enumerate (ms_file_entries shard) !! i = Some (i, e)) as Hen.
    { unfold enumerate. apply lookup_zip_Some. split; [apply lookup_seq; split; [done|by eapply lookup_lt_Some]|done]. }
    eapply Forall2_lookup_l in Hfiles as (f & Hfl & plan & raws & _ & _ & Hh & _ & ->); [|exact Hen]. cbn in *.
    eexists. split; [by eapply list_elem_of_lookup_2|]. cbn. split; [done|]. split; [done|]. by exists raws.
Qed.

Lemma registered_safe rq s reg inserted shard_id shard data content :
  shard_id = to_hex (compute_data_hash content) -> shard_id = to_hex (compute_data_hash data) -> parse data = Ok shard ->
  content = concat (payload_chunks (payload_of rq)) -> (exists host payload, rq = UploadShard host payload) ->
  vr_shard_id reg = shard_id -> has (sv_store s) ("shards/" +:+ shard_id) -> registration_true (sv_store s) reg ->
  (forall i e, ms_file_entries shard !! i = Some e -> exists f, f ∈ vr_files reg /\ vf_file_hash f = fh_file_hash e /\ vf_file_index f = i /\
     size_true (fh_file_hash e) (vf_file_size f)) ->
  safe (good rq) s (registered reg inserted shard_id).
Proof.
  intros Hid Hdata Hparse Hcontent (host & payload & ->) Hrid Hh Hr Hf. unfold registered. apply safe_register; [done|].
  intros s1 answer Hi1 He1 Hnp Hok. destruct answer as [[]|e|]; [|by apply safe_respond|done].
  apply safe_ok. intros s2 _ He2. cbn [claim payload_of] in *. exists inserted. rewrite <- Hcontent, <- Hid. split; [done|].
  split; [eapply evolves_current; [exact He2|apply kept_shard; rewrite Hid; apply to_hex_oid|];
    eapply evolves_current; [exact He1|apply kept_shard; rewrite Hid; apply to_hex_oid|done]|].
  exists data, shard. split; [done|]. split; [done|]. intros i e Hie. destruct (Hf i e Hie) as (f & Hin & Hfh & Hfi & Hsz).
  exists (vf_file_size f). split; [done|]. apply He2. rewrite <- Hfh, <- Hfi, <- Hrid. by apply Hok.
Qed.

(** Fetching a shard through an honest view. *)
Lemma fetched_shard view key : view_wf view ->
  parse_shard_from_storage view key <> Panic /\
  forall shard, parse_shard_from_storage view key = Ok shard -> exists file, len file < 2 ^ 64 /\ parse file = Ok shard /\
    shard_wf (len file) shard /\ ms_hash shard = to_hex (compute_data_hash file).
Proof.
  intros Hw. split; [apply with_retries_not_panic; intros n; by apply parse_once_not_panic|].
  intros shard [attempt Hp]%with_retries_Ok. apply parse_once_Ok in Hp as (file & Hst & Hp).
  pose proof (stored_small view key file Hw Hst) as Hl. exists file. split; [done|]. split; [done|]. by apply parse_reader_spec.
Qed.

Lemma validated_safe rq s shard_id shard n k :
  shard_wf n shard -> n < 2 ^ 64 -> oid_ok shard_id ->
  (forall s' reg, server_inv s' -> evolves s s' -> vr_shard_id reg = shard_id ->
     (forall s2, evolves s' s2 -> has (sv_store s2) ("shards/" +:+ shard_id) -> registration_true (sv_store s2) reg) ->
     (forall i e, ms_file_entries shard !! i = Some e -> exists f, f ∈ vr_files reg /\ vf_file_hash f = fh_file_hash e /\ vf_file_index f = i /\
        size_true (fh_file_hash e) (vf_file_size f)) -> safe (good rq) s' (k reg)) ->
  safe (good rq) s (validated shard_id shard k).
Proof.
  intros W Hl Ho Hk. unfold validated. apply safe_read. intros s' view Hi He Hw Hg.
  pose proof (proj1 (validate_spec shard_id shard view n W Hl Hw)) as Hnp.
  destruct (validate_shard_for_index shard_id shard view) as [reg| |] eqn:Ev; [|by apply safe_respond|done].
  destruct (validated_registered s' shard_id shard view n reg Hi W Hl Hw Hg Ev Ho) as (Hid & Ht & Hf). by apply Hk.
Qed.

Lemma upload_shard_safe s a v auth_header now host payload :
  app_ok a -> Panic ∉ payload -> safe (good (UploadShard host payload)) s (upload_shard a v auth_header now host payload).
Proof.
  intros Ha Hp. unfold upload_shard.
  apply safe_guarded; [apply respond_status|intros _]. apply safe_spool; [done|done|]. intros t Ht Hl.
  rewrite parse_from_file_parse. destruct (parse (tf_data t)) as [shard| |] eqn:Ep; [|by apply safe_respond..].
  rewrite (proj1 (streaming_hash_oneshot (payload_chunks payload))), <- Ht.
  set (id := to_hex (compute_data_hash (tf_data t))). assert (oid_ok id) as Ho by apply to_hex_oid. pose proof (parse_wf _ _ Hl Ep) as W.
  assert (forall s reg inserted shard data, id = to_hex (compute_data_hash data) -> parse data = Ok shard -> vr_shard_id reg = id ->
    has (sv_store s) ("shards/" +:+ id) -> registration_true (sv_store s) reg ->
    (forall i e, ms_file_entries shard !! i = Some e -> exists f, f ∈ vr_files reg /\ vf_file_hash f = fh_file_hash e /\ vf_file_index f = i /\
       size_true (fh_file_hash e) (vf_file_size f)) ->
    safe (good (UploadShard host payload)) s (registered reg inserted id)) as Hreg.
  { intros s' reg inserted sh data Hid Hparse Hrid Hh Hr Hf. eapply (registered_safe (UploadShard host payload) s' reg inserted id sh data (tf_data t)); try done; by exists host, payload. }
  apply safe_exists; [by apply kept_shard|]. intros s1 b Hi1 He1 Hb. destruct b.
  - specialize (Hb eq_refl). apply safe_read. intros s2 view Hi2 He2 Hw _. destruct (fetched_shard view ("shards/" +:+ id) Hw) as [Hnp Hok].
    destruct (parse_shard_from_storage _ _) as [stored|e|]; [|apply safe_respond; by destruct e as [| |? []|]|done].
    destruct (Hok stored eq_refl) as (file & Hlf & Hpf & Wf & Hh). destruct (String.eqb_spec (ms_hash stored) id) as [E|]; [|by apply safe_respond].
    cbn [negb]. eapply validated_safe; [exact Wf|done|done|]. intros s3 reg Hi3 He3 Hrid Hr Hf.
    assert (has (sv_store s3) ("shards/" +:+ id)) as Hh3.
    { eapply evolves_current; [eapply evolves_trans; [exact He2|exact He3]|by apply kept_shard|done]. }
    eapply (Hreg s3 reg false stored file); try done; [congruence|]. apply Hr; [apply evolves_refl|done].
  - eapply validated_safe; [exact W|done|done|]. intros s2 reg Hi2 He2 Hrid Hr Hf.
    apply safe_put; [by apply kept_shard|done|left; by right|]. intros s3 Hi3 He3 Hh.
    eapply (Hreg s3 reg true shard (tf_data t)); try done. by apply Hr.
Qed.

(** ** Lemmas: what the index says *)
Lemma index_size st index h r : index_true st index -> r ∈ default [] (get_file_refs index h) -> size_true h (fr_file_size r).
Proof.
  intros (log & Hrep & Hlog) Hr. pose proof (represented_refs index log h Hrep) as Hx. destruct (get_file_refs index h) as [refs|]; cbn in Hr; [|by apply elem_of_nil in Hr].
  destruct Hx as (_ & _ & Hx). apply Hx, log_refs_elem in Hr as (reg & f & Hreg & Hf & <- & ->). cbn.
  rewrite Forall_forall in Hlog. by apply (Hlog reg Hreg).
Qed.

Lemma index_file_size st index h n : index_true st index -> get_file_size index h = Some n -> size_true h n.
Proof.
  intros Hi Hn. unfold get_file_size in Hn. destruct (file_to_shards index !! h ≫= head) as [r|] eqn:E; [|done]. injection Hn as <-.
  apply (index_size st index); [done|]. unfold get_file_refs. destruct (file_to_shards index !! h) as [[|r' refs]|]; [done| |done].
  injection E as ->. by left.
Qed.

Lemma index_chunk st index h x i : index_true st index -> get_xorb_for_chunk index h = Some (x, i) -> chunk_true st h x i.
Proof.
  intros (log & (_ & _ & Hc) & Hlog) Hx. rewrite Hc in Hx. unfold last_chunk in Hx. apply fmap_Some in Hx as (c & Hl & [= -> ->]).
  assert (c ∈ log_chunks log /\ vm_chunk_hash c = h) as [Hin <-].
  { apply last_Some in Hl as [l' El]. assert (c ∈ filter (fun c => vm_chunk_hash c = h) (log_chunks log)) as Hf
      by (rewrite El; apply elem_of_app; right; by left). by apply list_elem_of_filter in Hf as [? ?]. }
  unfold log_chunks in Hin. apply list_elem_of_In, in_concat in Hin as (l & Hm & Hin). apply in_map_iff in Hm as (reg & <- & Hreg).
  rewrite Forall_forall in Hlog. apply (Hlog reg); by apply list_elem_of_In.
Qed.

(** ** Lemmas: streams *)
Lemma delivered_stream content : delivered (stream_items content) = content.
Proof.
  unfold delivered, stream_items. rewrite map_map. cbn. rewrite map_id. apply reader_stream_concat.
Qed.

Lemma delivered_verifying oid items : forall hasher, delivered (integrity_verifying_stream oid hasher items) = delivered items.
Proof.
  induction items as [|item items IH]; intros hasher; cbn [integrity_verifying_stream].
  - by destruct (_ =? _)%string.
  - destruct item; unfold delivered in *; cbn; by rewrite IH.
Qed.

Lemma safe_download rq s host key k :
  server_inv s -> server_key key ->
  (forall s' r, server_inv s' -> evolves s s' -> r <> Panic -> (forall n d, r = Ok (n, d) -> genuine key d) -> safe (good rq) s' (k r)) ->
  safe (good rq) s (download_to_temp_stream host key k).
Proof.
  intros Hi Hk Hn. unfold download_to_temp_stream. destruct (sh_dir_created host); cbn [negb]; [|apply Hn; [done|apply evolves_refl|done..]].
  apply safe_size; [done|]. intros s1 answer Hi1 He1 Hnp _. destruct answer as [n|e|]; [|by apply Hn|done].
  unfold check_disk_space. destruct (sh_space host) as [m|]; [|by apply Hn]. destruct (m <? n); [by apply Hn|].
  apply safe_read. intros s2 view Hi2 He2 Hw Hg. assert (evolves s s2) as He by (eapply evolves_trans; [exact He1|exact He2]).
  pose proof (proj1 (proj2 (Hw key 1%nat))) as Hnd. destruct (download_to_path view key 1) as [d|e|] eqn:Ed; [|by apply Hn|done].
  destruct (sh_open_error host); [by apply Hn|]. destruct (len d =? n); [|by apply Hn]. apply Hn; [done..|]. intros n' d' [= _ <-].
  eapply Hg; [done|right; exact Ed].
Qed.

(** A stored xorb is one with the hash of its key. *)
Lemma genuine_xorb x data : hash_wf x -> genuine (xorb_key x) data -> exists ps, xorb_hash (part_nodes ps) = x /\ data = xorb_bytes ps.
Proof.
  intros Wx [[(ps & E & ->)|E]|(oid & E & _)].
  - exists ps. split; [|done]. unfold xorb_key in E. apply string_app_inj_l in E. symmetry. apply to_hex_inj; [done| |done].
    apply xorb_hash_wf, Forall_map, Forall_true. intros q. apply from_bytes_wf.
  - exfalso. revert E. unfold xorb_key. apply dir_keys_differ; unfold object_dirs; [set_solver|set_solver|done].
  - exfalso. by apply (kept_not_blob _ oid (kept_xorb x)) in E.
Qed.

Lemma download_xorb_safe s v auth_header now host prefix hash_str :
  server_inv s -> safe (good (DownloadXorb host prefix hash_str)) s (download_xorb v auth_header now host prefix hash_str).
Proof.
  intros Hi. unfold download_xorb. destruct (negb _); [by apply safe_respond|].
  pose proof (from_hex_outcome hash_str) as [Hnp Hwf]. destruct (from_hex hash_str) as [x| |] eqn:Ex; [|by apply safe_respond|done].
  destruct (Hwf x eq_refl) as (Wx & _). apply safe_guarded; [apply respond_status|intros _].
  assert (forall s content, genuine (xorb_key x) content ->
    safe (good (DownloadXorb host prefix hash_str)) s (Respond (mkResponse 200 (StreamBody (len content) (stream_items content))))) as Hok.
  { intros s' content Hg. destruct (genuine_xorb x content Wx Hg) as (ps & Hx & ->). apply safe_ok. intros s2 _ _. exists ps, (stream_items (xorb_bytes ps)).
    rewrite Hx. split; [exact Ex|]. split; [done|]. apply delivered_stream. }
  apply safe_read. intros s1 view Hi1 He1 Hw Hg. change ("xorbs/" +:+ to_hex x) with (xorb_key x).
  pose proof (proj1 (proj1 (Hw (xorb_key x) 1%nat))) as Hnp1.
  destruct (get_path view (xorb_key x) 1) as [[path|]|[]|] eqn:Ep; try (by apply safe_respond); [| |done].
  - unfold open_object. destruct (sh_open_error host) as [[]|]; try by apply safe_respond.
    destruct path as [content|]; [|by apply safe_respond]. apply Hok. eapply Hg; [apply kept_xorb|left; exact Ep].
  - apply safe_download; [done|apply kept_xorb|]. intros s2 r Hi2 He2 Hr Hd.
    destruct r as [[n d]|[]|]; try (by apply safe_respond); [|done]. by eapply Hok, Hd.
Qed.

Lemma serve_raw_blob_safe rq s a host oid k :
  server_inv s -> oid_ok oid ->
  (forall s' content items, server_inv s' -> evolves s s' -> names oid content -> delivered items = content ->
     safe (good rq) s' (k (Served (mkResponse 200 (StreamBody (len content) items))))) ->
  (forall s', server_inv s' -> evolves s s' -> safe (good rq) s' (k Missing)) ->
  (forall s' r, server_inv s' -> evolves s s' -> succeeded r = false -> safe (good rq) s' (k (RawError r))) ->
  safe (good rq) s (serve_raw_blob a host oid k).
Proof.
  intros Hi Ho Hserved Hmissing Herror. unfold serve_raw_blob. apply safe_read. intros s1 view Hi1 He1 Hw Hg.
  change ("lfs/objects/" +:+ oid) with (blob_key oid). pose proof (blob_server_key oid Ho) as Hk.
  assert (forall s' content, server_inv s' -> evolves s s' -> genuine (blob_key oid) content ->
    safe (good rq) s' (k (Served (mkResponse 200 (StreamBody (len content)
      (if verify_download_integrity a then integrity_verifying_stream oid sha256_new (stream_items content) else stream_items content)))))) as Hok.
  { intros s' content Hi' He' Hgen. apply Hserved; [done|done|by apply oid_names, genuine_blob|].
    destruct (verify_download_integrity a); [rewrite delivered_verifying|]; apply delivered_stream. }
  pose proof (proj1 (proj1 (Hw (blob_key oid) 1%nat))) as Hnp1.
  destruct (get_path view (blob_key oid) 1) as [[path|]|[]|] eqn:Ep; try (by apply Herror); try (by apply Hmissing); [| |done].
  - unfold open_object. destruct (sh_open_error host) as [[]|]; try (by apply Herror); try (by apply Hmissing).
    destruct path as [content|]; [|by apply Hmissing]. apply Hok; [done|done|]. eapply Hg; [done|left; exact Ep].
  - apply safe_download; [done|done|]. intros s2 r Hi2 He2 Hr Hd. assert (evolves s s2) as He by (eapply evolves_trans; [exact He1|exact He2]).
    destruct r as [[n d]|[]|]; try (by apply Herror); try (by apply Hmissing); [|done]. apply Hok; [done|done|]. by eapply Hd.
Qed.

Lemma download_lfs_safe s a v auth_header now raw_host rec_host oid :
  server_inv s -> safe (good (DownloadLfs raw_host rec_host oid)) s (download_lfs_object a v auth_header now raw_host rec_host oid).
Proof.
  intros Hi. unfold download_lfs_object. set (rq := DownloadLfs raw_host rec_host oid).
  pose proof (from_hex_outcome oid) as [Hnp Hwf]. destruct (from_hex oid) as [h| |] eqn:Eh; [|by apply safe_respond|done].
  destruct (Hwf h eq_refl) as (_ & _ & Hd). pose proof (from_hex_oid oid h (hex_decode_digits _ _ Hd) Eh) as Ho.
  apply safe_guarded; [apply respond_status|intros _]. set (from_index := Query _).
  assert (forall s', server_inv s' -> safe (good rq) s' from_index) as Hindex.
  { intros s1 Hi1. apply safe_query. intros s2 Hi2 He2. destruct (get_file_refs _ _) as [refs|]; [|by apply safe_respond].
    unfold serve_verified_xet_reconstruction. apply safe_read. intros s3 view Hi3 He3 Hw _.
    destruct (verified_sound oid refs view Hw) as [Hnp3 Hsound].
    destruct (reconstruct_verified_file_to_temp _ _ _) as [r|e|]; [|apply safe_respond; by destruct (is_stale e)|done].
    destruct (sh_open_error rec_host); [by apply safe_respond|]. destruct (Hsound r eq_refl) as (h' & raws & Hh & Hc & Hsz & Hwhole).
    apply safe_ok. intros s4 _ _. exists (rec_content r), (stream_items (rec_content r)). rewrite Hsz. split; [by exists h', raws|].
    split; [done|apply delivered_stream]. }
  intros s1 Hi1 He1. split; [by apply blob_server_key|]. pose proof (exists_total (sv_store s1) ("lfs/objects/" +:+ oid) (proj1 (proj1 Hi1))).
  destruct (st_exists (sv_store s1) ("lfs/objects/" +:+ oid)) as [[]|e|]; [|by apply Hindex|by apply safe_respond|done].
  apply serve_raw_blob_safe; [done|done| | |].
  - intros s2 content items Hi2 He2 Hn Hdel.
    assert (forall s, safe (good rq) s (Respond (mkResponse 200 (StreamBody (len content) items)))) as Hok
      by (intros s'; apply safe_ok; intros s3 _ _; by exists content, items).
    destruct (conversion_enabled a); [|apply Hok]. intros s3 Hi3 He3. split; [done|]. intros answer. apply Hok.
  - intros s2 Hi2 He2. by apply Hindex.
  - intros s2 r Hi2 He2 Hr. by apply safe_respond.
Qed.

(** ** Lemmas: queries *)
Lemma plan_candidates_safe file_id h size refs : from_hex file_id = Ok h -> size_true h size ->
  forall s, safe (good (GetReconstruction file_id)) s (plan_candidates file_id h refs).
Proof.
  intros Hf Hsz. induction refs as [|r refs IH]; intros s; cbn [plan_candidates]; [by apply safe_respond|].
  apply safe_read. intros s1 view Hi1 He1 Hw _. destruct (fetched_shard view ("shards/" +:+ fr_shard_id r) Hw) as [Hnp Hok].
  destruct (parse_shard_from_storage _ _) as [shard| |]; [|apply IH|done]. destruct (Hok shard eq_refl) as (file & Hl & _ & W & _).
  destruct (shard_wf_groups _ shard W) as (fgs & xgs & Hg). destruct (plan_iff shard (len file) fgs xgs h (Some (fr_file_index r)) W Hl Hg) as [Hnpp _].
  destruct (build_file_chunk_plan _ _ _) as [plan| |]; [|apply IH|done]. destruct (list_xorbs shard plan) as [xorbs info].
  apply safe_ok. intros s2 _ _. by exists h, size, xorbs, info.
Qed.

Lemma get_reconstruction_safe s v auth_header now file_id :
  safe (good (GetReconstruction file_id)) s (get_reconstruction v auth_header now file_id).
Proof.
  unfold get_reconstruction. apply safe_guarded; [apply respond_status|intros _]. destruct (negb _); [by apply safe_respond|].
  pose proof (from_hex_outcome file_id) as [Hnp _]. destruct (from_hex file_id) as [h| |] eqn:Eh; [|by apply safe_respond|done].
  apply safe_query. intros s1 Hi1 He1. destruct (get_file_refs (sv_index s1) h) as [[|r refs]|] eqn:Er; [by apply safe_respond| |by apply safe_respond].
  eapply plan_candidates_safe; [exact Eh|]. apply (index_size (sv_store s1) (sv_index s1) h r); [apply Hi1|]. rewrite Er. by left.
Qed.

Lemma query_dedup_safe s v auth_header now prefix hash :
  safe (good (QueryDedup prefix hash)) s (query_chunk_dedup v auth_header now prefix hash).
Proof.
  unfold query_chunk_dedup. apply safe_guarded; [apply respond_status|intros _]. destruct (negb _); [by apply safe_respond|].
  pose proof (from_hex_outcome hash) as [Hnp _]. destruct (from_hex hash) as [h| |] eqn:Eh; [|by apply safe_respond|done].
  assert (forall s, safe (good (QueryDedup prefix hash)) s (Respond (mkResponse 200 (DedupBody hash false None None)))) as Hnone
    by (intros s'; apply safe_ok; intros s2 _ _; by left).
  apply safe_query. intros s1 Hi1 He1. destruct (get_xorb_for_chunk (sv_index s1) h) as [[x i]|] eqn:Ec; [|apply Hnone].
  pose proof (index_chunk _ _ h x i (proj1 (proj2 (proj2 Hi1))) Ec) as Ht. apply safe_exists; [apply kept_xorb|].
  intros s2 b Hi2 He2 _. destruct b; [|apply Hnone]. apply safe_ok. intros s3 _ He3. right. exists h, x, i. split; [done|]. split; [done|].
  destruct Ht as [Hx Ht]. split; [|done]. eapply evolves_current; [eapply evolves_trans; [exact He2|exact He3]|apply kept_xorb|done].
Qed.

Lemma blob_lookup_safe s v auth_header now head_ oid :
  let rq := if head_ : bool then HeadBlob oid else GetBlobState oid in safe (good rq) s (blob_lookup v auth_header now head_ oid).
Proof.
  intros rq. unfold blob_lookup. pose proof (from_hex_outcome oid) as [Hnp Hwf]. destruct (from_hex oid) as [h| |] eqn:Eh; [|by apply safe_respond|done].
  destruct (Hwf h eq_refl) as (_ & _ & Hd). pose proof (from_hex_oid oid h (hex_decode_digits _ _ Hd) Eh) as Ho.
  assert (forall s state file_id n, size_true h n -> available s oid ->
    safe (good rq) s (Respond (mkResponse 200 (if head_ then HeadBody state file_id n else StateBody state file_id n oid)))) as Hfound.
  { intros s' state file_id n Hn Hav. apply safe_ok. intros s2 _ (_ & _ & He). apply He in Hav. subst rq. destruct head_; by exists state, file_id, n, h. }
  apply safe_guarded; [apply respond_status|intros _]. apply safe_query. intros s1 Hi1 He1.
  destruct (get_file_size (sv_index s1) h) as [n|] eqn:En.
  - apply Hfound; [eapply index_file_size; [apply Hi1|exact En]|right; exists h]. unfold get_file_size in En. unfold get_file_refs.
    destruct (file_to_shards (sv_index s1) !! h) as [[|r refs]|]; [done| |done]. exists r. split; [done|]. by left.
  - apply safe_size; [by apply blob_server_key|]. intros s2 answer Hi2 He2 Hnp2 Hsize.
    destruct answer as [n|[]|]; try (apply safe_respond; by destruct head_); [|done].
    destruct (Hsize n eq_refl) as (d & Hc & ->). apply Hfound; [exists [d]|left; split; [done|by eexists]]. cbn. rewrite app_nil_r. split; [|done].
    eapply oid_whole_hash; [|exact Eh]. apply genuine_blob; [done|]. apply Hi2; [by apply blob_server_key|done].
Qed.

Lemma batch_safe s a v auth_header now rq : safe (good (Batch rq)) s (batch_operation a v auth_header now rq).
Proof.
  unfold batch_operation. destruct (if (br_operation rq =? "upload")%string then _ else _) as [sc|]; [|by apply safe_respond].
  destruct (_ <? _)%nat; [by apply safe_respond|]. destruct (match br_transfers rq with Some _ => _ | None => _ end); [by apply safe_respond|].
  apply safe_guarded; [apply respond_message_status|intros claims]. by apply safe_ok.
Qed.

(** Every handler. *)
Lemma handle_safe s a v auth_header now rq :
  server_inv s -> app_ok a -> request_ok rq -> safe (good rq) s (handle a v auth_header now rq).
Proof.
  intros Hi Ha Hp. destruct rq; cbn [handle].
  - by apply upload_xorb_safe.
  - by apply upload_shard_safe.
  - by apply upload_lfs_safe.
  - by apply download_xorb_safe.
  - by apply download_lfs_safe.
  - apply get_reconstruction_safe.
  - apply query_dedup_safe.
  - apply (blob_lookup_safe s v auth_header now false).
  - apply (blob_lookup_safe s v auth_header now true).
  - apply batch_safe.
Qed.

(** ** Lemmas: conversions *)
Section Conversions.
Context (c : ConversionConfig) (Hmax : max_conversion_size c <= DEFAULT_MAX_CONVERSION_SIZE) (Hscheme : @config_scheme ConversionError c <> Panic).
Context (oid : string) (Ho : oid_ok oid).
#[local] Abbreviation converts := (safe (converted_true oid)).

Lemma safe_attempt {X} s (o : outcome ConversionError X) k :
  o <> Panic -> (forall a, o = Ok a -> converts s (k a)) -> converts s (attempt o k).
Proof. intros Hnp Hk. destruct o as [a|e|]; [by apply Hk|by intros s' _ _|done]. Qed.

Lemma storage_err_not_panic {X} msg (o : StorageResult X) : o <> Panic -> storage_err msg o <> Panic.
Proof. by destruct o. Qed.

(** The size of the blob is asked for. *)
Lemma safe_blob_size s msg (k : Z -> conversion) :
  (forall s' n, server_inv s' -> evolves s s' -> converts s' (k n)) ->
  converts s (Size (blob_key oid) (fun answer => attempt (storage_err msg answer) k)).
Proof.
  intros Hk s' Hi He. split; [by apply blob_server_key|]. apply safe_attempt; [|intros n _; by apply Hk].
  apply storage_err_not_panic, size_total, Hi.
Qed.

Lemma check_remote_safe s k :
  (forall s', server_inv s' -> evolves s s' -> converts s' (k tt)) -> converts s (check_remote_size c (blob_key oid) k).
Proof.
  intros Hk. apply safe_read. intros s1 view Hi1 He1 _ _.
  match goal with |- context [Size _ ?f] => assert (converts s1 (Size (blob_key oid) f)) as Hsize end.
  { apply safe_blob_size. intros s2 n Hi2 He2. apply safe_attempt; [apply check_size_not_panic|]. intros [] _.
    apply Hk; [done|by eapply evolves_trans]. }
  destruct (get_path view (blob_key oid) 1) as [[path|]| |]; [by apply Hk|exact Hsize..].
Qed.

Lemma open_blob_safe s available ledger k :
  (forall s' path, server_inv s' -> evolves s s' ->
     match path with Some raw => genuine (blob_key oid) raw /\ len raw < 2 ^ 64 | None => True end -> converts s' (k path)) ->
  converts s (open_blob_for_streaming available ledger (blob_key oid) k).
Proof.
  intros Hk. apply safe_read. intros s1 view Hi1 He1 Hw Hg.
  match goal with |- context [Size _ ?f] => assert (converts s1 (Size (blob_key oid) f)) as Hremote end.
  { apply safe_blob_size. intros s2 n Hi2 He2. pose proof (manager_reserve_not_panic available ledger n) as Hr.
    destruct (manager_reserve available ledger n) as [l r]. cbn [snd] in Hr. apply safe_attempt; [by destruct r as [|[]|]|]. intros res _.
    apply safe_read. intros s3 view3 Hi3 He3 Hw3 Hg3.
    assert (download_to_path_with_retries view3 (blob_key oid) <> Panic) as Hnp
      by (intros Hd; by apply (with_retries_not_panic _ _ (fun n => proj1 (proj2 (Hw3 (blob_key oid) n)))) in Hd).
    apply safe_attempt; [by apply storage_err_not_panic|]. intros blob Hb.
    apply safe_attempt; [by destruct (_ =? _)|]. intros _ _.
    apply safe_attempt; [pose proof (commit_written_not_panic l res n); by destruct (snd _)|]. intros _ _.
    destruct (download_to_path_with_retries view3 (blob_key oid)) as [blob'| |] eqn:Ed; [|done..]. injection Hb as ->.
    apply with_retries_Ok in Ed as [m Ed]. apply Hk; [done|by eapply evolves_trans; [|eapply evolves_trans]|].
    split; [eapply Hg3; [by apply blob_server_key|right; exact Ed]|]. by apply (proj2 (proj2 (Hw3 (blob_key oid) m))). }
  destruct (get_path view (blob_key oid) 2) as [[[raw|]|]| |] eqn:Ep; [|by apply Hk|exact Hremote..].
  apply Hk; [done|done|]. split; [eapply Hg; [by apply blob_server_key|left; exact Ep]|]. by apply (proj2 (proj1 (Hw (blob_key oid) 2%nat))).
Qed.

(** The shard, its registration, and only then the end of the blob. *)
Lemma store_shard_safe s raw scheme ds indexes :
  genuine (blob_key oid) raw -> blob_pieces raw ds -> chunks_fit scheme ds ->
  has (sv_store s) (xorb_key (xorb_hash (part_nodes (parts_of scheme ds)))) ->
  converts s (store_shard c oid (len raw) (blob_xorb scheme ds) (conv_of indexes scheme ds [])).
Proof.
  intros Hgen Hds Hfit Hx. set (xh := xorb_hash (part_nodes (parts_of scheme ds))) in *.
  pose proof (genuine_blob oid raw Ho Hgen) as Hoid. unfold store_shard. destruct (from_hex_outcome oid) as [Hfp Hfh].
  apply safe_attempt; [by destruct (from_hex oid)|]. intros h Eh. destruct (from_hex oid) as [h'| |] eqn:Ehex; [|done..]. injection Eh as ->.
  destruct (Hfh h eq_refl) as [Hh _]. destruct (build_shard_spec scheme ds h Hfit Hh indexes) as (buf & -> & Hl & _). cbn [attempt].
  set (sh := to_hex (compute_data_hash buf)). intros s1 Hi1 He1.
  split; [by apply kept_shard, to_hex_oid|]. split; [done|]. split; [left; by right|]. intros st answer Hput.
  destruct (put_preserves s1 ("shards/" +:+ sh) buf st answer Hi1 ltac:(by apply kept_shard, to_hex_oid) Hl ltac:(left; by right) ltac:(by right))
    as (Hi1' & He1' & Hnp & Hstored).
  apply safe_attempt; [by apply storage_err_not_panic|]. intros [] Ha. assert (answer = Ok tt) as Eanswer by (by destruct answer as [[]| |]).
  specialize (Hstored Eanswer). intros s2 Hi2 He2.
  assert (evolves s s2) as He02 by (eapply evolves_trans; [exact He1|]; by eapply evolves_trans).
  assert (has (sv_store s2) ("shards/" +:+ sh)) as Hsh by (apply (evolves_current _ _ He2); [apply kept_shard, to_hex_oid|exact Hstored]).
  assert (registration_true (sv_store s2) (mkRegistration sh [mkFileMapping h 0 (len raw)] (verified_chunks_of xh (map compute_data_hash ds)))) as Hrt.
  { apply (conversion_registration (sv_store s2) oid h scheme raw ds sh Ehex Hoid Hfit); [|exact Hsh|apply to_hex_oid].
    apply (evolves_current _ _ He02); [apply kept_xorb|exact Hx]. }
  cbn [blob_xorb xb_xorb_hash conv_of cv_raw_chunk_hashes]. fold xh. split; [exact Hrt|]. intros index answer2 Hreg.
  destruct (register_preserves s2 _ index answer2 Hi2 Hrt Hreg) as (Hi2' & He2' & Hnp2 & Hin).
  apply safe_attempt; [by destruct answer2|]. intros [] Ha2. assert (answer2 = Ok tt) as -> by (by destruct answer2 as [[]| |]).
  specialize (Hin eq_refl (mkFileMapping h 0 (len raw)) ltac:(by left)). cbn in Hin.
  assert (indexed (set_index s2 index) oid) as Hix by (by exists h, (mkRef sh 0 (len raw))).
  assert (forall s3 r, evolves (set_index s2 index) s3 -> cr_shard_hash r = sh -> converts s3 (Respond (Ok r))) as Hdone.
  { intros s3 r He3 Er s4 _ He4. assert (evolves (set_index s2 index) s4) as He by (by eapply evolves_trans). cbn. rewrite Er.
    split; [by eapply indexed_evolves|]. apply (evolves_current _ _ He); [apply kept_shard, to_hex_oid|exact Hsh]. }
  destruct (delete_raw_after_conversion c); [|apply Hdone; [apply evolves_refl|done]].
  intros s3 Hi3 He3. assert (indexed s3 oid) as Hix3 by (by eapply indexed_evolves). split; [by exists oid|]. intros st3 answer3 Hdel.
  destruct (delete_preserves s3 oid st3 answer3 Hi3 Ho Hix3 Hdel) as [_ He3']. apply Hdone; [by eapply evolves_trans|done].
Qed.

Lemma store_xorb_safe s raw :
  genuine (blob_key oid) raw -> len raw < 2 ^ 64 -> len raw <= max_conversion_size c -> converts s (store_xorb c oid raw).
Proof.
  intros Hgen Hl Hle. unfold store_xorb. apply safe_attempt; [done|]. intros scheme Hs. destruct (blob_pieces_exist raw) as [ds Hds].
  pose proof (pieces_fit scheme raw ds Hds ltac:(lia)) as Hfit. destruct (chunks_parts_fit _ _ Hfit) as [_ Hbf].
  intros s1 Hi1 He1 indexes. destruct (chunk_blob_spec indexes scheme raw ds Hds Hl Hbf) as [-> _]. cbn [attempt].
  change (cv_builder (conv_of indexes scheme ds [])) with (builder_of scheme (parts_of scheme ds)).
  pose proof (build_blob_not_panic scheme ds) as Hnp. apply safe_attempt; [by destruct (XorbBuilder.build _)|]. intros xr Hxr.
  destruct (XorbBuilder.build _) as [xr'| |] eqn:Eb; [|done..]. injection Hxr as ->. apply build_blob in Eb as ->.
  set (xh := xorb_hash (part_nodes (parts_of scheme ds))). change (xb_xorb_hash (blob_xorb scheme ds)) with xh.
  change ("xorbs/" +:+ to_hex xh) with (xorb_key xh). intros s2 Hi2 He2. split; [apply kept_xorb|].
  pose proof (exists_total (sv_store s2) (xorb_key xh) (proj1 (proj1 Hi2))) as Hex. apply safe_attempt; [by apply storage_err_not_panic|].
  intros [] Hb; (destruct (st_exists (sv_store s2) (xorb_key xh)) as [b| |] eqn:E; [|done..]); injection Hb as ->.
  - apply store_shard_safe; [done..|]. apply exists_reads in E; [|apply Hi2|apply kept_xorb]. by apply (bool_decide_eq_true_1 _ (eq_sym E)).
  - intros s3 Hi3 He3. split; [apply kept_xorb|]. split; [by apply xorb_bytes_small|]. split; [left; left; by exists (parts_of scheme ds)|].
    intros st answer Hput.
    destruct (put_preserves s3 (xorb_key xh) (xorb_bytes (parts_of scheme ds)) st answer Hi3 ltac:(apply kept_xorb) (xorb_bytes_small scheme ds Hfit)
      ltac:(left; left; by exists (parts_of scheme ds)) ltac:(by right)) as (_ & _ & Hnp3 & Hstored).
    apply safe_attempt; [by apply storage_err_not_panic|]. intros [] Ha. apply store_shard_safe; [done..|]. apply Hstored. by destruct answer as [[]| |].
Qed.

Lemma convert_safe s available ledger : converts s (convert_steps c available ledger oid).
Proof.
  unfold convert_steps. destruct (negb (cc_enabled c)); [by intros s' _ _|]. apply check_remote_safe. intros s1 Hi1 He1.
  apply open_blob_safe. intros s2 path Hi2 He2 Hpath. apply safe_attempt; [by destruct path|]. intros raw Hraw. destruct path as [raw'|]; [|done].
  injection Hraw as ->. destruct Hpath as [Hg Hl]. apply safe_attempt; [apply check_size_not_panic|]. intros [] Hc. apply store_xorb_safe; [done..|].
  unfold check_size in Hc. destruct (_ <? _); [done|]. destruct (Z.ltb_spec (max_conversion_size c) (len raw)); [done|lia].
Qed.
End Conversions.

(** ** Lemmas: the system *)
Lemma listed_elem items key : key ∈ listed items -> Ok key ∈ items.
Proof.
  induction items as [|[k|e|] items IH]; cbn; intros Hk; try (by apply elem_of_nil in Hk).
  apply elem_of_cons in Hk as [->|Hk]; [by left|right; auto].
Qed.

Lemma substring_all name : String.substring 0 (String.length name) name = name.
Proof. induction name as [|a name IH]; [done|]. cbn. by rewrite IH. Qed.

Lemma strip_shards name : strip_prefix_or_self "shards/" ("shards/" +:+ name) = name.
Proof.
  change ("shards/" +:+ name) with
    (String "s"%char (String "h"%char (String "a"%char (String "r"%char (String "d"%char (String "s"%char (String "/"%char name))))))).
  unfold strip_prefix_or_self. cbn [String.prefix String.length].
  repeat (destruct (Ascii.ascii_dec _ _); [|done]). cbn. rewrite Nat.sub_0_r. destruct name; [done|apply substring_all].
Qed.

(** What a task of the rebuild registers is true. *)
Lemma rebuilt_registration st view key reg :
  store_genuine st -> observes [st] view -> (exists name, key = "shards/" +:+ name /\ oid_ok name /\ has st key) ->
  index_task view key = Ok (Some reg) -> registration_true st reg.
Proof.
  intros Hg Hobs (name & -> & Ho & Hh) Ht.
  set (s := mkServer [] st index_new ∅).
  assert (server_inv s) as Hi by (split; [done|]; split; [constructor|]; split; [exists []; split; [apply represents_new|constructor]|set_solver]).
  destruct (observed s s view Hi (evolves_refl s)) as [Hw Hseen]; [done|].
  unfold index_task in Ht. destruct (fetched_shard view ("shards/" +:+ name) Hw) as [_ Hok].
  destruct (parse_shard_from_storage _ _) as [shard| |]; [|done..]. destruct (Hok shard eq_refl) as (file & Hl & _ & W & _).
  assert (strip_prefix_or_self "shards/" ("shards/" +:+ name) = name) as Estrip by apply strip_shards.
  rewrite Estrip in Ht. destruct (validate_shard_for_index name shard view) as [reg'| |] eqn:Ev; [|done..]. injection Ht as ->.
  destruct (validated_registered s name shard view (len file) reg Hi W Hl Hw Hseen Ev Ho) as (_ & Hr & _).
  by apply (Hr s (evolves_refl s)).
Qed.

Lemma rebuilt_true st views items index answer :
  store_genuine st -> (forall n, observes [st] (views n)) -> listing_of st items ->
  rebuild_from_storage views index_new items = Some (index, answer) -> index_true st index.
Proof.
  intros Hg Hobs Hlist Hr. destruct (rebuild_spec views items) as (index' & counts & k & Hr' & Haw & _). rewrite Hr in Hr'. injection Hr' as -> _.
  destruct Haw as (_ & Hrep & Hk & _). exists k. split; [done|]. apply Forall_forall. intros reg Hin. specialize (Hk reg Hin).
  apply results_task in Hk as (i & key & Hlisted & Htask). apply list_elem_of_lookup_2, listed_elem, Hlist in Hlisted as (name & -> & Hd & Hn & Hex).
  eapply rebuilt_registration; [done|apply (Hobs i)| |by symmetry]. exists name. split; [done|]. split; [done|].
  apply exists_reads in Hex; [|apply Hg|by apply kept_shard]. by apply (bool_decide_eq_true_1 _ (eq_sym Hex)).
Qed.

Definition thread_ok {A} (post : server -> A -> Prop) (s : server) (th : thread A) : Prop :=
  exists s0, length (sv_past s0) = th_since th /\ evolves s0 s /\ safe post s0 (th_prog th).
Definition request_thread_ok (s : server) (entry : request * thread response) : Prop := thread_ok (good entry.1) s entry.2.
Definition conversion_thread_ok (s : server) (entry : string * thread (outcome ConversionError ConversionResult)) : Prop :=
  thread_ok (converted_true entry.1) s entry.2.
Definition system_inv (sys : system) : Prop :=
  server_inv (sys_server sys) /\ Forall (request_thread_ok (sys_server sys)) (sys_requests sys) /\
  Forall (conversion_thread_ok (sys_server sys)) (sys_conversions sys).

Lemma prog_step_safe {A} (post : server -> A -> Prop) s s0 since p s' p' :
  server_inv s -> length (sv_past s0) = since -> evolves s0 s -> safe post s0 p -> prog_step s since p s' p' ->
  server_inv s' /\ evolves s s' /\ safe post s' p'.
Proof.
  intros Hi Hl He Hs Hstep. destruct Hstep; specialize (Hs s Hi He); cbn in Hs.
  - split; [done|]. split; [apply evolves_refl|apply Hs].
  - split; [done|]. split; [apply evolves_refl|apply Hs].
  - split; [done|]. split; [apply evolves_refl|]. apply Hs. by rewrite Hl.
  - destruct Hs as (Hk & Hd & Hg & Hs). edestruct put_preserves as (Hi' & He' & _); [exact Hi|exact Hk|exact Hd|exact Hg|by left|].
    split; [done|]. split; [done|]. by apply Hs.
  - destruct Hs as (Hk & Hd & Hg & Hs). edestruct put_preserves as (Hi' & He' & _); [exact Hi|exact Hk|exact Hd|exact Hg|by right|].
    split; [done|]. split; [done|]. by apply Hs.
  - destruct Hs as [(oid & -> & Ho & Hix) Hs]. edestruct delete_preserves as (Hi' & He'); [exact Hi|exact Ho|exact Hix|done|].
    split; [done|]. split; [done|]. by eapply Hs.
  - split; [done|]. split; [apply evolves_refl|apply Hs].
  - split; [done|]. split; [apply evolves_refl|apply Hs].
  - destruct Hs as [Hr Hs]. edestruct register_preserves as (Hi' & He' & _); [exact Hi|exact Hr|done|]. split; [done|]. split; [done|]. by apply Hs.
  - destruct Hs as [Ho Hs]. destruct (enqueue_preserves s oid answer Hi Ho). split; [done|]. split; [done|]. apply Hs.
Qed.

Lemma thread_evolves {A} (post : server -> A -> Prop) s s' th : evolves s s' -> thread_ok post s th -> thread_ok post s' th.
Proof. intros He (s0 & Hl & He0 & Hs). exists s0. split; [done|]. split; [by eapply evolves_trans|done]. Qed.

Lemma thread_starts {A} (post : server -> A -> Prop) s p : safe post s p -> thread_ok post s (mkThread p (length (sv_past s))).
Proof. intros Hs. exists s. split; [done|]. split; [apply evolves_refl|done]. Qed.

(** A step of one program, beside the others. *)
Lemma thread_steps {A} (post : server -> A -> Prop) s th s' p' :
  server_inv s -> thread_ok post s th -> prog_step s (th_since th) (th_prog th) s' p' ->
  server_inv s' /\ evolves s s' /\ thread_ok post s' (mkThread p' (length (sv_past s'))).
Proof.
  intros Hi (s0 & Hl & He & Hs) Hps. destruct (prog_step_safe post s s0 _ _ s' p' Hi Hl He Hs Hps) as (Hi' & He' & Hs').
  split; [done|]. split; [done|]. by apply thread_starts.
Qed.

Lemma threads_evolve {K A} (post : K -> server -> A -> Prop) s s' (entries : list (K * thread A)) :
  evolves s s' -> Forall (fun entry => thread_ok (post entry.1) s entry.2) entries -> Forall (fun entry => thread_ok (post entry.1) s' entry.2) entries.
Proof. intros He Hall. eapply Forall_impl; [exact Hall|]. intros entry. by apply thread_evolves. Qed.

Context (c : ConversionConfig) (Hmax : max_conversion_size c <= DEFAULT_MAX_CONVERSION_SIZE) (Hscheme : @config_scheme ConversionError c <> Panic).

Lemma step_inv sys sys' : system_inv sys -> step c sys sys' -> system_inv sys'.
Proof.
  intros (Hi & Ht & Hc) Hstep. destruct Hstep as [s requests conversions a v hdr now rq Ha Hp|s requests conversions i rq th s' p' Hlk Hps|
    s requests conversions oid available ledger Hq|s requests conversions i oid th s' p' Hlk Hps|
    s requests conversions views items index answer Hobs Hlist Hr]; cbn [sys_server sys_requests sys_conversions] in *; unfold system_inv;
    cbn [sys_server sys_requests sys_conversions].
  - split; [done|]. split; [|done]. apply Forall_app. split; [done|]. constructor; [|done]. by apply thread_starts, handle_safe.
  - destruct (thread_steps (good rq) s th s' p' Hi) as (Hi' & He & Hth); [exact (proj1 (Forall_lookup _ _) Ht i _ Hlk)|done|].
    split; [done|]. split; [|by eapply (threads_evolve converted_true)]. apply Forall_insert; [|done]. by eapply (threads_evolve good).
  - destruct (dequeue_preserves s oid Hi) as [Hi' He]. split; [done|]. split; [by eapply (threads_evolve good)|]. apply Forall_app.
    split; [by eapply (threads_evolve converted_true)|]. constructor; [|done].
    apply (thread_evolves _ s); [done|]. apply thread_starts. apply convert_safe; [done|done|]. by apply Hi.
  - destruct (thread_steps (converted_true oid) s th s' p' Hi) as (Hi' & He & Hth); [exact (proj1 (Forall_lookup _ _) Hc i _ Hlk)|done|].
    split; [done|]. split; [by eapply (threads_evolve good)|]. apply Forall_insert; [|done]. by eapply (threads_evolve converted_true).
  - destruct Hi as (Hg & Hp & _ & _). split; [|by split; constructor]. split; [done|]. split; [done|]. split; [by eapply rebuilt_true|set_solver].
Qed.

Lemma server_reachable_inv st sys : store_genuine st -> rtc (step c) (started st) sys -> system_inv sys.
Proof.
  intros Hg Hr. assert (system_inv (started st)) as Hinit.
  { split; [|by split; constructor]. split; [done|]. split; [constructor|]. split; [exists []; split; [apply represents_new|constructor]|set_solver]. }
  induction Hr as [|sys sys1 sys2 Hs _ IH]; [done|]. apply IH. by eapply step_inv.
Qed.
End Safety.
