(* ===== verification/CasSafety.v ===== *)
(** * What the CAS server guarantees

    The theorems about the handlers and the whole server ([CasApi],
    [CasServer]): integrity of every successful response, authorization before
    any access, the listings and the tokens that are handed out. *)
From S2P Require Import Prelude Bytes Crates MerkleHash Hash Cdc Compression Xorb Shard ReconPlan Text Storage Index ShardIo ObjectStore.
From S2P Require Import ShardValidation Rebuild Reconstruction Quota TokenCrates Tokens CasAuth Scheduler Operations Conversion Converted Payload CasApi CasServer.

Local Open Scope string_scope.
Local Open Scope list_scope.
Local Open Scope Z_scope.

(** ** Running a program alone *)
Section Run.
Context `{Blake3, HexCrate, Sha2, Lz4, GearHash, FileReads, ReaderStream, ObjectStore} `{Base64, TokenJson, Ed25519}.

(** The operations one after the other; the scheduler accepts what it is given. *)
Fixpoint run {A} (s : server) (p : program A) : server * option A :=
  match p with
  | Respond r => (s, Some r)
  | Crash => (s, None)
  | Operations.Exists key k => run s (k (st_exists (sv_store s) key))
  | Size key k => run s (k (st_get_size (sv_store s) key))
  | Read k => run s (k (reads (sv_store s)))
  | PutFile key data k => let '(st, answer) := st_put_from_path (sv_store s) key data in run (set_store s st) (k answer)
  | Put key data k => let '(st, answer) := st_put (sv_store s) key data in run (set_store s st) (k answer)
  | Delete key k => let '(st, answer) := st_delete (sv_store s) key in run (set_store s st) (k answer)
  | Query k => run s (k (sv_index s))
  | Queries k => run s (k (fun _ => sv_index s))
  | Register registration k =>
      let '(index, answer) := register_verified_shard (sv_index s) registration in run (set_index s index) (k answer)
  | Enqueue oid k => run (enqueue s oid (Some Accepted)) (k (Some Accepted))
  end.

Definition finished {A} (answer : option A) : program A := match answer with Some r => Respond r | None => Crash end.

(** A step of one program. *)
Definition thread_step {A} (before after : server * thread A) : Prop :=
  prog_step before.1 (th_since before.2) (th_prog before.2) after.1 (th_prog after.2) /\ th_since after.2 = length (sv_past after.1).

Lemma run_thread {A} (p : program A) : forall s since, exists since',
  rtc thread_step (s, mkThread p since) ((run s p).1, mkThread (finished (run s p).2) since').
Proof.
  assert (forall s since p s' p', prog_step s since p s' p' ->
    (forall since, exists since', rtc thread_step (s', mkThread p' since) ((run s' p').1, mkThread (finished (run s' p').2 : program A) since')) ->
    exists since', rtc thread_step (s, mkThread p since) ((run s' p').1, mkThread (finished (run s' p').2) since')) as Hone.
  { intros s since q s' q' Hs Hrest. destruct (Hrest (length (sv_past s'))) as [since' Hr]. exists since'. eapply rtc_l; [|exact Hr]. by split. }
  induction p as [r| |key k IH|key k IH|k IH|key data k IH|key data k IH|key k IH|k IH|k IH|reg k IH|oid k IH]; intros s since; cbn [run].
  - by exists since.
  - by exists since.
  - eapply Hone; [apply p_exists|apply IH].
  - eapply Hone; [apply p_size|apply IH].
  - eapply Hone; [apply p_read|apply IH]. intros key n. split; exists (sv_store s); (split; [by left|done]).
  - destruct (st_put_from_path (sv_store s) key data) as [st answer] eqn:E. eapply Hone; [by apply p_put_file|apply IH].
  - destruct (st_put (sv_store s) key data) as [st answer] eqn:E. eapply Hone; [by apply p_put|apply IH].
  - destruct (st_delete (sv_store s) key) as [st answer] eqn:E. eapply Hone; [by apply p_delete|apply IH].
  - eapply Hone; [apply p_query|apply IH].
  - eapply Hone; [apply p_queries|apply IH].
  - destruct (register_verified_shard (sv_index s) reg) as [index answer] eqn:E. eapply Hone; [by apply p_register|apply IH].
  - eapply Hone; [apply p_enqueue|apply IH].
Qed.

(** The steps of one request, or of one conversion, are steps of the system. *)
Lemma request_steps c s th s' th' requests conversions i rq :
  rtc thread_step (s, th) (s', th') -> requests !! i = Some (rq, th) ->
  rtc (step c) (mkSystem s requests conversions) (mkSystem s' (<[i := (rq, th')]> requests) conversions).
Proof.
  intros Hr. remember (s, th) as x eqn:Ex. remember (s', th') as y eqn:Ey. revert s th requests Ex Ey.
  induction Hr as [x|x [s1 th1] y [Hs Hsince] _ IH]; intros s th requests -> Ey Hi.
  - injection Ey as -> ->. by rewrite list_insert_id.
  - cbn [fst snd] in *. destruct th1 as [p1 since1]. cbn [th_prog th_since] in *. subst since1. eapply rtc_l; [by eapply step_thread|].
    rewrite <- (list_insert_insert_eq requests i (rq, th') (rq, mkThread p1 (length (sv_past s1)))).
    apply (IH s1 _ _ eq_refl Ey). apply list_lookup_insert_eq. by eapply lookup_lt_Some.
Qed.

Lemma conversion_steps c s th s' th' requests conversions i oid :
  rtc thread_step (s, th) (s', th') -> conversions !! i = Some (oid, th) ->
  rtc (step c) (mkSystem s requests conversions) (mkSystem s' requests (<[i := (oid, th')]> conversions)).
Proof.
  intros Hr. remember (s, th) as x eqn:Ex. remember (s', th') as y eqn:Ey. revert s th conversions Ex Ey.
  induction Hr as [x|x [s1 th1] y [Hs Hsince] _ IH]; intros s th conversions -> Ey Hi.
  - injection Ey as -> ->. by rewrite list_insert_id.
  - cbn [fst snd] in *. destruct th1 as [p1 since1]. cbn [th_prog th_since] in *. subst since1. eapply rtc_l; [by eapply step_converting|].
    rewrite <- (list_insert_insert_eq conversions i (oid, th') (oid, mkThread p1 (length (sv_past s1)))).
    apply (IH s1 _ _ eq_refl Ey). apply list_lookup_insert_eq. by eapply lookup_lt_Some.
Qed.

(** A request that is made, and served before anything else happens. *)
Lemma request_finishes c s requests conversions a auth auth_header now rq s' r :
  run s (handle a auth auth_header now rq) = (s', Some r) -> exists since,
  rtc (step c) (mkSystem s (requests ++ [(rq, mkThread (handle a auth auth_header now rq) (length (sv_past s)))]) conversions)
    (mkSystem s' (requests ++ [(rq, mkThread (Respond r) since)]) conversions).
Proof.
  intros Hrun. destruct (run_thread (handle a auth auth_header now rq) s (length (sv_past s))) as [since Hr]. rewrite Hrun in Hr.
  exists since. eapply (request_steps c _ _ _ _ _ conversions (length requests) rq) in Hr; [|by apply list_lookup_middle].
  by rewrite insert_app_r_alt, Nat.sub_diag in Hr by lia.
Qed.

Lemma request_runs c s requests conversions a auth auth_header now rq s' r :
  app_ok a -> request_ok rq -> run s (handle a auth auth_header now rq) = (s', Some r) ->
  exists since, rtc (step c) (mkSystem s requests conversions) (mkSystem s' (requests ++ [(rq, mkThread (Respond r) since)]) conversions).
Proof.
  intros Ha Hp Hrun. destruct (request_finishes c s requests conversions a auth auth_header now rq s' r Hrun) as [since Hr].
  exists since. eapply rtc_l; [by apply step_request|exact Hr].
Qed.

(** A conversion that ends before anything else happens. *)
Lemma conversion_runs c s requests conversions oid available ledger s' answer :
  oid ∈ sv_queue s -> run (dequeue s oid) (convert_steps c available ledger oid) = (s', Some answer) ->
  exists since, rtc (step c) (mkSystem s requests conversions) (mkSystem s' requests (conversions ++ [(oid, mkThread (Respond answer) since)])).
Proof.
  intros Hq Hrun. destruct (run_thread (convert_steps c available ledger oid) (dequeue s oid) (length (sv_past s))) as [since Hr]. rewrite Hrun in Hr.
  exists since. eapply rtc_l; [by apply step_convert|].
  eapply (conversion_steps c _ _ _ _ requests _ (length conversions) oid) in Hr; [|by apply list_lookup_middle].
  by rewrite insert_app_r_alt, Nat.sub_diag in Hr by lia.
Qed.
End Run.

(** ** What a finished request was answered *)
Lemma answered_true `{Blake3Laws, HexLaws, !HexDigitsLaw, Sha2Laws, Lz4Laws, GearLaws, FileReadsLaws, ReaderStreamLaws, StoreLaws}
    `{Base64Laws, TokenJsonLaws, Ed25519Laws} c st sys i rq th r :
  max_conversion_size c <= DEFAULT_MAX_CONVERSION_SIZE -> @config_scheme ConversionError c <> Panic ->
  store_genuine st -> rtc (step c) (started st) sys -> sys_requests sys !! i = Some (rq, th) -> th_prog th = Respond r ->
  succeeded r = true -> claim rq (sys_server sys) (rs_body r).
Proof.
  intros Hmax Hscheme Hg Hr Hi Hp Hst. destruct (server_reachable_inv c Hmax Hscheme st sys Hg Hr) as (Hinv & Ht & _).
  rewrite Forall_lookup in Ht. destruct (Ht i _ Hi) as (s0 & _ & He & Hs). cbn [snd] in Hs. rewrite Hp in Hs. exact (Hs _ Hinv He Hst).
Qed.

(** ** Properties *)

(** C2: Whatever requests, conversions and restarts are interleaved on a storage that starts out genuine,
    operation by operation, no handler and no conversion crashes, and in every state, also in the middle of a
    conversion, every response with a status of success is true: a xorb or shard that was uploaded is stored
    and indexed, an uploaded object is in the storage or in the index, a downloaded body has the hash it was
    asked for and its declared length, a deduplication answer leads to a stored xorb with that chunk, and a
    reported size is that of a content with that hash, which is in the storage or in the index.  A conversion
    that has succeeded has its file in the index and its shard in the storage.  The objects in the storage stay
    genuine and everything the index answers stays true. *)
Theorem server_integrity `{Blake3Laws, HexLaws, !HexDigitsLaw, Sha2Laws, Lz4Laws, GearLaws, FileReadsLaws, ReaderStreamLaws, StoreLaws}
    `{Base64Laws, TokenJsonLaws, Ed25519Laws} c st sys :
  max_conversion_size c <= DEFAULT_MAX_CONVERSION_SIZE -> @config_scheme ConversionError c <> Panic ->
  store_genuine st -> rtc (step c) (started st) sys ->
  (forall i rq th, sys_requests sys !! i = Some (rq, th) -> th_prog th <> Crash /\
     forall r, th_prog th = Respond r -> succeeded r = true -> claim rq (sys_server sys) (rs_body r)) /\
  (forall i oid th, sys_conversions sys !! i = Some (oid, th) -> th_prog th <> Crash /\
     forall r, th_prog th = Respond (Ok r) -> indexed (sys_server sys) oid /\ has (sv_store (sys_server sys)) ("shards/" +:+ cr_shard_hash r)) /\
  (forall key data, server_key key -> contents (sv_store (sys_server sys)) key = Some data -> genuine key data) /\
  (forall h n, get_file_size (sv_index (sys_server sys)) h = Some n -> size_true h n) /\
  (forall h x i, get_xorb_for_chunk (sv_index (sys_server sys)) h = Some (x, i) -> chunk_true (sv_store (sys_server sys)) h x i).
Proof.
  intros Hmax Hscheme Hg Hr. destruct (server_reachable_inv c Hmax Hscheme st sys Hg Hr) as (Hi & Ht & Hc).
  assert (forall A (post : server -> A -> Prop) th, thread_ok post (sys_server sys) th ->
    th_prog th <> Crash /\ forall r, th_prog th = Respond r -> post (sys_server sys) r) as Hend.
  { intros A post th (s0 & _ & He & Hs). split; [intros E|intros r E]; rewrite E in Hs; exact (Hs _ Hi He). }
  rewrite Forall_lookup in Ht. rewrite Forall_lookup in Hc. split; [|split; [|split; [|split]]].
  - intros i rq th Hlk. destruct (Hend _ _ th (Ht i _ Hlk)) as [Hnc Hresp]. split; [done|]. intros r Er Hst. by apply Hresp.
  - intros i oid th Hlk. destruct (Hend _ _ th (Hc i _ Hlk)) as [Hnc Hresp]. split; [done|]. intros r Er. exact (Hresp _ Er).
  - apply Hi.
  - intros h n. apply (index_file_size (sv_store (sys_server sys))), Hi.
  - intros h x i. apply index_chunk, Hi.
Qed.

(** What the guard of a request asks for. *)
Definition need_of (rq : request) : AuthNeed :=
  match rq with
  | UploadXorb _ _ _ _ | UploadShard _ _ => Scope "write"
  | UploadLfs _ oid _ => LfsObject Upload oid "Insufficient scope or invalid LFS upload token"
  | DownloadXorb _ _ _ => Scope "read"
  | DownloadLfs _ _ oid => LfsObject Download oid "Insufficient scope or invalid LFS download token"
  | GetReconstruction _ | QueryDedup _ _ => ScopeMsg "read" "Insufficient scope, 'read' required"
  | GetBlobState _ | HeadBlob _ => NeedInternal "Internal endpoint requires internal token type and scope"
  | Batch rq => Scope (if (br_operation rq =? "upload")%string then "write" else "read")
  end.

(** No handler touches the storage, the index or the scheduler for a caller the guard rejects: the request
    is answered at once, as a bad request or with the guard's own status. *)
Theorem rejected_before_any_access `{Blake3Laws, HexLaws, Sha2Laws, Lz4Laws, FileReadsLaws, ReaderStream}
    `{Base64Laws, TokenJsonLaws, Ed25519Laws} a auth auth_header now rq rej :
  require_auth auth_header auth now (need_of rq) = Err rej ->
  exists r, handle a auth auth_header now rq = Respond r /\
    (rs_status r = 400 \/ rs_status r = fst (error_parts rej) /\ (fst (error_parts rej) = 401 \/ fst (error_parts rej) = 403)).
Proof.
  intros Hrej.
  assert (forall reject k, guarded auth auth_header now (need_of rq) reject k = Respond (reject rej)) as Hg
    by (intros; unfold guarded; by rewrite Hrej).
  assert (fst (error_parts rej) = 401 \/ fst (error_parts rej) = 403) as Hs by (destruct rej; auto).
  assert (forall msg, exists r, Respond (error 400 msg) = Respond r /\ (rs_status r = 400 \/ rs_status r = fst (error_parts rej) /\ (fst (error_parts rej) = 401 \/ fst (error_parts rej) = 403))) as H400
    by (intros msg; eexists; split; [done|by left]).
  assert (exists r, Respond (respond rej) = Respond r /\ (rs_status r = 400 \/ rs_status r = fst (error_parts rej) /\ (fst (error_parts rej) = 401 \/ fst (error_parts rej) = 403))) as Hresp
    by (eexists; split; [done|right; split; [by destruct rej|done]]).
  assert (forall s, from_hex s <> Panic) as Hhex by (intros s; apply from_hex_outcome).
  destruct rq; cbn [handle need_of] in *;
    unfold upload_xorb, upload_shard, upload_lfs_object, download_xorb, download_lfs_object, get_reconstruction, query_chunk_dedup, get_blob_state,
      head_blob, blob_lookup; rewrite ?Hg.
  - destruct (negb _); [apply H400|]. specialize (Hhex hash_str). destruct (from_hex hash_str); [by rewrite Hg|apply H400|done].
  - apply Hresp.
  - destruct (negb _); [apply H400|apply Hresp].
  - destruct (negb _); [apply H400|]. specialize (Hhex hash_str). destruct (from_hex hash_str); [by rewrite Hg|apply H400|done].
  - specialize (Hhex oid). destruct (from_hex oid); [by rewrite Hg|apply H400|done].
  - apply Hresp.
  - apply Hresp.
  - specialize (Hhex oid). destruct (from_hex oid); [by rewrite Hg|apply H400|done].
  - specialize (Hhex oid). destruct (from_hex oid); [by rewrite Hg|apply H400|done].
  - assert (forall msg, exists r, Respond (mkResponse 400 (MessageBody msg)) = Respond r /\ (rs_status r = 400 \/ rs_status r = fst (error_parts rej) /\ (fst (error_parts rej) = 401 \/ fst (error_parts rej) = 403))) as Hm
      by (intros msg; eexists; split; [done|by left]).
    unfold batch_operation.
    destruct (br_operation rq =? "upload")%string; [|destruct (br_operation rq =? "download")%string; [|apply Hm]];
      (destruct (_ <? _)%nat; [apply Hm|]); (destruct (match br_transfers rq with Some _ => _ | None => _ end); [apply Hm|]);
      rewrite Hg; (eexists; split; [done|right; split; [by destruct rej|done]]).
Qed.

(** ** Downloads with verification *)

Lemma verifying_pieces `{Sha2, HexCrate} oid pieces : forall hasher,
  integrity_verifying_stream oid hasher (map (fun piece => Ok piece) pieces) =
  map (fun piece => Ok piece) pieces ++
    (if (hex_encode (sha256_finalize (fold_left sha256_update pieces hasher)) =? oid)%string then [] else [Err InvalidData]).
Proof. induction pieces as [|p l IH]; intros hasher; cbn; [done|]. by rewrite IH. Qed.

(** With verification on, a download delivers every byte and ends in an error exactly when the SHA-256 of
    the content is not the object id; so an object that was accepted under its keyed hash, which the upload
    allows, is never delivered without an error (unless both hashes are the same). *)
Theorem verified_download `{Blake3Laws, HexLaws, Sha2Laws, ReaderStreamLaws} oid content :
  let items := integrity_verifying_stream oid sha256_new (stream_items content) in
  delivered items = content /\
  (Forall (fun item => is_ok item = true) items <-> oid = hex_encode (sha256_digest content)) /\
  (oid = to_hex (compute_data_hash content) -> keyed_hash DATA_KEY content <> sha256_digest content ->
     exists pieces, items = pieces ++ [Err InvalidData]).
Proof.
  intros items. unfold items, stream_items. rewrite verifying_pieces, sha256_streaming, reader_stream_concat.
  assert (Forall (fun item : body_item => is_ok item = true) (map (fun piece => Ok piece) (reader_stream content))) as Hok
    by (apply Forall_map, Forall_true; done).
  split; [|split].
  - unfold delivered. rewrite map_app, concat_app, map_map. cbn. rewrite map_id, reader_stream_concat.
    by destruct (_ =? _)%string; cbn; rewrite app_nil_r.
  - rewrite Forall_app. destruct (String.eqb_spec (hex_encode (sha256_digest content)) oid) as [<-|Hne].
    + split; [done|]. by split.
    + split; [|congruence]. intros [_ Hbad]. by apply Forall_inv in Hbad.
  - intros -> Hne. eexists. f_equal. destruct (String.eqb_spec (hex_encode (sha256_digest content)) (to_hex (compute_data_hash content))) as [E|]; [|done].
    exfalso. apply Hne. unfold to_hex, compute_data_hash in E. rewrite as_bytes_from_bytes in E by apply keyed_hash_length.
    apply (f_equal hex_decode) in E. rewrite !hex_decode_encode in E. congruence.
Qed.

(** ** Batch answers *)

(** A batch answer has one entry per requested object, in order, for the requested size; an entry is either
    an error or one action of the requested kind whose link is the object's and whose header carries a token:
    when the server can sign proxy tokens, a token it signed for this object and operation and the caller's
    subject, never the caller's own, and otherwise the caller's. *)
Theorem batch_entries `{Base64, TokenJson, Ed25519} (a : AppConfig) auth now claims token expires op objects :
  op = "upload" \/ op = "download" ->
  Forall2 (fun obj entry =>
    bo_oid entry = fst obj /\ bo_size entry = snd obj /\
    match bo_error entry with
    | Some _ => bo_upload entry = None /\ bo_download entry = None /\ bo_authenticated entry = false
    | None => String.length (fst obj) = 64%nat /\ all_hexdigits (fst obj) = true /\ bo_authenticated entry = true /\
        exists action t, (if (op =? "upload")%string then bo_upload entry = Some action /\ bo_download entry = None
                          else bo_download entry = Some action /\ bo_upload entry = None) /\
          ba_href action = base_url a +:+ "/lfs/objects/" +:+ fst obj /\ ba_header action !! "Authorization" = Some ("Bearer " +:+ t) /\
          if can_sign_proxy_tokens auth
          then exists proxy, sign_proxy_token auth now (sub claims) (fst obj) op = Some proxy /\ t = p_token proxy /\ ba_expires_in action = p_expires_in proxy
          else t = token /\ ba_expires_in action = expires
    end) objects (map (batch_object a auth now claims token expires op) objects).
Proof.
  intros Hop. apply Forall2_fmap_r, Forall_Forall2_diag, Forall_true. intros [oid size]. unfold compose, batch_object. cbn [fst snd].
  destruct (String.length oid =? 64)%nat eqn:El; [|by repeat split]. destruct (all_hexdigits oid) eqn:Ed; [|by repeat split]. cbn [andb negb].
  apply Nat.eqb_eq in El.
  destruct (can_sign_proxy_tokens auth).
  - destruct (sign_proxy_token auth now (sub claims) oid op) as [proxy|] eqn:Es; [|by repeat split].
    destruct Hop as [-> | ->]; cbn; (do 2 (split; [done|])); (do 3 (split; [done|])); eexists _, _; (split; [by split|]); (split; [done|]); cbn.
    + split; [rewrite lookup_insert_ne by done; apply lookup_insert_eq|]. eauto.
    + split; [apply lookup_insert_eq|]. eauto.
  - destruct Hop as [-> | ->]; cbn; (do 2 (split; [done|])); (do 3 (split; [done|])); eexists _, _; (split; [by split|]); (split; [done|]); cbn.
    + split; [rewrite lookup_insert_ne by done; apply lookup_insert_eq|]. eauto.
    + split; [apply lookup_insert_eq|]. eauto.
Qed.

(** ** Listings of xorbs *)
Section Listing.
Context `{Blake3, HexCrate}.

Definition planned_names (plan : PlannedFile) : gset string := list_to_set (map (fun chunk => to_hex (pc_xorb_hash chunk)) (pf_chunks plan)).

(** The first entry of each planned xorb. *)
Definition listing_spec (entries : list XorbChunkSequenceHeader) (names : gset string) (xorbs : list (string * Z)) (info : gmap string (string * Z)) : Prop :=
  NoDup (map fst xorbs) /\
  (forall x, x ∈ map fst xorbs <-> x ∈ names /\ exists e, e ∈ entries /\ to_hex (xh_xorb_hash e) = x) /\
  (forall x n, (x, n) ∈ xorbs -> exists e, e ∈ entries /\ to_hex (xh_xorb_hash e) = x /\ xh_num_bytes_in_xorb e = n) /\
  (forall x, info !! x = (fun n => ("xorbs/" +:+ x, n)) <$> ((list_to_map xorbs : gmap string Z) !! x)).

(** The reconstruction answer lists every xorb the plan needs and no other, each once, and the fetch
    information has exactly the listed xorbs, under their storage path and with the listed size. *)
Theorem list_xorbs_spec shard plan :
  let '(xorbs, info) := list_xorbs shard plan in listing_spec (ms_xorb_entries shard) (planned_names plan) xorbs info.
Proof.
  unfold list_xorbs. fold (planned_names plan). set (names := planned_names plan). set (f := fun st e => _).
  enough (forall entries done_ xorbs info seen,
    listing_spec done_ names xorbs info -> seen = list_to_set (map fst xorbs) ->
    let '(xorbs', info', _) := fold_left f entries (xorbs, info, seen) in listing_spec (done_ ++ entries) names xorbs' info') as Hloop.
  { specialize (Hloop (ms_xorb_entries shard) [] [] ∅ ∅).
    destruct (fold_left f (ms_xorb_entries shard) ([], ∅, ∅)) as [[xorbs info] seen]. apply Hloop; [|done].
    split; [constructor|]. split; [intros x; split; [by intros ?%elem_of_nil|by intros (_ & e & ?%elem_of_nil & _)]|].
    split; [by intros x n ?%elem_of_nil|]. intros x. by rewrite lookup_empty. }
  clear. induction entries as [|e entries IH]; intros done_ xorbs info seen (Hnd & Hin & Hsz & Hinfo) Hseen; cbn [fold_left]; [by rewrite app_nil_r|].
  change (e :: entries) with ([e] ++ entries). rewrite app_assoc. unfold f at 2.
  assert (forall x n, (x, n) ∈ xorbs -> exists e0, e0 ∈ done_ ++ [e] /\ to_hex (xh_xorb_hash e0) = x /\ xh_num_bytes_in_xorb e0 = n) as Hsz'
    by (intros x n Hxn; destruct (Hsz x n Hxn) as (e0 & ? & ?); exists e0; split; [apply elem_of_app; by left|done]).
  destruct (bool_decide_reflect (to_hex (xh_xorb_hash e) ∈ names)) as [Hp|Hp]; cbn [negb].
  2: { apply IH; [|done]. split; [done|]. split; [|done]. intros x. rewrite Hin. split; intros (Hx & e0 & He0 & Hh); (split; [done|]).
       - exists e0. split; [apply elem_of_app; by left|done].
       - apply elem_of_app in He0 as [He0|He0]; [by exists e0|]. apply list_elem_of_singleton in He0 as ->. congruence. }
  destruct (bool_decide_reflect (to_hex (xh_xorb_hash e) ∈ seen)) as [Hs|Hs].
  { apply IH; [|done]. split; [done|]. split; [|done]. intros x. rewrite Hin. split; intros (Hx & e0 & He0 & Hh); (split; [done|]).
    - exists e0. split; [apply elem_of_app; by left|done].
    - apply elem_of_app in He0 as [He0|He0]; [by exists e0|]. apply list_elem_of_singleton in He0 as ->.
      rewrite Hseen in Hs. apply elem_of_list_to_set, Hin in Hs as (_ & e1 & ? & ?). exists e1. split; [done|congruence]. }
  assert (to_hex (xh_xorb_hash e) ∉ map fst xorbs) as Hnew by (rewrite Hseen in Hs; by rewrite elem_of_list_to_set in Hs).
  apply IH.
  2: { rewrite Hseen, map_app, list_to_set_app_L. cbn. set_solver. }
  split; [|split; [|split]].
  - rewrite map_app. apply NoDup_app. split; [done|]. split; [|apply NoDup_singleton]. intros x Hx ->%list_elem_of_singleton. done.
  - intros x. rewrite map_app, elem_of_app, Hin. cbn. rewrite list_elem_of_singleton. split.
    + intros [(Hx & e0 & He0 & Hh)| ->]; (split; [done|]); [exists e0|exists e]; (split; [apply elem_of_app|done]); [by left|right; by left].
    + intros (Hx & e0 & He0 & Hh). apply elem_of_app in He0 as [He0|He0]; [left; eauto|]. apply list_elem_of_singleton in He0 as ->. by right.
  - intros x n [Hxn|Hxn]%elem_of_app; [by apply Hsz'|]. apply list_elem_of_singleton in Hxn as [= -> ->].
    exists e. split; [apply elem_of_app; right; by left|done].
  - intros x. destruct (decide (x = to_hex (xh_xorb_hash e))) as [->|Hne].
    + rewrite lookup_insert_eq, list_to_map_app, lookup_union_r.
      * cbn. by rewrite lookup_insert_eq.
      * by apply not_elem_of_list_to_map_1.
    + rewrite lookup_insert_ne by done. rewrite Hinfo, list_to_map_app. cbn. f_equal. rewrite lookup_union.
      rewrite lookup_insert_ne by done. rewrite lookup_empty. by destruct (_ !! x).
Qed.
End Listing.

(** ** Witnesses *)
From S2P Require Import FileSystem LocalStorage.
#[local] Existing Instances Model.blake3 Model.blake3_laws Model.hex Model.hex_laws Model.sha2 Model.sha2_laws Model.lz4 Model.lz4_laws
  Model.gear Model.gear_laws Model.reads Model.reads_laws LocalModel.no_faults LocalModel.storage LocalModel.storage_laws.
#[local] Existing Instances TokenModel.base64 TokenModel.json TokenModel.ed25519.
#[local] Existing Instances TokenModel.base64_laws TokenModel.json_laws TokenModel.ed25519_laws.

#[local] Instance whole_stream : ReaderStream := fun content => [content].
#[local] Instance whole_stream_laws : ReaderStreamLaws.
Proof. intros content. apply app_nil_r. Qed.

Lemma unhex_is_hexdigit a n : Model.unhex_digit a = Some n -> is_hexdigit a = true.
Proof. destruct a as [[] [] [] [] [] [] [] []]; vm_compute; congruence. Qed.

#[local] Instance model_digits : HexDigitsLaw.
Proof.
  intros s. unfold hex_decode, Model.hex. unfold all_hexdigits.
  assert (Hind : forall P : string -> Prop, P EmptyString -> (forall a, P (String a EmptyString)) ->
    (forall a b s, P s -> P (String a (String b s))) -> forall s, P s).
  { intros P H0 H1 H2. enough (forall s, P s /\ forall a, P (String a s)) as Hs by (intros; apply Hs).
    clear s. intros s. induction s as [|a s [IH1 IH2]]; split; auto. }
  induction s as [|a|a b s IH] using Hind; intros bs; [done|done|]. cbn. unfold Model.unhex_pair.
  destruct (Model.unhex_digit a) eqn:Ea; [|done]. destruct (Model.unhex_digit b) eqn:Eb; [|done].
  destruct (Model.decode s) as [l|]; [|done]. intros _. rewrite (unhex_is_hexdigit _ _ Ea), (unhex_is_hexdigit _ _ Eb). by apply (IH l).
Qed.

Definition sample_app : AppConfig := mkApp 1000000 true 1000000 10 None true "http://localhost:8080".
Definition sample_content : list byte := str_bytes "some object".
Definition sample_lfs_oid : string := hex_encode (sha256_digest sample_content).
Definition sample_upload : request := UploadLfs good_host sample_lfs_oid [Ok (str_bytes "some "); Ok (str_bytes "object")].
Definition ready_host : stream_host := mkStreamHost true (Some 1000000) None.
Definition sample_download : request := DownloadLfs ready_host ready_host sample_lfs_oid.
Abbreviation sample_prog rq := (handle sample_app sample_verifier sample_header (Some 1100) rq).
Definition empty_server : server := mkServer [] LocalModel.empty_fs index_new ∅.

Lemma empty_genuine : store_genuine (LocalModel.empty_fs : store).
Proof.
  split; [apply LocalModel.empty_ok|]. intros key data Hk Hc. exfalso.
  assert (LocalModel.empty_fs !! (LocalModel.base ++ key_components key) = None) as E.
  { apply lookup_singleton_ne. intros E. apply server_components_ne in Hk. by destruct (key_components key). }
  change (object_at LocalModel.base LocalModel.empty_fs key = Some data) in Hc. unfold object_at in Hc. by rewrite E in Hc.
Qed.

Definition upload_answer : response := mkResponse 200 (MessageBody "Object uploaded successfully").
Definition download_answer : response := mkResponse 200 (StreamBody 11 [Ok sample_content]).
Abbreviation upload_run := (run empty_server (sample_prog sample_upload)).
Abbreviation download_run := (run (fst upload_run) (sample_prog sample_download)).

Lemma pair_of_snd {A B} (x : A * B) b : snd x = b -> x = (fst x, b).
Proof. destruct x. by intros [= ->]. Qed.

Lemma upload_runs : upload_run = (fst upload_run, Some upload_answer).
Proof. apply pair_of_snd. vm_compute. reflexivity. Qed.
Lemma download_runs : download_run = (fst download_run, Some download_answer).
Proof. apply pair_of_snd. vm_compute. reflexivity. Qed.

Lemma sample_requests_ok : app_ok sample_app /\ request_ok sample_upload /\ request_ok sample_download.
Proof.
  unfold app_ok, request_ok. split; [split; [|split; [|done]]; cbn; unfold u64_max; lia|]. split; cbn; set_solver.
Qed.

(** The first download enqueues the object; once it is converted the raw
    object is gone, and the second download comes from the index. *)
Abbreviation sample_conversion := (convert_steps sample_config (Some 1000000) sample_ledger sample_lfs_oid).
Abbreviation conversion_run := (run (dequeue (fst download_run) sample_lfs_oid) sample_conversion).
Abbreviation late_download_run := (run (fst conversion_run) (sample_prog sample_download)).
Definition conversion_result : ConversionResult := mkConverted "" "" 0 0 0 0.
Definition conversion_answer : outcome ConversionError ConversionResult := default (Err CvDisabled) (snd conversion_run).

Lemma conversion_ends : conversion_run = (fst conversion_run, Some conversion_answer).
Proof. apply pair_of_snd. unfold conversion_answer. assert (is_ok (default (Err CvDisabled) (snd conversion_run)) = true) as E by (vm_compute; reflexivity).
  destruct (snd conversion_run) as [answer|]; [done|discriminate E]. Qed.
Lemma conversion_succeeds : conversion_answer = Ok (unwrap_or conversion_answer conversion_result).
Proof. apply ok_unwrap. vm_compute. reflexivity. Qed.
Lemma late_download_runs : late_download_run = (fst late_download_run, Some download_answer).
Proof. apply pair_of_snd. vm_compute. reflexivity. Qed.
Lemma sample_queued : sample_lfs_oid ∈ sv_queue (fst download_run).
Proof. apply (bool_decide_eq_true_1 _). vm_compute. reflexivity. Qed.
Lemma raw_deleted : contents (sv_store (fst conversion_run)) (blob_key sample_lfs_oid) = None.
Proof. vm_compute. reflexivity. Qed.

(** An upload, a download, the conversion of the object, and a download. *)
Lemma server_integrity_witness :
  exists since1 since2 since3 since4, let sys := mkSystem (fst late_download_run)
      [(sample_upload, mkThread (Respond upload_answer) since1); (sample_download, mkThread (Respond download_answer) since2);
       (sample_download, mkThread (Respond download_answer) since4)]
      [(sample_lfs_oid, mkThread (Respond conversion_answer) since3)] in
    rtc (step sample_config) (started LocalModel.empty_fs) sys /\
    claim sample_upload (sys_server sys) (rs_body upload_answer) /\ claim sample_download (sys_server sys) (rs_body download_answer) /\
    indexed (sys_server sys) sample_lfs_oid /\ contents (sv_store (fst conversion_run)) (blob_key sample_lfs_oid) = None.
Proof.
  destruct sample_requests_ok as (Ha & Hu & Hd).
  destruct (request_runs sample_config empty_server [] [] sample_app sample_verifier sample_header (Some 1100) sample_upload _ _ Ha Hu upload_runs) as [since1 H1].
  set (entry1 := (sample_upload, mkThread (Respond upload_answer) since1)) in *. cbn [app] in H1.
  destruct (request_runs sample_config (fst upload_run) [entry1] [] sample_app sample_verifier sample_header (Some 1100) sample_download _ _ Ha Hd download_runs)
    as [since2 H2].
  set (entry2 := (sample_download, mkThread (Respond download_answer) since2)) in *. cbn [app] in H2.
  destruct (conversion_runs sample_config (fst download_run) [entry1; entry2] [] sample_lfs_oid (Some 1000000) sample_ledger
    _ _ sample_queued conversion_ends) as [since3 H3].
  destruct (request_runs sample_config (fst conversion_run) [entry1; entry2] [(sample_lfs_oid, mkThread (Respond conversion_answer) since3)]
    sample_app sample_verifier sample_header (Some 1100) sample_download _ _ Ha Hd late_download_runs) as [since4 H4].
  exists since1, since2, since3, since4. cbn zeta. cbn [app] in H3, H4.
  pose proof (transitivity H1 (transitivity H2 (transitivity H3 H4))) as Hreach. split; [exact Hreach|].
  pose proof (server_integrity sample_config LocalModel.empty_fs _ ltac:(apply Z.le_refl) ltac:(vm_compute; discriminate) empty_genuine Hreach) as (Hc & Hv & _).
  split; [|split; [|split]].
  - exact (proj2 (Hc 0%nat sample_upload _ eq_refl) _ eq_refl eq_refl).
  - exact (proj2 (Hc 1%nat sample_download _ eq_refl) _ eq_refl eq_refl).
  - exact (proj1 (proj2 (Hv 0%nat sample_lfs_oid _ eq_refl) _ (f_equal Respond conversion_succeeds))).
  - exact raw_deleted.
Defined.

Lemma rejected_before_any_access_witness :
  require_auth None sample_verifier (Some 1100) (need_of sample_upload) = Err MissingToken /\
  exists r, handle sample_app sample_verifier None (Some 1100) sample_upload = Respond r /\ (rs_status r = 400 \/ rs_status r = 401 /\ (401 = 401 \/ 401 = 403)).
Proof.
  split; [reflexivity|]. exact (rejected_before_any_access sample_app sample_verifier None (Some 1100) sample_upload MissingToken eq_refl).
Defined.

Abbreviation sample_entry := (batch_object sample_app sample_verifier (Some 1100) sample_user sample_user_token 900 "upload" (sample_lfs_oid, 11)).

(** A request for one object, with a signing server. *)
(** An object stored under its keyed hash never arrives without an error. *)
Lemma verified_download_witness :
  let content := str_bytes "hello" in
  delivered (integrity_verifying_stream (to_hex (compute_data_hash content)) sha256_new (stream_items content)) = content /\
  exists pieces, integrity_verifying_stream (to_hex (compute_data_hash content)) sha256_new (stream_items content) = pieces ++ [Err InvalidData].
Proof.
  intros content. destruct (verified_download (to_hex (compute_data_hash content)) content) as (Hd & _ & He).
  split; [exact Hd|]. apply He; [reflexivity|]. by vm_compute.
Defined.

Lemma batch_entries_witness :
  bo_error sample_entry = None /\ bo_authenticated sample_entry = true /\ bo_oid sample_entry = sample_lfs_oid /\ bo_size sample_entry = 11.
Proof.
  assert (bo_error sample_entry = None) as He by (vm_compute; reflexivity). split; [exact He|].
  pose proof (batch_entries sample_app sample_verifier (Some 1100) sample_user sample_user_token 900 "upload" [(sample_lfs_oid, 11)] (or_introl eq_refl)) as Hb.
  apply Forall2_cons in Hb as [(Ho & Hs & Hm) _]. rewrite He in Hm. split; [exact (proj1 (proj2 (proj2 Hm)))|]. split; [exact Ho|exact Hs].
Defined.
