(* ===== verification/Restart.v ===== *)
(** * A restart on the local backend

    The listing of the local backend, the rebuild of the index and the
    reconstruction put together: what a CAS server finds again when it starts
    on the files that an earlier one left. *)
From stdpp Require Import gmap strings.
From Stdlib Require Import Ascii.
From S2P Require Import Prelude Bytes Crates MerkleHash Hash Compression Xorb XorbBuilder Shard Text Storage ShardIo ObjectStore FileSystem LocalStorage LocalListing.
From S2P Require Import Index ShardValidation Rebuild Reconstruction CasServer.

Local Open Scope string_scope.
Local Open Scope list_scope.

(** What the tasks of the rebuild, and requests after it, see of a file system. *)
Definition local_view `{FsFaults} (uuid : fs -> path -> string) (base_path spool : path) (m : fs) : StorageView := @reads (local_backend uuid base_path spool) m.

(** The rebuild of the start: the stream of the shards is listed and indexed. *)
Definition local_rebuild `{Blake3, HexCrate, Sha2, Lz4, FileReads, FsFaults, ListCalls} (uuid : fs -> path -> string) (base_path spool : path) (m : fs)
  : option (MetadataIndex * outcome rebuild_counts nat) :=
  items ← list_objects_stream base_path m "shards/"; rebuild_from_storage (fun _ => local_view uuid base_path spool m) index_new items.

Section Restart.
Context `{Blake3Laws, HexLaws, Sha2Laws, Lz4Laws, FileReadsLaws}.

Lemma index_task_id storage id reg : view_wf storage -> index_task storage ("shards/" +:+ id) = Ok (Some reg) -> vr_shard_id reg = id.
Proof.
  intros Hw. unfold index_task. destruct (parse_shard_from_storage storage _) as [shard| |] eqn:Ep; [|done..].
  unfold parse_shard_from_storage in Ep. apply with_retries_Ok in Ep as [attempt Ep]. apply parse_once_Ok in Ep as (file & Hst & Hp).
  pose proof (stored_small storage _ file Hw Hst) as Hl. pose proof (parse_wf file shard Hl Hp) as W. rewrite strip_shards.
  destruct (validate_shard_for_index _ shard storage) as [reg'| |] eqn:Ev; [|done..]. intros [= <-].
  by destruct (validated_true _ shard storage (len file) _ W Hl Hw Ev) as (-> & _).
Qed.

(** What a log says of a registration in it. *)
Lemma indexed_registration index log reg f : represents index log -> reg ∈ log -> f ∈ vr_files reg ->
  get_file_size index (vf_file_hash f) = Some (vf_file_size f) /\
  exists refs, get_file_refs index (vf_file_hash f) = Some refs /\ mkRef (vr_shard_id reg) (vf_file_index f) (vf_file_size f) ∈ refs.
Proof.
  intros Hrep Hreg Hf. assert (f ∈ log_files log) as Hlog by (apply log_files_elem; eauto).
  assert (mkRef (vr_shard_id reg) (vf_file_index f) (vf_file_size f) ∈ log_refs log (vf_file_hash f)) as Href by (apply log_refs_elem; eauto 10).
  split.
  - pose proof (represented_size index log (vf_file_hash f) Hrep) as Hs. destruct (get_file_size index (vf_file_hash f)) as [s|]; [|by destruct (Hs f Hlog)].
    destruct Hs as [_ Hs]. by rewrite (Hs f Hlog eq_refl).
  - pose proof (represented_refs index log (vf_file_hash f) Hrep) as Hs. destruct (get_file_refs index (vf_file_hash f)) as [refs|].
    + exists refs. split; [done|]. by apply Hs.
    + rewrite Hs in Href. by apply elem_of_nil in Href.
Qed.

(** With a reference of its own, a file is rebuilt. *)
Lemma reference_suffices earlier later id reg f refs : view_wf earlier -> view_wf later -> still_serves earlier later ->
  index_task earlier ("shards/" +:+ id) = Ok (Some reg) -> f ∈ vr_files reg -> mkRef id (vf_file_index f) (vf_file_size f) ∈ refs ->
  is_ok (reconstruct_verified_file_to_temp (to_hex (vf_file_hash f)) refs later) = true.
Proof.
  intros Hw Hw' Hserves Et Hf Hin. destruct (replay_task earlier later Hserves id reg f Hw Et Hf) as (Wh & r & Er & _).
  unfold reconstruct_verified_file_to_temp. rewrite from_hex_of_hex by done. cbn [map_err].
  pose proof (try_file_refs_spec later (to_hex (vf_file_hash f)) (vf_file_hash f) refs None) as Hspec. destruct (try_file_refs _ _ _ _ _) as [r'|e|]; [done| |].
  - destruct Hspec as [Hall _]. eapply Forall_forall in Hall as [e' Hall]; [|exact Hin]. congruence.
  - apply Exists_exists in Hspec as (ref' & _ & Hp). by apply (single_sound later _ ref' Hw' Wh) in Hp.
Qed.

(** A rebuild that succeeds accepted what every listed key holds. *)
Lemma rebuild_succeeded view keys items cause index n : streams keys items cause -> rebuild_from_storage (fun _ => view) index_new items = Some (index, Ok n) ->
  n = length keys /\ exists log, represents index log /\ forall key, key ∈ keys -> exists reg, reg ∈ log /\ index_task view key = Ok (Some reg).
Proof.
  intros Hitems Hr. destruct (rebuild_spec (fun _ => view) items) as (index' & counts & k & Hr' & (_ & Hrep & _ & _ & Ht & Hs & Hall) & Hlf).
  rewrite Hr in Hr'. injection Hr' as -> Hn. cbn [app Nat.add] in *. rewrite Hlf in Hn.
  destruct (Nat.ltb_spec 0 (failure_count counts)); cbn [orb] in Hn; [done|]. destruct (listing_ok items) eqn:Hok; cbn [negb] in Hn; [|done]. injection Hn as ->.
  assert (items = map Ok keys) as ->.
  { destruct Hitems as [|(pre & post & e & _ & -> & _)]; [done|]. unfold listing_ok in Hok. rewrite forallb_app in Hok. cbn in Hok. by rewrite andb_false_r in Hok. }
  assert (listed (map Ok keys) = keys) as Hl by (clear; induction keys as [|key keys IH]; [done|]; cbn [map listed]; by rewrite IH).
  specialize (Hall ltac:(lia)). split; [rewrite <- Hl, <- (length_results (fun _ => view)), Hall, length_map; lia|]. exists k. split; [done|].
  intros key [i Hi]%list_elem_of_lookup. assert (results (fun _ => view) (map Ok keys) !! i = Some (index_task view key)) as Hres.
  { unfold results. by rewrite list_lookup_imap, Hl, Hi. }
  rewrite Hall in Hres. apply list_lookup_fmap_Some in Hres as (reg & Et & Hreg). exists reg. split; [by eapply list_elem_of_lookup_2|done].
Qed.

Lemma shard_listed base_path m id : server_key ("shards/" +:+ id) -> is_Some (object_at base_path m ("shards/" +:+ id)) -> under base_path m "shards/" ("shards/" +:+ id).
Proof.
  intros Hk Ho. split; [done|]. destruct (server_key_components _ Hk) as (dirs & name & Hdirs & Ec & _ & Ek). rewrite Ec.
  unfold server_dirs in Hdirs. rewrite !elem_of_cons, elem_of_nil in Hdirs. destruct Hdirs as [-> |[-> |[-> |[]]]]; cbn [foldr] in Ek; [done| |done].
  split; [exact Ek|]. by exists name, [].
Qed.

(** C25: A restart loses nothing.  On the local backend, when the rebuild at the
    start succeeds with [n], there are [n] shards stored, and every one of them
    was validated and is in the index: each of its files has its size, and can
    be downloaded for as long as the storage serves what it served, whatever
    other shards name the same file; each of its chunks is found. *)
Theorem restart_loses_nothing `{FsFaults, ListLaws} uuid base_path spool m index n :
  uuid_fresh uuid -> backend_ok base_path spool m -> plain_names m ->
  local_rebuild uuid base_path spool m = Some (index, Ok n) ->
  (exists keys, NoDup keys /\ n = length keys /\ forall key, key ∈ keys <-> under base_path m "shards/" key) /\
  forall id, server_key ("shards/" +:+ id) -> is_Some (object_at base_path m ("shards/" +:+ id)) -> exists reg,
    index_task (local_view uuid base_path spool m) ("shards/" +:+ id) = Ok (Some reg) /\
    (forall c, c ∈ vr_chunks reg -> is_Some (get_xorb_for_chunk index (vm_chunk_hash c))) /\
    forall f, f ∈ vr_files reg -> get_file_size index (vf_file_hash f) = Some (vf_file_size f) /\
      exists refs, get_file_refs index (vf_file_hash f) = Some refs /\
        forall later, view_wf later -> still_serves (local_view uuid base_path spool m) later ->
          is_ok (reconstruct_verified_file_to_temp (to_hex (vf_file_hash f)) refs later) = true.
Proof.
  intros Hfresh Hok Hplain Hr. destruct (stream_exact base_path m "shards/" (bo_root _ _ m Hok) Hplain) as (items & keys & Hs & Hnd & Hkeys & Hitems).
  unfold local_rebuild in Hr. rewrite Hs in Hr. cbn [mbind option_bind] in Hr. destruct (rebuild_succeeded _ keys items _ index n Hitems Hr) as (Hn & log & Hrep & Hlog).
  split; [by exists keys|]. intros id Hid Ho. destruct (Hlog ("shards/" +:+ id)) as (reg & Hreg & Et); [by apply Hkeys, shard_listed|].
  pose proof (backend_view_wf uuid base_path spool Hfresh m Hok) as Hw. exists reg. split; [done|]. split.
  - intros c Hc. destruct Hrep as (_ & _ & ->). apply last_chunk_Some. exists c. split; [|done]. unfold log_chunks.
    apply list_elem_of_In, in_concat. exists (vr_chunks reg). split; [by apply in_map, list_elem_of_In|by apply list_elem_of_In].
  - intros f Hf. destruct (indexed_registration index log reg f Hrep Hreg Hf) as (Hsize & refs & Hrefs & Hin). split; [done|]. exists refs. split; [done|].
    intros later Hw' Hserves. rewrite (index_task_id _ id reg Hw Et) in Hin. exact (reference_suffices _ later id reg f refs Hw Hw' Hserves Et Hf Hin).
Qed.
End Restart.

(** ** A restart *)
Local Open Scope Z_scope.
Import LocalModel.
#[local] Existing Instances Model.blake3 Model.blake3_laws Model.hex Model.hex_laws Model.sha2 Model.sha2_laws Model.lz4 Model.lz4_laws Model.reads Model.reads_laws.
#[local] Existing Instances no_faults LocalListing.calls LocalListing.calls_laws.

Definition plain_name (c : string) : bool :=
  negb (c =? "")%string && negb (c =? ".")%string && negb (c =? "..")%string && negb (contains_char "/"%char c).
Lemma plain_names_check (m : fs) : forallb (fun e => forallb plain_name e.1) (map_to_list m) = true -> plain_names m.
Proof.
  intros Hall q n Hq%elem_of_map_to_list%list_elem_of_In. pose proof (proj1 (forallb_forall _ _) Hall _ Hq) as Hp. cbn [fst] in Hp.
  apply Forall_forall. intros c Hc%list_elem_of_In. pose proof (proj1 (forallb_forall _ _) Hp _ Hc) as Hn. unfold plain_name in Hn.
  apply andb_true_iff in Hn as [[[He Hd]%andb_true_iff Hdd]%andb_true_iff Hs]. apply negb_true_iff in He, Hd, Hdd, Hs.
  by apply String.eqb_neq in He, Hd, Hdd.
Qed.

(** A xorb and a shard, put by an earlier server. *)
Definition left_key : string := xorb_key (vx_xorb_hash sample_info).
Definition left_put (m : fs) (key : string) (data : list byte) : fs := fst (put long_uuid base m key data).
Definition left_fs : fs := left_put (left_put empty_fs left_key sample_xorb_file) "shards/00" sample_buf.

Lemma left_put_ok m key data : backend_ok base spool m -> server_key key -> len data < 2 ^ 64 -> backend_ok base spool (left_put m key data).
Proof.
  intros Hm Hk Hl. pose proof (put_law long_uuid base spool long_uuid_fresh m key data Hm Hk Hl) as Hp. unfold left_put.
  destruct (put long_uuid base m key data) as [m' r]. by destruct Hp.
Qed.
Lemma left_shard_key : server_key "shards/00".
Proof. exists "shards/", "00". split; [unfold object_dirs; set_solver|]. split; [reflexivity|]. split; [discriminate|reflexivity]. Qed.
Lemma left_ok : backend_ok base spool left_fs.
Proof.
  unfold left_fs. apply left_put_ok; [apply left_put_ok; [exact empty_ok| |]| |].
  - exists "xorbs/", (to_hex (vx_xorb_hash sample_info)). split; [unfold object_dirs; set_solver|]. split; [reflexivity|]. vm_compute. split; [discriminate|reflexivity].
  - vm_compute. reflexivity.
  - exact left_shard_key.
  - vm_compute. reflexivity.
Qed.

Lemma restart_loses_nothing_witness : exists index, local_rebuild long_uuid base spool left_fs = Some (index, Ok 1%nat) /\
  get_file_size index sample_content_hash = Some 28 /\ exists reg, index_task (local_view long_uuid base spool left_fs) "shards/00" = Ok (Some reg) /\
    forall c, c ∈ vr_chunks reg -> is_Some (get_xorb_for_chunk index (vm_chunk_hash c)).
Proof.
  assert ((fun r => (snd <$> r, (fun r => get_file_size (fst r) sample_content_hash) <$> r)) (local_rebuild long_uuid base spool left_fs) =
    (Some (Ok 1%nat), Some (Some 28))) as E by (vm_compute; reflexivity).
  destruct (local_rebuild long_uuid base spool left_fs) as [[index answer]|] eqn:Er; [|discriminate E].
  cbn [fmap option_fmap option_map fst snd] in E. injection E as -> Es. exists index. split; [reflexivity|]. split; [exact Es|].
  assert (plain_names left_fs) as Hplain by (apply plain_names_check; vm_compute; reflexivity).
  destruct (restart_loses_nothing long_uuid base spool left_fs index 1 long_uuid_fresh left_ok Hplain Er) as [_ Hall].
  destruct (Hall "00") as (reg & Ht & Hc & _).
  - exact left_shard_key.
  - assert (bool_decide (is_Some (object_at base left_fs "shards/00")) = true) as Hb by (vm_compute; reflexivity). exact (bool_decide_eq_true_1 _ Hb).
  - exists reg. split; [exact Ht|exact Hc].
Defined.
