(* ===== verification/Metrics.v ===== *)
(** * Request metrics (src/metrics.rs, src/middleware.rs)

    The counters, the middleware that keeps them, and their export.  Each
    counter is an atomic 64-bit integer that wraps; the middleware's two halves
    are steps, between which other requests do theirs. *)
From stdpp Require Import gmap strings.
From Stdlib Require Import Ascii.
From S2P Require Import Prelude Bytes Crates Hash Text.

Local Open Scope string_scope.
Local Open Scope list_scope.
Local Open Scope Z_scope.

(** ** Counters *)
Record Metrics := mkMetrics {
  http_requests_total : Z;
  http_requests_by_status : list Z;
  storage_operations : Z;
  upload_bytes : Z;
  download_bytes : Z;
  errors_total : Z;
  active_requests : Z;
  request_latency_us : Z;
  request_latency_count : Z;
  conversion_queued : Z;
  conversion_running : Z;
  conversion_enqueue_rejected : Z;
  conversion_failures : Z;
}.
Definition metrics_new : Metrics := mkMetrics 0 [0; 0; 0; 0; 0] 0 0 0 0 0 0 0 0 0 0 0.

(** The five counters a request moves. *)
Definition set_requests (m : Metrics) (total : Z) (by_status : list Z) (errors active us count : Z) : Metrics :=
  mkMetrics total by_status (storage_operations m) (upload_bytes m) (download_bytes m) errors active us count
    (conversion_queued m) (conversion_running m) (conversion_enqueue_rejected m) (conversion_failures m).

Definition status_index (status_code : Z) : nat :=
  if (200 <=? status_code) && (status_code <=? 299) then 0
  else if (300 <=? status_code) && (status_code <=? 399) then 1
  else if (400 <=? status_code) && (status_code <=? 499) then 2
  else if (500 <=? status_code) && (status_code <=? 599) then 3
  else 4.
Definition record_request (status_code : Z) (m : Metrics) : Metrics :=
  set_requests m (as_u64 (http_requests_total m + 1)) (alter (fun n => as_u64 (n + 1)) (status_index status_code) (http_requests_by_status m))
    (errors_total m) (active_requests m) (request_latency_us m) (request_latency_count m).
Definition record_error (m : Metrics) : Metrics :=
  set_requests m (http_requests_total m) (http_requests_by_status m) (as_u64 (errors_total m + 1)) (active_requests m) (request_latency_us m) (request_latency_count m).
Definition request_started (m : Metrics) : Metrics :=
  set_requests m (http_requests_total m) (http_requests_by_status m) (errors_total m) (as_u64 (active_requests m + 1)) (request_latency_us m) (request_latency_count m).
Definition request_completed (m : Metrics) : Metrics :=
  set_requests m (http_requests_total m) (http_requests_by_status m) (errors_total m) (as_u64 (active_requests m - 1)) (request_latency_us m) (request_latency_count m).
(** [elapsed] in microseconds, which [as u64] cuts. *)
Definition record_latency (elapsed : Z) (m : Metrics) : Metrics :=
  set_requests m (http_requests_total m) (http_requests_by_status m) (errors_total m) (active_requests m)
    (as_u64 (request_latency_us m + as_u64 elapsed)) (as_u64 (request_latency_count m + 1)).

(** The counters the handlers move. *)
Definition set_moved (m : Metrics) (operations uploaded downloaded : Z) : Metrics :=
  mkMetrics (http_requests_total m) (http_requests_by_status m) operations uploaded downloaded (errors_total m) (active_requests m) (request_latency_us m)
    (request_latency_count m) (conversion_queued m) (conversion_running m) (conversion_enqueue_rejected m) (conversion_failures m).
Definition record_storage_operation (m : Metrics) : Metrics := set_moved m (as_u64 (storage_operations m + 1)) (upload_bytes m) (download_bytes m).
Definition record_upload_bytes (bytes : Z) (m : Metrics) : Metrics := set_moved m (storage_operations m) (as_u64 (upload_bytes m + bytes)) (download_bytes m).
Definition record_download_bytes (bytes : Z) (m : Metrics) : Metrics := set_moved m (storage_operations m) (upload_bytes m) (as_u64 (download_bytes m + bytes)).

(** ** The middleware *)
Definition UNMETRICED_PATHS : list string := ["/health"; "/ready"].

(** How the inner service ends: a response, an error, or not at all (a panic,
    or a client that is gone). *)
Inductive served := Responded (status : Z) | Failed | Dropped.

(** [metrics_middleware] up to the inner service, and from there on: the guard
    counts the request out in any case. *)
Definition metrics_enter (m : Metrics) : Metrics := request_started m.
Definition metrics_leave (path : string) (result : served) (elapsed : Z) (m : Metrics) : Metrics :=
  let record := negb (bool_decide (path ∈ UNMETRICED_PATHS)) in
  let m :=
    match result with
    | Responded status =>
        if record then
          let m := record_request status m in
          let m := if 500 <=? status then record_error m else m in
          record_latency elapsed m
        else m
    | Failed => if record then record_latency elapsed (record_error (record_request 500 m)) else m
    | Dropped => m
    end in
  request_completed m.

(** ** The export *)
Definition newline : string := String "010"%char EmptyString.
Definition metric_header (name kind help : string) : string :=
  "# HELP " +:+ name +:+ " " +:+ help +:+ newline +:+ "# TYPE " +:+ name +:+ " " +:+ kind +:+ newline.
Definition metric_line (name : string) (value : Z) : string := name +:+ " " +:+ u64_to_string value +:+ newline.
Definition metric (name kind help : string) (value : Z) : string := metric_header name kind help +:+ metric_line name value.
Definition quoted (s : string) : string := String "034"%char (s +:+ String "034"%char EmptyString).
Definition status_labels : list string := ["2xx"; "3xx"; "4xx"; "5xx"; "other"].
Definition export_metrics (m : Metrics) : string :=
  metric "http_requests_total" "counter" "Total number of HTTP requests" (http_requests_total m) +:+
  metric_header "http_requests_by_status" "counter" "HTTP requests by status code range" +:+
  String.concat "" (zip_with (fun label value => metric_line ("http_requests_by_status{status=" +:+ quoted label +:+ "}") value) status_labels (http_requests_by_status m)) +:+
  metric "storage_operations_total" "counter" "Total number of storage operations" (storage_operations m) +:+
  metric "upload_bytes_total" "counter" "Total bytes uploaded" (upload_bytes m) +:+
  metric "download_bytes_total" "counter" "Total bytes downloaded" (download_bytes m) +:+
  metric "errors_total" "counter" "Total number of errors" (errors_total m) +:+
  metric "active_requests" "gauge" "Current number of in-flight requests" (active_requests m) +:+
  metric "request_latency_us_total" "counter" "Total request latency in microseconds" (request_latency_us m) +:+
  metric "request_latency_count" "counter" "Total number of latency measurements" (request_latency_count m) +:+
  metric "conversion_queued" "gauge" "Current conversions waiting for workers" (conversion_queued m) +:+
  metric "conversion_running" "gauge" "Current conversions executing" (conversion_running m) +:+
  metric "conversion_enqueue_rejected_total" "counter" "Conversion enqueue rejections" (conversion_enqueue_rejected m) +:+
  metric "conversion_failures_total" "counter" "Conversion failures" (conversion_failures m).

(** ** Any interleaving of requests *)
Inductive metric_step :=
| Enter | Leave (path : string) (result : served) (elapsed : Z) | StorageOperation | Uploaded (bytes : Z) | Downloaded (bytes : Z).
Definition metric_apply (m : Metrics) (s : metric_step) : Metrics :=
  match s with
  | Enter => metrics_enter m
  | Leave path result elapsed => metrics_leave path result elapsed m
  | StorageOperation => record_storage_operation m
  | Uploaded bytes => record_upload_bytes bytes m
  | Downloaded bytes => record_download_bytes bytes m
  end.
Definition metrics_after (steps : list metric_step) : Metrics := fold_left metric_apply steps metrics_new.

(** What the counters count. *)
Definition entered (s : metric_step) : bool := match s with Enter => true | _ => false end.
Definition left (s : metric_step) : bool := match s with Leave _ _ _ => true | _ => false end.
Definition moved (s : metric_step) : Z * Z * Z :=
  match s with StorageOperation => (1, 0, 0) | Uploaded bytes => (0, bytes, 0) | Downloaded bytes => (0, 0, bytes) | _ => (0, 0, 0) end.
Definition total (f : metric_step -> Z) (steps : list metric_step) : Z := fold_right (fun s n => f s + n) 0 steps.
Definition recorded_status (s : metric_step) : option Z :=
  match s with
  | Leave path (Responded status) _ => if bool_decide (path ∈ UNMETRICED_PATHS) then None else Some status
  | Leave path Failed _ => if bool_decide (path ∈ UNMETRICED_PATHS) then None else Some 500
  | _ => None
  end.
Definition statuses (steps : list metric_step) : list Z := omap recorded_status steps.
Definition count (f : Z -> bool) (l : list Z) : Z := Z.of_nat (length (List.filter f l)).

(** ** Lemmas *)
Lemma counter_add a b : as_u64 (as_u64 a + b) = as_u64 (a + b).
Proof. apply Zplus_mod_idemp_l. Qed.
Lemma counter_sub a b : as_u64 (as_u64 a - b) = as_u64 (a - b).
Proof. apply Zminus_mod_idemp_l. Qed.

Lemma count_snoc f l x : count f (l ++ [x]) = count f l + (if f x then 1 else 0).
Proof. unfold count. rewrite List.filter_app, length_app. cbn. destruct (f x); cbn; lia. Qed.
Lemma total_snoc f steps s : total f (steps ++ [s]) = total f steps + f s.
Proof. unfold total. induction steps as [|s' steps IH]; cbn [app fold_right]; [lia|]. rewrite IH. lia. Qed.
Lemma status_index_bound status : (status_index status < 5)%nat.
Proof. unfold status_index. repeat (destruct (_ && _); [lia|]). lia. Qed.

(** The status counters after a list of statuses. *)
Definition tally (l : list Z) : list Z := map (fun i => as_u64 (count (fun status => (status_index status =? i)%nat) l)) [0; 1; 2; 3; 4]%nat.
Lemma tally_snoc l status : alter (fun n => as_u64 (n + 1)) (status_index status) (tally l) = tally (l ++ [status]).
Proof.
  pose proof (status_index_bound status) as Hb. unfold tally. cbn [map]. rewrite !count_snoc.
  destruct (status_index status) as [|[|[|[|[|i]]]]]; [..|lia]; cbn [Nat.eqb alter list_alter]; by rewrite ?Z.add_0_r, counter_add.
Qed.

Record counted (steps : list metric_step) (m : Metrics) : Prop := mkCounted {
  ct_active : active_requests m = as_u64 (Z.of_nat (length (List.filter entered steps)) - Z.of_nat (length (List.filter left steps)));
  ct_total : http_requests_total m = as_u64 (Z.of_nat (length (statuses steps)));
  ct_status : http_requests_by_status m = tally (statuses steps);
  ct_errors : errors_total m = as_u64 (count (fun status => 500 <=? status) (statuses steps));
  ct_latency : request_latency_count m = as_u64 (Z.of_nat (length (statuses steps)));
  ct_operations : storage_operations m = as_u64 (total (fun s => (moved s).1.1) steps);
  ct_uploaded : upload_bytes m = as_u64 (total (fun s => (moved s).1.2) steps);
  ct_downloaded : download_bytes m = as_u64 (total (fun s => (moved s).2) steps);
}.

(** A step that is no response: only the gauge and the handlers' counters move. *)
Lemma counted_other steps m s : left s = false -> counted steps m -> counted (steps ++ [s]) (metric_apply m s).
Proof.
  intros Hleft [Ha Ht Hs He Hl Ho Hu Hd].
  assert (statuses (steps ++ [s]) = statuses steps) as Es.
  { unfold statuses. rewrite omap_app. destruct s; try done; cbn; apply app_nil_r. }
  destruct s; try done; (split; [|rewrite Es; exact Ht|rewrite Es; exact Hs|rewrite Es; exact He|rewrite Es; exact Hl|..]);
    cbn [metric_apply metrics_enter request_started record_storage_operation record_upload_bytes record_download_bytes set_moved set_requests
      active_requests storage_operations upload_bytes download_bytes];
    rewrite ?Ha, ?Ho, ?Hu, ?Hd, ?total_snoc, ?List.filter_app, ?length_app, ?counter_add; cbn; f_equal; lia.
Qed.

(** A request that leaves, recorded with a status or not. *)
Lemma counted_leave steps m m' s : counted steps m -> left s = true ->
  active_requests m' = active_requests m -> storage_operations m' = storage_operations m -> upload_bytes m' = upload_bytes m -> download_bytes m' = download_bytes m ->
  (match recorded_status s with
   | Some status => http_requests_total m' = as_u64 (http_requests_total m + 1) /\
       http_requests_by_status m' = alter (fun n => as_u64 (n + 1)) (status_index status) (http_requests_by_status m) /\
       errors_total m' = (if 500 <=? status then as_u64 (errors_total m + 1) else errors_total m) /\
       request_latency_count m' = as_u64 (request_latency_count m + 1)
   | None => m' = m
   end) -> counted (steps ++ [s]) (request_completed m').
Proof.
  intros [Ha Ht Hs He Hl Ho Hu Hd] Hleft Hact Eo Eu Ed Hrec.
  assert (forall f, f s = 0 -> total f (steps ++ [s]) = total f steps) as Hzero by (intros f E; rewrite total_snoc; lia).
  assert (active_requests (request_completed m') = as_u64 (Z.of_nat (length (List.filter entered (steps ++ [s]))) - Z.of_nat (length (List.filter left (steps ++ [s]))))) as Hactive.
  { cbn [request_completed set_requests active_requests]. rewrite Hact, Ha, !List.filter_app, !length_app. cbn [List.filter]. rewrite Hleft.
    assert (entered s = false) as -> by (by destruct s). rewrite counter_sub. cbn. f_equal. lia. }
  assert (statuses (steps ++ [s]) = statuses steps ++ match recorded_status s with Some status => [status] | None => [] end) as Es.
  { unfold statuses. rewrite omap_app. cbn. by destruct (recorded_status s). }
  destruct (recorded_status s) as [status|].
  - destruct Hrec as (E1 & E2 & E3 & E4). split; [exact Hactive|..]; cbn [request_completed set_requests http_requests_total http_requests_by_status errors_total request_latency_count];
      rewrite ?Es, ?E1, ?E2, ?E3, ?E4, ?Ht, ?Hs, ?He, ?Hl, ?counter_add, ?length_app, ?count_snoc.
    + f_equal. cbn. lia.
    + apply tally_snoc.
    + destruct (500 <=? status); by rewrite ?counter_add, ?Z.add_0_r.
    + f_equal. cbn. lia.
    + cbn [request_completed set_requests storage_operations]. rewrite Hzero; [congruence|by destruct s].
    + cbn [request_completed set_requests upload_bytes]. rewrite Hzero; [congruence|by destruct s].
    + cbn [request_completed set_requests download_bytes]. rewrite Hzero; [congruence|by destruct s].
  - subst m'. rewrite app_nil_r in Es. split; [exact Hactive|..]; rewrite ?Es, ?Hzero; try done; by destruct s.
Qed.

(** However requests interleave, and whether they end in a response, an error
    or not at all: the gauge counts those in flight, and the counters of
    statuses and errors those that ended, but for the probes. *)
Lemma metrics_count_requests steps : counted steps (metrics_after steps).
Proof.
  induction steps as [|s steps IH] using rev_ind; [by split|]. unfold metrics_after in *. rewrite fold_left_app. cbn [fold_left].
  revert IH. generalize (fold_left metric_apply steps metrics_new). intros m Hm. destruct (left s) eqn:Hleft; [|by apply counted_other].
  destruct s as [|path result elapsed| | |]; try done. cbn [metric_apply].
  unfold metrics_leave. eapply counted_leave; [exact Hm|done|..]; destruct result as [status| |]; cbn [recorded_status];
    destruct (bool_decide (path ∈ UNMETRICED_PATHS)); cbn [negb]; try done; by destruct (500 <=? status).
Qed.
