(* ===== verification/CasStart.v ===== *)
(** * The start of the CAS server (src/server.rs, src/storage/mod.rs, src/xet-common/src/lib.rs)

    From a configuration that [CasConfig] loaded to a server that answers:
    keys, temporary directories with their locks and what was left in them, the
    quota, the rebuild of the index, the scheduler and the rate limiter; and
    the readiness that follows from it.  What the host answers is an argument;
    the rebuild is that of [Rebuild], of which only the answer matters here.
    Warnings that are only logged are left out. *)
From stdpp Require Import gmap strings.
From Stdlib Require Import Ascii.
From S2P Require Import Prelude Bytes Crates Hash Compression Text Url Config Routing Storage Quota RateLimit TokenCrates Tokens CasAuth Conversion Scheduler Payload CasConfig CasApi CasServer.

Local Open Scope string_scope.
Local Open Scope list_scope.
Local Open Scope Z_scope.

(** ** Readiness *)
Inductive IndexReadiness := Rebuilding | Ready (shard_count : Z) | RebuildFailed (message : string).
Definition check_label (r : IndexReadiness) : string :=
  match r with Rebuilding => "rebuilding" | Ready _ => "ok" | RebuildFailed _ => "failed" end.
(** [ReadinessState]: one cell. *)
Definition readiness_new : IndexReadiness := Rebuilding.
Definition set_index_ready (_ : IndexReadiness) (shard_count : Z) : IndexReadiness := Ready shard_count.
Definition set_index_failed (_ : IndexReadiness) (message : string) : IndexReadiness := RebuildFailed message.

Record readiness_reply := mkReadiness {
  rr_code : Z;
  rr_status : string;
  rr_storage : string;
  rr_index : string;
  rr_index_shard_count : option Z;
}.
Definition cas_readiness_check (storage_health : StorageResult unit) (index_state : IndexReadiness) : readiness_reply :=
  let storage_status := if is_ok storage_health then "ok" else "failed" in
  let ready := (storage_status =? "ok")%string && match index_state with Ready _ => true | _ => false end in
  mkReadiness (if ready then 200 else 503) (if ready then "ready" else "not_ready") storage_status (check_label index_state)
    (match index_state with Ready shard_count => Some shard_count | _ => None end).

(** ** Temporary directories *)

(** [PathBuf]'s equality is that of the components. *)
Definition proper (piece : string) : bool := negb ((piece =? "")%string || (piece =? ".")%string).
Definition path_components (p : string) : list string :=
  let pieces := split_on "/"%char p in
  let rest := List.filter proper pieces in
  if starts_with "/" p then "/" :: rest else match pieces with "." :: _ => "." :: rest | _ => rest end.
(** The paths of a list, the first of those that are equal. *)
Fixpoint distinct_paths (seen : list (list string)) (paths : list string) : list string :=
  match paths with
  | [] => []
  | p :: paths =>
      if bool_decide (path_components p ∈ seen) then distinct_paths seen paths
      else p :: distinct_paths (path_components p :: seen) paths
  end.

(** An entry of a directory: its name, if it is text, its length, if it is a
    file, and whether it can be removed. *)
Record dir_entry := mkDirEntry { de_name : option string; de_file_len : option Z; de_removable : bool }.
Definition managed_name (name : string) : bool :=
  existsb (fun prefix => starts_with prefix name) ["upload-"; "blob-"; "shard-"; "reconstruct-"; "validate-xorb-"] &&
  match strip_suffix ".tmp" name with Some _ => true | None => false end.
Definition clean_entry (retained : Z) (entry : outcome string dir_entry) : outcome string Z :=
  let* entry := entry in
  if bool_decide (de_name entry = Some ".xet-temp.lock") then Ok retained
  else if negb (match de_name entry with Some name => managed_name name | None => false end) then Ok retained
  else
    match de_file_len entry with
    | None => Ok retained
    | Some length => if de_removable entry then Ok retained else Ok (Z.min u64_max (retained + length))
    end.
Definition cleanup_temp_directory (entries : outcome string (list (outcome string dir_entry))) : outcome string Z :=
  let* entries := entries in
  fold_outcome clean_entry 0 entries.

(** ** The start *)

(** What the host answers; the backends' constructors are its clients'. *)
Record cas_host := mkCasHost {
  ch_local_new : string -> StorageResult unit;
  ch_s3_new : string -> option string -> option string -> StorageResult unit;
  ch_temp_dir : string;
  ch_create_dir : string -> outcome string unit;
  ch_lock : string -> outcome string unit;
  ch_entries : string -> outcome string (list (outcome string dir_entry));
  ch_rebuild : outcome string Z;
  ch_bind : string -> outcome string unit;
}.

Definition create_storage (host : cas_host) (config : StorageConfig) : StorageResult unit :=
  if (st_backend config =? "local")%string then
    let* path := ok_or (st_local_path config) (InvalidArgument "local_path required") in
    ch_local_new host path
  else if (st_backend config =? "s3")%string then
    let* bucket := ok_or (st_s3_bucket config) (InvalidArgument "s3_bucket required") in
    ch_s3_new host bucket (st_s3_region config) (st_s3_endpoint config)
  else Err (InvalidArgument ("Unknown backend: " +:+ st_backend config)).

(** tokio's bounded channels panic if they are to hold more than a limit. *)
Class Tokio := MAX_PERMITS : Z.
Definition new_scheduler `{Tokio} (concurrency queue_capacity : Z) : outcome string shared :=
  let* scheduler := ok_or (scheduler_new (Z.to_nat concurrency) (Z.to_nat queue_capacity)) "conversion scheduler limits must be greater than zero" in
  if MAX_PERMITS <? queue_capacity then Panic else Ok scheduler.

Section Start.
Context `{Base64, TokenJson, Ed25519, !KeyFiles, Governor, Tokio}.

(** What serves the requests. *)
Record cas_service := mkCasService {
  cs_auth : AuthVerifier;
  cs_app : AppConfig;
  cs_ledger : TempQuotaLedger;
  cs_readiness : IndexReadiness;
  cs_scheduler : shared;
  cs_governor : GovernorConfig;
}.

Definition temp_dirs (host : cas_host) (config : ServerConfig) : list string :=
  [resolve_upload_temp_dir (cf_storage config); resolve_reconstruction_temp_dir (ch_temp_dir host) (cf_storage config)].

(** What was left in a directory is charged to the quota. *)
Definition reconcile (host : cas_host) (ledger : TempQuotaLedger) (temp_dir : string) : outcome string TempQuotaLedger :=
  let* retained := map_err (fun e => "Failed to inspect temporary directory: " +:+ e) (cleanup_temp_directory (ch_entries host temp_dir)) in
  if 0 <? retained then
    let '(ledger, accounted) := account_existing ledger retained in
    let* _ := map_err (fun _ => "Residual temporary files exceed quota") accounted in
    Ok ledger
  else Ok ledger.

Definition rebuild_readiness (host : cas_host) (config : ServerConfig) : outcome string IndexReadiness :=
  match ch_rebuild host with
  | Ok count => Ok (set_index_ready readiness_new count)
  | Err e =>
      ensure negb (index_rebuild_strict (cf_server config)) else ("Failed to rebuild index and XET_INDEX_REBUILD_STRICT=true: " +:+ e) in
      Ok (set_index_failed readiness_new e)
  | Panic => Panic
  end.

(** What a handler reads. *)
Definition app_config (config : ServerConfig) (ledger : TempQuotaLedger) : AppConfig :=
  mkApp (settings_max_body (cf_server config)) (st_verify_download_integrity (cf_storage config)) (st_temp_quota_bytes (cf_storage config))
    (st_temp_min_free_bytes (cf_storage config)) (Some ledger) (cc_enabled (cf_conversion config)) (settings_base_url (cf_server config)).

(** [start_server] up to serving. *)
Definition start_cas (host : cas_host) (config : ServerConfig) : outcome string cas_service :=
  let* auth_verifier := map_err (fun _ => "Failed to load auth public key") (from_config (cf_auth config)) in
  let* _ := verification_key_paths (cf_auth config) in
  let backend := st_backend (cf_storage config) in
  ensure (backend =? "local")%string || (backend =? "s3")%string else ("Invalid XET_STORAGE_BACKEND '" +:+ backend +:+ "'. Must be 'local' or 's3'.") in
  let* _ := map_err (fun _ => "Failed to create storage backend") (create_storage host (cf_storage config)) in
  let* _ := map_outcome (fun dir => map_err (fun e => "Failed to create temp dir " +:+ dir +:+ ": " +:+ e) (ch_create_dir host dir)) (temp_dirs host config) in
  let* _ := map_outcome (fun dir => map_err (fun e => "Failed to lock temporary directory: " +:+ e) (ch_lock host dir))
              (distinct_paths [] (temp_dirs host config)) in
  let* ledger := map_err (fun _ => "Invalid temporary quota") (ledger_new (st_temp_quota_bytes (cf_storage config)) (st_temp_min_free_bytes (cf_storage config))) in
  let* ledger := fold_outcome (reconcile host) ledger (distinct_paths [] (temp_dirs host config)) in
  let* readiness := rebuild_readiness host config in
  let* scheduler := new_scheduler (cc_concurrency (cf_conversion config)) (cc_queue_capacity (cf_conversion config)) in
  let rpm := rate_limit_rpm (cf_server config) in
  let* period := ok_or (rate_limit_period rpm) "Rate limit RPM must be greater than zero" in
  let* governor_conf := ok_or (governor_finish period rpm) "Failed to configure rate limiter" in
  let* _ := ch_bind host (ss_host (cf_server config) +:+ ":" +:+ u64_to_string (ss_port (cf_server config))) in
  Ok (mkCasService auth_verifier (app_config config ledger) ledger readiness scheduler governor_conf).

(** What [start_server] returns once serving ended with [run]. *)
Definition shut_down (run : outcome string unit) (storage_shutdown : StorageResult unit) : outcome string unit :=
  match storage_shutdown with
  | Err _ => if is_ok run then Err "Storage backend shutdown cleanup failed" else run
  | _ => run
  end.
End Start.

(** ** The keyring *)

(** The file that a configuration names for a kid. *)
Definition key_path (c : AuthConfig) (kid : string) : option string :=
  match public_keys c with
  | [] => Some (public_key_path c)
  | keys => pk_path <$> List.find (fun key => (pk_kid key =? kid)%string) keys
  end.

Lemma check_keys_spec keys : forall seen s, fold_outcome check_public_key seen keys = Ok s ->
  NoDup (map pk_kid keys) /\ (forall kid, kid ∈ map pk_kid keys -> kid ∉ seen) /\ s = list_to_set (map pk_kid keys) ∪ seen.
Proof.
  induction keys as [|key keys IH]; intros seen s; cbn.
  { intros [= <-]. split; [constructor|]. split; [by intros ? ?%elem_of_nil|set_solver]. }
  unfold check_public_key at 1. destruct (negb _); [|done]. destruct (negb _); [|done]. destruct (bool_decide_reflect (pk_kid key ∉ seen)); [|done].
  intros Hf. apply IH in Hf as (Hnd & Hnew & ->). split; [constructor; [|done]; intros Hin; apply Hnew in Hin; set_solver|].
  split; [|set_solver]. intros kid [->|Hin]%elem_of_cons; [done|]. apply Hnew in Hin. set_solver.
Qed.

Lemma check_trusted_spec keys configured kids : forall seen s, fold_outcome (check_trusted_kid keys configured) seen kids = Ok s ->
  NoDup kids /\ (forall kid, kid ∈ kids -> kid ∉ seen /\ (keys <> [] -> kid ∈ configured)) /\ s = list_to_set kids ∪ seen.
Proof.
  induction kids as [|kid kids IH]; intros seen s; cbn.
  { intros [= <-]. split; [constructor|]. split; [by intros ? ?%elem_of_nil|set_solver]. }
  unfold check_trusted_kid at 1. destruct (negb _); [|done]. destruct (bool_decide_reflect (kid ∉ seen)) as [Hs|]; [|done].
  destruct (negb (_ && _)) eqn:Ec; [|done]. apply negb_true_iff, andb_false_iff in Ec.
  intros Hf. apply IH in Hf as (Hnd & Hnew & ->). split; [constructor; [|done]; intros Hin; apply Hnew in Hin as [? _]; set_solver|].
  split; [|set_solver]. intros k [->|Hin]%elem_of_cons.
  - split; [done|]. intros Hk. rewrite !negb_false_iff, !bool_decide_eq_true in Ec. by destruct Ec.
  - apply Hnew in Hin as [? ?]. split; [set_solver|done].
Qed.

(** A keyring that passes the checks has a file for every trusted kid. *)
Lemma validated_keyring c : CasAuth.validate c = Ok tt ->
  NoDup (trusted_kids c) /\ trusted_kids c <> [] /\ NoDup (map pk_kid (public_keys c)) /\
  forall kid, kid ∈ trusted_kids c -> public_keys c <> [] -> kid ∈ map pk_kid (public_keys c).
Proof.
  unfold CasAuth.validate. destruct (match public_keys c with [] => _ | _ => _ end) as [configured| |] eqn:Ek; [|done..].
  destruct (negb (bool_decide (trusted_kids c = []))) eqn:Et; [|done]. apply negb_true_iff, bool_decide_eq_false in Et.
  destruct (fold_outcome _ ∅ (trusted_kids c)) as [trusted| |] eqn:Ef; [|done..]. intros _.
  apply check_trusted_spec in Ef as (Hnd & Hall & _). split; [done|]. split; [done|].
  destruct (public_keys c) as [|key keys] eqn:Ep.
  { split; [constructor|]. done. }
  apply check_keys_spec in Ek as (Hnk & _ & ->). split; [done|]. intros kid Hin Hne. apply Hall in Hin as [_ Hc]. specialize (Hc Hne). set_solver.
Qed.

(** The paths that are loaded, each trusted kid once, with its file. *)
Lemma loaded_paths c paths : verification_key_paths c = Ok paths ->
  NoDup (map fst paths) /\ forall kid path, (kid, path) ∈ paths <-> kid ∈ trusted_kids c /\ key_path c kid = Some path.
Proof.
  unfold verification_key_paths. destruct (CasAuth.validate c) as [[]| |] eqn:Ev; [|done..]. destruct (validated_keyring c Ev) as (Hnt & _ & Hnk & Hin).
  unfold key_path. destruct (public_keys c) as [|key keys] eqn:Ep.
  - intros [= <-]. split; [by rewrite map_map, map_id|]. intros kid path. rewrite elem_of_map. split; [intros (k & [= <- <-] & Hk); by split|].
    intros [Hk [= <-]]. by exists kid.
  - intros Hp. assert (paths = map (fun key => (pk_kid key, pk_path key)) (List.filter (fun key => is_trusted c (pk_kid key)) (key :: keys))) as -> by congruence. clear Hp.
    assert (Hfind : forall l, NoDup (map pk_kid l) -> forall kid path,
      (kid, path) ∈ map (fun key => (pk_kid key, pk_path key)) l <-> pk_path <$> List.find (fun key => (pk_kid key =? kid)%string) l = Some path).
    { clear. induction l as [|k l IH]; intros Hnd kid path; cbn; [split; [by intros ?%elem_of_nil|done]|]. apply NoDup_cons in Hnd as [Hk Hnd].
      rewrite elem_of_cons. destruct (String.eqb_spec (pk_kid k) kid) as [<-|Hne]; cbn.
      - split; [|intros [= <-]; by left]. intros [[= <-]|Hin]; [done|]. destruct Hk. apply elem_of_map in Hin as (k' & [= Ek _] & Hin). rewrite <- Ek.
        apply elem_of_map. by exists k'.
      - rewrite <- IH by done. split; [by intros [[= ? ?]|?]|by right]. }
    assert (Hdistinct : forall l, NoDup (map pk_kid l) -> NoDup (map fst (map (fun key => (pk_kid key, pk_path key)) (List.filter (fun key => is_trusted c (pk_kid key)) l)))).
    { clear. induction l as [|k l IH]; cbn; [constructor|]. intros [Hk Hnd]%NoDup_cons. destruct (is_trusted c (pk_kid k)); cbn; [|by apply IH].
      constructor; [|by apply IH]. intros Hin. destruct Hk. rewrite map_map in Hin. apply elem_of_map in Hin as (k' & Ek & Hin). apply elem_of_map. exists k'. split; [done|].
      by apply list_elem_of_In, filter_In in Hin as [?%list_elem_of_In _]. }
    revert Hnk Hdistinct. generalize (key :: keys). intros l Hnk Hdistinct. split; [by apply Hdistinct|].
    intros kid path. rewrite <- (Hfind l Hnk kid path), !elem_of_map. split.
    + intros (k & [= <- <-] & Hk). apply list_elem_of_In, filter_In in Hk as [Hk%list_elem_of_In Ht]. apply bool_decide_eq_true in Ht. split; [done|]. by exists k.
    + intros [Ht (k & [= <- <-] & Hk)]. exists k. split; [done|]. apply list_elem_of_In, filter_In. split; [by apply list_elem_of_In|]. by apply bool_decide_eq_true.
Qed.

(** ** The start from a loaded configuration *)
Section Keyring.
Context `{Ed25519, !KeyFiles}.

Lemma find_key_unique kid key keys : NoDup (map fst keys) -> (kid, key) ∈ keys -> find_key kid keys = Some key.
Proof.
  unfold find_key. induction keys as [|[k v] keys IH]; intros Hnd Hin; [by apply elem_of_nil in Hin|]. apply NoDup_cons in Hnd as [Hk Hnd]. cbn.
  apply elem_of_cons in Hin as [[= <- <-]|Hin]; [by rewrite String.eqb_refl|].
  destruct (String.eqb_spec k kid) as [->|]; [|by apply IH]. destruct Hk. apply elem_of_map. by exists (kid, key).
Qed.

(** A verifier has, for every trusted kid, the key of its file. *)
Lemma loaded_verifier c v : from_config c = Ok v -> forall kid, kid ∈ trusted_kids c ->
  exists path pem key, key_path c kid = Some path /\ read_to_string path = Some pem /\ public_key_from_pem pem = Some key /\
    find_key kid (verification_keys v) = Some key.
Proof.
  unfold from_config. intros Hl kid Hkid. destruct (verification_key_paths c) as [paths| |] eqn:Ep; [|done..]. cbn [map_err] in Hl.
  destruct (map_outcome load_key paths) as [keys| |] eqn:Ek; [|done..]. apply map_outcome_Ok_iff in Ek.
  assert (verification_keys v = keys) as ->.
  { destruct (effective_signing_kid c); cbn [ok_or] in Hl; [|done]. destruct (private_key_path c); [|by injection Hl as <-].
    destruct (read_to_string _); cbn [ok_or] in Hl; [|done]. destruct (private_key_from_pem _); cbn [ok_or] in Hl; [|done].
    destruct (find_key _ _); cbn [ok_or] in Hl; [|done]. destruct (verifying_key_eqb _ _); [|done]. by injection Hl as <-. }
  destruct (loaded_paths c paths Ep) as [Hnd Hpaths].
  assert (map fst keys = map fst paths) as Hfst.
  { clear -Ek. induction Ek as [|[k p] [k' key] paths keys Hload _ IH]; [done|]. cbn. f_equal; [|exact IH]. unfold load_key in Hload. cbn in Hload.
    destruct (read_to_string p); cbn in Hload; [|done]. destruct (public_key_from_pem _); cbn in Hload; [|done]. by injection Hload as -> _. }
  assert (exists path, (kid, path) ∈ paths) as [path Hin].
  { unfold verification_key_paths in Ep. destruct (CasAuth.validate c) as [[]| |] eqn:Ev; [|done..]. destruct (validated_keyring c Ev) as (_ & _ & _ & Hc).
    enough (exists path, key_path c kid = Some path) as [path Hp] by (exists path; by apply Hpaths). unfold key_path. destruct (public_keys c) as [|k l]; [by eexists|].
    specialize (Hc kid Hkid ltac:(done)). destruct (List.find _ (k :: l)) as [key|] eqn:Ef; [by eexists|]. exfalso. apply elem_of_map in Hc as (key & <- & Hin).
    apply list_elem_of_In in Hin. pose proof (List.find_none _ _ Ef _ Hin) as Hn. cbn in Hn. by rewrite String.eqb_refl in Hn. }
  apply list_elem_of_lookup_1 in Hin as [i Hi]. destruct (Forall2_lookup_l _ _ _ _ _ Ek Hi) as ([k key] & Hk & Hload).
  unfold load_key in Hload. cbn in Hload. destruct (read_to_string path) as [pem|] eqn:Er; cbn in Hload; [|done].
  destruct (public_key_from_pem pem) as [key'|] eqn:Epk; cbn in Hload; [|done]. injection Hload as <- <-. exists path, pem, key'.
  split; [by apply (Hpaths kid path), (list_elem_of_lookup_2 _ i)|]. split; [done|]. split; [done|]. apply find_key_unique; [by rewrite Hfst|]. by eapply list_elem_of_lookup_2.
Qed.
End Keyring.

(** What was left in the directories, and its charge. *)
Definition residual (host : cas_host) (dirs : list string) (retained : list Z) : Prop :=
  Forall2 (fun dir n => cleanup_temp_directory (ch_entries host dir) = Ok n /\ 0 <= n) dirs retained.

Lemma residual_nonneg host dirs retained : residual host dirs retained -> 0 <= sum_by id retained.
Proof. induction 1 as [|dir n dirs ns [_ Hn] _ IH]; [done|]. change (sum_by id (n :: ns)) with (n + sum_by id ns). lia. Qed.

Lemma reconcile_charges host dirs retained : residual host dirs retained -> forall ledger,
  0 <= charged_bytes ledger -> charged_bytes ledger + sum_by id retained <= quota_bytes ledger -> quota_bytes ledger <= u64_max ->
  fold_outcome (reconcile host) ledger dirs =
    Ok (mkLedger (quota_bytes ledger) (min_free_bytes ledger) (charged_bytes ledger + sum_by id retained) (reserved_bytes ledger)).
Proof.
  induction 1 as [|dir n dirs retained [Hc Hn] Hr IH]; intros ledger Hb Hs Hq; cbn [fold_outcome].
  { destruct ledger. unfold sum_by. cbn. by rewrite Z.add_0_r. }
  pose proof (residual_nonneg host dirs retained Hr) as Hnn.
  change (sum_by id (n :: retained)) with (n + sum_by id retained) in *. change (foldr (fun a acc => a + acc) 0 (n :: retained)) with (n + sum_by id retained) in *.
  unfold reconcile at 1. rewrite Hc. cbn [map_err].
  destruct (Z.ltb_spec 0 n).
  - unfold account_existing. unfold checked_add. destruct (Z.leb_spec (charged_bytes ledger + n) u64_max); [|lia]. cbn zeta. cbn [quota_bytes set_charged].
    destruct (Z.ltb_spec (quota_bytes ledger) (charged_bytes ledger)); [lia|]. cbn [map_err].
    rewrite IH by (cbn; lia). cbn. do 2 f_equal. lia.
  - assert (n = 0) as -> by lia. rewrite IH by lia. by rewrite Z.add_0_l.
Qed.

Section Starts.
Context `{Base64, TokenJson, Ed25519, !KeyFiles, GovernorLaws, Tokio}.

(** The host does its part; [retained] is what it could not remove. *)
Record cas_host_ready (host : cas_host) (c : ServerConfig) (v : AuthVerifier) (retained : list Z) : Prop := mkHostReady {
  hr_keys : from_config (cf_auth c) = Ok v;
  hr_local : forall path, ch_local_new host path = Ok tt;
  hr_s3 : forall bucket region endpoint, ch_s3_new host bucket region endpoint = Ok tt;
  hr_dirs : forall dir, ch_create_dir host dir = Ok tt;
  hr_locks : forall dir, ch_lock host dir = Ok tt;
  hr_residual : residual host (distinct_paths [] (temp_dirs host c)) retained;
  hr_space : sum_by id retained <= st_temp_quota_bytes (cf_storage c);
  hr_rebuild : ch_rebuild host <> Panic /\ (index_rebuild_strict (cf_server c) = true -> is_ok (ch_rebuild host) = true);
  hr_bind : forall addr, ch_bind host addr = Ok tt;
}.

(** What a service was made of. *)
Record cas_serves (host : cas_host) (c : ServerConfig) (v : AuthVerifier) (retained : list Z) (s : cas_service) : Prop := mkCasServes {
  cw_verifier : cs_auth s = v;
  cw_app : cs_app s = app_config c (cs_ledger s);
  cw_ledger : cs_ledger s = mkLedger (st_temp_quota_bytes (cf_storage c)) (st_temp_min_free_bytes (cf_storage c)) (sum_by id retained) 0;
  cw_readiness : cs_readiness s = match ch_rebuild host with Ok n => Ready n | Err e => RebuildFailed e | Panic => Rebuilding end;
  cw_scheduler : scheduler_new (Z.to_nat (cc_concurrency (cf_conversion c))) (Z.to_nat (cc_queue_capacity (cf_conversion c))) = Some (cs_scheduler s);
  cw_governor : exists period, 0 < period /\ NANOS_PER_MINUTE <= period * rate_limit_rpm (cf_server c) < NANOS_PER_MINUTE + rate_limit_rpm (cf_server c) /\
                  governor_finish period (rate_limit_rpm (cf_server c)) = Some (cs_governor s);
}.

Lemma map_outcome_all {E A B} (f : A -> outcome E B) b l : (forall a, f a = Ok b) -> map_outcome f l = Ok (map (fun _ => b) l).
Proof. intros Hf. induction l as [|a l IH]; [done|]. cbn. by rewrite Hf, IH. Qed.

Lemma create_storage_valid `{UrlCrate} host c v retained : cas_valid c -> cas_host_ready host c v retained -> create_storage host (cf_storage c) = Ok tt.
Proof.
  intros [_ _ _ Hb] []. unfold create_storage. destruct Hb as [[-> Hm]|(-> & Hm & _)]; cbn [String.eqb Ascii.eqb Bool.eqb].
  - destruct (st_local_path (cf_storage c)); [apply hr_local0|done].
  - destruct (st_s3_bucket (cf_storage c)); [apply hr_s4|done].
Qed.

(** The start of a valid configuration, up to the scheduler. *)
Definition residual_ledger (c : ServerConfig) (retained : list Z) : TempQuotaLedger :=
  mkLedger (st_temp_quota_bytes (cf_storage c)) (st_temp_min_free_bytes (cf_storage c)) (sum_by id retained) 0.
Definition rebuilt (host : cas_host) : IndexReadiness := match ch_rebuild host with Ok n => Ready n | Err e => RebuildFailed e | Panic => Rebuilding end.

Lemma start_cas_run `{UrlCrate} host c v retained : cas_valid c -> cas_in_width c -> cas_host_ready host c v retained ->
  start_cas host c =
    let* scheduler := new_scheduler (cc_concurrency (cf_conversion c)) (cc_queue_capacity (cf_conversion c)) in
    let* period := ok_or (rate_limit_period (rate_limit_rpm (cf_server c))) "Rate limit RPM must be greater than zero" in
    let* governor_conf := ok_or (governor_finish period (rate_limit_rpm (cf_server c))) "Failed to configure rate limiter" in
    Ok (mkCasService v (app_config c (residual_ledger c retained)) (residual_ledger c retained) (rebuilt host) scheduler governor_conf).
Proof.
  intros Hv (_ & _ & Hw) Hready. pose proof (create_storage_valid _ _ _ _ Hv Hready) as Hstore. destruct Hv, Hready. rewrite !Forall_cons in Hw.
  assert (is_ok (verification_key_paths (cf_auth c)) = true) as Hpaths by (unfold verification_key_paths; rewrite cv_auth; by destruct (public_keys (cf_auth c))).
  unfold start_cas. rewrite hr_keys0. cbn [map_err]. destruct (verification_key_paths (cf_auth c)); [|done..]. cbn zeta.
  assert ((st_backend (cf_storage c) =? "local")%string || (st_backend (cf_storage c) =? "s3")%string = true) as -> by (destruct cv_backend as [[-> _]|(-> & _)]; done).
  rewrite Hstore. cbn [map_err]. rewrite (map_outcome_all _ tt) by (intros; by rewrite hr_dirs0). rewrite (map_outcome_all _ tt) by (intros; by rewrite hr_locks0).
  destruct cv_quota as [Hq Hf]. unfold ledger_new. apply Z.eqb_neq in Hq, Hf. rewrite Hq, Hf. cbn [orb negb map_err].
  rewrite (reconcile_charges host _ retained) by (try done; cbn; lia). cbn [quota_bytes min_free_bytes charged_bytes reserved_bytes].
  assert (rebuild_readiness host c = Ok (rebuilt host)) as ->.
  { unfold rebuild_readiness, rebuilt. destruct hr_rebuild0 as [Hnp Hstrict]. destruct (ch_rebuild host) as [n|e|]; [done| |done].
    destruct (index_rebuild_strict (cf_server c)); [by specialize (Hstrict eq_refl)|done]. }
  destruct (new_scheduler _ _); [|done..]. destruct (ok_or (rate_limit_period _) _); [|done..]. destruct (ok_or (governor_finish _ _) _); [|done..]. by rewrite hr_bind0.
Qed.

Lemma new_scheduler_valid concurrency capacity : concurrency <> 0 -> capacity <> 0 -> 0 <= concurrency -> 0 <= capacity ->
  exists sch, scheduler_new (Z.to_nat concurrency) (Z.to_nat capacity) = Some sch /\
    new_scheduler concurrency capacity = if MAX_PERMITS <? capacity then Panic else Ok sch.
Proof.
  intros. unfold new_scheduler, scheduler_new. destruct (Nat.eqb_spec (Z.to_nat concurrency) 0), (Nat.eqb_spec (Z.to_nat capacity) 0); try lia.
  eexists. split; [done|]. done.
Qed.

(** The start ends with a server, or with a panic if the channel cannot hold the queue. *)
Lemma valid_cas_starts `{UrlCrate} host c v retained : cas_valid c -> cas_in_width c -> cas_host_ready host c v retained ->
  if MAX_PERMITS <? cc_queue_capacity (cf_conversion c) then start_cas host c = Panic
  else exists s, start_cas host c = Ok s /\ cas_serves host c v retained s.
Proof.
  intros Hv Hwidth Hready. rewrite (start_cas_run _ _ _ _ Hv Hwidth Hready). destruct Hv. destruct Hwidth as (_ & Hrpm & Hw). rewrite !Forall_cons in Hw.
  destruct (new_scheduler_valid (cc_concurrency (cf_conversion c)) (cc_queue_capacity (cf_conversion c))) as (sch & Esch & ->); [naive_solver..|].
  destruct (MAX_PERMITS <? _); [done|].
  destruct (rate_limit_period_spec (rate_limit_rpm (cf_server c)) ltac:(lia)) as (period & Ep & Hp & Hrate). rewrite Ep. cbn [ok_or].
  destruct (proj2 (governor_finish_iff period (rate_limit_rpm (cf_server c))) ltac:(split; lia)) as [g Eg]. rewrite Eg. cbn [ok_or].
  eexists. split; [done|]. constructor; try done. by exists period.
Qed.
End Starts.

(** What [CasServer] and the conversion assume of the configuration. *)
Lemma served_app_ok `{UrlCrate} c retained : cas_valid c -> cas_in_width c -> 0 <= sum_by id retained <= st_temp_quota_bytes (cf_storage c) ->
  app_ok (app_config c (residual_ledger c retained)).
Proof.
  intros _ (_ & _ & Hw) Hs. rewrite !Forall_cons in Hw. unfold app_ok, app_config, settings_max_body, ledger_ok. cbn -[Z.mul u64_max].
  split; [lia|]. split; [lia|]. intros l [= <-]. cbn -[u64_max]. lia.
Qed.

(** C17: A configuration that loads starts the CAS server, or stops it at once.
    If the settings load and the host does its part (keys, backend, directories
    and their locks, what could not be removed within the quota, a rebuild that
    may fail unless it is strict), the start panics if the queue is longer than
    a channel can be, and otherwise serves: every trusted kid has the key of its
    own file, what was left is charged to the configured quota, the rate is at
    most the configured number of requests a minute, the compression scheme is
    one of the three, and the application is one that the theorems about the
    server are about.  It is ready exactly if the index was rebuilt and the
    storage is healthy. *)
Theorem loaded_cas_starts `{UrlCrate, Base64, TokenJson, Ed25519, !KeyFiles, GovernorLaws, Tokio} env c host v retained :
  try_from_env env = Ok c -> cas_host_ready host c v retained ->
  if MAX_PERMITS <? cc_queue_capacity (cf_conversion c) then start_cas host c = Panic
  else exists s, start_cas host c = Ok s /\ cas_serves host c v retained s /\ app_ok (cs_app s) /\
    (forall E, @config_scheme E (cf_conversion c) <> Panic) /\
    (forall kid, kid ∈ trusted_kids (cf_auth c) -> exists path pem key, key_path (cf_auth c) kid = Some path /\ read_to_string path = Some pem /\
       public_key_from_pem pem = Some key /\ find_key kid (verification_keys (cs_auth s)) = Some key) /\
    forall health, rr_code (cas_readiness_check health (cs_readiness s)) = if is_ok health && is_ok (ch_rebuild host) then 200 else 503.
Proof.
  intros Hload Hready. apply try_from_env_valid in Hload as [Hv Hw]. pose proof (valid_cas_starts host c v retained Hv Hw Hready) as Hs.
  destruct (MAX_PERMITS <? _); [done|]. destruct Hs as (s & Hs & Hserves). exists s. split; [done|]. split; [done|].
  destruct Hserves as [Everifier Eapp Eledger Eready _ _].
  pose proof (hr_space _ _ _ _ Hready) as Hspace. pose proof (residual_nonneg _ _ _ (hr_residual _ _ _ _ Hready)).
  split; [rewrite Eapp, Eledger; by apply served_app_ok|]. split; [by destruct Hv|].
  split; [rewrite Everifier; by apply loaded_verifier, (hr_keys _ _ _ _ Hready)|].
  intros health. rewrite Eready. unfold cas_readiness_check. by destruct health, (ch_rebuild host).
Qed.

(** ** A start with a keyring of two keys *)
#[local] Existing Instances TokenModel.base64 TokenModel.json TokenModel.ed25519 UrlModel.crate GovernorModel.builder GovernorModel.builder_laws.
#[local] Existing Instance sample_files.
#[local] Instance channel_limit : Tokio := 2 ^ 61 - 1.

Definition sample_cas_env (key : string) : env_var :=
  if (key =? "CAS_PUBLIC_KEYS")%string then Present "hub-key-1=/keys/a, hub-key-2 = /keys/bb"
  else if (key =? "XET_LOCAL_PATH")%string then Present "/data/"
  else if (key =? "XET_CONVERSION_SCHEME")%string then Present "BG4LZ4"
  else NotPresent.
Definition loaded_cas_config : ServerConfig := unwrap_or (try_from_env sample_cas_env)
  (mkServerConfig (mkSettings "" 0 None 0 0 false) (mkStorageConfig "" None None None None None None false 0 0) (mkAuthConfig "" [] [] None None) default_conversion).
Lemma sample_cas_loads : try_from_env sample_cas_env = Ok loaded_cas_config.
Proof. apply ok_unwrap. vm_compute. reflexivity. Qed.

(** A file of an upload that was cut off cannot be removed. *)
Definition left_over : list (outcome string dir_entry) :=
  [Ok (mkDirEntry (Some ".xet-temp.lock") (Some 4) false); Ok (mkDirEntry (Some "upload-17.tmp") (Some 1000) false);
   Ok (mkDirEntry (Some "blob-3.tmp") (Some 50) true); Ok (mkDirEntry (Some "notes.txt") (Some 9) false)].
Definition cas_sample_host : cas_host :=
  mkCasHost (fun _ => Ok tt) (fun _ _ _ => Ok tt) "/tmp" (fun _ => Ok tt) (fun _ => Ok tt)
    (fun dir => if (dir =? "/data/.tmp")%string then Ok left_over else Ok []) (Err "a shard is damaged") (fun _ => Ok tt).
Definition cas_sample_verifier : AuthVerifier := unwrap_or (from_config (cf_auth loaded_cas_config)) (mkVerifier [] None None).

Lemma cas_sample_ready : cas_host_ready cas_sample_host loaded_cas_config cas_sample_verifier [1000; 0].
Proof.
  constructor; try done.
  assert (distinct_paths [] (temp_dirs cas_sample_host loaded_cas_config) = ["/data/.tmp"; "/data/.reconstruction"]) as -> by (vm_compute; reflexivity).
  repeat constructor; vm_compute; done.
Qed.

Lemma loaded_cas_starts_witness : exists s, start_cas cas_sample_host loaded_cas_config = Ok s /\
  cs_readiness s = RebuildFailed "a shard is damaged" /\ charged_bytes (cs_ledger s) = 1000 /\
  find_key "hub-key-2" (verification_keys (cs_auth s)) = Some (8 : @VerifyingKey TokenModel.ed25519).
Proof.
  pose proof (loaded_cas_starts sample_cas_env loaded_cas_config cas_sample_host cas_sample_verifier [1000; 0] sample_cas_loads cas_sample_ready) as Hs.
  assert ((MAX_PERMITS <? cc_queue_capacity (cf_conversion loaded_cas_config)) = false) as Hcap by (vm_compute; reflexivity). rewrite Hcap in Hs.
  destruct Hs as (s & Hs & Hserves & _ & _ & Hkeys & _). exists s. split; [exact Hs|]. split; [exact (cw_readiness _ _ _ _ _ Hserves)|].
  split; [rewrite (cw_ledger _ _ _ _ _ Hserves); reflexivity|].
  destruct (Hkeys "hub-key-2") as (path & pem & key & Hp & Hr & Hk & Hf).
  - assert (trusted_kids (cf_auth loaded_cas_config) = ["hub-key-1"; "hub-key-2"]) as -> by (vm_compute; reflexivity). right. left.
  - assert (key_path (cf_auth loaded_cas_config) "hub-key-2" = Some "/keys/bb") as Hpath by (vm_compute; reflexivity).
    rewrite Hpath in Hp. injection Hp as <-. injection Hr as <-. rewrite Hf. injection Hk as <-. reflexivity.
Defined.

(** A queue that no channel can hold passes the checks and stops the server. *)
Example oversized_queue :
  match try_from_env (fun key => if (key =? "XET_CONVERSION_QUEUE_CAPACITY")%string then Present "2305843009213693952" else sample_cas_env key) with
  | Ok c => MAX_PERMITS <? cc_queue_capacity (cf_conversion c)
  | _ => false
  end = true.
Proof. vm_compute. reflexivity. Qed.
