(* ===== verification/CasWeb.v ===== *)
(** * The CAS server's routes and answers (src/server.rs, src/api/internal.rs)

    The route table as [start_server] registers it, the requests the handlers
    take from a URL, the endpoints that are not requests of the API, and the
    headers of the answer to HEAD.  What the framework makes of a body is an
    argument; the rate limiter is left out. *)
From stdpp Require Import gmap strings.
From Stdlib Require Import Ascii.
From S2P Require Import Prelude Bytes Crates MerkleHash Hash Compression Text Storage Routing Quota TokenCrates Tokens CasAuth Scheduler Operations Payload CasApi CasServer CasSafety CasStart Metrics.

Local Open Scope string_scope.
Local Open Scope list_scope.
Local Open Scope Z_scope.

(** ** The table *)
Inductive cas_endpoint :=
| EpGetState | EpHeadBlob | EpCasHealth | EpCasReady | EpMetrics
| EpUploadXorb | EpDownloadXorb | EpUploadLfs | EpDownloadLfs | EpUploadShard | EpReconstruction | EpDedup | EpBatchOperation.
#[export] Instance cas_endpoint_eq_dec : EqDecision cas_endpoint.
Proof. solve_decision. Defined.

(** The internal routes and the probes come before the scope of the public ones. *)
Definition cas_routes : list (route cas_endpoint) :=
  [ mkRoute "GET" "/internal/state/{oid}" EpGetState; mkRoute "HEAD" "/internal/blob/{oid}" EpHeadBlob;
    mkRoute "GET" "/health" EpCasHealth; mkRoute "GET" "/ready" EpCasReady; mkRoute "GET" "/metrics" EpMetrics;
    mkRoute "POST" "/v1/xorbs/{prefix}/{hash}" EpUploadXorb; mkRoute "PUT" "/v1/xorbs/{prefix}/{hash}" EpUploadXorb;
    mkRoute "GET" "/v1/xorbs/{prefix}/{hash}/download" EpDownloadXorb;
    mkRoute "PUT" "/lfs/objects/{oid}" EpUploadLfs; mkRoute "GET" "/lfs/objects/{oid}" EpDownloadLfs;
    mkRoute "POST" "/v1/shards" EpUploadShard; mkRoute "GET" "/v2/reconstructions/{file_id}" EpReconstruction;
    mkRoute "GET" "/v1/chunks/{prefix}/{hash}" EpDedup;
    mkRoute "POST" "/objects/batch" EpBatchOperation; mkRoute "POST" "/lfs/objects/batch" EpBatchOperation ].
Definition cas_dispatch (method path : string) : option (cas_endpoint * list string) := find_route cas_routes method (words path).

(** What a request brings besides its URL and its token, and what the host
    answers while it runs; [None] for a batch that is not one. *)
Record http_input := mkInput {
  in_upload : upload_host;
  in_stream : stream_host;
  in_reconstruction : stream_host;
  in_payload : list (outcome string (list byte));
  in_batch : option BatchRequest;
}.

(** The request of an endpoint, with the names of the path. *)
Definition request_of (input : http_input) (target : cas_endpoint * list string) : option request :=
  match target with
  | (EpGetState, [oid]) => Some (GetBlobState oid)
  | (EpHeadBlob, [oid]) => Some (HeadBlob oid)
  | (EpUploadXorb, [prefix; hash]) => Some (UploadXorb (in_upload input) prefix hash (in_payload input))
  | (EpDownloadXorb, [prefix; hash]) => Some (DownloadXorb (in_stream input) prefix hash)
  | (EpUploadLfs, [oid]) => Some (UploadLfs (in_upload input) oid (in_payload input))
  | (EpDownloadLfs, [oid]) => Some (DownloadLfs (in_stream input) (in_reconstruction input) oid)
  | (EpUploadShard, []) => Some (UploadShard (in_upload input) (in_payload input))
  | (EpReconstruction, [file_id]) => Some (GetReconstruction file_id)
  | (EpDedup, [prefix; hash]) => Some (QueryDedup prefix hash)
  | (EpBatchOperation, []) => Batch <$> in_batch input
  | _ => None
  end.
Definition cas_request (input : http_input) (method path : string) : option request := cas_dispatch method path ≫= request_of input.

(** ** Answers *)
Inductive cas_reply :=
| HealthReply
| ReadinessReply (reply : readiness_reply)
| MetricsReply (text : string)
| Rejection (r : response)
| Handled (p : prog)
| Crashed
| NotRouted.

Section Serving.
Context `{Blake3, HexCrate, Sha2, Lz4, FileReads, ReaderStream} `{Base64, TokenJson, Ed25519}.

(** [metrics_endpoint] *)
Definition metrics_endpoint (auth : AuthVerifier) (auth_header : option string) (now : option Z) (metrics : Metrics) : cas_reply :=
  match require_auth auth_header auth now (NeedInternal "Insufficient scope: requires 'internal'") with
  | Ok _ => MetricsReply (export_metrics metrics)
  | Err rej => Rejection (respond rej)
  | Panic => Crashed
  end.

(** What a URL gets; a body the framework refuses is answered by it. *)
Definition serve_cas (app : AppConfig) (auth : AuthVerifier) (storage_health : StorageResult unit) (index_state : IndexReadiness) (metrics : Metrics)
    (auth_header : option string) (now : option Z) (method path : string) (input : http_input) : cas_reply :=
  match cas_dispatch method path with
  | None => NotRouted
  | Some (EpCasHealth, _) => HealthReply
  | Some (EpCasReady, _) => ReadinessReply (cas_readiness_check storage_health index_state)
  | Some (EpMetrics, _) => metrics_endpoint auth auth_header now metrics
  | Some target =>
      match request_of input target with
      | Some rq => Handled (handle app auth auth_header now rq)
      | None => Rejection (mkResponse 400 NoBody)
      end
  end.
End Serving.

(** The headers of an answer that its handler sets (those to HEAD). *)
Definition own_headers (b : body) : list (string * option string) :=
  match b with
  | HeadBody state file_id size =>
      ("X-Storage-State", Some state) :: (match file_id with Some id => [("X-File-Id", Some id)] | None => [] end) ++ [("X-Blob-Size", Some (u64_to_string size))]
  | _ => []
  end.

(** ** Requests and their URLs *)
Inductive cas_target :=
| CtGetState (oid : string) | CtHeadBlob (oid : string)
| CtUploadXorb (put : bool) (prefix hash : string) | CtDownloadXorb (prefix hash : string)
| CtUploadLfs (oid : string) | CtDownloadLfs (oid : string) | CtUploadShard
| CtReconstruction (file_id : string) | CtDedup (prefix hash : string) | CtBatch (lfs : bool).
Definition ct_method (tg : cas_target) : string :=
  match tg with
  | CtHeadBlob _ => "HEAD"
  | CtUploadXorb put _ _ => if put then "PUT" else "POST"
  | CtUploadLfs _ => "PUT"
  | CtUploadShard | CtBatch _ => "POST"
  | _ => "GET"
  end.
Definition ct_words (tg : cas_target) : list string :=
  match tg with
  | CtGetState oid => ["internal"; "state"; oid] | CtHeadBlob oid => ["internal"; "blob"; oid]
  | CtUploadXorb _ prefix hash => ["v1"; "xorbs"; prefix; hash] | CtDownloadXorb prefix hash => ["v1"; "xorbs"; prefix; hash; "download"]
  | CtUploadLfs oid | CtDownloadLfs oid => ["lfs"; "objects"; oid]
  | CtUploadShard => ["v1"; "shards"] | CtReconstruction file_id => ["v2"; "reconstructions"; file_id]
  | CtDedup prefix hash => ["v1"; "chunks"; prefix; hash]
  | CtBatch lfs => (if lfs then ["lfs"] else []) ++ ["objects"; "batch"]
  end.
Definition ct_url (tg : cas_target) : string := "/" +:+ join "/"%char (ct_words tg).
Definition ct_request (input : http_input) (tg : cas_target) : option request :=
  match tg with
  | CtGetState oid => Some (GetBlobState oid) | CtHeadBlob oid => Some (HeadBlob oid)
  | CtUploadXorb _ prefix hash => Some (UploadXorb (in_upload input) prefix hash (in_payload input))
  | CtDownloadXorb prefix hash => Some (DownloadXorb (in_stream input) prefix hash)
  | CtUploadLfs oid => Some (UploadLfs (in_upload input) oid (in_payload input))
  | CtDownloadLfs oid => Some (DownloadLfs (in_stream input) (in_reconstruction input) oid)
  | CtUploadShard => Some (UploadShard (in_upload input) (in_payload input))
  | CtReconstruction file_id => Some (GetReconstruction file_id)
  | CtDedup prefix hash => Some (QueryDedup prefix hash)
  | CtBatch _ => Batch <$> in_batch input
  end.
Definition ct_ok (tg : cas_target) : Prop :=
  match tg with
  | CtGetState w | CtHeadBlob w | CtUploadLfs w | CtDownloadLfs w | CtReconstruction w => plain w
  | CtUploadXorb _ prefix hash | CtDownloadXorb prefix hash | CtDedup prefix hash => plain prefix /\ plain hash
  | _ => True
  end.

(** ** Lemmas *)
Lemma ct_words_plain tg : ct_ok tg -> Forall (fun w => contains_char "/"%char w = false) (ct_words tg).
Proof.
  intros Hok. destruct tg; cbn [ct_ok ct_words] in *; try match goal with b : bool |- _ => destruct b end;
    repeat match goal with H : _ /\ _ |- _ => destruct H | H : plain _ |- _ => destruct H as [_ H] end; by repeat constructor.
Qed.

Lemma route_cas input tg : ct_ok tg -> cas_request input (ct_method tg) (ct_url tg) = ct_request input tg.
Proof.
  intros Hok. assert (words (ct_url tg) = ct_words tg) as Hw.
  { unfold words, ct_url. rewrite strip_prefix_app. apply split_join; [by destruct tg as [| | | | | | | | |[]]|by apply ct_words_plain]. }
  unfold cas_request, cas_dispatch. rewrite Hw, find_route_compile. let t := eval vm_compute in (compile cas_routes) in change (compile cas_routes) with t.
  assert (forall o, o = Some (match tg with
      | CtGetState oid => (EpGetState, [oid]) | CtHeadBlob oid => (EpHeadBlob, [oid])
      | CtUploadXorb _ prefix hash => (EpUploadXorb, [prefix; hash]) | CtDownloadXorb prefix hash => (EpDownloadXorb, [prefix; hash])
      | CtUploadLfs oid => (EpUploadLfs, [oid]) | CtDownloadLfs oid => (EpDownloadLfs, [oid]) | CtUploadShard => (EpUploadShard, [])
      | CtReconstruction file_id => (EpReconstruction, [file_id]) | CtDedup prefix hash => (EpDedup, [prefix; hash]) | CtBatch _ => (EpBatchOperation, [])
      end) -> o ≫= request_of input = ct_request input tg) as Hgo by (intros o ->; by destruct tg).
  apply Hgo. clear Hgo Hw. destruct tg; cbn [ct_ok] in Hok; repeat match goal with H : _ /\ _ |- _ => destruct H end;
    repeat match goal with H : plain ?w |- _ => pose proof (plain_eqb w H); destruct H as [_ H] end;
    try match goal with b : bool |- _ => destruct b end; cbn [ct_method ct_words app]; run_routes.
Qed.

Lemma find_compiled_elem {E} (table : list (string * list segment * E)) method path e values :
  find_compiled table method path = Some (e, values) -> exists pattern, (method, pattern, e) ∈ table /\ match_segments pattern path = Some values.
Proof.
  induction table as [|[[m pattern] e'] table IH]; [done|]. cbn [find_compiled]. destruct (String.eqb_spec method m) as [->|_].
  - destruct (match_segments pattern path) as [v|] eqn:Em; [intros [= -> ->]; exists pattern; split; [by left|done]|].
    intros (p & Hin & Hp)%IH. exists p. split; [by right|done].
  - intros (p & Hin & Hp)%IH. exists p. split; [by right|done].
Qed.
Lemma dispatch_elem method path e values : cas_dispatch method path = Some (e, values) ->
  exists pattern, (method, pattern, e) ∈ compile cas_routes /\ match_segments pattern (words path) = Some values.
Proof. unfold cas_dispatch. rewrite find_route_compile. apply find_compiled_elem. Qed.

Lemma match_one word path values : match_segments [Lit word] path = Some values -> path = [word].
Proof. destruct path as [|w [|w' path]]; cbn; [done|..]; destruct (String.eqb_spec w word) as [->|]; by intros [=]. Qed.

(** The probes are where the documents say. *)
Lemma probe_paths method path e values : cas_dispatch method path = Some (e, values) -> e = EpCasHealth \/ e = EpCasReady ->
  method = "GET" /\ words path = [if decide (e = EpCasHealth) then "health" else "ready"].
Proof.
  intros (pattern & Hin & Hm)%dispatch_elem He. let t := eval vm_compute in (compile cas_routes) in change (compile cas_routes) with t in Hin.
  rewrite !elem_of_cons in Hin. repeat (destruct Hin as [[= -> -> ->]|Hin]; [destruct He as [[=]|[=]]|]); try by apply elem_of_nil in Hin.
  all: split; [done|]; apply match_one in Hm as ->; by rewrite ?decide_True, ?decide_False by done.
Qed.

(** ** Properties *)
Definition refused (r : response) : Prop := rs_status r = 400 \/ rs_status r = 401 \/ rs_status r = 403.

(** Every URL of the API reaches the request it is meant for, with the names
    in it, whatever they are: of the routes in their order, the first to match
    is its own. *)
Theorem cas_requests_reach_their_handlers input tg : ct_ok tg -> cas_request input (ct_method tg) (ct_url tg) = ct_request input tg.
Proof. apply route_cas. Qed.

(** C16: Without a token that the guard accepts the CAS server tells nothing but
    whether it is up.  Whatever the method, the path and the body are: a caller
    whom no guard lets in gets the health and the readiness, each at its own
    path, a 404, or a refusal; no handler has looked at the storage, the index
    or the metrics, or changed anything. *)
Theorem only_probes_are_open `{Blake3Laws, HexLaws, Sha2Laws, Lz4Laws, FileReadsLaws, ReaderStream, Base64Laws, TokenJsonLaws, Ed25519Laws}
    app auth storage_health index_state metrics auth_header now method path input :
  (forall need, exists rej, require_auth auth_header auth now need = Err rej) ->
  match serve_cas app auth storage_health index_state metrics auth_header now method path input with
  | HealthReply => method = "GET" /\ words path = ["health"]
  | ReadinessReply reply => method = "GET" /\ words path = ["ready"] /\ reply = cas_readiness_check storage_health index_state
  | NotRouted => cas_dispatch method path = None
  | Rejection r => refused r
  | Handled p => exists r, p = Respond r /\ refused r
  | MetricsReply _ | Crashed => False
  end.
Proof.
  intros Hno. unfold serve_cas.
  assert (forall rej, fst (error_parts rej) = 401 \/ fst (error_parts rej) = 403) as Hstatus by (intros []; auto).
  assert (forall rq, exists r, handle app auth auth_header now rq = Respond r /\ refused r) as Hhandle.
  { intros rq. destruct (Hno (need_of rq)) as [rej Hrej]. destruct (rejected_before_any_access app auth auth_header now rq rej Hrej) as (r & Hr & Hs).
    exists r. split; [done|]. unfold refused. destruct Hs as [|(-> & [-> | ->])]; auto. }
  destruct (cas_dispatch method path) as [[e values]|] eqn:Ed; [|done].
  destruct e; try (destruct (request_of input _) as [rq|]; [apply Hhandle|by left]).
  - exact (probe_paths _ _ _ _ Ed (or_introl eq_refl)).
  - destruct (probe_paths _ _ _ _ Ed (or_intror eq_refl)) as [Hm Hw]. split; [done|]. by split.
  - unfold metrics_endpoint. destruct (Hno (NeedInternal "Insufficient scope: requires 'internal'")) as [rej ->].
    assert (rs_status (respond rej) = fst (error_parts rej)) as E by (by destruct rej). unfold refused. rewrite E. destruct (Hstatus rej) as [-> | ->]; auto.
Qed.

(** ** Requests to a server *)
#[local] Existing Instances Model.blake3 Model.blake3_laws Model.hex Model.hex_laws Model.sha2 Model.sha2_laws Model.lz4 Model.lz4_laws.
#[local] Existing Instances TokenModel.base64 TokenModel.json TokenModel.ed25519.
#[local] Existing Instances TokenModel.base64_laws TokenModel.json_laws TokenModel.ed25519_laws.
#[local] Existing Instances Model.reads Model.reads_laws whole_stream.

Definition sample_input : http_input := mkInput good_host ready_host ready_host [] None.

(** An object called like the last word of a route with another method. *)
Lemma cas_requests_reach_their_handlers_witness :
  ct_ok (CtDownloadLfs "batch") /\ cas_request sample_input "GET" "/lfs/objects/batch" = Some (DownloadLfs ready_host ready_host "batch").
Proof.
  assert (ct_ok (CtDownloadLfs "batch")) as Hok by (split; [discriminate|reflexivity]).
  split; [exact Hok|exact (cas_requests_reach_their_handlers sample_input (CtDownloadLfs "batch") Hok)].
Defined.

(** An upload without a token. *)
Lemma only_probes_are_open_witness :
  match serve_cas sample_app sample_verifier (Ok tt) (Ready 3) metrics_new None (Some 1100) "PUT" "/lfs/objects/00ff" sample_input with
  | Handled p => exists r, p = Respond r /\ refused r
  | _ => False
  end.
Proof.
  exact (only_probes_are_open sample_app sample_verifier (Ok tt) (Ready 3) metrics_new None (Some 1100) "PUT" "/lfs/objects/00ff" sample_input
    (fun need => ex_intro _ MissingToken eq_refl)).
Defined.
