(* ===== verification/HubConfig.v ===== *)
(** * The Hub's configuration (src/hub/src/config.rs)

    Loading from the environment and a file, what a variable overrides, and the
    checks of a configuration.  The TOML parser with the file it reads is a
    parameter; the warnings that are logged are left out.  The start of the
    server from a configuration is in HubStart. *)
From stdpp Require Import gmap strings.
From Stdlib Require Import Ascii.
From S2P Require Import Prelude Bytes Crates Hash Text Url Config Quota TokenCrates Tokens CasAuth HubSigner.

Local Open Scope string_scope.
Local Open Scope list_scope.
Local Open Scope Z_scope.

(** ** Settings *)
Record ServerSettings := mkServer {
  hs_host : string;
  hs_port : Z;
  hs_public_base_url : option string;
  hs_rate_limit_rpm : Z;
  hs_cached_base_url : option string;
}.
Record AuthSettings := mkAuth {
  ha_private_key_path : string;
  ha_kid : string;
  ha_token_ttl_seconds : Z;
  ha_proxy_token_ttl_seconds : Z;
  ha_internal_token_ttl_seconds : Z;
}.
Record MetadataSettings := mkMetadata { hm_sqlite_path : string; hm_db_pool_size : Z }.
Record CasSettings := mkCas {
  hc_base_url : string;
  hc_internal_timeout_seconds : Z;
  hc_max_download_size : Z;
  hc_health_check_timeout_seconds : Z;
}.
Record StorageSettings := mkStorage {
  hg_inline_threshold_bytes : Z;
  hg_upload_temp_dir : string;
  hg_max_upload_size : Z;
  hg_temp_quota_bytes : Z;
  hg_temp_min_free_bytes : Z;
}.
Record HubConfig := mkHubConfig {
  server : ServerSettings;
  auth : AuthSettings;
  metadata : MetadataSettings;
  cas : CasSettings;
  storage : StorageSettings;
}.

Definition computed_base_url (s : ServerSettings) : string :=
  trim_end_slashes (default ("http://" +:+ hs_host s +:+ ":" +:+ u64_to_string (hs_port s)) (hs_public_base_url s)).
Definition base_url (s : ServerSettings) : string :=
  match hs_cached_base_url s with Some cached => cached | None => computed_base_url s end.
Definition cache_base_url (s : ServerSettings) : ServerSettings :=
  mkServer (hs_host s) (hs_port s) (hs_public_base_url s) (hs_rate_limit_rpm s) (Some (computed_base_url s)).

Definition default_server : ServerSettings := mkServer "0.0.0.0" 8080 None 120 None.
Definition default_auth : AuthSettings := mkAuth "private_key.pem" "hub-key-1" 3600 300 86400.
Definition default_metadata : MetadataSettings := mkMetadata "hub.db" 5.
Definition default_cas : CasSettings := mkCas "http://localhost:8081" 30 (512 * 1024 * 1024) 10.
Definition default_storage : StorageSettings :=
  mkStorage (1024 * 1024) "./data/hub-uploads" (512 * 1024 * 1024) (2 * 1024 * 1024 * 1024) (1024 * 1024 * 1024).
Definition default_config : HubConfig := mkHubConfig default_server default_auth default_metadata default_cas default_storage.

(** ** Checks *)
Definition short_lived (entry : string * Z) : outcome string unit :=
  ensure negb (MAX_TOKEN_LIFETIME_SECS <? entry.2)
    else (entry.1 +:+ " must be <= " +:+ u64_to_string MAX_TOKEN_LIFETIME_SECS +:+ " seconds (7 days), got " +:+ u64_to_string entry.2 +:+ ".") in
  Ok tt.

Section Loading.
Context `{UrlCrate}.

Definition validate (c : HubConfig) : outcome string unit :=
  let* _ := match hs_public_base_url (server c) with Some url => validate_http_url "HUB_PUBLIC_BASE_URL" url | None => Ok tt end in
  let* _ := validate_http_url "HUB_CAS_BASE_URL" (hc_base_url (cas c)) in
  let* _ := positive (hs_rate_limit_rpm (server c)) "HUB_RATE_LIMIT_RPM must be > 0 (got 0). This would disable rate limiting." in
  let* _ := positive (hm_db_pool_size (metadata c)) "HUB_DB_POOL_SIZE must be > 0 (got 0). This would prevent all database operations." in
  let* _ := positive (ha_token_ttl_seconds (auth c)) "HUB_TOKEN_TTL_SECONDS must be > 0 (got 0). Tokens would expire immediately." in
  let* _ := positive (ha_proxy_token_ttl_seconds (auth c)) "HUB_PROXY_TOKEN_TTL_SECONDS must be > 0 (got 0). Proxy tokens would expire immediately." in
  let* _ := positive (ha_internal_token_ttl_seconds (auth c)) "HUB_INTERNAL_TOKEN_TTL_SECONDS must be > 0 (got 0). Internal tokens would expire immediately." in
  let* _ := map_outcome short_lived [("HUB_TOKEN_TTL_SECONDS", ha_token_ttl_seconds (auth c)); ("HUB_PROXY_TOKEN_TTL_SECONDS", ha_proxy_token_ttl_seconds (auth c));
                                     ("HUB_INTERNAL_TOKEN_TTL_SECONDS", ha_internal_token_ttl_seconds (auth c))] in
  let* _ := not_blank (ha_private_key_path (auth c)) "HUB_PRIVATE_KEY_PATH must not be empty" in
  let* _ := not_blank (ha_kid (auth c)) "HUB_KID must not be empty" in
  let* _ := not_blank (hm_sqlite_path (metadata c)) "HUB_SQLITE_PATH must not be empty" in
  let* _ := not_blank (hg_upload_temp_dir (storage c)) "HUB_UPLOAD_TEMP_DIR must not be empty" in
  let* _ := positive (hg_max_upload_size (storage c)) "HUB_MAX_UPLOAD_SIZE must be > 0 (got 0). This would prevent all uploads." in
  let* _ := positive (hg_temp_quota_bytes (storage c)) "HUB_TEMP_QUOTA_BYTES must be > 0" in
  let* _ := positive (hg_temp_min_free_bytes (storage c)) "HUB_TEMP_MIN_FREE_BYTES must be > 0" in
  ensure negb (hg_max_upload_size (storage c) <? hg_inline_threshold_bytes (storage c))
    else ("HUB_INLINE_THRESHOLD (" +:+ u64_to_string (hg_inline_threshold_bytes (storage c)) +:+ ") must be <= HUB_MAX_UPLOAD_SIZE (" +:+
          u64_to_string (hg_max_upload_size (storage c)) +:+ ")") in
  let* _ := positive (hc_internal_timeout_seconds (cas c)) "HUB_CAS_TIMEOUT_SECS must be > 0 (got 0). CAS requests would time out immediately." in
  let* _ := positive (hc_max_download_size (cas c)) "HUB_MAX_DOWNLOAD_SIZE must be > 0 (got 0). CAS downloads would all fail." in
  ensure negb (hc_max_download_size (cas c) <? hg_max_upload_size (storage c))
    else ("HUB_MAX_DOWNLOAD_SIZE (" +:+ u64_to_string (hc_max_download_size (cas c)) +:+ ") must be >= HUB_MAX_UPLOAD_SIZE (" +:+
          u64_to_string (hg_max_upload_size (storage c)) +:+ ")") in
  let* _ := positive (hc_health_check_timeout_seconds (cas c)) "HUB_CAS_HEALTH_CHECK_TIMEOUT_SECS must be > 0 (got 0). Health check would never complete." in
  Ok tt.

(** ** Loading *)
Context (env : environment).

Definition cas_base_url_from_env : outcome string string :=
  let url := default "http://localhost:8081" (var env "HUB_CAS_BASE_URL") in
  let* _ := validate_http_url "HUB_CAS_BASE_URL" url in
  Ok url.

Definition try_from_env : outcome string HubConfig :=
  let* port := parse_env u16_max env "HUB_PORT" 8080 in
  let* rpm := parse_env u32_max env "HUB_RATE_LIMIT_RPM" 120 in
  let server := mkServer (default "0.0.0.0" (var env "HUB_HOST")) port (var env "HUB_PUBLIC_BASE_URL") rpm None in
  let* ttl := parse_env u64_max env "HUB_TOKEN_TTL_SECONDS" 3600 in
  let* proxy_ttl := parse_env u64_max env "HUB_PROXY_TOKEN_TTL_SECONDS" 300 in
  let* internal_ttl := parse_env u64_max env "HUB_INTERNAL_TOKEN_TTL_SECONDS" 86400 in
  let auth := mkAuth (default "private_key.pem" (var env "HUB_PRIVATE_KEY_PATH")) (default "hub-key-1" (var env "HUB_KID")) ttl proxy_ttl internal_ttl in
  let* pool := parse_env u32_max env "HUB_DB_POOL_SIZE" 5 in
  let metadata := mkMetadata (default "hub.db" (var env "HUB_SQLITE_PATH")) pool in
  let* url := cas_base_url_from_env in
  let* timeout := parse_env u64_max env "HUB_CAS_TIMEOUT_SECS" 30 in
  let* download := parse_env u64_max env "HUB_MAX_DOWNLOAD_SIZE" (512 * 1024 * 1024) in
  let* health := parse_env u64_max env "HUB_CAS_HEALTH_CHECK_TIMEOUT_SECS" 10 in
  let cas := mkCas url timeout download health in
  let* inline := parse_env u64_max env "HUB_INLINE_THRESHOLD" (1024 * 1024) in
  let* upload := parse_env u64_max env "HUB_MAX_UPLOAD_SIZE" (512 * 1024 * 1024) in
  let* quota := parse_env u64_max env "HUB_TEMP_QUOTA_BYTES" (2 * 1024 * 1024 * 1024) in
  let* min_free := parse_env u64_max env "HUB_TEMP_MIN_FREE_BYTES" (1024 * 1024 * 1024) in
  let storage := mkStorage inline (default "./data/hub-uploads" (var env "HUB_UPLOAD_TEMP_DIR")) upload quota min_free in
  let config := mkHubConfig server auth metadata cas storage in
  let* _ := match hs_public_base_url server with Some url => validate_http_url "HUB_PUBLIC_BASE_URL" url | None => Ok tt end in
  let* _ := validate config in
  Ok config.

(** [parse_optional_env], and the setting it replaces if there is a value. *)
Definition parse_optional_env (max : Z) (key : string) : outcome string (option Z) :=
  match var env key with
  | Some value => let* n := map_err (bad_value key value) (parse_int max value) in Ok (Some n)
  | None => Ok None
  end.
Definition override (max : Z) (key : string) (current : Z) : outcome string Z :=
  let* value := parse_optional_env max key in Ok (default current value).
Definition override_url (key : string) (current : option string) : outcome string (option string) :=
  match var env key with
  | Some url => let* _ := validate_http_url key url in Ok (Some url)
  | None => Ok current
  end.

(** [parse_file]: what the host and the TOML parser make of a path. *)
Context (parse_file : string -> outcome string HubConfig).

Definition from_file (path : string) : outcome string HubConfig :=
  let* config := parse_file path in
  let* _ := validate config in
  Ok config.

(** The variables over the settings of the file, in their order. *)
Definition with_overrides (config : HubConfig) : outcome string HubConfig :=
  let s := server config in
  let* port := override u16_max "HUB_PORT" (hs_port s) in
  let* url := override_url "HUB_PUBLIC_BASE_URL" (hs_public_base_url s) in
  let* rpm := override u32_max "HUB_RATE_LIMIT_RPM" (hs_rate_limit_rpm s) in
  let server := mkServer (default (hs_host s) (var env "HUB_HOST")) port url rpm (hs_cached_base_url s) in
  let a := auth config in
  let* ttl := override u64_max "HUB_TOKEN_TTL_SECONDS" (ha_token_ttl_seconds a) in
  let* proxy_ttl := override u64_max "HUB_PROXY_TOKEN_TTL_SECONDS" (ha_proxy_token_ttl_seconds a) in
  let* internal_ttl := override u64_max "HUB_INTERNAL_TOKEN_TTL_SECONDS" (ha_internal_token_ttl_seconds a) in
  let auth := mkAuth (default (ha_private_key_path a) (var env "HUB_PRIVATE_KEY_PATH")) (default (ha_kid a) (var env "HUB_KID")) ttl proxy_ttl internal_ttl in
  let m := metadata config in
  let* pool := override u32_max "HUB_DB_POOL_SIZE" (hm_db_pool_size m) in
  let metadata := mkMetadata (default (hm_sqlite_path m) (var env "HUB_SQLITE_PATH")) pool in
  let c := cas config in
  let* cas_url := override_url "HUB_CAS_BASE_URL" (Some (hc_base_url c)) in
  let* timeout := override u64_max "HUB_CAS_TIMEOUT_SECS" (hc_internal_timeout_seconds c) in
  let* download := override u64_max "HUB_MAX_DOWNLOAD_SIZE" (hc_max_download_size c) in
  let* health := override u64_max "HUB_CAS_HEALTH_CHECK_TIMEOUT_SECS" (hc_health_check_timeout_seconds c) in
  let cas := mkCas (default (hc_base_url c) cas_url) timeout download health in
  let g := storage config in
  let* inline := override u64_max "HUB_INLINE_THRESHOLD" (hg_inline_threshold_bytes g) in
  let* upload := override u64_max "HUB_MAX_UPLOAD_SIZE" (hg_max_upload_size g) in
  let* quota := override u64_max "HUB_TEMP_QUOTA_BYTES" (hg_temp_quota_bytes g) in
  let* min_free := override u64_max "HUB_TEMP_MIN_FREE_BYTES" (hg_temp_min_free_bytes g) in
  let storage := mkStorage inline (default (hg_upload_temp_dir g) (var env "HUB_UPLOAD_TEMP_DIR")) upload quota min_free in
  let config := mkHubConfig server auth metadata cas storage in
  let* _ := validate config in
  Ok (mkHubConfig (cache_base_url server) auth metadata cas storage).

Definition try_from_file_or_env : outcome string HubConfig :=
  let* config :=
    match var env "HUB_CONFIG_FILE" with
    | Some path => map_err (fun e => "HUB_CONFIG_FILE '" +:+ path +:+ "' is set but config could not be loaded: " +:+ e) (parse_file path)
    | None => try_from_env
    end in
  with_overrides config.
End Loading.

(** ** What a loaded configuration is *)

(** Every setting is its variable's value where the variable is set, else the base's. *)
Record overlay (env : environment) (base c : HubConfig) : Prop := mkOverlay {
  ov_host : hs_host (server c) = setting_str env "HUB_HOST" (hs_host (server base));
  ov_port : setting_int u16_max env "HUB_PORT" (hs_port (server base)) = Some (hs_port (server c));
  ov_public_base_url : hs_public_base_url (server c) = match var env "HUB_PUBLIC_BASE_URL" with Some url => Some url | None => hs_public_base_url (server base) end;
  ov_rpm : setting_int u32_max env "HUB_RATE_LIMIT_RPM" (hs_rate_limit_rpm (server base)) = Some (hs_rate_limit_rpm (server c));
  ov_key : ha_private_key_path (auth c) = setting_str env "HUB_PRIVATE_KEY_PATH" (ha_private_key_path (auth base));
  ov_kid : ha_kid (auth c) = setting_str env "HUB_KID" (ha_kid (auth base));
  ov_ttl : setting_int u64_max env "HUB_TOKEN_TTL_SECONDS" (ha_token_ttl_seconds (auth base)) = Some (ha_token_ttl_seconds (auth c));
  ov_proxy_ttl : setting_int u64_max env "HUB_PROXY_TOKEN_TTL_SECONDS" (ha_proxy_token_ttl_seconds (auth base)) = Some (ha_proxy_token_ttl_seconds (auth c));
  ov_internal_ttl : setting_int u64_max env "HUB_INTERNAL_TOKEN_TTL_SECONDS" (ha_internal_token_ttl_seconds (auth base)) = Some (ha_internal_token_ttl_seconds (auth c));
  ov_sqlite : hm_sqlite_path (metadata c) = setting_str env "HUB_SQLITE_PATH" (hm_sqlite_path (metadata base));
  ov_pool : setting_int u32_max env "HUB_DB_POOL_SIZE" (hm_db_pool_size (metadata base)) = Some (hm_db_pool_size (metadata c));
  ov_cas_url : hc_base_url (cas c) = setting_str env "HUB_CAS_BASE_URL" (hc_base_url (cas base));
  ov_timeout : setting_int u64_max env "HUB_CAS_TIMEOUT_SECS" (hc_internal_timeout_seconds (cas base)) = Some (hc_internal_timeout_seconds (cas c));
  ov_download : setting_int u64_max env "HUB_MAX_DOWNLOAD_SIZE" (hc_max_download_size (cas base)) = Some (hc_max_download_size (cas c));
  ov_health : setting_int u64_max env "HUB_CAS_HEALTH_CHECK_TIMEOUT_SECS" (hc_health_check_timeout_seconds (cas base)) = Some (hc_health_check_timeout_seconds (cas c));
  ov_inline : setting_int u64_max env "HUB_INLINE_THRESHOLD" (hg_inline_threshold_bytes (storage base)) = Some (hg_inline_threshold_bytes (storage c));
  ov_temp_dir : hg_upload_temp_dir (storage c) = setting_str env "HUB_UPLOAD_TEMP_DIR" (hg_upload_temp_dir (storage base));
  ov_upload : setting_int u64_max env "HUB_MAX_UPLOAD_SIZE" (hg_max_upload_size (storage base)) = Some (hg_max_upload_size (storage c));
  ov_quota : setting_int u64_max env "HUB_TEMP_QUOTA_BYTES" (hg_temp_quota_bytes (storage base)) = Some (hg_temp_quota_bytes (storage c));
  ov_min_free : setting_int u64_max env "HUB_TEMP_MIN_FREE_BYTES" (hg_temp_min_free_bytes (storage base)) = Some (hg_temp_min_free_bytes (storage c));
}.

Record valid `{UrlCrate} (c : HubConfig) : Prop := mkValid {
  va_public_base_url : forall url, hs_public_base_url (server c) = Some url -> http_url url;
  va_cas_url : http_url (hc_base_url (cas c));
  va_rpm : hs_rate_limit_rpm (server c) <> 0;
  va_pool : hm_db_pool_size (metadata c) <> 0;
  va_ttl : ha_token_ttl_seconds (auth c) <> 0 /\ ha_token_ttl_seconds (auth c) <= MAX_TOKEN_LIFETIME_SECS;
  va_proxy_ttl : ha_proxy_token_ttl_seconds (auth c) <> 0 /\ ha_proxy_token_ttl_seconds (auth c) <= MAX_TOKEN_LIFETIME_SECS;
  va_internal_ttl : ha_internal_token_ttl_seconds (auth c) <> 0 /\ ha_internal_token_ttl_seconds (auth c) <= MAX_TOKEN_LIFETIME_SECS;
  va_paths : is_blank (ha_private_key_path (auth c)) = false /\ is_blank (hm_sqlite_path (metadata c)) = false /\ is_blank (hg_upload_temp_dir (storage c)) = false;
  va_kid : is_blank (ha_kid (auth c)) = false;
  va_quota : hg_temp_quota_bytes (storage c) <> 0 /\ hg_temp_min_free_bytes (storage c) <> 0;
  va_sizes : hg_max_upload_size (storage c) <> 0 /\ hg_inline_threshold_bytes (storage c) <= hg_max_upload_size (storage c) <= hc_max_download_size (cas c);
  va_download : hc_max_download_size (cas c) <> 0;
  va_timeouts : hc_internal_timeout_seconds (cas c) <> 0 /\ hc_health_check_timeout_seconds (cas c) <> 0;
}.

(** Where loading starts: the file that is named, or the defaults. *)
Definition base_config (env : environment) (parse_file : string -> outcome string HubConfig) (base : HubConfig) : Prop :=
  match var env "HUB_CONFIG_FILE" with Some path => parse_file path = Ok base | None => base = default_config end.

Section LoadingFacts.
Context `{UrlCrate}.

(** *** The checks *)
Lemma short_lived_checks entry : checks (short_lived entry) (entry.2 <= MAX_TOKEN_LIFETIME_SECS).
Proof. unfold short_lived. destruct (Z.ltb_spec MAX_TOKEN_LIFETIME_SECS entry.2); cbn; lia. Qed.

Lemma validate_checks c : checks (validate c) (valid c).
Proof.
  eapply checks_iff; cycle 1.
  - unfold validate. apply checks_seq; [apply (checks_option _ (fun url => http_url url)); intros; apply validate_http_url_spec|].
    repeat first
      [ apply checks_seq; [first [apply validate_http_url_spec|apply positive_checks|apply not_blank_checks|apply checks_all; intros; apply short_lived_checks]|]
      | apply checks_ensure
      | apply checks_done ].
  - rewrite !negb_true_iff, !Z.ltb_ge, !Forall_cons. cbn. split.
    + intros (? & ? & ? & ? & ? & ? & ? & (? & ? & ? & _) & ? & ? & ? & ? & ? & ? & ? & ? & ? & ? & ? & ? & _). by constructor; repeat split.
    + intros [? ? ? ? [] [] [] (? & ? & ?) ? [] (? & ? & ?) ? []]. repeat split; try done. 
Qed.

(** *** Loading *)
Context (env : environment).

Lemma override_setting max key current n : override env max key current = Ok n <-> setting_int max env key current = Some n.
Proof.
  unfold override, parse_optional_env, setting_int. destruct (var env key) as [value|]; cbn; [|naive_solver].
  destruct (parse_int max value); cbn; naive_solver.
Qed.
Lemma parse_env_Ok max key base n : parse_env max env key base = Ok n <-> setting_int max env key base = Some n.
Proof.
  unfold parse_env, setting_int. destruct (var env key) as [value|]; [|naive_solver]. destruct (parse_int max value); cbn; naive_solver.
Qed.
Lemma override_url_Ok key current url :
  override_url env key current = Ok url <->
  url = match var env key with Some url => Some url | None => current end /\ forall value, var env key = Some value -> http_url value.
Proof.
  unfold override_url. destruct (var env key) as [value|]; [|naive_solver].
  pose proof (validate_http_url_spec key value). destruct (validate_http_url key value); naive_solver.
Qed.

(** A setting that was read is read again as it is. *)
Lemma setting_int_again max key base n : setting_int max env key base = Some n -> setting_int max env key n = Some n.
Proof. unfold setting_int. destruct (var env key); [|naive_solver]. by destruct (parse_int max _). Qed.
Lemma setting_str_again key base : setting_str env key (setting_str env key base) = setting_str env key base.
Proof. unfold setting_str. by destruct (var env key). Qed.

Lemma overlay_again base c : overlay env base c -> overlay env c c.
Proof.
  intros []. constructor; try (by eapply setting_int_again); unfold setting_str in *;
    match goal with |- context [var env ?key] => by destruct (var env key) end.
Qed.
Lemma setting_int_both max key a b c : setting_int max env key a = Some b -> setting_int max env key b = Some c -> b = c.
Proof. unfold setting_int. destruct (var env key); [|naive_solver]. destruct (parse_int max _); congruence. Qed.
Lemma overlay_trans a b c : overlay env a b -> overlay env b c -> overlay env a c.
Proof.
  intros [] []. constructor; unfold setting_str in *;
    first [ match goal with E : setting_int _ env ?key ?x = Some ?y, E' : setting_int _ env ?key ?y = Some ?z |- setting_int _ env ?key ?x = Some ?z =>
              by rewrite <- (setting_int_both _ _ _ _ _ E E') end
          | match goal with |- context [var env ?key] =>
              repeat match goal with E : context [var env key] |- _ => revert E end; destruct (var env key); cbn; congruence end ].
Qed.

Lemma validate_Ok c : validate c = Ok tt <-> valid c.
Proof. pose proof (validate_checks c). unfold checks in *. destruct (validate c) as [[]| |]; naive_solver. Qed.

(** Runs the reads of a configuration whose settings are known. *)
Ltac read_settings :=
  repeat match goal with
  | E : setting_int ?max ?env ?key _ = Some ?n |- context [parse_env ?max ?env ?key ?base] => rewrite (proj2 (parse_env_Ok max key base n) E)
  | E : setting_int ?max ?env ?key _ = Some ?n |- context [override ?env ?max ?key ?current] => rewrite (proj2 (override_setting max key current n) E)
  end.
(** Takes a run that succeeded apart. *)
Ltac run_settings H :=
  repeat match type of H with
  | (match ?o with Ok _ => _ | Err _ => _ | Panic => _ end) = _ => let E := fresh "E" in destruct o eqn:E; try discriminate H
  end;
  repeat match goal with
  | E : parse_env _ _ _ _ = Ok _ |- _ => apply parse_env_Ok in E
  | E : override _ _ _ _ = Ok _ |- _ => apply override_setting in E
  | E : override_url _ _ _ = Ok _ |- _ => apply override_url_Ok in E as [-> ?]
  | u : () |- _ => destruct u
  | E : validate _ = Ok _ |- _ => apply validate_Ok in E
  end.

(** What the two ways of loading read. *)
Lemma try_from_env_Ok c : try_from_env env = Ok c <-> overlay env default_config c /\ valid c /\ hs_cached_base_url (server c) = None.
Proof.
  assert (Hurl : forall url, cas_base_url_from_env env = Ok url <-> url = setting_str env "HUB_CAS_BASE_URL" "http://localhost:8081" /\ http_url url).
  { intros url. unfold cas_base_url_from_env, setting_str. pose proof (validate_http_url_spec "HUB_CAS_BASE_URL" (default "http://localhost:8081" (var env "HUB_CAS_BASE_URL"))).
    destruct (validate_http_url _ _); naive_solver. }
  split.
  - intros Hl. unfold try_from_env in Hl. run_settings Hl. injection Hl as <-.
    match goal with E : cas_base_url_from_env _ = Ok ?url |- _ => destruct (proj1 (Hurl url) eq_refl) as [-> _] end.
    split; [|by split]. constructor; cbn; try done. by destruct (var env "HUB_PUBLIC_BASE_URL").
  - intros ([] & Hv & Hc). unfold try_from_env. read_settings.
    rewrite (proj2 (Hurl (hc_base_url (cas c)))) by (split; [done|by destruct Hv]). read_settings.
    cbn zeta. cbn [hs_public_base_url].
    match goal with |- context [validate ?r] => assert (r = c) as -> end.
    { unfold setting_str in *. destruct c as [[] [] [] [] []]; cbn in *. simplify_eq. repeat f_equal; try congruence. by destruct (var env "HUB_PUBLIC_BASE_URL"). }
    assert (match var env "HUB_PUBLIC_BASE_URL" with Some url => validate_http_url "HUB_PUBLIC_BASE_URL" url | None => Ok tt end = Ok tt) as ->.
    { destruct (var env "HUB_PUBLIC_BASE_URL") as [url|] eqn:Eu; [|done]. pose proof (validate_http_url_spec "HUB_PUBLIC_BASE_URL" url) as Hs.
      destruct Hv as [Hpub]. specialize (Hpub url). destruct (validate_http_url _ _) as [[]| |]; [done|by destruct Hs; apply Hpub|done]. }
    by rewrite (proj2 (validate_Ok c) Hv).
Qed.

Lemma overlay_cached base c : overlay env base c -> overlay env base (mkHubConfig (cache_base_url (server c)) (auth c) (metadata c) (cas c) (storage c)).
Proof. intros []. by constructor. Qed.
Lemma valid_cached c : valid c -> valid (mkHubConfig (cache_base_url (server c)) (auth c) (metadata c) (cas c) (storage c)).
Proof. intros []. by constructor. Qed.

(** A URL that may be missing, after the override. *)
Lemma override_url_run key current url :
  url = match var env key with Some url => Some url | None => current end -> (forall value, var env key = Some value -> http_url value) ->
  override_url env key current = Ok url.
Proof. intros. by apply override_url_Ok. Qed.

Lemma with_overrides_Ok config c : with_overrides env config = Ok c <->
  overlay env config c /\ valid c /\ hs_cached_base_url (server c) = Some (computed_base_url (server c)).
Proof.
  split.
  - intros Hl. unfold with_overrides in Hl. run_settings Hl. injection Hl as <-. split; [|split; [|done]].
    + constructor; cbn; try done. unfold setting_str. by destruct (var env "HUB_CAS_BASE_URL").
    + match goal with Hv : valid _ |- _ => by apply valid_cached in Hv end.
  - intros ([] & Hv & Hc). unfold with_overrides. destruct Hv as [Hpub Hcas] eqn:Ev. clear Ev. read_settings.
    rewrite (override_url_run "HUB_PUBLIC_BASE_URL" _ (hs_public_base_url (server c))) by (try done; intros value Ev; apply Hpub; by rewrite ov_public_base_url0, Ev).
    read_settings.
    assert (override_url env "HUB_CAS_BASE_URL" (Some (hc_base_url (cas config))) = Ok (Some (hc_base_url (cas c)))) as ->.
    { revert Hcas. rewrite ov_cas_url0. unfold setting_str. intros Hcas. apply override_url_run; [by destruct (var env "HUB_CAS_BASE_URL")|].
      intros value Ev. by rewrite Ev in Hcas. }
    read_settings. cbn zeta.
    unfold setting_str in *. rewrite <- ov_host0, <- ov_key0, <- ov_kid0, <- ov_sqlite0, <- ov_temp_dir0. cbn [default from_option].
    rewrite (proj2 (validate_Ok _)) by (destruct c as [[] [] [] [] []], Hv; by constructor).
    f_equal. destruct c as [[] [] [] [] []]. cbn in *. by rewrite Hc.
Qed.

(** *** Widths *)

(** The integers of the settings fit their types. *)
Definition in_width (c : HubConfig) : Prop :=
  0 <= hs_port (server c) <= u16_max /\ 0 <= hs_rate_limit_rpm (server c) <= u32_max /\ 0 <= hm_db_pool_size (metadata c) <= u32_max /\
  Forall (fun n => 0 <= n <= u64_max)
    [ha_token_ttl_seconds (auth c); ha_proxy_token_ttl_seconds (auth c); ha_internal_token_ttl_seconds (auth c); hc_internal_timeout_seconds (cas c);
     hc_max_download_size (cas c); hc_health_check_timeout_seconds (cas c); hg_inline_threshold_bytes (storage c); hg_max_upload_size (storage c);
     hg_temp_quota_bytes (storage c); hg_temp_min_free_bytes (storage c)].

Lemma default_in_width : in_width default_config.
Proof. unfold in_width. rewrite !Forall_cons. repeat split; try constructor; unfold u16_max, u32_max, u64_max; cbn; lia. Qed.

Lemma overlay_in_width base c : in_width base -> overlay env base c -> in_width c.
Proof.
  unfold in_width. rewrite !Forall_cons. intros (? & ? & ? & ? & ? & ? & ? & ? & ? & ? & ? & ? & ? & _) [].
  assert (0 <= u16_max /\ 0 <= u32_max /\ 0 <= u64_max) as (? & ? & ?) by (unfold u16_max, u32_max, u64_max; lia).
  repeat (split; [by eapply setting_int_bounds; [| |eassumption]|]). repeat (split; [|split]); try constructor; by eapply setting_int_bounds; [| |eassumption].
Qed.

Lemma loaded_Ok parse_file c :
  try_from_file_or_env env parse_file = Ok c <->
  exists base, base_config env parse_file base /\ overlay env base c /\ valid c /\
    hs_cached_base_url (server c) = Some (computed_base_url (server c)) /\ base_url (server c) = computed_base_url (server c).
Proof.
  unfold try_from_file_or_env, base_config. split.
  - intros Hl. destruct (match var env "HUB_CONFIG_FILE" with Some _ => _ | None => _ end) as [config| |] eqn:Eb; [|done..].
    apply with_overrides_Ok in Hl as (Hov & Hv & Hc). assert (base_url (server c) = computed_base_url (server c)) as Hb by (unfold base_url; by rewrite Hc).
    destruct (var env "HUB_CONFIG_FILE") as [path|].
    + exists config. split; [|done]. destruct (parse_file path); cbn in Eb; congruence.
    + apply try_from_env_Ok in Eb as (Hd & _ & _). exists default_config. split; [done|]. split; [by eapply overlay_trans|done].
  - intros (base & Hb & Hov & Hv & Hc & _). destruct (var env "HUB_CONFIG_FILE") as [path|].
    + rewrite Hb. cbn [map_err]. by apply with_overrides_Ok.
    + subst base. set (c0 := mkHubConfig (mkServer (hs_host (server c)) (hs_port (server c)) (hs_public_base_url (server c)) (hs_rate_limit_rpm (server c)) None)
        (auth c) (metadata c) (cas c) (storage c)).
      rewrite (proj2 (try_from_env_Ok c0)) by (split; [by destruct Hov|split; [by destruct Hv|done]]).
      apply with_overrides_Ok. split; [|by split]. destruct Hov.
      constructor; try (by eapply setting_int_again); unfold setting_str in *; cbn;
        match goal with |- context [var env ?key] => by destruct (var env key) end.
Qed.

(** C19: The environment wins over the file, the file over the defaults.  Loading
    succeeds exactly if there is something to start from, the file that is named
    or the defaults, every variable that is set parses at its width and the
    settings together pass the checks; then every setting is its variable's value
    where the variable is set and the base's otherwise, whether or not there is a
    file, and the base URL is the public one, or the address, without slashes at
    its end. *)
Theorem environment_wins parse_file c :
  try_from_file_or_env env parse_file = Ok c <->
  exists base, base_config env parse_file base /\ overlay env base c /\ valid c /\
    hs_cached_base_url (server c) = Some (computed_base_url (server c)) /\ base_url (server c) = computed_base_url (server c).
Proof. apply loaded_Ok. Qed.
End LoadingFacts.
