(* ===== verification/HubMigrations.v ===== *)
(** * The Hub's database schema (src/hub/src/migrations.rs)

    What a start makes of the database it finds.  A database is its tables with
    their columns and the rows of [schema_version]; each statement commits on
    its own, may fail, and a process that dies after a statement leaves what a
    failure of the next one leaves.  Names are those of the schema in lower
    case; types, keys and indexes are not part of what is checked. *)
From stdpp Require Import gmap strings pretty.
From S2P Require Import Prelude Text.

Local Open Scope string_scope.
Local Open Scope list_scope.
Local Open Scope Z_scope.

Definition CURRENT_SCHEMA_VERSION : Z := 1.

(** ** Databases and statements *)
Record schema := mkSchema { sc_tables : gmap string (gset string); sc_versions : list Z }.
Definition empty_schema : schema := mkSchema ∅ [].
Definition columns_of (d : schema) (table : string) : gset string := default ∅ (sc_tables d !! table).

Inductive MigrationError := MgDatabase | MgProtocol (message : string).
Definition script (A : Type) : Type := nat -> schema -> nat * schema * outcome MigrationError A.
Definition ret {A} (r : outcome MigrationError A) : script A := fun n d => (n, d, r).
Definition andThen {A B} (c : script A) (k : A -> script B) : script B := fun n d =>
  match c n d with
  | (n, d, Ok a) => k a n d
  | (n, d, Err e) => (n, d, Err e)
  | (n, d, Panic) => (n, d, Panic)
  end.
#[local] Notation "'do' x <- c ; k" := (andThen c (fun x => k)) (at level 100, x name, c at level 99, k at level 200, right associativity).
Fixpoint each {A} (f : A -> script unit) (l : list A) : script unit :=
  match l with [] => ret (Ok tt) | a :: l => do _ <- f a; each f l end.

(** The schema: what [V1_SCHEMA] creates, in its order, and what is required. *)
Inductive ddl := CreateTable (table : string) (columns : list string) | CreateIndex (table : string) (columns : list string).
Definition users_columns : list string := ["user_id"; "username"; "created_at"].
Definition tokens_columns : list string := ["token_hash"; "user_id"; "name"; "scope"; "created_at"; "expires_at"; "revoked_at"].
Definition config_columns : list string := ["key"; "value"; "created_at"].
Definition repos_columns : list string := ["id"; "name"; "namespace"; "repo_type"; "sha"; "private"; "created_at"; "updated_at"].
Definition revisions_columns : list string := ["commit_id"; "repo_id"; "parent"; "message"; "author"; "created_at"].
Definition heads_columns : list string := ["repo_id"; "commit_id"].
Definition file_tree_columns : list string := ["path"; "repo_id"; "commit_id"; "size"; "cas_hash"; "is_lfs"].
Definition V1_SCHEMA : list ddl :=
  [ CreateTable "schema_version" ["version"]; CreateTable "users" users_columns; CreateTable "tokens" tokens_columns;
    CreateIndex "tokens" ["user_id"]; CreateTable "_config" config_columns; CreateTable "repos" repos_columns;
    CreateTable "revisions" revisions_columns; CreateTable "heads" heads_columns; CreateTable "file_tree" file_tree_columns;
    CreateIndex "file_tree" ["repo_id"; "commit_id"; "path"] ].
Definition REQUIRED_V1_COLUMNS : list (string * list string) :=
  [ ("schema_version", ["version"]); ("users", users_columns); ("tokens", tokens_columns); ("_config", config_columns);
    ("repos", repos_columns); ("revisions", revisions_columns); ("heads", heads_columns); ("file_tree", file_tree_columns) ].

Section Migrations.
Context (fails : nat -> bool).

Definition query {A} (f : schema -> option A) : script A := fun n d =>
  (S n, d, if fails n then Err MgDatabase else match f d with Some a => Ok a | None => Err MgDatabase end).
Definition change (f : schema -> option schema) : script unit := fun n d =>
  if fails n then (S n, d, Err MgDatabase) else match f d with Some d' => (S n, d', Ok tt) | None => (S n, d, Err MgDatabase) end.

(** [CREATE TABLE IF NOT EXISTS]: a new table has no rows. *)
Definition create_table (table : string) (columns : list string) (d : schema) : schema :=
  match sc_tables d !! table with
  | Some _ => d
  | None => mkSchema (<[table := list_to_set columns]> (sc_tables d)) (if (table =? "schema_version")%string then [] else sc_versions d)
  end.
Definition run_ddl (s : ddl) : script unit :=
  match s with
  | CreateTable table columns => change (fun d => Some (create_table table columns d))
  | CreateIndex table columns => change (fun d => if bool_decide (list_to_set columns ⊆ columns_of d table) then Some d else None)
  end.

Definition has_version_column (d : schema) : bool := bool_decide ("version" ∈ columns_of d "schema_version").
Definition set_schema_version_if_empty : script unit :=
  change (fun d => if has_version_column d
                   then Some (mkSchema (sc_tables d) (match sc_versions d with [] => [CURRENT_SCHEMA_VERSION] | versions => versions end))
                   else None).
Definition apply_v1_schema : script unit := do _ <- each run_ddl V1_SCHEMA; set_schema_version_if_empty.
Definition create_schema_version : script unit := run_ddl (CreateTable "schema_version" ["version"]).

Definition table_exists (table : string) : script bool := query (fun d => Some (match sc_tables d !! table with Some _ => true | None => false end)).
Fixpoint any_table (tables : list (string * list string)) : script bool :=
  match tables with
  | [] => ret (Ok false)
  | (table, _) :: tables =>
      if (table =? "schema_version")%string then any_table tables
      else do here <- table_exists table; if here : bool then ret (Ok true) else any_table tables
  end.
Definition has_any_hub_table : script bool := any_table REQUIRED_V1_COLUMNS.

Definition unrecognized_schema (detail : string) : MigrationError := MgProtocol ("Unrecognized existing Hub schema: " +:+ detail).
Definition validate_table (required : string * list string) : script unit :=
  let '(table, required_columns) := required in
  do here <- table_exists table;
  if negb here then ret (Err (unrecognized_schema ("missing table '" +:+ table +:+ "'")))
  else
    do actual <- query (fun d => Some (columns_of d table));
    match List.find (fun column => negb (bool_decide (column ∈ actual))) required_columns with
    | Some column => ret (Err (unrecognized_schema ("table '" +:+ table +:+ "' is missing column '" +:+ column +:+ "'")))
    | None => ret (Ok tt)
    end.
Definition validate_required_columns (required : list (string * list string)) : script unit := each validate_table required.
Definition validate_existing_v1_schema : script unit := validate_required_columns REQUIRED_V1_COLUMNS.
Definition validate_existing_v1_schema_without_version : script unit :=
  validate_required_columns (List.filter (fun required => negb (required.1 =? "schema_version")%string) REQUIRED_V1_COLUMNS).

Definition migrate : script unit :=
  do has_version_table <- table_exists "schema_version";
  if negb has_version_table then
    do any <- has_any_hub_table;
    if any : bool then
      do _ <- validate_existing_v1_schema_without_version;
      do _ <- create_schema_version;
      set_schema_version_if_empty
    else apply_v1_schema
  else
    do versions <- query (fun d => if has_version_column d then Some (sc_versions d) else None);
    match versions with
    | [] =>
        do any <- has_any_hub_table;
        if any : bool then do _ <- validate_existing_v1_schema; set_schema_version_if_empty else apply_v1_schema
    | [version] =>
        if CURRENT_SCHEMA_VERSION <? version then ret (Err (MgProtocol ("Hub database schema version " +:+ pretty version +:+ " is newer than supported version " +:+ pretty CURRENT_SCHEMA_VERSION)))
        else if version <? CURRENT_SCHEMA_VERSION then
          ret (Err (MgProtocol ("Hub database schema version " +:+ pretty version +:+ " is older than supported version " +:+ pretty CURRENT_SCHEMA_VERSION +:+ " and no migration path is available")))
        else validate_existing_v1_schema
    | _ => ret (Err (MgProtocol ("Hub schema_version must contain exactly one row, found " +:+ pretty (length versions))))
    end.
(** The database after a start, and what it answers. *)
Definition run_hub_migrations (d : schema) : schema * outcome MigrationError unit := let '(_, d', r) := migrate 0%nat d in (d', r).
End Migrations.

(** ** Specification *)
Definition has_columns (d : schema) (required : string * list string) : Prop :=
  exists actual, sc_tables d !! required.1 = Some actual /\ list_to_set required.2 ⊆ actual.
Definition hub_tables : list (string * list string) := tail REQUIRED_V1_COLUMNS.
(** Every table with every column; none of them. *)
Definition complete (d : schema) : Prop := Forall (has_columns d) hub_tables.
Definition virgin (d : schema) : Prop := Forall (fun required => sc_tables d !! required.1 = None) hub_tables.
Definition versioned (d : schema) : Prop := has_columns d ("schema_version", ["version"]).
Definition ready (d : schema) : Prop := complete d /\ versioned d /\ sc_versions d = [CURRENT_SCHEMA_VERSION].

(** A database that a start accepts. *)
Definition acceptable (d : schema) : Prop :=
  match sc_tables d !! "schema_version" with
  | None => virgin d \/ complete d
  | Some columns => "version" ∈ columns /\ (sc_versions d = [] /\ (virgin d \/ complete d) \/ sc_versions d = [CURRENT_SCHEMA_VERSION] /\ complete d)
  end.

(** Tables and columns are kept, and the version is set at most once. *)
Definition grows (d d' : schema) : Prop :=
  sc_tables d ⊆ sc_tables d' /\
  (sc_versions d' = sc_versions d \/ (sc_tables d !! "schema_version" = None \/ sc_versions d = []) /\ (sc_versions d' = [] \/ sc_versions d' = [CURRENT_SCHEMA_VERSION])).

(** ** Lemmas *)
#[export] Instance grows_preorder : PreOrder grows.
Proof.
  split; [by intros d; split; [|left]|]. intros d1 d2 d3 [T1 V1] [T2 V2]. split; [by etrans|].
  destruct V1 as [V1|[C1 V1]], V2 as [V2|[C2 V2]].
  - left. congruence.
  - right. split; [|done]. destruct C2 as [C2|C2]; [left; by eapply lookup_weaken_None|right; congruence].
  - right. split; [done|]. by rewrite V2.
  - by right.
Qed.

Lemma create_table_lookup t c d u :
  sc_tables (create_table t c d) !! u = match sc_tables d !! u with Some x => Some x | None => if decide (u = t) then Some (list_to_set c) else None end.
Proof.
  unfold create_table. destruct (sc_tables d !! t) eqn:Et; [by destruct (sc_tables d !! u) eqn:Eu; [|destruct (decide (u = t)); [congruence|]]|].
  cbn [sc_tables]. destruct (decide (u = t)) as [->|Hne]; [by rewrite lookup_insert_eq, Et|]. rewrite lookup_insert_ne by done. by destruct (sc_tables d !! u).
Qed.

Lemma create_table_grows t c d : grows d (create_table t c d).
Proof.
  unfold create_table. destruct (sc_tables d !! t) eqn:Et; [done|]. split; cbn [sc_tables sc_versions]; [by apply insert_subseteq|].
  destruct (String.eqb_spec t "schema_version") as [->|]; [right; split; [by left|by left]|by left].
Qed.

Section Runs.
Context (fails : nat -> bool).

(** A script on a database: it only adds; what [post] says holds if it answers;
    and it answers, if no statement fails and the database is [good]. *)
Definition does {A} (c : script A) (d : schema) (good : Prop) (post : schema -> A -> Prop) : Prop :=
  forall n, let '(_, d', r) := c n d in
    grows d d' /\ r <> Panic /\ (forall a, r = Ok a -> post d' a) /\ ((forall n, fails n = false) -> good -> is_ok r = true).

Lemma does_mono {A} (c : script A) d (good good' : Prop) (post post' : schema -> A -> Prop) :
  does c d good post -> (good' -> good) -> (forall d' a, post d' a -> post' d' a) -> does c d good' post'.
Proof. intros Hc Hg Hp n. specialize (Hc n). destruct (c n d) as [[n' d'] r]. destruct Hc as (? & ? & ? & ?). naive_solver. Qed.

Lemma does_bind {A B} (c : script A) (k : A -> script B) d good post post' :
  does c d good post -> (forall d' a, post d' a -> does (k a) d' good post') -> does (andThen c k) d good post'.
Proof.
  intros Hc Hk n. unfold andThen. specialize (Hc n). destruct (c n d) as [[n1 d1] r]. destruct Hc as (Hgrow & Hp & Hok & Hgood).
  destruct r as [a|e|]; [|by split; [|split]|done]. specialize (Hk d1 a (Hok a eq_refl) n1). destruct (k a n1 d1) as [[n2 d2] r2].
  destruct Hk as (Hgrow2 & Hk). split; [by etrans|done].
Qed.

Lemma does_ret {A} (r : outcome MigrationError A) d : r <> Panic -> does (ret r) d (is_ok r = true) (fun d' a => d' = d /\ r = Ok a).
Proof. intros Hr n. split; [done|]. split; [done|]. split; [by intros a ->|done]. Qed.
Lemma does_query {A} (f : schema -> option A) d : does (query fails f) d (is_Some (f d)) (fun d' a => d' = d /\ f d = Some a).
Proof.
  intros n. unfold query. split; [done|]. destruct (fails n) eqn:En; [split; [done|]; split; [done|]; intros Hf _; congruence|].
  destruct (f d) as [a|]; (split; [done|]); (split; [by intros ? [=]; subst|]); [done|by intros _ []].
Qed.
Lemma does_change f d : (forall d', f d = Some d' -> grows d d') -> does (change fails f) d (is_Some (f d)) (fun d' _ => f d = Some d').
Proof.
  intros Hf n. unfold change. destruct (fails n) eqn:En; [split; [done|]; split; [done|]; split; [done|]; intros H _; congruence|].
  destruct (f d) as [d'|]; (split; [by auto|]); (split; [done|]); (split; [done|]); [done|by intros _ []].
Qed.

(** *** The parts of a start *)
Lemma does_table_exists t d : does (table_exists fails t) d True (fun d' b => d' = d /\ (b = true <-> is_Some (sc_tables d !! t))).
Proof.
  eapply does_mono; [apply does_query| |]; [by eexists|]. intros d' b [-> [= <-]]. split; [done|]. destruct (sc_tables d !! t); split; try done; by intros [].
Qed.

Lemma does_any_table tables d : does (any_table fails tables) d True (fun d' b => d' = d /\
  (b = false <-> Forall (fun required => required.1 <> "schema_version" -> sc_tables d !! required.1 = None) tables)).
Proof.
  induction tables as [|[t c] tables IH]; cbn [any_table].
  - eapply does_mono; [by apply does_ret|done|]. intros d' b [-> Hb]. split; [done|]. split; [by constructor|]. intros _. congruence.
  - destruct (String.eqb_spec t "schema_version") as [->|Hne].
    { eapply does_mono; [apply IH|done|]. intros d' b [-> Hb]. split; [done|]. rewrite Forall_cons, Hb. naive_solver. }
    eapply does_bind; [apply does_table_exists|]. intros d' here (E & Hhere). subst d'. destruct here.
    { eapply does_mono; [by apply does_ret|done|]. intros d' b [-> Hb]. split; [done|]. split; [congruence|]. intros [Hn _]%Forall_cons. cbn [fst] in Hn.
      destruct (proj1 Hhere eq_refl) as [x Hx]. by rewrite Hn in Hx. }
    eapply does_mono; [apply IH|done|]. intros d' b [-> Hb]. split; [done|]. rewrite Forall_cons, Hb. split; [|by intros [_ H]]. intros Hall. split; [|done]. intros _. cbn [fst].
    destruct (sc_tables d !! t); [|done]. by discriminate (proj2 Hhere ltac:(by eexists)).
Qed.
Lemma does_has_any d : does (has_any_hub_table fails) d True (fun d' b => d' = d /\ (b = false <-> virgin d)).
Proof.
  eapply does_mono; [apply does_any_table|done|]. intros d' b [-> Hb]. split; [done|]. rewrite Hb. unfold virgin, hub_tables, REQUIRED_V1_COLUMNS. cbn [tail].
  rewrite !Forall_cons. cbn [fst]. naive_solver.
Qed.

Lemma does_validate required d : does (validate_required_columns fails required) d (Forall (has_columns d) required)
  (fun d' _ => d' = d /\ Forall (has_columns d) required).
Proof.
  induction required as [|[t c] required IH]; cbn [validate_required_columns each] in *.
  { eapply does_mono; [by apply does_ret|done|]. intros d' b [-> _]. by split; [|constructor]. }
  eapply does_bind with (post := fun d' _ => d' = d /\ has_columns d (t, c)).
  2: { intros d' _ [-> Hc]. eapply does_mono; [apply IH|by intros [_ H]%Forall_cons|]. intros d' _ [-> Hr]. split; [done|by constructor]. }
  cbn [validate_table]. eapply does_bind.
  { eapply does_mono; [apply does_table_exists|done|]. intros d' b H. exact H. }
  intros d' here (E & Hhere). subst d'. destruct here; cbn [negb].
  2: { eapply does_mono; [by apply does_ret| |by intros d' a [_ [=]]]. intros [(x & Hx & _) _]%Forall_cons. cbn [fst] in Hx. by discriminate (proj2 Hhere ltac:(by eexists)). }
  destruct (proj1 Hhere eq_refl) as [actual Hactual]. eapply does_bind.
  { eapply does_mono; [apply does_query|by eexists|]. intros d' a H. exact H. }
  intros d' a [-> [= <-]]. unfold columns_of. rewrite Hactual. cbn [default].
  destruct (List.find _ c) as [column|] eqn:Ef.
  - eapply does_mono; [by apply does_ret| |by intros d' a [_ [=]]]. intros [(x & Hx & Hc) _]%Forall_cons. cbn [fst snd] in Hx, Hc.
    apply find_some in Ef as [Hin Hf]. apply list_elem_of_In in Hin. apply negb_true_iff, bool_decide_eq_false in Hf. simplify_eq. set_solver.
  - eapply does_mono; [by apply does_ret|done|]. intros d' a [-> _]. split; [done|]. exists actual. split; [done|]. cbn [snd].
    intros x Hx%elem_of_list_to_set. apply list_elem_of_In in Hx. pose proof (find_none _ _ Ef x Hx) as Hn. by apply negb_false_iff, bool_decide_eq_true in Hn.
Qed.

(** The tables after some statements of a schema. *)
Definition declared (l : list ddl) (t : string) : option (gset string) :=
  match List.find (fun s => match s with CreateTable u _ => (t =? u)%string | CreateIndex _ _ => false end) l with
  | Some (CreateTable _ columns) => Some (list_to_set columns)
  | _ => None
  end.
Definition ran (s : ddl) (d : schema) : schema := match s with CreateTable t c => create_table t c d | CreateIndex _ _ => d end.
Lemma ran_lookup l : forall d t, sc_tables (fold_left (fun d s => ran s d) l d) !! t = match sc_tables d !! t with Some x => Some x | None => declared l t end.
Proof.
  induction l as [|s l IH]; intros d t; [cbn; by destruct (sc_tables d !! t)|]. cbn [fold_left]. rewrite IH. destruct s as [u c|u c]; cbn [ran]; [|done].
  rewrite create_table_lookup. unfold declared. cbn [List.find]. destruct (sc_tables d !! t); [done|]. destruct (String.eqb_spec t u), (decide (t = u)); try done.
Qed.

(** A schema runs where its indexes are on columns that its tables have. *)
Fixpoint indexes_ok (l : list ddl) (d : schema) : Prop :=
  match l with
  | [] => True
  | s :: l => match s with CreateIndex t c => list_to_set c ⊆ columns_of d t | _ => True end /\ indexes_ok l (ran s d)
  end.
Lemma does_schema l : forall d, does (each (run_ddl fails) l) d (indexes_ok l d) (fun d' _ => d' = fold_left (fun d s => ran s d) l d).
Proof.
  induction l as [|s l IH]; intros d; cbn [each indexes_ok fold_left].
  { eapply does_mono; [by apply does_ret|done|]. by intros d' a [-> _]. }
  eapply does_bind with (post := fun d' _ => d' = ran s d).
  2: { intros d' _ ->. eapply does_mono; [apply IH|by intros [_ H]|done]. }
  destruct s as [t c|t c]; cbn [run_ddl ran].
  - eapply does_mono; [apply does_change|by eexists|by intros d' _ [= <-]]. intros d' [= <-]. apply create_table_grows.
  - eapply does_mono; [apply does_change| |].
    + intros d'. destruct (bool_decide _); [|done]. by intros [= ->].
    + intros [Hc _]. cbn beta. rewrite bool_decide_eq_true_2 by done. by eexists.
    + intros d' a. cbn beta. destruct (bool_decide _); [|done]. by intros [= ->].
Qed.

Lemma does_set_version d : does (set_schema_version_if_empty fails) d (versioned d)
  (fun d' _ => versioned d /\ sc_tables d' = sc_tables d /\ sc_versions d' = match sc_versions d with [] => [CURRENT_SCHEMA_VERSION] | versions => versions end).
Proof.
  assert (has_version_column d = true <-> versioned d) as Hv.
  { unfold has_version_column, versioned, has_columns, columns_of. rewrite bool_decide_eq_true. cbn [fst snd list_to_set list_to_set]. split.
    - destruct (sc_tables d !! "schema_version") as [x|]; cbn; [|set_solver]. intros Hin. exists x. split; [done|set_solver].
    - intros (x & -> & Hx). cbn. set_solver. }
  eapply does_mono; [apply does_change| |].
  - intros d'. destruct (has_version_column d); [|done]. intros [= <-]. split; [done|]. cbn [sc_versions]. destruct (sc_versions d) eqn:E; [right|by left].
    split; [by right|by right].
  - intros H%Hv. cbn beta. rewrite H. by eexists.
  - intros d' a. cbn beta. destruct (has_version_column d); [|done]. intros [= <-]. split; [by apply Hv|done].
Qed.

(** *** The schema on a database without its tables *)
Lemma virgin_schema d : virgin d -> sc_tables d !! "schema_version" = None \/ versioned d ->
  indexes_ok V1_SCHEMA d /\ complete (fold_left (fun d s => ran s d) V1_SCHEMA d) /\ versioned (fold_left (fun d s => ran s d) V1_SCHEMA d).
Proof.
  intros Hv Hver. unfold virgin, hub_tables, REQUIRED_V1_COLUMNS in Hv. cbn [tail] in Hv. rewrite !Forall_cons in Hv. cbn [fst] in Hv. destruct Hv as (V1 & V2 & V3 & V4 & V5 & V6 & V7 & _).
  assert (forall l t, sc_tables d !! t = None -> sc_tables (fold_left (fun d s => ran s d) l d) !! t = declared l t) as Hnew by (intros l t E; by rewrite ran_lookup, E).
  split; [|split].
  - assert (forall l s l2, indexes_ok (l ++ s :: l2) d <-> indexes_ok l d /\ (match s with CreateIndex t c => list_to_set c ⊆ columns_of (fold_left (fun d s => ran s d) l d) t | _ => True end) /\
        indexes_ok l2 (ran s (fold_left (fun d s => ran s d) l d))) as Hsplit.
    { intros l. generalize d. induction l as [|s' l IH]; intros d0 s l2; cbn [app indexes_ok fold_left]; [tauto|]. rewrite IH. tauto. }
    apply (Hsplit (take 3 V1_SCHEMA) (CreateIndex "tokens" ["user_id"]) (drop 4 V1_SCHEMA)). split; [done|]. split.
    { unfold columns_of. rewrite Hnew by done. cbn [default declared List.find take V1_SCHEMA]. cbn. set_solver. }
    change (drop 4 V1_SCHEMA) with (drop 4 (take 9 V1_SCHEMA) ++ [CreateIndex "file_tree" ["repo_id"; "commit_id"; "path"]]). cbn [take drop V1_SCHEMA app indexes_ok].
    repeat (split; [done|]). split; [|done]. unfold columns_of.
    match goal with |- _ ⊆ default ∅ (sc_tables ?d' !! _) => change d' with (fold_left (fun d s => ran s d) (take 9 V1_SCHEMA) d) end.
    rewrite Hnew by done. cbn. set_solver.
  - unfold complete, hub_tables, REQUIRED_V1_COLUMNS, has_columns. cbn [tail]. repeat (apply Forall_cons; split); [..|done]; cbn [fst snd];
      (eexists; split; [rewrite Hnew by done; reflexivity|done]).
  - unfold versioned, has_columns. cbn [fst snd]. destruct Hver as [Hn|(x & Hx & Hc)].
    + eexists. split; [rewrite ran_lookup, Hn; reflexivity|done].
    + exists x. split; [|done]. cbn [fst] in Hx. by rewrite ran_lookup, Hx.
Qed.

Lemma ready_intro d d' : complete d -> versioned d -> sc_tables d' = sc_tables d -> sc_versions d' = [CURRENT_SCHEMA_VERSION] -> ready d'.
Proof. intros Hc Hv Et Ev. unfold ready, complete, versioned, has_columns in *. by rewrite Et. Qed.

Lemma fold_versions l d : sc_versions d = [] -> sc_versions (fold_left (fun d s => ran s d) l d) = [].
Proof.
  revert d. induction l as [|s l IH]; intros d Hd; [done|]. cbn [fold_left]. apply IH. destruct s as [t c|]; cbn [ran]; [|done].
  unfold create_table. destruct (sc_tables d !! t); [done|]. cbn. by destruct (t =? "schema_version")%string.
Qed.
Lemma fold_versions_new d : sc_tables d !! "schema_version" = None -> sc_versions (fold_left (fun d s => ran s d) V1_SCHEMA d) = [].
Proof.
  intros Hn. unfold V1_SCHEMA. cbn [fold_left]. apply (fold_versions (tail V1_SCHEMA)). cbn [ran]. unfold create_table. by rewrite Hn.
Qed.

Lemma does_apply d : virgin d -> sc_tables d !! "schema_version" = None \/ versioned d /\ sc_versions d = [] ->
  does (apply_v1_schema fails) d True (fun d' _ => ready d').
Proof.
  intros Hv Hver. destruct (virgin_schema d Hv ltac:(tauto)) as (Hi & Hc & Hvd). unfold apply_v1_schema. eapply does_bind.
  { eapply does_mono; [apply does_schema|done|]. intros d' a H. exact H. }
  intros d' a ->. eapply does_mono; [apply does_set_version|done|]. intros d' b (_ & Et & Ev). eapply ready_intro; [exact Hc|exact Hvd|exact Et|].
  rewrite Ev. destruct Hver as [Hn|[_ Hn]]; [by rewrite fold_versions_new|by rewrite fold_versions].
Qed.

Lemma required_split d : Forall (has_columns d) REQUIRED_V1_COLUMNS <-> versioned d /\ complete d.
Proof. unfold REQUIRED_V1_COLUMNS, complete, hub_tables. cbn [tail REQUIRED_V1_COLUMNS]. by rewrite Forall_cons. Qed.

Lemma version_column d : is_Some (if has_version_column d then Some (sc_versions d) else None) <-> versioned d.
Proof.
  unfold has_version_column, versioned, has_columns, columns_of. cbn [fst snd]. destruct (sc_tables d !! "schema_version") as [x|]; cbn [from_option id].
  - destruct (bool_decide_reflect ("version" ∈ x)) as [Hin|Hn].
    + split; [intros _; exists x; split; [done|set_solver]|intros _; exists (sc_versions d); reflexivity].
    + split; [intros [y Hy]; discriminate|intros (y & [= <-] & Hy); set_solver].
  - rewrite bool_decide_eq_false_2 by set_solver. split; [intros [y Hy]; discriminate|intros (y & Hy & _); discriminate].
Qed.

(** A start on any database. *)
Lemma does_migrate d : does (migrate fails) d (acceptable d) (fun d' _ => acceptable d /\ ready d' /\ (ready d -> d' = d)).
Proof.
  unfold migrate. eapply does_bind; [eapply does_mono; [apply does_table_exists|done|]; intros d' b H; exact H|].
  intros d' here (E & Hhere). subst d'. unfold acceptable. destruct (sc_tables d !! "schema_version") as [cols|] eqn:Et.
  - assert (here = true) as -> by (apply Hhere; by eexists). cbn [negb].
    assert (versioned d <-> "version" ∈ cols) as Hver.
    { unfold versioned, has_columns. cbn [fst snd]. rewrite Et. split; [intros (x & [= <-] & Hx); set_solver|intros Hin; exists cols; split; [done|set_solver]]. }
    eapply does_bind; [eapply does_mono; [apply does_query| |]; [intros [Hin _]; by apply version_column, Hver|intros d' a H; exact H]|].
    intros d' versions (E & Ev). subst d'. assert (versioned d) as Hvd by (apply version_column; by eexists).
    assert (sc_versions d = versions) as Evs by (destruct (has_version_column d); congruence). destruct versions as [|v [|v2 versions]].
    + eapply does_bind; [eapply does_mono; [apply does_has_any|done|]; intros d' b H; exact H|].
      intros d' any (E & Hany). subst d'. destruct any.
      * assert (~ virgin d) as Hnv by (intros H%Hany; done).
        eapply does_bind; [eapply does_mono; [apply does_validate| |]; [|intros d' a H; exact H]|].
        { intros (_ & [(_ & [H|H])|(E & _)]); [done|by apply required_split|congruence]. }
        intros d' a (E & [_ Hc]%required_split). subst d'. eapply does_mono; [apply does_set_version|done|]. intros d' b (_ & E1 & E2). rewrite Evs in E2.
        split; [split; [by apply Hver|left; split; [done|by right]]|]. split; [by eapply ready_intro|]. intros (_ & _ & E). congruence.
      * assert (virgin d) as Hv by (by apply Hany). eapply does_mono; [apply does_apply; [done|by right]|done|]. intros d' b Hr.
        split; [split; [by apply Hver|left; split; [done|by left]]|]. split; [done|]. intros (_ & _ & E). congruence.
    + destruct (Z.ltb_spec CURRENT_SCHEMA_VERSION v) as [Hlt|Hge].
      { eapply does_mono; [by apply does_ret| |by intros d' a [_ [=]]]. intros (_ & [(E & _)|(E & _)]); [congruence|]. assert (v = CURRENT_SCHEMA_VERSION) by congruence. lia. }
      destruct (Z.ltb_spec v CURRENT_SCHEMA_VERSION) as [Hlt|Hle].
      { eapply does_mono; [by apply does_ret| |by intros d' a [_ [=]]]. intros (_ & [(E & _)|(E & _)]); [congruence|]. assert (v = CURRENT_SCHEMA_VERSION) by congruence. lia. }
      assert (v = CURRENT_SCHEMA_VERSION) as -> by lia. eapply does_mono; [apply does_validate| |].
      * intros (_ & [(E & _)|(_ & Hc)]); [congruence|by apply required_split].
      * intros d' a [-> [_ Hc]%required_split]. split; [split; [by apply Hver|by right]|]. by split.
    + eapply does_mono; [by apply does_ret| |by intros d' a [_ [=]]]. intros (_ & [(E & _)|(E & _)]); congruence.
  - assert (here = false) as -> by (destruct here; [by destruct (proj1 Hhere eq_refl)|done]). cbn [negb].
    assert (~ ready d) as Hnr by (intros (_ & (x & Hx & _) & _); cbn in Hx; congruence).
    eapply does_bind; [eapply does_mono; [apply does_has_any|done|]; intros d' b H; exact H|].
    intros d' any (E & Hany). subst d'. destruct any.
    + assert (~ virgin d) as Hnv by (intros H%Hany; done).
      eapply does_bind; [eapply does_mono; [apply does_validate| |]; [|intros d' a H; exact H]|]; [by intros [H|H]|].
      intros d' a (E & Hc). subst d'. change (complete d) in Hc.
      eapply does_bind with (post := fun d' _ => d' = create_table "schema_version" ["version"] d).
      { eapply does_mono; [apply does_change|by eexists|by intros d' b [= <-]]. intros d' [= <-]. apply create_table_grows. }
      intros d' b ->. assert (versioned (create_table "schema_version" ["version"] d)) as Hvd.
      { unfold versioned, has_columns. cbn [fst snd]. rewrite create_table_lookup, Et. eexists. split; [reflexivity|done]. }
      assert (complete (create_table "schema_version" ["version"] d)) as Hc'.
      { eapply Forall_impl; [exact Hc|]. intros [t c] (x & Hx & Hcx). exists x. split; [|done]. by rewrite create_table_lookup, Hx. }
      eapply does_mono; [apply does_set_version|done|]. intros d' x (_ & E1 & E2). split; [by right|].
      split; [|done]. eapply ready_intro; [exact Hc'|done|done|]. rewrite E2. unfold create_table. by rewrite Et.
    + assert (virgin d) as Hv by (by apply Hany). eapply does_mono; [apply does_apply; [done|by left]|done|]. intros d' x Hr. split; [by left|]. by split.
Qed.
End Runs.

Lemma acceptable_ready d : ready d -> acceptable d.
Proof.
  intros (Hc & (cols & Hcols & Hv) & Hs). unfold acceptable. cbn [fst snd] in Hcols, Hv. rewrite Hcols. split; [set_solver|]. by right.
Qed.

(** ** The property *)
(** C20: A start of the Hub only adds to its database, never panics, and answers
    where the database was one it accepts: without a Hub table or with all of
    them, and of the current version or of none.  Then every table and column
    that the store's statements name is there, and the version is the current
    one; starting again leaves the database as it is. *)
Theorem hub_migrations (fails : nat -> bool) (d : schema) :
  let '(d', r) := run_hub_migrations fails d in
  grows d d' /\ r <> Panic /\
  (r = Ok tt -> acceptable d /\ ready d' /\ run_hub_migrations (fun _ => false) d' = (d', Ok tt)) /\
  ((forall n, fails n = false) -> (r = Ok tt <-> acceptable d)).
Proof.
  unfold run_hub_migrations. pose proof (does_migrate fails d 0%nat) as H. destruct (migrate fails 0%nat d) as [[n d'] r].
  destruct H as (Hgrow & Hp & Hok & Hgood). split; [done|]. split; [done|]. split.
  - intros ->. destruct (Hok tt eq_refl) as (Ha & Hr & _). split; [done|]. split; [done|].
    pose proof (does_migrate (fun _ => false) d' 0%nat) as H. destruct (migrate _ 0%nat d') as [[n2 d2] r2].
    destruct H as (_ & _ & Hok2 & Hgood2). specialize (Hgood2 (fun _ => eq_refl) (acceptable_ready _ Hr)). destruct r2 as [[]| |]; [|done|done].
    destruct (Hok2 tt eq_refl) as (_ & _ & Heq). by rewrite (Heq Hr).
  - intros Hf. split; [intros ->; apply (Hok tt eq_refl)|]. intros Ha. specialize (Hgood Hf Ha). by destruct r as [[]| |].
Qed.

Lemma acceptable_empty : acceptable empty_schema.
Proof. unfold acceptable, empty_schema. cbn [sc_tables]. rewrite lookup_empty. left. unfold virgin. repeat (constructor; [apply lookup_empty|]). constructor. Qed.

(** A first start makes the tables, and the next one finds them. *)
Lemma hub_migrations_witness :
  (run_hub_migrations (fun _ => false) empty_schema).2 = Ok tt /\ ready (run_hub_migrations (fun _ => false) empty_schema).1.
Proof.
  pose proof (hub_migrations (fun _ => false) empty_schema) as H. destruct (run_hub_migrations _ _) as [d' r]. destruct H as (_ & _ & Hok & Hgood).
  assert (r = Ok tt) as E by exact (proj2 (Hgood (fun _ => eq_refl)) acceptable_empty).
  split; [exact E|]. exact (proj1 (proj2 (Hok E))).
Defined.

(** The statements of the schema commit one by one: a first start that dies
    after its second table leaves a database that no later start accepts. *)
Example interrupted_first_start :
  let d' := (run_hub_migrations (fun n => n =? 10)%nat empty_schema).1 in
  (run_hub_migrations (fun _ => false) d').2 = Err (unrecognized_schema "missing table 'tokens'").
Proof. vm_compute. reflexivity. Qed.
