(* ===== verification/HubMetadata.v ===== *)
(** * The Hub's metadata store (src/hub/src/metadata)

    Repositories, revisions, heads and file trees in a SQL database.  A
    statement of the source is a function on the tables of
    src/hub/src/migrations.rs: it fails where a key or a reference would be
    violated, and it can fail for a reason of its own, which [fails] says for
    the statements of one call in their order.  A failed transaction leaves the
    tables as they were.  The rows of [file_tree] are grouped by repository and
    revision, the rest of their key being the path. *)
From S2P Require Import Prelude Bytes Crates MerkleHash Hash Text.
From stdpp Require Import gmap strings sorting.
From Stdlib Require Import Ascii.

Local Open Scope string_scope.
Local Open Scope list_scope.
Local Open Scope Z_scope.

(** ** Data (src/hub/src/metadata/mod.rs) *)
Inductive RepoType := RModel | RDataset | RSpace.
#[export] Instance repo_type_dec : EqDecision RepoType.
Proof. solve_decision. Defined.

Definition repo_type_str (t : RepoType) : string :=
  match t with RModel => "model" | RDataset => "dataset" | RSpace => "space" end.
Definition repo_type_from_str (s : string) : outcome string RepoType :=
  let s := string_to_lower s in
  if (s =? "model")%string then Ok RModel
  else if (s =? "dataset")%string then Ok RDataset
  else if (s =? "space")%string then Ok RSpace
  else Err "Invalid repo type".

Record Repo := mkRepo {
  rp_id : Z;
  rp_name : string;
  rp_namespace : string;
  rp_repo_type : RepoType;
  rp_sha : option string;
  rp_private : bool;
  rp_created_at : Z;
  rp_updated_at : Z;
}.

Record Revision := mkRevision {
  rv_commit_id : string;
  rv_repo_id : Z;
  rv_parent : option string;
  rv_message : string;
  rv_author : string;
  rv_created_at : Z;
}.
#[export] Instance revision_dec : EqDecision Revision.
Proof. solve_decision. Defined.

Record FileEntry := mkEntry {
  fe_path : string;
  fe_repo_id : Z;
  fe_commit_id : string;
  fe_size : Z;
  fe_cas_hash : string;
  fe_is_lfs : bool;
}.

Record FileTreePage := mkPage { pg_entries : list FileEntry; pg_next_after_path : option string }.

Inductive FileTreeChange := Upsert (entry : FileEntry) | Delete (path : string).

Inductive MetadataError :=
| RepoNotFound (what : string)
| RepoAlreadyExists
| RevisionNotFound
| FileNotFound
| DatabaseError
| Corruption
| InvalidOperation
| MdConflict (head : string).

(** ** Tables *)
Record repo_row := mkRepoRow {
  rr_name : string;
  rr_namespace : string;
  rr_repo_type : string;
  rr_sha : option string;
  rr_private : Z;
  rr_created_at : Z;
  rr_updated_at : Z;
}.
Record file_row := mkFileRow { fr_size : Z; fr_cas_hash : string; fr_is_lfs : Z }.
#[export] Instance file_row_dec : EqDecision file_row.
Proof. solve_decision. Defined.

(** [next_id] is the AUTOINCREMENT counter of [repos]. *)
Record db := mkDb {
  repos : gmap Z repo_row;
  next_id : Z;
  revisions : gmap string Revision;
  heads : gmap Z string;
  file_tree : gmap (Z * string) (gmap string file_row);
}.
Definition empty_db : db := mkDb ∅ 1 ∅ ∅ ∅.

Definition i64_max : Z := 2 ^ 63 - 1.

(** The rows of [file_tree] for a repository and a revision. *)
Definition tree (d : db) (repo : Z) (commit : string) : gmap string file_row := default ∅ (file_tree d !! (repo, commit)).
Definition set_tree (d : db) (repo : Z) (commit : string) (rows : gmap string file_row) : db :=
  mkDb (repos d) (next_id d) (revisions d) (heads d) (<[(repo, commit) := rows]> (file_tree d)).

(** The foreign keys of the schema. *)
Definition references_ok (d : db) : Prop :=
  map_Forall (fun _ rev => is_Some (repos d !! rv_repo_id rev)) (revisions d) /\
  map_Forall (fun repo commit => is_Some (repos d !! repo) /\ is_Some (revisions d !! commit)) (heads d) /\
  map_Forall (fun key rows => rows = ∅ \/ (is_Some (repos d !! key.1) /\ is_Some (revisions d !! key.2))) (file_tree d).
#[export] Instance references_dec d : Decision (references_ok d).
Proof. unfold references_ok. apply _. Defined.

(** ** Statements and transactions *)
Definition sql (A : Type) : Type := nat -> db -> nat * db * outcome MetadataError A.
Definition lift {A} (r : outcome MetadataError A) : sql A := fun n d => (n, d, r).
Definition bind {A B} (c : sql A) (k : A -> sql B) : sql B := fun n d =>
  match c n d with
  | (n, d, Ok a) => k a n d
  | (n, d, Err e) => (n, d, Err e)
  | (n, d, Panic) => (n, d, Panic)
  end.
#[local] Notation "'do' x <- c ; k" := (bind c (fun x => k)) (at level 100, x name, c at level 99, k at level 200, right associativity).

Fixpoint for_each {A} (f : A -> sql unit) (l : list A) : sql unit :=
  match l with
  | [] => lift (Ok tt)
  | a :: l => do _ <- f a; for_each f l
  end.

Section Statements.
Context (fails : nat -> bool).

Definition fetch {A} (query : db -> A) : sql A := fun n d => (S n, d, if fails n then Err DatabaseError else Ok (query d)).
Definition execute (change : db -> option db) : sql unit := fun n d =>
  if fails n then (S n, d, Err DatabaseError)
  else
    match change d with
    | Some d' => if bool_decide (references_ok d') then (S n, d', Ok tt) else (S n, d, Err DatabaseError)
    | None => (S n, d, Err DatabaseError)
    end.

(** BEGIN, the body, and COMMIT or ROLLBACK; [explicit]: a failed rollback is reported. *)
Definition transaction (explicit : bool) (body : sql unit) (d : db) : db * outcome MetadataError unit :=
  if fails 0%nat then (d, Err DatabaseError)
  else
    match body 1%nat d with
    | (n, d', Ok _) => if fails n then (d, Err DatabaseError) else (d', Ok tt)
    | (n, _, Err e) => (d, Err (if explicit && fails n then DatabaseError else e))
    | (_, _, Panic) => (d, Panic)
    end.

(** A statement outside a transaction. *)
Definition single {A} (s : sql A) (d : db) : db * outcome MetadataError A := let '(_, d', r) := s 0%nat d in (d', r).

(** ** Repositories (src/hub/src/metadata/sqlite/repos.rs) *)
Definition same_repo (namespace name type : string) (row : repo_row) : bool :=
  (rr_namespace row =? namespace)%string && (rr_name row =? name)%string && (rr_repo_type row =? type)%string.
Definition find_repo (namespace name type : string) (d : db) : option (Z * repo_row) :=
  head (map_to_list (filter (fun entry => same_repo namespace name type entry.2 = true) (repos d))).

Definition create_repo (now : Z) (namespace name : string) (type : RepoType) (private : bool) (d : db)
  : db * outcome MetadataError Repo :=
  let repo_type_str := repo_type_str type in
  let private_int := if private then 1 else 0 in
  if fails 0%nat then (d, Err DatabaseError)
  else
    match find_repo namespace name repo_type_str d with
    | Some _ => (d, Err RepoAlreadyExists)
    | None =>
        let id := next_id d in
        if i64_max <? id then (d, Err DatabaseError)
        else (mkDb (<[id := mkRepoRow name namespace repo_type_str None private_int now now]> (repos d)) (id + 1)
                (revisions d) (heads d) (file_tree d),
              Ok (mkRepo id name namespace type None private now now))
    end.

Definition row_to_repo (id : Z) (row : repo_row) : outcome MetadataError Repo :=
  let* type := map_err (fun _ => Corruption) (repo_type_from_str (rr_repo_type row)) in
  Ok (mkRepo id (rr_name row) (rr_namespace row) type (rr_sha row) (negb (rr_private row =? 0)) (rr_created_at row) (rr_updated_at row)).

Definition get_repo (namespace name : string) (type : RepoType) (d : db) : outcome MetadataError Repo :=
  if fails 0%nat then Err DatabaseError
  else
    match find_repo namespace name (repo_type_str type) d with
    | Some (id, row) => row_to_repo id row
    | None => Err (RepoNotFound (namespace +:+ "/" +:+ name +:+ "/" +:+ repo_type_str type))
    end.

Definition delete_repo (repo : Z) : db -> db * outcome MetadataError unit :=
  transaction false (
    do _ <- execute (fun d => Some (mkDb (repos d) (next_id d) (revisions d) (heads d)
                                      (filter (fun entry => entry.1.1 <> repo) (file_tree d))));
    do _ <- execute (fun d => Some (mkDb (repos d) (next_id d) (revisions d) (delete repo (heads d)) (file_tree d)));
    do _ <- execute (fun d => Some (mkDb (repos d) (next_id d)
                                      (filter (fun entry => rv_repo_id entry.2 <> repo) (revisions d)) (heads d) (file_tree d)));
    do affected <- (fun n d => let '(n, d', r) := execute (fun d => Some (mkDb (delete repo (repos d)) (next_id d) (revisions d) (heads d) (file_tree d))) n d in
                               (n, d', let* _ := r in Ok (bool_decide (is_Some (repos d !! repo)))));
    lift (if affected : bool then Ok tt else Err (RepoNotFound ("id=" +:+ u64_to_string repo)))).

(** ** Revisions and heads (src/hub/src/metadata/sqlite/revisions.rs) *)
Definition insert_revision (rev : Revision) (d : db) : option db :=
  match revisions d !! rv_commit_id rev with
  | Some _ => None
  | None => Some (mkDb (repos d) (next_id d) (<[rv_commit_id rev := rev]> (revisions d)) (heads d) (file_tree d))
  end.
Definition replace_head (repo : Z) (commit : string) (d : db) : option db :=
  Some (mkDb (repos d) (next_id d) (revisions d) (<[repo := commit]> (heads d)) (file_tree d)).

Definition add_revision (rev : Revision) : db -> db * outcome MetadataError unit := single (execute (insert_revision rev)).
Definition set_head (repo : Z) (commit : string) : db -> db * outcome MetadataError unit := single (execute (replace_head repo commit)).

Definition get_revision (repo : Z) (commit : string) (d : db) : outcome MetadataError Revision :=
  if fails 0%nat then Err DatabaseError
  else
    match revisions d !! commit with
    | Some rev => if rv_repo_id rev =? repo then Ok rev else Err RevisionNotFound
    | None => Err RevisionNotFound
    end.

Definition get_head (repo : Z) (d : db) : outcome MetadataError (option string) :=
  if fails 0%nat then Err DatabaseError else Ok (heads d !! repo).

(** The recursive query of the log: the revision of the head, then the parents
    while the depth is below the limit.  Fuel: the parents can only be revisions
    that have not been visited. *)
Definition usize_as_i64 (n : Z) : Z := if n <? 2 ^ 63 then n else n - 2 ^ 64.
Fixpoint log_from (fuel : nat) (d : db) (commit : string) (depth limit : Z) : option (list Revision) :=
  match fuel with
  | O => None
  | S fuel =>
      match revisions d !! commit with
      | None => Some []
      | Some rev =>
          if depth + 1 <? limit then
            match rv_parent rev with
            | Some parent => cons rev <$> log_from fuel d parent (depth + 1) limit
            | None => Some [rev]
            end
          else Some [rev]
      end
  end.
Definition get_commit_log (repo : Z) (limit : option Z) (d : db) : option (outcome MetadataError (list Revision)) :=
  let effective_limit := match limit with Some l => usize_as_i64 l | None => i64_max - 1 end in
  if fails 0%nat then Some (Err DatabaseError)
  else
    match heads d !! repo with
    | None => Some (Ok [])
    | Some head => Ok <$> log_from (S (size (revisions d))) d head 0 effective_limit
    end.

(** ** File trees (src/hub/src/metadata/sqlite/helpers.rs and file_tree.rs) *)
Definition file_size_to_sql (size : Z) : outcome MetadataError Z := if size <=? i64_max then Ok size else Err InvalidOperation.

Definition insert_file_entry (repo : Z) (commit : string) (entry : FileEntry) : sql unit :=
  let is_lfs := if fe_is_lfs entry then 1 else 0 in
  do size <- lift (file_size_to_sql (fe_size entry));
  execute (fun d => Some (set_tree d repo commit (<[fe_path entry := mkFileRow size (fe_cas_hash entry) is_lfs]> (tree d repo commit)))).

Definition delete_file_entry (repo : Z) (commit path : string) : sql unit :=
  execute (fun d => Some (set_tree d repo commit (delete path (tree d repo commit)))).

Definition row_to_file_entry (repo : Z) (commit : string) (entry : string * file_row) : outcome MetadataError FileEntry :=
  let '(path, row) := entry in
  ensure 0 <=? fr_size row else Corruption in
  Ok (mkEntry path repo commit (fr_size row) (fr_cas_hash row) (negb (fr_is_lfs row =? 0))).

Definition add_file_entries (entries : list FileEntry) : db -> db * outcome MetadataError unit :=
  transaction false (for_each (fun e => insert_file_entry (fe_repo_id e) (fe_commit_id e) e) entries).

(** The rows in the order of their paths. *)
Definition path_le (a b : string * file_row) : Prop := String.le a.1 b.1.
#[local] Instance path_le_dec : RelDecision path_le := fun a b => String.le_dec a.1 b.1.
Definition ordered (d : db) (repo : Z) (commit : string) : list (string * file_row) :=
  merge_sort path_le (map_to_list (tree d repo commit)).

Definition get_file_tree (repo : Z) (commit : string) (d : db) : outcome MetadataError (list FileEntry) :=
  if fails 0%nat then Err DatabaseError else map_outcome (row_to_file_entry repo commit) (ordered d repo commit).

Definition resolve_file (repo : Z) (commit path : string) (d : db) : outcome MetadataError FileEntry :=
  if fails 0%nat then Err DatabaseError
  else
    match tree d repo commit !! path with
    | Some row => row_to_file_entry repo commit (path, row)
    | None => Err FileNotFound
    end.

(** ** Commits (src/hub/src/metadata/sqlite/atomic.rs) *)
Inductive CommitWrite := Snapshot (entries : list FileEntry) | Changes (changes : list FileTreeChange).

(** The parent's rows are inserted as rows of the new revision. *)
Definition copy_tree (repo : Z) (commit parent : string) (d : db) : option db :=
  if bool_decide (tree d repo commit ##ₘ tree d repo parent)
  then Some (set_tree d repo commit (tree d repo commit ∪ tree d repo parent)) else None.

Definition apply_change (repo : Z) (commit : string) (change : FileTreeChange) : sql unit :=
  match change with
  | Upsert entry => insert_file_entry repo commit entry
  | Delete path => delete_file_entry repo commit path
  end.

Definition commit_atomic_write (rev : Revision) (write : CommitWrite) (expected_parent : option string)
  : db -> db * outcome MetadataError unit :=
  transaction true (
    do current_head <- fetch (fun d => heads d !! rv_repo_id rev);
    if negb (bool_decide (current_head = expected_parent)) then lift (Err (MdConflict (default "" current_head)))
    else
      do _ <- execute (insert_revision rev);
      do _ <- match write, expected_parent with
              | Changes _, Some parent => execute (copy_tree (rv_repo_id rev) (rv_commit_id rev) parent)
              | _, _ => lift (Ok tt)
              end;
      do _ <- match write with
              | Snapshot entries => for_each (insert_file_entry (rv_repo_id rev) (rv_commit_id rev)) entries
              | Changes changes => for_each (apply_change (rv_repo_id rev) (rv_commit_id rev)) changes
              end;
      execute (replace_head (rv_repo_id rev) (rv_commit_id rev))).

Definition commit_atomic (rev : Revision) (entries : list FileEntry) := commit_atomic_write rev (Snapshot entries).
Definition commit_changes_atomic (rev : Revision) (changes : list FileTreeChange) := commit_atomic_write rev (Changes changes).
End Statements.

(** ** Pages of a tree *)

(** SQLite's LIKE with the escape character [\]; for ASCII letters it ignores
    the case.  Documented for patterns without an unescaped underscore. *)
Class SqlLike := sql_like : string -> string -> bool.
Definition like_special (a : ascii) : bool := Ascii.eqb a "%"%char || Ascii.eqb a "_"%char || Ascii.eqb a "\"%char.
Inductive like_match : string -> string -> Prop :=
| lm_nil : like_match "" ""
| lm_none p s : like_match p s -> like_match (String "%" p) s
| lm_more p a s : like_match (String "%" p) s -> like_match (String "%" p) (String a s)
| lm_escaped c a p s : ascii_to_lower c = ascii_to_lower a -> like_match p s -> like_match (String "\" (String c p)) (String a s)
| lm_literal c a p s : like_special c = false -> ascii_to_lower c = ascii_to_lower a -> like_match p s ->
    like_match (String c p) (String a s).
Fixpoint no_wild (p : string) : bool :=
  match p with
  | EmptyString => true
  | String "_" _ => false
  | String "\" (String _ p) => no_wild p
  | String "\" EmptyString => false
  | String _ p => no_wild p
  end.
Class SqlLikeLaws `{SqlLike} : Prop := sql_like_spec : forall p s, no_wild p = true -> (sql_like p s = true <-> like_match p s).

Fixpoint replace_char (c : ascii) (by_ : string) (s : string) : string :=
  match s with
  | EmptyString => EmptyString
  | String a s => if Ascii.eqb a c then by_ +:+ replace_char c by_ s else String a (replace_char c by_ s)
  end.
Definition escape_like_pattern (input : string) : string :=
  replace_char "_" "\_" (replace_char "%" "\%" (replace_char "\" "\\" input)).

Section Pages.
Context `{SqlLike} (fails : nat -> bool).

Definition below_prefix (normalized_prefix : string) (path : string) : bool :=
  (normalized_prefix =? "")%string ||
  (path =? normalized_prefix)%string || sql_like (escape_like_pattern normalized_prefix +:+ "/%") path.
Definition after (after_path : option string) (path : string) : bool :=
  match after_path with Some p => match String.compare p path with Lt => true | _ => false end | None => true end.

Definition get_file_tree_prefix (repo : Z) (commit prefix : string) (d : db) : outcome MetadataError (list FileEntry) :=
  if fails 0%nat then Err DatabaseError
  else map_outcome (row_to_file_entry repo commit)
         (List.filter (fun entry => below_prefix (trim_slashes prefix) entry.1) (ordered d repo commit)).

Definition get_file_tree_prefix_page (repo : Z) (commit prefix : string) (after_path : option string) (limit : Z) (d : db)
  : outcome MetadataError FileTreePage :=
  let normalized_prefix := trim_slashes prefix in
  let* fetch_limit := (match checked_add limit 1 with
                       | Some n => if n <=? i64_max then Ok n else Err InvalidOperation
                       | None => Err InvalidOperation
                       end) in
  if fails 0%nat then Err DatabaseError
  else
    let rows := take (Z.to_nat fetch_limit)
      (List.filter (fun entry => after after_path entry.1 && below_prefix normalized_prefix entry.1) (ordered d repo commit)) in
    let* entries := map_outcome (row_to_file_entry repo commit) rows in
    let has_more := limit <? len entries in
    let entries := take (Z.to_nat limit) entries in
    let next_after_path := if has_more then fe_path <$> last entries else None in
    Ok (mkPage entries next_after_path).
End Pages.
