(* ===== verification/HubHistory.v ===== *)
(** * The metadata store as a set of histories

    What the tables of [HubMetadata] stand for: repositories, each with the
    list of the commits it accepted.  Every operation of the store the services
    use is an operation on the histories, and every query answers from them. *)
From stdpp Require Import gmap strings sorting.
From Stdlib Require Import Ascii.
From S2P Require Import Prelude Text HubMetadata.

Local Open Scope string_scope.
Local Open Scope list_scope.
Local Open Scope Z_scope.

(** ** Histories *)
Record commit := mkCommit { cm_revision : Revision; cm_changes : list FileTreeChange }.
Record repository := mkRepository { ar_row : repo_row; ar_commits : list commit }.
Abbreviation hub := (gmap Z repository).

Definition cm_id (c : commit) : string := rv_commit_id (cm_revision c).
Definition row_of (e : FileEntry) : file_row := mkFileRow (fe_size e) (fe_cas_hash e) (if fe_is_lfs e then 1 else 0).
Definition changed (rows : gmap string file_row) (change : FileTreeChange) : gmap string file_row :=
  match change with Upsert e => <[fe_path e := row_of e]> rows | Delete path => delete path rows end.
Definition replay_commit (rows : gmap string file_row) (c : commit) : gmap string file_row := fold_left changed (cm_changes c) rows.
(** The files after a list of commits. *)
Definition replay (cs : list commit) : gmap string file_row := fold_left replay_commit cs ∅.
Definition head_of (cs : list commit) : option string := cm_id <$> last cs.

(** A size is a [u64]; one that was stored fits the column. *)
Definition size_ok (bound : Z) (change : FileTreeChange) : Prop :=
  match change with Upsert e => 0 <= fe_size e <= bound | Delete _ => True end.

(** Each commit names the one before it, and no id occurs twice. *)
Record history_ok (id : Z) (cs : list commit) : Prop := {
  ho_ids : NoDup (map cm_id cs);
  ho_commit : forall i c, cs !! i = Some c ->
    rv_repo_id (cm_revision c) = id /\ rv_parent (cm_revision c) = head_of (take i cs) /\ Forall (size_ok i64_max) (cm_changes c);
}.

Definition row_ok (row : repo_row) : Prop := exists type, rr_repo_type row = repo_type_str type.

(** The tables hold exactly the histories. *)
Record represents (d : db) (h : hub) : Prop := {
  rep_repos : repos d = ar_row <$> h;
  rep_next : 1 <= next_id d;
  rep_ids : forall id r, h !! id = Some r -> 1 <= id < next_id d /\ row_ok (ar_row r) /\ history_ok id (ar_commits r);
  rep_names : forall i j a b, h !! i = Some a -> h !! j = Some b ->
    same_repo (rr_namespace (ar_row a)) (rr_name (ar_row a)) (rr_repo_type (ar_row a)) (ar_row b) = true -> i = j;
  rep_revisions : forall c rev, revisions d !! c = Some rev <->
    rv_commit_id rev = c /\ exists r cm, h !! rv_repo_id rev = Some r /\ cm ∈ ar_commits r /\ cm_revision cm = rev;
  rep_heads : forall id, heads d !! id = (h !! id) ≫= (fun r => head_of (ar_commits r));
  rep_trees : forall id r i cm, h !! id = Some r -> ar_commits r !! i = Some cm ->
    tree d id (cm_id cm) = replay (take (S i) (ar_commits r));
  rep_no_tree : forall id c, tree d id c <> ∅ -> exists r cm, h !! id = Some r /\ cm ∈ ar_commits r /\ cm_id cm = c;
}.

(** ** Statements that succeed *)
Section Statements.
Context (fails : nat -> bool).

Lemma execute_Ok change n d n' d' :
  execute fails change n d = (n', d', Ok tt) -> change d = Some d' /\ references_ok d'.
Proof.
  unfold execute. destruct (fails n); [done|]. destruct (change d) as [d1|]; [|done].
  destruct (bool_decide_reflect (references_ok d1)); [|done]. by intros [= <- <-].
Qed.

Lemma execute_total change n d d' :
  (forall n, fails n = false) -> change d = Some d' -> references_ok d' -> execute fails change n d = (S n, d', Ok tt).
Proof. intros Hf Hc Hr. unfold execute. rewrite Hf, Hc. by rewrite bool_decide_eq_true_2. Qed.

Lemma execute_not_panic change n d : snd (execute fails change n d) <> Panic.
Proof. unfold execute. destruct (fails n); [done|]. destruct (change d); [|done]. by destruct (bool_decide _). Qed.

Lemma bind_Ok {A B} (c : sql A) (k : A -> sql B) n d n' d' b :
  bind c k n d = (n', d', Ok b) -> exists n1 d1 a, c n d = (n1, d1, Ok a) /\ k a n1 d1 = (n', d', Ok b).
Proof. unfold bind. destruct (c n d) as [[n1 d1] [a| |]]; [|done..]. intros Hk. by exists n1, d1, a. Qed.

Lemma bind_not_panic {A B} (c : sql A) (k : A -> sql B) n d :
  snd (c n d) <> Panic -> (forall a n d, snd (k a n d) <> Panic) -> snd (bind c k n d) <> Panic.
Proof. intros Hc Hk. unfold bind. destruct (c n d) as [[n1 d1] [a| |]]; [apply Hk|done|done]. Qed.

Lemma for_each_not_panic {A} (f : A -> sql unit) l n d :
  (forall a n d, snd (f a n d) <> Panic) -> snd (for_each f l n d) <> Panic.
Proof. intros Hf. revert n d. induction l as [|a l IH]; intros n d; cbn [for_each]; [done|]. by apply bind_not_panic. Qed.

Lemma transaction_not_panic explicit body d :
  (forall n d, snd (body n d) <> Panic) -> snd (transaction fails explicit body d) <> Panic.
Proof.
  intros Hb. unfold transaction. destruct (fails 0%nat); [done|]. specialize (Hb 1%nat d).
  destruct (body 1%nat d) as [[n d'] [[]| |]]; [by destruct (fails n)|done|done].
Qed.

(** A transaction that does not succeed changes nothing. *)
Lemma transaction_Err explicit body d d' r :
  transaction fails explicit body d = (d', r) -> is_ok r = false -> d' = d.
Proof.
  unfold transaction. destruct (fails 0%nat); [by intros [= <- <-]|].
  destruct (body 1%nat d) as [[n d1] [[]| |]]; [destruct (fails n)| |]; intros [= <- <-]; done.
Qed.
Lemma transaction_Ok explicit body d d' :
  transaction fails explicit body d = (d', Ok tt) -> exists n, body 1%nat d = (n, d', Ok tt).
Proof.
  unfold transaction. destruct (fails 0%nat); [done|].
  destruct (body 1%nat d) as [[n d1] [[]| |]]; [destruct (fails n)| |]; intros [=]. subst. by exists n.
Qed.

(** ** Changes of one tree *)

(** The tables after the tree of one revision became [rows]. *)
Definition retree (d d' : db) (repo : Z) (c : string) (rows : gmap string file_row) : Prop :=
  repos d' = repos d /\ next_id d' = next_id d /\ revisions d' = revisions d /\ heads d' = heads d /\
  tree d' repo c = rows /\ (forall id c', (id, c') <> (repo, c) -> tree d' id c' = tree d id c').

Lemma tree_set_tree d repo c rows : tree (set_tree d repo c rows) repo c = rows.
Proof. unfold tree, set_tree. cbn. by rewrite lookup_insert_eq. Qed.
Lemma tree_set_tree_ne d repo c rows id c' : (id, c') <> (repo, c) -> tree (set_tree d repo c rows) id c' = tree d id c'.
Proof. intros Hne. unfold tree, set_tree. cbn. by rewrite lookup_insert_ne. Qed.
Lemma retree_set d repo c rows : retree d (set_tree d repo c rows) repo c rows.
Proof. do 4 (split; [done|]). split; [apply tree_set_tree|]. intros. by apply tree_set_tree_ne. Qed.
Lemma retree_refl d repo c : retree d d repo c (tree d repo c).
Proof. done. Qed.
Lemma retree_trans d1 d2 d3 repo c rows2 rows3 : retree d1 d2 repo c rows2 -> retree d2 d3 repo c rows3 -> retree d1 d3 repo c rows3.
Proof.
  intros (? & ? & ? & ? & ? & Ho2) (? & ? & ? & ? & ? & Ho3). repeat (split; [congruence|]).
  intros id c' Hne. rewrite Ho3 by done. by apply Ho2.
Qed.

Lemma set_tree_references d repo c rows :
  references_ok d -> is_Some (repos d !! repo) -> is_Some (revisions d !! c) -> references_ok (set_tree d repo c rows).
Proof.
  intros (Hr & Hh & Hf) ? ?. split; [done|]. split; [done|]. cbn. apply map_Forall_insert_2; [by right|done].
Qed.

Lemma file_size_Ok z s : file_size_to_sql z = Ok s <-> s = z /\ z <= i64_max.
Proof. unfold file_size_to_sql. destruct (Z.leb_spec z i64_max); (split; [intros [=]; done|intros []; subst; try done]); lia. Qed.

Lemma apply_change_Ok repo c change n d n' d' :
  apply_change fails repo c change n d = (n', d', Ok tt) ->
  retree d d' repo c (changed (tree d repo c) change) /\ (size_ok u64_max change -> size_ok i64_max change).
Proof.
  destruct change as [e|path]; cbn [apply_change changed size_ok].
  - unfold insert_file_entry. intros (n1 & d1 & size & Hs & He)%bind_Ok. injection Hs as <- <- Hs.
    apply file_size_Ok in Hs as [-> Hle]. apply execute_Ok in He as [[= <-] _]. split; [apply retree_set|lia].
  - intros [[= <-] _]%execute_Ok. split; [apply retree_set|done].
Qed.

Lemma apply_changes_Ok repo c changes : forall n d n' d',
  for_each (apply_change fails repo c) changes n d = (n', d', Ok tt) ->
  retree d d' repo c (fold_left changed changes (tree d repo c)) /\ (Forall (size_ok u64_max) changes -> Forall (size_ok i64_max) changes).
Proof.
  induction changes as [|change changes IH]; intros n d n' d'; cbn [for_each fold_left].
  - intros [= <- <-]. split; [apply retree_refl|done].
  - intros (n1 & d1 & [] & Hc & Hl)%bind_Ok. apply apply_change_Ok in Hc as [Hc Hs]. apply IH in Hl as [Hl Hss].
    split; [|rewrite !Forall_cons; naive_solver]. eapply retree_trans; [exact Hc|]. by destruct Hc as (_ & _ & _ & _ & <- & _).
Qed.

Lemma apply_changes_total repo c changes : forall n d,
  (forall n, fails n = false) -> references_ok d -> is_Some (repos d !! repo) -> is_Some (revisions d !! c) ->
  Forall (size_ok i64_max) changes ->
  exists n' d', for_each (apply_change fails repo c) changes n d = (n', d', Ok tt) /\ references_ok d'.
Proof.
  induction changes as [|change changes IH]; intros n d Hf Hr Hp Hv Hs; cbn [for_each]; [by eexists _, _|].
  apply Forall_cons in Hs as [Hs Hss].
  assert (exists n1 rows, apply_change fails repo c change n d = (n1, set_tree d repo c rows, Ok tt)) as (n1 & rows & Hc).
  { destruct change as [e|path]; cbn [apply_change size_ok] in *.
    - eexists _, _. unfold insert_file_entry, bind, lift. rewrite (proj2 (file_size_Ok (fe_size e) (fe_size e))) by (split; [done|lia]).
      apply execute_total; [done|done|]. by apply set_tree_references.
    - eexists _, _. apply execute_total; [done|done|]. by apply set_tree_references. }
  unfold bind. rewrite Hc. apply IH; [done| |done..]. by apply set_tree_references.
Qed.

End Statements.

(** ** Facts about histories *)

Lemma replay_snoc cs c : replay (cs ++ [c]) = replay_commit (replay cs) c.
Proof. apply fold_left_app. Qed.

Lemma head_snoc cs c : head_of (cs ++ [c]) = Some (cm_id c).
Proof. unfold head_of. by rewrite last_snoc. Qed.

Lemma head_of_elem cs c : head_of cs = Some c -> exists cm i, cm_id cm = c /\ cs !! i = Some cm /\ S i = length cs.
Proof.
  unfold head_of. destruct cs as [|cm cs _] using rev_ind; [done|]. rewrite last_snoc. intros [= <-].
  exists cm, (length cs). rewrite length_app. cbn. by rewrite list_lookup_middle, Nat.add_1_r.
Qed.

Lemma commit_unique d h id r id' r' cm cm' :
  represents d h -> h !! id = Some r -> cm ∈ ar_commits r -> h !! id' = Some r' -> cm' ∈ ar_commits r' ->
  cm_id cm = cm_id cm' -> id = id' /\ cm_revision cm = cm_revision cm'.
Proof.
  intros Hd Hr Hcm Hr' Hcm' Hid.
  assert (forall id r cm, h !! id = Some r -> cm ∈ ar_commits r -> rv_repo_id (cm_revision cm) = id /\ revisions d !! cm_id cm = Some (cm_revision cm)) as Hstored.
  { clear - Hd. intros id r cm Hr Hcm. destruct (rep_ids _ _ Hd _ _ Hr) as (_ & _ & Hok).
    pose proof Hcm as (i & Hi)%list_elem_of_lookup. destruct (ho_commit _ _ Hok _ _ Hi) as (Hrepo & _).
    split; [done|]. apply (rep_revisions _ _ Hd). split; [done|]. exists r, cm. by rewrite Hrepo. }
  destruct (Hstored _ _ _ Hr Hcm) as [<- H1']. destruct (Hstored _ _ _ Hr' Hcm') as [<- H2'].
  rewrite Hid in H1'. split; congruence.
Qed.

(** ** The references of a store that represents histories *)
Lemma represents_references d h : represents d h -> references_ok d.
Proof.
  intros Hd. unfold references_ok. rewrite (rep_repos _ _ Hd).
  assert (forall id r cm, h !! id = Some r -> cm ∈ ar_commits r ->
    is_Some ((ar_row <$> h : gmap Z repo_row) !! id) /\ is_Some (revisions d !! cm_id cm)) as Hstored.
  { intros id r cm Hr Hcm. rewrite lookup_fmap, Hr. split; [done|]. destruct (rep_ids _ _ Hd _ _ Hr) as (_ & _ & Hok).
    pose proof Hcm as (i & Hi)%list_elem_of_lookup. destruct (ho_commit _ _ Hok _ _ Hi) as (Hrepo & _).
    exists (cm_revision cm). apply (rep_revisions _ _ Hd). split; [done|]. exists r, cm. by rewrite Hrepo. }
  split; [|split].
  - intros c rev (_ & r & cm & Hr & _ & _)%(rep_revisions _ _ Hd). rewrite lookup_fmap, Hr. done.
  - intros id c Hh. rewrite (rep_heads _ _ Hd) in Hh. destruct (h !! id) as [r|] eqn:Hr; [|done]. cbn in Hh.
    apply head_of_elem in Hh as (cm & i & <- & Hi & _). eapply Hstored; [done|]. by eapply list_elem_of_lookup_2.
  - intros [id c] rows Hrows. destruct (decide (rows = ∅)) as [|Hne]; [by left|right].
    destruct (rep_no_tree _ _ Hd id c) as (r & cm & Hr & Hcm & <-); [unfold tree; by rewrite Hrows|]. by eapply Hstored.
Qed.

Lemma represents_empty : represents empty_db ∅.
Proof.
  split; try done. intros c rev. split; [done|]. by intros (_ & r & cm & ? & _).
Qed.

(** ** Repositories *)

Lemma same_repo_iff namespace name type row :
  same_repo namespace name type row = true <-> rr_namespace row = namespace /\ rr_name row = name /\ rr_repo_type row = type.
Proof. unfold same_repo. rewrite !andb_true_iff, !String.eqb_eq. tauto. Qed.

Lemma find_repo_Some namespace name type d id row :
  find_repo namespace name type d = Some (id, row) -> repos d !! id = Some row /\ same_repo namespace name type row = true.
Proof.
  unfold find_repo. intros Hh. assert ((id, row) ∈ map_to_list (filter (fun e => same_repo namespace name type e.2 = true) (repos d))) as He
    by (destruct (map_to_list _); [done|injection Hh as ->; by left]).
  by apply elem_of_map_to_list, map_lookup_filter_Some in He.
Qed.
Lemma find_repo_None namespace name type d :
  find_repo namespace name type d = None -> forall id row, repos d !! id = Some row -> same_repo namespace name type row = false.
Proof.
  unfold find_repo. intros Hh id row Hr. apply not_true_is_false. intros Hs.
  assert ((id, row) ∈ map_to_list (filter (fun e => same_repo namespace name type e.2 = true) (repos d))) as He
    by (by apply elem_of_map_to_list, map_lookup_filter_Some).
  destruct (map_to_list _); [by apply elem_of_nil in He|done].
Qed.
Lemma find_repo_spec namespace name type d h :
  represents d h -> forall id row,
  find_repo namespace name type d = Some (id, row) <-> exists r, h !! id = Some r /\ ar_row r = row /\ same_repo namespace name type row = true.
Proof.
  intros Hd id row. split.
  - intros [Hr Hs]%find_repo_Some. rewrite (rep_repos _ _ Hd), lookup_fmap in Hr.
    destruct (h !! id) as [r|]; [|done]. injection Hr as <-. by exists r.
  - intros (r & Hr & <- & Hs). destruct (find_repo namespace name type d) as [[id' row']|] eqn:Ef.
    + apply find_repo_Some in Ef as [Hr' Hs']. rewrite (rep_repos _ _ Hd), lookup_fmap in Hr'.
      destruct (h !! id') as [r'|] eqn:Hh'; [|done]. injection Hr' as <-.
      assert (id = id') as -> by (apply (rep_names _ _ Hd id id' r r' Hr Hh'); apply same_repo_iff in Hs, Hs';
        apply same_repo_iff; intuition congruence).
      rewrite Hr in Hh'. by simplify_eq.
    + pose proof (find_repo_None _ _ _ _ Ef id (ar_row r)) as Hn. rewrite (rep_repos _ _ Hd), lookup_fmap, Hr in Hn.
      specialize (Hn eq_refl). congruence.
Qed.

Definition new_row (now : Z) (namespace name : string) (type : RepoType) (private : bool) : repo_row :=
  mkRepoRow name namespace (repo_type_str type) None (if private then 1 else 0) now now.

Lemma repo_type_round_trip type : repo_type_from_str (repo_type_str type) = Ok type.
Proof. by destruct type. Qed.

Lemma create_repo_spec fails now namespace name type private d h :
  represents d h ->
  match create_repo fails now namespace name type private d with
  | (d', Ok repo) =>
      let row := new_row now namespace name type private in
      h !! rp_id repo = None /\ row_to_repo (rp_id repo) row = Ok repo /\
      represents d' (<[rp_id repo := mkRepository row []]> h)
  | (d', Err e) =>
      d' = d /\ (e = RepoAlreadyExists ->
        exists id r, h !! id = Some r /\ same_repo namespace name (repo_type_str type) (ar_row r) = true)
  | (_, Panic) => False
  end.
Proof.
  intros Hd. unfold create_repo. destruct (fails 0%nat); [done|].
  destruct (find_repo _ _ _ d) as [[id row]|] eqn:Ef.
  { split; [done|]. intros _. apply (find_repo_spec _ _ _ _ _ Hd) in Ef as (r & Hr & <- & Hs). by exists id, r. }
  destruct (Z.ltb_spec i64_max (next_id d)); [done|]. cbn zeta. cbn [rp_id].
  assert (h !! next_id d = None) as Hnew.
  { destruct (h !! next_id d) as [r|] eqn:Hr; [|done]. apply (rep_ids _ _ Hd) in Hr as (? & _). lia. }
  assert (forall id r, h !! id = Some r -> same_repo namespace name (repo_type_str type) (ar_row r) = false) as Hfree.
  { intros id r Hr. apply (find_repo_None _ _ _ _ Ef id). by rewrite (rep_repos _ _ Hd), lookup_fmap, Hr. }
  split; [done|]. split.
  { unfold row_to_repo, new_row. cbn [rr_repo_type]. rewrite repo_type_round_trip. by destruct private. }
  assert (forall id r, <[next_id d := mkRepository (new_row now namespace name type private) []]> h !! id = Some r <->
    (id = next_id d /\ r = mkRepository (new_row now namespace name type private) []) \/ (id <> next_id d /\ h !! id = Some r)) as Hin
    by (intros id r; rewrite lookup_insert_Some; intuition congruence).
  split; cbn [repos next_id revisions heads file_tree].
  - rewrite fmap_insert. by rewrite (rep_repos _ _ Hd).
  - pose proof (rep_next _ _ Hd). lia.
  - intros id r [[-> ->]|[Hne Hr]]%Hin.
    + pose proof (rep_next _ _ Hd). split; [lia|]. split; [by exists type|]. split; [constructor|]. intros i c Hi; cbn in Hi; by rewrite lookup_nil in Hi.
    + apply (rep_ids _ _ Hd) in Hr as (? & ? & ?). split; [lia|done].
  - intros i j a b [[-> ->]|[Hi Ha]]%Hin [[-> ->]|[Hj Hb]]%Hin Hs; [done| | |by eapply (rep_names _ _ Hd)].
    + cbn in Hs. by rewrite (Hfree _ _ Hb) in Hs.
    + pose proof (Hfree _ _ Ha) as Hf. rewrite (proj2 (same_repo_iff _ _ _ _)) in Hf; [done|].
      apply same_repo_iff in Hs. cbn in Hs. intuition congruence.
  - intros c rev. rewrite (rep_revisions _ _ Hd). split; intros (Hc & r & cm & Hr & Hcm & Hrev); (split; [done|]); exists r, cm.
    + split; [|done]. apply Hin. right. split; [|done]. by intros E; rewrite E, Hnew in Hr.
    + apply Hin in Hr as [[_ ->]|[_ Hr]]; [by apply elem_of_nil in Hcm|done].
  - intros id. rewrite (rep_heads _ _ Hd). destruct (decide (id = next_id d)) as [->|Hne].
    + by rewrite lookup_insert_eq, Hnew.
    + by rewrite lookup_insert_ne.
  - intros id r i cm [[_ ->]|[_ Hr]]%Hin Hcm; [done|]. by apply (rep_trees _ _ Hd).
  - intros id c Hne. destruct (rep_no_tree _ _ Hd id c Hne) as (r & cm & Hr & Hcm). exists r, cm. split; [|done].
    apply Hin. right. split; [|done]. by intros E; rewrite E, Hnew in Hr.
Qed.

Lemma tree_without d repo id c :
  default ∅ (filter (fun entry => entry.1.1 <> repo) (file_tree d) !! (id, c)) = if decide (id = repo) then ∅ else tree d id c.
Proof.
  unfold tree. rewrite map_lookup_filter. destruct (file_tree d !! (id, c)) as [rows|]; cbn; [|by destruct (decide (id = repo))].
  by destruct (decide (id = repo)) as [->|Hne]; [rewrite option_guard_False by naive_solver|rewrite option_guard_True by done].
Qed.

Lemma delete_repo_spec fails repo d h :
  represents d h ->
  match delete_repo fails repo d with
  | (d', Ok _) => is_Some (h !! repo) /\ represents d' (delete repo h)
  | (d', Err e) => d' = d
  | (_, Panic) => False
  end.
Proof.
  intros Hd. destruct (delete_repo fails repo d) as [d' [[]|e|]] eqn:E; unfold delete_repo in E.
  2: { by apply transaction_Err in E. }
  2: { assert (snd (delete_repo fails repo d) <> Panic) as Hn; [|unfold delete_repo in Hn; by rewrite E in Hn].
       apply transaction_not_panic. intros n d1. clear.
       do 3 (apply bind_not_panic; [apply execute_not_panic|intros _; clear; intros n d1]).
       apply bind_not_panic; [|by intros [] ? ?].
       pose proof (execute_not_panic fails (fun d => Some (mkDb (delete repo (repos d)) (next_id d) (revisions d) (heads d) (file_tree d))) n d1) as Hp.
       by destruct (execute _ _ n d1) as [[? ?] [| |]]. }
  apply transaction_Ok in E as [n E].
  apply bind_Ok in E as (n1 & d1 & [] & E1 & E). apply execute_Ok in E1 as [[= <-] _].
  apply bind_Ok in E as (n2 & d2 & [] & E1 & E). apply execute_Ok in E1 as [[= <-] _].
  apply bind_Ok in E as (n3 & d3 & [] & E1 & E). apply execute_Ok in E1 as [[= <-] _].
  apply bind_Ok in E as (n4 & d4 & affected & E1 & E).
  cbn [repos next_id revisions heads file_tree] in E1.
  match type of E1 with context [execute ?f ?ch ?k ?dd] => destruct (execute f ch k dd) as [[n5 d5] [[]| |]] eqn:Ex end; [|done..].
  apply execute_Ok in Ex as [[= <-] _]. cbn in E1. injection E1 as <- <- <-.
  case_bool_decide as Hsome; [|done]. injection E as <- <-.
  rewrite (rep_repos _ _ Hd), lookup_fmap, fmap_is_Some in Hsome. split; [done|].
  split; cbn [repos next_id revisions heads file_tree].
  - rewrite (rep_repos _ _ Hd). by rewrite fmap_delete.
  - apply (rep_next _ _ Hd).
  - intros id r [Hne Hr]%lookup_delete_Some. by apply (rep_ids _ _ Hd).
  - intros i j a b [_ Ha]%lookup_delete_Some [_ Hb]%lookup_delete_Some. by apply (rep_names _ _ Hd).
  - intros c rev. rewrite map_lookup_filter_Some, (rep_revisions _ _ Hd). cbn. split.
    + intros [(Hc & r & cm & Hr & Hcm) Hne]. split; [done|]. exists r, cm. split; [|done]. by apply lookup_delete_Some.
    + intros (Hc & r & cm & [Hne Hr]%lookup_delete_Some & Hcm). split; [|done]. split; [done|]. by exists r, cm.
  - intros id. destruct (decide (id = repo)) as [->|Hne]; [by rewrite !lookup_delete_eq|].
    rewrite !lookup_delete_ne by done. apply (rep_heads _ _ Hd).
  - intros id r i cm [Hne Hr]%lookup_delete_Some Hcm. unfold tree at 1. cbn [file_tree]. rewrite tree_without.
    rewrite decide_False by done. by apply (rep_trees _ _ Hd).
  - intros id c. unfold tree at 1. cbn [file_tree]. rewrite tree_without. destruct (decide (id = repo)) as [|Hne]; [done|].
    intros (r & cm & Hr & Hcm)%(rep_no_tree _ _ Hd). exists r, cm. split; [|done]. by apply lookup_delete_Some.
Qed.

(** ** Commits *)

Lemma head_of_None cs : head_of cs = None -> cs = [].
Proof. unfold head_of. destruct cs as [|c cs _] using rev_ind; [done|]. by rewrite last_snoc. Qed.

Definition fresh_id (h : hub) (c : string) : Prop := forall id r cm, h !! id = Some r -> cm ∈ ar_commits r -> cm_id cm <> c.

Lemma revision_fresh d h c : represents d h -> revisions d !! c = None <-> fresh_id h c.
Proof.
  intros Hd. split.
  - intros Hn id r cm Hr Hcm <-. destruct (rep_ids _ _ Hd _ _ Hr) as (_ & _ & Hok). pose proof Hcm as (i & Hi)%list_elem_of_lookup.
    destruct (ho_commit _ _ Hok _ _ Hi) as (Hrepo & _).
    enough (revisions d !! cm_id cm = Some (cm_revision cm)) by congruence.
    apply (rep_revisions _ _ Hd). split; [done|]. exists r, cm. by rewrite Hrepo.
  - intros Hf. destruct (revisions d !! c) as [rev|] eqn:E; [|done]. apply (rep_revisions _ _ Hd) in E as (Hc & r & cm & Hr & Hcm & <-).
    by destruct (Hf _ _ _ Hr Hcm).
Qed.

Lemma parent_tree d h id r : represents d h -> h !! id = Some r ->
  match head_of (ar_commits r) with
  | Some parent => tree d id parent = replay (ar_commits r)
  | None => replay (ar_commits r) = ∅
  end.
Proof.
  intros Hd Hr. destruct (head_of (ar_commits r)) as [parent|] eqn:Eh; [|by rewrite (head_of_None _ Eh)].
  apply head_of_elem in Eh as (cm & i & <- & Hi & Hlen). rewrite (rep_trees _ _ Hd _ _ _ _ Hr Hi), Hlen. by rewrite firstn_all.
Qed.

(** The histories after a commit. *)
Definition committed (h : hub) (r : repository) (c : commit) : hub :=
  <[rv_repo_id (cm_revision c) := mkRepository (ar_row r) (ar_commits r ++ [c])]> h.

Lemma history_snoc id cs c :
  history_ok id cs -> cm_id c ∉ map cm_id cs -> rv_repo_id (cm_revision c) = id -> rv_parent (cm_revision c) = head_of cs ->
  Forall (size_ok i64_max) (cm_changes c) -> history_ok id (cs ++ [c]).
Proof.
  intros [Hnd Hc] Hfresh Hid Hp Hs. split.
  - rewrite map_app. apply NoDup_app. split; [done|]. split; [|apply NoDup_singleton].
    by intros x Hx ->%list_elem_of_singleton.
  - intros i c' [Hi|[Hlen Hi]]%lookup_app_Some.
    + destruct (Hc _ _ Hi) as (? & Hpar & ?). split; [done|]. split; [|done]. rewrite take_app_le; [done|].
      apply lookup_lt_Some in Hi. lia.
    + apply list_lookup_singleton_Some in Hi as [Hi ->]. split; [done|]. split; [|done].
      assert (i = length cs) as -> by lia. by rewrite take_app_length.
Qed.

Lemma represents_commit d d' h r c :
  represents d h -> h !! rv_repo_id (cm_revision c) = Some r -> rv_parent (cm_revision c) = head_of (ar_commits r) ->
  fresh_id h (cm_id c) -> Forall (size_ok i64_max) (cm_changes c) ->
  repos d' = repos d -> next_id d' = next_id d -> revisions d' = <[cm_id c := cm_revision c]> (revisions d) ->
  heads d' = <[rv_repo_id (cm_revision c) := cm_id c]> (heads d) ->
  tree d' (rv_repo_id (cm_revision c)) (cm_id c) = replay (ar_commits r ++ [c]) ->
  (forall id c', (id, c') <> (rv_repo_id (cm_revision c), cm_id c) -> tree d' id c' = tree d id c') ->
  represents d' (committed h r c).
Proof.
  intros Hd Hr Hpar Hfresh Hsize Erepos Enext Erev Ehead Etree Eother. unfold committed.
  set (repo := rv_repo_id (cm_revision c)) in *. set (r' := mkRepository (ar_row r) (ar_commits r ++ [c])).
  assert (forall id q, <[repo := r']> h !! id = Some q -> (id = repo /\ q = r') \/ (id <> repo /\ h !! id = Some q)) as Hin
    by (intros id q; rewrite lookup_insert_Some; intuition congruence).
  assert (forall id q, <[repo := r']> h !! id = Some q -> exists q0, h !! id = Some q0 /\ ar_row q = ar_row q0) as Hrows
    by (intros id q [[-> ->]|[_ Hq]]%Hin; eauto).
  split.
  - rewrite Erepos, fmap_insert, (rep_repos _ _ Hd). cbn. symmetry. apply insert_id. by rewrite lookup_fmap, Hr.
  - rewrite Enext. apply (rep_next _ _ Hd).
  - rewrite Enext. intros id q [[-> ->]|[_ Hq]]%Hin; [|by apply (rep_ids _ _ Hd)].
    destruct (rep_ids _ _ Hd _ _ Hr) as (? & ? & Hok). split; [done|]. split; [done|]. apply history_snoc; try done.
    intros (cm & Hid & Hcm)%elem_of_map. by destruct (Hfresh _ _ _ Hr Hcm).
  - intros i j a b (a0 & Ha & ->)%Hrows (b0 & Hb & ->)%Hrows. by apply (rep_names _ _ Hd).
  - intros x rev. rewrite Erev, lookup_insert_Some, (rep_revisions _ _ Hd). split.
    + intros [[<- <-]|[Hne (Hx & q & cm & Hq & Hcm & Hrev)]].
      * split; [done|]. exists r', c. split; [apply lookup_insert_eq|]. split; [|done]. apply elem_of_app. right. by left.
      * split; [done|]. destruct (decide (rv_repo_id rev = repo)) as [E|E].
        -- exists r', cm. rewrite E, lookup_insert_eq. split; [done|]. split; [|done]. apply elem_of_app. left.
           rewrite E in Hq. by rewrite Hr in Hq; injection Hq as <-.
        -- exists q, cm. by rewrite lookup_insert_ne.
    + intros (Hx & q & cm & [[E ->]|[_ Hq]]%Hin & Hcm & Hrev).
      * apply elem_of_app in Hcm as [Hcm|Hcm].
        -- right. split; [rewrite <- Hx, <- Hrev; intros E'; by destruct (Hfresh _ _ _ Hr Hcm)|]. split; [done|].
           exists r, cm. by rewrite E.
        -- apply list_elem_of_singleton in Hcm as ->. left. by rewrite <- Hx, <- Hrev.
      * right. split; [rewrite <- Hx, <- Hrev; intros E'; by destruct (Hfresh _ _ _ Hq Hcm)|]. split; [done|]. by exists q, cm.
  - intros id. rewrite Ehead. destruct (decide (id = repo)) as [->|Hne].
    + rewrite !lookup_insert_eq. change (Some (cm_id c) = head_of (ar_commits r ++ [c])). by rewrite head_snoc.
    + rewrite !lookup_insert_ne by done. apply (rep_heads _ _ Hd).
  - intros id q i cm [[-> ->]|[Hne Hq]]%Hin Hcm.
    + cbn [ar_commits r'] in *. apply lookup_app_Some in Hcm as [Hcm|[Hlen Hcm]].
      * rewrite Eother; [|intros [=]; eapply (Hfresh _ _ cm Hr); [by eapply list_elem_of_lookup_2|done]].
        rewrite (rep_trees _ _ Hd _ _ _ _ Hr Hcm). f_equal. rewrite take_app_le; [done|]. apply lookup_lt_Some in Hcm. lia.
      * apply list_lookup_singleton_Some in Hcm as [Hi <-]. rewrite Etree. f_equal.
        assert (S i = length (ar_commits r ++ [c])) as -> by (rewrite length_app; cbn; lia). by rewrite firstn_all.
    + rewrite Eother by congruence. by apply (rep_trees _ _ Hd).
  - intros id x Hne. destruct (decide ((id, x) = (repo, cm_id c))) as [[= -> ->]|E].
    + exists r', c. rewrite lookup_insert_eq. split; [done|]. split; [|done]. apply elem_of_app. right. by left.
    + rewrite Eother in Hne by done. destruct (rep_no_tree _ _ Hd _ _ Hne) as (q & cm & Hq & Hcm & Hx).
      destruct (decide (id = repo)) as [->|Hid].
      * exists r', cm. rewrite lookup_insert_eq. split; [done|]. split; [|done]. apply elem_of_app. left.
        rewrite Hr in Hq. by injection Hq as <-.
      * exists q, cm. by rewrite lookup_insert_ne.
Qed.

Lemma commit_not_panic fails rev changes parent d : snd (commit_changes_atomic fails rev changes parent d) <> Panic.
Proof.
  unfold commit_changes_atomic, commit_atomic_write. apply transaction_not_panic. intros n d1.
  apply bind_not_panic; [unfold fetch; by destruct (fails n)|]. intros current n1 d2. destruct (negb _); [done|].
  apply bind_not_panic; [apply execute_not_panic|]. intros _ n2 d3.
  apply bind_not_panic; [destruct parent; [apply execute_not_panic|done]|]. intros _ n3 d4.
  apply bind_not_panic; [|intros; apply execute_not_panic].
  apply for_each_not_panic. intros [e|path] n4 d5; cbn [apply_change]; [|apply execute_not_panic].
  apply bind_not_panic; [cbn; unfold file_size_to_sql; by destruct (_ <=? _)|]. intros; apply execute_not_panic.
Qed.

Lemma copy_tree_retree repo c parent d d' : copy_tree repo c parent d = Some d' -> retree d d' repo c (tree d repo c ∪ tree d repo parent).
Proof. unfold copy_tree. case_bool_decide; [|done]. intros [= <-]. apply retree_set. Qed.

(** A commit that succeeds is appended to the history of its repository. *)
Lemma commit_Ok fails rev changes parent d d' h :
  represents d h -> rv_parent rev = parent -> Forall (size_ok u64_max) changes ->
  commit_changes_atomic fails rev changes parent d = (d', Ok tt) ->
  exists r, h !! rv_repo_id rev = Some r /\ head_of (ar_commits r) = parent /\ fresh_id h (rv_commit_id rev) /\
    represents d' (committed h r (mkCommit rev changes)).
Proof.
  intros Hd <- Hsize. unfold commit_changes_atomic, commit_atomic_write. intros [n E]%transaction_Ok.
  apply bind_Ok in E as (n1 & d1 & current & E1 & E). unfold fetch in E1. destruct (fails 1%nat); [done|]. injection E1 as <- <- <-.
  destruct (bool_decide_reflect (heads d !! rv_repo_id rev = rv_parent rev)) as [Hhead|]; [|done]. cbn [negb] in E.
  apply bind_Ok in E as (n2 & d2 & [] & E1 & E). apply execute_Ok in E1 as [E1 Href].
  unfold insert_revision in E1. destruct (revisions d !! rv_commit_id rev) eqn:Hnew; [done|]. injection E1 as <-.
  assert (fresh_id h (rv_commit_id rev)) as Hfresh by (by apply (revision_fresh d)).
  destruct (h !! rv_repo_id rev) as [r|] eqn:Hr.
  2: { exfalso. destruct Href as (Hrev & _). cbn [revisions repos] in Hrev. apply map_Forall_lookup_1 with (i := rv_commit_id rev) (x := rev) in Hrev.
       - rewrite (rep_repos _ _ Hd), lookup_fmap, Hr in Hrev. by destruct Hrev.
       - by rewrite lookup_insert_eq. }
  assert (head_of (ar_commits r) = rv_parent rev) as Hhr by (rewrite <- Hhead, (rep_heads _ _ Hd), Hr; done).
  exists r. split; [done|]. split; [done|]. split; [done|].
  set (dr := mkDb _ _ _ _ _) in E. set (c := mkCommit rev changes).
  assert (tree d (rv_repo_id rev) (rv_commit_id rev) = ∅) as Hno.
  { destruct (decide (tree d (rv_repo_id rev) (rv_commit_id rev) = ∅)) as [|Hne]; [done|].
    destruct (rep_no_tree _ _ Hd _ _ Hne) as (q & cm & Hq & Hcm & Hx). by destruct (Hfresh _ _ _ Hq Hcm). }
  apply bind_Ok in E as (n3 & d3 & [] & E1 & E).
  assert (retree dr d3 (rv_repo_id rev) (rv_commit_id rev) (replay (ar_commits r))) as H3.
  { pose proof (parent_tree _ _ _ _ Hd Hr) as Hp. rewrite Hhr in Hp. destruct (rv_parent rev) as [parent|].
    - apply execute_Ok in E1 as [E1%copy_tree_retree _].
      change (tree dr) with (tree d) in E1. by rewrite Hno, (left_id_L ∅ (∪)), Hp in E1.
    - injection E1 as <- <-. rewrite Hp, <- Hno. exact (retree_refl dr _ _). }
  clear E1. apply bind_Ok in E as (n4 & d4 & [] & E4 & E). apply apply_changes_Ok in E4 as [H4 Hs].
  pose proof H3 as (_ & _ & _ & _ & Ht3 & _). rewrite Ht3 in H4.
  pose proof (retree_trans _ _ _ _ _ _ _ H3 H4) as (Hrepos & Hnext & Hrevs & Hheads & Htree & Hother).
  apply execute_Ok in E as [[= <-] _]. eapply (represents_commit d _ h r c); cbn [c cm_revision cm_changes cm_id repos next_id revisions heads]; try done.
  - by apply Hs.
  - by rewrite Hheads.
  - rewrite replay_snoc. exact Htree.
Qed.

(** It fails only without effect, and it does succeed on the head of the repository. *)
Lemma commit_Err fails rev changes parent d d' e :
  commit_changes_atomic fails rev changes parent d = (d', Err e) -> d' = d.
Proof. unfold commit_changes_atomic, commit_atomic_write. intros E. by eapply transaction_Err. Qed.

Lemma commit_conflict fails rev changes parent d d' head :
  commit_changes_atomic fails rev changes parent d = (d', Err (MdConflict head)) ->
  heads d !! rv_repo_id rev <> parent /\ head = default "" (heads d !! rv_repo_id rev).
Proof.
  unfold commit_changes_atomic, commit_atomic_write, transaction. destruct (fails 0%nat); [done|].
  destruct (bind _ _ 1%nat d) as [[n d1] [[]|e|]] eqn:E; [by destruct (fails n)| |done].
  intros [= _ He]. assert (e = MdConflict head) as -> by (by destruct (fails n)). clear He.
  unfold bind at 1, fetch in E. destruct (fails 1%nat); [done|].
  case_bool_decide as Hh; cbn [negb] in E; [|injection E as _ _ <-; done]. exfalso.
  assert (forall A B (c : sql A) (k : A -> sql B) n d, snd (bind c k n d) = Err (MdConflict head) ->
    snd (c n d) = Err (MdConflict head) \/ exists a n d, snd (k a n d) = Err (MdConflict head)) as Hbind.
  { clear. intros A B c k n d. unfold bind. destruct (c n d) as [[n1 d1] [a| |]]; cbn; [eauto|by left; congruence|done]. }
  assert (forall f n d, snd (execute fails f n d) <> Err (MdConflict head)) as Hex.
  { clear. intros f n d. unfold execute. destruct (fails n); [done|]. destruct (f d); [|done]. by destruct (bool_decide _). }
  apply (f_equal snd) in E. cbn [snd] in E. apply Hbind in E as [E|(? & ? & ? & E)]; [by eapply Hex|].
  apply Hbind in E as [E|(? & ? & ? & E)]; [destruct parent; [by eapply Hex|done]|].
  apply Hbind in E as [E|(? & ? & ? & E)]; [|by eapply Hex]. revert E. clear - Hbind Hex.
  match goal with |- snd (for_each _ _ ?n ?d) = _ -> _ => generalize n d end. induction changes as [|change changes IH]; intros n d; cbn [for_each]; [done|].
  intros [E|(? & ? & ? & E)]%Hbind; [|by eapply IH]. destruct change as [en|path]; cbn [apply_change] in E; [|by eapply Hex].
  apply Hbind in E as [E|(? & ? & ? & E)]; [|by eapply Hex]. revert E. cbn. unfold file_size_to_sql. by destruct (_ <=? _).
Qed.

Lemma commit_total rev changes parent d h r :
  represents d h -> h !! rv_repo_id rev = Some r -> head_of (ar_commits r) = parent -> fresh_id h (rv_commit_id rev) ->
  Forall (size_ok i64_max) changes ->
  exists d', commit_changes_atomic (fun _ => false) rev changes parent d = (d', Ok tt).
Proof.
  intros Hd Hr Hh Hfresh Hs. unfold commit_changes_atomic, commit_atomic_write, transaction.
  assert (heads d !! rv_repo_id rev = parent) as Hhead by (rewrite (rep_heads _ _ Hd), Hr; done).
  unfold bind at 1, fetch. rewrite Hhead, bool_decide_eq_true_2 by done. cbn [negb].
  pose proof (represents_references _ _ Hd) as (Hrev & Hhd & Hft).
  assert (is_Some (repos d !! rv_repo_id rev)) as Hrepo by (rewrite (rep_repos _ _ Hd), lookup_fmap, Hr; done).
  set (dr := mkDb (repos d) (next_id d) (<[rv_commit_id rev := rev]> (revisions d)) (heads d) (file_tree d)).
  assert (forall x, is_Some (revisions d !! x) -> is_Some (revisions dr !! x)) as Hmore.
  { intros x. cbn. destruct (decide (x = rv_commit_id rev)) as [->|]; [by rewrite lookup_insert_eq|by rewrite lookup_insert_ne]. }
  assert (references_ok dr) as Hdr.
  { split; [|split].
    - cbn. by apply map_Forall_insert_2.
    - cbn. intros id c Hc. destruct (Hhd _ _ Hc). split; [done|by apply Hmore].
    - cbn. intros k rows Hk. destruct (Hft _ _ Hk) as [|[? ?]]; [by left|]. right. split; [done|by apply Hmore]. }
  assert (is_Some (revisions dr !! rv_commit_id rev)) as Hin by (cbn; by rewrite lookup_insert_eq).
  unfold bind at 1. rewrite (execute_total _ _ _ _ dr); [|done|unfold insert_revision; by rewrite (proj2 (revision_fresh _ _ _ Hd) Hfresh)|done].
  set (copy := match parent with Some _ => _ | None => _ end).
  assert (exists n d3, copy 3%nat dr = (n, d3, Ok tt) /\ references_ok d3 /\ repos d3 = repos d /\ revisions d3 = revisions dr) as (n3 & d3 & E3 & Hr3 & Er3 & Ev3).
  { unfold copy. destruct parent as [parent|]; [|by exists 3%nat, dr].
    eexists _, (set_tree dr (rv_repo_id rev) (rv_commit_id rev) (tree dr (rv_repo_id rev) (rv_commit_id rev) ∪ tree dr (rv_repo_id rev) parent)).
    split; [|split; [by apply set_tree_references|done]]. apply execute_total; [done| |by apply set_tree_references].
    unfold copy_tree. rewrite bool_decide_eq_true_2; [done|].
    assert (tree dr (rv_repo_id rev) (rv_commit_id rev) = ∅) as ->; [|apply map_disjoint_empty_l].
    change (tree dr) with (tree d). destruct (decide (tree d (rv_repo_id rev) (rv_commit_id rev) = ∅)) as [|Hne]; [done|].
    destruct (rep_no_tree _ _ Hd _ _ Hne) as (q & cm & Hq & Hcm & Hx). by destruct (Hfresh _ _ _ Hq Hcm). }
  unfold bind at 1. rewrite E3.
  destruct (apply_changes_total (fun _ => false) (rv_repo_id rev) (rv_commit_id rev) changes n3 d3) as (n4 & d4 & E4 & Hr4); try done.
  { by rewrite Er3. } { by rewrite Ev3. }
  unfold bind at 1. rewrite E4. apply apply_changes_Ok in E4 as [(Er4 & _ & Ev4 & Eh4 & _) _].
  erewrite execute_total; [by eexists|done|done|]. destruct Hr4 as (? & Hh4 & ?). split; [done|]. split; [|done].
  cbn. apply map_Forall_insert_2; [|done]. rewrite Er4, Ev4, Er3, Ev3. done.
Qed.

(** ** Queries *)

Lemma get_head_spec fails repo d h : represents d h ->
  get_head fails repo d = (if fails 0%nat then Err DatabaseError else Ok (h !! repo ≫= (fun r => head_of (ar_commits r)))).
Proof. intros Hd. unfold get_head. by rewrite (rep_heads _ _ Hd). Qed.

Lemma get_revision_Ok fails repo c d h rev : represents d h ->
  get_revision fails repo c d = Ok rev ->
  exists r cm, h !! repo = Some r /\ cm ∈ ar_commits r /\ cm_revision cm = rev /\ rv_commit_id rev = c.
Proof.
  intros Hd. unfold get_revision. destruct (fails 0%nat); [done|]. destruct (revisions d !! c) as [rev'|] eqn:E; [|done].
  destruct (Z.eqb_spec (rv_repo_id rev') repo) as [Hr|]; [|done]. intros [= ->].
  apply (rep_revisions _ _ Hd) in E as (Hc & r & cm & Hh & Hcm & Hrev). rewrite Hr in Hh. by exists r, cm.
Qed.

Lemma row_to_repo_spec d h id r : represents d h -> h !! id = Some r ->
  exists type, rr_repo_type (ar_row r) = repo_type_str type /\
    row_to_repo id (ar_row r) = Ok (mkRepo id (rr_name (ar_row r)) (rr_namespace (ar_row r)) type (rr_sha (ar_row r))
      (negb (rr_private (ar_row r) =? 0)) (rr_created_at (ar_row r)) (rr_updated_at (ar_row r))).
Proof.
  intros Hd Hr. destruct (rep_ids _ _ Hd _ _ Hr) as (_ & (type & Ht) & _). exists type. split; [done|].
  unfold row_to_repo. by rewrite Ht, repo_type_round_trip.
Qed.

Lemma repo_type_str_inj a b : repo_type_str a = repo_type_str b -> a = b.
Proof. by destruct a, b. Qed.

Lemma get_repo_Ok fails namespace name type d h repo : represents d h ->
  get_repo fails namespace name type d = Ok repo ->
  exists r, h !! rp_id repo = Some r /\ rp_namespace repo = namespace /\ rp_name repo = name /\ rp_repo_type repo = type /\
    row_to_repo (rp_id repo) (ar_row r) = Ok repo.
Proof.
  intros Hd. unfold get_repo. destruct (fails 0%nat); [done|]. destruct (find_repo _ _ _ d) as [[id row]|] eqn:Ef; [|done].
  apply (find_repo_spec _ _ _ _ _ Hd) in Ef as (r & Hr & <- & (Hns & Hn & Ht)%same_repo_iff).
  destruct (row_to_repo_spec _ _ _ _ Hd Hr) as (t & Ht' & E). rewrite E. intros [= <-]. exists r. cbn.
  rewrite Ht in Ht'. apply repo_type_str_inj in Ht' as ->. done.
Qed.

Lemma get_repo_not_panic fails namespace name type d h : represents d h -> get_repo fails namespace name type d <> Panic.
Proof.
  intros Hd. unfold get_repo. destruct (fails 0%nat); [done|]. destruct (find_repo _ _ _ d) as [[id row]|] eqn:Ef; [|done].
  apply (find_repo_spec _ _ _ _ _ Hd) in Ef as (r & Hr & <- & _). destruct (row_to_repo_spec _ _ _ _ Hd Hr) as (t & _ & ->). done.
Qed.

(** The rows of a history have sizes a column can hold, and flags of one bit. *)
Definition row_fits (row : file_row) : Prop := 0 <= fr_size row <= i64_max.
Lemma changed_fits rows change :
  map_Forall (fun _ => row_fits) rows -> size_ok i64_max change -> map_Forall (fun _ => row_fits) (changed rows change).
Proof.
  intros Hr Hc. destruct change as [e|path]; cbn [changed size_ok] in *; [by apply map_Forall_insert_2|by apply map_Forall_delete].
Qed.
Lemma replay_fits id cs : history_ok id cs -> map_Forall (fun _ => row_fits) (replay cs).
Proof.
  intros [_ Hc]. assert (Forall (fun c => Forall (size_ok i64_max) (cm_changes c)) cs) as Hs
    by (apply Forall_lookup; intros i c Hi; apply (Hc _ _ Hi)).
  clear Hc. unfold replay. enough (forall rows, map_Forall (fun _ => row_fits) rows ->
    map_Forall (fun _ => row_fits) (fold_left replay_commit cs rows)) as Hl by (apply Hl, map_Forall_empty).
  induction Hs as [|c cs Hc Hs IH]; intros rows Hr; cbn [fold_left]; [done|]. apply IH. unfold replay_commit.
  clear - Hr Hc. revert rows Hr. induction Hc as [|change changes Hc Hs IH]; intros rows Hr; cbn [fold_left]; [done|].
  apply IH. by apply changed_fits.
Qed.

Lemma history_take id cs n : history_ok id cs -> history_ok id (take n cs).
Proof.
  intros [Hnd Hc]. split; [rewrite <- firstn_map; eapply sublist_NoDup; [exact Hnd|apply sublist_take]|]. intros i c Hi.
  pose proof (lookup_lt_Some _ _ _ Hi) as Hlt. rewrite length_take in Hlt. rewrite lookup_take_lt in Hi by lia.
  destruct (Hc _ _ Hi) as (? & ? & ?). split; [done|]. split; [|done]. rewrite take_take. by replace (i `min` n)%nat with i by lia.
Qed.

Lemma tree_fits d h id c : represents d h -> map_Forall (fun _ => row_fits) (tree d id c).
Proof.
  intros Hd. destruct (decide (tree d id c = ∅)) as [->|Hne]; [apply map_Forall_empty|].
  destruct (rep_no_tree _ _ Hd _ _ Hne) as (r & cm & Hr & (i & Hi)%list_elem_of_lookup & <-).
  rewrite (rep_trees _ _ Hd _ _ _ _ Hr Hi). eapply replay_fits, history_take. by apply (rep_ids _ _ Hd _ _ Hr).
Qed.

(** The file that a row describes. *)
Definition entry_of (repo : Z) (c : string) (entry : string * file_row) : FileEntry :=
  mkEntry entry.1 repo c (fr_size entry.2) (fr_cas_hash entry.2) (negb (fr_is_lfs entry.2 =? 0)).
Lemma row_to_file_entry_spec repo c entry : row_fits entry.2 -> row_to_file_entry repo c entry = Ok (entry_of repo c entry).
Proof. intros Hf. destruct entry as [path row]. unfold row_fits in Hf. cbn in *. by replace (0 <=? fr_size row) with true by lia. Qed.

Lemma resolve_file_spec fails repo c path d h : represents d h ->
  resolve_file fails repo c path d =
    if fails 0%nat then Err DatabaseError
    else match tree d repo c !! path with Some row => Ok (entry_of repo c (path, row)) | None => Err FileNotFound end.
Proof.
  intros Hd. unfold resolve_file. destruct (fails 0%nat); [done|]. destruct (tree d repo c !! path) as [row|] eqn:Er; [|done].
  apply row_to_file_entry_spec. by apply (tree_fits _ _ repo c Hd path).
Qed.

(** ** The log *)
Lemma log_from_spec d h id r : represents d h -> h !! id = Some r -> forall i cm fuel depth limit,
  ar_commits r !! i = Some cm -> (i < fuel)%nat ->
  log_from fuel d (cm_id cm) depth limit =
    Some (take (Z.to_nat (Z.max 1 (limit - depth))) (rev (map cm_revision (take (S i) (ar_commits r))))).
Proof.
  intros Hd Hr. destruct (rep_ids _ _ Hd _ _ Hr) as (_ & _ & Hok). induction i as [i IH] using lt_wf_ind. intros cm fuel depth limit Hi Hf.
  destruct fuel as [|fuel]; [lia|]. cbn [log_from]. destruct (ho_commit _ _ Hok _ _ Hi) as (Hrepo & Hpar & _).
  assert (revisions d !! cm_id cm = Some (cm_revision cm)) as ->.
  { apply (rep_revisions _ _ Hd). split; [done|]. exists r, cm. rewrite Hrepo. split; [done|]. split; [|done]. by eapply list_elem_of_lookup_2. }
  rewrite (take_S_r _ _ _ Hi), map_app, rev_app_distr. cbn [map rev app]. rewrite Hpar.
  destruct (Z.ltb_spec (depth + 1) limit) as [Hlt|Hge].
  - replace (Z.to_nat (Z.max 1 (limit - depth))) with (S (Z.to_nat (Z.max 1 (limit - (depth + 1))))) by lia. cbn [take].
    destruct (head_of (take i (ar_commits r))) as [parent|] eqn:Eh.
    + apply head_of_elem in Eh as (cm' & j & <- & Hj & Hlen). rewrite length_take in Hlen.
      apply lookup_lt_Some in Hi. assert (i = S j) as -> by lia. rewrite lookup_take_lt in Hj by lia.
      rewrite (IH j) by (done || lia).
      done.
    + apply head_of_None in Eh. rewrite Eh. cbn. by rewrite take_nil.
  - replace (Z.to_nat (Z.max 1 (limit - depth))) with 1%nat by lia. cbn [take]. by rewrite firstn_O.
Qed.

Lemma history_length d h id r : represents d h -> h !! id = Some r -> (length (ar_commits r) <= size (revisions d))%nat.
Proof.
  intros Hd Hr. destruct (rep_ids _ _ Hd _ _ Hr) as (_ & _ & Hok). rewrite <- size_dom, <- (length_map cm_id), <- (size_list_to_set (C := gset string)) by apply Hok.
  apply subseteq_size. intros x (cm & <- & Hcm)%elem_of_list_to_set%elem_of_map.
  pose proof Hcm as (i & Hi)%list_elem_of_lookup. destruct (ho_commit _ _ Hok _ _ Hi) as (Hrepo & _).
  apply elem_of_dom. exists (cm_revision cm). apply (rep_revisions _ _ Hd). split; [done|]. exists r, cm. by rewrite Hrepo.
Qed.

Definition log_limit (limit : option Z) : nat :=
  Z.to_nat (Z.max 1 (match limit with Some l => usize_as_i64 l | None => i64_max - 1 end)).

Lemma get_commit_log_spec fails repo limit d h : represents d h ->
  get_commit_log fails repo limit d = Some (
    if fails 0%nat then Err DatabaseError
    else Ok (match h !! repo with Some r => take (log_limit limit) (rev (map cm_revision (ar_commits r))) | None => [] end)).
Proof.
  intros Hd. unfold get_commit_log. destruct (fails 0%nat); [done|]. rewrite (rep_heads _ _ Hd).
  destruct (h !! repo) as [r|] eqn:Hr; [|done]. cbn [mbind option_bind]. destruct (head_of (ar_commits r)) as [c|] eqn:Eh.
  - apply head_of_elem in Eh as (cm & i & <- & Hi & Hlen). pose proof (history_length _ _ _ _ Hd Hr).
    rewrite (log_from_spec _ _ _ _ Hd Hr i) by (done || lia). rewrite Z.sub_0_r, Hlen, firstn_all. done.
  - apply head_of_None in Eh as ->. cbn [map rev]. by rewrite take_nil.
Qed.
