(* ===== verification/HubTree.v ===== *)
(** * Paths, trees and their pages (src/hub/src/commit/validation.rs, services/tree.rs)

    Which paths a commit may use, and the listing of a tree: the entries of a
    page of rows, the cursor of the next page, and the theorem that following
    the cursors lists the tree once. *)
From stdpp Require Import gmap strings sorting.
From Stdlib Require Import Ascii.
From S2P Require Import Prelude Bytes Crates Text TokenCrates HubMetadata HubHistory.

Local Open Scope string_scope.
Local Open Scope list_scope.
Local Open Scope Z_scope.

(** ** Paths *)
Definition MAX_FILE_PATH_LENGTH : Z := 4096.
Definition is_separator (a : ascii) : bool := Ascii.eqb a "/"%char || Ascii.eqb a "\"%char.
Definition reserved_names : list string :=
  ["CON"; "PRN"; "AUX"; "NUL"; "COM1"; "COM2"; "COM3"; "COM4"; "COM5"; "COM6"; "COM7"; "COM8"; "COM9";
   "LPT1"; "LPT2"; "LPT3"; "LPT4"; "LPT5"; "LPT6"; "LPT7"; "LPT8"; "LPT9"].
Fixpoint contains_pair (c : ascii) (s : string) : bool :=
  match s with
  | String a (String b _ as r) => (Ascii.eqb a c && Ascii.eqb b c) || contains_pair c r
  | _ => false
  end.
Definition str_len (s : string) : Z := Z.of_nat (String.length s).
Definition starts_with_char (c : ascii) (s : string) : bool := match s with String a _ => Ascii.eqb a c | EmptyString => false end.

Definition validate_file_path (path : string) : outcome string unit :=
  ensure negb (MAX_FILE_PATH_LENGTH <? str_len path) else "File path is too long" in
  ensure negb (path =? "")%string else "File path cannot be empty" in
  ensure negb (contains_char zero path) else "File path cannot contain null bytes" in
  ensure negb (starts_with_char "/" path || starts_with_char "\" path) else "File path cannot be absolute" in
  ensure negb (existsb (String.eqb "..") (split_where is_separator path)) else "File path contains path traversal" in
  ensure negb (contains_pair "/" path || contains_pair "\" path) else "File path contains empty components" in
  let first_component := default "" (head (split_where is_separator path)) in
  ensure negb (existsb (fun r => string_to_lower r =? string_to_lower first_component)%string reserved_names)
    else "File path uses reserved name" in
  Ok tt.

(** ** The tree service *)
Definition TREE_PAGE_SIZE : Z := 1000.
Definition MAX_TREE_CURSOR_LENGTH : Z := 8 * 1024.

Inductive TreeServiceError := TsNotFound (msg : string) | TsValidation (msg : string) | TsInternal (msg : string).
Inductive TreeListingEntryType := EntryFile | EntryDirectory.
Record TreeListingEntry := mkListing { tl_entry_type : TreeListingEntryType; tl_oid : option string; tl_size : Z; tl_path : string }.
Record TreeListingPage := mkListingPage { tp_entries : list TreeListingEntry; tp_next_cursor : option string; tp_commit_id : string }.

Definition normalize_tree_path (path : string) : string := trim_slashes path.
Definition strip_tree_prefix (path prefix : string) : option string :=
  if (prefix =? "")%string then Some path
  else if (path =? prefix)%string then Some ""
  else strip_prefix (prefix +:+ "/") path.
Definition join_tree_path (prefix name : string) : string := if (prefix =? "")%string then name else prefix +:+ "/" +:+ name.

Section Cursors.
Context `{Base64}.

Definition encode_cursor (path : string) : string := url_encode (str_bytes path).
Definition decode_cursor (cursor : string) : outcome TreeServiceError string :=
  let invalid := TsValidation "Invalid tree pagination cursor" in
  ensure negb ((cursor =? "")%string || (MAX_TREE_CURSOR_LENGTH <? str_len cursor)) else invalid in
  let* decoded := ok_or (url_decode cursor) invalid in
  let* path := ok_or (from_utf8 decoded) invalid in
  ensure negb (path =? "")%string else invalid in
  Ok path.
End Cursors.

Definition recursive_entries (entries : list FileEntry) (tree_path : string) : list TreeListingEntry :=
  omap (fun entry =>
    match strip_tree_prefix (fe_path entry) tree_path with
    | Some rel_path => if (rel_path =? "")%string then None
                       else Some (mkListing EntryFile (Some (fe_cas_hash entry)) (fe_size entry) rel_path)
    | None => None
    end) entries.

Definition non_recursive_entries (entries : list FileEntry) (tree_path : string) (after_path : option string) : list TreeListingEntry :=
  let last_directory : option string :=
    match after_path ≫= (fun path => strip_tree_prefix path tree_path) with
    | Some path => fst <$> split_once "/" path
    | None => None
    end in
  fst (fold_left (fun st entry =>
    let '(tree_entries, last_directory) := st in
    match strip_tree_prefix (fe_path entry) tree_path with
    | None => st
    | Some rel_path =>
        if (rel_path =? "")%string then st
        else
          match split_once "/" rel_path with
          | Some (directory, _) =>
              if bool_decide (last_directory = Some directory) then st
              else (tree_entries ++ [mkListing EntryDirectory None 0 (join_tree_path tree_path directory)], Some directory)
          | None =>
              (tree_entries ++ [mkListing EntryFile (Some (fe_cas_hash entry)) (fe_size entry) (fe_path entry)], last_directory)
          end
    end) entries ([], last_directory)).

(** [sort_by] on the path. *)
Definition listing_le (a b : TreeListingEntry) : Prop := String.le (tl_path a) (tl_path b).
#[local] Instance listing_le_dec : RelDecision listing_le := fun a b => String.le_dec (tl_path a) (tl_path b).

(** The page of a resolved revision. *)
Definition list_page `{Base64} (page : FileTreePage) (commit_id tree_path : string) (recursive : bool) (after_path : option string)
  : TreeListingPage :=
  let tree_entries :=
    if recursive then recursive_entries (pg_entries page) tree_path
    else non_recursive_entries (pg_entries page) tree_path after_path in
  mkListingPage (merge_sort listing_le tree_entries) (encode_cursor <$> pg_next_after_path page) commit_id.

(** ** The order of paths *)

Lemma string_le_cons a s b t : String.le (String a s) (String b t) <-> (N_of_ascii a < N_of_ascii b)%N \/ a = b /\ String.le s t.
Proof.
  unfold String.le, String.leb. cbn [String.compare]. unfold Ascii.compare.
  destruct (N.compare_spec (N_of_ascii a) (N_of_ascii b)) as [E|E|E].
  - apply (f_equal ascii_of_N) in E as Ea. rewrite !ascii_N_embedding in Ea. subst. split; [by right|]. intros [Hn|[_ Hs]]; [lia|done].
  - split; [by left|done].
  - split; [done|]. intros [Hn|[-> _]]; lia.
Qed.
Lemma string_le_nil s : String.le "" s.
Proof. by destruct s. Qed.
Lemma string_le_cons_nil a s : ~ String.le (String a s) "".
Proof. by intros H. Qed.

Lemma string_lt_le a b : (match String.compare a b with Lt => true | _ => false end) = true <-> ~ String.le b a.
Proof.
  unfold String.le, String.leb. rewrite (String.compare_antisym a b). destruct (String.compare b a); cbn; intuition done.
Qed.

(** Between two paths of a directory there are only paths of the directory. *)
Lemma prefix_convex pre x b z : String.le (pre +:+ x) b -> String.le b (pre +:+ z) -> exists y, b = pre +:+ y.
Proof.
  revert b. induction pre as [|a pre IH]; intros b Hx Hz; [by exists b|].
  change (String a pre +:+ x) with (String a (pre +:+ x)) in Hx. change (String a pre +:+ z) with (String a (pre +:+ z)) in Hz.
  destruct b as [|b0 b]; [by destruct (string_le_cons_nil _ _ Hx)|].
  apply string_le_cons in Hx, Hz. destruct Hx as [Hx|[<- Hx]], Hz as [Hz|[Ez Hz]]; subst; try lia.
  destruct (IH b Hx Hz) as [y ->]. by exists y.
Qed.

(** ** Directories of paths *)

(** The directory directly below [prefix] that a path goes through. *)
Definition directory_of (prefix path : string) : option string :=
  strip_tree_prefix path prefix ≫= (fun rel => if (rel =? "")%string then None else fst <$> split_once "/" rel).

(** What stands before the name of a child of the directory. *)
Definition child_prefix (prefix : string) : string := if (prefix =? "")%string then "" else prefix +:+ "/".

Lemma strip_tree_prefix_Some prefix path rel : rel <> "" ->
  strip_tree_prefix path prefix = Some rel <-> path = child_prefix prefix +:+ rel.
Proof.
  intros Hne. unfold strip_tree_prefix, child_prefix. destruct (String.eqb_spec prefix ""); [split; [by intros [= ->]|by intros ->]|].
  destruct (String.eqb_spec path prefix) as [->|Hp]; [|apply strip_prefix_Some]. split; [congruence|]. intros E. exfalso.
  apply (f_equal (fun s => length (str_bytes s))) in E. rewrite !str_bytes_app, !length_app in E. cbn in E. lia.
Qed.

Lemma directory_of_Some prefix path d :
  directory_of prefix path = Some d <-> contains_char "/" d = false /\ exists rest, path = child_prefix prefix +:+ d +:+ String "/" rest.
Proof.
  unfold directory_of. split.
  - destruct (strip_tree_prefix path prefix) as [rel|] eqn:E; [|done]. cbn. destruct (String.eqb_spec rel "") as [|Hne]; [done|].
    apply strip_tree_prefix_Some in E as ->; [|done]. destruct (split_once "/" rel) as [[d' rest]|] eqn:Es; [|done]. intros [= <-].
    apply split_once_Some in Es as [-> Hd]. split; [done|]. by exists rest.
  - intros (Hd & rest & ->). rewrite (proj2 (strip_tree_prefix_Some prefix _ (d +:+ String "/" rest) ltac:(by destruct d))) by done.
    cbn [mbind option_bind]. destruct (String.eqb_spec (d +:+ String "/" rest) ""); [by destruct d|]. by rewrite split_once_app.
Qed.

(** Paths between two paths of a directory are paths of the directory. *)
Lemma directory_convex prefix a b c d :
  directory_of prefix a = Some d -> directory_of prefix c = Some d -> String.le a b -> String.le b c -> directory_of prefix b = Some d.
Proof.
  intros (Hd & x & ->)%directory_of_Some (_ & z & ->)%directory_of_Some Hab Hbc. apply directory_of_Some. split; [done|].
  destruct (prefix_convex (child_prefix prefix +:+ d +:+ "/") x b z) as [y ->].
  - by rewrite !string_app_assoc.
  - by rewrite !string_app_assoc.
  - exists y. by rewrite !string_app_assoc.
Qed.

(** ** Listing in pieces *)

(** What a row adds to a listing after the row [prev]. *)
Definition emit_one (prefix : string) (prev : option string) (e : FileEntry) : list TreeListingEntry :=
  match strip_tree_prefix (fe_path e) prefix with
  | None => []
  | Some rel =>
      if (rel =? "")%string then []
      else
        match split_once "/" rel with
        | Some (d, _) => if bool_decide (prev ≫= directory_of prefix = Some d) then []
                         else [mkListing EntryDirectory None 0 (join_tree_path prefix d)]
        | None => [mkListing EntryFile (Some (fe_cas_hash e)) (fe_size e) (fe_path e)]
        end
  end.
Fixpoint emit (prefix : string) (prev : option string) (entries : list FileEntry) : list TreeListingEntry :=
  match entries with
  | [] => []
  | e :: entries => emit_one prefix prev e ++ emit prefix (Some (fe_path e)) entries
  end.

(** The path of the last row, or else [prev]. *)
Definition last_path (prev : option string) (entries : list FileEntry) : option string :=
  match last entries with Some e => Some (fe_path e) | None => prev end.

Lemma emit_app prefix prev l1 l2 : emit prefix prev (l1 ++ l2) = emit prefix prev l1 ++ emit prefix (last_path prev l1) l2.
Proof.
  revert prev. induction l1 as [|e l1 IH]; intros prev; [done|]. cbn [app emit]. rewrite IH, app_assoc. f_equal. f_equal.
  unfold last_path. destruct l1 as [|e' l1]; [done|]. change (last (e :: e' :: l1)) with (last (e' :: l1)).
  destruct (last (e' :: l1)) eqn:E; [done|]. by apply last_None in E.
Qed.

Definition rows_sorted (prev : option string) (entries : list FileEntry) : Prop :=
  StronglySorted String.le (option_list prev ++ map fe_path entries).

Lemma rows_sorted_cons prev e entries :
  rows_sorted prev (e :: entries) -> rows_sorted (Some (fe_path e)) entries /\
  (forall p x, prev = Some p -> x ∈ entries -> String.le p (fe_path e) /\ String.le (fe_path e) (fe_path x)).
Proof.
  unfold rows_sorted. intros Hs.
  assert (StronglySorted String.le (fe_path e :: map fe_path entries)) as Htail by (destruct prev; [by inversion Hs|done]).
  split; [done|]. intros p x -> Hx. inversion Hs as [|? ? _ Hp]; subst. apply Forall_cons in Hp as [Hp _]. split; [done|].
  inversion Htail as [|? ? _ He]; subst. eapply (proj1 (Forall_forall _ _) He). apply elem_of_map. by exists x.
Qed.

(** The directory that was listed last and the one of the row before agree on
    all directories that can still come. *)
Lemma non_recursive_loop prefix entries : forall acc prev last_directory,
  rows_sorted prev entries ->
  (forall x d, x ∈ entries -> directory_of prefix (fe_path x) = Some d -> last_directory = Some d <-> prev ≫= directory_of prefix = Some d) ->
  fst (fold_left (fun st entry =>
    let '(tree_entries, last_directory) := st in
    match strip_tree_prefix (fe_path entry) prefix with
    | None => st
    | Some rel_path =>
        if (rel_path =? "")%string then st
        else
          match split_once "/" rel_path with
          | Some (directory, _) =>
              if bool_decide (last_directory = Some directory) then st
              else (tree_entries ++ [mkListing EntryDirectory None 0 (join_tree_path prefix directory)], Some directory)
          | None =>
              (tree_entries ++ [mkListing EntryFile (Some (fe_cas_hash entry)) (fe_size entry) (fe_path entry)], last_directory)
          end
    end) entries (acc, last_directory)) = acc ++ emit prefix prev entries.
Proof.
  induction entries as [|e entries IH]; intros acc prev ld Hs Hld; cbn [fold_left emit]; [by rewrite app_nil_r|].
  apply rows_sorted_cons in Hs as [Hs Hle].
  assert (directory_of prefix (fe_path e) = None ->
    forall x d, x ∈ entries -> directory_of prefix (fe_path x) = Some d -> ld = Some d <-> Some (fe_path e) ≫= directory_of prefix = Some d) as Hskip.
  { intros Hnone x d Hx Hd. cbn. rewrite Hnone. split; [|done]. intros Hl%(Hld x d); [|by right|done].
    destruct prev as [p|]; [|done]. destruct (Hle p x eq_refl Hx) as [H1' H2']. cbn in Hl.
    by rewrite (directory_convex prefix p (fe_path e) (fe_path x) d) in Hnone. }
  assert (forall d, directory_of prefix (fe_path e) = Some d ->
    forall x d', x ∈ entries -> directory_of prefix (fe_path x) = Some d' -> Some d = Some d' <-> Some (fe_path e) ≫= directory_of prefix = Some d') as Hdir
    by (intros d Hd x d' _ _; cbn; by rewrite Hd).
  unfold emit_one. pose proof (Hld e) as Hde. unfold directory_of in Hskip, Hdir, Hde.
  destruct (strip_tree_prefix (fe_path e) prefix) as [rel|] eqn:Er; cbn [mbind option_bind] in *.
  2: { cbn [app]. by apply IH, Hskip. }
  destruct (rel =? "")%string; [cbn [app]; by apply IH, Hskip|].
  destruct (split_once "/" rel) as [[d rest]|]; cbn [fst fmap option_fmap option_map] in *.
  - specialize (Hde d ltac:(by left) eq_refl). fold (directory_of prefix) in Hde. change (fun path => strip_tree_prefix path prefix ≫= _) with (directory_of prefix) in Hde.
    rewrite (bool_decide_ext _ _ Hde). case_bool_decide as Hb.
    + cbn [app]. apply IH; [done|]. rewrite (proj2 Hde Hb). by apply Hdir.
    + rewrite app_assoc. rewrite <- (app_assoc acc). rewrite app_assoc. apply IH; [done|]. by apply Hdir.
  - rewrite app_assoc. apply IH; [done|]. by apply Hskip.
Qed.

Lemma non_recursive_emit prefix entries prev :
  rows_sorted prev entries -> non_recursive_entries entries prefix prev = emit prefix prev entries.
Proof.
  intros Hs. unfold non_recursive_entries.
  assert ((match prev ≫= (fun path => strip_tree_prefix path prefix) with Some path => fst <$> split_once "/" path | None => None end) =
    prev ≫= directory_of prefix) as ->; [|by apply (non_recursive_loop prefix entries [] prev)].
  unfold directory_of. destruct prev as [p|]; [|done]. cbn. destruct (strip_tree_prefix p prefix) as [rel|]; [|done]. cbn.
  by destruct (String.eqb_spec rel "") as [->|].
Qed.

(** ** The prefix pattern *)

Definition escape_char (a : ascii) : string := if like_special a then String "\" (String a "") else String a "".

Lemma replace_char_app c by_ s t : replace_char c by_ (s +:+ t) = replace_char c by_ s +:+ replace_char c by_ t.
Proof.
  induction s as [|a s IH]; [done|]. change (String a s +:+ t) with (String a (s +:+ t)). cbn [replace_char]. rewrite IH.
  destruct (Ascii.eqb a c); [by rewrite string_app_assoc|done].
Qed.

Lemma escape_cons a s : escape_like_pattern (String a s) = escape_char a +:+ escape_like_pattern s.
Proof.
  unfold escape_like_pattern. change (String a s) with (String a "" +:+ s). rewrite !replace_char_app. f_equal.
  unfold escape_char, like_special. cbn [replace_char].
  destruct (Ascii.eqb_spec a "\"%char) as [->|H1']; [done|]. cbn [replace_char].
  destruct (Ascii.eqb_spec a "%"%char) as [->|H2']; [done|]. cbn [replace_char].
  by destruct (Ascii.eqb_spec a "_"%char) as [->|H3'].
Qed.

Lemma no_wild_literal a p : like_special a = false -> no_wild (String a p) = no_wild p.
Proof. by destruct a as [[] [] [] [] [] [] [] []]. Qed.

Lemma no_wild_escape s q : no_wild (escape_like_pattern s +:+ q) = no_wild q.
Proof.
  induction s as [|a s IH]; [done|]. rewrite escape_cons, string_app_assoc. unfold escape_char.
  destruct (like_special a) eqn:Ea; [exact IH|].
  change (String a "" +:+ (escape_like_pattern s +:+ q)) with (String a (escape_like_pattern s +:+ q)). by rewrite no_wild_literal.
Qed.

Lemma like_escape s q t : like_match q t -> like_match (escape_like_pattern s +:+ q) (s +:+ t).
Proof.
  intros Hq. induction s as [|a s IH]; [done|]. rewrite escape_cons, string_app_assoc. unfold escape_char.
  destruct (like_special a) eqn:Ea.
  - by apply (lm_escaped a a).
  - by apply lm_literal.
Qed.

Lemma like_any s : like_match "%" s.
Proof. induction s as [|a s IH]; [by apply lm_none, lm_nil|by apply lm_more]. Qed.

(** Every path of the directory is selected; a path that differs from one in
    the case of letters is selected too, and then skipped. *)
Lemma below_prefix_complete `{SqlLikeLaws} prefix path rel :
  strip_tree_prefix path prefix = Some rel -> below_prefix prefix path = true.
Proof.
  unfold strip_tree_prefix, below_prefix. destruct (String.eqb_spec prefix "") as [|_]; [done|].
  destruct (String.eqb_spec path prefix) as [|_]; [done|]. intros ->%strip_prefix_Some. cbn [orb].
  apply sql_like_spec; [by rewrite no_wild_escape|]. rewrite string_app_assoc. apply like_escape.
  apply lm_literal; [done..|apply like_any].
Qed.

(** ** Normalized prefixes *)

Lemma trim_end_ne a s : Ascii.eqb a "/"%char = false -> trim_end_slashes (String a s) = String a (trim_end_slashes s).
Proof. intros Ha. cbn [trim_end_slashes]. by rewrite Ha, andb_false_r. Qed.

Lemma trim_end_idempotent s : trim_end_slashes (trim_end_slashes s) = trim_end_slashes s.
Proof.
  induction s as [|a s IH]; [done|]. cbn [trim_end_slashes]. destruct ((trim_end_slashes s =? "")%string && Ascii.eqb a "/"%char) eqn:E; [done|].
  cbn [trim_end_slashes]. by rewrite IH, E.
Qed.

Lemma trim_start_spec s : trim_start_slashes s = "" \/ exists a r, trim_start_slashes s = String a r /\ Ascii.eqb a "/"%char = false.
Proof.
  induction s as [|a s IH]; [by left|]. cbn [trim_start_slashes]. destruct (Ascii.eqb a "/"%char) eqn:E; [done|]. right. by exists a, s.
Qed.

Lemma trim_slashes_idempotent s : trim_slashes (trim_slashes s) = trim_slashes s.
Proof.
  unfold trim_slashes. destruct (trim_start_spec s) as [->|(a & r & -> & Ha)]; [done|].
  rewrite trim_end_ne by done. cbn [trim_start_slashes]. rewrite Ha, trim_end_ne, trim_end_idempotent by done. done.
Qed.

(** ** Cursors *)

(** base64 makes four characters of three bytes. *)
Class Base64Length `{Base64} : Prop := url_encode_length : forall bs, (String.length (url_encode bs) <= 2 * length bs)%nat.

(** What a path in the tables is: UTF-8 text that the validation let pass. *)
Definition stored_path (path : string) : Prop :=
  path <> "" /\ str_len path <= MAX_FILE_PATH_LENGTH /\ utf8_valid (str_bytes path) = true.

Lemma url_encode_nil_inv `{Base64Laws} bs : url_encode bs = "" -> url_encode [] = "" -> bs = [].
Proof. intros E1 E2. apply (f_equal url_decode) in E1. rewrite <- E2, !url_decode_encode in E1. congruence. Qed.

Lemma string_of_str_bytes s : String.string_of_list_byte (str_bytes s) = s.
Proof. induction s as [|a s IH]; [done|].
  change (String (ascii_of_byte (byte_of_ascii a)) (String.string_of_list_byte (str_bytes s)) = String a s).
  by rewrite IH, ascii_of_byte_of_ascii.
Qed.

Lemma decode_encode_cursor `{Base64Laws, !Base64Length} path : stored_path path -> decode_cursor (encode_cursor path) = Ok path.
Proof.
  intros (Hne & Hlen & Hutf). unfold decode_cursor, encode_cursor.
  assert (url_encode (str_bytes path) <> "") as Hn.
  { intros E. apply url_encode_nil_inv in E; [by destruct path|].
    pose proof (url_encode_length []) as Hl. destruct (url_encode []); [done|]. cbn in Hl. lia. }
  destruct (String.eqb_spec (url_encode (str_bytes path)) "") as [|_]; [done|]. cbn [orb].
  pose proof (url_encode_length (str_bytes path)) as Hl. rewrite str_bytes_length in Hl. unfold str_len, MAX_FILE_PATH_LENGTH, MAX_TREE_CURSOR_LENGTH in *.
  destruct (Z.ltb_spec (8 * 1024) (Z.of_nat (String.length (url_encode (str_bytes path))))); [lia|]. cbn [negb].
  rewrite url_decode_encode. cbn [ok_or]. unfold from_utf8. rewrite Hutf. cbn [ok_or].
  rewrite string_of_str_bytes. by destruct (String.eqb_spec path "").
Qed.

(** ** Access and revisions (src/hub/src/services/shared.rs) *)
Definition metadata_message (e : MetadataError) : string :=
  match e with
  | RepoNotFound what => "Repository not found: " +:+ what
  | RepoAlreadyExists => "Repository already exists"
  | RevisionNotFound => "Revision not found"
  | FileNotFound => "File not found"
  | DatabaseError => "Database error"
  | Corruption => "Database corruption"
  | InvalidOperation => "Invalid operation"
  | MdConflict _ => "Conflict: HEAD mismatch"
  end.

Inductive ResolveRevisionError := RrNotFound (msg : string) | RrInternal (msg : string).

Definition can_access_repo (repo : Repo) (username : string) : bool := negb (rp_private repo) || (rp_namespace repo =? username)%string.
Definition can_write_repo (repo : Repo) (username : string) : bool := (rp_namespace repo =? username)%string.

Definition is_commit_name (revision : string) : bool := (8 <=? str_len revision) && all_hexdigits revision.
Definition resolve_revision_id (fails : nat -> bool) (repo_id : Z) (revision : string) (d : db) : outcome ResolveRevisionError string :=
  if is_commit_name revision then
    match get_revision fails repo_id revision d with
    | Ok _ => Ok revision
    | Err RevisionNotFound => Err (RrNotFound "Revision not found")
    | Err e => Err (RrInternal (metadata_message e))
    | Panic => Panic
    end
  else if (revision =? "main")%string then
    match get_head fails repo_id d with
    | Ok (Some head) => Ok head
    | Ok None => Err (RrNotFound "No HEAD found for repo")
    | Err e => Err (RrInternal (metadata_message e))
    | Panic => Panic
    end
  else Err (RrNotFound "Revision not found (only 'main' branch or commit hashes are supported)").

(** ** The service; its calls see the states [d 0], [d 1], [d 2] and may fail as [fails] says *)
Record TreeListRequest := mkTreeRequest {
  tr_username : string;
  tr_namespace : string;
  tr_repo_name : string;
  tr_repo_type : RepoType;
  tr_revision : string;
  tr_tree_path : string;
  tr_recursive : bool;
  tr_cursor : option string;
}.

(** The request for another revision and position. *)
Definition reposition (rq : TreeListRequest) (revision : string) (cursor : option string) : TreeListRequest :=
  mkTreeRequest (tr_username rq) (tr_namespace rq) (tr_repo_name rq) (tr_repo_type rq) revision (tr_tree_path rq) (tr_recursive rq) cursor.

Section Service.
Context `{Base64, SqlLike}.

Definition tree_load_repo (fails : nat -> bool) (rq : TreeListRequest) (d : db) : outcome TreeServiceError Repo :=
  map_err (fun e => match e with RepoNotFound _ => TsNotFound (metadata_message e) | _ => TsInternal (metadata_message e) end)
    (get_repo fails (tr_namespace rq) (tr_repo_name rq) (tr_repo_type rq) d).

Definition list_tree (fails : nat -> nat -> bool) (d : nat -> db) (rq : TreeListRequest) : outcome TreeServiceError TreeListingPage :=
  let tree_path := normalize_tree_path (tr_tree_path rq) in
  let* after_path := (match tr_cursor rq with
                      | None => Ok None
                      | Some cursor => let* path := decode_cursor cursor in Ok (Some path)
                      end) in
  let* repo := tree_load_repo (fails 0%nat) rq (d 0%nat) in
  ensure can_access_repo repo (tr_username rq) else (TsNotFound "Repository not found") in
  let* commit_id := map_err (fun e => match e with RrNotFound msg => TsNotFound msg | RrInternal msg => TsInternal msg end)
    (resolve_revision_id (fails 1%nat) (rp_id repo) (tr_revision rq) (d 1%nat)) in
  let* entries := map_err (fun e => TsInternal (metadata_message e))
    (get_file_tree_prefix_page (fails 2%nat) (rp_id repo) commit_id tree_path after_path TREE_PAGE_SIZE (d 2%nat)) in
  Ok (list_page entries commit_id tree_path (tr_recursive rq) after_path).

(** Following the cursors: request [k] sees the states [states k]. *)
Fixpoint follow (fuel : nat) (states : nat -> nat -> db) (k : nat) (rq : TreeListRequest) : option (outcome TreeServiceError (list TreeListingEntry)) :=
  match fuel with
  | O => None
  | S fuel =>
      match list_tree (fun _ _ => false) (states k) rq with
      | Err e => Some (Err e)
      | Panic => Some Panic
      | Ok page =>
          match tp_next_cursor page with
          | None => Some (Ok (tp_entries page))
          | Some cursor =>
              match follow fuel states (S k) (reposition rq (tp_commit_id page) (Some cursor)) with
              | Some (Ok entries) => Some (Ok (tp_entries page ++ entries))
              | r => r
              end
          end
      end
  end.
End Service.

(** ** Pages of a tree *)

(** The rows of a tree in the order of their paths. *)
Definition ordered_rows (rows : gmap string file_row) : list (string * file_row) := merge_sort path_le (map_to_list rows).

Lemma elem_of_ordered rows path row : (path, row) ∈ ordered_rows rows <-> rows !! path = Some row.
Proof. unfold ordered_rows. rewrite merge_sort_Permutation. apply elem_of_map_to_list. Qed.

#[local] Instance path_le_total : Total path_le.
Proof. intros [a ?] [b ?]. apply String.le_total. Qed.
#[local] Instance path_le_trans : Transitive path_le.
Proof. intros [a ?] [b ?] [c ?]. unfold path_le. cbn. apply transitivity. Qed.

Lemma ordered_sorted rows : StronglySorted String.le (map fst (ordered_rows rows)) /\ NoDup (map fst (ordered_rows rows)).
Proof.
  split.
  - apply (StronglySorted_fmap fst path_le); [done|]. apply StronglySorted_merge_sort; apply _.
  - unfold ordered_rows. rewrite (merge_sort_Permutation path_le (map_to_list rows)). apply NoDup_fst_map_to_list.
Qed.

Lemma ordered_tree d repo c : ordered d repo c = ordered_rows (tree d repo c).
Proof. done. Qed.

Lemma map_outcome_total {E A B} (f : A -> outcome E B) (g : A -> B) l :
  (forall a, a ∈ l -> f a = Ok (g a)) -> map_outcome f l = Ok (map g l).
Proof.
  induction l as [|a l IH]; intros Hf; cbn; [done|]. rewrite Hf by (by left). cbn. rewrite IH; [done|].
  intros b Hb. apply Hf. by right.
Qed.

(** The rows from which the pages of a listing are cut. *)
Definition selected `{SqlLike} (prefix : string) (after_path : option string) (rows : gmap string file_row) : list (string * file_row) :=
  List.filter (fun entry => after after_path entry.1 && below_prefix (trim_slashes prefix) entry.1) (ordered_rows rows).

Lemma page_spec `{SqlLike} d h repo c prefix after_path limit :
  represents d h -> 0 <= limit < i64_max ->
  let rows := selected prefix after_path (tree d repo c) in
  get_file_tree_prefix_page (fun _ => false) repo c prefix after_path limit d =
    Ok (mkPage (map (entry_of repo c) (take (Z.to_nat limit) rows))
          (if limit <? len rows then fst <$> last (take (Z.to_nat limit) rows) else None)).
Proof.
  intros Hd Hlim rows. unfold get_file_tree_prefix_page. rewrite checked_add_le by (unfold i64_max, u64_max in *; lia).
  replace (limit + 1 <=? i64_max) with true by lia. rewrite ordered_tree. fold (selected prefix after_path (tree d repo c)). fold rows.
  rewrite (map_outcome_total _ (entry_of repo c)).
  2: { intros [path row] Hin. apply row_to_file_entry_spec. apply (tree_fits _ _ repo c Hd path).
       apply elem_of_ordered. apply elem_of_take in Hin as (i & Hi & _). apply list_elem_of_lookup_2 in Hi.
       apply list_elem_of_In, filter_In in Hi as [Hi _]. by apply list_elem_of_In. }
  cbn zeta. rewrite len_map, firstn_map, take_take.
  replace (Z.to_nat limit `min` Z.to_nat (limit + 1))%nat with (Z.to_nat limit) by lia.
  f_equal. f_equal. clearbody rows. unfold len. rewrite length_take. destruct (Z.ltb_spec limit (Z.of_nat (length rows))).
  - rewrite (proj2 (Z.ltb_lt _ _)) by lia.
    change (map (entry_of repo c)) with (fmap (M := list) (entry_of repo c)). rewrite fmap_last. by destruct (last _).
  - by rewrite (proj2 (Z.ltb_ge _ _)) by lia.
Qed.

Lemma filter_app_in {A} (f : A -> bool) l1 l2 :
  (forall a, a ∈ l1 -> f a = false) -> (forall a, a ∈ l2 -> f a = true) -> List.filter f (l1 ++ l2) = l2.
Proof.
  intros Hf1 Hf2. rewrite List.filter_app. replace (List.filter f l1) with (@nil A).
  - cbn. induction l2 as [|a l2 IH]; cbn; [done|]. rewrite Hf2 by (by left). rewrite IH; [done|]. intros b Hb. apply Hf2. by right.
  - induction l1 as [|a l1 IH]; cbn; [done|]. rewrite Hf1 by (by left). apply IH. intros b Hb. apply Hf1. by right.
Qed.

Lemma filter_andb {A} (f g : A -> bool) l : List.filter (fun a => f a && g a) l = List.filter f (List.filter g l).
Proof.
  induction l as [|a l IH]; cbn; [done|]. destruct (g a); cbn; [|by rewrite andb_false_r, IH].
  rewrite andb_true_r. by destruct (f a); rewrite IH.
Qed.
Lemma filter_sublist {A} (f : A -> bool) l : List.filter f l `sublist_of` l.
Proof. induction l as [|a l IH]; cbn; [done|]. destruct (f a); by constructor. Qed.

Lemma StronglySorted_sublist {A} (R : relation A) l1 l2 : l1 `sublist_of` l2 -> StronglySorted R l2 -> StronglySorted R l1.
Proof.
  intros Hl. induction Hl as [|x l1 l2 Hl IH|x l1 l2 Hl IH]; intros Hs; [constructor| |]; inversion Hs as [|? ? Hs' Hx]; subst.
  - constructor; [by apply IH|]. apply Forall_forall. intros y Hy. eapply (proj1 (Forall_forall _ _) Hx).
    by eapply elem_of_submseteq; [|apply sublist_submseteq].
  - by apply IH.
Qed.

Section Following.
Context `{Base64Laws, !Base64Length, SqlLikeLaws}.

Lemma selected_sorted prefix rows :
  StronglySorted String.le (map fst (selected prefix None rows)) /\ NoDup (map fst (selected prefix None rows)).
Proof.
  destruct (ordered_sorted rows) as [Hs Hnd].
  assert (map fst (selected prefix None rows) `sublist_of` map fst (ordered_rows rows)) as Hsub
    by (apply (fmap_sublist fst), filter_sublist).
  split; [by eapply StronglySorted_sublist|by eapply sublist_NoDup].
Qed.

Lemma selected_after prefix rows l1 e l2 :
  selected prefix None rows = l1 ++ e :: l2 -> selected prefix (Some e.1) rows = l2.
Proof.
  intros E. destruct (selected_sorted prefix rows) as [Hs Hnd]. rewrite E in Hs, Hnd.
  assert (selected prefix (Some e.1) rows = List.filter (fun x => after (Some e.1) x.1) (selected prefix None rows)) as ->.
  { unfold selected. rewrite (filter_andb (fun x => after (Some e.1) x.1)). f_equal. }
  rewrite E, (app_assoc l1 [e] l2 : l1 ++ e :: l2 = (l1 ++ [e]) ++ l2). rewrite map_app in Hs, Hnd. cbn [map] in Hs, Hnd.
  apply NoDup_app in Hnd as (_ & _ & Hnd). apply NoDup_cons in Hnd as [Hnew _].
  apply StronglySorted_app in Hs as (Hpre & _ & Hs). inversion Hs as [|? ? _ Hpost]; subst.
  apply filter_app_in.
  - intros x [Hx|Hx]%elem_of_app; apply not_true_is_false; cbn [after]; rewrite string_lt_le; intros Hn; apply Hn.
    + apply Hpre; [apply elem_of_map; by exists x|by left].
    + by apply list_elem_of_singleton in Hx as ->.
  - intros x Hx. cbn [after]. apply string_lt_le. intros Hle.
    assert (x.1 ∈ map fst l2) as Hin by (apply elem_of_map; by exists x). apply Hnew.
    pose proof (proj1 (Forall_forall _ _) Hpost _ Hin) as Hge. by rewrite (anti_symm String.le _ _ Hge Hle).
Qed.

(** The entries that a page shows. *)
Definition content (recursive : bool) (prefix : string) (prev : option string) (entries : list FileEntry) : list TreeListingEntry :=
  if recursive then recursive_entries entries prefix else emit prefix prev entries.
Lemma content_app recursive prefix prev l1 l2 :
  content recursive prefix prev (l1 ++ l2) = content recursive prefix prev l1 ++ content recursive prefix (last_path prev l1) l2.
Proof. destruct recursive; [apply omap_app|apply emit_app]. Qed.

(** The state holds the repository and the revision with these files. *)
Definition holds (d : db) (id : Z) (row : repo_row) (c : string) (rows : gmap string file_row) : Prop :=
  exists h r, represents d h /\ h !! id = Some r /\ ar_row r = row /\ (exists cm, cm ∈ ar_commits r /\ cm_id cm = c) /\ tree d id c = rows.

Lemma holds_repo rq d id row c rows :
  holds d id row c rows -> same_repo (tr_namespace rq) (tr_repo_name rq) (repo_type_str (tr_repo_type rq)) row = true ->
  exists repo, tree_load_repo (fun _ => false) rq d = Ok repo /\ rp_id repo = id /\
    rp_namespace repo = rr_namespace row /\ rp_private repo = negb (rr_private row =? 0).
Proof.
  intros (h & r & Hd & Hr & <- & _) Hs. unfold tree_load_repo, get_repo.
  rewrite (proj2 (find_repo_spec _ _ _ _ _ Hd id (ar_row r))) by (by exists r).
  destruct (row_to_repo_spec _ _ _ _ Hd Hr) as (t & _ & ->). by eexists.
Qed.

Lemma holds_revision d id row c rows :
  holds d id row c rows -> is_commit_name c = true -> resolve_revision_id (fun _ => false) id c d = Ok c.
Proof.
  intros (h & r & Hd & Hr & _ & (cm & Hcm & <-) & _) Hname. unfold resolve_revision_id. rewrite Hname. unfold get_revision.
  destruct (rep_ids _ _ Hd _ _ Hr) as (_ & _ & Hok). pose proof Hcm as (i & Hi)%list_elem_of_lookup.
  destruct (ho_commit _ _ Hok _ _ Hi) as (Hrepo & _).
  assert (revisions d !! cm_id cm = Some (cm_revision cm)) as ->
    by (apply (rep_revisions _ _ Hd); split; [done|]; exists r, cm; by rewrite Hrepo).
  by rewrite Hrepo, Z.eqb_refl.
Qed.

Lemma rows_sorted_selected prefix rows id c l1 l2 l3 :
  selected prefix None rows = l1 ++ l2 ++ l3 ->
  rows_sorted (last_path None (map (entry_of id c) l1)) (map (entry_of id c) l2).
Proof.
  intros E. destruct (selected_sorted prefix rows) as [Hs _]. rewrite E, app_assoc, map_app in Hs.
  apply StronglySorted_app_1_l in Hs. unfold rows_sorted, last_path. rewrite map_map. cbn [fe_path entry_of].
  change (map (entry_of id c)) with (fmap (M := list) (entry_of id c)). rewrite fmap_last.
  destruct l1 as [|e l1 _] using rev_ind; [exact Hs|]. rewrite last_snoc. cbn [option_fmap fmap option_map fe_path entry_of option_list app].
  rewrite <- app_assoc, map_app in Hs. by apply StronglySorted_app_1_r in Hs.
Qed.

Lemma follow_spec rq states id row c rows :
  (forall k i, holds (states k i) id row c rows) ->
  same_repo (tr_namespace rq) (tr_repo_name rq) (repo_type_str (tr_repo_type rq)) row = true ->
  rr_private row = 0 \/ rr_namespace row = tr_username rq ->
  is_commit_name c = true -> (forall path, is_Some (rows !! path) -> stored_path path) ->
  let prefix := normalize_tree_path (tr_tree_path rq) in
  forall n l1 l2 fuel k revision cursor,
  length l2 = n -> selected prefix None rows = l1 ++ l2 -> (n < fuel)%nat ->
  resolve_revision_id (fun _ => false) id revision (states k 1%nat) = Ok c ->
  cursor = (fun e => encode_cursor e.1) <$> last l1 ->
  exists lst, follow fuel states k (reposition rq revision cursor) = Some (Ok lst) /\
    lst ≡ₚ content (tr_recursive rq) prefix (last_path None (map (entry_of id c) l1)) (map (entry_of id c) l2).
Proof.
  intros Hst Hrepo Hacc Hname Hpaths prefix. induction n as [n IH] using lt_wf_ind.
  intros l1 l2 fuel k revision cursor Hn Hl Hfuel Hrev ->. destruct fuel as [|fuel]; [lia|]. cbn [follow].
  assert (forall e, e ∈ l1 ++ l2 -> stored_path e.1) as Hstored.
  { intros [path q] He. apply Hpaths. exists q. apply elem_of_ordered. rewrite <- Hl in He. unfold selected in He.
    apply list_elem_of_In, filter_In in He as [He _]. by apply list_elem_of_In. }
  unfold list_tree. cbn [reposition tr_username tr_namespace tr_repo_name tr_repo_type tr_revision tr_tree_path tr_recursive tr_cursor].
  fold prefix. set (after_path := fst <$> last l1).
  assert ((match (fun e => encode_cursor e.1) <$> last l1 with
           | None => Ok None | Some cursor => let* path := decode_cursor cursor in Ok (Some path) end) = Ok after_path) as ->.
  { unfold after_path. destruct l1 as [|e l1 _] using rev_ind; [done|]. rewrite last_snoc. cbn [fmap option_fmap option_map].
    rewrite decode_encode_cursor; [done|]. apply Hstored. apply elem_of_app. left. apply elem_of_app. right. by left. }
  destruct (holds_repo (reposition rq revision ((fun e => encode_cursor e.1) <$> last l1)) _ _ _ _ _ (Hst k 0%nat) Hrepo) as (repo & -> & Hid & Hns & Hpriv).
  assert (can_access_repo repo (tr_username rq) = true) as ->.
  { unfold can_access_repo. rewrite Hpriv, Hns. destruct Hacc as [-> | ->]; [done|]. by rewrite String.eqb_refl, orb_true_r. }
  rewrite Hid, Hrev. cbn [map_err].
  destruct (Hst k 2%nat) as (h & r & Hd & Hr & _ & _ & Htree).
  rewrite (page_spec _ _ _ _ _ _ _ Hd) by (unfold TREE_PAGE_SIZE, i64_max; lia). rewrite Htree. cbn [map_err].
  assert (selected prefix after_path rows = l2) as ->.
  { unfold after_path. destruct l1 as [|e l1 _] using rev_ind; [exact Hl|]. rewrite last_snoc. rewrite <- app_assoc in Hl. by eapply selected_after. }
  change (Z.to_nat TREE_PAGE_SIZE) with 1000%nat. set (l2a := take 1000 l2). set (l2b := drop 1000 l2).
  assert (l2 = l2a ++ l2b) as Hl2 by (symmetry; apply take_drop).
  unfold list_page. cbn [tp_next_cursor tp_entries tp_commit_id pg_entries pg_next_after_path].
  assert ((if tr_recursive rq then recursive_entries (map (entry_of id c) l2a) prefix
           else non_recursive_entries (map (entry_of id c) l2a) prefix after_path) =
          content (tr_recursive rq) prefix (last_path None (map (entry_of id c) l1)) (map (entry_of id c) l2a)) as ->.
  { unfold content. destruct (tr_recursive rq); [done|].
    assert (after_path = last_path None (map (entry_of id c) l1)) as ->.
    { unfold after_path, last_path. change (map (entry_of id c)) with (fmap (M := list) (entry_of id c)). rewrite fmap_last. by destruct (last l1). }
    apply non_recursive_emit. eapply (rows_sorted_selected prefix rows id c l1 l2a l2b). by rewrite Hl, Hl2. }
  destruct (Z.ltb_spec TREE_PAGE_SIZE (len l2)) as [Hmore|Hdone].
  - assert (exists e, last l2a = Some e) as [e He].
    { destruct (last l2a) as [e|] eqn:E; [by exists e|]. apply last_None in E. apply (f_equal length) in E. unfold l2a in E.
      rewrite length_take in E. change (length []) with 0%nat in E. unfold TREE_PAGE_SIZE, len in Hmore. lia. }
    rewrite He. cbn [fmap option_fmap option_map].
    match goal with |- context [reposition (reposition rq ?a ?b) ?x ?y] => change (reposition (reposition rq a b) x y) with (reposition rq x y) end.
    destruct (IH (length l2b)) with (l1 := l1 ++ l2a) (l2 := l2b) (fuel := fuel) (k := S k) (revision := c) (cursor := Some (encode_cursor e.1))
      as (lst & -> & Hlst); [unfold l2b; rewrite length_drop; unfold TREE_PAGE_SIZE, len in Hmore; lia|done|by rewrite Hl, Hl2, app_assoc| | | |].
    + unfold l2b. rewrite length_drop. unfold TREE_PAGE_SIZE, len in Hmore. lia.
    + by eapply holds_revision.
    + rewrite last_app, He. done.
    + eexists. split; [done|]. rewrite merge_sort_Permutation, Hlst. rewrite Hl2, !map_app, content_app. f_equiv.
      unfold last_path. by rewrite !last_app; destruct (last (map (entry_of id c) l2a)).
  - cbn [fmap option_fmap option_map]. eexists. split; [done|]. rewrite merge_sort_Permutation.
    assert (l2a = l2) as -> by (unfold l2a; apply take_ge; unfold TREE_PAGE_SIZE, len in Hdone; lia). done.
Qed.
End Following.

(** ** What a listing contains *)

(** The entries of a tree: recursively its files by their path below the
    prefix; otherwise the files directly below, and each directory directly
    below that a file goes through. *)
Definition listed (recursive : bool) (prefix : string) (rows : gmap string file_row) (x : TreeListingEntry) : Prop :=
  let child name row path := rows !! (child_prefix prefix +:+ name) = Some row /\ name <> "" /\
    x = mkListing EntryFile (Some (fr_cas_hash row)) (fr_size row) path in
  if recursive then exists name row, child name row name
  else (exists name row, child name row (child_prefix prefix +:+ name) /\ contains_char "/" name = false) \/
       (exists d rest row, rows !! (child_prefix prefix +:+ d +:+ String "/" rest) = Some row /\ contains_char "/" d = false /\
          x = mkListing EntryDirectory None 0 (join_tree_path prefix d)).

Definition file_listed (prefix : string) (e : FileEntry) (x : TreeListingEntry) : Prop :=
  exists name, name <> "" /\ fe_path e = child_prefix prefix +:+ name /\ contains_char "/" name = false /\
    x = mkListing EntryFile (Some (fe_cas_hash e)) (fe_size e) (fe_path e).

Lemma emit_one_elem prefix prev e x :
  x ∈ emit_one prefix prev e <-> file_listed prefix e x \/
    exists d, directory_of prefix (fe_path e) = Some d /\ prev ≫= directory_of prefix <> Some d /\
      x = mkListing EntryDirectory None 0 (join_tree_path prefix d).
Proof.
  unfold emit_one. split.
  - destruct (strip_tree_prefix (fe_path e) prefix) as [rel|] eqn:Er; [|by intros ?%elem_of_nil].
    destruct (String.eqb_spec rel "") as [|Hne]; [by intros ?%elem_of_nil|].
    destruct (split_once "/" rel) as [[d rest]|] eqn:Es.
    + case_bool_decide; [by intros ?%elem_of_nil|]. intros ->%list_elem_of_singleton. right. exists d. split; [|done].
      unfold directory_of. rewrite Er. cbn. rewrite Es. by destruct (String.eqb_spec rel "").
    + apply strip_tree_prefix_Some in Er; [|done]. intros ->%list_elem_of_singleton. left. exists rel.
      split; [done|]. split; [done|]. split; [by apply split_once_None|done].
  - intros [(name & Hne & Hp & Hs & ->)|(d & Hd & Hprev & ->)].
    + rewrite (proj2 (strip_tree_prefix_Some prefix (fe_path e) name Hne) Hp). destruct (String.eqb_spec name ""); [done|].
      rewrite (proj2 (split_once_None _ _) Hs). by left.
    + unfold directory_of in Hd. destruct (strip_tree_prefix (fe_path e) prefix) as [rel|]; [|done]. cbn [mbind option_bind] in Hd.
      destruct (rel =? "")%string; [done|]. destruct (split_once "/" rel) as [[d' rest]|]; [|done]. injection Hd as ->.
      rewrite bool_decide_eq_false_2 by done. by left.
Qed.

Lemma emit_elem prefix entries : forall prev x, rows_sorted prev entries ->
  x ∈ emit prefix prev entries <-> (exists e, e ∈ entries /\ file_listed prefix e x) \/
    exists d e, e ∈ entries /\ directory_of prefix (fe_path e) = Some d /\ prev ≫= directory_of prefix <> Some d /\
      x = mkListing EntryDirectory None 0 (join_tree_path prefix d).
Proof.
  induction entries as [|e entries IH]; intros prev x Hs; cbn [emit].
  { split; [by intros ?%elem_of_nil|]. intros [(e & He & _)|(d & e & He & _)]; by apply elem_of_nil in He. }
  apply rows_sorted_cons in Hs as [Hs Hle]. rewrite elem_of_app, emit_one_elem, IH by done. split.
  - intros [[Hf|(d & Hd & Hp & ->)]|[(e' & He' & Hf)|(d & e' & He' & Hd & Hp & ->)]].
    + left. exists e. split; [by left|done].
    + right. exists d, e. split; [by left|done].
    + left. exists e'. split; [by right|done].
    + right. exists d, e'. split; [by right|]. split; [done|]. split; [|done]. intros Hprev. apply Hp. cbn.
      destruct prev as [p|]; [|done]. destruct (Hle p e' eq_refl He') as [H1' H2'].
      by apply (directory_convex prefix p (fe_path e) (fe_path e') d).
  - intros [(e' & [->|He']%elem_of_cons & Hf)|(d & e' & [->|He']%elem_of_cons & Hd & Hp & ->)].
    + by left; left.
    + right. left. by exists e'.
    + left. right. by exists d.
    + destruct (decide (directory_of prefix (fe_path e) = Some d)) as [Hed|Hed].
      * left. right. by exists d.
      * right. right. exists d, e'. done.
Qed.

Lemma join_tree_path_inj prefix a b : join_tree_path prefix a = join_tree_path prefix b -> a = b.
Proof. unfold join_tree_path. destruct (prefix =? "")%string; [done|]. intros E. by apply string_app_inj_l, string_app_inj_l in E. Qed.

Lemma emit_NoDup prefix entries : forall prev, rows_sorted prev entries -> NoDup (map fe_path entries) -> NoDup (emit prefix prev entries).
Proof.
  induction entries as [|e entries IH]; intros prev Hs Hnd; cbn [emit]; [constructor|].
  apply rows_sorted_cons in Hs as [Hs _]. cbn [map] in Hnd. apply NoDup_cons in Hnd as [Hnew Hnd].
  apply NoDup_app. split; [|split; [|by apply IH]].
  - unfold emit_one. destruct (strip_tree_prefix _ _) as [rel|]; [|constructor]. destruct (rel =? "")%string; [constructor|].
    destruct (split_once "/" rel) as [[d rest]|]; [destruct (bool_decide _); [constructor|]|]; apply NoDup_singleton.
  - intros x [Hf|(d & Hd & _ & ->)]%emit_one_elem.
    + destruct Hf as (name & _ & Hp & _ & ->). rewrite emit_elem by done. intros [(e' & He' & (name' & _ & Hp' & _ & [= _ _ E]))|(d & _ & _ & _ & _ & [=])].
      apply Hnew. apply elem_of_map. exists e'. by rewrite E.
    + rewrite emit_elem by done. intros [(e' & _ & (name' & _ & _ & _ & [=]))|(d' & e' & _ & _ & Hp & [= E])].
      apply join_tree_path_inj in E as ->. by apply Hp.
Qed.

Lemma recursive_elem prefix entries x :
  x ∈ recursive_entries entries prefix <-> exists e name, e ∈ entries /\ name <> "" /\ fe_path e = child_prefix prefix +:+ name /\
    x = mkListing EntryFile (Some (fe_cas_hash e)) (fe_size e) name.
Proof.
  unfold recursive_entries. rewrite list_elem_of_omap. split.
  - intros (e & He & Hx). destruct (strip_tree_prefix (fe_path e) prefix) as [rel|] eqn:Er; [|done].
    destruct (String.eqb_spec rel "") as [|Hne]; [done|]. injection Hx as <-. exists e, rel. by apply strip_tree_prefix_Some in Er.
  - intros (e & name & He & Hne & Hp & ->). exists e. split; [done|]. rewrite (proj2 (strip_tree_prefix_Some _ _ _ Hne) Hp).
    by destruct (String.eqb_spec name "").
Qed.

Lemma recursive_NoDup prefix entries : NoDup (map fe_path entries) -> NoDup (recursive_entries entries prefix).
Proof.
  induction entries as [|e entries IH]; [constructor|]. cbn [map]. intros [Hnew Hnd]%NoDup_cons.
  change (recursive_entries (e :: entries) prefix) with
    (match (match strip_tree_prefix (fe_path e) prefix with
            | Some rel => if (rel =? "")%string then None else Some (mkListing EntryFile (Some (fe_cas_hash e)) (fe_size e) rel)
            | None => None
            end) with Some y => y :: recursive_entries entries prefix | None => recursive_entries entries prefix end).
  destruct (strip_tree_prefix (fe_path e) prefix) as [rel|] eqn:Er; [|by apply IH].
  destruct (String.eqb_spec rel "") as [|Hne]; [by apply IH|]. apply NoDup_cons. split; [|by apply IH].
  intros (e' & name & He' & _ & Hp & [= _ _ <-])%recursive_elem. apply strip_tree_prefix_Some in Er; [|done].
  apply Hnew, elem_of_map. exists e'. by rewrite Hp, Er.
Qed.

Section Listed.
Context `{Base64Laws, !Base64Length, SqlLikeLaws}.

Lemma selected_elem prefix rows path row : trim_slashes prefix = prefix ->
  (path, row) ∈ selected prefix None rows <-> rows !! path = Some row /\ below_prefix prefix path = true.
Proof.
  intros Ht. unfold selected. rewrite Ht, list_elem_of_In, filter_In, <- list_elem_of_In, elem_of_ordered. done.
Qed.

Lemma content_listed recursive prefix rows id c : trim_slashes prefix = prefix ->
  let entries := map (entry_of id c) (selected prefix None rows) in
  NoDup (content recursive prefix None entries) /\
  forall x, x ∈ content recursive prefix None entries <-> listed recursive prefix rows x.
Proof.
  intros Ht entries. destruct (selected_sorted prefix rows) as [Hs Hnd].
  assert (map fe_path entries = map fst (selected prefix None rows)) as Hpaths by (unfold entries; by rewrite map_map).
  assert (rows_sorted None entries) as Hsorted by (unfold rows_sorted; cbn; by rewrite Hpaths).
  assert (forall e, e ∈ entries <-> exists path row, rows !! path = Some row /\ below_prefix prefix path = true /\ e = entry_of id c (path, row)) as Hin.
  { intros e. unfold entries. rewrite elem_of_map. split.
    - intros ([path row] & <- & He). apply selected_elem in He as [? ?]; [|done]. by exists path, row.
    - intros (path & row & Hr & Hb & ->). exists (path, row). split; [done|]. by apply selected_elem. }
  assert (forall name, name <> "" -> below_prefix prefix (child_prefix prefix +:+ name) = true) as Hbelow
    by (intros name Hne; eapply below_prefix_complete; by apply strip_tree_prefix_Some).
  rewrite <- Hpaths in Hnd. unfold content, listed. destruct recursive; (split; [by apply recursive_NoDup || by apply emit_NoDup|]); intros x.
  - rewrite recursive_elem. split.
    + intros (e & name & (path & row & Hr & _ & ->)%Hin & Hne & Hp & ->). cbn in Hp. subst path. by exists name, row.
    + intros (name & row & Hr & Hne & ->). exists (entry_of id c (child_prefix prefix +:+ name, row)), name.
      split; [apply Hin; eauto 10|done].
  - rewrite emit_elem by done. split.
    + intros [(e & (path & row & Hr & _ & ->)%Hin & name & Hne & Hp & Hslash & ->)|(d & e & (path & row & Hr & _ & ->)%Hin & Hd & _ & ->)].
      * left. cbn in Hp |- *. subst path. by exists name, row.
      * right. apply directory_of_Some in Hd as (Hslash & rest & Hp). cbn in Hp. subst path. by exists d, rest, row.
    + intros [(name & row & (Hr & Hne & ->) & Hslash)|(d & rest & row & Hr & Hslash & ->)].
      * left. exists (entry_of id c (child_prefix prefix +:+ name, row)). split; [apply Hin; eauto 10|]. by exists name.
      * right. exists d, (entry_of id c (child_prefix prefix +:+ d +:+ String "/" rest, row)). split; [|split; [|done]].
        -- apply Hin. eexists _, _. split; [done|]. split; [|done]. apply Hbelow. by destruct d.
        -- apply directory_of_Some. split; [done|]. by exists rest.
Qed.

(** C21: Following the cursors of a tree listing ends, in whatever states the
    requests run as long as the revision is there, and the pages together list
    the revision's tree exactly: every file once, or, without recursion, every
    child once, be it a file or a directory, and nothing else. *)
Theorem tree_pages_list_the_tree rq states id row c rows :
  (forall k i, holds (states k i) id row c rows) ->
  same_repo (tr_namespace rq) (tr_repo_name rq) (repo_type_str (tr_repo_type rq)) row = true ->
  rr_private row = 0 \/ rr_namespace row = tr_username rq ->
  is_commit_name c = true -> (forall path, is_Some (rows !! path) -> stored_path path) ->
  tr_cursor rq = None -> resolve_revision_id (fun _ => false) id (tr_revision rq) (states 0%nat 1%nat) = Ok c ->
  exists listing, follow (S (size rows)) states 0 rq = Some (Ok listing) /\
    NoDup listing /\ forall x, x ∈ listing <-> listed (tr_recursive rq) (normalize_tree_path (tr_tree_path rq)) rows x.
Proof.
  intros Hst Hrepo Hacc Hname Hpaths Hcur Hrev. set (prefix := normalize_tree_path (tr_tree_path rq)).
  assert (length (selected prefix None rows) <= size rows)%nat as Hlen.
  { unfold selected. etransitivity; [apply sublist_length, filter_sublist|]. unfold ordered_rows.
    by rewrite merge_sort_Permutation, length_map_to_list. }
  destruct (follow_spec rq states id row c rows Hst Hrepo Hacc Hname Hpaths (length (selected prefix None rows)) [] (selected prefix None rows)
    (S (size rows)) 0%nat (tr_revision rq) None) as (listing & Hf & Hp); [done|done|lia|done|done|].
  assert (reposition rq (tr_revision rq) None = rq) as Erq by (unfold reposition; rewrite <- Hcur; by destruct rq).
  rewrite Erq in Hf. exists listing. split; [done|].
  destruct (content_listed (tr_recursive rq) prefix rows id c) as [Hnd Hin]; [apply trim_slashes_idempotent|].
  change (last_path None (map (entry_of id c) [])) with (@None string) in Hp. split; [by rewrite Hp|]. intros x. rewrite Hp. apply Hin.
Qed.
End Listed.
