(* ===== verification/HubPrograms.v ===== *)
(** * Programs of the Hub, and its CAS client (src/hub/src/cas_client/mod.rs)

    A service is a program: a tree of calls to the metadata store, to the CAS
    server over HTTP, and to the clock, with an answer at its leaves. *)
From stdpp Require Import gmap strings.
From Stdlib Require Import Ascii.
From S2P Require Import Prelude Bytes Crates MerkleHash Hash Text TokenCrates HubMetadata HubTree.

Local Open Scope string_scope.
Local Open Scope list_scope.
Local Open Scope Z_scope.

(** ** HTTP *)
Record http_request := mkHttp { hr_method : string; hr_url : string; hr_headers : list (string * string); hr_body : list byte }.

(** What [send] gives: a transport error, or a response whose body arrives in
    pieces; [None] as the value of a header is one that is not text.  The
    booleans say whether an error is a timeout. *)
Inductive http_answer :=
| HttpFailed (timeout : bool)
| HttpResponse (status : Z) (headers : list (string * option string)) (content_length : option Z) (pieces : list (outcome bool (list byte))).

Definition header (name : string) (headers : list (string * option string)) : option (option string) :=
  snd <$> List.find (fun h => string_to_lower h.1 =? string_to_lower name)%string headers.

(** [str::parse::<u64>] *)
Fixpoint parse_digits (acc : Z) (s : string) : option Z :=
  match s with
  | EmptyString => Some acc
  | String a s =>
      let n := Z.of_nat (nat_of_ascii a) in
      if (48 <=? n) && (n <=? 57) then
        let acc := acc * 10 + (n - 48) in if acc <=? u64_max then parse_digits acc s else None
      else None
  end.
Definition parse_u64 (s : string) : option Z :=
  let s := match s with String "+" s => s | _ => s end in
  if (s =? "")%string then None else parse_digits 0 s.

(** ** Programs *)
Inductive call : Type -> Type :=
| CreateRepo (namespace name : string) (type : RepoType) (private : bool) : call (outcome MetadataError Repo)
| GetRepo (namespace name : string) (type : RepoType) : call (outcome MetadataError Repo)
| DeleteRepo (repo : Z) : call (outcome MetadataError unit)
| GetRevision (repo : Z) (commit : string) : call (outcome MetadataError Revision)
| GetHead (repo : Z) : call (outcome MetadataError (option string))
| ResolveFile (repo : Z) (commit path : string) : call (outcome MetadataError FileEntry)
| CommitChanges (rev : Revision) (changes : list FileTreeChange) (expected_parent : option string) : call (outcome MetadataError unit)
| Send (rq : http_request) : call http_answer
| UnixNow : call Z
| Clock : call (option Z)
| Uuid : call string.

Inductive prog (R : Type) : Type :=
| Done (r : R)
| Call {A : Type} (c : call A) (k : A -> prog R).
Arguments Done {R} r.
Arguments Call {R A} c k.

Fixpoint prog_bind {R S} (p : prog R) (f : R -> prog S) : prog S :=
  match p with
  | Done r => f r
  | Call c k => Call c (fun a => prog_bind (k a) f)
  end.
(** Calls, and calls that end the service on an error. *)
Notation "'call*' x := c 'in' k" := (Call c (fun x => k)) (at level 10, x name, c at level 100, k at level 200).
Definition answer {E A R} (r : outcome E A) (k : A -> prog (outcome E R)) : prog (outcome E R) :=
  match r with Ok a => k a | Err e => Done (Err e) | Panic => Done Panic end.
Notation "'try*' x := r 'in' k" := (answer r (fun x => k)) (at level 10, x name, r at level 100, k at level 200).
Definition run_try {E A R} (p : prog (outcome E A)) (k : A -> prog (outcome E R)) : prog (outcome E R) := prog_bind p (fun r => answer r k).
Notation "'bind*' x := p 'in' k" := (prog_bind p (fun x => k)) (at level 10, x name, p at level 100, k at level 200).
Notation "'run*' x := p 'in' k" := (run_try p (fun x => k)) (at level 10, x name, p at level 100, k at level 200).

(** ** The CAS client (src/hub/src/cas_client/mod.rs) *)
Inductive HubError :=
| HeNotFound | HeConflict | HeUnauthorized | HeForbidden | HeBadRequest | HeUnprocessable | HeCasError | HeCasTimeout | HeInternal.
Record CasUploadError := mkUploadError { cu_status : Z; cu_message : string }.
Record BlobState := mkBlobState { bs_state : string; bs_xet_file_id : option string; bs_size : Z; bs_sha256 : string }.

Inductive ResponseBodyError := RbTooLarge | RbRead (timeout : bool).

Definition MAX_CAS_ERROR_RESPONSE_SIZE : Z := 64 * 1024.

Fixpoint read_pieces (max_size received : Z) (body : list byte) (pieces : list (outcome bool (list byte))) : outcome ResponseBodyError (list byte) :=
  match pieces with
  | [] => Ok body
  | Ok chunk :: pieces =>
      match checked_add received (len chunk) with
      | None => Err RbTooLarge
      | Some received => if max_size <? received then Err RbTooLarge else read_pieces max_size received (body ++ chunk) pieces
      end
  | Err timeout :: _ => Err (RbRead timeout)
  | Panic :: _ => Panic
  end.
Definition read_response_body_limited (content_length : option Z) (pieces : list (outcome bool (list byte))) (max_size : Z)
  : outcome ResponseBodyError (list byte) :=
  if match content_length with Some declared_size => max_size <? declared_size | None => false end then Err RbTooLarge
  else read_pieces max_size 0 [] pieces.

Definition cas_send_error (timeout : bool) : HubError := if timeout then HeCasTimeout else HeCasError.
Definition cas_upload_send_error (timeout : bool) : CasUploadError := mkUploadError (if timeout then 504 else 502) "CAS request failed".

Definition parse_blob_size (headers : list (string * option string)) : outcome HubError Z :=
  let* value := ok_or (header "X-Blob-Size" headers) HeCasError in
  let* value := ok_or value HeCasError in
  ok_or (parse_u64 value) HeCasError.

(** *** Requests, how their answers are read, and the operations *)
Definition bearer (token : string) : string * string := ("Authorization", "Bearer " +:+ token).
Definition is_success (status : Z) : bool := (200 <=? status) && (status <? 300).

Definition head_request (cas_url oid internal_token : string) : http_request :=
  mkHttp "HEAD" (cas_url +:+ "/internal/blob/" +:+ oid) [bearer internal_token] [].
Definition head_blob_answer (oid : string) (answer : http_answer) : outcome HubError BlobState :=
  match answer with
  | HttpFailed timeout => Err (cas_send_error timeout)
  | HttpResponse status headers _ _ =>
      if status =? 200 then
        let* size := parse_blob_size headers in
        let state := default "raw_only" (mjoin (header "X-Storage-State" headers)) in
        let file_id := mjoin (header "X-File-Id" headers) in
        Ok (mkBlobState state file_id size oid)
      else if status =? 404 then Err HeNotFound
      else Err HeCasError
  end.
Definition head_blob (cas_url oid internal_token : string) : prog (outcome HubError BlobState) :=
  call* resp := Send (head_request cas_url oid internal_token) in Done (head_blob_answer oid resp).

(** The message of an error is kept as the bytes that arrived. *)
Definition upload_answer (answer : http_answer) : outcome CasUploadError unit :=
  match answer with
  | HttpFailed timeout => Err (cas_upload_send_error timeout)
  | HttpResponse status _ content_length pieces =>
      if is_success status then Ok tt
      else
        let* body := map_err (fun _ => mkUploadError status "CAS error response rejected")
          (read_response_body_limited content_length pieces MAX_CAS_ERROR_RESPONSE_SIZE) in
        Err (mkUploadError status (String.string_of_list_byte body))
  end.
Definition upload_request (cas_url oid : string) (data : list byte) (token : string) : http_request :=
  mkHttp "PUT" (cas_url +:+ "/lfs/objects/" +:+ oid) [bearer token; ("Content-Type", "application/octet-stream")] data.
Definition proxy_lfs_upload (cas_url oid : string) (data : list byte) (token : string) : prog (outcome CasUploadError unit) :=
  call* resp := Send (upload_request cas_url oid data token) in Done (upload_answer resp).

(** From a file: [contents] is what opening it and reading it gives. *)
Definition upload_from_path_request (cas_url oid : string) (contents : list byte) (file_size : Z) (token : string) : http_request :=
  mkHttp "PUT" (cas_url +:+ "/lfs/objects/" +:+ oid)
    [bearer token; ("Content-Type", "application/octet-stream"); ("Content-Length", u64_to_string file_size)] contents.
Definition proxy_lfs_upload_from_path (cas_url oid : string) (contents : option (list byte)) (file_size : Z) (token : string)
  : prog (outcome CasUploadError unit) :=
  match contents with
  | None => Done (Err (mkUploadError 500 "Failed to open temp file"))
  | Some contents =>
      call* resp := Send (upload_from_path_request cas_url oid contents file_size token) in Done (upload_answer resp)
  end.

Definition cas_read_error (error : ResponseBodyError) : HubError :=
  match error with RbRead true => HeCasTimeout | _ => HeCasError end.

Definition download_request (cas_url oid token : string) : http_request :=
  mkHttp "GET" (cas_url +:+ "/lfs/objects/" +:+ oid) [bearer token] [].
Definition download_answer `{HexCrate, Sha2} (oid : string) (expected_size : Z) (answer : http_answer) : outcome HubError (list byte) :=
  match answer with
  | HttpFailed timeout => Err (cas_send_error timeout)
  | HttpResponse status _ content_length pieces =>
      if status =? 200 then
        let* body := map_err cas_read_error (read_response_body_limited content_length pieces expected_size) in
        ensure len body =? expected_size else HeCasError in
        let actual_oid := hex_encode (sha256_digest body) in
        ensure (string_to_lower actual_oid =? string_to_lower oid)%string else HeCasError in
        Ok body
      else if status =? 404 then Err HeNotFound
      else Err HeCasError
  end.
Definition proxy_lfs_download `{HexCrate, Sha2} (cas_url : string) (max_download_size : Z) (oid : string) (expected_size : Z) (token : string)
  : prog (outcome HubError (list byte)) :=
  if max_download_size <? expected_size then Done (Err HeCasError)
  else call* resp := Send (download_request cas_url oid token) in Done (download_answer oid expected_size resp).

(** The length, and the body that is still to be read. *)
Definition download_streaming_answer (max_download_size : Z) (answer : http_answer)
  : outcome HubError (Z * list (outcome bool (list byte))) :=
  match answer with
  | HttpFailed timeout => Err (cas_send_error timeout)
  | HttpResponse status _ content_length pieces =>
      if status =? 200 then
        let content_length := default 0 content_length in
        ensure content_length <=? max_download_size else HeCasError in
        Ok (content_length, pieces)
      else if status =? 404 then Err HeNotFound
      else Err HeCasError
  end.
Definition proxy_lfs_download_streaming (cas_url : string) (max_download_size : Z) (oid token : string)
  : prog (outcome HubError (Z * list (outcome bool (list byte)))) :=
  call* resp := Send (download_request cas_url oid token) in Done (download_streaming_answer max_download_size resp).

(** Health and readiness: a response is an answer whatever its status. *)
Definition probe (cas_url path : string) : prog (outcome HubError bool) :=
  call* resp := Send (mkHttp "GET" (cas_url +:+ path) [] []) in
  Done (match resp with HttpFailed _ => Err HeCasError | HttpResponse status _ _ _ => Ok (is_success status) end).
Definition health_check (cas_url : string) : prog (outcome HubError bool) := probe cas_url "/health".
Definition readiness_check (cas_url : string) : prog (outcome HubError bool) := probe cas_url "/ready".
