(* ===== verification/HubCommit.v ===== *)
(** * Commits (src/hub/src/commit, src/hub/src/services/commit.rs)

    Parsing the operations of a commit, storing or confirming their contents at
    the CAS server, and the commit of the changes to the metadata store. *)
From stdpp Require Import gmap strings.
From Stdlib Require Import Ascii.
From S2P Require Import Prelude Bytes Crates MerkleHash Hash Text TokenCrates Tokens HubSigner HubMetadata HubTree HubPrograms.

Local Open Scope string_scope.
Local Open Scope list_scope.
Local Open Scope Z_scope.

(** ** Commits (src/hub/src/commit, src/hub/src/services/commit.rs) *)
Definition MAX_INLINE_SIZE : Z := 10 * 1024 * 1024.
Definition MAX_COMMIT_BODY_SIZE : Z := 20 * 1024 * 1024.
Definition MAX_COMMIT_OPERATIONS : Z := 10000.

Record CommitHeader := mkCommitHeader { ch_summary : string; ch_parent_revision : option string }.
Record FileOperation := mkFileOp { fo_path : string; fo_content : string }.
Record LfsFileOperation := mkLfsOp { lo_path : string; lo_oid : string; lo_size : Z }.
Record DeletedEntryOperation := mkDeletedOp { do_path : string }.
Inductive CommitOperation :=
| OpHeader (h : CommitHeader)
| OpFile (f : FileOperation)
| OpLfsFile (f : LfsFileOperation)
| OpDeletedEntry (d : DeletedEntryOperation).
Inductive TreeOperation :=
| TrFile (f : FileOperation)
| TrLfsFile (f : LfsFileOperation)
| TrDeletedEntry (d : DeletedEntryOperation).
Record CommitResponse := mkCommitResponse { cr_commit_oid : string; cr_commit_url : string; cr_pr_url : option string; cr_pr_num : option Z }.

Inductive CommitServiceError :=
| CePayloadTooLarge (actual max : Z)
| CeValidation (msg : string)
| CeForbidden (msg : string)
| CeNotFound (msg : string)
| CeConflict (msg : string) (current_head : option string) (note : option string)
| CeUnprocessableEntity (msg : string)
| CeCasUpload (status : Z) (msg : string)
| CeBadGateway (msg : string)
| CeGatewayTimeout (msg : string)
| CeInternal (msg : string).

Record CommitRequest := mkCommitRequest {
  cq_username : string;
  cq_namespace : string;
  cq_repo_name : string;
  cq_revision : string;
  cq_repo_type : RepoType;
  cq_body : string;
}.

(** serde_json on a line of the body; a number is read into a [u64]. *)
Class CommitJson := parse_operation : string -> option CommitOperation.
Class CommitJsonLaws `{CommitJson} : Prop := parse_operation_size : forall s f, parse_operation s = Some (OpLfsFile f) -> in_u64 (lo_size f).

(** [str::lines] *)
Fixpoint split_lines (line s : string) : list string :=
  match s with
  | EmptyString => if (line =? "")%string then [] else [line]
  | String a s => if Ascii.eqb a "010"%char then line :: split_lines "" s else split_lines (line +:+ String a "") s
  end.
Fixpoint strip_cr (s : string) : string :=
  match s with
  | EmptyString => EmptyString
  | String a EmptyString => if Ascii.eqb a "013"%char then EmptyString else String a EmptyString
  | String a s => String a (strip_cr s)
  end.
(** A last line without a line feed keeps its carriage return. *)
Fixpoint lines_of (pieces : list string) (terminated : bool) : list string :=
  match pieces with
  | [] => []
  | [l] => [if terminated then strip_cr l else l]
  | l :: pieces => strip_cr l :: lines_of pieces terminated
  end.
Fixpoint ends_with_newline (s : string) : bool :=
  match s with
  | EmptyString => true
  | String a EmptyString => Ascii.eqb a "010"%char
  | String _ s => ends_with_newline s
  end.
Definition str_lines (s : string) : list string := lines_of (split_lines "" s) (ends_with_newline s).

Definition as_i64 (n : Z) : Z := if n <? 2 ^ 63 then n else n - 2 ^ 64.
Definition i64_to_string (z : Z) : string := if z <? 0 then "-" +:+ u64_to_string (- z) else u64_to_string z.

Section Commit.
Context `{HexCrate, Sha2, Base64, TokenJson, Ed25519, CommitJson}.

Definition generate_commit_id (repo_id : Z) (parent : option string) (message : string) (timestamp : Z) (nonce : string) : string :=
  hex_encode (sha256_digest (str_bytes
    (i64_to_string repo_id +:+ ":" +:+ default "" parent +:+ ":" +:+ message +:+ ":" +:+ i64_to_string timestamp +:+ ":" +:+ nonce))).

Definition decode_base64_content (content : string) : outcome string (list byte) :=
  let content_to_decode := default content (strip_prefix "base64:" content) in
  ok_or (std_decode content_to_decode) "Base64 decode error".

(** The loop over the non-blank lines; [first]: none was seen before. *)
Fixpoint parse_operations (first : bool) (lines : list string) : outcome CommitServiceError (option CommitHeader * list TreeOperation) :=
  match lines with
  | [] => Ok (None, [])
  | line :: lines =>
      if is_blank line then parse_operations first lines
      else
        let* op := ok_or (parse_operation line) (CeValidation "Invalid NDJSON line") in
        if first then
          match op with
          | OpHeader parsed_header => let* rest := parse_operations false lines in Ok (Some parsed_header, snd rest)
          | _ => Err (CeValidation "Commit header must be the first non-empty operation")
          end
        else
          let push (op : TreeOperation) := (let* rest := parse_operations false lines in Ok (None, op :: snd rest)) in
          match op with
          | OpHeader _ => Err (CeValidation "Commit must contain exactly one header")
          | OpFile file => push (TrFile file)
          | OpLfsFile lfs_file => push (TrLfsFile lfs_file)
          | OpDeletedEntry deleted_entry => push (TrDeletedEntry deleted_entry)
          end
  end.
Definition parse_commit_body (body : string) : outcome CommitServiceError (CommitHeader * list TreeOperation) :=
  let* parsed := parse_operations true (str_lines body) in
  let* header := ok_or (fst parsed) (CeValidation "Missing header in commit") in
  Ok (header, snd parsed).

Definition ensure_parent_matches_head (parent_revision current_head : option string) : outcome CommitServiceError unit :=
  match parent_revision, current_head with
  | Some parent, Some head =>
      if (parent =? head)%string then Ok tt
      else Err (CeConflict "Parent revision does not match current HEAD" (Some head)
                  (Some "This is a pre-check for early error detection. The authoritative check happens atomically during commit."))
  | Some _, None =>
      Err (CeConflict "Parent revision specified but repository has no HEAD" None
             (Some "This is a pre-check. The authoritative check happens atomically during commit."))
  | None, Some head =>
      Err (CeConflict "No parent specified but repository already has HEAD" (Some head)
             (Some "This is a pre-check. The authoritative check happens atomically during commit."))
  | None, None => Ok tt
  end.

Definition map_metadata_load_error (err : MetadataError) : CommitServiceError :=
  match err with RepoNotFound _ => CeNotFound (metadata_message err) | _ => CeInternal (metadata_message err) end.

(** [MetadataStore::is_namespace_member], which no store overrides. *)
Definition is_namespace_member (username namespace : string) : outcome MetadataError bool := Ok false.

Definition ensure_namespace_write_access (username namespace : string) : outcome CommitServiceError unit :=
  if (namespace =? username)%string then Ok tt
  else
    let* has_access := map_err map_metadata_load_error (is_namespace_member username namespace) in
    if has_access then Ok tt else Err (CeForbidden "User cannot commit to namespace").

Context (cas_url : string) (signer : XetSigner).

Definition process_inline_file (file_op : FileOperation) (repo_id : Z) (commit_id cas_write_token : string)
  : prog (outcome CommitServiceError FileEntry) :=
  try* _ := map_err (fun msg => CeValidation ("Invalid file path: " +:+ msg)) (validate_file_path (fo_path file_op)) in
  try* decoded_content := map_err CeValidation (decode_base64_content (fo_content file_op)) in
  if MAX_INLINE_SIZE <? len decoded_content then Done (Err (CeValidation "Inline file too large"))
  else
    let oid := hex_encode (sha256_digest decoded_content) in
    let size := len decoded_content in
    bind* stored := proxy_lfs_upload cas_url oid decoded_content cas_write_token in
    try* _ := map_err (fun err => CeCasUpload (cu_status err) (cu_message err)) stored in
    Done (Ok (mkEntry (fo_path file_op) repo_id commit_id size oid false)).

Definition process_lfs_file (lfs_op : LfsFileOperation) (repo_id : Z) (commit_id internal_token : string)
  : prog (outcome CommitServiceError FileEntry) :=
  try* _ := map_err (fun msg => CeValidation ("Invalid file path: " +:+ msg)) (validate_file_path (lo_path lfs_op)) in
  if negb ((String.length (lo_oid lfs_op) =? 64)%nat && all_hexdigits (lo_oid lfs_op))
  then Done (Err (CeValidation "Invalid LFS OID format: expected 64-character hex string"))
  else if negb (lo_size lfs_op <=? i64_max)
  then Done (Err (CeValidation "LFS file size exceeds the supported metadata range"))
  else
    bind* found := head_blob cas_url (lo_oid lfs_op) internal_token in
    match found with
    | Ok blob_state =>
        if bs_size blob_state =? lo_size lfs_op
        then Done (Ok (mkEntry (lo_path lfs_op) repo_id commit_id (lo_size lfs_op) (lo_oid lfs_op) true))
        else Done (Err (CeUnprocessableEntity "LFS file size mismatch"))
    | Err HeNotFound => Done (Err (CeUnprocessableEntity "LFS file not found in CAS"))
    | Err HeCasTimeout => Done (Err (CeGatewayTimeout "CAS verification timed out"))
    | Err _ => Done (Err (CeBadGateway "CAS verification failed"))
    | Panic => Done Panic
    end.

Definition process_operation (operation : TreeOperation) (repo_id : Z) (commit_id cas_write_token internal_token : string)
  : prog (outcome CommitServiceError FileTreeChange) :=
  match operation with
  | TrFile file_op => run* entry := process_inline_file file_op repo_id commit_id cas_write_token in Done (Ok (Upsert entry))
  | TrLfsFile lfs_op => run* entry := process_lfs_file lfs_op repo_id commit_id internal_token in Done (Ok (Upsert entry))
  | TrDeletedEntry deleted =>
      try* _ := map_err (fun msg => CeValidation ("Invalid deleted entry path: " +:+ msg)) (validate_file_path (do_path deleted)) in
      Done (Ok (HubMetadata.Delete (do_path deleted)))
  end.

Fixpoint process_operations (operations : list TreeOperation) (repo_id : Z) (commit_id cas_write_token internal_token : string)
  : prog (outcome CommitServiceError (list FileTreeChange)) :=
  match operations with
  | [] => Done (Ok [])
  | operation :: operations =>
      run* change := process_operation operation repo_id commit_id cas_write_token internal_token in
      run* changes := process_operations operations repo_id commit_id cas_write_token internal_token in
      Done (Ok (change :: changes))
  end.

Definition is_lfs_op (op : TreeOperation) : bool := match op with TrLfsFile _ => true | _ => false end.
Definition is_file_op (op : TreeOperation) : bool := match op with TrFile _ => true | _ => false end.

(** Signing with the clock of the call, where a token is needed. *)
Definition signed_if (needed : bool) (sign_at : option Z -> outcome string (string * Z)) (msg : string) : prog (outcome CommitServiceError string) :=
  if needed then
    call* now := Clock in
    Done (map_err (fun err => CeInternal (msg +:+ err)) (let* signed := sign_at now in Ok (fst signed)))
  else Done (Ok "").

(** [commit] once the parent is known to be the head. *)
Definition commit_changes (rq : CommitRequest) (repo : Repo) (header : CommitHeader) (operations : list TreeOperation) (current_head : option string)
  : prog (outcome CommitServiceError CommitResponse) :=
  let parent_revision := ch_parent_revision header in
  run* internal_token := signed_if (existsb is_lfs_op operations) (sign_internal signer) "Failed to sign internal token: " in
  call* now := UnixNow in
  let timestamp := as_i64 now in
  call* nonce := Uuid in
  let commit_id := generate_commit_id (rp_id repo) current_head (ch_summary header) timestamp nonce in
  run* cas_write_token := signed_if (existsb is_file_op operations)
    (fun now => sign signer now (cq_username rq) "write" (cq_namespace rq +:+ "/" +:+ cq_repo_name rq)
                  (repo_type_str (cq_repo_type rq)) (cq_revision rq)) "Failed to sign CAS write token: " in
  run* changes := process_operations operations (rp_id repo) commit_id cas_write_token internal_token in
  let revision := mkRevision commit_id (rp_id repo) current_head (ch_summary header) (cq_username rq) timestamp in
  call* committed := CommitChanges revision changes parent_revision in
  try* _ := map_err (fun err =>
    match err with
    | MdConflict actual_head => CeConflict "Parent revision does not match current HEAD" (Some actual_head) None
    | _ => CeInternal (metadata_message err)
    end) committed in
  Done (Ok (mkCommitResponse commit_id ("/" +:+ cq_namespace rq +:+ "/" +:+ cq_repo_name rq +:+ "/commit/" +:+ commit_id) None None)).

Definition commit (rq : CommitRequest) : prog (outcome CommitServiceError CommitResponse) :=
  if MAX_COMMIT_BODY_SIZE <? str_len (cq_body rq) then Done (Err (CePayloadTooLarge (str_len (cq_body rq)) MAX_COMMIT_BODY_SIZE))
  else
    try* _ := ensure_namespace_write_access (cq_username rq) (cq_namespace rq) in
    let operation_count := len (List.filter (fun line => negb (is_blank line)) (str_lines (cq_body rq))) in
    if MAX_COMMIT_OPERATIONS <? operation_count then Done (Err (CeValidation "Too many operations in commit"))
    else
      call* repo := GetRepo (cq_namespace rq) (cq_repo_name rq) (cq_repo_type rq) in
      try* repo := map_err map_metadata_load_error repo in
      if negb (cq_revision rq =? "main")%string then Done (Err (CeValidation "Commits currently support only the 'main' revision"))
      else
        try* parsed := parse_commit_body (cq_body rq) in
        let header := fst parsed in
        let operations := snd parsed in
        call* current_head := GetHead (rp_id repo) in
        try* current_head := map_err map_metadata_load_error current_head in
        try* _ := ensure_parent_matches_head (ch_parent_revision header) current_head in
        commit_changes rq repo header operations current_head.
End Commit.
