(* ===== verification/HubRepos.v ===== *)
(** * Repositories, resolution, token exchange and pre-upload
    (src/hub/src/services/repo.rs, resolve.rs, token_exchange.rs, preupload.rs, shared.rs) *)
From stdpp Require Import gmap strings.
From Stdlib Require Import Ascii.
From S2P Require Import Prelude Bytes Crates Text TokenCrates Tokens HubSigner HubMetadata HubTree HubPrograms HubCommit.

Local Open Scope string_scope.
Local Open Scope list_scope.
Local Open Scope Z_scope.

(** ** Repositories (services/repo.rs) *)
Inductive RepoServiceError :=
| ReValidation (msg : string)
| ReNotFound (msg : string)
| ReConflict (msg : string)
| ReForbidden (msg : string)
| ReRevisionNotFound (msg : string)
| ReInternal (msg : string).
Inductive RepoServiceResult :=
| RsRevision (repo : Repo) (revision : Revision)
| RsEmptyMainRevision (repo : Repo) (head_sha : option string).

Definition is_repo_name_char (a : ascii) : bool :=
  let n := Z.of_nat (nat_of_ascii a) in
  ((48 <=? n) && (n <=? 57)) || ((65 <=? n) && (n <=? 90)) || ((97 <=? n) && (n <=? 122)) ||
  Ascii.eqb a "."%char || Ascii.eqb a "_"%char || Ascii.eqb a "-"%char.
Fixpoint ends_with_char (c : ascii) (s : string) : bool :=
  match s with
  | EmptyString => false
  | String a EmptyString => Ascii.eqb a c
  | String _ s => ends_with_char c s
  end.

Definition validate_repo_name (name : string) : outcome RepoServiceError unit :=
  ensure negb (name =? "")%string else (ReValidation "Repository name cannot be empty") in
  ensure str_len name <=? 96 else (ReValidation "Repository name too long") in
  ensure string_forallb is_repo_name_char name else (ReValidation "Repository name contains invalid characters") in
  ensure negb (starts_with_char "."%char name || starts_with_char "-"%char name)
    else (ReValidation "Repository name cannot start with '.' or '-'") in
  ensure negb (ends_with_char "."%char name) else (ReValidation "Repository name cannot end with '.'") in
  ensure negb (contains_pair "."%char name) else (ReValidation "Repository name cannot contain '..'") in
  Ok tt.

Definition parse_unified_repo_type (repo_type : option string) : RepoType :=
  match repo_type with Some "dataset" => RDataset | Some "space" => RSpace | _ => RModel end.

Definition create_typed_repo (username name : string) (repo_type : RepoType) (private : bool) : prog (outcome RepoServiceError Repo) :=
  try* _ := validate_repo_name name in
  call* created := CreateRepo username name repo_type private in
  Done (map_err (fun err => match err with
                            | RepoAlreadyExists => ReConflict (metadata_message err)
                            | _ => ReInternal (metadata_message err)
                            end) created).

Definition create_unified_repo (username : string) (organization : option string) (name : string) (repo_type : option string) (private : bool)
  : prog (outcome RepoServiceError Repo) :=
  let namespace := default username organization in
  if negb (namespace =? username)%string then Done (Err (ReForbidden "Cannot create repo in namespace: not a member"))
  else
    try* _ := validate_repo_name name in
    let repo_type := parse_unified_repo_type repo_type in
    call* created := CreateRepo namespace name repo_type private in
    match created with
    | Ok repo => Done (Ok repo)
    | Err RepoAlreadyExists =>
        call* found := GetRepo namespace name repo_type in
        Done (map_err (fun error => match error with
                                    | RepoNotFound _ => ReConflict "Repo already exists"
                                    | _ => ReInternal (metadata_message error)
                                    end) found)
    | Err err => Done (Err (ReInternal (metadata_message err)))
    | Panic => Done Panic
    end.

Definition repo_load_repo (namespace repo_name : string) (repo_type : RepoType) : prog (outcome RepoServiceError Repo) :=
  call* found := GetRepo namespace repo_name repo_type in
  Done (map_err (fun err => match err with
                            | RepoNotFound _ => ReNotFound (metadata_message err)
                            | _ => ReInternal (metadata_message err)
                            end) found).

Definition repo_get_repo (username namespace repo_name : string) (repo_type : RepoType) : prog (outcome RepoServiceError Repo) :=
  run* repo := repo_load_repo namespace repo_name repo_type in
  if negb (can_access_repo repo username) then Done (Err (ReNotFound "Repository not found"))
  else Done (Ok repo).

Definition repo_delete_repo (username namespace repo_name : string) (repo_type : RepoType) : prog (outcome RepoServiceError unit) :=
  run* repo := repo_load_repo namespace repo_name repo_type in
  if negb (can_write_repo repo username) then Done (Err (ReForbidden "You do not have permission to delete this repository"))
  else
    call* deleted := DeleteRepo (rp_id repo) in
    Done (map_err (fun err => ReInternal (metadata_message err)) deleted).

Definition repo_get_revision (username namespace repo_name revision : string) (repo_type : RepoType)
  : prog (outcome RepoServiceError RepoServiceResult) :=
  call* found := GetRepo namespace repo_name repo_type in
  try* repo := map_err (fun error => match error with
                                     | RepoNotFound _ => ReNotFound "Repository not found"
                                     | _ => ReInternal (metadata_message error)
                                     end) found in
  if negb (can_access_repo repo username) then Done (Err (ReNotFound "Repository not found"))
  else
    call* rev := GetRevision (rp_id repo) revision in
    match rev with
    | Ok rev => Done (Ok (RsRevision repo rev))
    | Err RevisionNotFound =>
        if (revision =? "main")%string then
          call* head_sha := GetHead (rp_id repo) in
          try* head_sha := map_err (fun error => ReInternal (metadata_message error)) head_sha in
          Done (Ok (RsEmptyMainRevision repo head_sha))
        else Done (Err (ReRevisionNotFound "Revision not found"))
    | Err error => Done (Err (ReInternal (metadata_message error)))
    | Panic => Done Panic
    end.

(** ** Resolution of a file (services/resolve.rs, services/shared.rs) *)
Inductive ResolveServiceError := RfNotFound (msg : string) | RfInternal (msg : string).
Record ResolveFileRequest := mkResolveRequest {
  rq_username : string;
  rq_namespace : string;
  rq_repo_name : string;
  rq_repo_type : RepoType;
  rq_revision : string;
  rq_file_path : string;
}.
Record ResolvedFile := mkResolved { rs_commit_id : string; rs_file_entry : FileEntry }.

Definition resolve_load_repo (rq : ResolveFileRequest) : prog (outcome ResolveServiceError Repo) :=
  call* found := GetRepo (rq_namespace rq) (rq_repo_name rq) (rq_repo_type rq) in
  Done (map_err (fun err => match err with
                            | RepoNotFound _ => RfNotFound (metadata_message err)
                            | _ => RfInternal (metadata_message err)
                            end) found).

(** [resolve_revision_id] as a program; [HubTree.resolve_revision_id] is its
    run on one state of the store. *)
Definition resolve_revision (repo_id : Z) (revision : string) : prog (outcome ResolveRevisionError string) :=
  if is_commit_name revision then
    call* found := GetRevision repo_id revision in
    Done (match found with
          | Ok _ => Ok revision
          | Err RevisionNotFound => Err (RrNotFound "Revision not found")
          | Err error => Err (RrInternal (metadata_message error))
          | Panic => Panic
          end)
  else if (revision =? "main")%string then
    call* head := GetHead repo_id in
    Done (match head with
          | Ok (Some head) => Ok head
          | Ok None => Err (RrNotFound "No HEAD found for repo")
          | Err error => Err (RrInternal (metadata_message error))
          | Panic => Panic
          end)
  else Done (Err (RrNotFound "Revision not found (only 'main' branch or commit hashes are supported)")).

Definition resolve_service (rq : ResolveFileRequest) : prog (outcome ResolveServiceError ResolvedFile) :=
  run* repo := resolve_load_repo rq in
  if negb (can_access_repo repo (rq_username rq)) then Done (Err (RfNotFound "Repository not found"))
  else
    bind* resolved := resolve_revision (rp_id repo) (rq_revision rq) in
    try* commit_id := map_err (fun error => match error with
                                            | RrNotFound message => RfNotFound message
                                            | RrInternal message => RfInternal message
                                            end) resolved in
    call* entry := ResolveFile (rp_id repo) commit_id (rq_file_path rq) in
    try* file_entry := map_err (fun err => match err with
                                           | FileNotFound => RfNotFound (metadata_message err)
                                           | _ => RfInternal (metadata_message err)
                                           end) entry in
    Done (Ok (mkResolved commit_id file_entry)).

(** ** Token exchange (services/token_exchange.rs) *)
Inductive TokenExchangeServiceError := TxNotFound (msg : string) | TxInternal (msg : string).
Inductive ExchangeScope := XsRead | XsWrite.
Definition exchange_scope_str (s : ExchangeScope) : string := match s with XsRead => "read" | XsWrite => "write" end.
Record TokenExchangeRequest := mkExchange {
  xq_user_id : string;
  xq_username : string;
  xq_namespace : string;
  xq_repo_name : string;
  xq_revision : string;
  xq_required_scope : ExchangeScope;
  xq_repo_type : RepoType;
}.
Record TokenExchangeResult := mkExchanged { xr_access_token : string; xr_exp : Z }.

Definition can_exchange_repo (repo : Repo) (username : string) (scope : ExchangeScope) : bool :=
  match scope with XsRead => can_access_repo repo username | XsWrite => can_write_repo repo username end.

Definition exchange_load_repo (rq : TokenExchangeRequest) : prog (outcome TokenExchangeServiceError Repo) :=
  call* found := GetRepo (xq_namespace rq) (xq_repo_name rq) (xq_repo_type rq) in
  Done (map_err (fun err => match err with
                            | RepoNotFound _ => TxNotFound (metadata_message err)
                            | _ => TxInternal (metadata_message err)
                            end) found).

Definition resolve_exchange_revision (repo_id : Z) (revision : string) : prog (outcome TokenExchangeServiceError string) :=
  if ((revision =? "main") || (revision =? ""))%string then
    call* head := GetHead repo_id in
    Done (match head with
          | Ok (Some head) => Ok head
          | Ok None => Ok "main"
          | Err error => Err (TxInternal (metadata_message error))
          | Panic => Panic
          end)
  else Done (Ok revision).

Section Exchange.
Context `{Base64, TokenJson, Ed25519}.

Definition exchange (signer : XetSigner) (rq : TokenExchangeRequest) : prog (outcome TokenExchangeServiceError TokenExchangeResult) :=
  run* repo := exchange_load_repo rq in
  if negb (can_exchange_repo repo (xq_username rq) (xq_required_scope rq)) then Done (Err (TxNotFound "Repository not found"))
  else
    run* revision := resolve_exchange_revision (rp_id repo) (xq_revision rq) in
    let repo_id := (xq_namespace rq +:+ "/" +:+ xq_repo_name rq) in
    call* now := Clock in
    try* signed := map_err (fun err => TxInternal ("Failed to sign token: " +:+ err))
      (sign signer now (xq_user_id rq) (exchange_scope_str (xq_required_scope rq)) repo_id
         (repo_type_str (xq_repo_type rq)) revision) in
    Done (Ok (mkExchanged (fst signed) (snd signed))).
End Exchange.

(** ** Pre-upload (services/preupload.rs) *)
Definition MAX_PREUPLOAD_FILES : Z := 10000.
Inductive PreuploadServiceError := PuValidation (msg : string) | PuForbidden (msg : string) | PuNotFound (msg : string) | PuInternal (msg : string).
Inductive UploadMode := Regular | Lfs.
Record PreuploadFileInput := mkFileInput { pi_path : string; pi_size : Z }.
Record PreuploadRequest := mkPreupload {
  pq_username : string;
  pq_namespace : string;
  pq_repo_name : string;
  pq_repo_type : RepoType;
  pq_inline_threshold : Z;
  pq_files : list PreuploadFileInput;
}.
Record PreuploadFileDecision := mkDecision { pd_path : string; pd_upload_mode : UploadMode; pd_should_ignore : bool }.

Definition validate_preupload_file_count (file_count : Z) : outcome PreuploadServiceError unit :=
  ensure file_count <=? MAX_PREUPLOAD_FILES else (PuValidation "Preupload request contains too many files") in Ok tt.
Definition classify_upload_mode (size inline_threshold : Z) : UploadMode := if size <=? inline_threshold then Regular else Lfs.

Fixpoint validate_preupload_paths (files : list PreuploadFileInput) : outcome PreuploadServiceError unit :=
  match files with
  | [] => Ok tt
  | file :: files => let* _ := map_err PuValidation (validate_file_path (pi_path file)) in validate_preupload_paths files
  end.

Definition prepare_upload (rq : PreuploadRequest) : prog (outcome PreuploadServiceError (list PreuploadFileDecision)) :=
  try* _ := validate_preupload_file_count (len (pq_files rq)) in
  try* _ := validate_preupload_paths (pq_files rq) in
  try* _ := (if negb (pq_namespace rq =? pq_username rq)%string then
               let* has_access := map_err (fun error => PuInternal (metadata_message error)) (is_namespace_member (pq_username rq) (pq_namespace rq)) in
               ensure (has_access : bool) else (PuForbidden "User cannot access namespace") in Ok tt
             else Ok tt) in
  call* found := GetRepo (pq_namespace rq) (pq_repo_name rq) (pq_repo_type rq) in
  try* _ := map_err (fun err => match err with
                                | RepoNotFound _ => PuNotFound (metadata_message err)
                                | _ => PuInternal (metadata_message err)
                                end) found in
  Done (Ok (map (fun file => mkDecision (pi_path file) (classify_upload_mode (pi_size file) (pq_inline_threshold rq)) false) (pq_files rq))).
