(* ===== verification/HubTokens.v ===== *)
(** * The Hub's token store (src/hub/src/auth/token_store.rs, src/hub/src/auth/extract.rs)

    Users and access tokens in the tables of src/hub/src/migrations.rs, a token
    being stored as its salted hash; the salt that several instances of the Hub
    find or make in one database; and the extraction of the user of a request.
    Statements can fail, as [fails] says for those of one call in their order,
    and a transaction that fails leaves the tables as they were. *)
From stdpp Require Import gmap strings sorting.
From Stdlib Require Import Ascii.
From S2P Require Import Prelude Bytes Crates Text TokenCrates CasAuth HubTree HubCommit.

Local Open Scope string_scope.
Local Open Scope list_scope.
Local Open Scope Z_scope.

(** HMAC-SHA256 of the hmac crate: a key, a message, 32 bytes. *)
Class Hmac := hmac_sha256 : list byte -> list byte -> list byte.
Class HmacLaws `{Hmac} : Prop := hmac_length : forall key data, length (hmac_sha256 key data) = 32%nat.

(** ** Tables *)
Record user_row := mkUserRow { us_username : string; us_created_at : Z }.
Record token_row := mkTokenRow {
  tk_user_id : string;
  tk_name : string;
  tk_scope : string;
  tk_created_at : Z;
  tk_expires_at : option Z;
  tk_revoked_at : option Z;
}.
Record auth_db := mkAuthDb { users : gmap string user_row; tokens : gmap string token_row }.
Definition empty_auth_db : auth_db := mkAuthDb ∅ ∅.

Record TokenInfo := mkTokenInfo { ti_user_id : string; ti_username : string; ti_token_name : string; ti_scope : string }.
Record TokenMetadata := mkTokenMetadata { tm_name : string; tm_scope : string; tm_created_at : Z; tm_expires_at : option Z; tm_revoked_at : option Z }.
Inductive SqlxError := SqlxFailed.

(** INSERT: the keys, the unique name and the reference to the user are checked. *)
Definition find_user (username : string) (d : auth_db) : option string :=
  fst <$> head (map_to_list (filter (fun entry => us_username entry.2 = username) (users d))).
Definition insert_user (user_id username : string) (now : Z) (d : auth_db) : option auth_db :=
  match users d !! user_id, find_user username d with
  | None, None => Some (mkAuthDb (<[user_id := mkUserRow username now]> (users d)) (tokens d))
  | _, _ => None
  end.
Definition insert_token (token_hash user_id name scope : string) (now : Z) (d : auth_db) : option auth_db :=
  match tokens d !! token_hash, users d !! user_id with
  | None, Some _ => Some (mkAuthDb (users d) (<[token_hash := mkTokenRow user_id name scope now None None]> (tokens d)))
  | _, _ => None
  end.

Fixpoint remove_char (c : ascii) (s : string) : string :=
  match s with
  | EmptyString => EmptyString
  | String a s => if Ascii.eqb a c then remove_char c s else String a (remove_char c s)
  end.

(** [as u64] of an [i64]. *)
Definition i64_as_u64 (z : Z) : Z := if z <? 0 then z + 2 ^ 64 else z.

Section Store.
Context `{HexCrate, Hmac} (hash_salt : string).

Definition hash_token (token : string) : string := hex_encode (hmac_sha256 (str_bytes hash_salt) (str_bytes token)).

(** [now] is the clock of the call and [uuid] the fresh identifier it makes. *)
Definition fresh_token (uuid : string) : string := "hf_" +:+ remove_char "-"%char uuid.

Definition create_token (fails : nat -> bool) (now : Z) (uuid username token_name scope : string) (d : auth_db)
  : auth_db * outcome SqlxError string :=
  let token := fresh_token uuid in
  let token_hash := hash_token token in
  let now := as_i64 now in
  let failed := (d, Err SqlxFailed) in
  let finish (n : nat) (d' : auth_db) (user_id : string) :=
    match insert_token token_hash user_id token_name scope now d' with
    | Some d'' => if fails n || fails (S n) then failed else (d'', Ok token)
    | None => failed
    end in
  if fails 0%nat || fails 1%nat then failed
  else
    match find_user username d with
    | Some existing => finish 2%nat d existing
    | None =>
        if (16 <=? String.length token_hash)%nat then
          let user_id := "user_" +:+ String.substring 0 16 token_hash in
          match insert_user user_id username now d with
          | Some d' => if fails 2%nat then failed else finish 3%nat d' user_id
          | None => failed
          end
        else (d, Panic)
    end.

Definition create_token_for_user (fails : nat -> bool) (now : Z) (uuid user_id token_name scope : string) (d : auth_db)
  : auth_db * outcome SqlxError string :=
  let token := fresh_token uuid in
  let token_hash := hash_token token in
  if fails 0%nat then (d, Err SqlxFailed)
  else
    match insert_token token_hash user_id token_name scope (as_i64 now) d with
    | Some d' => (d', Ok token)
    | None => (d, Err SqlxFailed)
    end.

Definition validate_token (fails : nat -> bool) (now : Z) (token : string) (d : auth_db) : outcome SqlxError (option TokenInfo) :=
  let token_hash := hash_token token in
  let now := as_i64 now in
  if fails 0%nat then Err SqlxFailed
  else
    match tokens d !! token_hash with
    | Some row =>
        match users d !! tk_user_id row with
        | Some user =>
            if (match tk_revoked_at row with Some _ => true | None => false end) then Ok None
            else if (match tk_expires_at row with Some exp => exp <? now | None => false end) then Ok None
            else Ok (Some (mkTokenInfo (tk_user_id row) (us_username user) (tk_name row) (tk_scope row)))
        | None => Ok None
        end
    | None => Ok None
    end.

Definition set_token_row (token_hash : string) (row : token_row) (d : auth_db) : auth_db :=
  mkAuthDb (users d) (<[token_hash := row]> (tokens d)).

Definition revoke_token (fails : nat -> bool) (now : Z) (token : string) (d : auth_db) : auth_db * outcome SqlxError bool :=
  let token_hash := hash_token token in
  if fails 0%nat then (d, Err SqlxFailed)
  else
    match tokens d !! token_hash with
    | Some (mkTokenRow user_id name scope created_at expires_at None) =>
        (set_token_row token_hash (mkTokenRow user_id name scope created_at expires_at (Some (as_i64 now))) d, Ok true)
    | _ => (d, Ok false)
    end.

Definition set_token_expiration (fails : nat -> bool) (token : string) (expires_at : Z) (d : auth_db) : auth_db * outcome SqlxError unit :=
  let token_hash := hash_token token in
  if fails 0%nat then (d, Err SqlxFailed)
  else
    match tokens d !! token_hash with
    | Some row =>
        (set_token_row token_hash (mkTokenRow (tk_user_id row) (tk_name row) (tk_scope row) (tk_created_at row) (Some (as_i64 expires_at)) (tk_revoked_at row)) d, Ok tt)
    | None => (d, Ok tt)
    end.
End Store.

(** ** Who makes a request (src/hub/src/auth/extract.rs) *)
Definition scope_allows (scope required_scope : string) : bool :=
  let has_required := has_word required_scope scope in
  let write_implies_read := (required_scope =? "read")%string && has_word "write" scope in
  has_required || write_implies_read.

Inductive ScopeRequirement := AuthAny | AuthRead | AuthWrite.
Definition scope_check (s : ScopeRequirement) (info : TokenInfo) : bool :=
  match s with AuthAny => true | AuthRead => scope_allows (ti_scope info) "read" | AuthWrite => scope_allows (ti_scope info) "write" end.
Definition scope_description (s : ScopeRequirement) : string :=
  match s with AuthAny => "authenticated" | AuthRead => "read access" | AuthWrite => "write access" end.
Inductive ExtractError := AeMissingHeader | AeInvalidToken | AeInsufficientScope (required : string) | AeInternal.
Definition extract_status (e : ExtractError) : Z :=
  match e with AeMissingHeader | AeInvalidToken => 401 | AeInsufficientScope _ => 403 | AeInternal => 500 end.

(** The value of the header, if it is there and is text. *)
Definition extract_bearer_from_request (auth_header : option string) : option string :=
  auth_header ≫= strip_prefix "Bearer ".

(** [validate] is the validation of the token store, where one is configured. *)
Definition from_request (s : ScopeRequirement) (auth_header : option string) (validate : option (string -> outcome SqlxError (option TokenInfo)))
  : outcome ExtractError TokenInfo :=
  let* validate_token := ok_or validate AeInternal in
  let* token := ok_or (extract_bearer_from_request auth_header) AeMissingHeader in
  let* info := map_err (fun _ => AeInternal) (validate_token token) in
  let* info := ok_or info AeInvalidToken in
  ensure scope_check s info else (AeInsufficientScope (scope_description s)) in
  Ok info.

(** ** Who am I (src/hub/src/services/whoami.rs) *)
Record WhoamiAccessToken := mkWhoamiToken { wt_name : string; wt_role : string }.
Record WhoamiAuth := mkWhoamiAuth { wa_kind : string; wa_access_token : WhoamiAccessToken }.
Record WhoamiResponse := mkWhoami { wr_name : string; wr_email : string; wr_orgs : list string; wr_auth : WhoamiAuth }.
Definition build_response (token_info : TokenInfo) : WhoamiResponse :=
  mkWhoami (ti_username token_info) "" [] (mkWhoamiAuth "access_token" (mkWhoamiToken (ti_token_name token_info) (ti_scope token_info))).

(** The tokens of a user, the newest first; rows of one time come in any order. *)
Definition newest_first (a b : token_row) : Prop := tk_created_at b <= tk_created_at a.
#[local] Instance newest_first_dec : RelDecision newest_first := fun a b => Z_le_dec (tk_created_at b) (tk_created_at a).
Definition list_tokens_for_user (fails : nat -> bool) (user_id : string) (d : auth_db) : outcome SqlxError (list TokenMetadata) :=
  if fails 0%nat then Err SqlxFailed
  else Ok (map (fun row => mkTokenMetadata (tk_name row) (tk_scope row) (i64_as_u64 (tk_created_at row))
                             (i64_as_u64 <$> tk_expires_at row) (i64_as_u64 <$> tk_revoked_at row))
             (merge_sort newest_first (map snd (map_to_list (filter (fun entry => tk_user_id entry.2 = user_id) (tokens d)))))).

(** ** Specification: a log of what was issued, limited and revoked *)
Inductive token_event :=
| TkIssued (hash : string) (info : TokenInfo)
| TkExpires (hash : string) (at_ : Z)
| TkRevoked (hash : string).
Record token_status := mkStatus { st_info : TokenInfo; st_expires : option Z; st_revoked : bool }.

Definition update_status (h : string) (st : option token_status) (ev : token_event) : option token_status :=
  match ev with
  | TkIssued h' info => if (h' =? h)%string then Some (mkStatus info None false) else st
  | TkExpires h' at_ => if (h' =? h)%string then (fun st => mkStatus (st_info st) (Some at_) (st_revoked st)) <$> st else st
  | TkRevoked h' => if (h' =? h)%string then (fun st => mkStatus (st_info st) (st_expires st) true) <$> st else st
  end.
Definition status (h : string) (log : list token_event) : option token_status := fold_left (update_status h) log None.

(** Who a token of this status is, at a time. *)
Definition bearer_of (now : Z) (st : option token_status) : option TokenInfo :=
  match st with
  | Some (mkStatus info expires false) => if match expires with Some exp => exp <? now | None => false end then None else Some info
  | _ => None
  end.

(** The calls of the store, and the events they leave in the log. *)
Inductive token_call :=
| CallCreate (uuid username name scope : string)
| CallCreateFor (uuid user_id name scope : string)
| CallRevoke (token : string)
| CallExpire (token : string) (at_ : Z).

Section Spec.
Context `{HexCrate, Hmac} (salt : string).

Definition run_token_call (fails : nat -> bool) (now : Z) (c : token_call) (d : auth_db) : auth_db * list token_event :=
  match c with
  | CallCreate uuid username name scope =>
      match create_token salt fails now uuid username name scope d with
      | (d', Ok token) => (d', [TkIssued (hash_token salt token) (mkTokenInfo (default "" (find_user username d')) username name scope)])
      | (d', _) => (d', [])
      end
  | CallCreateFor uuid user_id name scope =>
      match create_token_for_user salt fails now uuid user_id name scope d with
      | (d', Ok token) => (d', [TkIssued (hash_token salt token) (mkTokenInfo user_id (default "" (us_username <$> users d' !! user_id)) name scope)])
      | (d', _) => (d', [])
      end
  | CallRevoke token =>
      match revoke_token salt fails now token d with
      | (d', Ok true) => (d', [TkRevoked (hash_token salt token)])
      | (d', _) => (d', [])
      end
  | CallExpire token at_ =>
      match set_token_expiration salt fails token at_ d with
      | (d', Ok _) => (d', [TkExpires (hash_token salt token) (as_i64 at_)])
      | (d', _) => (d', [])
      end
  end.

Inductive store_reached : auth_db -> list token_event -> Prop :=
| reached_empty : store_reached empty_auth_db []
| reached_call d log fails now c d' evs : store_reached d log -> run_token_call fails now c d = (d', evs) -> store_reached d' (log ++ evs).

(** ** The tables are the log *)
Definition status_of (d : auth_db) (h : string) : option token_status :=
  row ← tokens d !! h; user ← users d !! tk_user_id row;
  Some (mkStatus (mkTokenInfo (tk_user_id row) (us_username user) (tk_name row) (tk_scope row)) (tk_expires_at row)
          (match tk_revoked_at row with Some _ => true | None => false end)).

Record store_ok (d : auth_db) (log : list token_event) : Prop := {
  sk_status : forall h, status h log = status_of d h;
  sk_user : forall h row, tokens d !! h = Some row -> is_Some (users d !! tk_user_id row);
  sk_names : forall a b ra rb, users d !! a = Some ra -> users d !! b = Some rb -> us_username ra = us_username rb -> a = b;
  sk_issued : forall h info, TkIssued h info ∈ log ->
    is_Some (tokens d !! h) /\ exists row, users d !! ti_user_id info = Some row /\ us_username row = ti_username info;
  sk_revoked : forall h, TkRevoked h ∈ log -> exists st, status h log = Some st /\ st_revoked st = true;
}.

Lemma status_snoc h log ev : status h (log ++ [ev]) = update_status h (status h log) ev.
Proof. unfold status. by rewrite fold_left_app. Qed.

Lemma store_ok_start : store_ok empty_auth_db [].
Proof. split; try done; by intros ? ? ?%elem_of_nil || by intros ? ?%elem_of_nil. Qed.

Lemma find_user_Some username d id : find_user username d = Some id ->
  exists row, users d !! id = Some row /\ us_username row = username.
Proof.
  unfold find_user. destruct (map_to_list _) as [|[i row] l] eqn:E; [done|]. cbn. intros [= ->].
  assert ((id, row) ∈ map_to_list (filter (fun entry => us_username entry.2 = username) (users d))) as Hin by (rewrite E; by left).
  apply elem_of_map_to_list, map_lookup_filter_Some in Hin as [? ?]. by exists row.
Qed.
Lemma find_user_None username d : find_user username d = None -> forall id row, users d !! id = Some row -> us_username row <> username.
Proof.
  unfold find_user. intros E id row Hr Hn.
  assert ((id, row) ∈ map_to_list (filter (fun entry => us_username entry.2 = username) (users d))) as Hin
    by (by apply elem_of_map_to_list, map_lookup_filter_Some).
  destruct (map_to_list _); [by apply elem_of_nil in Hin|done].
Qed.
Lemma find_user_spec d log username id row : store_ok d log -> users d !! id = Some row -> us_username row = username -> find_user username d = Some id.
Proof.
  intros Hok Hr Hn. destruct (find_user username d) as [id'|] eqn:E.
  - apply find_user_Some in E as (row' & Hr' & Hn'). f_equal. eapply (sk_names _ _ Hok); [exact Hr'|exact Hr|congruence].
  - by destruct (find_user_None _ _ E _ _ Hr).
Qed.

(** A new user, before any token. *)
Lemma store_ok_user d log user_id username now d' :
  store_ok d log -> insert_user user_id username now d = Some d' -> store_ok d' log /\ users d' !! user_id = Some (mkUserRow username now).
Proof.
  intros [Hst Hu Hn Hi Hr]. unfold insert_user. destruct (users d !! user_id) eqn:Eu; [done|].
  destruct (find_user username d) eqn:Ef; [done|]. intros [= <-]. cbn [users tokens].
  assert (forall id row, users d !! id = Some row -> <[user_id := mkUserRow username now]> (users d) !! id = Some row) as Hkeep.
  { intros id row Hid. rewrite lookup_insert_ne; [done|congruence]. }
  split; [|by rewrite lookup_insert_eq]. split; cbn [users tokens].
  - intros h. rewrite Hst. unfold status_of. cbn [users tokens]. destruct (tokens d !! h) as [row|] eqn:Et; [|done]. cbn.
    destruct (Hu _ _ Et) as [u Hur]. by rewrite Hur, (Hkeep _ _ Hur).
  - intros h row Hrow. destruct (Hu _ _ Hrow) as [u Hur]. exists u. by apply Hkeep.
  - pose proof (find_user_None _ _ Ef) as Hfree.
    intros a b ra rb [[<- <-]|[Hna Ha]]%lookup_insert_Some [[<- <-]|[Hnb Hb]]%lookup_insert_Some He; cbn in He; try done.
    + by destruct (Hfree _ _ Hb).
    + by destruct (Hfree _ _ Ha).
    + by eapply Hn.
  - intros h info Hin. destruct (Hi _ _ Hin) as [Ht (row & Hrow & Hname)]. split; [done|]. exists row. split; [by apply Hkeep|done].
  - done.
Qed.

Lemma store_ok_issue d log h user_id name scope now d' :
  store_ok d log -> insert_token h user_id name scope now d = Some d' ->
  exists user, users d' !! user_id = Some user /\ users d' = users d /\
    store_ok d' (log ++ [TkIssued h (mkTokenInfo user_id (us_username user) name scope)]).
Proof.
  intros [Hst Hu Hn Hi Hr]. unfold insert_token. destruct (tokens d !! h) eqn:Et; [done|]. destruct (users d !! user_id) as [user|] eqn:Eu; [|done].
  intros [= <-]. exists user. cbn [users tokens]. split; [done|]. split; [done|]. split; cbn [users tokens].
  - intros h'. rewrite status_snoc. cbn [update_status]. unfold status_of. cbn [users tokens]. destruct (String.eqb_spec h h') as [<-|Hne].
    + rewrite lookup_insert_eq. cbn. by rewrite Eu.
    + rewrite lookup_insert_ne by done. by rewrite Hst.
  - intros h' row [[<- <-]|[Hne Hrow]]%lookup_insert_Some; [by exists user|by eapply Hu].
  - done.
  - intros h' info [Hin|Hin]%elem_of_app.
    + destruct (Hi _ _ Hin) as [Ht Hrow]. split; [|done]. rewrite lookup_insert_is_Some'. by right.
    + apply list_elem_of_singleton in Hin as [= -> ->]. split; [rewrite lookup_insert_eq; by eexists|]. by exists user.
  - intros h' [Hin|Hin]%elem_of_app; [|by apply list_elem_of_singleton in Hin].
    destruct (Hr _ Hin) as (st & Hs & Hrev). rewrite status_snoc. cbn [update_status]. destruct (String.eqb_spec h h') as [<-|]; [|by exists st].
    rewrite Hst in Hs. unfold status_of in Hs. by rewrite Et in Hs.
Qed.

(** A change of one row that keeps whose token it is. *)
Lemma store_ok_update d log h row row' ev :
  store_ok d log -> tokens d !! h = Some row ->
  tk_user_id row' = tk_user_id row -> tk_name row' = tk_name row -> tk_scope row' = tk_scope row ->
  (ev = TkRevoked h /\ tk_expires_at row' = tk_expires_at row /\ is_Some (tk_revoked_at row') \/
   exists at_, ev = TkExpires h at_ /\ tk_expires_at row' = Some at_ /\ tk_revoked_at row' = tk_revoked_at row) ->
  store_ok (set_token_row h row' d) (log ++ [ev]).
Proof.
  intros [Hst Hu Hn Hi Hr] Hrow Eu Enm Esc Hev.
  assert (forall h', status h' (log ++ [ev]) = status_of (set_token_row h row' d) h') as Hst'.
  { intros h'. rewrite status_snoc, Hst. unfold status_of, set_token_row. cbn [users tokens].
    destruct (decide (h = h')) as [<-|Hne].
    - rewrite Hrow, lookup_insert_eq. cbn. rewrite Eu, Enm, Esc. destruct (Hu _ _ Hrow) as [u Hur]. rewrite Hur. cbn.
      destruct Hev as [(-> & -> & [z ->])|(at_ & -> & -> & ->)]; cbn; by rewrite String.eqb_refl.
    - rewrite lookup_insert_ne by done. destruct Hev as [(-> & _)|(at_ & -> & _)]; cbn [update_status]; by destruct (String.eqb_spec h h'). }
  split; [exact Hst'|..]; unfold set_token_row; cbn [users tokens].
  - intros h' r [[<- <-]|[Hne Hr']]%lookup_insert_Some; [rewrite Eu; by eapply Hu|by eapply Hu].
  - done.
  - intros h' info [Hin|Hin]%elem_of_app; [|apply list_elem_of_singleton in Hin; by destruct Hev as [(-> & _)|(at_ & -> & _)]].
    destruct (Hi _ _ Hin) as [Ht Hrow']. split; [|done]. rewrite lookup_insert_is_Some'. by right.
  - assert (forall st, st_revoked st = true -> forall h', exists st', update_status h' (Some st) ev = Some st' /\ st_revoked st' = true) as Hkeep.
    { intros st Hs h'. destruct Hev as [(-> & _)|(at_ & -> & _)]; cbn [update_status]; destruct (h =? h')%string; cbn; eauto. }
    intros h' [Hin|Hin]%elem_of_app.
    + destruct (Hr _ Hin) as (st & Hs & Hrev). rewrite status_snoc, Hs. by apply Hkeep.
    + apply list_elem_of_singleton in Hin as <-. destruct Hev as [(E & _)|(at_ & E & _)]; [|done]. injection E as ->.
      rewrite status_snoc, Hst. cbn [update_status]. rewrite String.eqb_refl. unfold status_of. rewrite Hrow. cbn.
      destruct (Hu _ _ Hrow) as [u ->]. cbn. by eexists.
Qed.

Lemma store_ok_expire_missing d log h at_ : store_ok d log -> tokens d !! h = None -> store_ok d (log ++ [TkExpires h at_]).
Proof.
  intros [Hst Hu Hn Hi Hr] Hrow.
  assert (forall h', status h' (log ++ [TkExpires h at_]) = status h' log) as Hsame.
  { intros h'. rewrite status_snoc. cbn [update_status]. destruct (String.eqb_spec h h') as [<-|]; [|done].
    rewrite Hst. unfold status_of. by rewrite Hrow. }
  split; [intros h'; by rewrite Hsame|done..| |].
  - intros h' info [Hin|Hin]%elem_of_app; [by apply Hi|by apply list_elem_of_singleton in Hin].
  - intros h' [Hin|Hin]%elem_of_app; [rewrite Hsame; by apply Hr|by apply list_elem_of_singleton in Hin].
Qed.

Lemma create_token_ok fails now uuid username name scope d d' log token :
  store_ok d log -> create_token salt fails now uuid username name scope d = (d', Ok token) ->
  exists user_id, find_user username d' = Some user_id /\
    store_ok d' (log ++ [TkIssued (hash_token salt token) (mkTokenInfo user_id username name scope)]).
Proof.
  intros Hok. unfold create_token. destruct (fails 0%nat || fails 1%nat); [done|].
  assert (forall n d0 user_id row, store_ok d0 log -> users d0 !! user_id = Some row -> us_username row = username ->
    (match insert_token (hash_token salt (fresh_token uuid)) user_id name scope (as_i64 now) d0 with
     | Some d'' => if fails n || fails (S n) then (d, Err SqlxFailed) else (d'', Ok (fresh_token uuid))
     | None => (d, Err SqlxFailed)
     end) = (d', Ok token) ->
    exists user_id, find_user username d' = Some user_id /\
      store_ok d' (log ++ [TkIssued (hash_token salt token) (mkTokenInfo user_id username name scope)])) as Hfinish.
  { intros n d0 user_id row Hok0 Hu Hn. destruct (insert_token _ _ _ _ _ d0) as [d''|] eqn:Ei; [|done].
    destruct (_ || _); [done|]. intros [= -> <-]. destruct (store_ok_issue _ _ _ _ _ _ _ _ Hok0 Ei) as (user & Hu' & Eu & Hok'). exists user_id.
    rewrite Eu, Hu in Hu'. injection Hu' as <-. rewrite Hn in Hok'. split; [|exact Hok'].
    eapply find_user_spec; [exact Hok'|by rewrite Eu|done]. }
  destruct (find_user username d) as [existing|] eqn:Ef.
  - apply find_user_Some in Ef as (row & Hr & Hn). by eapply Hfinish.
  - destruct (16 <=? _)%nat; [|done]. destruct (insert_user _ _ _ d) as [d1|] eqn:Eu; [|done]. destruct (fails 2%nat); [done|].
    destruct (store_ok_user _ _ _ _ _ _ Hok Eu) as [Hok1 Hu1]. by eapply Hfinish.
Qed.

Lemma store_reached_ok d log : store_reached d log -> store_ok d log.
Proof.
  induction 1 as [|d log fails now c d' evs _ IH E]; [apply store_ok_start|].
  destruct c as [uuid username name scope|uuid user_id name scope|token|token at_]; cbn [run_token_call] in E.
  - destruct (create_token _ _ _ _ _ _ _ d) as [d1 r] eqn:Ec. destruct r as [token|e|]; injection E as <- <-.
    + destruct (create_token_ok _ _ _ _ _ _ _ _ _ _ IH Ec) as (uid & -> & Hok). exact Hok.
    + rewrite app_nil_r. replace d1 with d; [done|]. unfold create_token in Ec. repeat case_match; by simplify_eq.
    + rewrite app_nil_r. replace d1 with d; [done|]. unfold create_token in Ec. repeat case_match; by simplify_eq.
  - unfold create_token_for_user in E. destruct (fails 0%nat); [injection E as <- <-; by rewrite app_nil_r|].
    destruct (insert_token _ _ _ _ _ d) as [d1|] eqn:Ei; injection E as <- <-; [|by rewrite app_nil_r].
    destruct (store_ok_issue _ _ _ _ _ _ _ _ IH Ei) as (user & Hu & _ & Hok). by rewrite Hu.
  - unfold revoke_token in E. destruct (fails 0%nat); [injection E as <- <-; by rewrite app_nil_r|].
    destruct (tokens d !! hash_token salt token) as [[user_id name scope created expires [revoked|]]|] eqn:Et; injection E as <- <-;
      try (by rewrite app_nil_r). eapply store_ok_update; [exact IH|exact Et|done..|]. left. split; [done|]. split; [done|by eexists].
  - unfold set_token_expiration in E. destruct (fails 0%nat); [injection E as <- <-; by rewrite app_nil_r|].
    destruct (tokens d !! hash_token salt token) as [row|] eqn:Et; injection E as <- <-; [|by apply store_ok_expire_missing].
    eapply store_ok_update; [exact IH|exact Et|done..|]. right. by eexists.
Qed.

Lemma validate_token_from_log d log fails now token : store_reached d log ->
  validate_token salt fails now token d =
    (if fails 0%nat then Err SqlxFailed else Ok (bearer_of (as_i64 now) (status (hash_token salt token) log))).
Proof.
  intros Hr. pose proof (store_reached_ok _ _ Hr) as Hok. unfold validate_token. destruct (fails 0%nat); [done|].
  rewrite (sk_status _ _ Hok). unfold status_of.
  destruct (tokens d !! hash_token salt token) as [row|]; [|done]. cbn. destruct (users d !! tk_user_id row) as [user|]; [|done]. cbn.
  by destruct (tk_revoked_at row), (tk_expires_at row) as [exp|]; try done; destruct (exp <? as_i64 now).
Qed.

(** C10: a token is good exactly while the log says so.  Whatever calls were made
    on the store, with statements failing anywhere, a token validates exactly
    when its hash was issued, has not been revoked and its last expiration has
    not passed, and is then the user, name and scope it was issued for; a
    revoked one never validates again, no hash is issued twice, and tokens
    issued to one username carry one user id, to different ones different ids. *)
Theorem token_store_refines_log d log fails now token : store_reached d log ->
  validate_token salt fails now token d =
    (if fails 0%nat then Err SqlxFailed else Ok (bearer_of (as_i64 now) (status (hash_token salt token) log))) /\
  (TkRevoked (hash_token salt token) ∈ log -> forall info, validate_token salt fails now token d <> Ok (Some info)) /\
  (forall h info d' evs fails' now' c, TkIssued h info ∈ log -> run_token_call fails' now' c d = (d', evs) ->
     forall info', TkIssued h info' ∉ evs) /\
  (forall h h' info info', TkIssued h info ∈ log -> TkIssued h' info' ∈ log ->
     (ti_username info = ti_username info' <-> ti_user_id info = ti_user_id info')).
Proof.
  intros Hr. pose proof (store_reached_ok _ _ Hr) as Hok.
  pose proof (validate_token_from_log d log fails now token Hr) as Hval.
  split; [exact Hval|]. split; [|split].
  - intros Hrev info E. rewrite Hval in E. destruct (fails 0%nat); [done|]. destruct (sk_revoked _ _ Hok _ Hrev) as ([i e r] & Hs & Hst).
    rewrite Hs in E. cbn in Hst. by subst r.
  - intros h info d' evs fails' now' c Hin E info' Hin'.
    assert (store_reached d' (log ++ evs)) as Hr' by (by econstructor). destruct (sk_issued _ _ Hok _ _ Hin) as [[row Hrow] _].
    assert (tokens d !! h = None) as Hnone; [|congruence]. clear -E Hin'. 
    assert (forall user_id name scope now d d', insert_token h user_id name scope now d = Some d' -> tokens d !! h = None) as Hins.
    { intros ? ? ? ? ? ?. unfold insert_token. by destruct (tokens _ !! h). }
    destruct c as [uuid username name scope|uuid user_id name scope|token|token at_]; cbn [run_token_call] in E.
    + destruct (create_token _ _ _ _ _ _ _ d) as [d1 [token|e|]] eqn:Ec; injection E as <- <-; try (by apply elem_of_nil in Hin').
      apply list_elem_of_singleton in Hin' as [= -> ->]. unfold create_token in Ec.
      repeat case_match; simplify_eq; try (by eapply Hins).
      match goal with Hu : insert_user _ _ _ _ = Some ?d1, Hi : insert_token _ _ _ _ _ ?d1 = Some _ |- _ =>
        apply Hins in Hi; unfold insert_user in Hu; repeat case_match; by simplify_eq end.
    + unfold create_token_for_user in E. repeat case_match; simplify_eq; try (by apply elem_of_nil in Hin').
      apply list_elem_of_singleton in Hin' as [= -> ->]. by eapply Hins.
    + unfold revoke_token in E. repeat case_match; simplify_eq; try (by apply elem_of_nil in Hin'); by apply list_elem_of_singleton in Hin'.
    + unfold set_token_expiration in E. repeat case_match; simplify_eq; try (by apply elem_of_nil in Hin'); by apply list_elem_of_singleton in Hin'.
  - intros h h' info info' Hin Hin'. destruct (sk_issued _ _ Hok _ _ Hin) as (_ & row & Hrow & Hn), (sk_issued _ _ Hok _ _ Hin') as (_ & row' & Hrow' & Hn').
    split; intros E; [|congruence]. eapply (sk_names _ _ Hok); [exact Hrow|exact Hrow'|congruence].
Qed.
(** The words of a scope that answer a requirement. *)
Definition requirement_met (s : ScopeRequirement) (info : TokenInfo) : Prop :=
  match s with
  | AuthAny => True
  | AuthRead => "read" ∈ split_whitespace (ti_scope info) \/ "write" ∈ split_whitespace (ti_scope info)
  | AuthWrite => "write" ∈ split_whitespace (ti_scope info)
  end.
Lemma scope_check_spec s info : scope_check s info = true <-> requirement_met s info.
Proof.
  unfold scope_check, scope_allows, has_word. destruct s; cbn; [done|by rewrite orb_true_iff, !bool_decide_eq_true|].
  by rewrite orb_false_r, bool_decide_eq_true.
Qed.

(** C11: requests are authenticated from the log.  Whatever happened to the store,
    a handler gets a user exactly when the request carries a bearer token that
    the log says is good and whose scope has the word the handler asks for
    (write answers for read); every other request is refused with the error
    that says why, and a failing statement never authenticates anybody. *)
Theorem request_is_authenticated d log fails now s auth_header : store_reached d log ->
  let who token := bearer_of (as_i64 now) (status (hash_token salt token) log) in
  let carries token := auth_header = Some ("Bearer " +:+ token) in
  match from_request s auth_header (Some (fun token => validate_token salt fails now token d)) with
  | Ok info => exists token, carries token /\ fails 0%nat = false /\ who token = Some info /\ requirement_met s info
  | Err AeMissingHeader => forall token, ~ carries token
  | Err AeInternal => fails 0%nat = true /\ exists token, carries token
  | Err AeInvalidToken => exists token, carries token /\ fails 0%nat = false /\ who token = None
  | Err (AeInsufficientScope required) => required = scope_description s /\
      exists token info, carries token /\ fails 0%nat = false /\ who token = Some info /\ ~ requirement_met s info
  | Panic => False
  end.
Proof.
  intros Hr who carries. unfold from_request, extract_bearer_from_request. cbn [ok_or].
  destruct auth_header as [header|]; [|by intros token].
  change (Some header ≫= strip_prefix "Bearer ") with (strip_prefix "Bearer " header).
  destruct (strip_prefix "Bearer " header) as [token|] eqn:Es; cbn [ok_or].
  - apply strip_prefix_Some in Es. subst header. rewrite (validate_token_from_log _ _ _ _ _ Hr).
    destruct (fails 0%nat) eqn:Ef; cbn [map_err ok_or]; [by split; [|exists token]|].
    destruct (bearer_of _ _) as [info|] eqn:Ew; cbn [ok_or]; [|by exists token].
    destruct (scope_check s info) eqn:Ec.
    + exists token. repeat (split; [done|]). by apply scope_check_spec.
    + split; [done|]. exists token, info. repeat (split; [done|]). rewrite <- scope_check_spec. by rewrite Ec.
  - intros token [= ->]. by rewrite strip_prefix_app in Es.
Qed.
End Spec.

(** ** The salt of several instances ([get_or_generate_hash_salt])

    Each instance looks for the salt in the database, makes one if there is
    none, inserts it unless one was inserted in the meantime, and looks again;
    the statements of the instances interleave, and each can fail. *)
Inductive boot :=
| Booting
| Generated (new_salt : string)
| Inserted (new_salt : string)
| Booted (salt : string)
| BootFailed.

(** One step of one instance; the first argument is the row of the salt. *)
Inductive boot_step : option string -> boot -> option string -> boot -> Prop :=
| bs_loaded salt : boot_step (Some salt) Booting (Some salt) (Booted salt)
| bs_generated new_salt : boot_step None Booting None (Generated new_salt)
| bs_insert_or_ignore config new_salt : boot_step config (Generated new_salt) (Some (default new_salt config)) (Inserted new_salt)
| bs_reselect config new_salt : boot_step config (Inserted new_salt) config (Booted (default new_salt config))
| bs_failed config b : match b with Booted _ | BootFailed => False | _ => True end -> boot_step config b config BootFailed.

Record cluster := mkCluster { cl_salt : option string; cl_instances : list boot }.
Inductive cluster_step : cluster -> cluster -> Prop :=
| cs_start config bs : cluster_step (mkCluster config bs) (mkCluster config (bs ++ [Booting]))
| cs_step config config' bs i b b' : bs !! i = Some b -> boot_step config b config' b' ->
    cluster_step (mkCluster config bs) (mkCluster config' (<[i := b']> bs)).

Definition boot_ok (config : option string) (b : boot) : Prop :=
  match b with Booted salt => config = Some salt | Inserted _ => is_Some config | _ => True end.

Lemma boot_ok_step config b config' b' : boot_step config b config' b' ->
  boot_ok config b -> boot_ok config' b' /\ forall other, boot_ok config other -> boot_ok config' other.
Proof.
  intros Hs Hb. destruct Hs; cbn in Hb |- *; try (by split; [done|]).
  - split; [done|]. intros [| | |s|]; cbn; try done. by intros ->.
  - split; [|done]. by destruct Hb as [s ->].
Qed.

Lemma cluster_ok c c' : rtc cluster_step c c' -> Forall (boot_ok (cl_salt c)) (cl_instances c) -> Forall (boot_ok (cl_salt c')) (cl_instances c').
Proof.
  induction 1 as [|c c1 c' Hs _ IH]; [done|]. intros Hc. apply IH. clear IH. destruct Hs as [config bs|config config' bs i b b' Hi Hs]; cbn in *.
  - apply Forall_app. split; [done|]. by constructor.
  - pose proof (proj1 (Forall_lookup _ _) Hc _ _ Hi) as Hb. destruct (boot_ok_step _ _ _ _ Hs Hb) as [Hb' Hother].
    apply Forall_insert; [|done]. by eapply Forall_impl.
Qed.

(** all instances hash with one salt.  However the starts of any number of
    instances on one database interleave and fail, every instance that started
    without a salt of its own has the salt that is in the database, so a token
    that one of them issued is found by all of them. *)
Theorem instances_share_the_salt config c i j salt salt' :
  rtc cluster_step (mkCluster config []) c ->
  cl_instances c !! i = Some (Booted salt) -> cl_instances c !! j = Some (Booted salt') ->
  cl_salt c = Some salt /\ salt = salt'.
Proof.
  intros Hr Hi Hj. pose proof (cluster_ok _ _ Hr (Forall_nil_2 _)) as Hok.
  pose proof (proj1 (Forall_lookup _ _) Hok _ _ Hi) as H1'. pose proof (proj1 (Forall_lookup _ _) Hok _ _ Hj) as H2'.
  cbn in H1', H2'. split; [done|congruence].
Qed.

(** Two instances that both found no salt. *)
Lemma instances_share_the_salt_witness : exists c,
  rtc cluster_step (mkCluster None []) c /\ cl_instances c = [Booted "two"; Booted "two"] /\ cl_salt c = Some "two".
Proof.
  assert (rtc cluster_step (mkCluster None []) (mkCluster (Some "two") [Booted "two"; Booted "two"])) as Hr.
  { eapply rtc_l; [apply cs_start|]. eapply rtc_l; [apply cs_start|]. cbn [app].
    eapply rtc_l; [by apply (cs_step _ None _ 0 Booting (Generated "one")); [|constructor]|]. cbn.
    eapply rtc_l; [by apply (cs_step _ None _ 1 Booting (Generated "two")); [|constructor]|]. cbn.
    eapply rtc_l; [by apply (cs_step _ (Some "two") _ 1 (Generated "two") (Inserted "two")); [|constructor]|]. cbn.
    eapply rtc_l; [by apply (cs_step _ (Some "two") _ 0 (Generated "one") (Inserted "one")); [|apply (bs_insert_or_ignore (Some "two"))]|]. cbn.
    eapply rtc_l; [by apply (cs_step _ (Some "two") _ 0 (Inserted "one") (Booted "two")); [|apply (bs_reselect (Some "two"))]|]. cbn.
    eapply rtc_l; [by apply (cs_step _ (Some "two") _ 1 (Inserted "two") (Booted "two")); [|apply (bs_reselect (Some "two"))]|]. constructor. }
  eexists. split; [exact Hr|]. split; [done|].
  exact (proj1 (instances_share_the_salt None _ 0 1 "two" "two" Hr eq_refl eq_refl)).
Defined.

(** ** A run of the store *)
#[local] Existing Instances Model.hex.
#[local] Instance sample_hmac : Hmac := fun key data => Model.digest (fold_left Model.mix key 1) data.

Definition sample_calls : list (Z * token_call) :=
  [(1000, CallCreate "11111111-1111-4111-8111-111111111111" "alice" "laptop" "read write");
   (1001, CallCreate "22222222-2222-4222-8222-222222222222" "alice" "ci" "read");
   (1002, CallCreate "33333333-3333-4333-8333-333333333333" "bob" "laptop" "read");
   (1003, CallExpire "hf_33333333333343338333333333333333" 2000);
   (1004, CallRevoke "hf_22222222222242228222222222222222")].
Definition replay (salt : string) (fails : nat -> bool) (st : auth_db * list token_event) (call : Z * token_call) :=
  let '(d, evs) := run_token_call salt fails call.1 call.2 st.1 in (d, st.2 ++ evs).

Lemma replay_reached salt fails calls st : store_reached salt st.1 st.2 ->
  store_reached salt (fold_left (replay salt fails) calls st).1 (fold_left (replay salt fails) calls st).2.
Proof.
  revert st. induction calls as [|[now call] calls IH]; intros st Hst; cbn [fold_left]; [done|]. apply IH. unfold replay. cbn [fst snd].
  destruct (run_token_call _ _ now call st.1) as [d evs] eqn:E. cbn [fst snd]. by econstructor.
Qed.

Definition sample_store : auth_db * list token_event := fold_left (replay "salt" (fun _ => false)) sample_calls (empty_auth_db, []).

Lemma sample_store_reached : store_reached "salt" sample_store.1 sample_store.2.
Proof. apply (replay_reached "salt" _ sample_calls (empty_auth_db, [])). constructor. Qed.

Lemma logged_revocation h log :
  existsb (fun ev => match ev with TkRevoked h' => (h' =? h)%string | _ => false end) log = true -> TkRevoked h ∈ log.
Proof.
  intros ([| |h'] & Hin & Hh)%existsb_exists; try done. apply String.eqb_eq in Hh as <-. by apply list_elem_of_In.
Qed.

Lemma token_store_refines_log_witness :
  let validate now token := validate_token "salt" (fun _ => false) now token sample_store.1 in
  store_reached "salt" sample_store.1 sample_store.2 /\
  (ti_username <$> unwrap_or (validate 1500 "hf_11111111111141118111111111111111") None) = Some "alice" /\
  (forall info, validate 1500 "hf_22222222222242228222222222222222" <> Ok (Some info)) /\
  (ti_scope <$> unwrap_or (validate 2000 "hf_33333333333343338333333333333333") None) = Some "read" /\
  validate 2001 "hf_33333333333343338333333333333333" = Ok None.
Proof.
  intros validate. split; [exact sample_store_reached|]. split; [vm_compute; reflexivity|]. split; [|split; vm_compute; reflexivity].
  apply (token_store_refines_log "salt" _ _ (fun _ => false) 1500 "hf_22222222222242228222222222222222" sample_store_reached).
  apply logged_revocation. vm_compute. reflexivity.
Defined.

Lemma request_is_authenticated_witness :
  let validate now token := validate_token "salt" (fun _ => false) now token sample_store.1 in
  store_reached "salt" sample_store.1 sample_store.2 /\
  from_request AuthWrite (Some "Bearer hf_33333333333343338333333333333333") (Some (validate 1500)) =
    Err (AeInsufficientScope "write access") /\
  from_request AuthRead (Some "Bearer hf_22222222222242228222222222222222") (Some (validate 1500)) = Err AeInvalidToken /\
  is_ok (from_request AuthWrite (Some "Bearer hf_11111111111141118111111111111111") (Some (validate 1500))) = true /\
  exists token info, Some "Bearer hf_11111111111141118111111111111111" = Some ("Bearer " +:+ token) /\
    bearer_of (as_i64 1500) (status (hash_token "salt" token) sample_store.2) = Some info /\ "write" ∈ split_whitespace (ti_scope info).
Proof.
  intros validate. split; [exact sample_store_reached|].
  assert (is_ok (from_request AuthWrite (Some "Bearer hf_11111111111141118111111111111111") (Some (validate 1500))) = true) as Hok
    by (vm_compute; reflexivity).
  split; [vm_compute; reflexivity|]. split; [vm_compute; reflexivity|]. split; [exact Hok|].
  pose proof (request_is_authenticated "salt" _ _ (fun _ => false) 1500 AuthWrite (Some "Bearer hf_11111111111141118111111111111111") sample_store_reached) as Ht.
  cbv zeta in Ht. fold validate in Ht. change (fun token : string => validate 1500 token) with (validate 1500) in Ht.
  destruct (from_request _ _ _) as [info| |]; [|done..]. destruct Ht as (token & Ha & _ & Hb & Hc).
  exists token, info. split; [exact Ha|]. split; [exact Hb|exact Hc].
Defined.
