(* ===== verification/HubLfs.v ===== *)
(** * Git LFS objects through the Hub (src/hub/src/lfs_proxy, src/hub/src/services/lfs_object.rs, lfs_upload.rs, src/hub/src/api/lfs_proxy.rs)

    A client uploads and downloads objects through the Hub with a proxy token
    that is good for one object and one operation.  An upload is spooled to a
    temporary file, checked against the object id and forwarded; a download is
    streamed from the CAS server with a bound on its size.  The host's answers
    to the calls of an upload are those of [Payload]. *)
From stdpp Require Import gmap strings.
From Stdlib Require Import Ascii.
From S2P Require Import Prelude Bytes Crates MerkleHash Hash Text TokenCrates Tokens CasAuth HubSigner Storage Quota Payload HubMetadata HubTree HubPrograms HubTokens.

Local Open Scope string_scope.
Local Open Scope list_scope.
Local Open Scope Z_scope.

(** percent_encoding: [percent_decode_str(..).decode_utf8()]; a text without
    escapes is its own decoding. *)
Class PercentDecode := percent_decode : string -> option string.
Class PercentDecodeLaws `{PercentDecode} : Prop :=
  percent_decode_plain : forall s, contains_char "%"%char s = false -> percent_decode s = Some s.

(** ** Tokens of a request (src/hub/src/lfs_proxy/tokens.rs) *)
Section Requests.
Context `{Base64, PercentDecode}.

(** The header is [None] when it is absent or not text. *)
Definition extract_token (auth_header : option string) : option string :=
  auth_str ← auth_header;
  match strip_prefix "Bearer " auth_str with
  | Some token => Some token
  | None =>
      encoded ← strip_prefix "Basic " auth_str;
      decoded ← std_decode encoded;
      creds ← from_utf8 decoded;
      snd <$> split_once ":"%char creds
  end.

Fixpoint query_token (pairs : list string) : option string :=
  match pairs with
  | [] => None
  | item :: pairs =>
      match split_once "="%char item with
      | Some (key, value) =>
          if (key =? "token")%string then
            match percent_decode value with
            | Some decoded => if starts_with "proxy_" decoded then Some decoded else query_token pairs
            | None => query_token pairs
            end
          else query_token pairs
      | None => query_token pairs
      end
  end.

Definition extract_proxy_token (query : option string) (auth_header : option string) : option string :=
  match query ≫= fun query => query_token (split_on "&"%char query) with
  | Some token => Some token
  | None => extract_token auth_header
  end.
End Requests.

Definition validate_oid (oid : string) : bool := (String.length oid =? 64)%nat && all_hexdigits oid.

(** ** The guard (src/hub/src/lfs_proxy/tokens.rs, src/hub/src/services/lfs_object.rs) *)
Inductive LfsObjectGuardError := GeInvalidOid | GeInvalidToken.

Section Guard.
Context `{Base64, TokenJson, Ed25519}.

Definition validate_proxy_token (s : XetSigner) (now : option Z) (token expected_oid expected_operation : string) : bool :=
  match verify_proxy_token s now token with
  | None => false
  | Some claims =>
      if negb (token_type claims =? "proxy")%string then false
      else if negb (has_word ("lfs-" +:+ expected_operation) (scope claims)) then false
      else if negb (bool_decide (oid claims = Some expected_oid)) then false
      else if negb (bool_decide (operation claims = Some expected_operation)) then false
      else true
  end.

Definition guard_authorize (s : XetSigner) (now : option Z) (token oid : string) (op : LfsOperation) : outcome LfsObjectGuardError unit :=
  ensure validate_oid oid else GeInvalidOid in
  ensure validate_proxy_token s now token oid (claim_value op) else GeInvalidToken in
  Ok tt.
End Guard.

(** ** Bounded streams (src/hub/src/lfs_proxy/streaming.rs) *)
Inductive BodyError := BeUpstream (timeout : bool) | BeExceeded (max_bytes : Z).

Fixpoint max_bytes_stream (max_bytes bytes_read : Z) (stream : list (outcome bool (list byte))) : list (outcome BodyError (list byte)) :=
  match stream with
  | [] => []
  | Ok chunk :: stream =>
      let bytes_read := as_u64 (bytes_read + len chunk) in
      (if max_bytes <? bytes_read then Err (BeExceeded max_bytes) else Ok chunk) :: max_bytes_stream max_bytes bytes_read stream
  | Err timeout :: stream => Err (BeUpstream timeout) :: max_bytes_stream max_bytes bytes_read stream
  | Panic :: stream => Panic :: max_bytes_stream max_bytes bytes_read stream
  end.

(** ** Uploads (src/hub/src/services/lfs_upload.rs) *)
Inductive LfsUploadStoreError :=
| LuCreateTempDir | LuCreateTempFile | LuReadPayload (message : string) | LuPayloadTooLarge (actual max : Z)
| LuWriteTempFile | LuFlushTempFile | LuQuota.
Record StoredLfsUpload := mkStored { su_data : list byte; su_size : Z; su_sha256 : string; su_reservation : option TempReservation }.
Inductive LfsUploadServiceError :=
| LuStore (e : LfsUploadStoreError)
| LuHashMismatch (computed : string) (size : Z)
| LuCas (status : Z) (message : string).

Definition drop_reservation (l : TempQuotaLedger) (r : option TempReservation) : TempQuotaLedger :=
  match r with Some r => reservation_drop l r | None => l end.

Section Uploads.
Context `{HexCrate, Sha2} (host : upload_host).

(** What [write_all] and the two calls around it do to the reservation; writes are numbered. *)
Definition reserve_chunk_space (l : TempQuotaLedger) (r : option TempReservation) (n : Z)
  : TempQuotaLedger * option TempReservation * outcome LfsUploadStoreError unit :=
  match r with
  | Some r => let '(l, r, answer) := reserve_additional l r n in (l, Some r, map_err (fun _ => LuQuota) answer)
  | None => (l, None, Ok tt)
  end.
Definition commit_chunk (l : TempQuotaLedger) (r : option TempReservation) (n : Z)
  : TempQuotaLedger * option TempReservation * outcome LfsUploadStoreError unit :=
  match r with
  | Some r => let '(l, r, answer) := commit_written l r n in (l, Some r, map_err (fun _ => LuQuota) answer)
  | None => (l, None, Ok tt)
  end.

Fixpoint receive (payload : list (outcome string (list byte))) (max_upload_size : Z) (total_bytes : Z) (data : list byte) (hasher : sha256_hasher)
    (writes : nat) (l : TempQuotaLedger) (r : option TempReservation)
  : TempQuotaLedger * option TempReservation * outcome LfsUploadStoreError (Z * list byte * sha256_hasher) :=
  match payload with
  | [] => (l, r, Ok (total_bytes, data, hasher))
  | Err e :: _ => (l, r, Err (LuReadPayload e))
  | Panic :: _ => (l, r, Panic)
  | Ok chunk :: payload =>
      match checked_add total_bytes (len chunk) with
      | None => (l, r, Err LuQuota)
      | Some total_bytes =>
          if max_upload_size <? total_bytes then (l, r, Err (LuPayloadTooLarge total_bytes max_upload_size))
          else
            let '(l, r, reserved) := reserve_chunk_space l r (len chunk) in
            match reserved with
            | Err e => (l, r, Err e)
            | Panic => (l, r, Panic)
            | Ok _ =>
                let hasher := sha256_update hasher chunk in
                if negb (write_ok host writes) then (l, r, Err LuWriteTempFile)
                else
                  let '(l, r, committed) := commit_chunk l r (len chunk) in
                  match committed with
                  | Err e => (l, r, Err e)
                  | Panic => (l, r, Panic)
                  | Ok _ => receive payload max_upload_size total_bytes (data ++ chunk) hasher (S writes) l r
                  end
            end
      end
  end.

(** Without a manager, [manager] is false and the ledger is left alone.  An
    upload that fails drops its reservation; a stored one keeps it. *)
Definition write_payload_to_temp_file_inner (payload : list (outcome string (list byte))) (max_upload_size : Z) (manager : bool) (l : TempQuotaLedger)
  : TempQuotaLedger * outcome LfsUploadStoreError StoredLfsUpload :=
  if negb (dir_created host) then (l, Err LuCreateTempDir)
  else if negb (file_created host) then (l, Err LuCreateTempFile)
  else
    let '(l, reserved) :=
      if manager then
        let '(l, reserved) := manager_reserve (manager_available host) l 0 in
        (l, let* r := map_err (fun _ => LuQuota) reserved in Ok (Some r))
      else (l, Ok None) in
    match reserved with
    | Err e => (l, Err e)
    | Panic => (l, Panic)
    | Ok reservation =>
        let '(l, reservation, received) := receive payload max_upload_size 0 [] sha256_new 0 l reservation in
        match received with
        | Err e => (drop_reservation l reservation, Err e)
        | Panic => (drop_reservation l reservation, Panic)
        | Ok (total_bytes, data, hasher) =>
            if negb (flush_ok host) then (drop_reservation l reservation, Err LuFlushTempFile)
            else (l, Ok (mkStored data total_bytes (hex_encode (sha256_finalize hasher)) reservation))
        end
    end.
Definition write_payload_to_temp_file (payload : list (outcome string (list byte))) (max_upload_size : Z) (l : TempQuotaLedger) :=
  write_payload_to_temp_file_inner payload max_upload_size false l.

(** [reopened]: opening the temporary file again succeeds.  The answer comes
    with the ledger after the temporary file is gone. *)
Definition lfs_upload_service (cas_url oid token : string) (payload : list (outcome string (list byte))) (max_upload_size : Z) (manager : bool)
    (reopened : bool) (l : TempQuotaLedger) : prog (TempQuotaLedger * outcome LfsUploadServiceError unit) :=
  let '(l, stored) := write_payload_to_temp_file_inner payload max_upload_size manager l in
  match stored with
  | Err e => Done (l, Err (LuStore e))
  | Panic => Done (l, Panic)
  | Ok stored_upload =>
      if negb (su_sha256 stored_upload =? oid)%string then
        Done (drop_reservation l (su_reservation stored_upload), Err (LuHashMismatch (su_sha256 stored_upload) (su_size stored_upload)))
      else
        bind* sent := proxy_lfs_upload_from_path cas_url oid (if reopened then Some (su_data stored_upload) else None) (su_size stored_upload) token in
        Done (drop_reservation l (su_reservation stored_upload), map_err (fun e => LuCas (cu_status e) (cu_message e)) sent)
  end.
End Uploads.

(** ** The handlers (src/hub/src/api/lfs_proxy.rs)

    The body of an error is its type; [hh_body] are the pieces of a stream. *)
Record hub_http := mkHubHttp {
  hh_status : Z;
  hh_error_type : option string;
  hh_retry_after : bool;
  hh_content_length : option Z;
  hh_body : list (outcome BodyError (list byte));
}.
Definition error_answer (status : Z) (error_type : string) : hub_http := mkHubHttp status (Some error_type) false None [].
Definition unavailable (error_type : option string) : hub_http := mkHubHttp 503 error_type true None [].
Definition internal_error_response : hub_http := error_answer 500 "InternalError".
Definition bad_gateway_error_response : hub_http := error_answer 502 "BadGateway".
Definition gateway_timeout_error_response : hub_http := error_answer 504 "GatewayTimeout".
Definition missing_authorization : hub_http := error_answer 401 "AuthenticationError".

Definition lfs_object_guard_error_response (e : LfsObjectGuardError) : hub_http :=
  match e with GeInvalidOid => error_answer 400 "ValidationError" | GeInvalidToken => error_answer 401 "AuthenticationError" end.
Definition lfs_upload_store_error_response (e : LfsUploadStoreError) : hub_http :=
  match e with
  | LuCreateTempDir | LuCreateTempFile | LuWriteTempFile | LuFlushTempFile => internal_error_response
  | LuReadPayload _ => error_answer 400 "ClientError"
  | LuPayloadTooLarge _ _ => error_answer 413 "PayloadTooLarge"
  | LuQuota => unavailable (Some "ServiceUnavailable")
  end.

(** [StatusCode::from_u16] takes three digits. *)
Definition is_server_error (status : Z) : bool := (500 <=? status) && (status <? 600).
Definition lfs_upload_service_error_response (e : LfsUploadServiceError) : hub_http :=
  match e with
  | LuStore e => lfs_upload_store_error_response e
  | LuHashMismatch _ _ => error_answer 400 "ValidationError"
  | LuCas status _ =>
      let status_code := if (100 <=? status) && (status <=? 999) then status else 502 in
      if status_code =? 504 then error_answer 504 "GatewayTimeout"
      else if is_server_error status_code then error_answer 502 "CasError"
      else error_answer status_code "CasError"
  end.

Record lfs_config := mkLfsConfig {
  lc_cas_url : string;
  lc_max_upload_size : Z;
  lc_max_download_size : Z;
  lc_temp_quota_bytes : Z;
  lc_temp_min_free_bytes : Z;
}.
Record lfs_request := mkLfsRequest { lr_query : option string; lr_authorization : option string; lr_oid : string }.

Section Handlers.
Context `{Base64, TokenJson, Ed25519, PercentDecode, HexCrate, Sha2}.
Context (config : lfs_config) (s : XetSigner).

(** A handler that panics drops the connection: [None].  An upload returns the
    shared ledger, if there is one. *)
Definition lfs_upload (host : upload_host) (reopened : bool) (rq : lfs_request) (payload : list (outcome string (list byte)))
    (temp_quota : option TempQuotaLedger) : prog (option TempQuotaLedger * option hub_http) :=
  match extract_proxy_token (lr_query rq) (lr_authorization rq) with
  | None => Done (temp_quota, Some missing_authorization)
  | Some token =>
      call* now := Clock in
      match guard_authorize s now token (lr_oid rq) Upload with
      | Err e => Done (temp_quota, Some (lfs_object_guard_error_response e))
      | Panic => Done (temp_quota, None)
      | Ok _ =>
          match (match temp_quota with Some ledger => Ok ledger | None => ledger_new (lc_temp_quota_bytes config) (lc_temp_min_free_bytes config) end) with
          | Err _ => Done (temp_quota, Some (unavailable None))
          | Panic => Done (temp_quota, None)
          | Ok ledger =>
              bind* result := lfs_upload_service host (lc_cas_url config) (lr_oid rq) token payload (lc_max_upload_size config) true reopened ledger in
              let ledger := match temp_quota with Some _ => Some result.1 | None => None end in
              Done (ledger, match result.2 with
                            | Ok _ => Some (mkHubHttp 200 None false None [])
                            | Err e => Some (lfs_upload_service_error_response e)
                            | Panic => None
                            end)
          end
      end
  end.

Definition download_error_response (e : HubError) : hub_http :=
  match e with
  | HeNotFound => error_answer 404 "NotFoundError"
  | HeCasTimeout => gateway_timeout_error_response
  | _ => bad_gateway_error_response
  end.

Definition lfs_download (rq : lfs_request) : prog (option hub_http) :=
  match extract_proxy_token (lr_query rq) (lr_authorization rq) with
  | None => Done (Some missing_authorization)
  | Some token =>
      call* now := Clock in
      match guard_authorize s now token (lr_oid rq) Download with
      | Err e => Done (Some (lfs_object_guard_error_response e))
      | Panic => Done None
      | Ok _ =>
          bind* result := proxy_lfs_download_streaming (lc_cas_url config) (lc_max_download_size config) (lr_oid rq) token in
          Done (match result with
                | Ok (content_length, stream) =>
                    Some (mkHubHttp 200 None false (if 0 <? content_length then Some content_length else None)
                      (max_bytes_stream (lc_max_download_size config) 0 stream))
                | Err e => Some (download_error_response e)
                | Panic => None
                end)
      end
  end.
End Handlers.

(** ** Specification *)

(** Running a program: [h] answers its calls; the requests it sends to the CAS
    server, and its result. *)
Fixpoint perform {R} (h : forall A, call A -> A) (p : prog R) : list http_request * R :=
  match p with
  | Done r => ([], r)
  | Call c k =>
      let '(sent, r) := perform h (k (h _ c)) in
      (match c with Send rq => rq :: sent | _ => sent end, r)
  end.
Lemma perform_bind {R S} h (p : prog R) (f : R -> prog S) :
  perform h (prog_bind p f) = let '(sent, r) := perform h p in let '(sent', r') := perform h (f r) in (sent ++ sent', r').
Proof.
  induction p as [r|A c k IH]; cbn; [by destruct (perform h (f r))|]. rewrite IH.
  destruct (perform h (k (h A c))) as [sent r]. destruct (perform h (f r)) as [sent' r']. by destruct c.
Qed.

(** A proxy token the Hub signed for this object and this operation, in its lifetime. *)
Definition opens `{Base64, TokenJson, Ed25519} (s : XetSigner) (now : option Z) (token object : string) (op : LfsOperation) : Prop :=
  exists c, verify_token now token (verifying_key (s_signing_key s)) (s_kid s) Proxy = Ok c /\
    oid c = Some object /\ operation c = Some (claim_value op).

(** What a client gets of a stream: the bytes before the first error, and whether there was none. *)
Fixpoint received {E} (body : list (outcome E (list byte))) : list byte * bool :=
  match body with
  | [] => ([], true)
  | Ok chunk :: body => let '(data, complete) := received body in (chunk ++ data, complete)
  | _ => ([], false)
  end.

(** ** Tokens *)
Section Tokens.
Context `{Base64Laws, TokenJsonLaws, Ed25519Laws}.

Lemma verify_token_Proxy now token pk kid' c : verify_token now token pk kid' Proxy = Ok c <-> verify_token_any_kind now token pk kid' = Ok (Proxy, c).
Proof.
  unfold verify_token. destruct (verify_token_any_kind now token pk kid') as [[k c']| |]; [|split; discriminate..].
  destruct (decide (k = Proxy)) as [->|]; [by split; intros [= ->]|]. split; [discriminate|congruence].
Qed.

Lemma verified_claims now token pk kid' k c : verify_token_any_kind now token pk kid' = Ok (k, c) ->
  claims_valid k c /\ unverified_token_kid token = Ok kid' /\ kid c = kid'.
Proof.
  intros Hv. destruct (verify_Ok _ _ _ _ _ _ Hv) as (hp & m & sp & sg & t & Hp & (hd & Hd & Hk) & _ & _ & _ & _ & Hkc & _ & _ & Hc).
  split; [done|]. split; [|done]. unfold unverified_token_kid. rewrite Hp, Hd. by rewrite Hk.
Qed.

Lemma guard_opens s now token object op :
  guard_authorize s now token object op = Ok tt <-> validate_oid object = true /\ opens s now token object op.
Proof.
  unfold guard_authorize. destruct (validate_oid object); cbn [negb]; [|split; [done|by intros []]].
  unfold validate_proxy_token, opens, verify_proxy_token, verify_token_inner. change (("proxy_" =? "xet_")%string) with false.
  change (("proxy_" =? "proxy_")%string) with true. change (("proxy" =? "proxy")%string) with true. cbn [andb].
  destruct (verify_token _ _ _ _ _) as [c| |] eqn:Ev; [|split; [done|by intros (_ & ? & ? & _)]..].
  assert (claims_valid Proxy c) as Hv by (by apply verify_token_Proxy, verified_claims in Ev as [? _]).
  destruct Hv as (Ht & _ & _ & Hp). destruct (Hp eq_refl) as [_ Hop]. rewrite Ht, String.eqb_refl. cbn [negb].
  assert (operation c = Some (claim_value op) -> has_word ("lfs-" +:+ claim_value op) (scope c) = true) as Hw.
  { destruct Hop as [[-> ->]|[-> ->]]; destruct op; intros [=]; by vm_compute. }
  destruct (bool_decide_reflect (oid c = Some object)) as [Ho|Ho], (bool_decide_reflect (operation c = Some (claim_value op))) as [Hp'|Hp'].
  1: { rewrite (Hw Hp'). cbn [negb]. split; [|done]. intros _. split; [done|]. by exists c. }
  all: destruct (has_word _ _); cbn [negb]; (split; [discriminate|]); intros [_ (c' & [= <-] & ? & ?)]; congruence.
Qed.
Lemma guard_not_panic s now token object op : guard_authorize s now token object op <> Panic.
Proof. unfold guard_authorize. by destruct (validate_oid object), (validate_proxy_token s now token object (claim_value op)). Qed.

(** A proxy token of the Hub: until when it opens what. *)
Lemma proxy_token_opens s t sub object' operation' repo repo_type token e : 0 <= t -> 0 <= proxy_ttl_seconds s ->
  sign_proxy s (Some t) sub object' operation' repo repo_type = Ok (token, e) ->
  e = t + proxy_ttl_seconds s /\
  forall now object op, opens s (Some now) token object op <-> t <= now < e /\ object' = object /\ operation' = claim_value op.
Proof.
  intros Ht Hl Es. pose proof (hub_sign_run s (Some t) (ReqProxy sub object' operation' repo repo_type)) as Er. cbn [hub_sign] in Er.
  rewrite Es in Er. cbn [hub_ttl] in Er. destruct (Z.leb_spec (t + proxy_ttl_seconds s) u64_max) as [Hfit|]; [|done].
  set (c := hub_claims s t (ReqProxy sub object' operation' repo repo_type)) in *.
  destruct (sign_claims c (s_signing_key s) _) as [token'| |] eqn:Esc; [|done..]. cbn in Er. injection Er as <- ->. split; [done|].
  assert (in_u64 (exp c) /\ in_u64 (iat c)) as [He Hi] by (unfold in_u64, c, u64_max in *; cbn; lia).
  destruct (signed_token_parts _ _ _ _ Esc He Hi) as (h & m & sg & Ep & Eh & Em & Esg & Ev & Hv). intros now object op.
  assert (forall c', verify_token (Some now) token (verifying_key (s_signing_key s)) (s_kid s) Proxy = Ok c' <-> t <= now < t + proxy_ttl_seconds s /\ c' = c) as Hver.
  { intros c'. rewrite verify_token_Proxy, (verify_genuine _ _ _ _ _ _ _ _ _ Ep Eh Em Esg Ev Hv). unfold verdict. cbn [kid c hub_claims]. rewrite String.eqb_refl.
    cbn [negb exp iat c hub_claims hub_ttl]. destruct (Z.leb_spec (t + proxy_ttl_seconds s) now); [split; [done|lia]|].
    destruct (Z.ltb_spec now t); [split; [done|lia]|]. split; [intros [= <-]; split; [lia|done]|by intros [_ ->]]. }
  unfold opens. split.
  - intros (c' & [Hnow ->]%Hver & Ho & Hop). cbn in Ho, Hop. split; [done|]. split; congruence.
  - intros (Hnow & -> & ->). exists c. split; [by apply Hver|]. by split.
Qed.
End Tokens.

(** ** The reservation of an upload is always given back *)

(** The ledger [l0], with what reservation [r] holds. *)
Definition holds (l0 l : TempQuotaLedger) (r : TempReservation) : Prop :=
  l = mkLedger (quota_bytes l0) (min_free_bytes l0) (charged_bytes l0 + r_charged r) (reserved_bytes l0 + r_reserved r) /\
  0 <= r_charged r /\ 0 <= r_reserved r /\ charged_bytes l0 + r_charged r + (reserved_bytes l0 + r_reserved r) <= u64_max.

Section Ledger.
Context (l0 : TempQuotaLedger) (Hl0 : ledger_ok l0).

Lemma holds_drop l r : holds l0 l r -> reservation_drop l r = l0.
Proof.
  intros (-> & Hc & Hr & Hs). destruct Hl0 as (Hc0 & Hr0 & Hq0). unfold reservation_drop, release_charged, release_reserved.
  cbn. destruct (Z.eqb_spec (r_reserved r) 0) as [E|]; destruct (Z.eqb_spec (r_charged r) 0) as [E'|];
    destruct l0; cbn in *; unfold set_reserved, set_charged; cbn; f_equal; try (rewrite ?E, ?E'; lia); rewrite as_u64_small; lia.
Qed.

Lemma holds_reserve l r n : holds l0 l r -> 0 <= n ->
  let '(l', r', answer) := reserve_additional l r n in
  holds l0 l' r' /\
  match answer with
  | Ok _ => r_charged r' = r_charged r /\ r_reserved r' = r_reserved r + n /\ (0 < n -> r_charged r + r_reserved r + n <= ledger_room l0)
  | Err _ => ledger_room l0 < r_charged r + r_reserved r + n
  | Panic => False
  end.
Proof.
  intros Hh Hn. pose proof Hh as (El & Hc & Hr & Hs). destruct Hl0 as (Hc0 & Hr0 & Hq0). unfold reserve_additional, ledger_reserve, ledger_room.
  destruct (Z.eqb_spec n 0) as [->|Hne].
  - cbn. rewrite checked_add_le by lia. rewrite Z.add_0_r. cbn. split; [by destruct r|]. split; [done|]. split; [done|lia].
  - assert (quota_bytes l = quota_bytes l0 /\ charged_bytes l = charged_bytes l0 + r_charged r /\ reserved_bytes l = reserved_bytes l0 + r_reserved r)
      as (Eq & Ec & Er) by (by subst l). unfold reserve_check. rewrite Eq, Ec, Er. rewrite checked_add_le by lia. unfold checked_add at 1.
    destruct (Z.leb_spec (charged_bytes l0 + r_charged r + (reserved_bytes l0 + r_reserved r) + n) u64_max); cbn [ok_or]; [|split; [done|lia]].
    destruct (Z.ltb_spec (quota_bytes l0) (charged_bytes l0 + r_charged r + (reserved_bytes l0 + r_reserved r) + n)); cbn; [split; [done|lia]|].
    rewrite checked_add_le by lia. subst l. cbn. split; [|split; [done|split; [done|lia]]].
    unfold holds, set_reserved. cbn. split; [f_equal; lia|lia].
Qed.

Lemma holds_commit l r n : holds l0 l r -> 0 <= n <= r_reserved r ->
  let '(l', r', answer) := commit_written l r n in
  holds l0 l' r' /\ answer = Ok tt /\ r_charged r' = r_charged r + n /\ r_reserved r' = r_reserved r - n.
Proof.
  intros (El & Hc & Hr & Hs) Hn. destruct Hl0 as (Hc0 & Hr0 & Hq0). unfold commit_written, commit.
  replace (r_reserved r <? n) with false by lia. destruct (Z.eqb_spec n 0) as [->|].
  - cbn. rewrite checked_add_le by lia. cbn. rewrite Z.add_0_r, Z.sub_0_r. split; [|done]. unfold holds. cbn. subst l. split; [done|lia].
  - subst l. cbn. rewrite as_u64_small by lia. rewrite !checked_add_le by lia. cbn. split; [|done]. unfold holds, set_charged. cbn. split; [f_equal; lia|lia].
Qed.

Lemma receive_spec `{Sha2} host payload max : forall data hasher n l r,
  holds l0 l r -> r_reserved r = 0 -> r_charged r = len data -> Panic ∉ payload -> max <= u64_max -> len data <= max -> len data <= ledger_room l0 ->
  let '(l', r', answer) := receive host payload max (len data) data hasher n l (Some r) in
  let content := data ++ concat (payload_chunks payload) in
  exists r1, r' = Some r1 /\ holds l0 l' r1 /\
  match answer with
  | Ok (total, d, h') => payload_complete payload = true /\ total = len content /\ d = content /\
      h' = fold_left sha256_update (payload_chunks payload) hasher /\ len content <= max /\ len content <= ledger_room l0
  | Err (LuReadPayload _) => payload_complete payload = false
  | Err (LuPayloadTooLarge _ _) => max < len content
  | Err LuQuota => ledger_room l0 < len content
  | Err LuWriteTempFile => exists k, write_ok host k = false
  | _ => False
  end.
Proof.
  induction payload as [|[chunk|e|] payload IH]; intros data hasher n l r Hh Hr Hc Hp Hm Hd Hroom; cbn [receive payload_chunks concat];
    [| |by exists r|set_solver].
  { exists r. rewrite app_nil_r. done. }
  assert (len data + len chunk <= len (data ++ chunk ++ concat (payload_chunks payload))) as Hle
    by (rewrite !len_app; pose proof (len_nonneg (concat (payload_chunks payload))); lia).
  pose proof (len_nonneg chunk). pose proof (len_nonneg data). unfold checked_add at 1.
  destruct (Z.leb_spec (len data + len chunk) u64_max) as [Hfit|Hbig].
  2: { exists r. split; [done|]. split; [done|]. destruct Hl0 as (? & ? & ?). unfold ledger_room. lia. }
  destruct (Z.ltb_spec max (len data + len chunk)); [exists r; split; [done|split; [done|lia]]|].
  cbn [reserve_chunk_space]. pose proof (holds_reserve l r (len chunk) Hh ltac:(lia)) as Hres.
  destruct (reserve_additional l r (len chunk)) as [[l1 r1] answer]. destruct Hres as [Hh1 Hans].
  destruct answer as [[]|e|]; cbn [map_err]; [|exists r1; split; [done|split; [done|lia]]|done].
  destruct Hans as (Ec1 & Er1 & Hroom1). destruct (write_ok host n) eqn:Ew; cbn [negb]; [|exists r1; eauto].
  cbn [commit_chunk]. pose proof (holds_commit l1 r1 (len chunk) Hh1 ltac:(lia)) as Hcm.
  destruct (commit_written l1 r1 (len chunk)) as [[l2 r2] answer]. destruct Hcm as (Hh2 & -> & Ec2 & Er2). cbn [map_err].
  assert (len data + len chunk <= ledger_room l0) as Hroom2 by (destruct (Z.eqb_spec (len chunk) 0); lia).
  assert (Panic ∉ payload) as Hp2 by set_solver.
  rewrite <- len_app, app_assoc in *. apply IH; try done; lia || (rewrite ?len_app in *; lia).
Qed.
End Ledger.

(** The host takes an upload: directory, file, writes and flush. *)
Definition host_fine (host : upload_host) : Prop :=
  dir_created host = true /\ file_created host = true /\ (forall n, write_ok host n = true) /\ flush_ok host = true.
Definition temp_space (host : upload_host) (l : TempQuotaLedger) : bool := is_ok (manager_reserve (manager_available host) l 0).2.

(** What the limits let through. *)
Definition within_limits (payload : list (outcome string (list byte))) (max : Z) (l : TempQuotaLedger) : Prop :=
  payload_complete payload = true /\ len (concat (payload_chunks payload)) <= max /\ len (concat (payload_chunks payload)) <= ledger_room l.

Lemma write_payload_spec `{HexCrate, Sha2Laws} host payload max l :
  ledger_ok l -> Panic ∉ payload -> 0 <= max <= u64_max ->
  let content := concat (payload_chunks payload) in
  let '(l', stored) := write_payload_to_temp_file_inner host payload max true l in
  match stored with
  | Ok su => within_limits payload max l /\ su_data su = content /\ su_size su = len content /\
      su_sha256 su = hex_encode (sha256_digest content) /\ drop_reservation l' (su_reservation su) = l
  | Err _ => l' = l /\ ~ (within_limits payload max l /\ host_fine host /\ temp_space host l = true)
  | Panic => False
  end.
Proof.
  intros Hl Hp Hmax content. pose proof Hl as (Hc & Hr & Hq). unfold write_payload_to_temp_file_inner, host_fine, temp_space.
  destruct (dir_created host); cbn [negb]; [|split; [done|naive_solver]]. destruct (file_created host); cbn [negb]; [|split; [done|naive_solver]].
  unfold manager_reserve. destruct (match checked_add (min_free_bytes l) (reserved_bytes l) with Some v => checked_add v 0 | None => None end) as [needed|];
    cbn; [|split; [done|naive_solver]].
  destruct (_ <? needed); cbn; [split; [done|naive_solver]|].
  assert (holds l l reservation_empty) as Hh.
  { unfold holds. cbn. split; [destruct l; cbn; f_equal; lia|lia]. }
  pose proof (receive_spec l Hl host payload max [] sha256_new 0 l reservation_empty Hh eq_refl eq_refl Hp ltac:(lia)
    ltac:(change (len []) with 0; lia) ltac:(unfold ledger_room; change (len []) with 0; lia)) as Hrec.
  change (len []) with 0 in Hrec. cbn [app] in Hrec. fold content in Hrec.
  destruct (receive _ _ _ _ _ _ _ _ _) as [[l' r'] answer]. destruct Hrec as (r1 & -> & Hh1 & Hans). cbn [drop_reservation].
  rewrite (holds_drop l Hl _ _ Hh1). unfold within_limits. fold content.
  destruct answer as [[[total d] h']|e|]; [| |done].
  2: { split; [done|]. intros ((Hcomp & Hm & Hroom) & (_ & _ & Hw & _) & _). destruct e; try done; try lia; [congruence|].
       destruct Hans as [k Hk]. by rewrite Hw in Hk. }
  destruct Hans as (Hcomp & -> & -> & -> & Hm & Hroom). destruct (flush_ok host); cbn [negb]; [|split; [done|naive_solver]].
  cbn. rewrite sha256_streaming. by rewrite (holds_drop l Hl _ _ Hh1).
Qed.

(** The CAS server took the request. *)
Definition cas_accepts (answer : http_answer) : Prop :=
  match answer with HttpResponse status _ _ _ => is_success status = true | HttpFailed _ => False end.
Lemma upload_answer_Ok answer : upload_answer answer = Ok tt <-> cas_accepts answer.
Proof.
  destruct answer as [timeout|status hs cl ps]; cbn; [split; done|]. destruct (is_success status); [done|].
  split; [|done]. by destruct (map_err _ _).
Qed.
(** No error of the CAS server is answered as a success. *)
Lemma upload_answer_status answer e : upload_answer answer = Err e -> is_success (cu_status e) = false.
Proof.
  destruct answer as [[]|status hs cl ps]; cbn; [by intros [= <-]..|]. destruct (is_success status) eqn:Es; [done|].
  destruct (read_response_body_limited cl ps MAX_CAS_ERROR_RESPONSE_SIZE); cbn; [by intros [= <-]..|done].
Qed.
Lemma upload_error_status e : (forall status message, e = LuCas status message -> is_success status = false) ->
  hh_status (lfs_upload_service_error_response e) <> 200.
Proof.
  destruct e as [e| |status message]; intros He; [by destruct e|done|]. specialize (He _ _ eq_refl). cbn. unfold is_success in He.
  destruct (_ && (status <=? 999)) eqn:Ed; [|by vm_compute]. destruct (Z.eqb_spec status 504); [done|].
  destruct (is_server_error status) eqn:E5; cbn; [done|]. lia.
Qed.

(** Reading a body fails, or ends; it does not panic unless the transport does. *)
Definition body_ok (answer : http_answer) : Prop :=
  match answer with HttpResponse _ _ _ pieces => Panic ∉ pieces | HttpFailed _ => True end.
Lemma read_body_not_panic cl max pieces : Panic ∉ pieces -> read_response_body_limited cl pieces max <> Panic.
Proof.
  intros Hp. unfold read_response_body_limited. destruct (match cl with Some _ => _ | None => false end); [done|].
  assert (forall received body, read_pieces max received body pieces <> Panic) as Hr; [|apply Hr].
  induction pieces as [|[chunk|e|] pieces IH]; intros received body; cbn; [done| |done|set_solver].
  destruct (checked_add _ _); [|done]. destruct (_ <? _); [done|]. apply IH. set_solver.
Qed.
Lemma upload_answer_not_panic answer : body_ok answer -> upload_answer answer <> Panic.
Proof.
  destruct answer as [timeout|status hs cl ps]; cbn; [done|]. intros Hp. destruct (is_success status); [done|].
  pose proof (read_body_not_panic cl MAX_CAS_ERROR_RESPONSE_SIZE ps Hp). by destruct (read_response_body_limited _ _ _).
Qed.

(** A bounded stream delivers what its source does, up to the limit. *)
Lemma max_bytes_received max pieces : forall bytes_read, 0 <= bytes_read <= max ->
  bytes_read + len (received pieces).1 <= u64_max -> Panic ∉ pieces ->
  let '(data, complete) := received (max_bytes_stream max bytes_read pieces) in
  bytes_read + len data <= max /\ (exists rest, (received pieces).1 = data ++ rest) /\
  (complete = true <-> (received pieces).2 = true /\ bytes_read + len (received pieces).1 <= max) /\
  (complete = true -> data = (received pieces).1).
Proof.
  induction pieces as [|[chunk|e|] pieces IH]; intros bytes_read Hr Hc Hp; cbn [max_bytes_stream received fst snd] in *.
  - change (len []) with 0. split; [lia|]. split; [by exists []|]. split; [|done]. split; [intros _; split; [done|lia]|done].
  - destruct (received pieces) as [data complete] eqn:Er. cbn [fst snd] in *. rewrite len_app in *.
    pose proof (len_nonneg chunk). pose proof (len_nonneg data). rewrite as_u64_small by lia.
    destruct (Z.ltb_spec max (bytes_read + len chunk)) as [Hbig|Hsmall]; cbn [received fst snd].
    { change (len []) with 0. split; [lia|]. split; [by eexists|]. split; [split; [done|lia]|done]. }
    specialize (IH (bytes_read + len chunk) ltac:(lia) ltac:(lia) ltac:(set_solver)).
    destruct (received (max_bytes_stream _ _ _)) as [d c]. destruct IH as (Hle & [rest Hrest] & Hcomp & Hall). rewrite len_app.
    split; [lia|]. split; [exists rest; by rewrite Hrest, app_assoc|]. split; [|intros Hd; by rewrite Hall].
    rewrite Hcomp. split; [intros [-> Hm]; split; [done|lia]|intros [-> Hm]; split; [done|lia]].
  - change (len []) with 0. split; [lia|]. split; [by exists []|]. split; [split; [done|by intros []]|done].
  - destruct Hp. by left.
Qed.

Section Theorems.
Context `{Base64Laws, TokenJsonLaws, Ed25519Laws} `{PercentDecode} `{HexCrate, Sha2Laws}.
Context (config : lfs_config) (s : XetSigner) (h : forall A, call A -> A).

(** A request whose token opens its object. *)
Definition admitted (rq : lfs_request) (op : LfsOperation) (token : string) : Prop :=
  extract_proxy_token (lr_query rq) (lr_authorization rq) = Some token /\ validate_oid (lr_oid rq) = true /\
  opens s (h _ Clock) token (lr_oid rq) op.

Lemma guard_refuses rq op token e : extract_proxy_token (lr_query rq) (lr_authorization rq) = Some token ->
  guard_authorize s (h _ Clock) token (lr_oid rq) op = Err e -> forall token', ~ admitted rq op token'.
Proof.
  intros Et Eg token' (Et' & Ho & Hop). rewrite Et in Et'. injection Et' as <-.
  assert (guard_authorize s (h _ Clock) token (lr_oid rq) op = Ok tt) by (by apply guard_opens). congruence.
Qed.

(** C13: What an upload through the Hub stores.  Whatever the host and the CAS
    server do, an upload sends at most one request to the CAS server, and only
    with a token the Hub signed for uploading this object: then the payload was
    complete and within the limits, its SHA-256 is the object id, and the
    request puts exactly these bytes there; the client gets a success exactly
    when the CAS server gave one.  An upload that is allowed and fits is sent
    unless the host fails, and the quota the upload took is always given back. *)
Theorem lfs_upload_forwards_verified_content host reopened rq payload l :
  ledger_ok l -> Panic ∉ payload -> 0 <= lc_max_upload_size config <= u64_max -> (forall rq, body_ok (h _ (Send rq))) ->
  let content := concat (payload_chunks payload) in
  let '(sent, (l', answer)) := perform h (lfs_upload config s host reopened rq payload (Some l)) in
  l' = Some l /\
  exists response, answer = Some response /\
  match sent with
  | [] => hh_status response <> 200 /\
      ~ (exists token, admitted rq Upload token /\ within_limits payload (lc_max_upload_size config) l /\
           hex_encode (sha256_digest content) = lr_oid rq /\ host_fine host /\ temp_space host l = true /\ reopened = true)
  | [forwarded] => exists token, admitted rq Upload token /\ within_limits payload (lc_max_upload_size config) l /\
      hex_encode (sha256_digest content) = lr_oid rq /\
      forwarded = upload_from_path_request (lc_cas_url config) (lr_oid rq) content (len content) token /\
      (hh_status response = 200 <-> cas_accepts (h _ (Send forwarded)))
  | _ => False
  end.
Proof.
  intros Hl Hp Hmax Hbody content. unfold lfs_upload.
  destruct (extract_proxy_token _ _) as [token|] eqn:Et.
  2: { cbn. split; [done|]. eexists. split; [done|]. split; [done|]. intros (token & (E & _) & _). congruence. }
  cbn [perform]. destruct (guard_authorize s (h _ Clock) token (lr_oid rq) Upload) as [[]|e|] eqn:Eg.
  2: { cbn. split; [done|]. eexists. split; [done|]. split; [by destruct e|]. intros (token' & Ha & _). by eapply guard_refuses. }
  2: { by apply guard_not_panic in Eg. }
  assert (admitted rq Upload token) as Ha by (split; [done|by apply guard_opens]).
  cbn match. rewrite perform_bind. unfold lfs_upload_service.
  pose proof (write_payload_spec host payload (lc_max_upload_size config) l Hl Hp Hmax) as Hw. cbv zeta in Hw. fold content in Hw.
  destruct (write_payload_to_temp_file_inner _ _ _ _ _) as [l1 [su|e|]]; [| |done].
  2: { destruct Hw as [-> Hw]. cbn. split; [done|]. eexists. split; [done|]. split; [by destruct e|].
       intros (token' & _ & Hlim & _ & Hhost & Hspace & _). by apply Hw. }
  destruct Hw as (Hlim & Hd & Hsz & Hsha & Hdrop). rewrite Hsha.
  destruct (String.eqb_spec (hex_encode (sha256_digest content)) (lr_oid rq)) as [Esha|Hne]; cbn [negb].
  2: { cbn. rewrite Hdrop. split; [done|]. eexists. split; [done|]. split; [done|]. intros (token' & _ & _ & E & _). congruence. }
  rewrite perform_bind, Hd, Hsz. destruct reopened; cbn [proxy_lfs_upload_from_path perform].
  2: { cbn. rewrite Hdrop. split; [done|]. eexists. split; [done|]. split; [done|]. naive_solver. }
  cbn. rewrite Hdrop. split; [done|]. set (forwarded := upload_from_path_request _ _ _ _ _).
  pose proof (upload_answer_not_panic _ (Hbody forwarded)) as Hnp. pose proof (upload_answer_Ok (h _ (Send forwarded))) as Hok.
  pose proof (upload_answer_status (h _ (Send forwarded))) as Hst.
  destruct (upload_answer (h _ (Send forwarded))) as [[]|e|]; [| |done]; cbn [map_err]; eexists; (split; [done|]);
    exists token; (split; [done|]); (split; [done|]); (split; [done|]); (split; [done|]); rewrite <- Hok; (split; [|done]); [done|].
  intros E. exfalso. revert E. apply upload_error_status. intros status message [= <- _]. by apply Hst.
Qed.

(** A body has fewer bytes than a counter can count. *)
Definition body_countable (answer : http_answer) : Prop :=
  match answer with HttpResponse _ _ _ pieces => len (received pieces).1 <= u64_max | HttpFailed _ => True end.

(** What a download through the Hub delivers.  The CAS server is asked for an
    object only with a token the Hub signed for downloading it, and once; the
    client then gets the bytes the CAS server sends, never more than the limit,
    and sees the stream end without an error exactly when it got all of them. *)
Theorem lfs_download_is_bounded rq :
  0 <= lc_max_download_size config -> (forall rq, body_ok (h _ (Send rq)) /\ body_countable (h _ (Send rq))) ->
  let '(sent, answer) := perform h (lfs_download config s rq) in
  exists response, answer = Some response /\
  match sent with
  | [] => hh_status response <> 200 /\ forall token, ~ admitted rq Download token
  | [asked] => exists token, admitted rq Download token /\ asked = download_request (lc_cas_url config) (lr_oid rq) token /\
      match h _ (Send asked) with
      | HttpResponse 200 _ content_length pieces =>
          if lc_max_download_size config <? default 0 content_length then hh_status response = 502
          else
            hh_status response = 200 /\
            let '(data, complete) := received (hh_body response) in
            len data <= lc_max_download_size config /\
            (exists rest, (received pieces).1 = data ++ rest) /\
            (complete = true <-> (received pieces).2 = true /\ len (received pieces).1 <= lc_max_download_size config) /\
            (complete = true -> data = (received pieces).1)
      | _ => hh_status response <> 200
      end
  | _ => False
  end.
Proof.
  intros Hmax Hbody. unfold lfs_download. destruct (extract_proxy_token _ _) as [token|] eqn:Et.
  2: { eexists. split; [done|]. split; [done|]. intros token (E & _). congruence. }
  cbn [perform]. destruct (guard_authorize s (h _ Clock) token (lr_oid rq) Download) as [[]|e|] eqn:Eg.
  2: { eexists. split; [done|]. split; [by destruct e|]. by eapply guard_refuses. }
  2: { by apply guard_not_panic in Eg. }
  assert (admitted rq Download token) as Ha by (split; [done|by apply guard_opens]).
  cbn match. rewrite perform_bind. cbn. set (asked := download_request _ _ _). destruct (Hbody asked) as [Hok Hcount].
  destruct (h _ (Send asked)) as [timeout|status hs cl pieces] eqn:Eh; cbn.
  { exists (if timeout then gateway_timeout_error_response else bad_gateway_error_response). split; [by destruct timeout|].
    exists token. split; [done|]. split; [done|]. cbn match. by destruct timeout. }
  destruct (Z.eqb_spec status 200) as [->|Hne].
  - destruct (Z.leb_spec (default 0 cl) (lc_max_download_size config)) as [Hle|Hgt]; cbn [negb].
    + eexists. split; [done|]. exists token. split; [done|]. split; [done|]. cbn match.
      replace (lc_max_download_size config <? default 0 cl) with false by lia. split; [done|]. cbn [hh_body].
      pose proof (max_bytes_received (lc_max_download_size config) pieces 0 ltac:(lia) Hcount Hok) as Hm.
      destruct (received (max_bytes_stream _ 0 pieces)) as [data complete]. rewrite !Z.add_0_l in Hm. exact Hm.
    + eexists. split; [done|]. exists token. split; [done|]. split; [done|]. cbn match.
      by replace (lc_max_download_size config <? default 0 cl) with true by lia.
  - exists (if status =? 404 then error_answer 404 "NotFoundError" else bad_gateway_error_response). split; [by destruct (status =? 404)|].
    exists token. split; [done|]. split; [done|]. cbn match. destruct (status =? 404); repeat case_match; try done; congruence.
Qed.
End Theorems.

(** C14: The Hub's guard and the CAS server's agree.  A CAS server that has the
    Hub's key lets through, with the same token, everything the Hub's guard does,
    and the Hub's guard lets through every proxy token under the Hub's key that
    the CAS server would, for well-formed ids; a token the Hub signs opens its
    object, for its operation, until the reported expiry, and nothing else. *)
Theorem hub_guard_agrees_with_cas `{Base64Laws, TokenJsonLaws, Ed25519Laws} s v now token object op message :
  find_key (s_kid s) (verification_keys v) = Some (verifying_key (s_signing_key s)) ->
  (guard_authorize s now token object op = Ok tt <->
     validate_oid object = true /\ exists claims,
       require_auth (Some ("Bearer " +:+ token)) v now (LfsObject op object message) = Ok claims /\ token_type claims = "proxy" /\ kid claims = s_kid s) /\
  (forall t sub object' operation' repo repo_type e, 0 <= t -> 0 <= proxy_ttl_seconds s ->
     sign_proxy s (Some t) sub object' operation' repo repo_type = Ok (token, e) ->
     forall now, guard_authorize s (Some now) token object op = Ok tt <->
       validate_oid object = true /\ t <= now < e /\ object' = object /\ operation' = claim_value op).
Proof.
  intros Hkey. split.
  - rewrite guard_opens. unfold opens, require_auth, extract_token_from_request, extract_bearer_token. rewrite strip_prefix_app. cbn [ok_or]. split.
    + intros (Ho & c & Hv & Hobj & Hop). split; [done|]. exists c. apply verify_token_Proxy in Hv.
      destruct (verified_claims _ _ _ _ _ _ Hv) as (Hc & Hkid & Ek). pose proof Hc as (Ht & _).
      assert (verifier_verify_token v now token = Ok c) as -> by (apply verifier_Ok; by exists Proxy, (s_kid s), (verifying_key (s_signing_key s))).
      cbn [map_err]. replace (need_authorized _ c) with true; [done|]. symmetry. apply (need_authorized_iff _ Proxy); [done|]. by left.
    + intros (Ho & c & Hr & Ht & Ek). split; [done|]. destruct (verifier_verify_token v now token) as [c'| |] eqn:Ev; cbn [map_err] in Hr; [|done..].
      destruct (need_authorized _ c') eqn:En; [|done]. injection Hr as ->. apply verifier_Ok in Ev as (k & kid' & key & Hkid & Hf & Hv).
      destruct (verified_claims _ _ _ _ _ _ Hv) as (Hc & _ & Ek'). rewrite Ek in Ek'. subst kid'. rewrite Hkey in Hf. injection Hf as <-.
      assert (k = Proxy) as -> by (destruct Hc as (Ht' & _); rewrite Ht in Ht'; by destruct k).
      exists c. split; [by apply verify_token_Proxy|]. apply (need_authorized_iff _ Proxy) in En; [|done]. destruct En as [(_ & ? & ?)|(? & _)]; done.
  - intros t sub object' operation' repo repo_type e Ht Hl Es now'. rewrite guard_opens.
    destruct (proxy_token_opens _ _ _ _ _ _ _ _ _ Ht Hl Es) as [-> Hop]. rewrite Hop. naive_solver.
Qed.

(** ** Witnesses *)
#[local] Existing Instances TokenModel.base64 TokenModel.json TokenModel.ed25519.
#[local] Existing Instances TokenModel.base64_laws TokenModel.json_laws TokenModel.ed25519_laws.
#[local] Existing Instances Model.hex Model.hex_laws Model.sha2 Model.sha2_laws.
#[local] Instance no_escapes : PercentDecode := Some.

(** A clock, and a CAS server that takes every upload and sends [cas_body]. *)
Definition answers (now : Z) (cas_body : list (outcome bool (list byte))) (A : Type) (c : call A) : A :=
  match c in call A return A with
  | CreateRepo _ _ _ _ | GetRepo _ _ _ => Err DatabaseError
  | DeleteRepo _ | CommitChanges _ _ _ => Err DatabaseError
  | GetRevision _ _ => Err DatabaseError
  | GetHead _ => Err DatabaseError
  | ResolveFile _ _ _ => Err DatabaseError
  | Send _ => HttpResponse 200 [] None cas_body
  | UnixNow => now
  | Clock => Some now
  | Uuid => ""
  end.

Definition hello : list byte := str_bytes "hello world".
Definition hello_oid : string := hex_encode (sha256_digest hello).
Definition sample_lfs : lfs_config := mkLfsConfig "http://cas" 1000 100 0 0.
Definition proxy_for (op : LfsOperation) : string :=
  match sign_proxy sample_signer (Some 1000) "alice" hello_oid (claim_value op) "" "" with Ok (token, _) => token | _ => "" end.
Definition lfs_rq (op : LfsOperation) : lfs_request := mkLfsRequest (Some ("x=1&token=" +:+ proxy_for op)) None hello_oid.

(** An upload in three pieces arrives; the same bytes under a download token do not. *)
Lemma lfs_upload_forwards_verified_content_witness :
  let run op := perform (answers 1001 []) (lfs_upload sample_lfs sample_signer good_host true (lfs_rq op) sample_payload (Some sample_quota)) in
  map hr_body (run Upload).1 = [hello] /\ (run Upload).2.1 = Some sample_quota /\
  hh_status <$> (run Upload).2.2 = Some 200 /\ (run Download).1 = [] /\
  exists token, admitted sample_signer (answers 1001 []) (lfs_rq Upload) Upload token.
Proof.
  intros run. split; [vm_compute; reflexivity|]. split; [vm_compute; reflexivity|]. split; [vm_compute; reflexivity|]. split; [vm_compute; reflexivity|].
  assert (ledger_ok sample_quota) as Hl by (unfold ledger_ok, sample_quota, u64_max; cbn; lia).
  pose proof (lfs_upload_forwards_verified_content sample_lfs sample_signer (answers 1001 []) good_host true (lfs_rq Upload) sample_payload sample_quota Hl
    ltac:(unfold sample_payload; set_solver) ltac:(unfold u64_max; cbn; lia) ltac:(intros; cbn; by apply not_elem_of_nil)) as Ht.
  assert (length (run Upload).1 = 1%nat) as Hlen by (vm_compute; reflexivity). unfold run in Hlen.
  destruct (perform (answers 1001 []) (lfs_upload sample_lfs sample_signer good_host true (lfs_rq Upload) sample_payload (Some sample_quota))) as [sent [l' answer]].
  cbn [fst] in Hlen. destruct Ht as (_ & response & _ & Ht). destruct sent as [|forwarded [|? ?]]; [discriminate Hlen| |discriminate Hlen].
  destruct Ht as (token & Ha & _). exists token. exact Ha.
Defined.

Definition hello_pieces : list (outcome bool (list byte)) := [Ok (str_bytes "hello "); Ok (str_bytes "world")].

Lemma hello_arrives rq : body_ok (answers 1001 hello_pieces _ (Send rq)) /\ body_countable (answers 1001 hello_pieces _ (Send rq)).
Proof.
  split; [|by vm_compute]. change (Panic ∉ hello_pieces). unfold hello_pieces. rewrite !not_elem_of_cons. split; [done|]. split; [done|]. apply not_elem_of_nil.
Qed.

(** The whole object arrives; with a smaller limit the stream ends in an error. *)
Lemma lfs_download_is_bounded_witness :
  let run max := perform (answers 1001 hello_pieces) (lfs_download (mkLfsConfig "http://cas" 1000 max 0 0) sample_signer (lfs_rq Download)) in
  (fun r => received (hh_body r)) <$> (run 11).2 = Some (hello, true) /\
  (fun r => received (hh_body r)) <$> (run 10).2 = Some (str_bytes "hello ", false) /\
  exists token, admitted sample_signer (answers 1001 hello_pieces) (lfs_rq Download) Download token.
Proof.
  intros run. split; [vm_compute; reflexivity|]. split; [vm_compute; reflexivity|].
  pose proof (lfs_download_is_bounded (mkLfsConfig "http://cas" 1000 11 0 0) sample_signer (answers 1001 hello_pieces) (lfs_rq Download)
    ltac:(discriminate) hello_arrives) as Ht.
  assert (length (run 11).1 = 1%nat) as Hlen by (vm_compute; reflexivity). unfold run in Hlen.
  destruct (perform _ (lfs_download _ _ _)) as [sent answer]. cbn [fst] in Hlen. destruct Ht as (response & _ & Ht).
  destruct sent as [|asked [|? ?]]; [discriminate Hlen| |discriminate Hlen]. destruct Ht as (token & Ha & _). exists token. exact Ha.
Defined.

Lemma hub_guard_agrees_with_cas_witness :
  guard_authorize sample_signer (Some 1001) (proxy_for Upload) hello_oid Upload = Ok tt /\
  guard_authorize sample_signer (Some 1300) (proxy_for Upload) hello_oid Upload = Err GeInvalidToken /\
  is_ok (require_auth (Some ("Bearer " +:+ proxy_for Upload)) sample_keyring (Some 1001) (LfsObject Upload hello_oid "")) = true.
Proof.
  split; [vm_compute; reflexivity|]. split; [vm_compute; reflexivity|].
  assert (guard_authorize sample_signer (Some 1001) (proxy_for Upload) hello_oid Upload = Ok tt) as Hok by (vm_compute; reflexivity).
  assert (find_key (s_kid sample_signer) (verification_keys sample_keyring) = Some (verifying_key (s_signing_key sample_signer))) as Hkey by reflexivity.
  pose proof (hub_guard_agrees_with_cas sample_signer sample_keyring (Some 1001) (proxy_for Upload) hello_oid Upload "" Hkey) as Hg.
  destruct (proj2 (proj1 (proj1 Hg) Hok)) as (claims & Hr & _). rewrite Hr. reflexivity.
Defined.
