(* ===== verification/HubBatch.v ===== *)
(** * Git LFS batch requests through the Hub (src/hub/src/lfs_proxy/batch.rs, src/hub/src/services/lfs_batch.rs, src/hub/src/api/lfs_proxy.rs)

    A batch request is authorized by the token store, forwarded to the CAS
    server, and the links of its answer are rewritten to the Hub with proxy
    tokens in them.  The theorem follows a link back through the guard of
    [HubLfs]. *)
From stdpp Require Import gmap strings.
From Stdlib Require Import Ascii.
From S2P Require Import Prelude Bytes Crates Hash Text Url TokenCrates Tokens CasAuth HubSigner HubMetadata HubTree HubPrograms HubTokens HubLfs.

Local Open Scope string_scope.
Local Open Scope list_scope.
Local Open Scope Z_scope.

(** ** JSON values (serde_json) *)
Inductive json :=
| JNull
| JBool (b : bool)
| JNumber (text : string)
| JString (s : string)
| JArray (elements : list json)
| JObject (fields : gmap string json).

Definition json_get (key : string) (v : json) : option json := match v with JObject fields => fields !! key | _ => None end.
Definition as_str (v : json) : option string := match v with JString s => Some s | _ => None end.
Definition as_array (v : json) : option (list json) := match v with JArray l => Some l | _ => None end.
Definition json_put (key : string) (x v : json) : json := match v with JObject fields => JObject (<[key := x]> fields) | _ => v end.
Definition json_remove (key : string) (v : json) : json := match v with JObject fields => JObject (delete key fields) | _ => v end.

Class SerdeJson := { json_to_vec : json -> list byte; json_from_slice : list byte -> option json }.

(** The alphabet of the URL-safe base64. *)
Class Base64UrlSafe `{Base64} : Prop := url_encode_unreserved : forall bs, string_forallb is_unreserved (url_encode bs) = true.

Definition MAX_BATCH_SIZE : nat := 1000.
Definition MAX_CAS_CONTROL_RESPONSE_SIZE : Z := 8 * 1024 * 1024.

Section Rewriting.
Context `{Base64, TokenJson, Ed25519, UrlCrate}.

(** A failure of a setter is ignored. *)
Definition proxied_url (hub_url : Url) (proxy_token : string) (u : Url) : Url :=
  let u := default u (set_scheme (url_scheme hub_url) u) in
  let u := default u (set_host (url_host_str hub_url) u) in
  let u := default u (set_port (url_port hub_url) u) in
  append_pair "token" proxy_token u.

(** [None] where the code answers false, which leaves the action as it is. *)
Definition rewrite_action_url (action : json) (hub_url : Url) (proxy_token : string) : option json :=
  new_href ← (u ← (json_get "href" action ≫= as_str) ≫= url_parse; Some (url_to_string (proxied_url hub_url proxy_token u)));
  let action := json_put "href" (JString new_href) action in
  Some (match json_get "header" action with
        | Some h =>
            match json_get "Authorization" h with
            | Some _ => json_put "header" (json_put "Authorization" (JString ("Bearer " +:+ proxy_token)) h) action
            | None => action
            end
        | None => action
        end).

Definition rewrite_operation (s : XetSigner) (hub_url : Url) (username oid operation : string) (actions : json) : prog json :=
  match json_get operation actions with
  | None => Done actions
  | Some action =>
      call* now := Clock in
      Done (match sign_proxy s now username oid operation "" "" with
            | Ok (proxy_token, _) =>
                match rewrite_action_url action hub_url proxy_token with
                | Some action => json_put operation action actions
                | None => json_remove operation actions
                end
            | _ => json_remove operation actions
            end)
  end.

Definition rewrite_object (s : XetSigner) (hub_url : Url) (username : string) (obj : json) : prog json :=
  let oid := default "" (json_get "oid" obj ≫= as_str) in
  if negb (validate_oid oid) then Done obj
  else
    match json_get "actions" obj with
    | None => Done obj
    | Some actions =>
        bind* actions := rewrite_operation s hub_url username oid "upload" actions in
        bind* actions := rewrite_operation s hub_url username oid "download" actions in
        Done (json_put "actions" actions obj)
    end.

Fixpoint rewrite_objects (s : XetSigner) (hub_url : Url) (username : string) (objects : list json) : prog (list json) :=
  match objects with
  | [] => Done []
  | obj :: objects =>
      bind* obj := rewrite_object s hub_url username obj in
      bind* objects := rewrite_objects s hub_url username objects in
      Done (obj :: objects)
  end.

Definition rewrite_batch_urls (response : json) (hub_base : string) (s : XetSigner) (username : string) : prog json :=
  match url_parse hub_base with
  | None => Done response
  | Some hub_url =>
      match json_get "objects" response ≫= as_array with
      | None => Done response
      | Some arr =>
          bind* arr := rewrite_objects s hub_url username arr in
          Done (json_put "objects" (JArray arr) response)
      end
  end.
End Rewriting.

(** ** The CAS client's part (src/hub/src/cas_client/mod.rs) *)
Section Client.
Context `{SerdeJson}.

Definition batch_request (cas_url : string) (body : json) (token : string) : http_request :=
  mkHttp "POST" (cas_url +:+ "/objects/batch") [bearer token; ("Content-Type", "application/vnd.git-lfs+json")] (json_to_vec body).
Definition batch_answer (answer : http_answer) : outcome HubError json :=
  match answer with
  | HttpFailed timeout => Err (cas_send_error timeout)
  | HttpResponse status _ content_length pieces =>
      let* response_body := map_err cas_read_error (read_response_body_limited content_length pieces MAX_CAS_CONTROL_RESPONSE_SIZE) in
      let* response_body := ok_or (json_from_slice response_body) HeCasError in
      ensure negb (400 <=? status) else HeCasError in
      Ok response_body
  end.
Definition proxy_batch (cas_url : string) (body : json) (token : string) : prog (outcome HubError json) :=
  call* resp := Send (batch_request cas_url body token) in Done (batch_answer resp).

(** [get_state]; [state_from_slice] is the deserializer serde derives. *)
Definition state_request (cas_url oid internal_token : string) : http_request :=
  mkHttp "GET" (cas_url +:+ "/internal/state/" +:+ oid) [bearer internal_token] [].
Definition state_answer (state_from_slice : list byte -> option BlobState) (answer : http_answer) : outcome HubError (option BlobState) :=
  match answer with
  | HttpFailed timeout => Err (cas_send_error timeout)
  | HttpResponse status _ content_length pieces =>
      if status =? 200 then
        let* body := map_err cas_read_error (read_response_body_limited content_length pieces MAX_CAS_CONTROL_RESPONSE_SIZE) in
        let* state := ok_or (state_from_slice body) HeCasError in
        Ok (Some state)
      else if status =? 404 then Ok None
      else Err HeCasError
  end.
Definition get_state (state_from_slice : list byte -> option BlobState) (cas_url oid internal_token : string) : prog (outcome HubError (option BlobState)) :=
  call* resp := Send (state_request cas_url oid internal_token) in Done (state_answer state_from_slice resp).
End Client.

(** ** The service (src/hub/src/services/lfs_batch.rs) and its handler *)
Inductive LfsBatchServiceError := LbInvalidToken | LbValidation | LbAuthorization | LbBadGateway | LbGatewayTimeout | LbInternal.

Section Service.
Context `{Base64, TokenJson, Ed25519, UrlCrate, SerdeJson}.

Definition batch_operation (body : json) : string := default "download" (json_get "operation" body ≫= as_str).
Definition batch_scope (operation : string) : option string :=
  if (operation =? "upload")%string then Some "write" else if (operation =? "download")%string then Some "read" else None.
Definition object_count (body : json) : nat := default 0%nat (length <$> (json_get "objects" body ≫= as_array)).

(** [validate] is the token store's answer for the user's token. *)
Definition lfs_batch_service (s : XetSigner) (cas_url : string) (validate : outcome SqlxError (option TokenInfo)) (body : json) (hub_base_url : string)
  : prog (outcome LfsBatchServiceError json) :=
  try* token_info := map_err (fun _ => LbInternal) validate in
  try* token_info := ok_or token_info LbInvalidToken in
  try* required_scope := ok_or (batch_scope (batch_operation body)) LbValidation in
  if negb (scope_allows (ti_scope token_info) required_scope) then Done (Err LbAuthorization)
  else if (MAX_BATCH_SIZE <? object_count body)%nat then Done (Err LbValidation)
  else
    call* now := Clock in
    try* signed := map_err (fun _ => LbInternal) (sign s now (ti_username token_info) required_scope "" "" "") in
    bind* response := proxy_batch cas_url body (fst signed) in
    try* response := map_err (fun e => match e with HeCasTimeout => LbGatewayTimeout | _ => LbBadGateway end) response in
    bind* response := rewrite_batch_urls response hub_base_url s (ti_username token_info) in
    Done (Ok response).

Definition lfs_batch_error_response (e : LfsBatchServiceError) : hub_http :=
  match e with
  | LbInvalidToken => error_answer 401 "AuthenticationError"
  | LbValidation => error_answer 400 "ValidationError"
  | LbAuthorization => error_answer 403 "AuthorizationError"
  | LbBadGateway => bad_gateway_error_response
  | LbGatewayTimeout => gateway_timeout_error_response
  | LbInternal => internal_error_response
  end.

(** The answer is an error, or the JSON of a success; [None] after a panic. *)
Definition lfs_batch (s : XetSigner) (cas_url hub_base_url : string) (validate_token : string -> outcome SqlxError (option TokenInfo))
    (auth_header : option string) (body : json) : prog (option (hub_http + json)) :=
  match extract_token auth_header with
  | None => Done (Some (inl missing_authorization))
  | Some token =>
      bind* result := lfs_batch_service s cas_url (validate_token token) body hub_base_url in
      Done (match result with
            | Ok response => Some (inr response)
            | Err e => Some (inl (lfs_batch_error_response e))
            | Panic => None
            end)
  end.
End Service.

(** ** Links and their tokens *)
Lemma string_forallb_app f a b : string_forallb f (a +:+ b) = string_forallb f a && string_forallb f b.
Proof. induction a as [|x a IH]; [done|]. change (String x a +:+ b) with (String x (a +:+ b)). cbn [string_forallb]. by rewrite IH, andb_assoc. Qed.

Lemma split_on_glue c s r : split_on c (s +:+ String c r) = split_on c s ++ split_on c r.
Proof.
  unfold split_on. induction s as [|a s IH].
  - change ("" +:+ String c r) with (String c r). cbn [split_where]. by rewrite Ascii.eqb_refl.
  - change (String a s +:+ String c r) with (String a (s +:+ String c r)). cbn [split_where]. destruct (Ascii.eqb c a); [by rewrite IH|].
    rewrite IH. pose proof (split_where_nonempty (Ascii.eqb c) s). by destruct (split_where (Ascii.eqb c) s).
Qed.

Lemma query_token_app `{PercentDecode} l1 l2 :
  query_token (l1 ++ l2) = match query_token l1 with Some token => Some token | None => query_token l2 end.
Proof.
  induction l1 as [|item l1 IH]; [done|]. cbn [app query_token].
  destruct (split_once _ item) as [[key value]|]; [|done]. destruct (key =? "token")%string; [|done].
  destruct (percent_decode value) as [decoded|]; [|done]. by destruct (starts_with "proxy_" decoded).
Qed.

Section Links.
Context `{Base64Laws, !Base64UrlSafe, TokenJsonLaws, Ed25519Laws} `{PercentDecodeLaws} `{UrlLaws}.

(** A proxy token goes through a query as it is. *)
Lemma proxy_token_text s now sub oid operation repo repo_type token e :
  sign_proxy s now sub oid operation repo repo_type = Ok (token, e) -> string_forallb is_unreserved token = true /\ starts_with "proxy_" token = true.
Proof.
  intros Es. pose proof (hub_sign_run s now (ReqProxy sub oid operation repo repo_type)) as Er. cbn [hub_sign] in Er. rewrite Es in Er.
  destruct now as [t|]; [|done]. destruct (_ <=? u64_max); [|done]. destruct (sign_claims _ _ _) as [token'| |] eqn:Ec; [|done..].
  cbn in Er. injection Er as <- ->. apply sign_claims_Ok in Ec as (_ & hj & cj & _ & _ & ->). cbn [hub_kind prefix].
  split; [|unfold starts_with; by rewrite strip_prefix_app]. by rewrite !string_forallb_app, !url_encode_unreserved.
Qed.

Lemma query_token_pair token : string_forallb is_unreserved token = true -> starts_with "proxy_" token = true ->
  query_token (split_on "&"%char ("token" +:+ "=" +:+ token)) = Some token.
Proof.
  intros Hu Hp. assert (forall c, is_unreserved c = false -> contains_char c token = false) as Hc
    by (intros c Hc; by eapply string_forallb_contains).
  rewrite split_on_plain by (rewrite !contains_char_app, Hc by done; done). cbn [query_token].
  change ("token" +:+ "=" +:+ token) with ("token" +:+ String "=" token). rewrite split_once_app by done. cbn [String.eqb Ascii.eqb Bool.eqb].
  rewrite percent_decode_plain by (by apply Hc). by rewrite Hp.
Qed.

Lemma proxied_url_query hub_url token u : string_forallb is_unreserved token = true ->
  url_query (proxied_url hub_url token u) =
    Some (match url_query u with None | Some "" => "token" +:+ "=" +:+ token | Some query => query +:+ "&" +:+ "token" +:+ "=" +:+ token end).
Proof.
  intros Hu. unfold proxied_url. rewrite query_append_pair by done.
  assert (forall (o : option Url) u, (forall u', o = Some u' -> url_query u' = url_query u) -> url_query (default u o) = url_query u) as Hkeep
    by (intros [u'|] u0 Ho; [by apply Ho|done]).
  rewrite (Hkeep _ _ (query_set_port _ _)), (Hkeep _ _ (query_set_host _ _)), (Hkeep _ _ (query_set_scheme _ _)). done.
Qed.

(** A web link is moved to the Hub: only its path stays. *)
Lemma proxied_url_base hub_url token u : web_url hub_url -> web_url u -> let link := proxied_url hub_url token u in
  url_scheme link = url_scheme hub_url /\ url_host_str link = url_host_str hub_url /\ url_port link = url_port hub_url /\ url_path link = url_path u.
Proof.
  intros Hh Hu. unfold proxied_url. cbn zeta. destruct (set_scheme_web hub_url u Hh Hu) as (u1 & -> & S1 & E1 & P1). cbn [from_option]; change (@id Url) with (fun x : Url => x); cbv beta.
  assert (web_url u1) as W1 by (split; [rewrite S1; apply Hh|rewrite E1; apply Hu]).
  destruct (set_host_web hub_url u1 Hh W1) as (u2 & -> & E2 & S2 & P2). cbn [from_option].
  assert (web_url u2) as W2 by (split; [rewrite S2, S1; apply Hh|rewrite E2; apply Hh]).
  destruct (set_port_web hub_url u2 Hh W2 ltac:(congruence)) as (u3 & -> & Q3 & S3 & E3 & P3). cbn [from_option].
  destruct (append_pair_base "token" token u3) as (-> & -> & -> & ->). repeat split; congruence.
Qed.

(** The token of a rewritten link, unless the link had one of its own. *)
Lemma proxied_url_token hub_url token u auth : string_forallb is_unreserved token = true -> starts_with "proxy_" token = true ->
  query_token (split_on "&"%char (default "" (url_query u))) = None ->
  extract_proxy_token (url_query (proxied_url hub_url token u)) auth = Some token.
Proof.
  intros Hu Hp Hnone. unfold extract_proxy_token. rewrite proxied_url_query by done. cbn [mbind option_bind].
  destruct (url_query u) as [q|]; [|by rewrite query_token_pair]. cbn [default] in Hnone.
  destruct q as [|a q]; [by rewrite query_token_pair|].
  change (query_token (split_on "&"%char (String a q)) = None) in Hnone.
  change (String a q +:+ "&" +:+ "token" +:+ "=" +:+ token) with (String a q +:+ String "&" ("token" +:+ "=" +:+ token)).
  by rewrite split_on_glue, query_token_app, Hnone, query_token_pair.
Qed.
End Links.

(** ** Every run of a program *)

(** Answers that occur: a clock is past the epoch, a transport does not panic. *)
Definition possible {A} (c : call A) : A -> Prop :=
  match c in call A return A -> Prop with
  | Clock => fun now => match now with Some t => 0 <= t | None => True end
  | Send _ => body_ok
  | _ => fun _ => True
  end.
Definition sent_after {A} (c : call A) (sent : list (http_request * http_answer)) : A -> list (http_request * http_answer) :=
  match c in call A return A -> list (http_request * http_answer) with Send rq => fun answer => sent ++ [(rq, answer)] | _ => fun _ => sent end.
(** [sent]: the requests that were sent, each with its answer. *)
Fixpoint every_run {R} (post : list (http_request * http_answer) -> R -> Prop) (sent : list (http_request * http_answer)) (p : prog R) : Prop :=
  match p with
  | Done r => post sent r
  | Call c k => forall a, possible c a -> every_run post (sent_after c sent a) (k a)
  end.

Lemma every_run_mono {R} (post post' : list (http_request * http_answer) -> R -> Prop) p : forall sent,
  (forall sent r, post sent r -> post' sent r) -> every_run post sent p -> every_run post' sent p.
Proof.
  induction p as [r|A c k IH]; intros sent Hpost; cbn [every_run]; [apply Hpost|]. intros Hk a Ha. apply IH; [done|by apply Hk].
Qed.
Lemma every_run_bind {R S} (post : list (http_request * http_answer) -> S -> Prop) (p : prog R) (f : R -> prog S) : forall sent,
  every_run (fun sent r => every_run post sent (f r)) sent p -> every_run post sent (prog_bind p f).
Proof.
  induction p as [r|A c k IH]; intros sent; cbn [every_run prog_bind]; [done|]. intros Hk a Ha. by apply IH, Hk.
Qed.

(** ** Rewritten answers *)
Lemma json_get_put key key' x v w : json_get key v = Some w -> json_get key' (json_put key x v) = if (key' =? key)%string then Some x else json_get key' v.
Proof.
  destruct v as [| | | | |fields]; [done..|]. cbn. intros _. destruct (String.eqb_spec key' key) as [->|Hne]; [by rewrite lookup_insert_eq|].
  by rewrite lookup_insert_ne by congruence.
Qed.
Lemma json_get_remove key key' v : json_get key' (json_remove key v) = if (key' =? key)%string then None else json_get key' v.
Proof.
  destruct v as [| | | | |fields]; cbn; try by destruct (key' =? key)%string. destruct (String.eqb_spec key' key) as [->|Hne]; [by rewrite lookup_delete_eq|].
  by rewrite lookup_delete_ne by congruence.
Qed.
Lemma json_get_put_other key key' x v : key' <> key -> json_get key' (json_put key x v) = json_get key' v.
Proof. destruct v as [| | | | |fields]; [done..|]. cbn. intros Hne. by rewrite lookup_insert_ne by congruence. Qed.

Definition oid_of (obj : json) : string := default "" (json_get "oid" obj ≫= as_str).
Definition objects_of (response : json) : list json := default [] (json_get "objects" response ≫= as_array).
Definition action_of (op : LfsOperation) (obj : json) : option json := json_get "actions" obj ≫= json_get (claim_value op).

Section Rewritten.
Context `{Base64Laws, !Base64UrlSafe, TokenJsonLaws, Ed25519Laws} `{PercentDecodeLaws} `{UrlLaws}.
Context (s : XetSigner) (Httl : 0 <= proxy_ttl_seconds s) (hub_url : Url).

(** An action that opens the object for the operation at the Hub, made of one
    whose link was [u0]: its link has the scheme, host and port of the Hub's URL
    and the path of [u0]; the token in it is the one the Hub takes from a request
    that follows the link, and it passes the Hub's guard for the token's lifetime;
    the headers carry it, or no authorization. *)
Definition opening_link (u0 : Url) (object : string) (op : LfsOperation) (action : json) : Prop :=
  exists href u token t,
    json_get "href" action = Some (JString href) /\ url_parse href = Some u /\
    (web_url hub_url -> web_url u0 -> url_scheme u = url_scheme hub_url /\ url_host_str u = url_host_str hub_url /\
       url_port u = url_port hub_url /\ url_path u = url_path u0) /\
    (query_token (split_on "&"%char (default "" (url_query u0))) = None -> forall auth, extract_proxy_token (url_query u) auth = Some token) /\
    (forall now, guard_authorize s (Some now) token object op = Ok tt <-> t <= now < t + proxy_ttl_seconds s) /\
    (forall h a, json_get "header" action = Some h -> json_get "Authorization" h = Some a -> a = JString ("Bearer " +:+ token)).

(** [opening_link] of an action with a link. *)
Definition opens (before : json) (object : string) (op : LfsOperation) (after : json) : Prop :=
  exists href u0, json_get "href" before = Some (JString href) /\ url_parse href = Some u0 /\ opening_link u0 object op after.

Lemma rewritten_action t username object op action action' token e : 0 <= t -> validate_oid object = true ->
  sign_proxy s (Some t) username object (claim_value op) "" "" = Ok (token, e) -> rewrite_action_url action hub_url token = Some action' ->
  opens action object op action'.
Proof.
  intros Ht Ho Es Er. unfold rewrite_action_url in Er. destruct (json_get "href" action) as [old|] eqn:Eold; [|done].
  destruct ((Some old ≫= as_str) ≫= url_parse) as [u0|] eqn:Eu; [|done].
  cbn [mbind option_bind] in Er. set (href := url_to_string (proxied_url hub_url token u0)) in *.
  destruct (proxy_token_text _ _ _ _ _ _ _ _ _ Es) as [Hun Hpre]. destruct (proxy_token_opens _ _ _ _ _ _ _ _ _ Ht Httl Es) as [-> Hop].
  assert (exists old_href, old = JString old_href /\ url_parse old_href = Some u0) as (old_href & -> & Eparse)
    by (destruct old as [| | |old_href| |]; [done..|by exists old_href|done|done]).
  exists old_href, u0. split; [done|]. split; [done|]. exists href, (proxied_url hub_url token u0), token, t.
  assert (json_get "href" (json_put "href" (JString href) action) = Some (JString href)) as Hh by (by rewrite (json_get_put _ _ _ _ _ Eold)).
  assert (json_get "header" (json_put "href" (JString href) action) = json_get "header" action) as Hhead by (by apply json_get_put_other).
  assert (json_get "href" action' = Some (JString href) /\
    forall h a, json_get "header" action' = Some h -> json_get "Authorization" h = Some a -> a = JString ("Bearer " +:+ token)) as [Hhref Hauth].
  { rewrite Hhead in Er. destruct (json_get "header" action) as [h|] eqn:Eh; [|injection Er as <-; rewrite Hhead; split; [done|by intros]].
    destruct (json_get "Authorization" h) as [a|] eqn:Ea; injection Er as <-.
    - rewrite json_get_put_other by done. split; [done|]. intros h' a'. rewrite (json_get_put _ _ _ _ _ Hhead). cbn [String.eqb Ascii.eqb Bool.eqb].
      intros [= <-]. rewrite (json_get_put _ _ _ _ _ Ea). cbn [String.eqb Ascii.eqb Bool.eqb]. congruence.
    - split; [done|]. rewrite Hhead. intros h' a' [= <-]. congruence. }
  split; [done|]. split; [apply url_parse_to_string|]. split; [intros Hw Hw0; by apply proxied_url_base|].
  split; [intros Hnone auth; by apply proxied_url_token|]. split; [|done].
  intros now. rewrite guard_opens, Hop. naive_solver.
Qed.

Lemma rewrite_operation_ok sent username object op actions : validate_oid object = true ->
  every_run (fun sent' actions' => sent' = sent /\
      (forall action, json_get (claim_value op) actions' = Some action ->
         exists before, json_get (claim_value op) actions = Some before /\ opens before object op action) /\
      forall key, key <> claim_value op -> json_get key actions' = json_get key actions)
    sent (rewrite_operation s hub_url username object (claim_value op) actions).
Proof.
  intros Ho. unfold rewrite_operation. destruct (json_get (claim_value op) actions) as [action|] eqn:Ea; cbn [every_run].
  2: { split; [done|]. split; [by rewrite Ea|done]. }
  intros now Hnow. cbn in Hnow.
  assert (forall key, key <> claim_value op -> json_get key (json_remove (claim_value op) actions) = json_get key actions) as Hrm.
  { intros key Hne. rewrite json_get_remove. by destruct (String.eqb_spec key (claim_value op)). }
  assert (json_get (claim_value op) (json_remove (claim_value op) actions) = None) as Hgone by (by rewrite json_get_remove, String.eqb_refl).
  destruct (sign_proxy s now username object (claim_value op) "" "") as [[token e]| |] eqn:Es; (split; [done|]); [|by rewrite Hgone..].
  destruct (rewrite_action_url action hub_url token) as [action'|] eqn:Er; [|by rewrite Hgone].
  split.
  - intros action''. rewrite (json_get_put _ _ _ _ _ Ea), String.eqb_refl. intros [= <-]. destruct now as [t|]; [|done]. exists action. split; [done|].
    by eapply rewritten_action.
  - intros key Hne. by apply json_get_put_other.
Qed.

(** What becomes of an object of the answer. *)
Definition object_rewritten (before after : json) : Prop :=
  oid_of after = oid_of before /\
  if validate_oid (oid_of before) then forall op action, action_of op after = Some action -> exists action0, action_of op before = Some action0 /\ opens action0 (oid_of before) op action
  else after = before.

Lemma rewrite_object_ok sent username obj :
  every_run (fun sent' obj' => sent' = sent /\ object_rewritten obj obj') sent (rewrite_object s hub_url username obj).
Proof.
  unfold rewrite_object, object_rewritten. change (default "" (json_get "oid" obj ≫= as_str)) with (oid_of obj).
  destruct (validate_oid (oid_of obj)) eqn:Ho; cbn [negb every_run]; [|done].
  destruct (json_get "actions" obj) as [actions|] eqn:Ea; cbn [every_run]; [|split; [done|]; split; [done|]; intros op action; unfold action_of; by rewrite Ea].
  apply every_run_bind. eapply every_run_mono; [|apply (rewrite_operation_ok sent username (oid_of obj) Upload actions Ho)].
  intros sent1 actions1 (-> & Hup & Hother1). apply every_run_bind.
  eapply every_run_mono; [|apply (rewrite_operation_ok sent username (oid_of obj) Download actions1 Ho)].
  intros sent2 actions2 (-> & Hdown & Hother2). cbn [every_run]. split; [done|].
  split; [unfold oid_of; by rewrite json_get_put_other|]. intros op action. unfold action_of. rewrite (json_get_put _ _ _ _ _ Ea), String.eqb_refl.
  rewrite Ea. cbn [mbind option_bind]. destruct op; [rewrite Hother2 by done; apply Hup|]. intros Hact.
  destruct (Hdown action Hact) as (before & Hb & Hopens). exists before. split; [|done]. etransitivity; [symmetry; by apply Hother1|exact Hb].
Qed.

Lemma rewrite_objects_ok username objects : forall sent,
  every_run (fun sent' objects' => sent' = sent /\ Forall2 object_rewritten objects objects') sent (rewrite_objects s hub_url username objects).
Proof.
  induction objects as [|obj objects IH]; intros sent; cbn [rewrite_objects every_run]; [split; [done|constructor]|].
  apply every_run_bind. eapply every_run_mono; [|apply rewrite_object_ok]. intros sent1 obj' [-> Hobj].
  apply every_run_bind. eapply every_run_mono; [|apply IH]. intros sent2 objects' [-> Hobjs]. cbn. split; [done|by constructor].
Qed.
End Rewritten.

(** ** The service *)
Section BatchTheorem.
Context `{Base64Laws, !Base64UrlSafe, TokenJsonLaws, Ed25519Laws} `{PercentDecodeLaws} `{UrlLaws} `{SerdeJson}.
Context (s : XetSigner) (Httl : 0 <= proxy_ttl_seconds s).

Lemma rewrite_batch_ok sent username base response :
  every_run (fun sent' response' => sent' = sent /\
      forall hub_url, url_parse base = Some hub_url -> Forall2 (object_rewritten s hub_url) (objects_of response) (objects_of response'))
    sent (rewrite_batch_urls response base s username).
Proof.
  unfold rewrite_batch_urls. destruct (url_parse base) as [hub_url|] eqn:Eb; [|by split].
  destruct (json_get "objects" response) as [objects|] eqn:Eo; cbn [mbind option_bind];
    [|split; [done|]; intros ? _; unfold objects_of; rewrite Eo; constructor].
  destruct (as_array objects) as [arr|] eqn:Ea; cbn; [|split; [done|]; intros ? _; unfold objects_of; rewrite Eo; cbn; rewrite Ea; constructor].
  apply every_run_bind. eapply every_run_mono; [|by apply (rewrite_objects_ok s Httl hub_url)].
  intros sent' arr' [-> Harr]. split; [done|]. intros hub_url' [= <-]. unfold objects_of. rewrite (json_get_put _ _ _ _ _ Eo), Eo. cbn. by rewrite Ea.
Qed.

Lemma sign_not_panic now username scope : sign s now username scope "" "" "" <> Panic.
Proof.
  pose proof (hub_sign_run s now (ReqUser username scope "" "" "")) as Er. cbn [hub_sign] in Er. rewrite Er.
  destruct now as [t|]; [|done]. destruct (_ <=? u64_max); [|done]. unfold sign_claims.
  pose proof (validate_claims_not_panic (hub_claims s t (ReqUser username scope "" "" "")) (hub_kind (ReqUser username scope "" "" ""))).
  destruct (validate_claims_for_kind _ _); [|done..]. destruct (header_to_vec _); [|done]. by destruct (claims_to_vec _).
Qed.

(** A user with a token for the operation, whose request may be forwarded, and
    the token the CAS server gets with it. *)
Definition may_forward (validate : string -> outcome SqlxError (option TokenInfo)) (auth_header : option string) (body : json) (cas_token : string) : Prop :=
  exists token info scope t e, extract_token auth_header = Some token /\ validate token = Ok (Some info) /\
    batch_scope (batch_operation body) = Some scope /\ scope_allows (ti_scope info) scope = true /\ (object_count body <= MAX_BATCH_SIZE)%nat /\
    sign s (Some t) (ti_username info) scope "" "" "" = Ok (cas_token, e).

(** C12: The links of a batch answer open their objects at the Hub.  In every run,
    a batch request reaches the CAS server at most once, unchanged, and only for
    a user whose token covers the operation, with a token of that one scope; a
    refusal is a client or server error.  The answer has the objects of the CAS
    server's answer.  Each action left for an object with a well-formed id is one
    the CAS server gave for it, with the link moved to the Hub: an http or https
    link has the scheme, host and port of the Hub's URL and keeps its path.  In it
    is a proxy token that is the one the Hub reads from a request for the link and
    that passes its guard for that object and operation, and no other, for the
    token's lifetime. *)
Theorem batch_links_open_their_objects cas_url hub_base_url validate auth_header body : (forall token, validate token <> Panic) ->
  every_run (fun sent answer =>
    match answer with
    | Some (inr response) =>
        exists cas_token reply cas_response, may_forward validate auth_header body cas_token /\
          sent = [(batch_request cas_url body cas_token, reply)] /\ batch_answer reply = Ok cas_response /\
          forall hub_url, url_parse hub_base_url = Some hub_url ->
            length (objects_of response) = length (objects_of cas_response) /\
            forall i obj cas_obj op action, objects_of response !! i = Some obj -> objects_of cas_response !! i = Some cas_obj ->
              validate_oid (oid_of obj) = true -> action_of op obj = Some action ->
              oid_of obj = oid_of cas_obj /\ exists cas_action, action_of op cas_obj = Some cas_action /\ opens s hub_url cas_action (oid_of obj) op action
    | Some (inl refused) => 400 <= hh_status refused < 600 /\
        (sent = [] \/ exists cas_token reply, may_forward validate auth_header body cas_token /\ sent = [(batch_request cas_url body cas_token, reply)])
    | None => False
    end) [] (lfs_batch s cas_url hub_base_url validate auth_header body).
Proof.
  intros Hval. unfold lfs_batch. destruct (extract_token auth_header) as [token|] eqn:Et; cbn [every_run]; [|by split; [|left]].
  apply every_run_bind. specialize (Hval token).
  assert (forall e, 400 <= hh_status (lfs_batch_error_response e) < 600) as Hst by (by intros []).
  unfold lfs_batch_service. destruct (validate token) as [[info|]|e|] eqn:Ev; cbn [map_err ok_or answer every_run];
    [|split; [apply Hst|by left]..|done].
  destruct (batch_scope (batch_operation body)) as [scope|] eqn:Es; cbn [ok_or answer every_run]; [|split; [apply Hst|by left]].
  destruct (scope_allows (ti_scope info) scope) eqn:Ea; cbn [negb every_run]; [|split; [apply Hst|by left]].
  destruct (Nat.ltb_spec MAX_BATCH_SIZE (object_count body)) as [Hbig|Hcount]; cbn [every_run]; [split; [apply Hst|by left]|].
  intros now _. destruct (sign s now (ti_username info) scope "" "" "") as [[cas_token e]|e|] eqn:Esg; cbn [map_err answer every_run];
    [|split; [apply Hst|by left]|by apply sign_not_panic in Esg].
  assert (may_forward validate auth_header body cas_token) as Hmay.
  { destruct now as [t|]; [|done]. by exists token, info, scope, t, e. }
  apply every_run_bind. intros reply Hreply. cbn [app every_run fst]. cbn in Hreply.
  assert (batch_answer reply <> Panic) as Hnp.
  { destruct reply as [|status hs cl pieces]; [done|]. unfold batch_answer. cbn in Hreply.
    pose proof (read_body_not_panic cl MAX_CAS_CONTROL_RESPONSE_SIZE pieces Hreply). destruct (read_response_body_limited _ _ _); cbn; [|done..].
    destruct (json_from_slice _); cbn; [|done]. by destruct (400 <=? status). }
  destruct (batch_answer reply) as [response|err|] eqn:Eanswer; cbn [map_err answer every_run]; [|split; [apply Hst|right; by exists cas_token, reply]|done].
  apply every_run_bind. eapply every_run_mono; [|apply (rewrite_batch_ok _ (ti_username info) hub_base_url response)].
  intros sent response' [-> Hre]. cbn [every_run]. exists cas_token, reply, response. split; [done|]. split; [done|]. split; [done|].
  intros hub_url Hurl. specialize (Hre hub_url Hurl). split; [symmetry; by eapply Forall2_length|].
  intros i obj before op action Hi Hbefore Hoid Hact. pose proof (Forall2_lookup_lr _ _ _ _ _ _ Hre Hbefore Hi) as [Ho Hrw]. rewrite Ho in Hoid. rewrite Hoid in Hrw. split; [done|]. rewrite Ho. by apply Hrw.
Qed.
End BatchTheorem.

(** A single run is one of them. *)
Lemma every_run_perform {R} (h : forall A, call A -> A) (post : list (http_request * http_answer) -> R -> Prop) p :
  (forall A (c : call A), possible c (h A c)) ->
  forall sent, every_run post sent p -> let '(sent', r) := perform h p in exists log, map fst log = sent' /\ post (sent ++ log) r.
Proof.
  intros Hh. induction p as [r|A c k IH]; intros sent; cbn [every_run perform]; [intros Hp; exists []; by rewrite app_nil_r|]. intros Hk.
  specialize (IH (h A c) _ (Hk (h A c) (Hh A c))). destruct (perform h (k (h A c))) as [sent' r]. destruct IH as (log & <- & Hpost).
  exists (sent_after c [] (h A c) ++ log). split; [by destruct c|]. destruct c; try done. cbn [sent_after app] in *. by rewrite <- app_assoc in Hpost.
Qed.

(** ** Witness *)
#[local] Existing Instances TokenModel.base64 TokenModel.json TokenModel.ed25519.
#[local] Existing Instances TokenModel.base64_laws TokenModel.json_laws TokenModel.ed25519_laws.
#[local] Existing Instances Model.hex Model.hex_laws Model.sha2 Model.sha2_laws.
#[local] Existing Instances UrlModel.crate UrlModel.laws.
#[local] Instance no_escapes : PercentDecode := Some.
#[local] Instance no_escapes_laws : PercentDecodeLaws.
Proof. by intros s. Qed.
#[local] Instance hex_is_url_safe : Base64UrlSafe.
Proof.
  intros bs. change (string_forallb is_unreserved (Model.encode bs) = true).
  induction bs as [|b bs IH]; [done|]. cbn [Model.encode string_forallb]. rewrite IH. by destruct b.
Qed.

Definition j_object (fields : list (string * json)) : json := JObject (list_to_map fields).
Definition sample_action (oid : string) : json :=
  j_object [("href", JString ("http://cas/lfs/objects/" +:+ oid)); ("header", j_object [("Authorization", JString "Bearer internal")])].
Definition sample_reply : json :=
  j_object [("objects", JArray [
    j_object [("oid", JString hello_oid); ("actions", j_object [("download", sample_action hello_oid)])];
    j_object [("oid", JString "not an oid"); ("actions", j_object [("download", sample_action "x")])]])].
(** The CAS server's answer is read as [sample_reply]. *)
#[local] Instance reply_json : SerdeJson := {| json_to_vec _ := []; json_from_slice _ := Some sample_reply |}.

Definition sample_body : json := j_object [("operation", JString "download"); ("objects", JArray [j_object [("oid", JString hello_oid)]])].
Definition a_reader (token : string) : outcome SqlxError (option TokenInfo) := Ok (Some (mkTokenInfo "user_1" "alice" "laptop" "read")).
Definition sample_batch : list http_request * option (hub_http + json) :=
  perform (answers 1000 []) (lfs_batch sample_signer "http://cas" "http://hub:8080" a_reader (Some "Bearer hf_x") sample_body).
Definition rewritten_objects : list json := match sample_batch.2 with Some (inr response) => objects_of response | _ => [] end.
Definition first_action : json := default JNull (head rewritten_objects ≫= action_of Download).

Lemma sample_answers_possible A (c : call A) : possible c (answers 1000 [] A c).
Proof. destruct c; cbn; try done. apply not_elem_of_nil. Qed.

Definition cas_action_of_sample : json := sample_action hello_oid.
Lemma sample_reply_read reply cas_response : @batch_answer reply_json reply = Ok cas_response -> cas_response = sample_reply.
Proof.
  destruct reply as [|status hs cl pieces]; [done|]. unfold batch_answer. destruct (read_response_body_limited _ _ _); cbn; [|done..].
  destruct (400 <=? status); cbn; [done|]. by intros [= <-].
Qed.

(** The link of the well-formed object opens it at the Hub; the other one is
    passed on as the CAS server gave it. *)
Lemma batch_links_open_their_objects_witness :
  (exists hub_url, url_parse "http://hub:8080" = Some hub_url /\ opens sample_signer hub_url cas_action_of_sample hello_oid Download first_action) /\
  is_Some ((json_get "href" first_action ≫= as_str) ≫= strip_prefix ("http://hub:8080/lfs/objects/" +:+ hello_oid +:+ "?token=proxy_")) /\
  ((rewritten_objects !! 1%nat ≫= action_of Download) ≫= json_get "href") = Some (JString "http://cas/lfs/objects/x").
Proof.
  split; [|split; [vm_compute; by eexists|vm_compute; reflexivity]].
  assert (map oid_of rewritten_objects = [hello_oid; "not an oid"]) as Hoids by (vm_compute; reflexivity).
  assert (match head rewritten_objects ≫= action_of Download with Some _ => true | None => false end = true) as Hfirst by (vm_compute; reflexivity).
  assert (validate_oid hello_oid = true) as Hvalid by (vm_compute; reflexivity).
  pose proof (batch_links_open_their_objects sample_signer ltac:(cbn; lia) "http://cas" "http://hub:8080" a_reader (Some "Bearer hf_x") sample_body ltac:(done)) as Ht.
  apply (every_run_perform _ _ _ sample_answers_possible) in Ht. fold sample_batch in Ht. unfold first_action, rewritten_objects in *.
  destruct (url_parse "http://hub:8080") as [hub_url|] eqn:Eurl; [|vm_compute in Eurl; discriminate Eurl].
  exists hub_url. split; [reflexivity|]. destruct sample_batch as [sent [[refused|response]|]]; cbn [snd] in *; [discriminate Hoids| |discriminate Hoids].
  destruct Ht as (log & _ & cas_token & reply & cas_response & _ & _ & Hreply & Ht). apply sample_reply_read in Hreply as ->.
  destruct (Ht hub_url eq_refl) as [_ Hlinks]. destruct (objects_of response) as [|obj objs]; [discriminate Hoids|].
  cbn [map] in Hoids. injection Hoids as Hoid _. cbn [head mbind option_bind] in *.
  destruct (action_of Download obj) as [action|] eqn:Ea; [|discriminate Hfirst]. cbn [default].
  assert (exists cas_obj, objects_of sample_reply !! 0%nat = Some cas_obj /\ action_of Download cas_obj = Some cas_action_of_sample) as (cas_obj & Hcas & Hact)
    by (eexists; split; [reflexivity|vm_compute; reflexivity]).
  destruct (Hlinks 0%nat obj cas_obj Download action eq_refl Hcas ltac:(rewrite Hoid; exact Hvalid) Ea) as (_ & cas_action & Hcas_action & Hopens).
  rewrite Hact in Hcas_action. injection Hcas_action as <-. rewrite Hoid in Hopens. exact Hopens.
Defined.
