(* ===== verification/HubStore.v ===== *)
(** * The metadata store as its clients see it

    The calls of the services, run on the tables, against what the histories
    of [HubHistory] say: [performs] runs a call on the tables, [told] is what
    its answer says about the histories, [record] what it does to them. *)
From stdpp Require Import gmap strings sorting.
From S2P Require Import Prelude Text TokenCrates HubMetadata HubHistory HubTree HubPrograms.

Local Open Scope string_scope.
Local Open Scope list_scope.
Local Open Scope Z_scope.

(** ** Events: calls with their answers *)
Inductive event :=
| EvCreate (namespace name : string) (type : RepoType) (private : bool) (answer : outcome MetadataError Repo)
| EvGetRepo (namespace name : string) (type : RepoType) (answer : outcome MetadataError Repo)
| EvDelete (repo : Z) (answer : outcome MetadataError unit)
| EvGetRevision (repo : Z) (commit : string) (answer : outcome MetadataError Revision)
| EvGetHead (repo : Z) (answer : outcome MetadataError (option string))
| EvResolve (repo : Z) (commit path : string) (answer : outcome MetadataError FileEntry)
| EvCommit (rev : Revision) (changes : list FileTreeChange) (expected_parent : option string) (answer : outcome MetadataError unit)
| EvSend (rq : http_request) (answer : http_answer)
| EvUnixNow (answer : Z)
| EvClock (answer : option Z)
| EvUuid (answer : string).

Definition event_of {A} (c : call A) : A -> event :=
  match c in call A return A -> event with
  | CreateRepo namespace name type private => EvCreate namespace name type private
  | GetRepo namespace name type => EvGetRepo namespace name type
  | DeleteRepo repo => EvDelete repo
  | GetRevision repo commit => EvGetRevision repo commit
  | GetHead repo => EvGetHead repo
  | ResolveFile repo commit path => EvResolve repo commit path
  | CommitChanges rev changes parent => EvCommit rev changes parent
  | Send rq => EvSend rq
  | UnixNow => EvUnixNow
  | Clock => EvClock
  | Uuid => EvUuid
  end.

(** ** Running a call on the tables.  Statements can fail, and what is not the
    store can answer anything. *)
Definition performs {A} (c : call A) : db -> db -> A -> Prop :=
  match c in call A return db -> db -> A -> Prop with
  | CreateRepo namespace name type private => fun d d' a => exists fails now, create_repo fails now namespace name type private d = (d', a)
  | GetRepo namespace name type => fun d d' a => d' = d /\ exists fails, get_repo fails namespace name type d = a
  | DeleteRepo repo => fun d d' a => exists fails, delete_repo fails repo d = (d', a)
  | GetRevision repo commit => fun d d' a => d' = d /\ exists fails, get_revision fails repo commit d = a
  | GetHead repo => fun d d' a => d' = d /\ exists fails, get_head fails repo d = a
  | ResolveFile repo commit path => fun d d' a => d' = d /\ exists fails, resolve_file fails repo commit path d = a
  | CommitChanges rev changes parent => fun d d' a => exists fails, commit_changes_atomic fails rev changes parent d = (d', a)
  | Send _ => fun d d' _ => d' = d
  | UnixNow => fun d d' a => d' = d /\ in_u64 a
  | Clock => fun d d' _ => d' = d
  | Uuid => fun d d' _ => d' = d
  end.

(** What the services respect in their calls. *)
Definition well_formed {A} (c : call A) : Prop :=
  match c with CommitChanges rev changes parent => rv_parent rev = parent /\ Forall (size_ok u64_max) changes | _ => True end.

(** ** The histories *)

(** The row a created repository has. *)
Definition row_of_repo (repo : Repo) : repo_row :=
  mkRepoRow (rp_name repo) (rp_namespace repo) (repo_type_str (rp_repo_type repo)) (rp_sha repo)
    (if rp_private repo then 1 else 0) (rp_created_at repo) (rp_updated_at repo).

Definition record (h : hub) (ev : event) : hub :=
  match ev with
  | EvCreate _ _ _ _ (Ok repo) => <[rp_id repo := mkRepository (row_of_repo repo) []]> h
  | EvDelete repo (Ok _) => delete repo h
  | EvCommit rev changes _ (Ok _) =>
      match h !! rv_repo_id rev with Some r => committed h r (mkCommit rev changes) | None => h end
  | _ => h
  end.
(** The histories after the events of a log, from the empty store. *)
Definition hub_of (events : list event) : hub := fold_left record events ∅.

(** Commit [n] of a repository, and the files it left. *)
Definition nth_commit (r : repository) (n : nat) (c : string) (files : gmap string file_row) : Prop :=
  exists cm, ar_commits r !! n = Some cm /\ cm_id cm = c /\ files = replay (take (S n) (ar_commits r)).

Definition no_panic {E A} (r : outcome E A) : Prop := match r with Panic => False | _ => True end.

(** What an answer says. *)
Definition told (h : hub) (ev : event) : Prop :=
  match ev with
  | EvCreate namespace name type private a =>
      match a with
      | Ok repo => h !! rp_id repo = None /\ rp_namespace repo = namespace /\ rp_name repo = name /\ rp_repo_type repo = type /\
                   rp_private repo = private
      | Err RepoAlreadyExists => exists id r, h !! id = Some r /\ same_repo namespace name (repo_type_str type) (ar_row r) = true
      | Err _ => True
      | Panic => False
      end
  | EvGetRepo namespace name type a =>
      match a with
      | Ok repo => exists r, h !! rp_id repo = Some r /\ row_to_repo (rp_id repo) (ar_row r) = Ok repo /\
                   same_repo namespace name (repo_type_str type) (ar_row r) = true
      | Err (RepoNotFound _) => forall id r, h !! id = Some r -> same_repo namespace name (repo_type_str type) (ar_row r) = false
      | Err _ => True
      | Panic => False
      end
  | EvDelete repo a =>
      match a with Ok _ => is_Some (h !! repo) | Err _ => True | Panic => False end
  | EvGetRevision repo c a =>
      match a with
      | Ok rev => exists r cm, h !! repo = Some r /\ cm ∈ ar_commits r /\ cm_revision cm = rev /\ rv_commit_id rev = c
      | Err RevisionNotFound => forall r cm, h !! repo = Some r -> cm ∈ ar_commits r -> cm_id cm <> c
      | Err _ => True
      | Panic => False
      end
  | EvGetHead repo a =>
      match a with Ok head => head = h !! repo ≫= (fun r => head_of (ar_commits r)) | Err _ => True | Panic => False end
  | EvResolve repo c path a =>
      match a with
      | Ok entry => exists r n files row, h !! repo = Some r /\ nth_commit r n c files /\ files !! path = Some row /\
                    entry = entry_of repo c (path, row)
      | Err FileNotFound => forall r n files, h !! repo = Some r -> nth_commit r n c files -> files !! path = None
      | Err _ => True
      | Panic => False
      end
  | EvCommit rev changes parent a =>
      match a with
      | Ok _ => exists r, h !! rv_repo_id rev = Some r /\ head_of (ar_commits r) = parent /\ fresh_id h (rv_commit_id rev)
      | Err (MdConflict head) =>
          h !! rv_repo_id rev ≫= (fun r => head_of (ar_commits r)) <> parent /\
          head = default "" (h !! rv_repo_id rev ≫= (fun r => head_of (ar_commits r)))
      | Err _ => True
      | Panic => False
      end
  | EvSend _ _ | EvClock _ | EvUuid _ => True
  | EvUnixNow now => in_u64 now
  end.

(** ** Answers are true, and the tables go on to hold the histories *)
Lemma created_row now repo row namespace name type private :
  row = new_row now namespace name type private -> row_to_repo (rp_id repo) row = Ok repo ->
  row = row_of_repo repo /\ rp_namespace repo = namespace /\ rp_name repo = name /\ rp_repo_type repo = type /\ rp_private repo = private.
Proof.
  intros ->. unfold row_to_repo, new_row. cbn [rr_repo_type]. rewrite repo_type_round_trip. intros [= <-]. by destruct private.
Qed.

Lemma create_repo_ids fails now namespace name type private d d' repo :
  create_repo fails now namespace name type private d = (d', Ok repo) -> next_id d = rp_id repo /\ next_id d' = rp_id repo + 1.
Proof.
  unfold create_repo. destruct (fails 0%nat); [done|]. destruct (find_repo _ _ _ d); [done|].
  destruct (_ <? _); [done|]. by intros [= <- <-].
Qed.

(** Statements that leave the counter of the repositories alone. *)
Definition keeps {A} (c : sql A) : Prop := forall n d, next_id (c n d).1.2 = next_id d.

Section Keeps.
Context (fails : nat -> bool).
Lemma keeps_lift {A} (r : outcome MetadataError A) : keeps (lift r).
Proof. done. Qed.
Lemma keeps_fetch {A} (q : db -> A) : keeps (fetch fails q).
Proof. intros n d. unfold fetch. by destruct (fails n). Qed.
Lemma keeps_execute change : (forall d d', change d = Some d' -> next_id d' = next_id d) -> keeps (execute fails change).
Proof.
  intros Hc n d. unfold execute. destruct (fails n); [done|]. destruct (change d) as [d1|] eqn:E; [|done].
  destruct (bool_decide _); [by apply Hc|done].
Qed.
Lemma keeps_bind {A B} (c : sql A) (k : A -> sql B) : keeps c -> (forall a, keeps (k a)) -> keeps (bind c k).
Proof.
  intros Hc Hk n d. unfold bind. specialize (Hc n d). destruct (c n d) as [[n1 d1] [a| |]]; [|done..]. by rewrite Hk.
Qed.
Lemma keeps_for_each {A} (f : A -> sql unit) l : (forall a, keeps (f a)) -> keeps (for_each f l).
Proof. intros Hf. induction l as [|a l IH]; cbn [for_each]; [apply keeps_lift|]. by apply keeps_bind. Qed.
Lemma keeps_transaction explicit body d : keeps body -> next_id (transaction fails explicit body d).1 = next_id d.
Proof.
  intros Hb. unfold transaction. destruct (fails 0%nat); [done|]. specialize (Hb 1%nat d).
  destruct (body 1%nat d) as [[n d'] [[]| |]]; [by destruct (fails n)|done|done].
Qed.
End Keeps.
Create HintDb keeps.
#[local] Hint Resolve keeps_lift keeps_fetch keeps_execute keeps_bind keeps_for_each : keeps.

Lemma delete_repo_ids fails repo d : next_id (delete_repo fails repo d).1 = next_id d.
Proof.
  apply keeps_transaction. do 3 (apply keeps_bind; [apply keeps_execute; by intros ? ? [= <-]|intros _]).
  apply keeps_bind; [|intros []; apply keeps_lift]. intros n d1.
  destruct (execute _ _ n d1) as [[n' d'] r] eqn:E. change d' with (n', d', r).1.2. rewrite <- E.
  apply keeps_execute. by intros ? ? [= <-].
Qed.

Lemma commit_ids fails rev changes parent d : next_id (commit_changes_atomic fails rev changes parent d).1 = next_id d.
Proof.
  apply keeps_transaction. apply keeps_bind; [apply keeps_fetch|intros current]. destruct (negb _); [apply keeps_lift|].
  apply keeps_bind; [apply keeps_execute|intros _].
  { intros d1 d2. unfold insert_revision. destruct (revisions d1 !! _); [done|]. by intros [= <-]. }
  apply keeps_bind; [|intros _; apply keeps_bind; [|intros _; apply keeps_execute; by intros ? ? [= <-]]].
  - destruct parent; [|apply keeps_lift]. apply keeps_execute. intros d1 d2. unfold copy_tree. case_bool_decide; [|done]. by intros [= <-].
  - apply keeps_for_each. intros [e|path]; [apply keeps_bind; [apply keeps_lift|intros size]|]; apply keeps_execute; by intros ? ? [= <-].
Qed.

(** The id a call gives to a repository is one that none had. *)
Definition ids_grow {A} (c : call A) (d d' : db) (a : A) : Prop :=
  match event_of c a with
  | EvCreate _ _ _ _ (Ok repo) => next_id d = rp_id repo /\ next_id d' = rp_id repo + 1
  | _ => next_id d' = next_id d
  end.

Lemma performs_ids {A} (c : call A) d d' a : performs c d d' a -> ids_grow c d d' a.
Proof.
  unfold ids_grow. destruct c; cbn [performs event_of];
    try (by intros [-> _]); try (by intros ->).
  - intros (fails & now & E). destruct a as [repo|e|]; [by eapply create_repo_ids|..]; unfold create_repo in E; repeat case_match; by simplify_eq.
  - intros (fails & E). pose proof (delete_repo_ids fails repo d) as Hk. by rewrite E in Hk.
  - intros (fails & E). pose proof (commit_ids fails rev changes expected_parent d) as Hk. by rewrite E in Hk.
Qed.

Lemma get_repo_told fails namespace name type d h :
  represents d h -> told h (EvGetRepo namespace name type (get_repo fails namespace name type d)).
Proof.
  intros Hd. pose proof (get_repo_not_panic fails namespace name type d h Hd) as Hp. cbn [told].
  destruct (get_repo fails namespace name type d) as [repo|e|] eqn:E; [|destruct e; try done|done].
  - unfold get_repo in E. destruct (fails 0%nat); [done|]. destruct (find_repo _ _ _ d) as [[id row]|] eqn:Ef; [|done].
    apply (find_repo_spec _ _ _ _ _ Hd) in Ef as (r & Hr & <- & Hsame). exists r.
    destruct (row_to_repo_spec _ _ _ _ Hd Hr) as (t & _ & Ht). rewrite Ht in E. injection E as <-. done.
  - intros id r Hr. unfold get_repo in E. destruct (fails 0%nat); [done|].
    destruct (find_repo _ _ _ d) as [[id' row]|] eqn:Ef.
    + apply (find_repo_spec _ _ _ _ _ Hd) in Ef as (r' & Hr' & <- & _).
      destruct (row_to_repo_spec _ _ _ _ Hd Hr') as (t & _ & Ht). congruence.
    + apply (find_repo_None _ _ _ _ Ef id). by rewrite (rep_repos _ _ Hd), lookup_fmap, Hr.
Qed.

Lemma told_repo h namespace name type repo : told h (EvGetRepo namespace name type (Ok repo)) -> rp_namespace repo = namespace.
Proof.
  intros (r & _ & Hrow & (Hns & _)%same_repo_iff). unfold row_to_repo in Hrow.
  destruct (repo_type_from_str _); [|done..]. by injection Hrow as <-.
Qed.

Lemma get_revision_told fails repo c d h : represents d h -> told h (EvGetRevision repo c (get_revision fails repo c d)).
Proof.
  intros Hd. cbn [told]. destruct (get_revision fails repo c d) as [rev|e|] eqn:E.
  - by apply (get_revision_Ok fails repo c d h).
  - destruct e; try done. intros r cm Hr Hcm <-. unfold get_revision in E. destruct (fails 0%nat); [done|].
    destruct (rep_ids _ _ Hd _ _ Hr) as (_ & _ & Hok). pose proof Hcm as (i & Hi)%list_elem_of_lookup.
    destruct (ho_commit _ _ Hok _ _ Hi) as (Hrepo & _).
    assert (revisions d !! cm_id cm = Some (cm_revision cm)) as Hrev.
    { apply (rep_revisions _ _ Hd). split; [done|]. exists r, cm. by rewrite Hrepo. }
    rewrite Hrev in E. by rewrite Hrepo, Z.eqb_refl in E.
  - unfold get_revision in E. destruct (fails 0%nat); [done|]. destruct (revisions d !! c) as [rev|]; [|done]. by destruct (_ =? _).
Qed.

Lemma resolve_file_told fails repo c path d h : represents d h -> told h (EvResolve repo c path (resolve_file fails repo c path d)).
Proof.
  intros Hd. cbn [told]. rewrite (resolve_file_spec _ _ _ _ _ _ Hd). destruct (fails 0%nat); [done|].
  assert (forall r n files, h !! repo = Some r -> nth_commit r n c files -> files = tree d repo c) as Hfiles.
  { intros r n files Hr (cm & Hn & <- & ->). symmetry. by apply (rep_trees _ _ Hd). }
  destruct (tree d repo c !! path) as [row|] eqn:Ht.
  - destruct (rep_no_tree _ _ Hd repo c) as (r & cm & Hr & (n & Hn)%list_elem_of_lookup & Hc).
    { intros E. by rewrite E, lookup_empty in Ht. }
    exists r, n, (tree d repo c), row. split; [done|]. split; [|done]. exists cm. split; [done|]. split; [done|].
    rewrite <- Hc. by apply (rep_trees _ _ Hd).
  - intros r n files Hr Hn. by rewrite (Hfiles _ _ _ Hr Hn).
Qed.

(** One call of a client: its answer is true of the histories, and the tables
    hold the histories the call leaves. *)
Lemma performs_told {A} (c : call A) d d' h a :
  represents d h -> well_formed c -> performs c d d' a -> told h (event_of c a) /\ represents d' (record h (event_of c a)).
Proof.
  intros Hd. destruct c; cbn [performs event_of well_formed]; try (intros _ [-> (fails & <-)]).
  - intros _ (fails & now & E). pose proof (create_repo_spec fails now namespace name type private d h Hd) as Hc.
    rewrite E in Hc. destruct a as [repo|e|]; [|destruct Hc as [-> Hc]|done].
    + destruct Hc as (Hfree & Hrow & Hrep). destruct (created_row _ _ _ _ _ _ _ eq_refl Hrow) as (Er & Hfields).
      rewrite Er in Hrep. cbn [told record]. by intuition.
    + cbn [told record]. split; [destruct e; try done; by apply Hc|done].
  - split; [by apply get_repo_told|done].
  - intros _ (fails & E). pose proof (delete_repo_spec fails repo d h Hd) as Hs. rewrite E in Hs.
    destruct a as [[]|e|]; cbn [told record]; [done|by subst|done].
  - split; [by apply get_revision_told|done].
  - split; [|done]. cbn [told]. rewrite (get_head_spec _ _ _ _ Hd). by destruct (fails 0%nat).
  - split; [by apply resolve_file_told|done].
  - intros [Hp Hs] (fails & E). destruct a as [[]|e|]; cbn [told record].
    + destruct (commit_Ok _ _ _ _ _ _ _ Hd Hp Hs E) as (r & Hr & Hh & Hf & Hrep). rewrite Hr. split; [by exists r|done].
    + pose proof (commit_Err _ _ _ _ _ _ _ E) as ->. split; [|done]. destruct e; try done.
      apply commit_conflict in E. by rewrite (rep_heads _ _ Hd) in E.
    + pose proof (commit_not_panic fails rev changes expected_parent d) as Hn. by rewrite E in Hn.
  - by intros _ ->.
  - by intros _ [-> Hu].
  - by intros _ ->.
  - by intros _ ->.
Qed.
