(* ===== verification/HubContracts.v ===== *)
(** * What each service of the Hub does, whatever answers it gets

    [runs post p past]: every run of the program [p], after the events [past],
    makes only well-formed calls and ends in an answer that [post] allows
    together with all its events.  The contracts say which events stand behind
    an answer; [HubSystem] reads them against the histories. *)
From stdpp Require Import gmap strings.
From Stdlib Require Import Ascii.
From S2P Require Import Prelude Bytes Crates MerkleHash Hash Text TokenCrates Tokens HubSigner HubMetadata HubHistory HubTree HubPrograms HubCommit HubRepos HubStore.

Local Open Scope string_scope.
Local Open Scope list_scope.
Local Open Scope Z_scope.

(** The repository was looked up, and is in the namespace of the user. *)
Definition owned (user : string) (past : list event) (id : Z) : Prop :=
  exists namespace name type repo, EvGetRepo namespace name type (Ok repo) ∈ past /\ rp_id repo = id /\ rp_namespace repo = user.

(** The calls a service may make for a user. *)
Definition may (user : string) (past : list event) {A} (c : call A) : Prop :=
  well_formed c /\
  match c with
  | CreateRepo namespace _ _ _ => namespace = user
  | DeleteRepo repo => owned user past repo
  | CommitChanges rev _ _ => owned user past (rv_repo_id rev)
  | _ => True
  end.

Lemma owned_app user past1 past2 id : owned user past2 id -> owned user (past1 ++ past2) id.
Proof. intros (ns & name & type & repo & Hin & Hr). exists ns, name, type, repo. split; [apply elem_of_app; by right|done]. Qed.
Lemma may_app user past1 past2 {A} (c : call A) : may user past2 c -> may user (past1 ++ past2) c.
Proof. intros [Hw Hc]. split; [done|]. destruct c; try done; by apply owned_app. Qed.

Section Runs.
Context (user : string).

Fixpoint runs {R} (post : list event -> R -> Prop) (p : prog R) (past : list event) : Prop :=
  match p with
  | Done r => post past r
  | Call c k => may user past c /\ forall a, (exists h, told h (event_of c a)) -> runs post (k a) (past ++ [event_of c a])
  end.

(** ** Rules *)
Lemma runs_mono {R} (post post' : list event -> R -> Prop) p past :
  (forall evs r, post evs r -> post' evs r) -> runs post p past -> runs post' p past.
Proof.
  intros Hpost. revert past. induction p as [r|A c k IH]; intros past; cbn [runs]; [apply Hpost|].
  intros [Hc Hk]. split; [done|]. intros a Ha. by apply IH, Hk.
Qed.

Lemma runs_bind {R S} (post : list event -> S -> Prop) (p : prog R) (f : R -> prog S) past :
  runs (fun evs r => runs post (f r) evs) p past -> runs post (prog_bind p f) past.
Proof.
  revert past. induction p as [r|A c k IH]; intros past; cbn [runs prog_bind]; [done|].
  intros [Hc Hk]. split; [done|]. intros a Ha. by apply IH, Hk.
Qed.

(** A run from the start is a run from any past. *)
Lemma runs_past {R} (post : list event -> R -> Prop) p past : runs (fun evs r => post (past ++ evs) r) p [] -> runs post p past.
Proof.
  assert (forall past1 past2, runs (fun evs r => post (past1 ++ evs) r) p past2 -> runs post p (past1 ++ past2)) as Hgen.
  { induction p as [r|A c k IH]; intros past1 past2; cbn [runs]; [done|].
    intros [Hc Hk]. split; [by apply may_app|]. intros a Ha. rewrite <- app_assoc. by apply IH, Hk. }
  intros Hr. rewrite <- (app_nil_r past). by apply Hgen.
Qed.

(** The answer of a program that fails where one of its parts does. *)
Lemma runs_answer {E A R} (post : list event -> outcome E R -> Prop) (r : outcome E A) (k : A -> prog (outcome E R)) past :
  (forall a, r = Ok a -> runs post (k a) past) -> (forall e, r = Err e -> post past (Err e)) -> (r = Panic -> post past Panic) ->
  runs post (answer r k) past.
Proof. destruct r; cbn [answer runs]; intros Hok He Hp; [by apply Hok|by apply He|by apply Hp]. Qed.
End Runs.

(** ** Events that change the store *)
Definition changes_store (ev : event) : bool :=
  match ev with EvCreate _ _ _ _ (Ok _) | EvDelete _ (Ok _) | EvCommit _ _ _ (Ok _) => true | _ => false end.
Definition quiet (evs : list event) : Prop := Forall (fun ev => changes_store ev = false) evs.

Lemma quiet_nil : quiet [].
Proof. constructor. Qed.
Lemma quiet_snoc evs ev : quiet evs -> changes_store ev = false -> quiet (evs ++ [ev]).
Proof. intros Hq He. apply Forall_app. split; [done|]. by constructor. Qed.
(** The three events that change the store, and the rest. *)
Variant change_view : event -> Prop :=
| view_create namespace name type private repo : change_view (EvCreate namespace name type private (Ok repo))
| view_delete id u : change_view (EvDelete id (Ok u))
| view_commit rev changes parent u : change_view (EvCommit rev changes parent (Ok u))
| view_quiet ev : changes_store ev = false -> change_view ev.
Lemma change_cases ev : change_view ev.
Proof. destruct ev as [? ? ? ? [| |]| |? [| |]| | | |? ? ? [| |]| | | |]; by constructor. Qed.
Lemma record_quiet h ev : changes_store ev = false -> record h ev = h.
Proof. by destruct ev as [? ? ? ? [| |]| |? [| |]| | | |? ? ? [| |]| | | |]. Qed.
Create HintDb quiet.
#[export] Hint Resolve quiet_nil quiet_snoc : quiet.

Section Parts.
Context (user : string).
#[local] Abbreviation runs := (runs user).

(** A part of a service: it only adds events that change nothing, and a result is [good]. *)
Definition part {E A} (good : list event -> A -> Prop) (p : prog (outcome E A)) : Prop :=
  runs (fun evs r => quiet evs /\ (forall a, r = Ok a -> good evs a)) p [].

Lemma part_mono {E A} (good good' : list event -> A -> Prop) (p : prog (outcome E A)) :
  (forall evs a, good evs a -> good' evs a) -> part good p -> part good' p.
Proof. intros Hg. apply runs_mono. intros evs r [Hq Hr]. split; [done|]. intros a Ha. by apply Hg, Hr. Qed.

Lemma runs_part {E A R} (good : list event -> A -> Prop) (post : list event -> R -> Prop)
    (p : prog (outcome E A)) (f : outcome E A -> prog R) past :
  part good p ->
  (forall evs a, quiet evs -> good evs a -> runs post (f (Ok a)) (past ++ evs)) ->
  (forall evs r, quiet evs -> is_ok r = false -> runs post (f r) (past ++ evs)) ->
  runs post (prog_bind p f) past.
Proof.
  intros Hp Hok Herr. apply runs_bind, runs_past. eapply runs_mono; [|exact Hp]. intros evs r [Hq Hr].
  destruct r as [a|e|]; [by apply Hok; [|apply Hr]|by apply Herr|by apply Herr].
Qed.

Lemma part_Ok {E A} (good : list event -> A -> Prop) a : good [] a -> part good (Done (@Ok E A a)).
Proof. intros Hg. split; [apply quiet_nil|]. by intros ? [= <-]. Qed.
Lemma part_fail {E A} (good : list event -> A -> Prop) (r : outcome E A) : is_ok r = false -> part good (Done r).
Proof. intros Hr. split; [apply quiet_nil|]. by intros a ->. Qed.
Lemma part_answer {E A B} (good : list event -> B -> Prop) (r : outcome E A) (k : A -> prog (outcome E B)) :
  (forall a, r = Ok a -> part good (k a)) -> part good (answer r k).
Proof. intros Hk. destruct r as [a|e|]; cbn [answer]; [by apply Hk|by apply part_fail..]. Qed.
Lemma part_bind {E A F B} (good : list event -> A -> Prop) (good' : list event -> B -> Prop) (p : prog (outcome E A)) (f : outcome E A -> prog (outcome F B)) :
  part good p ->
  (forall evs a, quiet evs -> good evs a -> part (fun evs' => good' (evs ++ evs')) (f (Ok a))) ->
  (forall r evs, is_ok r = false -> part (fun evs' => good' (evs ++ evs')) (f r)) ->
  part good' (prog_bind p f).
Proof.
  intros Hp Hok Herr. eapply runs_part; [exact Hp| |]; cbn [app].
  - intros evs a Hq Hg. apply runs_past. eapply runs_mono; [|apply (Hok evs a Hq Hg)].
    intros evs' r [Hq' Hr]. split; [by apply Forall_app|done].
  - intros evs r Hq Hr. apply runs_past. eapply runs_mono; [|apply (Herr r evs Hr)].
    intros evs' r' [Hq' Hr']. split; [by apply Forall_app|done].
Qed.
Lemma part_run {E A B} (good : list event -> A -> Prop) (good' : list event -> B -> Prop) (p : prog (outcome E A)) (k : A -> prog (outcome E B)) :
  part good p -> (forall evs a, quiet evs -> good evs a -> part (fun evs' => good' (evs ++ evs')) (k a)) -> part good' (run_try p k).
Proof.
  intros Hp Hk. eapply part_bind; [exact Hp|exact Hk|]. intros r evs Hr. destruct r; [done|by apply part_fail..].
Qed.

End Parts.

(** ** Commits *)
Section Commit.
Context `{HexCrate, Sha2, Base64, TokenJson, Ed25519, CommitJson}.
Context (cas_url : string) (signer : XetSigner).

(** The CAS server took these bytes under their digest. *)
Definition stored (token : string) (evs : list event) (data : list byte) : Prop :=
  exists status headers content_length pieces,
    EvSend (upload_request cas_url (hex_encode (sha256_digest data)) data token) (HttpResponse status headers content_length pieces) ∈ evs /\
    is_success status = true.
(** The CAS server said it has an object of that size. *)
Definition confirmed (token : string) (evs : list event) (oid : string) (size : Z) : Prop :=
  exists answer state, EvSend (head_request cas_url oid token) answer ∈ evs /\ head_blob_answer oid answer = Ok state /\ bs_size state = size.

(** The change an operation asks for, and what was checked about it. *)
Definition change_of (repo_id : Z) (commit_id write_token internal_token : string) (evs : list event) (op : TreeOperation) (change : FileTreeChange) : Prop :=
  match op with
  | TrFile f => exists content,
      validate_file_path (fo_path f) = Ok tt /\ decode_base64_content (fo_content f) = Ok content /\ len content <= MAX_INLINE_SIZE /\
      stored write_token evs content /\
      change = Upsert (mkEntry (fo_path f) repo_id commit_id (len content) (hex_encode (sha256_digest content)) false)
  | TrLfsFile l =>
      validate_file_path (lo_path l) = Ok tt /\ String.length (lo_oid l) = 64%nat /\ all_hexdigits (lo_oid l) = true /\
      lo_size l <= i64_max /\ confirmed internal_token evs (lo_oid l) (lo_size l) /\
      change = Upsert (mkEntry (lo_path l) repo_id commit_id (lo_size l) (lo_oid l) true)
  | TrDeletedEntry d => validate_file_path (do_path d) = Ok tt /\ change = HubMetadata.Delete (do_path d)
  end.

Lemma stored_mono token evs evs' data : (forall ev, ev ∈ evs -> ev ∈ evs') -> stored token evs data -> stored token evs' data.
Proof. intros Hsub (st & hd & cl & ps & Hin & Hs). exists st, hd, cl, ps. split; [by apply Hsub|done]. Qed.
Lemma confirmed_mono token evs evs' oid size : (forall ev, ev ∈ evs -> ev ∈ evs') -> confirmed token evs oid size -> confirmed token evs' oid size.
Proof. intros Hsub (ans & st & Hin & Hs). exists ans, st. split; [by apply Hsub|done]. Qed.
Lemma change_of_mono repo_id commit_id wt it evs evs' op change :
  (forall ev, ev ∈ evs -> ev ∈ evs') -> change_of repo_id commit_id wt it evs op change -> change_of repo_id commit_id wt it evs' op change.
Proof.
  intros Hsub. destruct op as [f|l|d]; cbn [change_of]; [|by intuition eauto using confirmed_mono|done].
  intros (content & ?). exists content. intuition eauto using stored_mono.
Qed.

Section CommitParts.
Context (user : string).
#[local] Abbreviation part := (part user).

Lemma upload_part oid data token :
  part (fun evs _ => exists status headers content_length pieces,
          EvSend (upload_request cas_url oid data token) (HttpResponse status headers content_length pieces) ∈ evs /\ is_success status = true)
    (proxy_lfs_upload cas_url oid data token).
Proof.
  unfold part, proxy_lfs_upload. cbn [runs event_of well_formed]. split; [done|]. intros ans _. split; [eauto with quiet|].
  intros [] Ha. destruct ans as [|status headers cl pieces]; [done|]. cbn [upload_answer] in Ha. exists status, headers, cl, pieces.
  split; [by apply list_elem_of_singleton|]. destruct (is_success status); [done|].
  by destruct (map_err _ (read_response_body_limited _ _ _)).
Qed.

Lemma head_blob_part oid token :
  part (fun evs state => exists answer, EvSend (head_request cas_url oid token) answer ∈ evs /\ head_blob_answer oid answer = Ok state)
    (head_blob cas_url oid token).
Proof.
  unfold part, head_blob. cbn [runs event_of well_formed]. split; [done|]. intros ans _. split; [eauto with quiet|].
  intros state Ha. exists ans. split; [by apply list_elem_of_singleton|done].
Qed.

Lemma map_err_Ok {E F A} (f : E -> F) (r : outcome E A) a : map_err f r = Ok a -> r = Ok a.
Proof. by destruct r; cbn; intros [=]; subst. Qed.

Lemma process_operation_part op repo_id commit_id wt it :
  part (fun evs change => change_of repo_id commit_id wt it evs op change) (process_operation cas_url op repo_id commit_id wt it).
Proof.
  destruct op as [f|l|d]; cbn [process_operation change_of].
  - eapply part_run with (good := fun evs entry => change_of repo_id commit_id wt it evs (TrFile f) (Upsert entry)).
    2: { intros evs entry _ Hg. apply part_Ok. by rewrite app_nil_r. }
    apply part_answer. intros [] Hpath%map_err_Ok. apply part_answer. intros content Hc%map_err_Ok.
    destruct (Z.ltb_spec MAX_INLINE_SIZE (len content)) as [|Hle]; [by apply part_fail|].
    eapply part_bind; [apply upload_part| |intros r evs Hr; destruct r; [done|by apply part_fail..]].
    intros evs [] _ Hstored. apply part_answer. intros _ _. apply part_Ok. rewrite app_nil_r. by exists content.
  - eapply part_run with (good := fun evs entry => change_of repo_id commit_id wt it evs (TrLfsFile l) (Upsert entry)).
    2: { intros evs entry _ Hg. apply part_Ok. by rewrite app_nil_r. }
    apply part_answer. intros [] Hpath%map_err_Ok. destruct (String.length (lo_oid l) =? 64)%nat eqn:El; cbn [andb negb]; [|by apply part_fail].
    destruct (all_hexdigits (lo_oid l)) eqn:Eh; cbn [negb]; [|by apply part_fail].
    destruct (Z.leb_spec (lo_size l) i64_max) as [Hle|]; cbn [negb]; [|by apply part_fail].
    eapply part_bind; [apply head_blob_part| |intros r evs Hr; destruct r as [|[]|]; (done || by apply part_fail)].
    intros evs state _ (ans & Hin & Ha). destruct (Z.eqb_spec (bs_size state) (lo_size l)) as [Hs|]; [|by apply part_fail].
    apply part_Ok. rewrite app_nil_r. apply Nat.eqb_eq in El. repeat (split; [done|]). split; [|done]. by exists ans, state.
  - apply part_answer. intros [] Hpath%map_err_Ok. by apply part_Ok.
Qed.

Lemma process_operations_part ops repo_id commit_id wt it :
  part (fun evs changes => Forall2 (change_of repo_id commit_id wt it evs) ops changes) (process_operations cas_url ops repo_id commit_id wt it).
Proof.
  induction ops as [|op ops IH]; cbn [process_operations]; [by apply part_Ok|].
  eapply part_run; [apply process_operation_part|]. intros evs change _ Hc.
  eapply part_run; [apply IH|]. intros evs' changes _ Hcs. apply part_Ok. rewrite app_nil_r. constructor.
  - eapply change_of_mono; [|exact Hc]. intros ev Hin. apply elem_of_app. by left.
  - eapply Forall2_impl; [exact Hcs|]. intros o c. apply change_of_mono. intros ev Hin. apply elem_of_app. by right.
Qed.

Lemma signed_if_part needed sign_at msg :
  part (fun evs token => needed = true -> exists now e, EvClock now ∈ evs /\ sign_at now = Ok (token, e)) (signed_if needed sign_at msg).
Proof.
  unfold signed_if. destruct needed; [|by apply part_Ok]. split; [done|]. intros now _. cbn [runs event_of].
  split; [eauto with quiet|]. intros token Ht%map_err_Ok _. destruct (sign_at now) as [[t e]| |] eqn:Es; [|done..].
  injection Ht as <-. exists now, e. split; [by apply list_elem_of_singleton|done].
Qed.

End CommitParts.

(** What is behind the answer to a request to commit. *)
Definition commit_contract (rq : CommitRequest) (evs : list event) (r : outcome CommitServiceError CommitResponse) : Prop :=
  match r with
  | Ok resp => exists before repo header ops changes timestamp wt it,
      let rev := mkRevision (cr_commit_oid resp) (rp_id repo) (ch_parent_revision header) (ch_summary header) (cq_username rq) timestamp in
      evs = before ++ [EvCommit rev changes (ch_parent_revision header) (Ok tt)] /\ quiet before /\
      cq_namespace rq = cq_username rq /\ cq_revision rq = "main" /\
      EvGetRepo (cq_namespace rq) (cq_repo_name rq) (cq_repo_type rq) (Ok repo) ∈ before /\
      EvGetHead (rp_id repo) (Ok (ch_parent_revision header)) ∈ before /\
      parse_commit_body (cq_body rq) = Ok (header, ops) /\
      Forall2 (change_of (rp_id repo) (cr_commit_oid resp) wt it before) ops changes /\
      (existsb is_lfs_op ops = true -> exists now e, EvClock now ∈ before /\ sign_internal signer now = Ok (it, e)) /\
      (existsb is_file_op ops = true -> exists now e, EvClock now ∈ before /\
        sign signer now (cq_username rq) "write" (cq_namespace rq +:+ "/" +:+ cq_repo_name rq)
          (repo_type_str (cq_repo_type rq)) (cq_revision rq) = Ok (wt, e))
  | _ => quiet evs
  end.

Lemma parse_operations_sizes `{!CommitJsonLaws} first lines header ops :
  parse_operations first lines = Ok (header, ops) -> Forall (fun op => match op with TrLfsFile l => in_u64 (lo_size l) | _ => True end) ops.
Proof.
  revert first header ops. induction lines as [|line lines IH]; intros first header ops; cbn [parse_operations]; [by intros [= <- <-]|].
  destruct (is_blank line); [apply IH|]. destruct (parse_operation line) as [op|] eqn:Eop; cbn [ok_or]; [|done].
  destruct first, op; cbn zeta; try done;
    destruct (parse_operations false lines) as [[h' ops']| |] eqn:El; try done; intros [= <- <-]; cbn [snd];
    try (by eapply IH); constructor; try done; try (by eapply IH). by eapply parse_operation_size.
Qed.

Lemma changes_sizes repo_id commit_id wt it evs ops changes :
  Forall (fun op => match op with TrLfsFile l => in_u64 (lo_size l) | _ => True end) ops ->
  Forall2 (change_of repo_id commit_id wt it evs) ops changes -> Forall (size_ok u64_max) changes.
Proof.
  intros Hs. induction 1 as [|op change ops changes Hc Hcs IH]; [done|]. inversion_clear Hs as [|? ? Hop Hops]. constructor; [|by apply IH].
  destruct op as [f|l|d]; cbn [change_of] in Hc.
  - destruct Hc as (content & _ & _ & Hlen & _ & ->). cbn. unfold len, MAX_INLINE_SIZE, u64_max in *. lia.
  - destruct Hc as (_ & _ & _ & _ & _ & ->). cbn. unfold in_u64, u64_max in *. lia.
  - by destruct Hc as (_ & ->).
Qed.

Lemma parent_matches parent head : ensure_parent_matches_head parent head = Ok tt -> parent = head.
Proof. destruct parent as [p|], head as [h|]; cbn; try done. by destruct (String.eqb_spec p h) as [->|]. Qed.

(** From the check of the parent on. *)
Lemma commit_body_runs `{!CommitJsonLaws} rq repo header ops past :
  cq_namespace rq = cq_username rq -> cq_revision rq = "main" -> parse_commit_body (cq_body rq) = Ok (header, ops) ->
  quiet past -> EvGetRepo (cq_namespace rq) (cq_repo_name rq) (cq_repo_type rq) (Ok repo) ∈ past -> rp_namespace repo = cq_username rq ->
  EvGetHead (rp_id repo) (Ok (ch_parent_revision header)) ∈ past ->
  runs (cq_username rq) (commit_contract rq) (commit_changes cas_url signer rq repo header ops (ch_parent_revision header)) past.
Proof.
  intros Hns Hrev Hbody Hq Hrepo Howner Hhead. unfold commit_changes, run_try.
  eapply runs_part; [apply signed_if_part| |by intros evs [] Hqe Hf; [|apply Forall_app..]].
  intros evs1 it Hq1 Hit. cbn [answer]. cbn [runs event_of well_formed]. split; [done|]. intros now Hnow. split; [done|]. intros nonce _.
  set (id := generate_commit_id _ _ _ _ _). clearbody id.
  eapply runs_part; [apply signed_if_part| |].
  2: { intros evs [] Hqe Hf; [done|..]; cbn [answer runs commit_contract]; repeat (apply Forall_app; split); try done; by repeat constructor. }
  intros evs2 wt Hq2 Hwt. cbn [answer].
  eapply runs_part; [apply process_operations_part| |].
  2: { intros evs [] Hqe Hf; [done|..]; cbn [answer runs commit_contract]; repeat (apply Forall_app; split); try done; by repeat constructor. }
  intros evs3 changes Hq3 Hchanges. cbn [answer]. set (before := ((((past ++ evs1) ++ [EvUnixNow now]) ++ [EvUuid nonce]) ++ evs2) ++ evs3).
  assert (quiet before) as Hqb by (unfold before; repeat (apply Forall_app; split); try done; by repeat constructor).
  assert (forall ev, ev ∈ past ++ evs1 ++ evs2 ++ evs3 -> ev ∈ before) as Hin by (intros ev; unfold before; rewrite !elem_of_app; tauto).
  cbn [runs event_of well_formed]. split.
  { split; [|exists (cq_namespace rq), (cq_repo_name rq), (cq_repo_type rq), repo; split; [by apply Hin, elem_of_app; left|done]].
    split; [done|]. eapply changes_sizes; [|exact Hchanges]. unfold parse_commit_body in Hbody.
    destruct (parse_operations true _) as [[hd os]| |] eqn:Eops; [|done..]. cbn [fst snd] in Hbody.
    apply parse_operations_sizes in Eops. destruct (ok_or hd _); [|done..]. by injection Hbody as _ <-. }
  intros a _. apply runs_answer.
  - intros [] Ha%map_err_Ok. subst a. cbn [runs commit_contract]. exists before, repo, header, ops, changes, (as_i64 now), wt, it.
    cbn zeta. cbn [cr_commit_oid]. split; [done|]. repeat (split; [by auto || (by apply Hin; rewrite elem_of_app; left)|]).
    split; [|split].
    + eapply Forall2_impl; [exact Hchanges|]. intros op c. apply change_of_mono. intros ev Hev. apply Hin. rewrite !elem_of_app. tauto.
    + intros (n & e & Hev & He)%Hit. exists n, e. split; [apply Hin; rewrite !elem_of_app; tauto|done].
    + intros (n & e & Hev & He)%Hwt. exists n, e. split; [apply Hin; rewrite !elem_of_app; tauto|done].
  - intros e He. cbn [runs commit_contract]. apply quiet_snoc; [done|]. by destruct a.
  - intros He. cbn [runs commit_contract]. apply quiet_snoc; [done|]. by destruct a.
Qed.

Lemma commit_runs `{!CommitJsonLaws} rq : runs (cq_username rq) (commit_contract rq) (commit cas_url signer rq) [].
Proof.
  unfold commit. destruct (_ <? _); [apply quiet_nil|].
  apply runs_answer; [|intros; apply quiet_nil..]. intros [] Hns.
  assert (cq_namespace rq = cq_username rq) as Hns'.
  { unfold ensure_namespace_write_access, is_namespace_member in Hns. by destruct (String.eqb_spec (cq_namespace rq) (cq_username rq)). }
  destruct (_ <? _); [apply quiet_nil|]. cbn [runs event_of well_formed]. split; [done|]. intros found Htold.
  apply runs_answer; [|intros; by repeat constructor..]. intros repo Hfound%map_err_Ok. subst found.
  destruct Htold as (h & Howner%told_repo).
  destruct (String.eqb_spec (cq_revision rq) "main") as [Hmain|]; cbn [negb]; [|by repeat constructor].
  apply runs_answer; [|intros; by repeat constructor..]. intros [header ops] Hbody. cbn [fst snd].
  cbn [runs event_of well_formed]. split; [done|]. intros current_head _.
  apply runs_answer; [|intros; by repeat constructor..]. intros head Hhead%map_err_Ok. subst current_head.
  apply runs_answer; [|intros; by repeat constructor..]. intros [] <-%parent_matches.
  apply commit_body_runs; try done; [by repeat constructor| |congruence|]; apply elem_of_app; [left|right]; by apply list_elem_of_singleton.
Qed.
End Commit.

(** ** The other services *)
Ltac call_step := cbn [runs event_of well_formed]; split; [done|].
Ltac answer_step := apply runs_answer; [|intros; cbn; by repeat constructor..].

(** Who may create: the namespace is the user's own. *)
Definition create_contract (username namespace name : string) (type : RepoType) (private : bool) (evs : list event)
    (r : outcome RepoServiceError Repo) : Prop :=
  match r with
  | Ok repo => namespace = username /\ validate_repo_name name = Ok tt /\
      (evs = [EvCreate namespace name type private (Ok repo)] \/
       evs = [EvCreate namespace name type private (Err RepoAlreadyExists); EvGetRepo namespace name type (Ok repo)])
  | _ => quiet evs
  end.

Lemma create_typed_runs username name type private :
  runs username (create_contract username username name type private) (create_typed_repo username name type private) [].
Proof.
  unfold create_typed_repo. answer_step. intros [] Hname. call_step. intros a _.
  destruct a as [repo|e|]; cbn; [by auto|by destruct e; repeat constructor|by repeat constructor].
Qed.

Lemma create_unified_runs username organization name type private :
  runs username (create_contract username (default username organization) name (parse_unified_repo_type type) private)
    (create_unified_repo username organization name type private) [].
Proof.
  unfold create_unified_repo. destruct (String.eqb_spec (default username organization) username) as [Hns|]; cbn [negb]; [|by repeat constructor].
  answer_step. intros [] Hname. call_step. intros a _. destruct a as [repo|e|]; [cbn; by auto| |by repeat constructor].
  destruct e; try (by repeat constructor). call_step. intros found _. destruct found as [repo|e|]; cbn.
  - split; [done|]. split; [done|]. by right.
  - destruct e; by repeat constructor.
  - by repeat constructor.
Qed.

(** Reading a repository: it was looked up, and the user may see it. *)
Definition read_by (username namespace name : string) (type : RepoType) (evs : list event) (repo : Repo) : Prop :=
  EvGetRepo namespace name type (Ok repo) ∈ evs /\ can_access_repo repo username = true.

Lemma load_part {E} username namespace name type (to_error : MetadataError -> E) :
  part username (fun evs repo => evs = [EvGetRepo namespace name type (Ok repo)])
    (call* found := GetRepo namespace name type in Done (map_err to_error found)).
Proof. call_step. intros a _. split; [by repeat constructor|]. intros repo Ha%map_err_Ok. by subst a. Qed.

Definition get_repo_contract username namespace name type (evs : list event) (r : outcome RepoServiceError Repo) : Prop :=
  quiet evs /\ forall repo, r = Ok repo -> read_by username namespace name type evs repo.

Lemma get_repo_runs username namespace name type :
  runs username (get_repo_contract username namespace name type) (repo_get_repo username namespace name type) [].
Proof.
  unfold repo_get_repo, repo_load_repo. apply part_run with (1 := load_part _ _ _ _ _). intros evs repo _ ->.
  destruct (can_access_repo repo username) eqn:Ea; cbn [negb]; [|by apply part_fail].
  apply part_Ok. cbn [app]. split; [by apply list_elem_of_singleton|done].
Qed.

Definition delete_contract (username namespace name : string) (type : RepoType) (evs : list event) (r : outcome RepoServiceError unit) : Prop :=
  match r with
  | Ok _ => exists repo, evs = [EvGetRepo namespace name type (Ok repo); EvDelete (rp_id repo) (Ok tt)] /\ can_write_repo repo username = true
  | _ => quiet evs
  end.

Lemma delete_runs username namespace name type :
  runs username (delete_contract username namespace name type) (repo_delete_repo username namespace name type) [].
Proof.
  unfold repo_delete_repo, repo_load_repo, run_try. eapply runs_part; [apply load_part| |].
  - intros evs repo Hq ->. cbn [answer]. destruct (can_write_repo repo username) eqn:Ew; cbn [negb]; [|done].
    cbn [runs event_of]. split.
    { split; [done|]. exists namespace, name, type, repo. split; [by apply list_elem_of_singleton|]. split; [done|].
      unfold can_write_repo in Ew. by apply String.eqb_eq. }
    intros a _. destruct a as [[]|e|]; cbn; [by exists repo|by repeat constructor..].
  - intros evs r Hq Hr. by destruct r.
Qed.

Definition get_revision_contract username namespace name revision type (evs : list event) (r : outcome RepoServiceError RepoServiceResult) : Prop :=
  quiet evs /\ forall res, r = Ok res ->
  match res with
  | RsRevision repo rev => read_by username namespace name type evs repo /\ EvGetRevision (rp_id repo) revision (Ok rev) ∈ evs
  | RsEmptyMainRevision repo head => read_by username namespace name type evs repo /\ revision = "main" /\ EvGetHead (rp_id repo) (Ok head) ∈ evs
  end.

Lemma get_revision_runs username namespace name revision type :
  runs username (get_revision_contract username namespace name revision type) (repo_get_revision username namespace name revision type) [].
Proof.
  unfold repo_get_revision, get_revision_contract, read_by. call_step. intros found _.
  apply runs_answer; [|intros; split; by repeat constructor..]. intros repo Hfound%map_err_Ok. subst found.
  destruct (can_access_repo repo username) eqn:Ea; cbn [negb]; [|split; by repeat constructor].
  call_step. intros a _. destruct a as [rev|e|]; cbn [runs].
  - split; [by repeat constructor|]. intros res [= <-]. split; [split; [|done]|]; by repeat constructor.
  - destruct e; cbn [runs]; try (split; by repeat constructor).
    destruct (String.eqb_spec revision "main") as [Hmain|]; [|split; by repeat constructor].
    call_step. intros a _. apply runs_answer; [|intros; split; by repeat constructor..]. intros head Ha%map_err_Ok. subst a.
    split; [by repeat constructor|]. intros res [= <-]. split; [split; [|done]|split; [done|]]; by repeat constructor.
  - split; by repeat constructor.
Qed.

(** The revision a reader asked for: a commit by its name, or the head. *)
Definition revision_named (repo : Z) (revision commit_id : string) (evs : list event) : Prop :=
  (is_commit_name revision = true /\ commit_id = revision) \/
  (revision = "main" /\ EvGetHead repo (Ok (Some commit_id)) ∈ evs).

Lemma resolve_revision_part user repo revision :
  part user (fun evs commit_id => revision_named repo revision commit_id evs) (resolve_revision repo revision).
Proof.
  unfold resolve_revision, revision_named. destruct (is_commit_name revision) eqn:Ec.
  - call_step. intros a _. destruct a as [rev|e|]; (split; [by repeat constructor|]); intros c Hc; [|by destruct e|done].
    injection Hc as <-. by left.
  - destruct (String.eqb_spec revision "main") as [Hm|]; [|by apply part_fail].
    call_step. intros a _. destruct a as [[head|]|e|]; (split; [by repeat constructor|]); intros c Hc; [|done..].
    injection Hc as <-. right. split; [done|]. by apply list_elem_of_singleton.
Qed.

Definition resolve_contract (rq : ResolveFileRequest) (evs : list event) (r : outcome ResolveServiceError ResolvedFile) : Prop :=
  quiet evs /\ forall f, r = Ok f -> exists repo,
    read_by (rq_username rq) (rq_namespace rq) (rq_repo_name rq) (rq_repo_type rq) evs repo /\
    revision_named (rp_id repo) (rq_revision rq) (rs_commit_id f) evs /\
    EvResolve (rp_id repo) (rs_commit_id f) (rq_file_path rq) (Ok (rs_file_entry f)) ∈ evs.

Lemma resolve_runs rq : runs (rq_username rq) (resolve_contract rq) (resolve_service rq) [].
Proof.
  unfold resolve_service, resolve_load_repo. apply part_run with (1 := load_part _ _ _ _ _). intros evs repo _ ->.
  destruct (can_access_repo repo (rq_username rq)) eqn:Ea; cbn [negb]; [|by apply part_fail].
  eapply part_bind; [apply resolve_revision_part| |intros r evs Hr; destruct r as [|[]|]; (done || by apply part_fail)].
  intros evs c _ Hc. cbn [map_err answer]. call_step. intros a _. cbn [app].
  apply runs_answer; [|intros; split; by repeat constructor..]. intros entry Ha%map_err_Ok. subst a. split; [by repeat constructor|].
  intros f [= <-]. cbn [rs_commit_id rs_file_entry]. exists repo. unfold read_by, revision_named in *.
  split; [split; [|done]; by repeat constructor|]. split.
  - destruct Hc as [Hc|[Hm Hc]]; [by left|right]. split; [done|]. right. apply elem_of_app. by left.
  - right. apply elem_of_app. right. by apply list_elem_of_singleton.
Qed.

Section ExchangeContract.
Context `{Base64, TokenJson, Ed25519}.
Context (signer : XetSigner).

Definition exchange_contract (rq : TokenExchangeRequest) (evs : list event) (r : outcome TokenExchangeServiceError TokenExchangeResult) : Prop :=
  quiet evs /\ forall t, r = Ok t -> exists repo revision now,
    EvGetRepo (xq_namespace rq) (xq_repo_name rq) (xq_repo_type rq) (Ok repo) ∈ evs /\
    can_exchange_repo repo (xq_username rq) (xq_required_scope rq) = true /\
    (revision = xq_revision rq \/ EvGetHead (rp_id repo) (Ok (Some revision)) ∈ evs \/
     revision = "main" /\ EvGetHead (rp_id repo) (Ok None) ∈ evs) /\
    EvClock now ∈ evs /\
    sign signer now (xq_user_id rq) (exchange_scope_str (xq_required_scope rq)) (xq_namespace rq +:+ "/" +:+ xq_repo_name rq)
      (repo_type_str (xq_repo_type rq)) revision = Ok (xr_access_token t, xr_exp t).

Lemma exchange_revision_part user repo revision :
  part user (fun evs c => c = revision \/ EvGetHead repo (Ok (Some c)) ∈ evs \/ c = "main" /\ EvGetHead repo (Ok None) ∈ evs)
    (resolve_exchange_revision repo revision).
Proof.
  unfold resolve_exchange_revision. destruct (_ || _)%bool; [|apply part_Ok; by left].
  call_step. intros a _. destruct a as [[head|]|e|]; (split; [by repeat constructor|]); intros c Hc; try done; injection Hc as <-; right.
  - left. by apply list_elem_of_singleton.
  - right. split; [done|]. by apply list_elem_of_singleton.
Qed.

Lemma exchange_runs rq : runs (xq_username rq) (exchange_contract rq) (exchange signer rq) [].
Proof.
  unfold exchange, exchange_load_repo. apply part_run with (1 := load_part _ _ _ _ _). intros evs repo _ ->.
  destruct (can_exchange_repo repo _ _) eqn:Ea; cbn [negb]; [|by apply part_fail].
  eapply part_run; [apply exchange_revision_part|]. intros evs revision _ Hrev. call_step. intros now _. cbn [app].
  apply runs_answer; [|intros; split; by repeat constructor..]. intros [token e] Hs%map_err_Ok. split; [by repeat constructor|].
  intros t [= <-]. exists repo, revision, now. cbn [xr_access_token xr_exp fst snd].
  split; [by repeat constructor|]. split; [done|]. split.
  - destruct Hrev as [->|[Hh|[-> Hh]]]; [by left|right; left|right; right; split; [done|]]; right; apply elem_of_app; by left.
  - split; [|done]. right. apply elem_of_app. right. by apply list_elem_of_singleton.
Qed.
End ExchangeContract.

Definition preupload_contract (rq : PreuploadRequest) (evs : list event) (r : outcome PreuploadServiceError (list PreuploadFileDecision)) : Prop :=
  quiet evs /\ forall ds, r = Ok ds ->
    pq_namespace rq = pq_username rq /\ len (pq_files rq) <= MAX_PREUPLOAD_FILES /\
    (exists repo, EvGetRepo (pq_namespace rq) (pq_repo_name rq) (pq_repo_type rq) (Ok repo) ∈ evs) /\
    Forall2 (fun f d => validate_file_path (pi_path f) = Ok tt /\ pd_path d = pi_path f /\ pd_should_ignore d = false /\
                        (pd_upload_mode d = Regular <-> pi_size f <= pq_inline_threshold rq)) (pq_files rq) ds.

Lemma preupload_decisions threshold files :
  validate_preupload_paths files = Ok tt ->
  Forall2 (fun f d => validate_file_path (pi_path f) = Ok tt /\ pd_path d = pi_path f /\ pd_should_ignore d = false /\
                      (pd_upload_mode d = Regular <-> pi_size f <= threshold)) files
    (map (fun file => mkDecision (pi_path file) (classify_upload_mode (pi_size file) threshold) false) files).
Proof.
  induction files as [|f files IH]; cbn [validate_preupload_paths map]; [constructor|].
  destruct (validate_file_path (pi_path f)) as [[]| |] eqn:Ef; cbn [map_err]; [|done..]. intros Hfs. constructor; [|by apply IH].
  cbn. repeat (split; [done|]). unfold classify_upload_mode. destruct (Z.leb_spec (pi_size f) threshold); (split; [done|]); [done|lia].
Qed.

Lemma preupload_runs rq : runs (pq_username rq) (preupload_contract rq) (prepare_upload rq) [].
Proof.
  unfold prepare_upload. apply part_answer. intros [] Hcount. apply part_answer. intros [] Hpaths. apply part_answer. intros [] Hns.
  call_step. intros found _. apply runs_answer; [|intros; split; by repeat constructor..]. intros repo Hf%map_err_Ok. subst found.
  split; [by repeat constructor|]. intros ds [= <-]. split; [|split; [|split]].
  - unfold is_namespace_member in Hns. by destruct (String.eqb_spec (pq_namespace rq) (pq_username rq)).
  - unfold validate_preupload_file_count in Hcount. by destruct (Z.leb_spec (len (pq_files rq)) MAX_PREUPLOAD_FILES).
  - exists repo. by apply list_elem_of_singleton.
  - by apply preupload_decisions.
Qed.
