(* ===== verification/HubSystem.v ===== *)
(** * The Hub as a system

    Any number of requests are served at once; each takes its calls one at a
    time, interleaved with those of the others, and any call may fail.  A
    request that is cancelled, or lost with the process, takes no further call.
    [consistent] is the abstract store: a log of events each of which answers
    from the histories the events before it made.  Reachable states of the
    system refine it, and the contracts of the services are read against it. *)
From stdpp Require Import gmap strings.
From S2P Require Import Prelude Bytes Crates MerkleHash Hash Text TokenCrates Tokens HubSigner HubMetadata HubHistory HubTree HubPrograms HubCommit HubRepos HubStore HubContracts.

Local Open Scope string_scope.
Local Open Scope list_scope.
Local Open Scope Z_scope.

(** ** The abstract store *)
Definition numbered (ev : event) (n n' : Z) : Prop :=
  match ev with EvCreate _ _ _ _ (Ok repo) => n = rp_id repo /\ n' = rp_id repo + 1 | _ => n' = n end.

(** [consistent evs n]: the events can happen in this order; [n] is the next id of a repository. *)
Inductive consistent : list event -> Z -> Prop :=
| consistent_start : consistent [] 1
| consistent_event evs n ev n' : consistent evs n -> told (hub_of evs) ev -> numbered ev n n' -> consistent (evs ++ [ev]) n'.

Lemma hub_of_snoc evs ev : hub_of (evs ++ [ev]) = record (hub_of evs) ev.
Proof. unfold hub_of. by rewrite fold_left_app. Qed.

Lemma consistent_snoc evs ev n : consistent (evs ++ [ev]) n ->
  exists m, consistent evs m /\ told (hub_of evs) ev /\ numbered ev m n.
Proof.
  intros Hc. inversion Hc as [E|evs' m ev' n' Hc' Ht Hn E]; [by destruct evs|].
  apply app_inj_tail in E as [-> ->]. by exists m.
Qed.

Lemma numbered_quiet ev n n' : changes_store ev = false -> numbered ev n n' -> n' = n.
Proof. by destruct ev as [? ? ? ? [| |]| |? [| |]| | | |? ? ? [| |]| | | |]. Qed.
Lemma numbered_le ev n n' : numbered ev n n' -> n <= n'.
Proof. destruct (change_cases ev) as [| | |ev Hq]; cbn; [lia..|]. intros ->%numbered_quiet; done || lia. Qed.

Lemma consistent_prefix l1 l2 n : consistent (l1 ++ l2) n -> exists m, consistent l1 m /\ m <= n.
Proof.
  revert n. induction l2 as [|ev l2 IH] using rev_ind; intros n; [rewrite app_nil_r; by exists n|].
  rewrite app_assoc. intros (m & Hc & _ & Hn%numbered_le)%consistent_snoc. destruct (IH _ Hc) as (m' & Hc' & Hle). exists m'. split; [done|lia].
Qed.

Lemma consistent_told l1 ev l2 n : consistent (l1 ++ ev :: l2) n -> told (hub_of l1) ev.
Proof.
  intros Hc. change (ev :: l2) with ([ev] ++ l2) in Hc. rewrite app_assoc in Hc.
  apply consistent_prefix in Hc as (m & Hc & _). by apply consistent_snoc in Hc as (? & ? & ? & ?).
Qed.

(** A repository has an id below the next. *)
Lemma consistent_ids evs n id r : consistent evs n -> hub_of evs !! id = Some r -> id < n.
Proof.
  intros Hc. revert id r. induction Hc as [|evs n ev n' Hc IH Ht Hn]; intros id r; [done|]. rewrite hub_of_snoc.
  destruct (change_cases ev) as [? ? ? ? repo|id' u|rev ? ? u|ev Hq]; cbn in Hn |- *; subst.
  - destruct Hn as [-> ->]. intros [[<- _]|[Hne Hr]]%lookup_insert_Some; [lia|]. specialize (IH _ _ Hr). lia.
  - intros [_ Hr]%lookup_delete_Some. by eapply IH.
  - destruct (hub_of evs !! rv_repo_id rev) as [r0|] eqn:E0; [|by apply IH]. unfold committed. cbn [cm_revision].
    intros [[<- _]|[Hne Hr]]%lookup_insert_Some; by eapply IH.
  - rewrite record_quiet by done. apply numbered_quiet in Hn as ->; [|done]. apply IH.
Qed.

(** The commits of a repository have different ids. *)
Lemma consistent_unique evs n id r : consistent evs n -> hub_of evs !! id = Some r -> NoDup (map cm_id (ar_commits r)).
Proof.
  intros Hc. revert id r. induction Hc as [|evs n ev n' Hc IH Ht Hn]; intros id r; [done|]. rewrite hub_of_snoc.
  destruct (change_cases ev) as [? ? ? ? repo|id' u|rev ch parent u|ev Hq]; cbn [record]; [| | |rewrite record_quiet by done; apply IH].
  - intros [[_ <-]|[_ Hr]]%lookup_insert_Some; [constructor|by eapply IH].
  - intros [_ Hr]%lookup_delete_Some. by eapply IH.
  - destruct Ht as (r0 & Hr0 & _ & Hfresh). rewrite Hr0. unfold committed. cbn [cm_revision].
    intros [[_ <-]|[_ Hr]]%lookup_insert_Some; [|by eapply IH]. cbn [ar_commits]. rewrite map_app. apply NoDup_app.
    split; [by eapply IH|]. split; [|apply NoDup_singleton]. intros c (cm & <- & Hcm)%elem_of_map Hc'%list_elem_of_singleton.
    by eapply Hfresh.
Qed.

(** What remains of a repository: its row, and its commits with others after them. *)
Definition continues (r r' : repository) : Prop := ar_row r' = ar_row r /\ ar_commits r `prefix_of` ar_commits r'.
#[export] Instance continues_preorder : PreOrder continues.
Proof.
  split; [by intros r|]. intros r1 r2 r3 [? ?] [? ?]. split; [congruence|by etrans].
Qed.

(** An event keeps the histories, or deletes one; it does not bring one back. *)
Lemma record_keeps evs ev n id r : consistent evs n -> hub_of evs !! id = Some r ->
  told (hub_of evs) ev -> hub_of (evs ++ [ev]) !! id = None \/ exists r', hub_of (evs ++ [ev]) !! id = Some r' /\ continues r r'.
Proof.
  intros Hc Hr Ht. rewrite hub_of_snoc.
  destruct (change_cases ev) as [? ? ? ? repo|id' u|rev ch ? u|ev Hq]; cbn [record].
  - right. exists r. split; [|done]. destruct Ht as (Hnew & _). rewrite lookup_insert_ne; [done|congruence].
  - destruct (decide (id' = id)) as [->|Hne]; [left; by rewrite lookup_delete_eq|right; exists r]. by rewrite lookup_delete_ne.
  - right. destruct (hub_of evs !! rv_repo_id rev) as [r0|] eqn:E0; [|by exists r]. unfold committed. cbn [cm_revision].
    destruct (decide (rv_repo_id rev = id)) as [<-|Hne]; [|exists r; by rewrite lookup_insert_ne].
    rewrite Hr in E0. injection E0 as <-. eexists. rewrite lookup_insert_eq. split; [done|]. split; [done|]. cbn [ar_commits]. by eexists.
  - right. exists r. by rewrite record_quiet.
Qed.

Lemma record_gone evs ev n n' id : consistent evs n -> numbered ev n n' -> hub_of evs !! id = None -> id < n ->
  hub_of (evs ++ [ev]) !! id = None.
Proof.
  intros Hc Hn Hr Hlt. rewrite hub_of_snoc. destruct (change_cases ev) as [? ? ? ? repo|id' u|rev ch ? u|ev Hq]; cbn [record].
  - destruct Hn as [-> _]. rewrite lookup_insert_ne; [done|lia].
  - rewrite lookup_delete_None. by right.
  - destruct (hub_of evs !! rv_repo_id rev) as [r0|] eqn:E0; [|done]. unfold committed. cbn [cm_revision].
    rewrite lookup_insert_ne; [done|congruence].
  - by rewrite record_quiet.
Qed.

Lemma histories_continue l1 l2 n id r r' :
  hub_of l1 !! id = Some r -> consistent (l1 ++ l2) n -> hub_of (l1 ++ l2) !! id = Some r' -> continues r r'.
Proof.
  intros Hr.
  revert n r'. assert (forall n, consistent (l1 ++ l2) n -> id < n /\
    (hub_of (l1 ++ l2) !! id = None \/ exists r', hub_of (l1 ++ l2) !! id = Some r' /\ continues r r')) as Hgen.
  { induction l2 as [|ev l2 IH] using rev_ind; intros n; [rewrite app_nil_r|rewrite app_assoc]; intros Hc.
    - split; [by eapply consistent_ids|]. right. by exists r.
    - pose proof Hc as (m & Hc' & Ht & Hn)%consistent_snoc. destruct (IH _ Hc') as (Hlt & Hk). pose proof (numbered_le _ _ _ Hn).
      split; [lia|]. destruct Hk as [Hgone|(r1 & Hr1 & Hk)]; [left; by eapply record_gone|].
      destruct (record_keeps _ _ _ _ _ Hc' Hr1 Ht) as [|(r2 & Hr2 & Hk2)]; [by left|right]. exists r2. split; [done|]. by etrans. }
  intros n r' Hc Hr'. destruct (Hgen n Hc) as (_ & [Hn|(r1 & Hr1 & Hk)]); [congruence|by simplify_eq].
Qed.

(** ** Requests *)
Inductive request :=
| RqCommit (rq : CommitRequest)
| RqCreateTyped (username name : string) (type : RepoType) (private : bool)
| RqCreateUnified (username : string) (organization : option string) (name : string) (type : option string) (private : bool)
| RqGetRepo (username namespace name : string) (type : RepoType)
| RqDelete (username namespace name : string) (type : RepoType)
| RqGetRevision (username namespace name revision : string) (type : RepoType)
| RqResolve (rq : ResolveFileRequest)
| RqExchange (rq : TokenExchangeRequest)
| RqPreupload (rq : PreuploadRequest).
Inductive response :=
| RsCommit (r : outcome CommitServiceError CommitResponse)
| RsRepo (r : outcome RepoServiceError Repo)
| RsDeleted (r : outcome RepoServiceError unit)
| RsRevisionOf (r : outcome RepoServiceError RepoServiceResult)
| RsResolved (r : outcome ResolveServiceError ResolvedFile)
| RsExchanged (r : outcome TokenExchangeServiceError TokenExchangeResult)
| RsPreuploaded (r : outcome PreuploadServiceError (list PreuploadFileDecision)).

Definition request_user (rq : request) : string :=
  match rq with
  | RqCommit rq => cq_username rq
  | RqCreateTyped username _ _ _ | RqCreateUnified username _ _ _ _ | RqGetRepo username _ _ _ | RqDelete username _ _ _
  | RqGetRevision username _ _ _ _ => username
  | RqResolve rq => rq_username rq
  | RqExchange rq => xq_username rq
  | RqPreupload rq => pq_username rq
  end.

Section System.
Context `{HexCrate, Sha2, Base64, TokenJson, Ed25519, CommitJsonLaws}.
Context (cas_url : string) (signer : XetSigner).

Definition map_prog {A B} (f : A -> B) (p : prog A) : prog B := prog_bind p (fun a => Done (f a)).
Definition serve (rq : request) : prog response :=
  match rq with
  | RqCommit rq => map_prog RsCommit (commit cas_url signer rq)
  | RqCreateTyped username name type private => map_prog RsRepo (create_typed_repo username name type private)
  | RqCreateUnified username organization name type private => map_prog RsRepo (create_unified_repo username organization name type private)
  | RqGetRepo username namespace name type => map_prog RsRepo (repo_get_repo username namespace name type)
  | RqDelete username namespace name type => map_prog RsDeleted (repo_delete_repo username namespace name type)
  | RqGetRevision username namespace name revision type => map_prog RsRevisionOf (repo_get_revision username namespace name revision type)
  | RqResolve rq => map_prog RsResolved (resolve_service rq)
  | RqExchange rq => map_prog RsExchanged (exchange signer rq)
  | RqPreupload rq => map_prog RsPreuploaded (prepare_upload rq)
  end.

Definition contract (rq : request) (evs : list event) (rs : response) : Prop :=
  match rq, rs with
  | RqCommit rq, RsCommit r => commit_contract cas_url signer rq evs r
  | RqCreateTyped username name type private, RsRepo r => create_contract username username name type private evs r
  | RqCreateUnified username organization name type private, RsRepo r =>
      create_contract username (default username organization) name (parse_unified_repo_type type) private evs r
  | RqGetRepo username namespace name type, RsRepo r => get_repo_contract username namespace name type evs r
  | RqDelete username namespace name type, RsDeleted r => delete_contract username namespace name type evs r
  | RqGetRevision username namespace name revision type, RsRevisionOf r => get_revision_contract username namespace name revision type evs r
  | RqResolve rq, RsResolved r => resolve_contract rq evs r
  | RqExchange rq, RsExchanged r => exchange_contract signer rq evs r
  | RqPreupload rq, RsPreuploaded r => preupload_contract rq evs r
  | _, _ => False
  end.

Lemma runs_map {A B} user (f : A -> B) post p past : runs user (fun evs a => post evs (f a)) p past -> runs user post (map_prog f p) past.
Proof. exact (runs_bind user post p (fun a => Done (f a)) past). Qed.

Lemma serve_runs rq : runs (request_user rq) (contract rq) (serve rq) [].
Proof.
  destruct rq; cbn [request_user serve]; apply runs_map; cbn [contract].
  - exact (commit_runs cas_url signer rq).
  - apply create_typed_runs.
  - apply create_unified_runs.
  - apply get_repo_runs.
  - apply delete_runs.
  - apply get_revision_runs.
  - apply resolve_runs.
  - apply exchange_runs.
  - apply preupload_runs.
Qed.

(** ** States and steps *)
Record thread := mkThread { th_request : request; th_prog : prog response; th_events : list event }.
(** The log has the events of all requests, each with the number of its request. *)
Record system := mkSystem { sys_db : db; sys_threads : list thread; sys_log : list (nat * event) }.
Definition initial : system := mkSystem empty_db [] [].

Inductive step : system -> system -> Prop :=
| step_arrive d ts log rq : step (mkSystem d ts log) (mkSystem d (ts ++ [mkThread rq (serve rq) []]) log)
| step_call d ts log i rq A (c : call A) (k : A -> prog response) past d' a :
    ts !! i = Some (mkThread rq (Call c k) past) -> performs c d d' a ->
    step (mkSystem d ts log)
      (mkSystem d' (<[i := mkThread rq (k a) (past ++ [event_of c a])]> ts) (log ++ [(i, event_of c a)])).
Definition reachable (s : system) : Prop := rtc step initial s.

Definition events (s : system) : list event := map snd (sys_log s).
Definition histories (s : system) : hub := hub_of (events s).
Definition own (i : nat) (log : list (nat * event)) : list event := map snd (filter (fun entry => entry.1 = i) log).

Record system_ok (s : system) : Prop := {
  so_store : represents (sys_db s) (histories s);
  so_log : consistent (events s) (next_id (sys_db s));
  so_thread : forall i t, sys_threads s !! i = Some t ->
    th_events t = own i (sys_log s) /\ runs (request_user (th_request t)) (contract (th_request t)) (th_prog t) (th_events t);
  so_owner : forall i ev, (i, ev) ∈ sys_log s -> is_Some (sys_threads s !! i);
  so_may : forall l1 i ev l2 t, sys_log s = l1 ++ (i, ev) :: l2 -> changes_store ev = true -> sys_threads s !! i = Some t ->
    match ev with
    | EvCreate namespace _ _ _ _ => namespace = request_user (th_request t)
    | EvDelete id _ => owned (request_user (th_request t)) (own i l1) id
    | EvCommit rev _ _ _ => owned (request_user (th_request t)) (own i l1) (rv_repo_id rev)
    | _ => True
    end;
}.

Lemma own_snoc i j ev log : own i (log ++ [(j, ev)]) = own i log ++ (if decide (j = i) then [ev] else []).
Proof. unfold own. rewrite filter_app, map_app. f_equal. rewrite filter_cons, filter_nil. cbn. by destruct (decide (j = i)). Qed.

Lemma numbered_of {A} (c : call A) d d' a : ids_grow c d d' a -> numbered (event_of c a) (next_id d) (next_id d').
Proof. unfold ids_grow. destruct c; cbn [event_of numbered]; try done. Qed.

Lemma system_start : system_ok initial.
Proof.
  split; cbn; [apply represents_empty|constructor|done|by intros i ev ?%elem_of_nil|].
  intros l1 i ev l2 t E. by destruct l1.
Qed.

Lemma log_snoc_cases {A} (log l1 l2 : list A) x y :
  log ++ [y] = l1 ++ x :: l2 -> (l1 = log /\ x = y /\ l2 = []) \/ exists l, l2 = l ++ [y] /\ log = l1 ++ x :: l.
Proof.
  destruct l2 as [|z l2 _] using rev_ind.
  - intros [-> ->]%app_inj_tail. by left.
  - rewrite app_comm_cons, app_assoc. intros [-> ->]%app_inj_tail. right. by exists l2.
Qed.

Lemma system_step s s' : system_ok s -> step s s' -> system_ok s'.
Proof.
  intros [Hstore Hlog Hthread Howner Hmay] Hstep. destruct Hstep as [d ts log rq|d ts log i rq A c k past d' a Hi Hp]; cbn [sys_db sys_threads sys_log] in *.
  - assert (forall i t, (ts ++ [mkThread rq (serve rq) []]) !! i = Some t ->
      ts !! i = Some t \/ (i = length ts /\ t = mkThread rq (serve rq) [])) as Hcase.
    { intros i t [Hi|[Hle Hi]]%lookup_app_Some; [by left|right]. apply list_lookup_singleton_Some in Hi as [? <-]. split; [lia|done]. }
    assert (own (length ts) log = []) as Hown.
    { unfold own. destruct (filter _ log) as [|[j ev] l] eqn:E; [done|].
      assert ((j, ev) ∈ filter (fun entry => entry.1 = length ts) log) as Hin by (rewrite E; by left).
      apply list_elem_of_filter in Hin as [Hj Hin]. cbn in Hj. subst j. destruct (Howner _ _ Hin) as [t Ht%lookup_lt_Some]. lia. }
    split; cbn [sys_db sys_threads sys_log]; [done|done| | |].
    + intros i t [Hi|[-> ->]]%Hcase; [by apply Hthread|]. cbn [th_events th_request th_prog]. split; [done|apply serve_runs].
    + intros i ev [t Ht]%Howner. exists t. by apply lookup_app_l_Some.
    + intros l1 i ev l2 t E Hch [Hi|[-> ->]]%Hcase; [by eapply Hmay|].
      destruct (Howner (length ts) ev) as [t Ht%lookup_lt_Some]; [|lia]. rewrite E. apply elem_of_app. right. by left.
  - destruct (Hthread _ _ Hi) as [Hpast Hrun]. cbn [th_events th_request th_prog] in Hpast, Hrun. destruct Hrun as [Hc Hk].
    destruct (performs_told c d d' (histories (mkSystem d ts log)) a Hstore (proj1 Hc) Hp) as [Ht Hrep].
    assert (forall j t, <[i := mkThread rq (k a) (past ++ [event_of c a])]> ts !! j = Some t ->
      (j = i /\ t = mkThread rq (k a) (past ++ [event_of c a])) \/ (j <> i /\ ts !! j = Some t)) as Hcase.
    { intros j t [(<- & <- & _)|[Hne Hj]]%list_lookup_insert_Some; [by left|right; by split]. }
    split; unfold histories, events in *; cbn [sys_db sys_threads sys_log] in *.
    + rewrite map_app. cbn [map snd]. by rewrite hub_of_snoc.
    + rewrite map_app. cbn [map snd]. econstructor; [exact Hlog|exact Ht|]. by apply numbered_of, performs_ids.
    + intros j t [[-> ->]|[Hne Hj]]%Hcase; cbn [th_events th_request th_prog].
      * rewrite own_snoc, decide_True by done. rewrite Hpast. split; [done|]. rewrite <- Hpast. apply Hk. by eexists.
      * rewrite own_snoc, decide_False by done. rewrite app_nil_r. by apply Hthread.
    + intros j ev [Hin|Hin]%elem_of_app; rewrite list_lookup_insert_is_Some; [by eapply Howner|].
      apply list_elem_of_singleton in Hin as [= -> _]. by exists (mkThread rq (Call c k) past).
    + intros l1 j ev l2 t E Hch Hj. apply log_snoc_cases in E as [(-> & [= -> ->] & ->)|(l & -> & E)].
      * apply Hcase in Hj as [[_ ->]|[]]; [|done]. cbn [th_request]. rewrite <- Hpast.
        destruct Hc as [_ Hc]. destruct c; try done.
      * apply Hcase in Hj as [[-> ->]|[Hne Hj]]; [|by eapply Hmay]. cbn [th_request].
        exact (Hmay _ _ _ _ _ E Hch Hi).
Qed.

Lemma system_reachable s : reachable s -> system_ok s.
Proof.
  intros Hr. unfold reachable in Hr. remember initial as s0 eqn:E. assert (system_ok s0) as Hs0 by (subst; apply system_start). clear E.
  induction Hr as [|s1 s2 s3 Hs _ IH]; [done|]. apply IH. by eapply system_step.
Qed.

(** ** Serving a request alone

    One request after another, with a store that does not fail: an execution
    that can be computed. *)
Record world := mkWorld { w_send : http_request -> http_answer; w_now : Z; w_clock : option Z; w_uuid : string }.

Definition answer_call (w : world) {A} (c : call A) : db -> db * A :=
  match c in call A return db -> db * A with
  | CreateRepo namespace name type private => create_repo (fun _ => false) (w_now w) namespace name type private
  | GetRepo namespace name type => fun d => (d, get_repo (fun _ => false) namespace name type d)
  | DeleteRepo repo => delete_repo (fun _ => false) repo
  | GetRevision repo commit => fun d => (d, get_revision (fun _ => false) repo commit d)
  | GetHead repo => fun d => (d, get_head (fun _ => false) repo d)
  | ResolveFile repo commit path => fun d => (d, resolve_file (fun _ => false) repo commit path d)
  | CommitChanges rev changes parent => commit_changes_atomic (fun _ => false) rev changes parent
  | Send rq => fun d => (d, w_send w rq)
  | UnixNow => fun d => (d, w_now w)
  | Clock => fun d => (d, w_clock w)
  | Uuid => fun d => (d, w_uuid w)
  end.
Lemma answer_performs w {A} (c : call A) d : in_u64 (w_now w) -> performs c d (answer_call w c d).1 (answer_call w c d).2.
Proof.
  intros Hw. destruct c; cbn [performs answer_call fst snd]; try (split; [done|]); try done;
    try (by exists (fun _ => false)); try (exists (fun _ => false)); try (exists (w_now w)); apply surjective_pairing.
Qed.

Fixpoint drive (w : world) {R} (p : prog R) (d : db) : db * list event * R :=
  match p with
  | Done r => (d, [], r)
  | Call c k =>
      let '(d', a) := answer_call w c d in
      let '(d'', evs, r) := drive w (k a) d' in (d'', event_of c a :: evs, r)
  end.

Lemma drive_steps w p : in_u64 (w_now w) -> forall d ts log i rq past, ts !! i = Some (mkThread rq p past) ->
  let '(d', evs, r) := drive w p d in
  rtc step (mkSystem d ts log)
    (mkSystem d' (<[i := mkThread rq (Done r) (past ++ evs)]> ts) (log ++ map (pair i) evs)).
Proof.
  intros Hw. induction p as [r|A c k IH]; intros d ts log i rq past Hi; cbn [drive].
  - rewrite !app_nil_r, list_insert_id by done. constructor.
  - pose proof (answer_performs w c d Hw) as Hp. destruct (answer_call w c d) as [d1 a]. cbn [fst snd] in Hp.
    pose proof (lookup_lt_Some _ _ _ Hi) as Hlt.
    specialize (IH a d1 (<[i := mkThread rq (k a) (past ++ [event_of c a])]> ts) (log ++ [(i, event_of c a)]) i rq (past ++ [event_of c a])).
    destruct (drive w (k a) d1) as [[d' evs] r]. eapply rtc_l; [by eapply step_call|].
    specialize (IH ltac:(by apply list_lookup_insert_eq)). rewrite list_insert_insert_eq, <- !app_assoc in IH. exact IH.
Qed.

(** The state after serving a list of requests in turn. *)
Fixpoint serve_all (w : world) (rqs : list request) (s : system) : system :=
  match rqs with
  | [] => s
  | rq :: rqs =>
      let '(d', evs, r) := drive w (serve rq) (sys_db s) in
      let i := length (sys_threads s) in
      serve_all w rqs (mkSystem d' (sys_threads s ++ [mkThread rq (Done r) evs]) (sys_log s ++ map (pair i) evs))
  end.

Lemma serve_all_steps w rqs s : in_u64 (w_now w) -> rtc step s (serve_all w rqs s).
Proof.
  intros Hw. revert s. induction rqs as [|rq rqs IH]; intros [d ts log]; cbn [serve_all sys_db sys_threads sys_log]; [constructor|].
  pose proof (drive_steps w (serve rq) Hw d (ts ++ [mkThread rq (serve rq) []]) log (length ts) rq []) as Hd.
  destruct (drive w (serve rq) d) as [[d' evs] r]. etrans; [|apply IH]. eapply rtc_l; [apply step_arrive|].
  rewrite lookup_app_r, Nat.sub_diag in Hd by lia. specialize (Hd eq_refl). cbn [app] in Hd.
  by rewrite insert_app_r_alt, Nat.sub_diag in Hd by lia.
Qed.
End System.
