(* ===== verification/HubSafety.v ===== *)
(** * What the Hub guarantees

    The theorems about the system of [HubSystem]: in every state that any
    interleaving of any requests can reach. *)
From stdpp Require Import gmap strings.
From Stdlib Require Import Ascii.
From S2P Require Import Prelude Bytes Crates MerkleHash Hash Text TokenCrates Tokens HubSigner HubMetadata HubHistory HubTree HubPrograms HubCommit HubRepos HubStore HubContracts HubSystem.

Local Open Scope string_scope.
Local Open Scope list_scope.
Local Open Scope Z_scope.

(** The histories after a part of the log. *)
Abbreviation histories_of log := (hub_of (map snd log)).

(** An answer of a query over rows that can be read. *)
Definition reads_back {A} (r : outcome MetadataError A) : Prop := r <> Panic /\ r <> Err Corruption.

Section Safety.
Context `{HexCrate, Sha2, Base64, TokenJson, Ed25519, CommitJsonLaws}.
Context (cas_url : string) (signer : XetSigner).
#[local] Abbreviation reachable := (reachable cas_url signer).
#[local] Abbreviation step := (step cas_url signer).
#[local] Abbreviation contract := (contract cas_url signer).
#[local] Abbreviation system_ok := (system_ok cas_url signer).

(** ** Positions in the log *)
Lemma own_elem (i : nat) log ev : ev ∈ own i log <-> (i, ev) ∈ log.
Proof.
  unfold own. rewrite elem_of_map. split.
  - intros ([j ev'] & <- & [Hj Hin]%list_elem_of_filter). cbn in Hj. by subst.
  - intros Hin. exists (i, ev). split; [done|]. by apply list_elem_of_filter.
Qed.

Lemma own_split i log l ev l' : own i log = l ++ ev :: l' ->
  exists l1 l2, log = l1 ++ (i, ev) :: l2 /\ own i l1 = l /\ own i l2 = l'.
Proof.
  revert l. induction log as [|[j e] log IH]; intros l; unfold own; [by destruct l|]. rewrite filter_cons. cbn [fst].
  destruct (decide (j = i)) as [->|Hne]; cbn [map snd].
  - destruct l as [|e' l].
    + intros [= -> E]. exists [], log. by split.
    + intros [= -> E]. destruct (IH l E) as (l1 & l2 & -> & Hl1 & Hl2). exists ((i, e') :: l1), l2.
      split; [done|]. split; [|done]. unfold own in *. rewrite filter_cons, decide_True by done. cbn. by rewrite Hl1.
  - intros E. destruct (IH l E) as (l1 & l2 & -> & Hl1 & Hl2). exists ((j, e) :: l1), l2. split; [done|]. split; [|done].
    unfold own in *. by rewrite filter_cons, decide_False by done.
Qed.

Lemma elem_split (i : nat) (ev : event) log : (i, ev) ∈ log -> exists l1 l2, log = l1 ++ (i, ev) :: l2.
Proof. apply list_elem_of_split. Qed.

Lemma log_told s l1 i ev l2 : reachable s -> sys_log s = l1 ++ (i, ev) :: l2 -> told (histories_of l1) ev.
Proof.
  intros [_ Hlog _ _ _]%system_reachable E. unfold events in Hlog. rewrite E, map_app in Hlog. by eapply consistent_told.
Qed.

Lemma log_continues s l1 l2 l3 id r r' : reachable s -> sys_log s = l1 ++ l2 ++ l3 ->
  histories_of l1 !! id = Some r -> histories_of (l1 ++ l2) !! id = Some r' -> continues r r'.
Proof.
  intros [_ Hlog _ _ _]%system_reachable E. unfold events in Hlog. rewrite E, app_assoc, map_app in Hlog.
  apply consistent_prefix in Hlog as (m & Hm & _). rewrite map_app in Hm |- *. intros Hr. by eapply histories_continue.
Qed.

(** A row is the same at any two moments. *)
Lemma log_row s l1 l1' l2 l2' id r r' : reachable s -> sys_log s = l1 ++ l1' -> sys_log s = l2 ++ l2' ->
  histories_of l1 !! id = Some r -> histories_of l2 !! id = Some r' -> ar_row r = ar_row r'.
Proof.
  intros Hs E1 E2 Hr Hr'. rewrite E1 in E2.
  apply app_eq_inv in E2 as [(k & -> & ->)|(k & -> & ->)].
  - eapply (log_continues s l2 k l1'); [done|by rewrite E1, <- app_assoc|done|done].
  - symmetry. eapply (log_continues s l1 k l2'); [done|by rewrite E1|done|done].
Qed.

(** The row of a repository a request looked up. *)
Lemma looked_up s i namespace name type repo : reachable s -> (i, EvGetRepo namespace name type (Ok repo)) ∈ sys_log s ->
  forall l1 l2 r, sys_log s = l1 ++ l2 -> histories_of l1 !! rp_id repo = Some r ->
    row_to_repo (rp_id repo) (ar_row r) = Ok repo /\ same_repo namespace name (repo_type_str type) (ar_row r) = true.
Proof.
  intros Hs (l & l' & E)%elem_split. destruct (log_told _ _ _ _ _ Hs E) as (r0 & Hr0 & Hrow & Hsame).
  intros l1 l2 r E' Hr. by rewrite <- (log_row s l _ l1 l2 _ _ _ Hs E E' Hr0 Hr).
Qed.

(** Who may see a row. *)
Lemma accessible id row repo user : row_to_repo id row = Ok repo -> can_access_repo repo user = true ->
  rr_private row = 0 \/ rr_namespace row = user.
Proof.
  unfold row_to_repo. destruct (repo_type_from_str _); [|done..]. intros [= <-]. unfold can_access_repo. cbn.
  rewrite negb_involutive. intros [Hp|Hn]%orb_true_iff; [left; lia|right; by apply String.eqb_eq].
Qed.

(** ** Theorems *)

(** C3: the tables hold exactly the histories that the successful calls made, in
    every reachable state of any number of concurrent requests with statements
    that may fail at any point; and the log of all calls is one the abstract
    store allows, so that each answer was true when it was given: a commit was
    appended to the head it named, under an id no commit had. *)
Theorem store_refines_histories s : reachable s ->
  represents (sys_db s) (histories s) /\ consistent (events s) (next_id (sys_db s)).
Proof. intros []%system_reachable. by split. Qed.

(** C5: history is append-only.  Whatever happens, a repository that is still
    there has the row it had, all its commits in their order with any new ones
    after them, and under each of those commits the files it had. *)
Theorem histories_only_grow s s' id r r' : reachable s -> rtc step s s' ->
  histories s !! id = Some r -> histories s' !! id = Some r' ->
  continues r r' /\ forall n cm, ar_commits r !! n = Some cm -> tree (sys_db s') id (cm_id cm) = tree (sys_db s) id (cm_id cm).
Proof.
  intros Hs Hss' Hr Hr'. assert (reachable s') as Hs' by (unfold HubSystem.reachable in *; by etrans).
  assert (exists l, sys_log s' = sys_log s ++ l) as [l El].
  { clear -Hss'. induction Hss' as [s|s1 s2 s3 Hstep _ [l IH]]; [exists []; by rewrite app_nil_r|].
    destruct Hstep; cbn [sys_log] in *; [by exists l|]. rewrite IH. eexists. by rewrite <- app_assoc. }
  assert (continues r r') as Hcont.
  { eapply (log_continues s' (sys_log s) l []); [done|by rewrite app_nil_r| |rewrite <- El]; done. }
  split; [done|]. intros n cm Hn. destruct Hcont as [_ [more Hmore]].
  rewrite (rep_trees _ _ (so_store _ _ _ (system_reachable _ _ _ Hs)) _ _ _ _ Hr Hn).
  rewrite (rep_trees _ _ (so_store _ _ _ (system_reachable _ _ _ Hs')) _ _ n cm Hr').
  - rewrite Hmore, take_app_le; [done|]. apply lookup_lt_Some in Hn. lia.
  - rewrite Hmore. by apply lookup_app_l_Some.
Qed.

(** no update is lost.  Two commits that were accepted for one repository
    never named the same parent. *)
Theorem no_lost_update s l1 l2 l3 i j rev1 rev2 changes1 changes2 parent1 parent2 : reachable s ->
  sys_log s = l1 ++ (i, EvCommit rev1 changes1 parent1 (Ok tt)) :: l2 ++ (j, EvCommit rev2 changes2 parent2 (Ok tt)) :: l3 ->
  rv_repo_id rev1 = rv_repo_id rev2 -> parent1 <> parent2.
Proof.
  intros Hs E Hid. destruct (log_told _ _ _ _ _ Hs E) as (r1 & Hr1 & Hh1 & Hf1).
  set (first := (i, EvCommit rev1 changes1 parent1 (Ok tt))) in *. set (second := (j, EvCommit rev2 changes2 parent2 (Ok tt))) in *.
  assert (sys_log s = (l1 ++ first :: l2) ++ second :: l3) as E2 by (by rewrite <- app_assoc).
  destruct (log_told _ _ _ _ _ Hs E2) as (r2 & Hr2 & Hh2 & Hf2).
  assert (histories_of (l1 ++ [first]) !! rv_repo_id rev1 = Some (mkRepository (ar_row r1) (ar_commits r1 ++ [mkCommit rev1 changes1]))) as Hafter.
  { rewrite map_app. cbn [map snd]. rewrite hub_of_snoc. cbn [first snd record]. rewrite Hr1. unfold committed. cbn [cm_revision]. by rewrite lookup_insert_eq. }
  rewrite <- Hid in Hr2.
  assert (continues (mkRepository (ar_row r1) (ar_commits r1 ++ [mkCommit rev1 changes1])) r2) as [_ [more Hmore]].
  { apply (log_continues s (l1 ++ [first]) l2 (second :: l3) (rv_repo_id rev1)); [done| |done|].
    - rewrite E. by rewrite <- app_assoc.
    - rewrite <- app_assoc. exact Hr2. }
  cbn [ar_commits] in Hmore. intros <-. rewrite <- Hh1 in Hh2.
  pose proof (system_reachable _ _ _ Hs) as [_ Hlog _ _ _]. unfold events in Hlog. rewrite E2, map_app in Hlog.
  apply consistent_prefix in Hlog as (m & Hm & _). pose proof (consistent_unique _ _ _ _ Hm Hr2) as Hnd. clear Hm.
  rewrite Hmore in Hh2, Hnd. clear -Hh2 Hnd.
  destruct (head_of (ar_commits r1)) as [c|] eqn:Ec; [|by apply head_of_None in Hh2; destruct (ar_commits r1)].
  apply head_of_elem in Ec as (cm1 & n1 & <- & Hn1 & Hl1), Hh2 as (cm2 & n2 & Hc & Hn2 & Hl2).
  assert (n2 = n1) as ->; [|rewrite !length_app in Hl2; cbn in Hl2; lia].
  apply (NoDup_lookup _ n2 n1 (cm_id cm1) Hnd); rewrite list_lookup_fmap; [by rewrite Hn2; cbn; rewrite Hc|].
  rewrite <- app_assoc. rewrite (lookup_app_l_Some _ _ _ _ Hn1). done.
Qed.

(** A finished request met its contract. *)
Lemma finished s i rq rs evs : reachable s -> sys_threads s !! i = Some (mkThread rq (Done rs) evs) ->
  evs = own i (sys_log s) /\ contract rq (own i (sys_log s)) rs.
Proof. intros Hs Hi. destruct (so_thread _ _ _ (system_reachable _ _ _ Hs) _ _ Hi) as [E Hr]. cbn in E, Hr. by subst evs. Qed.

Lemma quiet_none (i : nat) log ev : quiet (own i log) -> (i, ev) ∈ log -> changes_store ev = false.
Proof. intros Hq Hin%own_elem. by eapply (proj1 (Forall_forall _ _) Hq). Qed.

(** C4: an answer to a request to commit tells what happened.  If it is a commit
    id, then exactly one event of the request changed the store: at that moment
    the repository in the user's namespace had the declared parent as its head,
    and got one more commit, with that id, that parent, the message, the user as
    author, and for each operation of the body its change: a deletion, an LFS
    file whose size the CAS server confirmed, or an inline file that the CAS
    server took under its SHA-256.  Otherwise the request changed nothing. *)
Theorem commit_answer_is_true s i rq r evs : reachable s ->
  sys_threads s !! i = Some (mkThread (RqCommit rq) (Done (RsCommit r)) evs) ->
  match r with
  | Ok resp => exists before after repo header ops changes timestamp write_token internal_token h,
      let parent := ch_parent_revision header in
      let rev := mkRevision (cr_commit_oid resp) (rp_id repo) parent (ch_summary header) (cq_username rq) timestamp in
      sys_log s = before ++ (i, EvCommit rev changes parent (Ok tt)) :: after /\
      quiet (own i before) /\ quiet (own i after) /\
      parse_commit_body (cq_body rq) = Ok (header, ops) /\
      Forall2 (change_of cas_url (rp_id repo) (cr_commit_oid resp) write_token internal_token (own i before)) ops changes /\
      histories_of before !! rp_id repo = Some h /\ head_of (ar_commits h) = parent /\
      same_repo (cq_username rq) (cq_repo_name rq) (repo_type_str (cq_repo_type rq)) (ar_row h) = true /\
      histories_of (before ++ [(i, EvCommit rev changes parent (Ok tt))]) =
        <[rp_id repo := mkRepository (ar_row h) (ar_commits h ++ [mkCommit rev changes])]> (histories_of before)
  | _ => forall ev, (i, ev) ∈ sys_log s -> changes_store ev = false
  end.
Proof.
  intros Hs Hi. destruct (finished _ _ _ _ _ Hs Hi) as [-> Hc]. cbn [contract] in Hc. destruct r as [resp|e|].
  2-3: intros ev Hin; by eapply quiet_none.
  destruct Hc as (before0 & repo & header & ops & changes & timestamp & wt & it & Eown & Hq & Hns & _ & Hrepo & _ & Hbody & Hchanges & _).
  set (parent := ch_parent_revision header) in *. cbn zeta.
  set (ev := EvCommit _ changes parent (Ok tt)) in *.
  apply own_split in Eown as (before & after & Elog & <- & Eafter).
  destruct (log_told _ _ _ _ _ Hs Elog) as (h & Hh & Hhead & _). cbn [rv_repo_id] in Hh.
  assert ((i, EvGetRepo (cq_namespace rq) (cq_repo_name rq) (cq_repo_type rq) (Ok repo)) ∈ sys_log s) as Hin.
  { rewrite Elog. apply elem_of_app. left. by apply own_elem. }
  destruct (looked_up _ _ _ _ _ _ Hs Hin before _ h Elog Hh) as [_ Hsame]. rewrite Hns in Hsame.
  exists before, after, repo, header, ops, changes, timestamp, wt, it, h. cbn zeta. fold parent. fold ev.
  split; [done|]. split; [done|]. split; [rewrite Eafter; constructor|]. split; [done|]. split; [done|]. split; [done|]. split; [done|].
  split; [done|].
  rewrite map_app. cbn [map snd]. rewrite hub_of_snoc. cbn [ev record rv_repo_id]. by rewrite Hh.
Qed.

(** C6: what a reader is given is a file of a snapshot it may see.  When a
    request to resolve a file is answered, there was a moment at which the
    repository it named was there and was public or the reader's own, and the
    commit of the answer was one of its commits, the one asked for by name or
    the head of an earlier moment; the entry is what the commits up to that one
    left at the path.  The request changed nothing. *)
Theorem resolved_file_is_in_a_snapshot s i rq f evs : reachable s ->
  sys_threads s !! i = Some (mkThread (RqResolve rq) (Done (RsResolved (Ok f))) evs) ->
  exists before after id r n files row,
    sys_log s = before ++ (i, EvResolve id (rs_commit_id f) (rq_file_path rq) (Ok (rs_file_entry f))) :: after /\
    histories_of before !! id = Some r /\
    same_repo (rq_namespace rq) (rq_repo_name rq) (repo_type_str (rq_repo_type rq)) (ar_row r) = true /\
    (rr_private (ar_row r) = 0 \/ rr_namespace (ar_row r) = rq_username rq) /\
    nth_commit r n (rs_commit_id f) files /\ files !! rq_file_path rq = Some row /\
    rs_file_entry f = entry_of id (rs_commit_id f) (rq_file_path rq, row) /\
    ((is_commit_name (rq_revision rq) = true /\ rs_commit_id f = rq_revision rq) \/
     (rq_revision rq = "main" /\ exists earlier later r0, sys_log s = earlier ++ later /\ histories_of earlier !! id = Some r0 /\
        head_of (ar_commits r0) = Some (rs_commit_id f))) /\
    forall ev, (i, ev) ∈ sys_log s -> changes_store ev = false.
Proof.
  intros Hs Hi. destruct (finished _ _ _ _ _ Hs Hi) as [-> [Hq Hc]]. cbn [contract] in Hc.
  destruct (Hc f eq_refl) as (repo & [Hrepo Haccess] & Hnamed & Hres).
  apply own_elem in Hrepo, Hres. apply elem_split in Hres as (before & after & Elog).
  destruct (log_told _ _ _ _ _ Hs Elog) as (r & n & files & row & Hr & Hn & Hfile & Hentry).
  destruct (looked_up _ _ _ _ _ _ Hs Hrepo before _ r Elog Hr) as [Hrow Hsame].
  exists before, after, (rp_id repo), r, n, files, row. repeat (split; [done|]). split; [by eapply accessible|]. repeat (split; [done|]).
  split; [|intros ev Hin; by eapply quiet_none].
  destruct Hnamed as [Hc'|[Hm Hh]]; [by left|right]. split; [done|]. apply own_elem, elem_split in Hh as (earlier & later & El).
  pose proof (log_told _ _ _ _ _ Hs El) as Ht. cbn [told] in Ht. destruct (histories_of earlier !! rp_id repo) as [r0|] eqn:Er0; [|done].
  eexists earlier, _, r0. split; [exact El|]. by split.
Qed.

(** C7: only owners write.  Every event of any request that changed the store,
    whether the request was answered, is still running or was cut off, changed
    a repository in the namespace of the user of the request. *)
Theorem only_owners_write s before i ev after t : reachable s ->
  sys_log s = before ++ (i, ev) :: after -> changes_store ev = true -> sys_threads s !! i = Some t ->
  let user := request_user (th_request t) in
  match ev with
  | EvCreate namespace _ _ _ _ => namespace = user
  | EvDelete id _ => exists r, histories_of before !! id = Some r /\ rr_namespace (ar_row r) = user
  | EvCommit rev _ _ _ => exists r, histories_of before !! rv_repo_id rev = Some r /\ rr_namespace (ar_row r) = user
  | _ => False
  end.
Proof.
  intros Hs E Hch Ht user. pose proof (so_may _ _ _ (system_reachable _ _ _ Hs) _ _ _ _ _ E Hch Ht) as Hmay. fold user in Hmay.
  pose proof (log_told _ _ _ _ _ Hs E) as Htold.
  assert (forall id r, owned user (own i before) id -> histories_of before !! id = Some r -> rr_namespace (ar_row r) = user) as Howned.
  { intros id r (ns & name & type & repo & Hin%own_elem & <- & Hns) Hr.
    assert ((i, EvGetRepo ns name type (Ok repo)) ∈ sys_log s) as Hin' by (rewrite E; apply elem_of_app; by left).
    destruct (looked_up _ _ _ _ _ _ Hs Hin' before _ r E Hr) as [Hrow _]. unfold row_to_repo in Hrow.
    destruct (repo_type_from_str _); [|done..]. injection Hrow as Erepo. by rewrite <- Hns, <- Erepo. }
  destruct (change_cases ev) as [| | |ev Hq]; [done| | |congruence].
  - destruct Htold as [r Hr]. exists r. split; [done|]. by eapply Howned.
  - destruct Htold as (r & Hr & _). exists r. split; [done|]. by eapply Howned.
Qed.

(** C22: rows are well typed.  In every reachable state the references of the
    tables hold, and no query finds a row it cannot read: a lookup of a
    repository, a file tree whole or below a prefix, and the resolution of a
    path answer with rows, with their absence or with an error of the database,
    never with corruption and never by panicking. *)
Theorem stored_rows_read_back s : reachable s ->
  references_ok (sys_db s) /\
  forall fails id c namespace name type,
    reads_back (get_repo fails namespace name type (sys_db s)) /\
    reads_back (get_file_tree fails id c (sys_db s)) /\
    (forall like : SqlLike, forall prefix, reads_back (get_file_tree_prefix fails id c prefix (sys_db s))) /\
    (forall path, reads_back (resolve_file fails id c path (sys_db s))).
Proof.
  intros Hs. pose proof (so_store _ _ _ (system_reachable _ _ _ Hs)) as Hrep. split; [by eapply represents_references|].
  intros fails id c namespace name type.
  assert (forall l, (forall entry, entry ∈ l -> entry ∈ ordered_rows (tree (sys_db s) id c)) -> reads_back (map_outcome (row_to_file_entry id c) l)) as Hmap.
  { intros l Hl. rewrite (map_outcome_total _ (entry_of id c)); [done|]. intros [path row] Hin%Hl%elem_of_ordered.
    apply row_to_file_entry_spec. by apply (tree_fits _ _ id c Hrep path). }
  split; [|split; [|split]].
  - pose proof (get_repo_told fails namespace name type _ _ Hrep) as Ht. split; [by eapply get_repo_not_panic|].
    intros E. unfold get_repo in E. destruct (fails 0%nat); [done|]. destruct (find_repo _ _ _ _) as [[id' row]|] eqn:Ef; [|done].
    apply (find_repo_spec _ _ _ _ _ Hrep) in Ef as (r & Hr & <- & _). destruct (row_to_repo_spec _ _ _ _ Hrep Hr) as (t & _ & Et). congruence.
  - unfold get_file_tree. destruct (fails 0%nat); [done|]. by apply Hmap.
  - intros like prefix. unfold get_file_tree_prefix. destruct (fails 0%nat); [done|]. apply Hmap.
    intros entry [Hin _]%list_elem_of_In%filter_In. by apply list_elem_of_In.
  - intros path. rewrite (resolve_file_spec _ _ _ _ _ _ Hrep). destruct (fails 0%nat); [done|].
    by destruct (tree (sys_db s) id c !! path).
Qed.

(** the log query ends and is the history.  On the tables of any reachable
    state the recursion over the parents visits no revision twice, and answers
    the commits of the repository from the newest on, at most as many as asked
    for (but one where none was asked for); an unknown repository has none. *)
Theorem commit_log_is_the_history s id limit : reachable s ->
  get_commit_log (fun _ => false) id limit (sys_db s) =
    Some (Ok (match histories s !! id with
              | Some r => take (log_limit limit) (rev (map cm_revision (ar_commits r)))
              | None => []
              end)) /\
  forall r, histories s !! id = Some r -> NoDup (map cm_id (ar_commits r)) /\
    forall n cm, ar_commits r !! n = Some cm -> rv_parent (cm_revision cm) = head_of (take n (ar_commits r)).
Proof.
  intros Hs. pose proof (so_store _ _ _ (system_reachable _ _ _ Hs)) as Hrep.
  split; [exact (get_commit_log_spec (fun _ => false) id limit _ _ Hrep)|]. intros r Hr.
  destruct (rep_ids _ _ Hrep _ _ Hr) as (_ & _ & Hok). split; [apply Hok|]. intros n cm Hn.
  by destruct (ho_commit _ _ Hok _ _ Hn) as (_ & ? & _).
Qed.
End Safety.

(** ** A run *)
#[local] Existing Instances Model.hex Model.sha2 TokenModel.base64 TokenModel.json TokenModel.ed25519.

(** Operations in a form of their own: a letter, and what follows it. *)
#[local] Instance sample_json : CommitJson := fun line =>
  match line with
  | String "h" summary => Some (OpHeader (mkCommitHeader summary None))
  | String "p" parent => Some (OpHeader (mkCommitHeader "more" (Some parent)))
  | String "f" content => Some (OpFile (mkFileOp "notes.txt" content))
  | String "l" oid => Some (OpLfsFile (mkLfsOp "big.bin" oid 3))
  | String "d" path => Some (OpDeletedEntry (mkDeletedOp path))
  | _ => None
  end.
#[local] Instance sample_json_laws : CommitJsonLaws.
Proof.
  intros s f. unfold parse_operation, sample_json. destruct s as [|[[] [] [] [] [] [] [] []] s]; try done; intros [= <-]; done.
Qed.

Definition hub_signer : XetSigner := mkSigner (7 : @SigningKey TokenModel.ed25519) "key-1" 3600 300 86400.
Definition hub_world : world :=
  mkWorld (fun _ => HttpResponse 200 [("X-Blob-Size", Some "3")] None []) 1700000000 (Some 1700000000) "a-nonce".
Definition newline : string := String "010"%char "".
Definition first_commit : CommitRequest :=
  mkCommitRequest "alice" "alice" "data" "main" RModel
    ("hstart" +:+ newline +:+ "f" +:+ Model.encode (str_bytes "hello") +:+ newline +:+
     "l" +:+ hex_encode (sha256_digest (str_bytes "abc")) +:+ newline).
Abbreviation hub_run rqs := (serve_all "http://cas" hub_signer hub_world rqs initial).
Definition first_requests : list request := [RqCreateTyped "alice" "data" RModel true; RqCommit first_commit].
#[local] Abbreviation hub_reachable := (reachable "http://cas" hub_signer).
Definition response_of (s : system) (i : nat) : option response :=
  match sys_threads s !! i with Some (mkThread _ (Done r) _) => Some r | _ => None end.
Definition request_of (s : system) (i : nat) : option request := th_request <$> sys_threads s !! i.
Definition commit_response (s : system) (i : nat) : CommitResponse :=
  match response_of s i with Some (RsCommit (Ok r)) => r | _ => mkCommitResponse "" "" None None end.
Definition resolved_file (s : system) (i : nat) : ResolvedFile :=
  match response_of s i with Some (RsResolved (Ok f)) => f | _ => mkResolved "" (mkEntry "" 0 "" 0 "" false) end.

Definition first_run : system := hub_run first_requests.
Definition second_commit : CommitRequest :=
  mkCommitRequest "alice" "alice" "data" "main" RModel
    ("p" +:+ cr_commit_oid (commit_response first_run 1) +:+ newline +:+ "dnotes.txt" +:+ newline).
Definition sample_resolve (user : string) : ResolveFileRequest := mkResolveRequest user "alice" "data" RModel "main" "big.bin".
Definition later_requests : list request :=
  [RqCommit second_commit; RqResolve (sample_resolve "alice"); RqResolve (sample_resolve "eve")].
Definition hub_final : system := serve_all "http://cas" hub_signer hub_world later_requests first_run.

Lemma first_reachable : hub_reachable first_run.
Proof. by apply serve_all_steps. Qed.
Lemma first_to_final : rtc (HubSystem.step "http://cas" hub_signer) first_run hub_final.
Proof. by apply serve_all_steps. Qed.
Lemma final_reachable : hub_reachable hub_final.
Proof. unfold reachable. etrans; [apply first_reachable|apply first_to_final]. Qed.

Lemma finished_thread s i rq rs : request_of s i = Some rq -> response_of s i = Some rs ->
  exists evs, sys_threads s !! i = Some (mkThread rq (Done rs) evs).
Proof.
  unfold request_of, response_of. destruct (sys_threads s !! i) as [[rq' [r|] evs]|]; cbn; try done.
  intros [= ->] [= ->]. by exists evs.
Qed.

Example eve_sees_nothing : response_of hub_final 4 = Some (RsResolved (Err (RfNotFound "Repository not found"))).
Proof. vm_compute. reflexivity. Qed.

Lemma store_refines_histories_witness : hub_reachable hub_final /\
  represents (sys_db hub_final) (histories hub_final) /\ consistent (events hub_final) (next_id (sys_db hub_final)).
Proof. split; [exact final_reachable|]. exact (store_refines_histories "http://cas" hub_signer hub_final final_reachable). Defined.

Lemma histories_only_grow_witness : exists r r',
  histories first_run !! 1 = Some r /\ histories hub_final !! 1 = Some r' /\
  length (ar_commits r) = 1%nat /\ length (ar_commits r') = 2%nat /\
  continues r r' /\ forall n cm, ar_commits r !! n = Some cm -> tree (sys_db hub_final) 1 (cm_id cm) = tree (sys_db first_run) 1 (cm_id cm).
Proof.
  assert ((length ∘ ar_commits) <$> histories first_run !! 1 = Some 1%nat) as H1' by (vm_compute; reflexivity).
  assert ((length ∘ ar_commits) <$> histories hub_final !! 1 = Some 2%nat) as H2' by (vm_compute; reflexivity).
  destruct (histories first_run !! 1) as [r|] eqn:E1; [|discriminate H1'].
  destruct (histories hub_final !! 1) as [r'|] eqn:E2; [|discriminate H2'].
  exists r, r'. split; [done|]. split; [done|]. split; [by injection H1'|]. split; [by injection H2'|].
  exact (histories_only_grow "http://cas" hub_signer first_run hub_final 1 r r' first_reachable first_to_final E1 E2).
Defined.

(** The commits of the run in its log. *)
Definition commits_in (log : list (nat * event)) : list nat :=
  map fst (filter (fun entry => changes_store entry.2.2 = true /\ (entry.2.1 <> 0)%nat) (imap pair log)).
Example commit_positions : commits_in (sys_log hub_final) = [9; 14]%nat.
Proof. vm_compute. reflexivity. Qed.

Lemma log_two {A} (log : list A) i j x y : log !! i = Some x -> log !! j = Some y -> (i < j)%nat ->
  log = take i log ++ x :: take (j - S i) (drop (S i) log) ++ y :: drop (S j) log.
Proof.
  intros Hx Hy Hij. rewrite <- (take_drop_middle log i x Hx) at 1. f_equal. f_equal.
  rewrite <- (take_drop_middle (drop (S i) log) (j - S i) y) at 1; [|rewrite lookup_drop; by replace (S i + (j - S i))%nat with j by lia].
  rewrite drop_drop. by replace (S i + S (j - S i))%nat with (S j) by lia.
Qed.

Definition commit_event (log : list (nat * event)) (n : nat) : Revision * list FileTreeChange * option string :=
  match log !! n with Some (_, EvCommit rev changes parent _) => (rev, changes, parent) | _ => (mkRevision "" 0 None "" "" 0, [], None) end.
Definition event_at (n : nat) : event :=
  let '(rev, changes, parent) := commit_event (sys_log hub_final) n in EvCommit rev changes parent (Ok tt).
Lemma first_event : sys_log hub_final !! 9%nat = Some (1%nat, event_at 9).
Proof. vm_compute. reflexivity. Qed.
Lemma second_event : sys_log hub_final !! 14%nat = Some (2%nat, event_at 14).
Proof. vm_compute. reflexivity. Qed.

Lemma no_lost_update_witness :
  let rev1 := (commit_event (sys_log hub_final) 9).1.1 in let rev2 := (commit_event (sys_log hub_final) 14).1.1 in
  rv_repo_id rev1 = 1 /\ rv_repo_id rev2 = 1 /\ (commit_event (sys_log hub_final) 9).2 <> (commit_event (sys_log hub_final) 14).2.
Proof.
  assert (rv_repo_id (commit_event (sys_log hub_final) 9).1.1 = 1) as E1 by (vm_compute; reflexivity).
  assert (rv_repo_id (commit_event (sys_log hub_final) 14).1.1 = 1) as E2 by (vm_compute; reflexivity).
  split; [exact E1|]. split; [exact E2|].
  pose proof (log_two _ _ _ _ _ first_event second_event ltac:(lia)) as El. unfold event_at in El.
  destruct (commit_event (sys_log hub_final) 9) as [[rev1 changes1] parent1], (commit_event (sys_log hub_final) 14) as [[rev2 changes2] parent2].
  cbn [fst snd] in *.
  exact (no_lost_update "http://cas" hub_signer hub_final _ _ _ _ _ rev1 rev2 changes1 changes2 parent1 parent2 final_reachable El (eq_trans E1 (eq_sym E2))).
Defined.

Lemma commit_answer_is_true_witness : exists evs resp,
  sys_threads hub_final !! 2%nat = Some (mkThread (RqCommit second_commit) (Done (RsCommit (Ok resp))) evs) /\
  exists before after repo header ops changes timestamp write_token internal_token h,
    let parent := ch_parent_revision header in
    let rev := mkRevision (cr_commit_oid resp) (rp_id repo) parent (ch_summary header) "alice" timestamp in
    sys_log hub_final = before ++ (2%nat, EvCommit rev changes parent (Ok tt)) :: after /\
    quiet (own 2 before) /\ quiet (own 2 after) /\
    parse_commit_body (cq_body second_commit) = Ok (header, ops) /\
    Forall2 (change_of "http://cas" (rp_id repo) (cr_commit_oid resp) write_token internal_token (own 2 before)) ops changes /\
    histories_of before !! rp_id repo = Some h /\ head_of (ar_commits h) = parent /\
    same_repo "alice" "data" "model" (ar_row h) = true /\
    histories_of (before ++ [(2%nat, EvCommit rev changes parent (Ok tt))]) =
      <[rp_id repo := mkRepository (ar_row h) (ar_commits h ++ [mkCommit rev changes])]> (histories_of before).
Proof.
  destruct (finished_thread hub_final 2 (RqCommit second_commit) (RsCommit (Ok (commit_response hub_final 2)))) as [evs E];
    [vm_compute; reflexivity..|].
  exists evs, (commit_response hub_final 2). split; [exact E|].
  exact (commit_answer_is_true "http://cas" hub_signer hub_final 2 second_commit (Ok (commit_response hub_final 2)) evs final_reachable E).
Defined.

Lemma resolved_file_is_in_a_snapshot_witness : exists evs f,
  sys_threads hub_final !! 3%nat = Some (mkThread (RqResolve (sample_resolve "alice")) (Done (RsResolved (Ok f))) evs) /\
  fe_size (rs_file_entry f) = 3 /\
  exists before after id r n files row,
    sys_log hub_final = before ++ (3%nat, EvResolve id (rs_commit_id f) "big.bin" (Ok (rs_file_entry f))) :: after /\
    histories_of before !! id = Some r /\ same_repo "alice" "data" "model" (ar_row r) = true /\
    (rr_private (ar_row r) = 0 \/ rr_namespace (ar_row r) = "alice") /\
    nth_commit r n (rs_commit_id f) files /\ files !! "big.bin" = Some row.
Proof.
  destruct (finished_thread hub_final 3 (RqResolve (sample_resolve "alice")) (RsResolved (Ok (resolved_file hub_final 3)))) as [evs E];
    [vm_compute; reflexivity..|].
  exists evs, (resolved_file hub_final 3). split; [exact E|]. split; [vm_compute; reflexivity|].
  destruct (resolved_file_is_in_a_snapshot "http://cas" hub_signer hub_final 3 (sample_resolve "alice") _ evs final_reachable E)
    as (before & after & id & r & n & files & row & Hr).
  exists before, after, id, r, n, files, row. tauto.
Defined.

Lemma only_owners_write_witness : exists t, sys_threads hub_final !! 2%nat = Some t /\
  exists r, histories_of (take 14 (sys_log hub_final)) !! rv_repo_id (commit_event (sys_log hub_final) 14).1.1 = Some r /\
            rr_namespace (ar_row r) = request_user (th_request t).
Proof.
  destruct (sys_threads hub_final !! 2%nat) as [t|] eqn:Et; [|vm_compute in Et; discriminate Et]. exists t. split; [done|].
  pose proof (take_drop_middle _ _ _ second_event) as El. unfold event_at in El.
  destruct (commit_event (sys_log hub_final) 14) as [[rev changes] parent]. cbn [fst snd].
  exact (only_owners_write "http://cas" hub_signer hub_final _ _ _ _ t final_reachable (eq_sym El) eq_refl Et).
Defined.

Lemma stored_rows_read_back_witness : hub_reachable hub_final /\ references_ok (sys_db hub_final) /\
  get_repo (fun _ => false) "alice" "data" RModel (sys_db hub_final) <> Err Corruption.
Proof.
  split; [exact final_reachable|].
  destruct (stored_rows_read_back "http://cas" hub_signer hub_final final_reachable) as [Href Hreads]. split; [exact Href|].
  apply (Hreads (fun _ => false) 1 "" "alice" "data" RModel).
Defined.

Lemma commit_log_is_the_history_witness : hub_reachable hub_final /\ exists log,
  get_commit_log (fun _ => false) 1 (Some 10) (sys_db hub_final) = Some (Ok log) /\ map rv_message log = ["more"; "start"].
Proof.
  split; [exact final_reachable|].
  destruct (commit_log_is_the_history "http://cas" hub_signer hub_final 1 (Some 10) final_reachable) as [E _].
  destruct (histories hub_final !! 1) as [r|] eqn:Er; [|vm_compute in Er; discriminate Er]. eexists. split; [exact E|].
  assert ((map rv_message ∘ take (log_limit (Some 10)) ∘ @rev Revision ∘ map cm_revision ∘ ar_commits) <$> histories hub_final !! 1 = Some ["more"; "start"]) as Em
    by (vm_compute; reflexivity).
  rewrite Er in Em. by injection Em.
Defined.

(** ** A listing *)

(** LIKE, for patterns without an unescaped underscore. *)
Fixpoint like (p s : string) : bool :=
  match p with
  | EmptyString => (s =? "")%string
  | String "%" p => (fix any (s : string) : bool := like p s || match s with EmptyString => false | String _ s => any s end) s
  | String "\" EmptyString | String "_" _ => false
  | String "\" (String c p) | String c p =>
      match s with
      | String a s => Ascii.eqb (ascii_to_lower c) (ascii_to_lower a) && like p s
      | EmptyString => false
      end
  end.

Lemma like_percent p s :
  (forall s, like p s = true <-> like_match p s) -> like (String "%" p) s = true <-> like_match (String "%" p) s.
Proof.
  intros Hp. split.
  - induction s as [|a s IH]; intros [Hs|Hs]%orb_true_iff; try done; try (by apply lm_none, Hp). by apply lm_more, IH.
  - intros Hm. remember (String "%" p) as q eqn:Eq. induction Hm as [|p' s Hm _|p' a s Hm IH|c a p' s|c a p' s Hc]; try done.
    + injection Eq as ->. destruct s; apply orb_true_iff; left; by apply Hp.
    + apply orb_true_iff. right. by apply IH.
    + by injection Eq as -> _.
Qed.

Lemma like_same c p s : like_special c = false -> like (String c p) s =
  match s with String a s => Ascii.eqb (ascii_to_lower c) (ascii_to_lower a) && like p s | EmptyString => false end.
Proof. destruct c as [[] [] [] [] [] [] [] []]; done. Qed.

Lemma like_spec p s : no_wild p = true -> like p s = true <-> like_match p s.
Proof.
  assert (forall n p, (String.length p <= n)%nat -> no_wild p = true -> forall s, like p s = true <-> like_match p s) as Hgen; [|intros; by eapply Hgen].
  clear. induction n as [|n IH]; intros p Hlen Hw s; (destruct p as [|c p]; [|cbn in Hlen; try lia]).
  1-2: cbn; rewrite String.eqb_eq; split; [intros ->; constructor|by inversion 1].
  destruct (like_special c) eqn:Ec.
  - unfold like_special in Ec. apply orb_true_iff in Ec as [[E%Ascii.eqb_eq|E%Ascii.eqb_eq]%orb_true_iff|E%Ascii.eqb_eq]; subst c; [|done|].
    + apply like_percent. apply IH; [lia|done].
    + destruct p as [|c p]; [done|]. cbn in Hlen, Hw. destruct s as [|a s]; cbn [like]; [split; [done|by inversion 1]|].
      rewrite andb_true_iff, Ascii.eqb_eq, (IH p) by (done || lia). split; [intros [? ?]; by constructor|].
      intros Hm. inversion Hm as [| | |? ? ? ? Hl Hm'|? ? ? ? Hl]; subst; [done|by cbn in Hl].
  - assert (no_wild p = true) as Hw' by (destruct c as [[] [] [] [] [] [] [] []]; done).
    rewrite like_same by done. destruct s as [|a s]; [split; [done|inversion 1; subst; done]|].
    rewrite andb_true_iff, Ascii.eqb_eq, (IH p) by (done || lia). split; [intros [? ?]; by constructor|].
    intros Hm. inversion Hm; subst; try done; by cbn in Ec.
Qed.
#[local] Instance sample_like : SqlLike := like.
#[local] Instance sample_like_laws : SqlLikeLaws := like_spec.
#[local] Existing Instance TokenModel.base64_laws.
#[local] Instance sample_base64_length : Base64Length.
Proof. intros bs. change (String.length (Model.encode bs) <= 2 * length bs)%nat. induction bs as [|b bs IH]; cbn in *; lia. Qed.

Definition sample_listing : TreeListRequest := mkTreeRequest "alice" "alice" "data" RModel "main" "" false None.
Definition final_id : string := cr_commit_oid (commit_response hub_final 2).

Lemma tree_pages_list_the_tree_witness :
  let rows := tree (sys_db hub_final) 1 final_id in
  exists listing, follow (S (size rows)) (fun _ _ => sys_db hub_final) 0 sample_listing = Some (Ok listing) /\
    NoDup listing /\ forall x, x ∈ listing <-> listed false (normalize_tree_path "") rows x.
Proof.
  intros rows. pose proof (so_store _ _ _ (system_reachable _ _ _ final_reachable)) as Hrep.
  destruct (histories hub_final !! 1) as [r|] eqn:Er; [|vm_compute in Er; discriminate Er].
  assert (head_of <$> (ar_commits <$> histories hub_final !! 1) = Some (Some final_id)) as Eh by (vm_compute; reflexivity).
  assert (rr_private <$> (ar_row <$> histories hub_final !! 1) = Some 1 /\ rr_namespace <$> (ar_row <$> histories hub_final !! 1) = Some "alice" /\
    same_repo "alice" "data" "model" <$> (ar_row <$> histories hub_final !! 1) = Some true) as (Ep & En & Es) by (vm_compute; auto).
  rewrite Er in Eh, Ep, En, Es. injection Eh as Eh. injection En as En. injection Es as Es.
  apply (tree_pages_list_the_tree sample_listing (fun _ _ => sys_db hub_final) 1 (ar_row r) final_id rows); [| |by right| | |done|].
  - intros _ _. exists (histories hub_final), r. split; [exact Hrep|]. split; [exact Er|]. split; [done|]. split; [|done].
    apply head_of_elem in Eh as (cm & n & Hc & Hn & _). exists cm. split; [by eapply list_elem_of_lookup_2|done].
  - exact Es.
  - vm_compute. reflexivity.
  - assert (map_to_list rows = [("big.bin", mkFileRow 3 (hex_encode (sha256_digest (str_bytes "abc"))) 1)]) as El by (vm_compute; reflexivity).
    intros path [row Hrow%elem_of_map_to_list]. rewrite El in Hrow. apply list_elem_of_singleton in Hrow as [= -> _]. vm_compute. split; [done|]. split; [discriminate|reflexivity].
  - vm_compute. reflexivity.
Defined.
