(* ===== verification/HubApi.v ===== *)
(** * The Hub's HTTP handlers (src/hub/src/api, src/hub/src/error.rs, auth/extract.rs)

    A handler is the program of its service with the service's answer turned
    into an HTTP reply; [None] in place of a reply is a panic.  The handlers of
    the LFS endpoints are in [HubLfs] and [HubBatch]. *)
From stdpp Require Import gmap strings.
From Stdlib Require Import Ascii.
From S2P Require Import Prelude Bytes Crates MerkleHash Hash Text Url TokenCrates Tokens HubSigner HubMetadata HubTree HubPrograms HubCommit HubRepos HubTokens HubBatch.

Local Open Scope string_scope.
Local Open Scope list_scope.
Local Open Scope Z_scope.

(** ** Replies *)
Inductive body := NoBody | JsonBody (v : json) | BytesBody (data : list byte).
Record reply := mkReply { re_status : Z; re_headers : list (string * string); re_body : body }.

Definition json_obj (fields : list (string * json)) : json := JObject (list_to_map fields).
Definition json_reply (status : Z) (v : json) : reply := mkReply status [] (JsonBody v).
Definition json_bool (b : bool) : json := JBool b.
Definition json_u64 (n : Z) : json := JNumber (u64_to_string n).
Definition json_opt_str (s : option string) : json := match s with Some s => JString s | None => JNull end.

Definition error_json (error error_type : string) : json := json_obj [("error", JString error); ("error_type", JString error_type)].
Definition error_reply (status : Z) (error error_type : string) : reply := json_reply status (error_json error error_type).

(** Internal details go to the log, not to the client. *)
Definition INTERNAL_ERROR_MESSAGE : string := "Internal server error".
Definition CAS_ERROR_MESSAGE : string := "Upstream CAS request failed".
Definition internal_error_response : reply := error_reply 500 INTERNAL_ERROR_MESSAGE "InternalError".
Definition bad_gateway_error_response (error_type : string) : reply := error_reply 502 CAS_ERROR_MESSAGE error_type.
Definition gateway_timeout_error_response (error_type : string) : reply := error_reply 504 CAS_ERROR_MESSAGE error_type.

Definition auth_error_response (e : ExtractError) : reply :=
  match e with
  | AeMissingHeader => error_reply 401 "Missing authorization" "AuthenticationError"
  | AeInvalidToken => error_reply 401 "Invalid token" "AuthenticationError"
  | AeInsufficientScope required => error_reply 403 ("Insufficient scope: " +:+ required +:+ " required") "AuthorizationError"
  | AeInternal => internal_error_response
  end.

Definition reply_of {E A} (on_ok : A -> reply) (on_err : E -> reply) (r : outcome E A) : option reply :=
  match r with Ok a => Some (on_ok a) | Err e => Some (on_err e) | Panic => None end.
Definition answer_with {E A} (on_ok : A -> reply) (on_err : E -> reply) (p : prog (outcome E A)) : prog (option reply) :=
  bind* r := p in Done (reply_of on_ok on_err r).

(** chrono's formatting of a Unix time, where it has one. *)
Class Chrono := format_timestamp : Z -> option string.
Definition chrono_datetime `{Chrono} (timestamp : Z) : string := default "1970-01-01T00:00:00Z" (format_timestamp timestamp).

(** ** Repositories (api/repo.rs) *)
Section Repos.
Context `{Chrono}.

Definition repo_id_of (repo : Repo) : string := rp_namespace repo +:+ "/" +:+ rp_name repo.
Definition repo_to_json (repo : Repo) : json :=
  json_obj [("id", JString (repo_id_of repo)); ("name", JString (rp_name repo)); ("private", json_bool (rp_private repo));
            ("createdAt", JString (chrono_datetime (rp_created_at repo))); ("updatedAt", JString (chrono_datetime (rp_updated_at repo)));
            ("tags", JArray []); ("downloads", json_u64 0); ("likes", json_u64 0); ("url", JString ("/" +:+ repo_id_of repo))].

Definition repo_service_error_response (not_found_type : string) (err : RepoServiceError) : reply :=
  match err with
  | ReValidation msg => error_reply 400 msg "ValidationError"
  | ReNotFound msg => error_reply 404 msg not_found_type
  | ReConflict msg => error_reply 409 msg "ConflictError"
  | ReForbidden msg => error_reply 403 msg "AuthorizationError"
  | ReRevisionNotFound msg => error_reply 404 msg "RevisionNotFoundError"
  | ReInternal _ => internal_error_response
  end.

(** The bodies, as serde reads them: a field that is absent has its default. *)
Record CreateRepoRequest := mkCreateRepo { cb_name : string; cb_private : bool }.
Record CreateRepoUnifiedRequest := mkCreateUnified { cu_name : string; cu_organization : option string; cu_repo_type : option string; cu_private : bool }.
Definition bool_field (key : string) (v : json) : option bool :=
  match json_get key v with Some (JBool b) => Some b | None => Some false | Some _ => None end.
Definition opt_str_field (key : string) (v : json) : option (option string) :=
  match json_get key v with Some (JString s) => Some (Some s) | None | Some JNull => Some None | Some _ => None end.
Definition create_repo_request (v : json) : option CreateRepoRequest :=
  name ← json_get "name" v ≫= as_str; private ← bool_field "private" v; Some (mkCreateRepo name private).
Definition create_repo_unified_request (v : json) : option CreateRepoUnifiedRequest :=
  name ← json_get "name" v ≫= as_str; organization ← opt_str_field "organization" v;
  repo_type ← opt_str_field "type" v; private ← bool_field "private" v; Some (mkCreateUnified name organization repo_type private).

Definition create_repo (repo_type : RepoType) (info : TokenInfo) (body : CreateRepoRequest) : prog (option reply) :=
  answer_with (fun repo => json_reply 200 (repo_to_json repo)) (repo_service_error_response "NotFoundError")
    (create_typed_repo (ti_username info) (cb_name body) repo_type (cb_private body)).
Definition create_repo_unified (info : TokenInfo) (body : CreateRepoUnifiedRequest) : prog (option reply) :=
  answer_with (fun repo => json_reply 200 (repo_to_json repo)) (repo_service_error_response "NotFoundError")
    (create_unified_repo (ti_username info) (cu_organization body) (cu_name body) (cu_repo_type body) (cu_private body)).
Definition get_repo_info (repo_type : RepoType) (info : TokenInfo) (namespace repo_name : string) : prog (option reply) :=
  answer_with (fun repo => json_reply 200 (repo_to_json repo)) (repo_service_error_response "NotFoundError")
    (repo_get_repo (ti_username info) namespace repo_name repo_type).
Definition delete_repo_info (repo_type : RepoType) (info : TokenInfo) (namespace repo_name : string) : prog (option reply) :=
  answer_with (fun _ => json_reply 200 (json_obj [("message", JString "Repository deleted successfully")])) (repo_service_error_response "NotFoundError")
    (repo_delete_repo (ti_username info) namespace repo_name repo_type).

Definition revision_json (repo : Repo) (sha title author created_at : json) (more : list (string * json)) : json :=
  json_obj ([("id", JString (repo_id_of repo)); ("sha", sha); ("title", title); ("author", author); ("createdAt", created_at);
             ("siblings", JArray []); ("tags", JArray []); ("private", json_bool (rp_private repo)); ("downloads", json_u64 0); ("likes", json_u64 0);
             ("shaRemote", JNull)] ++ more).
Definition revision_reply (r : RepoServiceResult) : reply :=
  match r with
  | RsRevision repo revision =>
      json_reply 200 (revision_json repo (JString (rv_commit_id revision)) (JString (rv_message revision)) (JString (rv_author revision))
                        (JString (chrono_datetime (rv_created_at revision))) [])
  | RsEmptyMainRevision repo head_sha =>
      let is_empty := match head_sha with None => true | Some _ => false end in
      json_reply 200 (revision_json repo (json_opt_str head_sha) (JString (if is_empty then "Empty repository" else "Initial commit")) (JString "system")
                        (JString (chrono_datetime (rp_created_at repo))) [("empty", json_bool is_empty)])
  end.
Definition get_revision_handler (repo_type : RepoType) (info : TokenInfo) (namespace repo_name revision : string) : prog (option reply) :=
  answer_with revision_reply (repo_service_error_response "RepositoryNotFoundError")
    (repo_get_revision (ti_username info) namespace repo_name revision repo_type).
End Repos.

(** ** Commits (api/commit.rs) *)
Definition is_server_error (status : Z) : bool := (500 <=? status) && (status <=? 599).
Definition commit_error_response (err : CommitServiceError) : reply :=
  match err with
  | CePayloadTooLarge actual max =>
      error_reply 413 ("Commit body too large (" +:+ u64_to_string actual +:+ " bytes), max allowed: " +:+ u64_to_string max +:+ " bytes") "PayloadTooLarge"
  | CeValidation message => error_reply 400 message "ValidationError"
  | CeForbidden message => error_reply 403 message "AuthorizationError"
  | CeNotFound message => error_reply 404 message "NotFoundError"
  | CeConflict message current_head note =>
      let body := [("error", JString message); ("error_type", JString "ConflictError"); ("currentHead", json_opt_str current_head)] in
      json_reply 409 (json_obj (body ++ match note with Some note => [("note", JString note)] | None => [] end))
  | CeUnprocessableEntity message => error_reply 422 message "UnprocessableEntity"
  | CeCasUpload status _ =>
      let status_code := if (100 <=? status) && (status <=? 999) then status else 502 in
      if status_code =? 504 then error_reply 504 CAS_ERROR_MESSAGE "GatewayTimeout"
      else if is_server_error status_code then error_reply 502 CAS_ERROR_MESSAGE "CasError"
      else error_reply status_code CAS_ERROR_MESSAGE "CasError"
  | CeBadGateway _ => bad_gateway_error_response "CasError"
  | CeGatewayTimeout _ => gateway_timeout_error_response "GatewayTimeout"
  | CeInternal _ => internal_error_response
  end.
Definition commit_json (r : CommitResponse) : json :=
  json_obj [("commitOid", JString (cr_commit_oid r)); ("commitUrl", JString (cr_commit_url r));
            ("prUrl", json_opt_str (cr_pr_url r)); ("prNum", match cr_pr_num r with Some n => json_u64 n | None => JNull end)].

Section Services.
Context `{HexCrate, Sha2, Base64, TokenJson, Ed25519, CommitJson}.

Definition handle_commit (cas_url : string) (signer : XetSigner) (repo_type : RepoType) (info : TokenInfo) (namespace repo_name revision body : string)
  : prog (option reply) :=
  answer_with (fun response => json_reply 200 (commit_json response)) commit_error_response
    (commit cas_url signer (mkCommitRequest (ti_username info) namespace repo_name revision repo_type body)).

(** ** Token exchange (api/token_exchange.rs) *)
Definition token_exchange_error_response (err : TokenExchangeServiceError) : reply :=
  match err with TxNotFound msg => error_reply 404 msg "NotFoundError" | TxInternal _ => internal_error_response end.
Definition do_exchange (cas_base_url : string) (signer : XetSigner) (repo_type : RepoType) (required_scope : ExchangeScope) (info : TokenInfo)
    (namespace repo revision : string) : prog (option reply) :=
  answer_with (fun result => json_reply 200 (json_obj [("accessToken", JString (xr_access_token result)); ("exp", json_u64 (xr_exp result)); ("casUrl", JString cas_base_url)]))
    token_exchange_error_response
    (exchange signer (mkExchange (ti_user_id info) (ti_username info) namespace repo revision required_scope repo_type)).
End Services.

(** ** Pre-upload (api/preupload.rs) *)
Definition preupload_service_error_response (err : PreuploadServiceError) : reply :=
  match err with
  | PuValidation msg => error_reply 400 msg "ValidationError"
  | PuForbidden msg => error_reply 403 msg "AuthorizationError"
  | PuNotFound msg => error_reply 404 msg "NotFoundError"
  | PuInternal _ => internal_error_response
  end.
Definition upload_mode_to_api (mode : UploadMode) : string := match mode with Regular => "regular" | Lfs => "lfs" end.
Definition u64_field (key : string) (v : json) : option Z := match json_get key v with Some (JNumber text) => parse_u64 text | _ => None end.
Definition preupload_file (v : json) : option PreuploadFileInput :=
  path ← json_get "path" v ≫= as_str; size ← u64_field "size" v; Some (mkFileInput path size).
Definition preupload_request (v : json) : option (list PreuploadFileInput) := files ← json_get "files" v ≫= as_array; mapM preupload_file files.
Definition decision_json (file : PreuploadFileDecision) : json :=
  json_obj [("path", JString (pd_path file)); ("uploadMode", JString (upload_mode_to_api (pd_upload_mode file))); ("shouldIgnore", json_bool (pd_should_ignore file))].
Definition handle_preupload (inline_threshold_bytes : Z) (repo_type : RepoType) (info : TokenInfo) (namespace repo_name _revision : string)
    (files : list PreuploadFileInput) : prog (option reply) :=
  match validate_preupload_file_count (len files) with
  | Err err => Done (Some (preupload_service_error_response err))
  | Panic => Done None
  | Ok _ =>
      answer_with (fun files => json_reply 200 (json_obj [("files", JArray (map decision_json files))])) preupload_service_error_response
        (prepare_upload (mkPreupload (ti_username info) namespace repo_name repo_type inline_threshold_bytes files))
  end.

(** ** Downloads (api/resolve.rs) *)
Definition resolve_service_error_response (err : ResolveServiceError) : reply :=
  match err with RfNotFound msg => error_reply 404 msg "NotFoundError" | RfInternal _ => internal_error_response end.
Definition quote : string := String (ascii_of_nat 34) "".
Definition quoted (s : string) : string := quote +:+ s +:+ quote.

(** The client of the CAS server: where it is, and the limit of its downloads. *)
Record CasClient := mkCasClient { cc_url : string; cc_max_download_size : Z }.

Section Resolve.
Context `{HexCrate, Sha2, Base64, TokenJson, Ed25519}.
Context (base_url : string) (inline_threshold_bytes : Z) (signer : option XetSigner) (cas_client : option CasClient).

Definition head_reply (commit_id : string) (entry : FileEntry) : reply :=
  mkReply 200 [("Content-Type", "application/octet-stream"); ("Content-Length", u64_to_string (fe_size entry)); ("X-Repo-Commit", commit_id);
               ("ETag", quoted (fe_cas_hash entry)); ("X-Linked-Size", u64_to_string (fe_size entry)); ("X-Linked-Etag", fe_cas_hash entry)] NoBody.
Definition redirect_reply (commit_id : string) (entry : FileEntry) (proxy_token_param : string) : reply :=
  mkReply 302 [("Location", base_url +:+ "/lfs/objects/" +:+ fe_cas_hash entry +:+ proxy_token_param); ("X-Repo-Commit", commit_id);
               ("X-Linked-Size", u64_to_string (fe_size entry)); ("X-Linked-Etag", fe_cas_hash entry)] NoBody.
Definition inline_reply (commit_id : string) (entry : FileEntry) (fetched : outcome HubError (list byte)) : option reply :=
  match fetched with
  | Ok data => Some (mkReply 200 [("Content-Type", "application/octet-stream"); ("X-Repo-Commit", commit_id); ("ETag", quoted (fe_cas_hash entry))] (BytesBody data))
  | Err HeNotFound => Some (error_reply 404 ("File content not found in storage: " +:+ fe_cas_hash entry) "NotFoundError")
  | Err HeCasTimeout => Some (gateway_timeout_error_response "GatewayTimeout")
  | Err _ => Some (bad_gateway_error_response "BadGateway")
  | Panic => None
  end.

(** A small file is fetched from the CAS server, a large one is redirected to. *)
Definition resolved_reply (repo_type : RepoType) (info : TokenInfo) (namespace repo_name revision commit_id : string) (entry : FileEntry)
    (proxy_token_param : string) : prog (option reply) :=
  match (if fe_size entry <=? inline_threshold_bytes then signer else None), cas_client with
  | Some signer, Some cas =>
      call* now := Clock in
      match sign signer now (ti_username info) "read" (namespace +:+ "/" +:+ repo_name) (repo_type_str repo_type) revision with
      | Ok (cas_read_token, _) =>
          bind* fetched := proxy_lfs_download (cc_url cas) (cc_max_download_size cas) (fe_cas_hash entry) (fe_size entry) cas_read_token in
          Done (inline_reply commit_id entry fetched)
      | Err _ => Done (Some (redirect_reply commit_id entry proxy_token_param))
      | Panic => Done None
      end
  | _, _ => Done (Some (redirect_reply commit_id entry proxy_token_param))
  end.

Definition handle_resolve (is_head : bool) (repo_type : RepoType) (info : TokenInfo) (namespace repo_name revision file_path : string) : prog (option reply) :=
  bind* resolved := resolve_service (mkResolveRequest (ti_username info) namespace repo_name repo_type revision file_path) in
  match resolved with
  | Err err => Done (Some (resolve_service_error_response err))
  | Panic => Done None
  | Ok resolved =>
      let commit_id := rs_commit_id resolved in
      let entry := rs_file_entry resolved in
      if is_head then Done (Some (head_reply commit_id entry))
      else
        match signer with
        | None => resolved_reply repo_type info namespace repo_name revision commit_id entry ""
        | Some xet_signer =>
            call* now := Clock in
            match sign_proxy xet_signer now (ti_username info) (fe_cas_hash entry) "download" (namespace +:+ "/" +:+ repo_name) (repo_type_str repo_type) with
            | Ok (proxy_token, _) => resolved_reply repo_type info namespace repo_name revision commit_id entry ("?token=" +:+ proxy_token)
            | Err _ => Done (Some internal_error_response)
            | Panic => Done None
            end
        end
  end.
End Resolve.

(** ** Who am I, health and readiness (api/whoami.rs, server.rs) *)
Definition whoami (info : TokenInfo) : reply :=
  let r := build_response info in
  json_reply 200 (json_obj [("name", JString (wr_name r)); ("email", JString (wr_email r)); ("orgs", JArray (map JString (wr_orgs r)));
    ("auth", json_obj [("type", JString (wa_kind (wr_auth r)));
                       ("accessToken", json_obj [("name", JString (wt_name (wa_access_token (wr_auth r)))); ("role", JString (wt_role (wa_access_token (wr_auth r))))])])]).
Definition health : reply := json_reply 200 (json_obj [("status", JString "ok")]).
Definition check_json (ok : bool) : json := JString (if ok then "ok" else "failed").
(** [database_ok] is the answer of the database to a statement. *)
Definition hub_readiness (cas_url : string) (database_ok : bool) : prog reply :=
  bind* cas := readiness_check cas_url in
  let cas_ok := unwrap_or cas false in
  let ready := database_ok && cas_ok in
  Done (json_reply (if ready then 200 else 503)
    (json_obj [("status", JString (if ready then "ready" else "not_ready")); ("checks", json_obj [("database", check_json database_ok); ("cas", check_json cas_ok)])])).

(** ** Tree listings (api/tree.rs) *)

(** The form_urlencoded encoding: of a word, of a query, and its parser. *)
Class FormUrlencoded := {
  form_encode : string -> string;
  form_serialize : list (string * string) -> string;
  form_parse : string -> list (string * string);
}.
Definition pair_text `{FormUrlencoded} (pair : string * string) : string := form_encode pair.1 +:+ "=" +:+ form_encode pair.2.
Class FormLaws `{FormUrlencoded} : Prop := {
  form_roundtrip : forall pairs, form_parse (form_serialize pairs) = pairs;
  form_empty : form_serialize [] = "";
  form_pieces : forall pairs, pairs <> [] -> split_on "&"%char (form_serialize pairs) = map pair_text pairs;
  form_encode_no_eq : forall s rest, split_once "="%char (form_encode s +:+ "=" +:+ rest) = Some (form_encode s, rest);
  form_encode_inj : forall s t, form_encode s = form_encode t -> s = t;
  form_encode_plain : forall s, string_forallb is_unreserved s = true -> form_encode s = s;
}.

Definition tree_service_error_response (err : TreeServiceError) : reply :=
  match err with
  | TsNotFound msg => error_reply 404 msg "NotFoundError"
  | TsValidation msg => error_reply 400 msg "ValidationError"
  | TsInternal _ => internal_error_response
  end.

(** [query] is what follows the question mark, if there is one. *)
Definition parse_recursive_query (query : option string) : bool :=
  match query with
  | Some q => existsb (fun pair => match split_once "="%char pair with Some (k, v) => (k =? "recursive")%string && (v =? "true")%string | None => false end)
                      (split_on "&"%char q)
  | None => false
  end.

Section Tree.
Context `{FormUrlencoded, Base64, SqlLike}.

Fixpoint last_cursor (cursor : option string) (pairs : list (string * string)) : outcome string (option string) :=
  match pairs with
  | [] => Ok cursor
  | (key, value) :: pairs =>
      if negb (key =? "cursor")%string then last_cursor cursor pairs
      else match cursor with Some _ => Err "Tree pagination cursor must be specified at most once" | None => last_cursor (Some value) pairs end
  end.
Definition parse_cursor_query (query : option string) : outcome string (option string) := last_cursor None (form_parse (default "" query)).

(** [str::splitn] *)
Fixpoint splitn (n : nat) (c : ascii) (s : string) : list string :=
  match n with
  | O => []
  | S O => [s]
  | S n => match split_once c s with Some (a, rest) => a :: splitn n c rest | None => [s] end
  end.

Definition replace_tree_revision (path commit_id : string) : string :=
  let segments := splitn 7 "/"%char path in
  let prefix_segments := take 6 segments in
  if negb (length prefix_segments =? 6)%nat || negb (default "" (prefix_segments !! 5%nat) =? "tree")%string then path
  else
    match segments !! 6%nat with
    | None => path
    | Some revision_and_suffix =>
        let suffix := match split_once "/"%char revision_and_suffix with Some (_, rest) => "/" +:+ rest | None => "" end in
        join "/"%char prefix_segments +:+ "/" +:+ commit_id +:+ suffix
    end.

Definition build_next_link (base_url path : string) (query : option string) (commit_id cursor : string) : string :=
  let kept := filter (fun pair => pair.1 <> "cursor") (form_parse (default "" query)) in
  trim_end_slashes base_url +:+ replace_tree_revision path commit_id +:+ "?" +:+ form_serialize (kept ++ [("cursor", cursor)]).

Definition entry_json (e : TreeListingEntry) : json :=
  json_obj [("type", JString (match tl_entry_type e with EntryFile => "file" | EntryDirectory => "directory" end)); ("oid", json_opt_str (tl_oid e));
            ("size", json_u64 (tl_size e)); ("path", JString (tl_path e))].

(** [path] and [query] are those of the request, [base_url] the Hub's; the
    calls of the service see the states [d]. *)
Definition handle_tree (fails : nat -> nat -> bool) (d : nat -> db) (base_url : option string) (path : string) (query : option string)
    (repo_type : RepoType) (info : TokenInfo) (namespace repo_name revision tree_path : string) : option reply :=
  match parse_cursor_query query with
  | Panic => None
  | Err error => Some (error_reply 400 error "ValidationError")
  | Ok cursor =>
      match list_tree fails d (mkTreeRequest (ti_username info) namespace repo_name repo_type revision tree_path (parse_recursive_query query) cursor) with
      | Panic => None
      | Err err => Some (tree_service_error_response err)
      | Ok page =>
          let tree_entries := JsonBody (JArray (map entry_json (tp_entries page))) in
          match tp_next_cursor page, base_url with
          | None, _ => Some (mkReply 200 [] tree_entries)
          | Some next_cursor, Some base_url =>
              Some (mkReply 200 [("Link", "<" +:+ build_next_link base_url path query (tp_commit_id page) next_cursor +:+ ">; rel=" +:+ quoted "next")] tree_entries)
          | Some _, None => Some internal_error_response
          end
      end
  end.
Definition handle_tree_no_path (fails : nat -> nat -> bool) (d : nat -> db) (base_url : option string) (path : string) (query : option string)
    (repo_type : RepoType) (info : TokenInfo) (ns repo rev : string) : option reply :=
  handle_tree fails d base_url path query repo_type info ns repo rev "".
End Tree.
