(* ===== verification/HubRoutes.v ===== *)
(** * The Hub's routes (src/hub/src/server.rs, [build_app])

    The route table as the server registers it, the requests the API documents
    with the URLs they go to, and the theorem that they get there. *)
From stdpp Require Import gmap strings.
From Stdlib Require Import Ascii.
From S2P Require Import Prelude Bytes Crates MerkleHash Hash Text Url TokenCrates Tokens HubSigner HubMetadata HubTree HubPrograms HubCommit HubRepos HubTokens HubBatch HubApi Routing.

Local Open Scope string_scope.
Local Open Scope list_scope.
Local Open Scope Z_scope.

(** ** The table *)
Inductive endpoint :=
| EpHealth | EpReady | EpWhoami
| EpExchange (scope : ExchangeScope) (type : RepoType)
| EpCreateUnified | EpCreate (type : RepoType) | EpGetRepo (type : RepoType) | EpDeleteRepo (type : RepoType)
| EpRevision (type : RepoType) | EpCommit (type : RepoType) | EpPreupload (type : RepoType)
| EpTree (type : RepoType) | EpTreeNoPath (type : RepoType) | EpResolve (type : RepoType)
| EpBatch | EpLfsUpload | EpLfsDownload.

Definition type_dir (t : RepoType) : string := match t with RModel => "models" | RDataset => "datasets" | RSpace => "spaces" end.
Definition typed (f : string -> RepoType -> list (route endpoint)) : list (route endpoint) := flat_map (fun t => f (type_dir t) t) [RModel; RDataset; RSpace].
Definition one (method pattern : string) (e : endpoint) : list (route endpoint) := [mkRoute method pattern e].

(** Health, tokens, repositories and trees; downloads, those with a type first; LFS. *)
Definition api_routes : list (route endpoint) :=
  one "GET" "/health" EpHealth ++ one "GET" "/ready" EpReady ++
  one "GET" "/api/whoami-v2" EpWhoami ++
  typed (fun dir t => one "GET" ("/api/" +:+ dir +:+ "/{ns}/{repo}/xet-read-token/{rev}") (EpExchange XsRead t) ++
                      one "GET" ("/api/" +:+ dir +:+ "/{ns}/{repo}/xet-write-token/{rev}") (EpExchange XsWrite t)) ++
  one "POST" "/api/repos/create" EpCreateUnified ++
  typed (fun dir t => one "POST" ("/api/" +:+ dir) (EpCreate t)) ++
  typed (fun dir t => one "GET" ("/api/" +:+ dir +:+ "/{ns}/{repo}") (EpGetRepo t)) ++
  typed (fun dir t => one "DELETE" ("/api/" +:+ dir +:+ "/{ns}/{repo}") (EpDeleteRepo t)) ++
  typed (fun dir t => one "GET" ("/api/" +:+ dir +:+ "/{ns}/{repo}/revision/{rev}") (EpRevision t)) ++
  typed (fun dir t => one "POST" ("/api/" +:+ dir +:+ "/{ns}/{repo}/commit/{rev}") (EpCommit t)) ++
  typed (fun dir t => one "POST" ("/api/" +:+ dir +:+ "/{ns}/{repo}/preupload/{rev}") (EpPreupload t)) ++
  typed (fun dir t => one "GET" ("/api/" +:+ dir +:+ "/{ns}/{repo}/tree/{rev}/{path:.*}") (EpTree t) ++
                      one "GET" ("/api/" +:+ dir +:+ "/{ns}/{repo}/tree/{rev}") (EpTreeNoPath t)).
Definition download_routes : list (route endpoint) :=
  typed (fun dir t => one "GET" ("/" +:+ dir +:+ "/{ns}/{repo}/resolve/{rev}/{path:.*}") (EpResolve t) ++
                      one "HEAD" ("/" +:+ dir +:+ "/{ns}/{repo}/resolve/{rev}/{path:.*}") (EpResolve t)) ++
  one "GET" "/{ns}/{repo}/resolve/{rev}/{path:.*}" (EpResolve RModel) ++
  one "HEAD" "/{ns}/{repo}/resolve/{rev}/{path:.*}" (EpResolve RModel).
Definition lfs_routes : list (route endpoint) :=
  one "POST" "/objects/batch" EpBatch ++ one "POST" "/lfs/objects/batch" EpBatch ++
  one "PUT" "/lfs/objects/{oid}" EpLfsUpload ++ one "GET" "/lfs/objects/{oid}" EpLfsDownload ++
  typed (fun dir _ => one "POST" ("/" +:+ dir +:+ "/{ns}/{repo}.git/info/lfs/objects/batch") EpBatch) ++
  typed (fun dir _ => one "PUT" ("/" +:+ dir +:+ "/{ns}/{repo}.git/info/lfs/objects/{oid}") EpLfsUpload) ++
  typed (fun dir _ => one "GET" ("/" +:+ dir +:+ "/{ns}/{repo}.git/info/lfs/objects/{oid}") EpLfsDownload) ++
  one "POST" "/{ns}/{repo}.git/info/lfs/objects/batch" EpBatch ++
  one "PUT" "/{ns}/{repo}.git/info/lfs/objects/{oid}" EpLfsUpload ++
  one "GET" "/{ns}/{repo}.git/info/lfs/objects/{oid}" EpLfsDownload.
Definition routes : list (route endpoint) := api_routes ++ download_routes ++ lfs_routes.

Definition dispatch (method path : string) : option (endpoint * list string) := find_route routes method (words path).

(** ** Requests and their URLs *)
Inductive target :=
| TgHealth | TgReady | TgWhoami
| TgExchange (scope : ExchangeScope) (type : RepoType) (ns repo rev : string)
| TgCreateUnified | TgCreate (type : RepoType)
| TgGetRepo (type : RepoType) (ns repo : string) | TgDeleteRepo (type : RepoType) (ns repo : string)
| TgRevision (type : RepoType) (ns repo rev : string) | TgCommit (type : RepoType) (ns repo rev : string)
| TgPreupload (type : RepoType) (ns repo rev : string)
| TgTree (type : RepoType) (ns repo rev : string) (path : option string)
| TgResolve (head : bool) (type : RepoType) (ns repo rev path : string)
| TgResolveModel (head : bool) (ns repo rev path : string)
| TgBatch (repo : option (option RepoType * string * string))
| TgLfs (upload : bool) (repo : option (option RepoType * string * string)) (oid : string).

Definition api_repo (t : RepoType) (ns repo : string) : list string := ["api"; type_dir t; ns; repo].
Definition git_repo (r : option RepoType * string * string) : list string :=
  let '(t, ns, repo) := r in (match t with Some t => [type_dir t] | None => [] end) ++ [ns; repo +:+ ".git"; "info"].
Definition lfs_words (repo : option (option RepoType * string * string)) : list string := (match repo with Some r => git_repo r | None => [] end) ++ ["lfs"; "objects"].
Definition resolve_words (ns repo rev path : string) : list string := [ns; repo; "resolve"; rev] ++ split_on "/"%char path.
Definition target_method (tg : target) : string :=
  match tg with
  | TgCreateUnified | TgCreate _ | TgCommit _ _ _ _ | TgPreupload _ _ _ _ | TgBatch _ => "POST"
  | TgDeleteRepo _ _ _ => "DELETE"
  | TgLfs true _ _ => "PUT"
  | TgResolve true _ _ _ _ _ | TgResolveModel true _ _ _ _ => "HEAD"
  | _ => "GET"
  end.
Definition target_words (tg : target) : list string :=
  match tg with
  | TgHealth => ["health"] | TgReady => ["ready"] | TgWhoami => ["api"; "whoami-v2"]
  | TgExchange scope t ns repo rev => api_repo t ns repo ++ [match scope with XsRead => "xet-read-token" | XsWrite => "xet-write-token" end; rev]
  | TgCreateUnified => ["api"; "repos"; "create"]
  | TgCreate t => ["api"; type_dir t]
  | TgGetRepo t ns repo | TgDeleteRepo t ns repo => api_repo t ns repo
  | TgRevision t ns repo rev => api_repo t ns repo ++ ["revision"; rev]
  | TgCommit t ns repo rev => api_repo t ns repo ++ ["commit"; rev]
  | TgPreupload t ns repo rev => api_repo t ns repo ++ ["preupload"; rev]
  | TgTree t ns repo rev path => api_repo t ns repo ++ ["tree"; rev] ++ match path with Some path => split_on "/"%char path | None => [] end
  | TgResolve _ t ns repo rev path => type_dir t :: resolve_words ns repo rev path
  | TgResolveModel _ ns repo rev path => resolve_words ns repo rev path
  | TgBatch repo => lfs_words repo ++ ["batch"]
  | TgLfs _ repo oid => lfs_words repo ++ [oid]
  end.
Definition target_url (tg : target) : string := "/" +:+ join "/"%char (target_words tg).

(** Where a request is meant to go, with the values of the names. *)
Definition target_endpoint (tg : target) : endpoint * list string :=
  let git repo := match repo with Some (_, ns, repo) => [ns; repo] | None => [] end in
  match tg with
  | TgHealth => (EpHealth, []) | TgReady => (EpReady, []) | TgWhoami => (EpWhoami, [])
  | TgExchange scope t ns repo rev => (EpExchange scope t, [ns; repo; rev])
  | TgCreateUnified => (EpCreateUnified, []) | TgCreate t => (EpCreate t, [])
  | TgGetRepo t ns repo => (EpGetRepo t, [ns; repo]) | TgDeleteRepo t ns repo => (EpDeleteRepo t, [ns; repo])
  | TgRevision t ns repo rev => (EpRevision t, [ns; repo; rev])
  | TgCommit t ns repo rev => (EpCommit t, [ns; repo; rev]) | TgPreupload t ns repo rev => (EpPreupload t, [ns; repo; rev])
  | TgTree t ns repo rev (Some path) => (EpTree t, [ns; repo; rev; path])
  | TgTree t ns repo rev None => (EpTreeNoPath t, [ns; repo; rev])
  | TgResolve _ t ns repo rev path => (EpResolve t, [ns; repo; rev; path])
  | TgResolveModel _ ns repo rev path => (EpResolve RModel, [ns; repo; rev; path])
  | TgBatch repo => (EpBatch, git repo)
  | TgLfs upload repo oid => (if upload then EpLfsUpload else EpLfsDownload, git repo ++ [oid])
  end.

(** A namespace without a type before it that is not one of the words that
    routes begin with. *)
Definition free_namespace (ns : string) : Prop := ns ∉ ["api"; "models"; "datasets"; "spaces"; "lfs"; "objects"].
Definition target_ok (tg : target) : Prop :=
  match tg with
  | TgExchange _ _ ns repo rev | TgRevision _ ns repo rev | TgCommit _ ns repo rev | TgPreupload _ ns repo rev
  | TgTree _ ns repo rev _ | TgResolve _ _ ns repo rev _ => plain ns /\ plain repo /\ plain rev
  | TgGetRepo _ ns repo | TgDeleteRepo _ ns repo => plain ns /\ plain repo
  | TgResolveModel _ ns repo rev _ => plain ns /\ plain repo /\ plain rev /\ free_namespace ns
  | TgBatch (Some (t, ns, repo)) => plain ns /\ plain repo /\ (t = None -> free_namespace ns)
  | TgLfs upload repo oid =>
      plain oid /\ match repo with Some (t, ns, repo) => plain ns /\ plain repo /\ (t = None -> free_namespace ns) | None => True end
  | _ => True
  end.

(** ** Lemmas *)
Lemma git_not_resolve repo : (repo +:+ ".git" =? "resolve")%string = false.
Proof.
  apply String.eqb_neq. intros E. pose proof (strip_suffix_app repo ".git" ltac:(done)) as Hs. rewrite E in Hs. discriminate Hs.
Qed.

(** What the cases of a target need to know of its words. *)
Ltac know_words :=
  repeat match goal with
  | H : plain ?w |- _ => pose proof (plain_eqb w H); destruct H as [_ H]
  | H : free_namespace ?ns |- _ =>
      assert ((ns =? "api")%string = false /\ (ns =? "models")%string = false /\ (ns =? "datasets")%string = false /\
              (ns =? "spaces")%string = false /\ (ns =? "lfs")%string = false /\ (ns =? "objects")%string = false) as (? & ? & ? & ? & ? & ?)
        by (unfold free_namespace in H; rewrite !String.eqb_neq; set_solver); clear H
  end.

(** The pieces of a path, one of which there is. *)
Ltac split_path p :=
  let Hne := fresh in let Hj := fresh in let w := fresh "w" in let ws := fresh "ws" in
  pose proof (split_where_nonempty (Ascii.eqb "/"%char) p) as Hne; pose proof (join_split "/"%char p) as Hj;
  unfold split_on in *; destruct (split_where (Ascii.eqb "/"%char) p) as [|w ws]; [done|]; rewrite <- Hj; clear Hne Hj.
Ltac target_case := cbn [target_method target_words target_endpoint]; unfold api_repo, lfs_words, git_repo; cbn [app type_dir]; run_routes.

Lemma find_target tg : target_ok tg -> find_compiled (compile routes) (target_method tg) (target_words tg) = Some (target_endpoint tg).
Proof.
  intros Hok. let t := eval vm_compute in (compile routes) in change (compile routes) with t.
  destruct tg as [| | |scope t ns repo rev| |t|t ns repo|t ns repo|t ns repo rev|t ns repo rev|t ns repo rev|t ns repo rev path|head t ns repo rev path|head ns repo rev path|repo|upload repo oid];
    cbn [target_ok] in Hok.
  1-3: target_case.
  - destruct Hok as (Hns & Hrepo & Hrev). know_words. destruct t, scope; target_case.
  - target_case.
  - destruct t; target_case.
  - destruct Hok as (Hns & Hrepo). know_words. destruct t; target_case.
  - destruct Hok as (Hns & Hrepo). know_words. destruct t; target_case.
  - destruct Hok as (Hns & Hrepo & Hrev). know_words. destruct t; target_case.
  - destruct Hok as (Hns & Hrepo & Hrev). know_words. destruct t; target_case.
  - destruct Hok as (Hns & Hrepo & Hrev). know_words. destruct t; target_case.
  - destruct Hok as (Hns & Hrepo & Hrev). know_words. destruct path as [path|].
    + cbn [target_words target_endpoint]. split_path path. destruct t; target_case.
    + destruct t; target_case.
  - destruct Hok as (Hns & Hrepo & Hrev). know_words. cbn [target_words target_endpoint]. unfold resolve_words. split_path path.
    destruct t, head; target_case.
  - destruct Hok as (Hns & Hrepo & Hrev & Hfree). know_words. cbn [target_words target_endpoint]. unfold resolve_words. split_path path.
    destruct head; target_case.
  - destruct repo as [[[t ns] repo]|]; [|target_case]. destruct Hok as (Hns & Hrepo & Hfree). know_words.
    destruct t as [t|]; [destruct t; target_case|]. specialize (Hfree eq_refl). know_words. target_case.
  - destruct repo as [[[t ns] repo]|]; destruct Hok as [Hoid Hok]; know_words.
    + destruct Hok as (Hns & Hrepo & Hfree). know_words. pose proof (git_not_resolve repo).
      destruct t as [t|]; [destruct t, upload; target_case|]. specialize (Hfree eq_refl). know_words. destruct upload; target_case.
    + destruct upload; target_case.
Qed.

Lemma target_words_plain tg : target_ok tg -> target_words tg <> [] /\ Forall (fun w => contains_char "/"%char w = false) (target_words tg).
Proof.
  intros Hok. assert (Hd : forall t, contains_char "/"%char (type_dir t) = false) by (by intros []).
  assert (Hgit : forall repo, plain repo -> contains_char "/"%char (repo +:+ ".git") = false) by (intros repo [_ Hr]; by rewrite contains_char_app, Hr).
  destruct tg; cbn [target_ok target_words] in *; unfold api_repo, resolve_words, lfs_words, git_repo in *; cbn [app];
    repeat match goal with
    | H : match ?o with Some _ => _ | None => _ end |- _ => destruct o as [[[? ?] ?]|]
    | H : _ /\ _ |- _ => destruct H
    | o : option string |- _ => destruct o
    | o : option (option RepoType * string * string) |- _ => destruct o as [[[? ?] ?]|]
    | o : option RepoType |- _ => destruct o
    | s : ExchangeScope |- _ => destruct s
    end; cbn [app]; (split; [done|]); repeat (apply Forall_cons; split); auto using Forall_nil, split_on_pieces;
    match goal with H : plain ?w |- contains_char _ ?w = false => by destruct H end.
Qed.

Lemma route_target tg : target_ok tg -> dispatch (target_method tg) (target_url tg) = Some (target_endpoint tg).
Proof.
  intros Hok. destruct (target_words_plain tg Hok) as [Hne Hf].
  assert (words (target_url tg) = target_words tg) as Hw by (unfold words, target_url; rewrite strip_prefix_app; by apply split_join).
  unfold dispatch. rewrite Hw, find_route_compile. by apply find_target.
Qed.

(** Every request of the API reaches its own handler with its own arguments,
    whatever the names of users, repositories and revisions are, even names
    that are words of other routes: of the routes in their order, the first to
    match the URL of a request is the one meant for it. *)
Theorem requests_reach_their_handlers tg : target_ok tg -> dispatch (target_method tg) (target_url tg) = Some (target_endpoint tg).
Proof. apply route_target. Qed.

(** A dataset called like a route, in a namespace called like one. *)
Definition odd_target : target := TgResolve false RDataset "models" "resolve" "tree" "resolve/a//b".
Lemma requests_reach_their_handlers_witness : target_ok odd_target /\
  dispatch "GET" "/datasets/models/resolve/resolve/tree/resolve/a//b" = Some (EpResolve RDataset, ["models"; "resolve"; "tree"; "resolve/a//b"]).
Proof. assert (target_ok odd_target) as Hok by (repeat split; discriminate). split; [exact Hok|exact (requests_reach_their_handlers odd_target Hok)]. Defined.
