(* ===== verification/HubWeb.v ===== *)
(** * The Hub as a web application (src/hub/src/server.rs, src/hub/src/api)

    A request is routed, its token checked, and handed to its handler.  What
    other users learn of a private repository, and the pages of a tree as a
    client follows their links. *)
From stdpp Require Import gmap strings sorting.
From Stdlib Require Import Ascii.
From S2P Require Import Prelude Bytes Crates MerkleHash Hash Text Url TokenCrates Tokens HubSigner HubMetadata HubHistory HubTree HubPrograms HubCommit HubRepos HubTokens HubBatch HubStore HubSystem HubSafety HubApi Routing HubRoutes.

Local Open Scope string_scope.
Local Open Scope list_scope.
Local Open Scope Z_scope.

(** ** The application *)
Record hub_app `{Ed25519} := mkApp { ap_cas : CasClient; ap_signer : XetSigner; ap_base_url : string; ap_inline_threshold : Z; ap_database_ok : bool }.
Arguments mkApp {_} _ _ _ _ _.
(** What the framework hands over: the body as JSON and as text, where it is. *)
Record web_request := mkWebRequest {
  wq_method : string;
  wq_path : string;
  wq_query : option string;
  wq_authorization : option string;
  wq_json : option json;
  wq_text : option string;
}.

Definition not_found : reply := mkReply 404 [] NoBody.
(** The framework's answer to a body it cannot read. *)
Definition bad_body : reply := mkReply 400 [] NoBody.

(** What a token must allow, for the endpoints that take the user's token. *)
Definition endpoint_scope (e : endpoint) : option ScopeRequirement :=
  match e with
  | EpWhoami => Some AuthAny
  | EpExchange XsRead _ | EpGetRepo _ | EpRevision _ | EpTree _ | EpTreeNoPath _ | EpResolve _ => Some AuthRead
  | EpExchange XsWrite _ | EpCreateUnified | EpCreate _ | EpDeleteRepo _ | EpCommit _ | EpPreupload _ => Some AuthWrite
  | EpHealth | EpReady | EpBatch | EpLfsUpload | EpLfsDownload => None
  end.

Section App.
Context `{HexCrate, Sha2, Base64, TokenJson, Ed25519, CommitJson, Chrono, SqlLike, FormUrlencoded}.
Context (app : hub_app) (validate : string -> outcome SqlxError (option TokenInfo)).

Definition with_body {A} (body : option A) (k : A -> prog (option reply)) : prog (option reply) :=
  match body with Some a => k a | None => Done (Some bad_body) end.

(** The handlers with the user of the token; the trees are [serve_tree]'s. *)
Definition serve_user (rq : web_request) (e : endpoint) (args : list string) (info : TokenInfo) : prog (option reply) :=
  let cas_url := cc_url (ap_cas app) in
  match e, args with
  | EpWhoami, [] => Done (Some (whoami info))
  | EpExchange scope t, [ns; repo; rev] => do_exchange cas_url (ap_signer app) t scope info ns repo rev
  | EpCreateUnified, [] => with_body (wq_json rq ≫= create_repo_unified_request) (create_repo_unified info)
  | EpCreate t, [] => with_body (wq_json rq ≫= create_repo_request) (create_repo t info)
  | EpGetRepo t, [ns; repo] => get_repo_info t info ns repo
  | EpDeleteRepo t, [ns; repo] => delete_repo_info t info ns repo
  | EpRevision t, [ns; repo; rev] => get_revision_handler t info ns repo rev
  | EpCommit t, [ns; repo; rev] => with_body (wq_text rq) (handle_commit cas_url (ap_signer app) t info ns repo rev)
  | EpPreupload t, [ns; repo; rev] => with_body (wq_json rq ≫= preupload_request) (handle_preupload (ap_inline_threshold app) t info ns repo rev)
  | EpResolve t, [ns; repo; rev; path] =>
      handle_resolve (ap_base_url app) (ap_inline_threshold app) (Some (ap_signer app)) (Some (ap_cas app)) (wq_method rq =? "HEAD")%string t info ns repo rev path
  | _, _ => Done (Some not_found)
  end.

Definition authenticated (rq : web_request) (e : endpoint) : outcome ExtractError TokenInfo :=
  from_request (default AuthAny (endpoint_scope e)) (wq_authorization rq) (Some validate).

Definition serve_web (rq : web_request) : prog (option reply) :=
  match dispatch (wq_method rq) (wq_path rq) with
  | None => Done (Some not_found)
  | Some (EpHealth, _) => Done (Some health)
  | Some (EpReady, _) => bind* r := hub_readiness (cc_url (ap_cas app)) (ap_database_ok app) in Done (Some r)
  | Some (e, args) =>
      match authenticated rq e with
      | Err err => Done (Some (auth_error_response err))
      | Panic => Done None
      | Ok info => serve_user rq e args info
      end
  end.

(** Trees, whose service is a function of the states its calls see. *)
Definition serve_tree (fails : nat -> nat -> bool) (d : nat -> db) (rq : web_request) : option reply :=
  match dispatch (wq_method rq) (wq_path rq) with
  | Some (e, args) =>
      match authenticated rq e with
      | Err err => Some (auth_error_response err)
      | Panic => None
      | Ok info =>
          match e, args with
          | EpTree t, [ns; repo; rev; path] => handle_tree fails d (Some (ap_base_url app)) (wq_path rq) (wq_query rq) t info ns repo rev path
          | EpTreeNoPath t, [ns; repo; rev] => handle_tree_no_path fails d (Some (ap_base_url app)) (wq_path rq) (wq_query rq) t info ns repo rev
          | _, _ => Some not_found
          end
      end
  | None => Some not_found
  end.
End App.

(** ** Private repositories *)

(** The repository a request is about.  The handlers of Git LFS do not look at
    the repository that their URL may name. *)
Definition subject (tg : target) : option (RepoType * string * string) :=
  match tg with
  | TgTree t ns repo _ _ | TgExchange _ t ns repo _ | TgGetRepo t ns repo | TgDeleteRepo t ns repo | TgRevision t ns repo _ | TgCommit t ns repo _
  | TgPreupload t ns repo _ | TgResolve _ t ns repo _ _ => Some (t, ns, repo)
  | TgResolveModel _ ns repo _ _ => Some (RModel, ns, repo)
  | _ => None
  end.
Definition is_tree (tg : target) : bool := match tg with TgTree _ _ _ _ _ => true | _ => false end.
Definition reads_only (tg : target) : bool :=
  match tg with
  | TgExchange XsRead _ _ _ _ | TgGetRepo _ _ _ | TgRevision _ _ _ _ | TgTree _ _ _ _ _ | TgResolve _ _ _ _ _ _ | TgResolveModel _ _ _ _ _ => true
  | _ => false
  end.
(** A listing whose cursor, if there is one, can be read. *)
Definition cursor_valid `{Base64, FormUrlencoded} (rq : web_request) : bool :=
  match parse_cursor_query (wq_query rq) with Ok (Some cursor) => is_ok (decode_cursor cursor) | Ok None => true | _ => false end.
Definition holds_private (t : RepoType) (ns name : string) (d : db) : Prop :=
  exists id row, find_repo ns name (repo_type_str t) d = Some (id, row) /\ rr_private row <> 0.
Definition absent (t : RepoType) (ns name : string) (d : db) : Prop := find_repo ns name (repo_type_str t) d = None.
Definition is_get_repo (ev : event) : Prop := match ev with EvGetRepo _ _ _ _ => True | _ => False end.

(** The answer to others, and the message about a repository that is not there. *)
Definition concealed_reply (tg : target) : reply :=
  match tg with
  | TgRevision _ _ _ _ => error_reply 404 "Repository not found" "RepositoryNotFoundError"
  | TgDeleteRepo _ _ _ => error_reply 403 "You do not have permission to delete this repository" "AuthorizationError"
  | _ => error_reply 404 "Repository not found" "NotFoundError"
  end.
Definition absent_message (t : RepoType) (ns name : string) : string := "Repository not found: " +:+ ns +:+ "/" +:+ name +:+ "/" +:+ repo_type_str t.

Section Concealed.
Context `{HexCrate, Sha2, Base64, TokenJson, Ed25519, CommitJsonLaws, Chrono, SqlLike, FormUrlencoded}.
Context (app : hub_app) (validate : string -> outcome SqlxError (option TokenInfo)) (w : world).

Lemma drive_bind {R S} (p : prog R) (f : R -> prog S) d :
  drive w (prog_bind p f) d = (let '(d1, evs1, a) := drive w p d in let '(d2, evs2, b) := drive w (f a) d1 in (d2, evs1 ++ evs2, b)).
Proof.
  revert d. induction p as [r|A c k IH]; intros d; cbn [prog_bind drive]; [by destruct (drive w (f r) d) as [[d2 evs2] b]|].
  destruct (answer_call w c d) as [d1 a]. rewrite IH. destruct (drive w (k a) d1) as [[d2 evs2] r]. by destruct (drive w (f r) d2) as [[d3 evs3] b].
Qed.

(** A look at a private repository gives one whose namespace is the one asked for. *)
Lemma get_private t ns name d : holds_private t ns name d ->
  exists repo, get_repo (fun _ => false) ns name t d = Ok repo /\ rp_private repo = true /\ rp_namespace repo = ns.
Proof.
  intros (id & row & Hf & Hp). unfold get_repo. rewrite Hf. apply find_repo_Some in Hf as [_ Hs].
  unfold same_repo in Hs. apply andb_true_iff in Hs as [[Hns Hname]%andb_true_iff Ht]. apply String.eqb_eq in Hns, Ht. unfold row_to_repo. rewrite Ht.
  assert (repo_type_from_str (repo_type_str t) = Ok t) as -> by (by destruct t). cbn. eexists. split; [done|]. cbn. split; [|done].
  destruct (Z.eqb_spec (rr_private row) 0); done.
Qed.

Lemma drive_answer {E A} (on_ok : A -> reply) (on_err : E -> reply) p d d' evs r :
  drive w p d = (d', evs, r) -> drive w (answer_with on_ok on_err p) d = (d', evs, reply_of on_ok on_err r).
Proof. intros Ep. unfold answer_with. rewrite drive_bind, Ep. cbn [drive]. by rewrite app_nil_r. Qed.

Lemma no_access repo user : rp_private repo = true -> rp_namespace repo <> user -> can_access_repo repo user = false /\ can_write_repo repo user = false.
Proof. intros Hp Hn. unfold can_access_repo, can_write_repo. rewrite Hp. apply String.eqb_neq in Hn. by rewrite Hn. Qed.

Lemma validate_preupload_paths_total files : validate_preupload_paths files <> Panic.
Proof.
  induction files as [|file files IH]; cbn [validate_preupload_paths]; [done|].
  assert (validate_file_path (pi_path file) <> Panic) as Hv by (unfold validate_file_path; repeat case_match; done).
  by destruct (validate_file_path (pi_path file)).
Qed.

(** The answer to a request that is served alone.  [d k] is the store at the
    [k]th call of a listing, and [d 0] at any call of another request. *)
Definition answer_of (tg : target) (rq : web_request) (d : nat -> db) : option reply :=
  if is_tree tg then serve_tree app validate (fun _ _ => false) d rq else (drive w (serve_web app validate rq) (d 0%nat)).2.

Lemma last_cursor_total cursor pairs : last_cursor cursor pairs <> Panic.
Proof. revert cursor. induction pairs as [|[k v] pairs IH]; intros cursor; cbn [last_cursor]; [done|]. repeat case_match; done || apply IH. Qed.

Lemma decode_cursor_total cursor : decode_cursor cursor <> Panic.
Proof.
  unfold decode_cursor. destruct (negb _); [|done]. destruct (url_decode cursor) as [bs|]; [|done]. cbn [ok_or].
  destruct (from_utf8 bs) as [path|]; [|done]. cbn [ok_or]. by destruct (negb _).
Qed.

(** A listing looks the repository up before anything else of the store. *)
Lemma tree_looks_up rq info t ns name rev path : plain ns /\ plain name /\ plain rev -> ns <> ti_username info ->
  wq_method rq = "GET" -> wq_path rq = target_url (TgTree t ns name rev path) ->
  authenticated validate rq (target_endpoint (TgTree t ns name rev path)).1 = Ok info ->
  (exists answer, (cursor_valid rq = true -> answer = error_reply 404 "Repository not found" "NotFoundError") /\
     forall d, holds_private t ns name (d 0%nat) -> serve_tree app validate (fun _ _ => false) d rq = Some answer) /\
  (cursor_valid rq = true -> forall d, absent t ns name (d 0%nat) ->
     serve_tree app validate (fun _ _ => false) d rq = Some (error_reply 404 (absent_message t ns name) "NotFoundError")).
Proof.
  intros Hok Hne Hm Hp Hauth.
  assert (forall d, serve_tree app validate (fun _ _ => false) d rq =
    handle_tree (fun _ _ => false) d (Some (ap_base_url app)) (wq_path rq) (wq_query rq) t info ns name rev (default "" path)) as Eserve.
  { intros d. unfold serve_tree. rewrite Hm, Hp, (route_target (TgTree t ns name rev path) Hok : dispatch "GET" _ = _).
    destruct path; cbn [target_endpoint fst] in *; by rewrite Hauth. }
  unfold cursor_valid, parse_cursor_query. pose proof (last_cursor_total None (form_parse (default "" (wq_query rq)))) as Hnp.
  assert (forall d cursor, last_cursor None (form_parse (default "" (wq_query rq))) = Ok cursor -> forall after,
    (match cursor with None => Ok None | Some cursor => let* path := decode_cursor cursor in Ok (Some path) end) = Ok after ->
    serve_tree app validate (fun _ _ => false) d rq =
    match get_repo (fun _ => false) ns name t (d 0%nat) with
    | Ok repo => if can_access_repo repo (ti_username info) then serve_tree app validate (fun _ _ => false) d rq
                 else Some (error_reply 404 "Repository not found" "NotFoundError")
    | Err (RepoNotFound what) => Some (error_reply 404 ("Repository not found: " +:+ what) "NotFoundError")
    | _ => serve_tree app validate (fun _ _ => false) d rq
    end) as Hlook.
  { intros d cursor Ec after Ea. destruct (get_repo (fun _ => false) ns name t (d 0%nat)) as [repo|e|] eqn:Eg; [|destruct e; try done|done];
      [destruct (can_access_repo repo (ti_username info)) eqn:Eacc; [done|]|];
      rewrite Eserve; unfold handle_tree, parse_cursor_query; rewrite Ec; unfold list_tree; cbn [tr_cursor tr_namespace tr_repo_name tr_repo_type tr_username tr_tree_path];
      rewrite Ea; unfold tree_load_repo; cbn [tr_cursor tr_namespace tr_repo_name tr_repo_type tr_username]; rewrite Eg; cbn [map_err]; by rewrite ?Eacc. }
  assert (forall d after cursor, last_cursor None (form_parse (default "" (wq_query rq))) = Ok cursor ->
    (match cursor with None => Ok None | Some cursor => let* path := decode_cursor cursor in Ok (Some path) end) = Ok after ->
    (holds_private t ns name (d 0%nat) -> serve_tree app validate (fun _ _ => false) d rq = Some (error_reply 404 "Repository not found" "NotFoundError")) /\
    (absent t ns name (d 0%nat) -> serve_tree app validate (fun _ _ => false) d rq = Some (error_reply 404 (absent_message t ns name) "NotFoundError"))) as Hvalid.
  { intros d after cursor Ec Ea. rewrite (Hlook d cursor Ec after Ea). split.
    - intros Hd. destruct (get_private t ns name _ Hd) as (repo & -> & Hrp & Hrn).
      by rewrite (proj1 (no_access repo (ti_username info) Hrp ltac:(by rewrite Hrn))).
    - intros Hab. unfold get_repo. unfold get_repo. by rewrite Hab. }
  destruct (last_cursor None (form_parse (default "" (wq_query rq)))) as [cursor|e|] eqn:Ec; [|split; [|done]|done].
  2: { exists (error_reply 400 e "ValidationError"). split; [done|]. intros d _. rewrite Eserve. unfold handle_tree, parse_cursor_query. by rewrite Ec. }
  destruct cursor as [cursor|]; [pose proof (decode_cursor_total cursor) as Hdp; destruct (decode_cursor cursor) as [after|e|] eqn:Ed; [| |done]|].
  - assert ((let* path := decode_cursor cursor in Ok (Some path)) = Ok (Some after)) as Ea by (by rewrite Ed).
    pose proof (fun d => Hvalid d (Some after) (Some cursor) eq_refl Ea) as Hv.
    split; [eexists; split; [done|]; intros d; apply Hv|]. intros _ d. apply Hv.
  - split; [|done]. exists (tree_service_error_response e). split; [done|]. intros d _. rewrite Eserve. unfold handle_tree, parse_cursor_query. rewrite Ec. unfold list_tree.
    cbn [tr_cursor]. rewrite Ed. reflexivity.
  - pose proof (fun d => Hvalid d None None eq_refl eq_refl) as Hv.
    split; [eexists; split; [done|]; intros d; apply Hv|]. intros _ d. apply Hv.
Qed.

(** The handlers of [serve_user] that look the repository up first. *)
Lemma serve_looks_up rq info tg t ns name : target_ok tg -> subject tg = Some (t, ns, name) -> is_tree tg = false -> ns <> ti_username info ->
  let '(e, args) := target_endpoint tg in
  (exists k, serve_user app rq e args info = Call (GetRepo ns name t) k /\
     (forall repo, rp_private repo = true -> rp_namespace repo = ns -> k (Ok repo) = Done (Some (concealed_reply tg))) /\
     (reads_only tg = true -> forall what, exists reply, k (Err (RepoNotFound what)) = Done (Some reply) /\ re_status reply = re_status (concealed_reply tg) /\
        (reply = concealed_reply tg \/ reply = error_reply 404 ("Repository not found: " +:+ what) "NotFoundError"))) \/
  (reads_only tg = false /\ exists r, serve_user app rq e args info = Done (Some r)).
Proof.
  intros Hok Hs Htree Hne. assert (Hacc : forall repo, rp_private repo = true -> rp_namespace repo = ns -> can_access_repo repo (ti_username info) = false /\ can_write_repo repo (ti_username info) = false).
  { intros repo Hp Hn. apply no_access; [done|by rewrite Hn]. }
  assert (Hne' : (ns =? ti_username info)%string = false) by (by apply String.eqb_neq).
  destruct tg; cbn in Hs, Htree; simplify_eq; cbn [target_endpoint reads_only concealed_reply].
  - left. destruct scope; (eexists; split; [reflexivity|]; split; [intros repo Hp Hn; destruct (Hacc repo Hp Hn) as [Ha Hw]; cbn; by rewrite ?Ha, ?Hw|]);
      [|done]. intros _ what. eexists. split; [reflexivity|]. split; [done|by right].
  - left. eexists. split; [reflexivity|]. split; [intros repo Hp Hn; destruct (Hacc repo Hp Hn) as [Ha Hw]; cbn; by rewrite Ha|].
    intros _ what. eexists. split; [reflexivity|]. split; [done|by right].
  - left. eexists. split; [reflexivity|]. split; [intros repo Hp Hn; destruct (Hacc repo Hp Hn) as [Ha Hw]; cbn; by rewrite Hw|done].
  - left. eexists. split; [reflexivity|]. split; [intros repo Hp Hn; destruct (Hacc repo Hp Hn) as [Ha Hw]; cbn; by rewrite Ha|].
    intros _ what. eexists. split; [reflexivity|]. split; [done|by left].
  - right. split; [done|]. cbn [serve_user]. destruct (wq_text rq) as [text|]; cbn [with_body]; [|by eexists].
    unfold handle_commit, answer_with, commit. cbn. destruct (_ <? _); [by eexists|]. unfold ensure_namespace_write_access. rewrite Hne'. by eexists.
  - right. split; [done|]. cbn [serve_user]. destruct (wq_json rq ≫= preupload_request) as [files|]; cbn [with_body]; [|by eexists].
    unfold handle_preupload, answer_with, prepare_upload. unfold validate_preupload_file_count at 1. destruct (_ <=? _) eqn:El; [|by eexists].
    cbn. unfold validate_preupload_file_count. rewrite El. cbn. 
    destruct (validate_preupload_paths files) as [[]|e|] eqn:Ep; cbn; [|by eexists|].
    + rewrite Hne'. cbn. by eexists.
    + by apply validate_preupload_paths_total in Ep.
  - left. eexists. split; [reflexivity|]. split; [intros repo Hp Hn; destruct (Hacc repo Hp Hn) as [Ha Hw]; cbn; by rewrite Ha|].
    intros _ what. eexists. split; [reflexivity|]. split; [done|by right].
  - left. eexists. split; [reflexivity|]. split; [intros repo Hp Hn; destruct (Hacc repo Hp Hn) as [Ha Hw]; cbn; by rewrite Ha|].
    intros _ what. eexists. split; [reflexivity|]. split; [done|by right].
Qed.

(** C8: A private repository is concealed from other users.  Whatever it holds,
    and whatever else the store holds, the answer to any request about it by
    someone else, a listing of its tree with or without a path included, is the
    same; the store is not changed, and nothing but a look at the repository's
    row happens, nothing at the CAS server in particular: a listing's answer does
    not depend on what the store holds at its later calls.  To reads the status
    is 404, as for a repository that is not there, but the text of the answer
    tells the two apart except for a revision's; a listing with a cursor that
    cannot be read is refused for that in either case. *)
Theorem private_repositories_are_concealed rq info tg t ns name : target_ok tg -> subject tg = Some (t, ns, name) ->
  wq_method rq = target_method tg -> wq_path rq = target_url tg ->
  authenticated validate rq (target_endpoint tg).1 = Ok info -> ti_username info <> ns ->
  (exists answer, forall d, holds_private t ns name (d 0%nat) -> answer_of tg rq d = Some answer /\
     (is_tree tg = false -> exists evs, (drive w (serve_web app validate rq) (d 0%nat)).1 = (d 0%nat, evs) /\ Forall is_get_repo evs)) /\
  (reads_only tg = true -> (is_tree tg = true -> cursor_valid rq = true) -> forall d,
    (holds_private t ns name (d 0%nat) -> answer_of tg rq d = Some (concealed_reply tg)) /\
    (absent t ns name (d 0%nat) -> exists reply, answer_of tg rq d = Some reply /\ re_status reply = re_status (concealed_reply tg) /\
       (reply = concealed_reply tg \/ reply = error_reply 404 (absent_message t ns name) "NotFoundError"))).
Proof.
  intros Hok Hs Hm Hp Hauth Hne. destruct (is_tree tg) eqn:Htree; unfold answer_of; rewrite Htree.
  { destruct tg as [| | | | | | | | | | |t' ns' name' rev path| | | |]; try done. cbn in Hs. injection Hs as -> -> ->.
    destruct (tree_looks_up rq info t ns name rev path Hok (not_eq_sym Hne) Hm Hp Hauth) as [(answer & Hv & Hpriv) Habs]. split.
    - exists answer. intros d Hd. split; [by apply Hpriv|done].
    - intros _ Hc d. specialize (Hc eq_refl). cbn [concealed_reply]. rewrite <- (Hv Hc). split; [apply Hpriv|]. intros Hab. eexists.
      split; [by apply Habs|]. rewrite (Hv Hc). split; [done|by right]. }
  assert (serve_web app validate rq = let '(e, args) := target_endpoint tg in serve_user app rq e args info) as Eserve.
  { unfold serve_web. rewrite Hm, Hp, (route_target tg Hok). destruct (target_endpoint tg) as [e args] eqn:Et. cbn [fst] in Hauth. rewrite Hauth.
    destruct tg; cbn in Hs, Et; simplify_eq; done. }
  pose proof (serve_looks_up rq info tg t ns name Hok Hs Htree (not_eq_sym Hne)) as Hl. destruct (target_endpoint tg) as [e args]. rewrite Eserve.
  destruct Hl as [(k & Ek & Hpriv & Hmiss)|(Hr & r & Er)]; [rewrite Ek|rewrite Er, Hr; split; [by exists r; intros d _; split; [done|]; intros _; exists []|done]].
  assert (Hdrive : forall d, holds_private t ns name d -> exists evs, drive w (Call (GetRepo ns name t) k) d = (d, evs, Some (concealed_reply tg)) /\ Forall is_get_repo evs).
  { intros d Hd. destruct (get_private t ns name d Hd) as (repo & Eg & Hrp & Hrn). cbn [drive answer_call]. rewrite Eg, (Hpriv repo Hrp Hrn). cbn [drive].
    eexists. split; [done|]. by constructor. }
  split.
  { exists (concealed_reply tg). intros d Hd. destruct (Hdrive _ Hd) as (evs & -> & Hevs). split; [done|]. intros _. by exists evs. }
  intros Hro _ d. split; [intros Hd; by destruct (Hdrive _ Hd) as (evs & -> & _)|].
  intros Hab. destruct (Hmiss Hro (ns +:+ "/" +:+ name +:+ "/" +:+ repo_type_str t)) as (reply & Ek' & Hst & Hre).
  cbn [drive answer_call]. unfold get_repo at 1. unfold get_repo at 1. rewrite Hab. cbn. rewrite Ek'. cbn [drive]. by exists reply.
Qed.
End Concealed.

(** ** Trees, page by page *)

(** A client that has the entries of a page and follows its link: the request
    of the link, if it is one for the same server. *)
Definition next_request (base_url link : string) (rq : web_request) : option web_request :=
  url ← strip_prefix "<" link ≫= strip_suffix (">; rel=" +:+ quoted "next");
  '(path, query) ← strip_prefix (trim_end_slashes base_url) url ≫= split_once "?"%char;
  Some (mkWebRequest (wq_method rq) path (Some query) (wq_authorization rq) None None).

Section Browse.
Context `{Base64, SqlLike, FormUrlencoded, Ed25519}.
Context (app : hub_app) (validate : string -> outcome SqlxError (option TokenInfo)).

(** All entries; [Some None] after an answer that is not a page. *)
Fixpoint browse (fuel : nat) (states : nat -> nat -> db) (k : nat) (rq : web_request) : option (option (list json)) :=
  match fuel with
  | O => None
  | S fuel =>
      match serve_tree app validate (fun _ _ => false) (states k) rq with
      | Some (mkReply status headers (JsonBody (JArray entries))) =>
          if negb (status =? 200) then Some None
          else
          match headers with
          | [] => Some (Some entries)
          | (_, link) :: _ =>
              match next_request (ap_base_url app) link rq with
              | Some rq => match browse fuel states (S k) rq with Some (Some more) => Some (Some (entries ++ more)) | r => r end
              | None => Some None
              end
          end
      | _ => Some None
      end
  end.
End Browse.

(** *** Links *)
Section Links.
Context `{Base64UrlSafe, SqlLike, FormLaws, Ed25519}.

Lemma join_cons c w ws : ws <> [] -> join c (w :: ws) = w +:+ String c (join c ws).
Proof. by destruct ws. Qed.

Lemma splitn_join c ws rest : Forall (fun w => contains_char c w = false) ws -> rest <> [] ->
  splitn (S (length ws)) c (join c (ws ++ rest)) = ws ++ [join c rest].
Proof.
  intros Hf Hne. induction ws as [|w ws IH]; [done|]. apply Forall_cons in Hf as [Hw Hf]. cbn [app length].
  rewrite join_cons by (by destruct ws). 
  change (splitn (S (S (length ws))) c (w +:+ String c (join c (ws ++ rest)))) with
    (match split_once c (w +:+ String c (join c (ws ++ rest))) with
     | Some (a, b) => a :: splitn (S (length ws)) c b | None => [w +:+ String c (join c (ws ++ rest))] end).
  rewrite split_once_app by done. by rewrite IH.
Qed.

Definition tree_url (t : RepoType) (ns repo rev : string) (path : option string) : string := target_url (TgTree t ns repo rev path).
Lemma tree_url_join t ns repo rev path :
  tree_url t ns repo rev path = join "/"%char ([""; "api"; type_dir t; ns; repo; "tree"] ++ rev :: match path with Some path => split_on "/"%char path | None => [] end).
Proof. reflexivity. Qed.

Lemma join_app c ws rest : ws <> [] -> rest <> [] -> join c (ws ++ rest) = join c ws +:+ String c (join c rest).
Proof.
  intros Hws Hr. induction ws as [|w ws IH]; [done|]. destruct ws as [|w2 ws]; [cbn [app]; by rewrite join_cons|].
  cbn [app]. rewrite (join_cons c w (w2 :: ws ++ rest)), (join_cons c w (w2 :: ws)) by done. rewrite string_app_assoc. f_equal. change (String c (join c (w2 :: ws)) +:+ String c (join c rest)) with (String c (join c (w2 :: ws) +:+ String c (join c rest))). f_equal. apply (IH ltac:(done)).
Qed.

(** The link of a page leads to the same tree at the commit of the page. *)
Lemma replace_tree_url t ns repo rev path c : plain ns -> plain repo -> plain rev ->
  replace_tree_revision (tree_url t ns repo rev path) c = tree_url t ns repo c path.
Proof.
  intros [_ Hns] [_ Hrepo] [_ Hrev]. rewrite !tree_url_join. set (front := [""; "api"; type_dir t; ns; repo; "tree"]).
  set (pieces := match path with Some path => _ | None => _ end).
  assert (Forall (fun w => contains_char "/"%char w = false) front) as Hfront by (repeat constructor; [by destruct t|done..]).
  unfold replace_tree_revision. change 7%nat with (S (length front)). cbv zeta. rewrite (splitn_join "/"%char front (rev :: pieces) Hfront) by done.
  assert (take 6 (front ++ [join "/"%char (rev :: pieces)]) = front) as -> by done.
  assert ((front ++ [join "/"%char (rev :: pieces)]) !! 6%nat = Some (join "/"%char (rev :: pieces))) as -> by done.
  assert (default "" (front !! 5%nat) = "tree") as -> by done. cbn [length front Nat.eqb negb orb String.eqb Ascii.eqb Bool.eqb].
  rewrite (join_app "/"%char front (c :: pieces)) by done.
  assert (match split_once "/"%char (join "/"%char (rev :: pieces)) with Some (_, rest) => "/" +:+ rest | None => "" end
          = match pieces with [] => "" | _ => "/" +:+ join "/"%char pieces end) as Hsuf.
  { destruct pieces as [|p ps]; [cbn [join]; by apply split_once_None in Hrev as ->|]. rewrite join_cons by done. by rewrite split_once_app. }
  rewrite Hsuf. destruct pieces as [|p ps]; [|by rewrite (join_cons _ c) by done].
  change (join "/"%char [c]) with c. change ("/" +:+ c +:+ "") with (String "/" (c +:+ "")). by rewrite UrlModel.string_app_nil_r.
Qed.

(** Queries. *)
Definition is_cursor (pair : string * string) : Prop := pair.1 = "cursor".
Definition query_of (pairs : list (string * string)) : option string := match pairs with [] => None | _ => Some (form_serialize pairs) end.
Definition asks_recursive (pairs : list (string * string)) : bool := existsb (fun pair => (pair.1 =? "recursive")%string && (pair.2 =? "true")%string) pairs.

Lemma query_parses pairs : form_parse (default "" (query_of pairs)) = pairs.
Proof. destruct pairs; cbn [query_of default from_option]; [rewrite <- form_empty|]; apply form_roundtrip. Qed.

Lemma recursive_parses pairs : parse_recursive_query (query_of pairs) = asks_recursive pairs.
Proof.
  destruct pairs as [|p pairs]; [done|]. unfold query_of, parse_recursive_query. rewrite form_pieces by done. unfold asks_recursive.
  assert (Henc : forall s w, string_forallb is_unreserved w = true -> (form_encode s =? w)%string = (s =? w)%string).
  { intros s w Hw. destruct (String.eqb_spec s w) as [->|Hn]; [rewrite form_encode_plain by done; apply String.eqb_refl|].
    apply String.eqb_neq. intros E. rewrite <- (form_encode_plain w Hw) in E. by apply form_encode_inj in E. }
  induction (p :: pairs) as [|[k v] l IH]; [done|]. cbn [map existsb]. rewrite IH. f_equal.
  unfold pair_text. cbn [fst snd]. rewrite form_encode_no_eq. by rewrite !Henc.
Qed.

Lemma cursor_parses pairs cursor : Forall (fun pair => ~ is_cursor pair) pairs ->
  parse_cursor_query (query_of (pairs ++ match cursor with Some c => [("cursor", c)] | None => [] end)) = Ok cursor.
Proof.
  intros Hf. unfold parse_cursor_query. rewrite query_parses. induction Hf as [|[k v] pairs Hk _ IH]; [by destruct cursor|].
  cbn [app last_cursor]. unfold is_cursor in Hk. cbn in Hk. apply String.eqb_neq in Hk as ->. cbn [negb]. exact IH.
Qed.

(** A path without a question mark, and a link of a page as the client reads it. *)
Definition no_query (w : string) : Prop := contains_char "?"%char w = false.
Lemma tree_url_no_query t ns repo rev path : no_query ns -> no_query repo -> no_query rev -> no_query (default "" path) -> no_query (tree_url t ns repo rev path).
Proof.
  unfold no_query. intros Hns Hrepo Hrev Hpath. rewrite tree_url_join.
  assert (Hjoin : forall ws, Forall (fun w => contains_char "?"%char w = false) ws -> contains_char "?"%char (join "/"%char ws) = false).
  { induction ws as [|w ws IH]; [done|]. intros [Hw Hws]%Forall_cons. destruct ws as [|w2 ws]; [done|]. rewrite join_cons by done.
    rewrite contains_char_app, Hw. cbn [contains_char orb]. change (Ascii.eqb "/"%char "?"%char) with false. by apply IH. }
  assert (Hpieces : forall s, contains_char "?"%char s = false -> Forall (fun w => contains_char "?"%char w = false) (split_on "/"%char s)).
  { intros s Hs. apply Forall_forall. intros w Hw. destruct (contains_char "?"%char w) eqn:E; [|done]. rewrite <- (join_split "/"%char s) in Hs.
    revert Hs. induction (split_on "/"%char s) as [|w2 ws IH]; [by apply elem_of_nil in Hw|]. destruct (decide (ws = [])) as [->|Hne].
    - apply list_elem_of_singleton in Hw as ->. cbn. by rewrite E.
    - rewrite join_cons, contains_char_app by done. apply elem_of_cons in Hw as [->|Hw]; [by rewrite E|].
      intros [_ Hs]%orb_false_iff. cbn [contains_char] in Hs. change (Ascii.eqb "/"%char "?"%char) with false in Hs. by apply IH. }
  apply Hjoin. cbn [app]. repeat (apply Forall_cons; split); [done|done|by destruct t|done..|]. destruct path as [path|]; [|constructor]. by apply Hpieces.
Qed.

Lemma next_request_link base_url t ns repo rev path c pairs cursor rq : plain ns -> plain repo -> plain rev ->
  no_query ns -> no_query repo -> no_query c -> no_query (default "" path) ->
  next_request base_url ("<" +:+ build_next_link base_url (tree_url t ns repo rev path) (query_of pairs) c cursor +:+ ">; rel=" +:+ quoted "next") rq =
    Some (mkWebRequest (wq_method rq) (tree_url t ns repo c path) (query_of (filter (fun pair => ~ is_cursor pair) pairs ++ [("cursor", cursor)])) (wq_authorization rq) None None).
Proof.
  intros Hns Hrepo Hrev Qns Qrepo Qc Qpath. unfold next_request. rewrite strip_prefix_app. cbn [mbind option_bind].
  rewrite strip_suffix_app by done. cbn [mbind option_bind]. unfold build_next_link. rewrite strip_prefix_app. cbn [mbind option_bind].
  rewrite (replace_tree_url _ _ _ _ _ _ Hns Hrepo Hrev), query_parses.
  change (?a +:+ "?" +:+ ?b) with (a +:+ String "?"%char b). rewrite split_once_app by (by apply tree_url_no_query). cbn.
  by destruct (filter _ pairs).
Qed.

(** The commit of a page has a name that is plain. *)
Lemma commit_name_plain c : is_commit_name c = true -> plain c /\ no_query c.
Proof.
  unfold is_commit_name. intros [Hl Hh]%andb_true_iff. split; [split; [by intros ->|]|]; eapply string_forallb_contains; try exact Hh; done.
Qed.

Lemma page_commit d rq page : (forall id c, heads (d 1%nat) !! id = Some c -> is_commit_name c = true) ->
  list_tree (fun _ _ => false) d rq = Ok page -> is_commit_name (tp_commit_id page) = true.
Proof.
  intros Hheads. unfold list_tree.
  destruct (match tr_cursor rq with None => _ | Some _ => _ end) as [after| |]; cbn; [|done..].
  destruct (tree_load_repo _ rq (d 0%nat)) as [repo| |]; cbn; [|done..]. destruct (can_access_repo repo _); [|done].
  destruct (resolve_revision_id _ _ _ (d 1%nat)) as [c| |] eqn:Er; cbn; [|done..]. destruct (get_file_tree_prefix_page _ _ _ _ _ _ _) as [entries| |]; cbn; [|done..].
  intros [= <-]. cbn. revert Er. unfold resolve_revision_id. destruct (is_commit_name (tr_revision rq)) eqn:En.
  - destruct (get_revision _ _ _ _) as [|[]|]; cbn; by intros [= <-].
  - destruct (_ =? "main")%string; [|done]. unfold get_head. cbn. destruct (heads (d 1%nat) !! rp_id repo) as [head|] eqn:Eh; [|done]. intros [= <-]. by eapply Hheads.
Qed.
End Links.

Section Pages.
Context `{Base64UrlSafe, SqlLike, FormLaws, Ed25519}.
Context (app : hub_app) (validate : string -> outcome SqlxError (option TokenInfo)).
Context (t : RepoType) (ns repo : string) (path : option string) (pairs : list (string * string)) (authorization : option string) (info : TokenInfo).
Context (Hns : plain ns) (Hrepo : plain repo) (Qns : no_query ns) (Qrepo : no_query repo) (Qpath : no_query (default "" path)).
Context (Hpairs : Forall (fun pair => ~ is_cursor pair) pairs).
Context (Hauth : from_request AuthRead authorization (Some validate) = Ok info).

(** The request for a page, and what the service is asked. *)
Definition with_cursor (cursor : option string) : list (string * string) := pairs ++ match cursor with Some c => [("cursor", c)] | None => [] end.
Definition page_request (rev : string) (cursor : option string) : web_request :=
  mkWebRequest "GET" (tree_url t ns repo rev path) (query_of (with_cursor cursor)) authorization None None.
Definition service_request (rev : string) (cursor : option string) : TreeListRequest :=
  mkTreeRequest (ti_username info) ns repo t rev (default "" path) (asks_recursive pairs) cursor.

(** The reply to the service's answer. *)
Definition page_reply (rev : string) (cursor : option string) (r : outcome TreeServiceError TreeListingPage) : option reply :=
  match r with
  | Panic => None
  | Err err => Some (tree_service_error_response err)
  | Ok page => Some (mkReply 200 (match tp_next_cursor page with
                                  | None => []
                                  | Some next => [("Link", "<" +:+ build_next_link (ap_base_url app) (tree_url t ns repo rev path) (query_of (with_cursor cursor)) (tp_commit_id page) next +:+ ">; rel=" +:+ quoted "next")]
                                  end) (JsonBody (JArray (map entry_json (tp_entries page)))))
  end.

Lemma asks_with_cursor cursor : asks_recursive (with_cursor cursor) = asks_recursive pairs.
Proof. unfold asks_recursive, with_cursor. rewrite existsb_app. destruct cursor; cbn; by rewrite orb_false_r. Qed.

Lemma drop_cursor cursor : filter (fun pair => ~ is_cursor pair) (with_cursor cursor) = pairs.
Proof.
  unfold with_cursor. rewrite filter_app. assert (filter (fun pair => ~ is_cursor pair) pairs = pairs) as ->.
  { clear -Hpairs. revert Hpairs. generalize pairs. intros l. induction 1 as [|p l Hp _ IH]; [done|].
    rewrite filter_cons_True by exact Hp. by rewrite IH. }
  destruct cursor; cbn; [|by rewrite app_nil_r]. rewrite decide_False by (intros Hn; by apply Hn). by rewrite app_nil_r.
Qed.

Lemma serve_tree_page d rev cursor : plain rev ->
  serve_tree app validate (fun _ _ => false) d (page_request rev cursor) =
    page_reply rev cursor (list_tree (fun _ _ => false) d (service_request rev cursor)).
Proof.
  intros Hrev. unfold serve_tree. cbn [wq_method wq_path wq_query page_request].
  rewrite (route_target (TgTree t ns repo rev path) (conj Hns (conj Hrepo Hrev)) : dispatch "GET" (tree_url t ns repo rev path) = _).
  assert (Hsame : forall p, p = default "" path ->
    handle_tree (fun _ _ => false) d (Some (ap_base_url app)) (tree_url t ns repo rev path) (query_of (with_cursor cursor)) t info ns repo rev p =
    page_reply rev cursor (list_tree (fun _ _ => false) d (service_request rev cursor))).
  { intros p ->. unfold handle_tree. unfold with_cursor at 1. rewrite cursor_parses by done. rewrite recursive_parses, asks_with_cursor.
    fold (service_request rev cursor). unfold page_reply. destruct (list_tree _ _ _) as [page| |]; [|done..]. by destruct (tp_next_cursor page). }
  destruct path as [p|]; cbn [target_endpoint]; unfold authenticated; cbn [endpoint_scope wq_authorization page_request];
    change (from_request _ _ _) with (from_request AuthRead authorization (Some validate)); rewrite Hauth; by apply Hsame.
Qed.
End Pages.

(** The entries a service's listing has as JSON. *)
Definition listed_json (r : option (outcome TreeServiceError (list TreeListingEntry))) : option (option (list json)) :=
  match r with None => None | Some (Ok entries) => Some (Some (map entry_json entries)) | Some _ => Some None end.

(** C9: Following links is following the service.  A client that asks for a tree
    and follows the links of the pages, which carry the commit, the position
    and its own query, gets exactly the entries that [HubTree.follow] collects,
    in the same number of requests, whatever the Hub's base URL, the words of
    the URL and the other parameters of its query are; and it fails where the
    service does. *)
Theorem links_lead_through_the_pages `{Base64UrlSafe, SqlLike, FormLaws, Ed25519} app validate t ns repo rev path pairs authorization info states k fuel :
  plain ns -> plain repo -> plain rev -> no_query ns -> no_query repo -> no_query (default "" path) ->
  Forall (fun pair => ~ is_cursor pair) pairs -> from_request AuthRead authorization (Some validate) = Ok info ->
  (forall k i id c, heads (states k i) !! id = Some c -> is_commit_name c = true) ->
  browse app validate fuel states k (page_request t ns repo path pairs authorization rev None) =
    listed_json (follow fuel states k (service_request t ns repo path pairs info rev None)).
Proof.
  intros Hns Hrepo Hrev Qns Qrepo Qpath Hpairs Hauth Hheads. generalize (@None string). revert k rev Hrev.
  induction fuel as [|fuel IH]; intros k rev Hrev cursor; [done|]. cbn [browse follow].
  rewrite (serve_tree_page app validate t ns repo path pairs authorization info) by done.
  destruct (list_tree _ (states k) _) as [page|err|] eqn:Ep; cbn [page_reply]; [|by destruct err|done]. cbn [Z.eqb Pos.eqb negb].
  destruct (tp_next_cursor page) as [next|] eqn:En; [|done].
  pose proof (page_commit _ _ _ (Hheads k 1%nat) Ep) as Hc. destruct (commit_name_plain _ Hc) as [Hcp Hcq].
  rewrite (next_request_link (ap_base_url app) t ns repo rev path (tp_commit_id page) (with_cursor pairs cursor) next (page_request t ns repo path pairs authorization rev cursor)
             Hns Hrepo Hrev Qns Qrepo Hcq Qpath).
  rewrite drop_cursor by done.
  change (mkWebRequest _ _ _ _ _ _) with (page_request t ns repo path pairs authorization (tp_commit_id page) (Some next)).
  rewrite (IH (S k) (tp_commit_id page) Hcp (Some next)).
  change (reposition _ _ _) with (service_request t ns repo path pairs info (tp_commit_id page) (Some next)).
  destruct (follow fuel states (S k) _) as [[entries|err|]|]; cbn [listed_json]; [|done..]. by rewrite map_app.
Qed.

(** ** A model of the form encoding *)
Module FormModel.
Definition hex_digit (n : nat) : ascii := ascii_of_nat (if n <? 10 then 48 + n else 55 + n)%nat.
Definition digit_value (a : ascii) : nat := let n := nat_of_ascii a in (if n <? 58 then n - 48 else n - 55)%nat.
Definition encode_char (a : ascii) : string :=
  if is_unreserved a then String a "" else String "%" (String (hex_digit (nat_of_ascii a / 16)) (String (hex_digit (nat_of_ascii a mod 16)) "")).
Fixpoint encode (s : string) : string := match s with EmptyString => "" | String a s => encode_char a +:+ encode s end.
Fixpoint decode (s : string) : string :=
  match s with
  | EmptyString => ""
  | String a s =>
      match s with
      | String h (String l rest) =>
          if Ascii.eqb a "%"%char then String (ascii_of_nat (16 * digit_value h + digit_value l)) (decode rest) else String a (decode s)
      | _ => String a (decode s)
      end
  end.
Definition serialize (pairs : list (string * string)) : string := join "&"%char (map (fun pair => encode pair.1 +:+ "=" +:+ encode pair.2) pairs).
Definition parse_pair (text : string) : string * string := match split_once "="%char text with Some (k, v) => (decode k, decode v) | None => (decode text, "") end.
Definition parse_form (query : string) : list (string * string) := if (query =? "")%string then [] else map parse_pair (split_on "&"%char query).
#[export] Instance codec : FormUrlencoded := {| form_encode := encode; form_serialize := serialize; form_parse := parse_form |}.

Lemma char_value a : ascii_of_nat (16 * digit_value (hex_digit (nat_of_ascii a / 16)) + digit_value (hex_digit (nat_of_ascii a mod 16))) = a.
Proof. destruct a as [[] [] [] [] [] [] [] []]; vm_compute; reflexivity. Qed.

Lemma decode_plain a s : a <> "%"%char -> decode (String a s) = String a (decode s).
Proof. intros Ha. apply Ascii.eqb_neq in Ha. destruct s as [|h [|l s]]; [done|done|]. cbn [decode]. by rewrite Ha. Qed.

Lemma decode_encode s : decode (encode s) = s.
Proof.
  induction s as [|a s IH]; [done|]. cbn [encode]. unfold encode_char. destruct (is_unreserved a) eqn:Ea.
  - change (String a "" +:+ encode s) with (String a (encode s)). rewrite decode_plain by (by intros ->). by rewrite IH.
  - change (String (ascii_of_nat (16 * digit_value (hex_digit (nat_of_ascii a / 16)) + digit_value (hex_digit (nat_of_ascii a mod 16)))) (decode (encode s)) = String a s).
    by rewrite char_value, IH.
Qed.

Lemma encode_free c s : is_unreserved c = false -> c <> "%"%char -> (forall n, (n < 16)%nat -> hex_digit n <> c) -> contains_char c (encode s) = false.
Proof.
  intros Hc Hp Hd. induction s as [|a s IH]; [done|]. cbn [encode]. rewrite contains_char_app, IH, orb_false_r. unfold encode_char.
  destruct (is_unreserved a) eqn:Ea; cbn [contains_char]; rewrite !orb_false_iff; repeat split; try apply Ascii.eqb_neq; try done.
  - congruence.
  - apply Hd, Nat.Div0.div_lt_upper_bound. pose proof (nat_ascii_bounded a). lia.
  - apply Hd, Nat.mod_upper_bound. lia.
Qed.

Lemma encode_no_amp s : contains_char "&"%char (encode s) = false.
Proof. apply encode_free; [done|done|]. intros n Hn. do 16 (destruct n as [|n]; [done|]). lia. Qed.
Lemma encode_no_eq s : contains_char "="%char (encode s) = false.
Proof. apply encode_free; [done|done|]. intros n Hn. do 16 (destruct n as [|n]; [done|]). lia. Qed.

Lemma pieces pairs : pairs <> [] -> split_on "&"%char (serialize pairs) = map (fun pair => encode pair.1 +:+ "=" +:+ encode pair.2) pairs.
Proof.
  intros Hne. apply split_join; [by destruct pairs|]. apply Forall_map, Forall_forall. intros [k v] _. cbn.
  by rewrite !contains_char_app, !encode_no_amp.
Qed.

#[export] Instance codec_laws : FormLaws.
Proof.
  split.
  - intros pairs. cbn. unfold parse_form. destruct pairs as [|[k v] pairs]; [done|].
    assert ((serialize ((k, v) :: pairs) =? "")%string = false) as ->.
    { apply String.eqb_neq. intros E. pose proof (pieces ((k, v) :: pairs) ltac:(done)) as Hp. rewrite E in Hp. cbn in Hp. injection Hp as Hp _. by destruct (encode k). }
    rewrite pieces, map_map by done. rewrite <- (map_id ((k, v) :: pairs)) at 2. apply map_ext. intros [a b]. unfold parse_pair. cbn [fst snd].
    change (encode a +:+ "=" +:+ encode b) with (encode a +:+ String "="%char (encode b)). rewrite split_once_app by apply encode_no_eq. by rewrite !decode_encode.
  - done.
  - apply pieces.
  - intros s rest. apply split_once_app, encode_no_eq.
  - intros s t E. rewrite <- (decode_encode s), <- (decode_encode t). by f_equal.
  - intros s. cbn. induction s as [|a s IH]; [done|]. cbn [string_forallb encode]. intros [Ha Hs]%andb_true_iff. unfold encode_char. rewrite Ha.
    change (String a "" +:+ encode s) with (String a (encode s)). by rewrite IH.
Qed.
End FormModel.

(** ** A stranger at alice's repository, and alice at its tree *)
#[local] Existing Instances Model.hex Model.sha2 TokenModel.base64 TokenModel.json TokenModel.ed25519.
#[local] Existing Instances FormModel.codec FormModel.codec_laws.
#[local] Instance web_operations : CommitJson := fun line => match line with String "h" summary => Some (OpHeader (mkCommitHeader summary None)) | _ => None end.
#[local] Instance web_operations_laws : CommitJsonLaws.
Proof. intros s f. unfold parse_operation, web_operations. destruct s as [|[[] [] [] [] [] [] [] []] s]; try done; intros [= <-]; done. Qed.
#[local] Instance web_like : SqlLike := fun pattern text => (pattern =? text)%string.
#[local] Instance no_dates : Chrono := fun _ => None.
#[local] Instance web_url_safe : Base64UrlSafe.
Proof.
  intros bs. change (string_forallb is_unreserved (Model.encode bs) = true).
  induction bs as [|b bs IH]; [done|]. cbn [Model.encode string_forallb]. rewrite IH. by destruct b.
Qed.

Definition web_app : hub_app := mkApp (mkCasClient "http://cas" 5000) hub_signer "http://hub:8080" 1000 true.
Definition known_as (user : string) (token : string) : outcome SqlxError (option TokenInfo) := Ok (Some (mkTokenInfo "user_1" user "laptop" "read")).
Definition a_look : web_request := mkWebRequest "GET" "/api/models/alice/data" None (Some "Bearer hf_x") None None.

Lemma alice_holds_data : holds_private RModel "alice" "data" (sys_db hub_final).
Proof.
  unfold holds_private. destruct (find_repo "alice" "data" (repo_type_str RModel) (sys_db hub_final)) as [[id row]|] eqn:E.
  - exists id, row. split; [done|]. assert ((rr_private ∘ snd) <$> find_repo "alice" "data" (repo_type_str RModel) (sys_db hub_final) = Some 1) as Hp by (vm_compute; reflexivity).
    rewrite E in Hp. injection Hp as ->. done.
  - exfalso. assert (is_Some (find_repo "alice" "data" (repo_type_str RModel) (sys_db hub_final))) as [? Hs] by (vm_compute; by eexists). congruence.
Qed.

Definition a_listing : web_request := mkWebRequest "GET" "/api/models/alice/data/tree/main" (Some "recursive=true") (Some "Bearer hf_x") None None.

(** Eve is told neither of the repository nor of its files. *)
Lemma private_repositories_are_concealed_witness :
  answer_of web_app (known_as "eve") hub_world (TgGetRepo RModel "alice" "data") a_look (fun _ => sys_db hub_final) =
    Some (error_reply 404 "Repository not found" "NotFoundError") /\
  answer_of web_app (known_as "eve") hub_world (TgTree RModel "alice" "data" "main" None) a_listing (fun _ => sys_db hub_final) =
    Some (error_reply 404 "Repository not found" "NotFoundError").
Proof.
  split.
  - destruct (private_repositories_are_concealed web_app (known_as "eve") hub_world a_look (mkTokenInfo "user_1" "eve" "laptop" "read")
              (TgGetRepo RModel "alice" "data") RModel "alice" "data") as [_ Hr].
    + by repeat split.
    + reflexivity.
    + reflexivity.
    + reflexivity.
    + reflexivity.
    + discriminate.
    + exact (proj1 (Hr eq_refl ltac:(discriminate) (fun _ => sys_db hub_final)) alice_holds_data).
  - destruct (private_repositories_are_concealed web_app (known_as "eve") hub_world a_listing (mkTokenInfo "user_1" "eve" "laptop" "read")
              (TgTree RModel "alice" "data" "main" None) RModel "alice" "data") as [_ Hr].
    + by repeat split.
    + reflexivity.
    + reflexivity.
    + reflexivity.
    + reflexivity.
    + discriminate.
    + exact (proj1 (Hr eq_refl (fun _ => eq_refl) (fun _ => sys_db hub_final)) alice_holds_data).
Defined.

Lemma final_heads id c : heads (sys_db hub_final) !! id = Some c -> is_commit_name c = true.
Proof.
  intros Hh. assert (Forall (fun entry => is_commit_name entry.2 = true) (map_to_list (heads (sys_db hub_final)))) as Hf by (vm_compute; repeat constructor).
  apply elem_of_map_to_list in Hh. exact (proj1 (Forall_forall _ _) Hf _ Hh).
Qed.

Lemma links_lead_through_the_pages_witness :
  browse web_app (known_as "alice") 3 (fun _ _ => sys_db hub_final) 0
    (page_request RModel "alice" "data" (Some "") [("recursive", "true")] (Some "Bearer hf_x") "main" None) =
  listed_json (follow 3 (fun _ _ => sys_db hub_final) 0
    (service_request RModel "alice" "data" (Some "") [("recursive", "true")] (mkTokenInfo "user_1" "alice" "laptop" "read") "main" None)).
Proof.
  apply (links_lead_through_the_pages web_app (known_as "alice")).
  - by repeat split.
  - by repeat split.
  - by repeat split.
  - reflexivity.
  - reflexivity.
  - reflexivity.
  - by repeat constructor.
  - reflexivity.
  - intros _ _. exact final_heads.
Defined.

(** What alice gets: the file the commits left. *)
Example alice_lists_data :
  option_map (option_map (@length json)) (browse web_app (known_as "alice") 3 (fun _ _ => sys_db hub_final) 0
    (page_request RModel "alice" "data" None [("recursive", "true")] (Some "Bearer hf_x") "main" None)) = Some (Some 1%nat).
Proof. vm_compute. reflexivity. Qed.
