(* ===== verification/HubStart.v ===== *)
(** * The start of the Hub (src/hub/src/server.rs [start_server], src/hub/src/cas_client.rs, src/hub/src/auth/xet_signer.rs)

    From a configuration that [HubConfig] loaded to the application of
    [HubWeb]; what the host, the database, the TLS library and the rate limiter
    answer are arguments.  actix-web makes the application anew for each of its
    workers, with a ledger of its own.  The health check of the CAS server, whose answer is
    only logged, and the warnings are left out. *)
From stdpp Require Import gmap strings.
From Stdlib Require Import Ascii.
From S2P Require Import Prelude Bytes Crates MerkleHash Hash Text Url Config Quota RateLimit TokenCrates Tokens CasAuth HubSigner HubConfig HubMetadata HubTree HubPrograms HubCommit HubRepos HubTokens HubBatch HubApi Routing HubRoutes HubWeb.

Local Open Scope string_scope.
Local Open Scope list_scope.
Local Open Scope Z_scope.

(** What the host answers. *)
Record hub_host := mkHubHost {
  hh_lock : string -> outcome string unit;
  hh_connect : string -> Z -> outcome string unit;
  hh_token_store : outcome string unit;
  hh_metadata : outcome string unit;
  hh_read : string -> outcome string (list byte);
  hh_http_client : Z -> outcome string unit;
  hh_bind : string -> outcome string unit;
  (** How often actix-web calls the factory of the application: at least once,
      for each of its workers and each socket it listens on. *)
  hh_workers : nat;
  hh_run : outcome string unit;
}.

Section Start.
Context `{Base64, TokenJson, Ed25519, !KeyFiles, Governor}.

(** [XetSigner::from_pem_with_internal_ttl] *)
Definition from_pem_with_internal_ttl (pem_bytes : list byte) (kid : string) (ttl proxy_ttl internal_ttl : Z) : outcome string XetSigner :=
  let* pem_str := ok_or (from_utf8 pem_bytes) "invalid utf-8 sequence" in
  let* signing_key := ok_or (private_key_from_pem pem_str) "Failed to load private key" in
  Ok (new_with_internal_ttl signing_key kid ttl proxy_ttl internal_ttl).

(** [CasClient::new] *)
Definition cas_client_new (host : hub_host) (settings : CasSettings) : outcome string CasClient :=
  let* _ := map_err (fun e => "Failed to build CAS HTTP client: " +:+ e) (hh_http_client host (hc_internal_timeout_seconds settings)) in
  Ok (mkCasClient (trim_end_slashes (hc_base_url settings)) (hc_max_download_size settings)).

Definition governor_config (period rpm : Z) : option GovernorConfig := governor_finish period rpm.

(** [HubAppDeps] *)
Record HubAppDeps := mkDeps { hd_config : HubConfig; hd_signer : XetSigner; hd_cas_client : CasClient; hd_governor_conf : GovernorConfig }.

(** What serves the requests. *)
Record hub_service := mkService { sv_app : hub_app; sv_ledger : TempQuotaLedger; sv_governor : GovernorConfig }.

(** The data of [build_app]: an unusable quota is a panic. *)
Definition build_app (database_ok : bool) (deps : HubAppDeps) : outcome string hub_service :=
  let config := hd_config deps in
  match ledger_new (hg_temp_quota_bytes (storage config)) (hg_temp_min_free_bytes (storage config)) with
  | Ok ledger =>
      Ok (mkService (mkApp (hd_cas_client deps) (hd_signer deps) (base_url (server config)) (hg_inline_threshold_bytes (storage config)) database_ok)
                    ledger (hd_governor_conf deps))
  | _ => Panic
  end.

(** [start_server] up to serving. *)
Definition prepare (host : hub_host) (config : HubConfig) : outcome string HubAppDeps :=
  let* _ := map_err (fun e => "Failed to lock Hub temp directory: " +:+ e) (hh_lock host (hg_upload_temp_dir (storage config))) in
  let* _ := map_err (fun e => "Failed to connect to database: " +:+ e) (hh_connect host (hm_sqlite_path (metadata config)) (hm_db_pool_size (metadata config))) in
  let* _ := map_err (fun e => "Failed to create token store: " +:+ e) (hh_token_store host) in
  let* _ := map_err (fun e => "Failed to create metadata store: " +:+ e) (hh_metadata host) in
  let* private_key_pem := map_err (fun e => "Failed to read private key from '" +:+ ha_private_key_path (auth config) +:+ "': " +:+ e)
                            (hh_read host (ha_private_key_path (auth config))) in
  let* signer := map_err (fun e => "Failed to create xet signer: " +:+ e)
                   (from_pem_with_internal_ttl private_key_pem (ha_kid (auth config)) (ha_token_ttl_seconds (auth config))
                      (ha_proxy_token_ttl_seconds (auth config)) (ha_internal_token_ttl_seconds (auth config))) in
  let* cas_client := map_err (fun e => "Failed to create CAS client: " +:+ e) (cas_client_new host (cas config)) in
  let rpm := hs_rate_limit_rpm (server config) in
  let* period := ok_or (rate_limit_period rpm) "Rate limit RPM must be greater than zero" in
  let* governor_conf := ok_or (governor_config period rpm) "Failed to configure rate limiter" in
  Ok (mkDeps config signer cas_client governor_conf).

(** The services that answer the requests, one for each call of the factory that
    [HttpServer::new] is given, and what the server returns. *)
Definition start_server (host : hub_host) (database_ok : bool) (config : HubConfig) : outcome string (list hub_service * outcome string unit) :=
  let bind_addr := hs_host (server config) +:+ ":" +:+ u64_to_string (hs_port (server config)) in
  let* deps := prepare host config in
  let* _ := hh_bind host bind_addr in
  let* services := map_outcome (fun _ => build_app database_ok deps) (seq 0 (hh_workers host)) in
  Ok (services, hh_run host).
End Start.

(** ** A loaded configuration starts *)

(** The host does its part: what is asked of it succeeds, and the key file holds [key]. *)
Definition host_ready `{Ed25519, !KeyFiles} (host : hub_host) (c : HubConfig) (key : SigningKey) : Prop :=
  hh_lock host (hg_upload_temp_dir (storage c)) = Ok tt /\
  hh_connect host (hm_sqlite_path (metadata c)) (hm_db_pool_size (metadata c)) = Ok tt /\
  hh_token_store host = Ok tt /\ hh_metadata host = Ok tt /\
  (exists pem bytes, hh_read host (ha_private_key_path (auth c)) = Ok bytes /\ from_utf8 bytes = Some pem /\ private_key_from_pem pem = Some key) /\
  hh_http_client host (hc_internal_timeout_seconds (cas c)) = Ok tt /\
  hh_bind host (hs_host (server c) +:+ ":" +:+ u64_to_string (hs_port (server c))) = Ok tt.

(** Its answers are errors or results. *)
Definition host_answers (host : hub_host) : Prop :=
  (forall path, hh_lock host path <> Panic) /\ (forall path n, hh_connect host path n <> Panic) /\ hh_token_store host <> Panic /\
  hh_metadata host <> Panic /\ (forall path, hh_read host path <> Panic) /\ (forall n, hh_http_client host n <> Panic) /\ (forall addr, hh_bind host addr <> Panic).

Section Starts.
Context `{Base64Laws, TokenJsonLaws, Ed25519Laws, !KeyFiles, GovernorLaws}.

(** What a service was made of. *)
Record serves (c : HubConfig) (key : SigningKey) (s : hub_service) : Prop := mkServes {
  se_signer : ap_signer (sv_app s) = mkSigner key (ha_kid (auth c)) (ha_token_ttl_seconds (auth c)) (ha_proxy_token_ttl_seconds (auth c)) (ha_internal_token_ttl_seconds (auth c));
  se_cas : ap_cas (sv_app s) = mkCasClient (trim_end_slashes (hc_base_url (cas c))) (hc_max_download_size (cas c));
  se_base_url : ap_base_url (sv_app s) = base_url (server c);
  se_inline : ap_inline_threshold (sv_app s) = hg_inline_threshold_bytes (storage c);
  se_ledger : sv_ledger s = mkLedger (hg_temp_quota_bytes (storage c)) (hg_temp_min_free_bytes (storage c)) 0 0;
  se_governor : exists period, 0 < period /\ NANOS_PER_MINUTE <= period * hs_rate_limit_rpm (server c) < NANOS_PER_MINUTE + hs_rate_limit_rpm (server c) /\
                  governor_config period (hs_rate_limit_rpm (server c)) = Some (sv_governor s);
}.

Lemma map_outcome_const {E A B} (o : outcome E B) b (l : list A) : o = Ok b -> map_outcome (fun _ => o) l = Ok (replicate (length l) b).
Proof. intros ->. induction l as [|a l IH]; [done|]. cbn [map_outcome length replicate]. by rewrite IH. Qed.

Lemma sum_by_replicate {A} (f : A -> Z) n a : sum_by f (replicate n a) = Z.of_nat n * f a.
Proof. induction n as [|n IH]; [done|]. cbn [replicate]. rewrite sum_by_cons, IH. lia. Qed.

Lemma valid_starts `{UrlCrate} host ok c key : valid c -> in_width c -> host_ready host c key ->
  exists s, start_server host ok c = Ok (replicate (hh_workers host) s, hh_run host) /\ serves c key s.
Proof.
  intros [] (_ & Hrpm & _) (El & Ec & Et & Em & (pem & bytes & Er & Eu & Ek) & Eh & Eb).
  destruct (rate_limit_period_spec (hs_rate_limit_rpm (server c)) ltac:(lia)) as (period & Ep & Hp & Hrate).
  destruct (proj2 (governor_finish_iff period (hs_rate_limit_rpm (server c))) ltac:(split; lia)) as [g Eg].
  unfold start_server, prepare, from_pem_with_internal_ttl, cas_client_new, governor_config. rewrite El, Ec, Et, Em, Er. cbn [map_err].
  rewrite Eu. cbn [ok_or]. rewrite Ek. cbn [ok_or map_err]. rewrite Eh. cbn [map_err]. cbn zeta. rewrite Ep. cbn [ok_or]. rewrite Eg. cbn [ok_or].
  rewrite Eb. unfold build_app, ledger_new. cbn [hd_config]. destruct va_quota as [Hq Hf].
  apply Z.eqb_neq in Hq as ->. apply Z.eqb_neq in Hf as ->. cbn [orb negb]. erewrite map_outcome_const by reflexivity. rewrite length_seq.
  eexists. split; [reflexivity|]. constructor; try done. by exists period.
Qed.

Lemma valid_no_panic `{UrlCrate} host ok c : valid c -> host_answers host -> start_server host ok c <> Panic.
Proof.
  intros [] (Hl & Hc & Ht & Hm & Hr & Hh & Hb). unfold start_server, prepare, from_pem_with_internal_ttl, cas_client_new.
  specialize (Hl (hg_upload_temp_dir (storage c))). destruct (hh_lock _ _); [|done..]. cbn [map_err].
  specialize (Hc (hm_sqlite_path (metadata c)) (hm_db_pool_size (metadata c))). destruct (hh_connect _ _ _); [|done..]. cbn [map_err].
  destruct (hh_token_store host); [|done..]. cbn [map_err]. destruct (hh_metadata host); [|done..]. cbn [map_err].
  specialize (Hr (ha_private_key_path (auth c))). destruct (hh_read _ _); [|done..]. cbn [map_err].
  destruct (from_utf8 _); [|done]. cbn [ok_or]. destruct (private_key_from_pem _); [|done]. cbn [ok_or map_err].
  specialize (Hh (hc_internal_timeout_seconds (cas c))). destruct (hh_http_client _ _); [|done..]. cbn [map_err]. cbn zeta.
  destruct (rate_limit_period _); [|done]. cbn [ok_or]. destruct (governor_config _ _); [|done]. cbn [ok_or].
  specialize (Hb (hs_host (server c) +:+ ":" +:+ u64_to_string (hs_port (server c)))). destruct (hh_bind _ _); [|done..].
  unfold build_app, ledger_new. cbn [hd_config]. destruct va_quota as [Hq Hf]. apply Z.eqb_neq in Hq as ->, Hf as ->. cbn [orb negb].
  by erewrite map_outcome_const by reflexivity.
Qed.
(** The signer of a valid configuration signs what it is asked to, and its
    tokens pass its own verifier until they expire. *)
Lemma valid_signer_signs `{UrlCrate} c key t r : valid c -> in_width c ->
  let s := mkSigner key (ha_kid (auth c)) (ha_token_ttl_seconds (auth c)) (ha_proxy_token_ttl_seconds (auth c)) (ha_internal_token_ttl_seconds (auth c)) in
  0 <= t -> t + MAX_TOKEN_LIFETIME_SECS <= u64_max ->
  match r with ReqProxy _ oid op _ _ => is_blank oid = false /\ (op = "upload" \/ op = "download") | _ => True end ->
  exists token, hub_sign s (Some t) r = Ok (token, t + hub_ttl s r) /\ 0 < hub_ttl s r <= MAX_TOKEN_LIFETIME_SECS /\
    forall now, t <= now < t + hub_ttl s r -> is_Some (hub_verify s (Some now) r token).
Proof.
  intros [] (_ & _ & _ & Hw) s Ht Hfit Hreq. rewrite !Forall_cons in Hw. destruct Hw as (? & ? & ? & _).
  assert (0 < hub_ttl s r <= MAX_TOKEN_LIFETIME_SECS) as Httl by (destruct r; cbn; lia).
  assert (s_kid s <> "") as Hkid by (intros E; cbn in E; by rewrite E in va_kid).
  destruct (hub_tokens_at_cas s (mkVerifier [(s_kid s, verifying_key key)] None None) t r Ht ltac:(lia) ltac:(lia)) as [Hok Hgo].
  { unfold find_key. cbn. by rewrite String.eqb_refl. }
  assert (is_ok (hub_sign s (Some t) r) = true) as Hs by (by apply Hok).
  destruct (hub_sign s (Some t) r) as [[token e]| |] eqn:Es; [|done..]. destruct (Hgo token e eq_refl) as (-> & Hver & _).
  exists token. split; [done|]. split; [done|]. intros now Hnow. by apply Hver.
Qed.
End Starts.

(** C18: A configuration that loads never stops the Hub from starting.  Whatever
    the environment and the file hold: if they load and the host does its part
    (the lock, the database, the key file, the network), the server starts, and
    in each of its workers the rate limiter, the client and the signer are those
    configured, with a rate of at most the configured number of requests a
    minute; the files it fetches itself are within the size it downloads; and it
    signs every token it is asked for with a lifetime between a second and seven
    days, which it accepts until then.  Each worker has a ledger of its own with
    the configured temporary quota and nothing charged to it, so all of them
    together may use as many times the quota as there are workers.  It panics in
    no case. *)
Theorem loaded_hub_starts `{UrlCrate, Base64Laws, TokenJsonLaws, Ed25519Laws, !KeyFiles, GovernorLaws} env parse_file host ok c :
  try_from_file_or_env env parse_file = Ok c -> (forall path base, parse_file path = Ok base -> in_width base) -> host_answers host ->
  start_server host ok c <> Panic /\
  forall key, host_ready host c key -> exists services,
    start_server host ok c = Ok (services, hh_run host) /\ length services = hh_workers host /\
    sum_by (fun s => quota_bytes (sv_ledger s)) services = Z.of_nat (hh_workers host) * hg_temp_quota_bytes (storage c) /\
    forall s, s ∈ services -> serves c key s /\
    ap_inline_threshold (sv_app s) <= cc_max_download_size (ap_cas (sv_app s)) /\
    forall r t, 0 <= t -> t + MAX_TOKEN_LIFETIME_SECS <= u64_max ->
      match r with ReqProxy _ oid op _ _ => is_blank oid = false /\ (op = "upload" \/ op = "download") | _ => True end ->
      exists token, hub_sign (ap_signer (sv_app s)) (Some t) r = Ok (token, t + hub_ttl (ap_signer (sv_app s)) r) /\
        0 < hub_ttl (ap_signer (sv_app s)) r <= MAX_TOKEN_LIFETIME_SECS /\
        forall now, t <= now < t + hub_ttl (ap_signer (sv_app s)) r -> is_Some (hub_verify (ap_signer (sv_app s)) (Some now) r token).
Proof.
  intros Hload Hfile Hhost. apply loaded_Ok in Hload as (base & Hbase & Hov & Hv & _ & _).
  assert (in_width c) as Hw.
  { eapply overlay_in_width; [|exact Hov]. unfold base_config in Hbase. destruct (var env "HUB_CONFIG_FILE"); [by eapply Hfile|subst; apply default_in_width]. }
  split; [by apply valid_no_panic|]. intros key Hready. destruct (valid_starts host ok c key Hv Hw Hready) as (s & Hs & Hserves).
  exists (replicate (hh_workers host) s). split; [done|]. split; [apply length_replicate|]. split.
  { rewrite (sum_by_replicate (fun s => quota_bytes (sv_ledger s))), (se_ledger _ _ _ Hserves). done. }
  intros s' [-> _]%elem_of_replicate. split; [done|]. destruct Hserves as [Esig Ecas _ Ein _ _]. rewrite Esig, Ecas, Ein.
  split; [by destruct Hv as [_ _ _ _ _ _ _ _ _ _ (_ & ? & ?)]; cbn; lia|]. intros r t. by apply valid_signer_signs.
Qed.

(** ** A start from the environment and a file *)
#[local] Existing Instances TokenModel.base64 TokenModel.json TokenModel.ed25519.
#[local] Existing Instances TokenModel.base64_laws TokenModel.json_laws TokenModel.ed25519_laws UrlModel.crate.
#[local] Instance sample_key_files : KeyFiles := {|
  read_to_string _ := None;
  public_key_from_pem _ := None;
  private_key_from_pem pem := if (pem =? "PRIVATE KEY")%string then Some (7 : @SigningKey TokenModel.ed25519) else None;
|}.
#[local] Existing Instances GovernorModel.builder GovernorModel.builder_laws.

(** The variables of one deployment: a file, and a port and a public URL over it. *)
Definition sample_env (key : string) : env_var :=
  if (key =? "HUB_CONFIG_FILE")%string then Present "hub.toml"
  else if (key =? "HUB_PORT")%string then Present "+9090"
  else if (key =? "HUB_PUBLIC_BASE_URL")%string then Present "http://hub.example//"
  else if (key =? "HUB_KID")%string then NotUnicode
  else NotPresent.
Definition sample_file : HubConfig :=
  mkHubConfig (mkServer "0.0.0.0" 80 None 7 None) (mkAuth "key.pem" "hub-key-2" 60 60 60) default_metadata (mkCas "http://cas:8081" 30 2000 10)
    (mkStorage 1000 "/var/tmp" 2000 5000 1).
Definition sample_parse (path : string) : outcome string HubConfig := if (path =? "hub.toml")%string then Ok sample_file else Err "no such file".
Definition sample_loaded : HubConfig :=
  mkHubConfig (mkServer "0.0.0.0" 9090 (Some "http://hub.example//") 7 (Some "http://hub.example")) (auth sample_file) default_metadata (cas sample_file) (storage sample_file).
Definition sample_host : hub_host :=
  mkHubHost (fun _ => Ok tt) (fun _ _ => Ok tt) (Ok tt) (Ok tt) (fun _ => Ok (str_bytes "PRIVATE KEY")) (fun _ => Ok tt) (fun _ => Ok tt) 4 (Ok tt).

Example sample_loads : try_from_file_or_env sample_env sample_parse = Ok sample_loaded.
Proof. vm_compute. reflexivity. Qed.
Lemma sample_parse_in_width path base : sample_parse path = Ok base -> in_width base.
Proof.
  unfold sample_parse. destruct (path =? "hub.toml")%string; [|discriminate]. intros [= <-].
  unfold in_width. rewrite !Forall_cons. repeat split; try constructor; unfold u16_max, u32_max, u64_max; cbn; lia.
Qed.
Example bad_port : try_from_file_or_env (fun key => if (key =? "HUB_PORT")%string then Present "65536" else NotPresent) sample_parse =
  Err "HUB_PORT '65536' is not a valid value: number too large to fit in target type".
Proof. vm_compute. reflexivity. Qed.

(** The public URL of the environment, without its slashes, over the file's. *)
Lemma environment_wins_witness : base_url (server sample_loaded) = "http://hub.example".
Proof.
  destruct (proj1 (environment_wins sample_env sample_parse sample_loaded) sample_loads) as (base & _ & _ & _ & _ & Hurl).
  rewrite Hurl. reflexivity.
Defined.

(** Four workers: the budget of the process is four times the quota. *)
Lemma loaded_hub_starts_witness : exists services s, start_server sample_host true sample_loaded = Ok (services, Ok tt) /\
  services !! 3%nat = Some s /\ ap_base_url (sv_app s) = "http://hub.example" /\ sv_ledger s = mkLedger 5000 1 0 0 /\
  sum_by (fun s => quota_bytes (sv_ledger s)) services = 20000.
Proof.
  destruct (loaded_hub_starts sample_env sample_parse sample_host true sample_loaded sample_loads) as [_ Hstart].
  - exact sample_parse_in_width.
  - repeat split; discriminate.
  - destruct (Hstart (7 : @SigningKey TokenModel.ed25519)) as (services & Hs & Hlen & Hsum & Hall).
    + repeat split. exists "PRIVATE KEY", (str_bytes "PRIVATE KEY"). repeat split.
    + destruct (lookup_lt_is_Some_2 services 3) as [s Hi]; [rewrite Hlen; cbn; lia|]. destruct (Hall s (list_elem_of_lookup_2 _ _ _ Hi)) as [Hserves _].
      exists services, s. split; [exact Hs|]. split; [exact Hi|]. split; [exact (se_base_url _ _ _ Hserves)|]. split; [exact (se_ledger _ _ _ Hserves)|exact Hsum].
Defined.
