(* ===== verification/Deployment.v ===== *)
(** * A Hub and a CAS server together (src/hub/src/server.rs, src/server.rs)

    Two processes that were started from configurations of their own: the
    tokens of the one at the guards of the other. *)
From stdpp Require Import gmap strings.
From Stdlib Require Import Ascii.
From S2P Require Import Prelude Bytes Crates Hash Text Url Config Quota RateLimit TokenCrates Tokens CasAuth CasConfig CasStart HubSigner HubConfig HubApi HubWeb HubStart.

Local Open Scope string_scope.
Local Open Scope list_scope.
Local Open Scope Z_scope.

Section Started.
Context `{Base64, TokenJson, Ed25519, !KeyFiles, Governor, Tokio}.

(** A CAS server that serves has the verifier of its configuration. *)
Lemma cas_verifier host c s : start_cas host c = Ok s -> from_config (cf_auth c) = Ok (cs_auth s).
Proof.
  unfold start_cas. intros Hs. destruct (from_config (cf_auth c)) as [v| |]; [|done..]. cbn [map_err] in Hs.
  repeat match type of Hs with
  | (match ?o with Ok _ => _ | Err _ => _ | Panic => _ end) = _ => destruct o; try discriminate Hs
  | (if ?b then _ else _) = _ => destruct b; try discriminate Hs
  end. by injection Hs as <-.
Qed.

(** A Hub that serves signs with the key of its file. *)
Lemma hub_signing_key host ok c services s run : start_server host ok c = Ok (services, run) -> s ∈ services ->
  exists bytes pem key, hh_read host (ha_private_key_path (auth c)) = Ok bytes /\ from_utf8 bytes = Some pem /\ private_key_from_pem pem = Some key /\
    ap_signer (sv_app s) = mkSigner key (ha_kid (auth c)) (ha_token_ttl_seconds (auth c)) (ha_proxy_token_ttl_seconds (auth c)) (ha_internal_token_ttl_seconds (auth c)).
Proof.
  unfold start_server. destruct (prepare host c) as [deps| |] eqn:Ep; [|done..]. destruct (hh_bind _ _); [|done..].
  destruct (map_outcome _ _) as [services'| |] eqn:Em; [|done..]. intros [= <- <-] Hin. apply map_outcome_Ok_iff in Em.
  apply list_elem_of_lookup in Hin as [i Hi]. destruct (Forall2_lookup_r _ _ _ _ _ Em Hi) as (n & _ & Hb). revert Hb.
  unfold build_app. destruct (ledger_new _ _); [|done..]. intros [= <-]. cbn [sv_app ap_signer]. revert Ep. unfold prepare, from_pem_with_internal_ttl.
  destruct (hh_lock _ _); [|done..]. destruct (hh_connect _ _ _); [|done..]. destruct (hh_token_store _); [|done..]. destruct (hh_metadata _); [|done..].
  destruct (hh_read _ _) as [bytes| |]; [|done..]. cbn [map_err]. destruct (from_utf8 bytes) as [pem|] eqn:Eu; [|done]. cbn [ok_or].
  destruct (private_key_from_pem pem) as [key|] eqn:Ek; [|done]. cbn [ok_or map_err]. intros Hd.
  repeat match type of Hd with (match ?o with Ok _ => _ | Err _ => _ | Panic => _ end) = _ => destruct o; try discriminate Hd end.
  injection Hd as <-. by exists bytes, pem, key.
Qed.
End Started.

(** C15: The tokens of a Hub open the CAS server.  A Hub that was started from a
    configuration that loads, in any of its workers, and a CAS server that was
    started: if the CAS server trusts the Hub's kid, and the key file it names for that kid is the
    public half of the Hub's key file, then every token that the Hub is asked
    for is signed, and at any guard of the CAS server it lets its bearer do,
    until it expires, exactly what the Hub was asked for. *)
Theorem hub_tokens_open_the_cas `{UrlCrate, Base64Laws, TokenJsonLaws, Ed25519Laws, !KeyFiles, Governor, Tokio}
    env parse_file hc hhost ok hubs hub run chost cc cas (bytes : list byte) (pem path public_pem : string) (key : SigningKey) :
  try_from_file_or_env env parse_file = Ok hc -> (forall p base, parse_file p = Ok base -> in_width base) ->
  start_server hhost ok hc = Ok (hubs, run) -> hub ∈ hubs -> start_cas chost cc = Ok cas ->
  hh_read hhost (ha_private_key_path (auth hc)) = Ok bytes -> from_utf8 bytes = Some pem -> private_key_from_pem pem = Some key ->
  ha_kid (auth hc) ∈ trusted_kids (cf_auth cc) -> key_path (cf_auth cc) (ha_kid (auth hc)) = Some path ->
  read_to_string path = Some public_pem -> public_key_from_pem public_pem = Some (verifying_key key) ->
  forall r t, 0 <= t -> t + MAX_TOKEN_LIFETIME_SECS <= u64_max ->
    match r with ReqProxy _ oid op _ _ => is_blank oid = false /\ (op = "upload" \/ op = "download") | _ => True end ->
    exists token expires, hub_sign (ap_signer (sv_app hub)) (Some t) r = Ok (token, expires) /\ t < expires <= t + MAX_TOKEN_LIFETIME_SECS /\
      forall now need, is_ok (require_auth (Some ("Bearer " +:+ token)) (cs_auth cas) (Some now) need) = true <-> t <= now < expires /\ request_allows r need.
Proof.
  intros Hload Hfile Hhub Hworker Hcas Hbytes Hpem Hkey Htrust Hpath Hpub Hpk r t Ht Hfit Hreq.
  apply loaded_Ok in Hload as (base & Hbase & Hov & Hv & _ & _).
  assert (in_width hc) as (_ & _ & _ & Hw).
  { eapply overlay_in_width; [|exact Hov]. unfold base_config in Hbase. destruct (var env "HUB_CONFIG_FILE"); [by eapply Hfile|subst; apply default_in_width]. }
  rewrite !Forall_cons in Hw. destruct Hw as (? & ? & ? & _).
  destruct (hub_signing_key _ _ _ _ _ _ Hhub Hworker) as (bytes1 & pem1 & key1 & E1 & E2 & E3 & Esig).
  assert (bytes1 = bytes) as -> by congruence. assert (pem1 = pem) as -> by congruence. assert (key1 = key) as -> by congruence.
  destruct (loaded_verifier _ _ (cas_verifier _ _ _ Hcas) _ Htrust) as (path2 & pem2 & k & F1 & F2 & F3 & Hfind). simplify_eq.
  rewrite Esig. set (s := mkSigner _ _ _ _ _) in *. destruct Hv.
  assert (0 < hub_ttl s r <= MAX_TOKEN_LIFETIME_SECS) as Httl by (destruct r; cbn; lia).
  destruct (hub_tokens_at_cas s (cs_auth cas) t r Ht ltac:(lia) ltac:(lia) Hfind) as [Hok Hgo].
  assert (is_ok (hub_sign s (Some t) r) = true) as Hs.
  { apply Hok. split; [intros E; cbn in E; by rewrite E in va_kid|]. by split. }
  destruct (hub_sign s (Some t) r) as [[token e]| |] eqn:Es; [|done..]. destruct (Hgo token e eq_refl) as (-> & _ & Hr).
  exists token, (t + hub_ttl s r). split; [done|]. split; [lia|]. exact Hr.
Qed.

(** ** One deployment *)
#[local] Existing Instances TokenModel.base64 TokenModel.json TokenModel.ed25519.
#[local] Existing Instances TokenModel.base64_laws TokenModel.json_laws TokenModel.ed25519_laws UrlModel.crate GovernorModel.builder.
#[local] Existing Instances sample_files channel_limit.

Definition deployed_hub_host : hub_host :=
  mkHubHost (fun _ => Ok tt) (fun _ _ => Ok tt) (Ok tt) (Ok tt) (fun _ => Ok (str_bytes "12345678")) (fun _ => Ok tt) (fun _ => Ok tt) 1 (Ok tt).

(** The Hub's key is that of the CAS server's second file: a token to read
    opens the reads for a minute. *)
Lemma hub_tokens_open_the_cas_witness : exists hub run cas token,
  start_server deployed_hub_host true HubStart.sample_loaded = Ok ([hub], run) /\ start_cas cas_sample_host loaded_cas_config = Ok cas /\
  hub_sign (ap_signer (sv_app hub)) (Some 100) (ReqUser "alice" "read" "r" "model" "main") = Ok (token, 160) /\
  is_ok (require_auth (Some ("Bearer " +:+ token)) (cs_auth cas) (Some 159) (Scope "read")) = true.
Proof.
  assert (match start_server deployed_hub_host true HubStart.sample_loaded with Ok ([_], _) => true | _ => false end = true) as Hhub by (vm_compute; reflexivity).
  destruct (start_server deployed_hub_host true HubStart.sample_loaded) as [[[|hub [|]] run]| |] eqn:Eh; [discriminate Hhub| |discriminate Hhub..].
  assert (is_ok (start_cas cas_sample_host loaded_cas_config) = true) as Hcas by (vm_compute; reflexivity).
  destruct (start_cas cas_sample_host loaded_cas_config) as [cas| |] eqn:Ec; [|discriminate Hcas..].
  assert (ha_kid (auth HubStart.sample_loaded) ∈ trusted_kids (cf_auth loaded_cas_config)) as Htrust.
  { assert (trusted_kids (cf_auth loaded_cas_config) = ["hub-key-1"; "hub-key-2"]) as -> by (vm_compute; reflexivity). right. left. }
  assert (key_path (cf_auth loaded_cas_config) (ha_kid (auth HubStart.sample_loaded)) = Some "/keys/bb") as Hpath by (vm_compute; reflexivity).
  destruct (hub_tokens_open_the_cas sample_env sample_parse HubStart.sample_loaded deployed_hub_host true [hub] hub run cas_sample_host loaded_cas_config cas
    (str_bytes "12345678") "12345678" "/keys/bb" "/keys/bb" (8 : @SigningKey TokenModel.ed25519)
    sample_loads sample_parse_in_width Eh ltac:(left) Ec eq_refl ltac:(vm_compute; reflexivity) eq_refl Htrust Hpath eq_refl eq_refl
    (ReqUser "alice" "read" "r" "model" "main") 100 ltac:(lia) ltac:(unfold MAX_TOKEN_LIFETIME_SECS, u64_max; lia) I) as (token & expires & Hsign & _ & Hopen).
  exists hub, run, cas, token. split; [reflexivity|]. split; [reflexivity|].
  assert (expires = 160) as ->.
  { assert (hub_ttl (ap_signer (sv_app hub)) (ReqUser "alice" "read" "r" "model" "main") = 60) as Httl.
    { destruct (hub_signing_key _ _ _ _ _ _ Eh ltac:(left)) as (? & ? & ? & _ & _ & _ & Es). rewrite Es. reflexivity. }
    rewrite hub_sign_run, Httl in Hsign. cbn in Hsign. destruct (sign_claims _ _ _); [|discriminate Hsign..]. injection Hsign as _ <-. reflexivity. }
  split; [exact Hsign|]. apply Hopen. split; [lia|]. cbn [request_allows].
  assert (split_whitespace "read" = ["read"]) as -> by (vm_compute; reflexivity). split; [discriminate|].
  split; [by intros ?%list_elem_of_singleton|left].
Defined.
