(* ===== verification/Backing.v ===== *)
(** * What the Hub commits is stored at the CAS server

    The Hub and the CAS server as one system: each goes on with its own
    requests, and what happens at either is kept in one trace, in its order.  An
    answer that the Hub gets over HTTP is the CAS server's answer to a request it
    received after the Hub's own request had made its previous call, or a
    refusal, or none.  The theorem follows a file from the row of a commit, by
    the calls that the commit request made, to the object that the CAS server
    had while that request was being served. *)
From stdpp Require Import gmap strings pretty.
From Stdlib Require Import Ascii.
From S2P Require Import Prelude Bytes Crates MerkleHash Hash Cdc Compression Text Storage ObjectStore ShardValidation Rebuild Routing TokenCrates Tokens CasAuth Scheduler Operations Conversion Converted Payload CasApi CasServer CasSafety CasWeb.

From S2P Require Import HubSigner HubMetadata HubHistory HubPrograms HubCommit HubStore HubContracts HubSystem HubSafety.

Local Open Scope string_scope.
Local Open Scope list_scope.
Local Open Scope Z_scope.

(** ** Numbers in headers *)

(** The value of decimal digits after those of [acc]. *)
Fixpoint decimal (acc : Z) (s : string) : Z :=
  match s with String a s => decimal (acc * 10 + (Z.of_nat (nat_of_ascii a) - 48)) s | EmptyString => acc end.

Lemma parse_digits_decimal s : forall acc n, parse_digits acc s = Some n -> n = decimal acc s.
Proof.
  induction s as [|a s IH]; intros acc n; cbn [parse_digits decimal]; [by intros [= ->]|].
  destruct (_ && _); [|done]. destruct (_ <=? _); [|done]. apply IH.
Qed.

Lemma digit_cases n : (n < 10)%N -> n ∈ [0; 1; 2; 3; 4; 5; 6; 7; 8; 9]%N.
Proof. intros Hn. rewrite !elem_of_cons. lia. Qed.
Lemma digit_char n : (n < 10)%N -> Z.of_nat (nat_of_ascii (pretty_N_char n)) - 48 = Z.of_N n.
Proof. intros Hn%digit_cases. rewrite !elem_of_cons in Hn. repeat (destruct Hn as [->|Hn]; [done|]). by apply elem_of_nil in Hn. Qed.

Lemma decimal_pretty x : forall s, decimal 0 (pretty_N_go x s) = decimal (Z.of_N x) s.
Proof.
  induction (N.lt_wf_0 x) as [x _ IH]; intros s. destruct (decide (0 < x)%N) as [Hx|Hx].
  - rewrite pretty_N_go_step, IH by (done || by apply N.div_lt). cbn [decimal]. rewrite digit_char by (by apply N.mod_lt). f_equal.
    pose proof (N.div_mod x 10 ltac:(done)). lia.
  - assert (x = 0)%N as -> by lia. by rewrite pretty_N_go_0.
Qed.

Lemma pretty_first x : forall s, match s with String "+" _ => False | _ => True end -> match pretty_N_go x s with String "+" _ => False | _ => True end.
Proof.
  induction (N.lt_wf_0 x) as [x _ IH]; intros s Hs. destruct (decide (0 < x)%N) as [Hx|Hx].
  - rewrite pretty_N_go_step by done. apply IH; [by apply N.div_lt|]. pose proof (digit_cases (x `mod` 10) ltac:(by apply N.mod_lt)) as Hd.
    rewrite !elem_of_cons in Hd. repeat (destruct Hd as [->|Hd]; [done|]). by apply elem_of_nil in Hd.
  - assert (x = 0)%N as -> by lia. by rewrite pretty_N_go_0.
Qed.

(** A number that is read is the one that was written. *)
Lemma parse_written n m : 0 <= n -> parse_u64 (u64_to_string n) = Some m -> m = n.
Proof.
  intros Hn. unfold u64_to_string, pretty, pretty_N, parse_u64. destruct (decide (Z.to_N n = 0%N)) as [E|_].
  { intros Hp. assert (m = 0) as -> by (vm_compute in Hp; congruence). lia. }
  pose proof (pretty_first (Z.to_N n) "" I) as Hf. pose proof (decimal_pretty (Z.to_N n) "") as Hd.
  destruct (pretty_N_go (Z.to_N n) "") as [|a s]; [done|]. cbn [decimal] in Hd.
  destruct a as [[] [] [] [] [] [] [] []]; try done; cbn [String.eqb]; intros Hp%parse_digits_decimal; rewrite Hp; cbn [decimal]; lia.
Qed.

(** ** Commits were checked when they were made *)

(** Every run of a program ends. *)
Lemma runs_end user {R} (post : list event -> R -> Prop) (p : prog R) past :
  runs user post p past -> exists evs r, post (past ++ evs) r.
Proof.
  revert past. induction p as [r|A c k IH]; intros past; cbn [runs]; [by exists [], r; rewrite app_nil_r|].
  intros [_ Hk]. assert (exists a : A, told ∅ (event_of c a)) as [a Ha].
  { destruct c; [by exists (Err DatabaseError)..| | | |]; [by exists (HttpFailed false)|by exists 0|by exists None|by exists ""]. }
  destruct (IH a (past ++ [event_of c a])) as (evs & r & Hr); [by apply Hk; exists ∅|]. exists (event_of c a :: evs), r. by rewrite <- app_assoc in Hr.
Qed.

Section Hub.
Context `{HexCrate, Sha2, Base64, TokenJson, Ed25519, CommitJsonLaws}.
Context (cas_url : string) (signer : XetSigner).
#[local] Abbreviation hub_step := (HubSystem.step cas_url signer).

(** The changes of a commit are what some operations asked for, and were
    checked by the calls before it. *)
Definition checked (evs : list event) (rev : Revision) (changes : list FileTreeChange) : Prop :=
  exists wt it ops, Forall2 (change_of cas_url (rv_repo_id rev) (rv_commit_id rev) wt it evs) ops changes.

Lemma quiet_no_commit past evs rev changes parent u : quiet (past ++ EvCommit rev changes parent (Ok u) :: evs) -> False.
Proof. intros [_ Hq%Forall_inv]%Forall_app. done. Qed.

Lemma contract_commit rq past evs rev changes parent u rs :
  contract cas_url signer rq (past ++ EvCommit rev changes parent (Ok u) :: evs) rs -> checked past rev changes.
Proof.
  assert (forall l, (forall ev, ev ∈ l -> match ev with EvCommit _ _ _ _ => False | _ => True end) -> past ++ EvCommit rev changes parent (Ok u) :: evs <> l) as Hnot.
  { intros l Hl <-. apply (Hl (EvCommit rev changes parent (Ok u))), elem_of_app. right. by left. }
  assert (forall a : event, match a with EvCommit _ _ _ _ => False | _ => True end -> past ++ EvCommit rev changes parent (Ok u) :: evs <> [a]) as Hone.
  { intros a Ha. apply Hnot. by intros ev ->%list_elem_of_singleton. }
  assert (forall a b : event, match a with EvCommit _ _ _ _ => False | _ => True end -> match b with EvCommit _ _ _ _ => False | _ => True end ->
    past ++ EvCommit rev changes parent (Ok u) :: evs <> [a; b]) as Htwo.
  { intros a b Ha Hb. apply Hnot. intros ev [-> | ->%list_elem_of_singleton]%elem_of_cons; done. }
  destruct rq, rs; cbn [contract]; try done.
  - unfold commit_contract. destruct r as [resp|e|]; [|by intros ?%quiet_no_commit..].
    intros (before & repo & header & ops & changes' & timestamp & wt & it & E & Hq & _ & _ & _ & _ & _ & Hc & _). cbn zeta in E.
    destruct evs as [|ev evs _] using rev_ind.
    + apply app_inj_tail in E as [<- [= -> -> _ _]]. by exists wt, it, ops.
    + exfalso. rewrite app_comm_cons, app_assoc in E. apply app_inj_tail in E as [<- _]. by apply quiet_no_commit in Hq.
  - destruct r as [repo|e|]; [|by intros ?%quiet_no_commit..]. intros (_ & _ & [E|E]); [by apply Hone in E|by apply Htwo in E].
  - destruct r as [repo|e|]; [|by intros ?%quiet_no_commit..]. intros (_ & _ & [E|E]); [by apply Hone in E|by apply Htwo in E].
  - by intros [?%quiet_no_commit _].
  - destruct r as [[]|e|]; [|by intros ?%quiet_no_commit..]. intros (repo & E & _). by apply Htwo in E.
  - by intros [?%quiet_no_commit _].
  - by intros [?%quiet_no_commit _].
  - by intros [?%quiet_no_commit _].
  - by intros [?%quiet_no_commit _].
Qed.

(** The commits of a log were checked by the calls of their own requests. *)
Lemma commits_checked s : reachable cas_url signer s -> forall l1 i rev changes parent u l2,
  HubSystem.sys_log s = l1 ++ (i, EvCommit rev changes parent (Ok u)) :: l2 -> checked (own i l1) rev changes.
Proof.
  unfold reachable. revert s. apply (rtc_ind_r (fun s => forall l1 i rev changes parent u l2,
    HubSystem.sys_log s = l1 ++ (i, EvCommit rev changes parent (Ok u)) :: l2 -> checked (own i l1) rev changes)).
  { intros l1 i rev changes parent u l2 E. by destruct l1. }
  intros s s' Hs Hstep IH l1 i rev changes parent u l2. pose proof (system_reachable _ _ _ Hs) as Hok.
  destruct Hstep as [d ts log rq|d ts log j rq A c k past d' a Hj Hp]; [exact (IH l1 i rev changes parent u l2)|].
  cbn [HubSystem.sys_log]. intros [(-> & [= -> E] & _)|(l & _ & E)]%log_snoc_cases; [|by eapply IH].
  destruct Hok as [Hstore _ Hthread _ _]. destruct (Hthread _ _ Hj) as [Hpast [Hc Hk]]. cbn [HubSystem.th_events HubSystem.th_request HubSystem.th_prog HubSystem.sys_log] in Hpast, Hk.
  destruct (performs_told c d d' _ a Hstore (proj1 Hc) Hp) as [Ht _].
  destruct (runs_end _ _ _ _ (Hk a ltac:(by eexists))) as (evs & r & Hcontract). rewrite <- E, <- app_assoc in Hcontract. subst past.
  by apply contract_commit in Hcontract.
Qed.

(** A commit of a repository is one of the log. *)
Lemma logged_commit evs id r cm : hub_of evs !! id = Some r -> cm ∈ ar_commits r ->
  exists l1 parent u l2, evs = l1 ++ EvCommit (cm_revision cm) (cm_changes cm) parent (Ok u) :: l2.
Proof.
  revert id r. induction evs as [|ev evs IH] using rev_ind; intros id r; [done|]. rewrite hub_of_snoc. intros Hr Hcm.
  assert ((exists id r, hub_of evs !! id = Some r /\ cm ∈ ar_commits r) ->
    exists l1 parent u l2, evs ++ [ev] = l1 ++ EvCommit (cm_revision cm) (cm_changes cm) parent (Ok u) :: l2) as Hold.
  { intros (id' & r' & Hr' & Hcm'). destruct (IH _ _ Hr' Hcm') as (l1 & parent & u & l2 & ->). exists l1, parent, u, (l2 ++ [ev]). by rewrite <- app_assoc. }
  destruct (change_cases ev) as [ns name type private repo|id' u|rev changes parent u|ev Hq]; cbn [record] in Hr.
  - apply lookup_insert_Some in Hr as [[_ <-]|[_ Hr]]; [by apply elem_of_nil in Hcm|eauto].
  - apply lookup_delete_Some in Hr as [_ Hr]. eauto.
  - destruct (hub_of evs !! rv_repo_id rev) as [r0|] eqn:E0; [|eauto]. unfold committed in Hr.
    apply lookup_insert_Some in Hr as [[_ <-]|[_ Hr]]; [|eauto]. cbn [ar_commits] in Hcm.
    apply elem_of_app in Hcm as [Hcm | ->%list_elem_of_singleton]; [eauto|]. by exists evs, parent, u, [].
  - rewrite record_quiet in Hr by done. eauto.
Qed.
End Hub.

(** ** The two servers together *)
Section Together.
Context `{Blake3Laws, HexLaws, !HexDigitsLaw, Sha2Laws, Lz4Laws, GearLaws, FileReadsLaws, ReaderStreamLaws, StoreLaws}.
Context `{Base64Laws, TokenJsonLaws, Ed25519Laws, CommitJsonLaws}.
Context (conversion : ConversionConfig) (cas_url : string) (signer : XetSigner).
#[local] Abbreviation hub_step := (HubSystem.step cas_url signer).
#[local] Abbreviation cas_step := (CasServer.step conversion).

(** What happens: a request arrives at the Hub, one of the Hub's requests makes
    a call, or the CAS server makes a step. *)
Inductive moment :=
| Arrived (i : nat)
| Happened (i : nat) (ev : event)
| CasStep (before after : CasServer.system).
Record deployment := mkDeployment { dp_hub : HubSystem.system; dp_cas : CasServer.system; dp_trace : list moment }.

Definition by_request (i : nat) (m : moment) : bool := match m with Arrived j | Happened j _ => (j =? i)%nat | CasStep _ _ => false end.

(** [since] is what happened since the last moment of a request of the Hub. *)
Definition since_last (i : nat) (trace since : list moment) : Prop :=
  exists before m, trace = before ++ m :: since /\ by_request i m = true /\ Forall (fun m => by_request i m = false) since.

(** The CAS server has answered its [j]th request, which has this method and
    URL, with the headers its handler set before those of the framework. *)
Definition cas_answer (c : CasServer.system) (j : nat) (method url : string) (answer : http_answer) : Prop :=
  match answer with
  | HttpFailed _ => False
  | HttpResponse status headers _ _ =>
      exists path input req th r extra, url = cas_url +:+ path /\ cas_request input method path = Some req /\
        CasServer.sys_requests c !! j = Some (req, th) /\ CasServer.th_prog th = Respond r /\ rs_status r = status /\
        headers = own_headers (rs_body r) ++ extra
  end.

(** The request was received, and then answered, among these moments. *)
Definition exchanged (since : list moment) (method url : string) (answer : http_answer) : Prop :=
  exists before c1 c2 after c3 c4 entry, since = before ++ CasStep c1 c2 :: after /\
    CasServer.sys_requests c2 = CasServer.sys_requests c1 ++ [entry] /\ CasStep c3 c4 ∈ CasStep c1 c2 :: after /\
    cas_answer c4 (length (CasServer.sys_requests c1)) method url answer.

(** What may come back for a request: nothing, a refusal by whatever is on the
    way, or an answer of the CAS server. *)
Definition refused (answer : http_answer) : Prop :=
  match answer with HttpFailed _ => True | HttpResponse status _ _ _ => is_success status = false end.
Definition answered (trace : list moment) (i : nat) (ev : event) : Prop :=
  match ev with
  | EvSend rq answer => refused answer \/ exists since, since_last i trace since /\ exchanged since (hr_method rq) (hr_url rq) answer
  | _ => True
  end.

Inductive deployed_step : deployment -> deployment -> Prop :=
| step_cas h c c' trace : cas_step c c' -> deployed_step (mkDeployment h c trace) (mkDeployment h c' (trace ++ [CasStep c c']))
| step_hub_arrival h h' c trace :
    hub_step h h' -> HubSystem.sys_log h' = HubSystem.sys_log h ->
    deployed_step (mkDeployment h c trace) (mkDeployment h' c (trace ++ [Arrived (length (HubSystem.sys_threads h))]))
| step_hub_call h h' c trace i ev :
    hub_step h h' -> HubSystem.sys_log h' = HubSystem.sys_log h ++ [(i, ev)] -> answered trace i ev ->
    deployed_step (mkDeployment h c trace) (mkDeployment h' c (trace ++ [Happened i ev])).

(** Both servers before anything happens. *)
Definition deployed (st : store) : deployment := mkDeployment initial (CasServer.started st) [].

Definition logged (m : moment) : option (nat * event) := match m with Happened i ev => Some (i, ev) | _ => None end.

Record deployed_ok (st : store) (d : deployment) : Prop := {
  dk_hub : reachable cas_url signer (dp_hub d);
  dk_cas : rtc cas_step (CasServer.started st) (dp_cas d);
  dk_states : forall c c', CasStep c c' ∈ dp_trace d -> rtc cas_step (CasServer.started st) c';
  dk_log : omap logged (dp_trace d) = HubSystem.sys_log (dp_hub d);
  dk_arrived : forall i, is_Some (HubSystem.sys_threads (dp_hub d) !! i) -> Arrived i ∈ dp_trace d;
  dk_order : forall l1 i ev l2, dp_trace d = l1 ++ Happened i ev :: l2 -> Arrived i ∈ l1 /\ answered l1 i ev;
}.

(** What a step of the Hub does to its requests and its log. *)
Lemma hub_step_cases h h' : hub_step h h' ->
  (HubSystem.sys_log h' = HubSystem.sys_log h /\ exists t, HubSystem.sys_threads h' = HubSystem.sys_threads h ++ [t]) \/
  exists i ev t, HubSystem.sys_log h' = HubSystem.sys_log h ++ [(i, ev)] /\ is_Some (HubSystem.sys_threads h !! i) /\
    HubSystem.sys_threads h' = <[i := t]> (HubSystem.sys_threads h).
Proof.
  intros [d ts log rq|d ts log i rq A c k past d' a Hi Hp]; [left; split; [done|by eexists]|right].
  eexists i, _, _. split; [done|]. split; [by eexists|done].
Qed.

Lemma trace_snoc (trace l1 l2 : list moment) x y :
  trace ++ [y] = l1 ++ x :: l2 -> (l1 = trace /\ x = y) \/ exists l, trace = l1 ++ x :: l.
Proof. intros [(-> & -> & _)|(l & _ & ->)]%log_snoc_cases; [by left|right; by eexists]. Qed.

Lemma deployed_inv st d : rtc deployed_step (deployed st) d -> deployed_ok st d.
Proof.
  revert d. apply (rtc_ind_r (deployed_ok st)).
  { split; cbn; [constructor|constructor|by intros c c' ?%elem_of_nil|done|by intros i [t Ht]|]. intros l1 i ev l2 E. by destruct l1. }
  intros d d' _ Hstep [Hhub Hcas Hstates Hlog Harr Horder].
  destruct Hstep as [h c c' trace Hc|h h' c trace Hh Hl|h h' c trace i ev Hh Hl Hans]; cbn [dp_hub dp_cas dp_trace] in *.
  - split; cbn [dp_hub dp_cas dp_trace]; [done|by eapply rtc_r| | | |].
    + intros c1 c2 [Hin|[= -> ->]%list_elem_of_singleton]%elem_of_app; [by eapply Hstates|by eapply rtc_r].
    + by rewrite omap_app, Hlog, app_nil_r.
    + intros j Hj. apply elem_of_app. left. by apply Harr.
    + intros l1 j ev l2 [[_ [=]]|[l E]]%trace_snoc. by eapply Horder.
  - destruct (hub_step_cases h h' Hh) as [[_ [t Ht]]|(j & ev & t & Hl' & _)]; [|rewrite Hl in Hl'; by apply (f_equal length) in Hl'; rewrite length_app in Hl'; cbn in Hl'; lia].
    split; cbn [dp_hub dp_cas dp_trace]; [by eapply rtc_r|done| | | |].
    + intros c1 c2 [Hin|Hin%list_elem_of_singleton]%elem_of_app; [by eapply Hstates|done].
    + by rewrite omap_app, Hlog, app_nil_r.
    + intros j Hj. apply elem_of_app. rewrite Ht in Hj. destruct Hj as [t' [Hj|[Hle Hj]]%lookup_app_Some]; [left; apply Harr; by eexists|right].
      apply list_lookup_singleton_Some in Hj as [Hj _]. apply list_elem_of_singleton. f_equal. lia.
    + intros l1 j ev l2 [[_ [=]]|[l E]]%trace_snoc. by eapply Horder.
  - destruct (hub_step_cases h h' Hh) as [[Hl' _]|(j & ev' & t & Hl' & Hj & Ht)]; [rewrite Hl in Hl'; by apply (f_equal length) in Hl'; rewrite length_app in Hl'; cbn in Hl'; lia|].
    rewrite Hl in Hl'. apply app_inj_tail in Hl' as [_ [= <- <-]].
    split; cbn [dp_hub dp_cas dp_trace]; [by eapply rtc_r|done| | | |].
    + intros c1 c2 [Hin|Hin%list_elem_of_singleton]%elem_of_app; [by eapply Hstates|done].
    + by rewrite omap_app, Hlog, Hl.
    + intros k Hk. apply elem_of_app. left. apply Harr. rewrite Ht in Hk. by apply list_lookup_insert_is_Some in Hk.
    + intros l1 k ev2 l2 [[-> [= -> ->]]|[l E]]%trace_snoc; [split; [by apply Harr|done]|by eapply Horder].
Qed.

(** A successful answer is one the CAS server gave while the Hub's request was
    under way. *)
Lemma answer_in_time st d l1 i rq answer l2 :
  deployed_ok st d -> dp_trace d = l1 ++ Happened i (EvSend rq answer) :: l2 -> ~ refused answer ->
  exists before middle c c' after j, l1 = before ++ Arrived i :: middle ++ CasStep c c' :: after /\
    rtc cas_step (CasServer.started st) c' /\ cas_answer c' j (hr_method rq) (hr_url rq) answer.
Proof.
  intros [_ _ Hstates _ _ Horder] E Hok. destruct (Horder _ _ _ _ E) as [_ [Href|(since & (b & m & E1 & Hm & _) & Hx)]]; [done|].
  destruct Hx as (b1 & c1 & c2 & a1 & c3 & c4 & entry & Es & _ & Hin & Hans).
  apply list_elem_of_split in Hin as (x & y & Exy). rewrite Exy in Es.
  assert (exists b' mid, b ++ [m] = b' ++ Arrived i :: mid) as (b' & mid & Eb).
  { destruct m as [j|j ev|]; [| |done]; apply Nat.eqb_eq in Hm; subst j; [by exists b, []|].
    rewrite E1, <- app_assoc in E. cbn [app] in E. destruct (Horder _ _ _ _ E) as [(b' & mid & ->)%list_elem_of_split _].
    exists b', (mid ++ [Happened i ev]). by rewrite <- app_assoc. }
  exists b', (mid ++ b1 ++ x), c3, c4, y, (length (CasServer.sys_requests c1)). split; [|split; [|done]].
  - replace l1 with ((b ++ [m]) ++ b1 ++ x ++ CasStep c3 c4 :: y) by (by rewrite E1, Es, <- app_assoc).
    rewrite Eb, <- app_assoc. cbn [app]. by rewrite <- !app_assoc.
  - apply (Hstates c3). rewrite E, E1, Es. rewrite !elem_of_app. left. right. apply elem_of_cons. right. rewrite !elem_of_app. right. right. by left.
Qed.

Lemma hexdigits_plain oid : all_hexdigits oid = true -> oid <> "" -> plain oid.
Proof. intros Hd Hne. split; [done|]. by eapply (string_forallb_contains is_hexdigit). Qed.

Lemma append_inj (a b c : string) : a +:+ b = a +:+ c -> b = c.
Proof. apply string_app_inj_l. Qed.

(** What the answer to HEAD says, as the Hub reads it. *)
Lemma head_answer_true st c j rq_oid token answer state :
  max_conversion_size conversion <= DEFAULT_MAX_CONVERSION_SIZE -> @config_scheme ConversionError conversion <> Panic ->
  store_genuine st -> rtc cas_step (CasServer.started st) c -> all_hexdigits rq_oid = true -> rq_oid <> "" ->
  cas_answer c j (hr_method (head_request cas_url rq_oid token)) (hr_url (head_request cas_url rq_oid token)) answer -> head_blob_answer rq_oid answer = Ok state ->
  available (CasServer.sys_server c) rq_oid /\ exists h, from_hex rq_oid = Ok h /\ size_true h (bs_size state).
Proof.
  intros Hmax Hscheme Hg Hr Hd Hne Hans Hread. destruct answer as [timeout|status headers cl pieces]; [done|]. cbn [head_blob_answer] in Hread.
  destruct (Z.eqb_spec status 200) as [->|]; [|by destruct (status =? 404)]. destruct Hans as (path & input & req & th & r & extra & Hurl & Hreq & Hi & Hth & Hst & Hh).
  cbn [hr_url head_request] in Hurl. apply append_inj in Hurl. subst path.
  pose proof (route_cas input (CtHeadBlob rq_oid) (hexdigits_plain _ Hd Hne)) as Hroute. cbn [ct_request] in Hroute.
  pose proof (eq_trans (eq_sym Hreq) Hroute) as [= ->].
  assert (succeeded r = true) as Hok by (unfold succeeded; by rewrite Hst).
  pose proof (answered_true conversion st c j _ th r Hmax Hscheme Hg Hr Hi Hth Hok) as (st' & file_id & n & h & Hb & Hf & Hn & Hav).
  split; [done|]. exists h. split; [done|]. rewrite Hb in Hh. subst headers.
  assert (parse_blob_size (own_headers (HeadBody st' file_id n) ++ extra) = ok_or (parse_u64 (u64_to_string n)) HeCasError) as Ep by (by destruct file_id).
  rewrite Ep in Hread. destruct (parse_u64 (u64_to_string n)) as [m|] eqn:Em; [|done]. cbn [ok_or] in Hread. injection Hread as <-. cbn [bs_size].
  destruct Hn as (raws & Hraws & ->). apply parse_written in Em as ->; [by exists raws|unfold len; lia].
Qed.

(** A successful answer to an upload. *)
Lemma upload_answer_true st c j oid data token status headers cl pieces :
  max_conversion_size conversion <= DEFAULT_MAX_CONVERSION_SIZE -> @config_scheme ConversionError conversion <> Panic ->
  store_genuine st -> rtc cas_step (CasServer.started st) c -> all_hexdigits oid = true -> oid <> "" ->
  cas_answer c j (hr_method (upload_request cas_url oid data token)) (hr_url (upload_request cas_url oid data token)) (HttpResponse status headers cl pieces) -> is_success status = true ->
  available (CasServer.sys_server c) oid.
Proof.
  intros Hmax Hscheme Hg Hr Hd Hne Hans Hok. destruct Hans as (path & input & req & th & r & extra & Hurl & Hreq & Hi & Hth & <- & Hh).
  cbn [hr_url upload_request] in Hurl. apply append_inj in Hurl. subst path.
  pose proof (route_cas input (CtUploadLfs oid) (hexdigits_plain _ Hd Hne)) as Hroute. cbn [ct_request] in Hroute.
  pose proof (eq_trans (eq_sym Hreq) Hroute) as [= ->].
  by destruct (answered_true conversion st c j _ th r Hmax Hscheme Hg Hr Hi Hth Hok) as [_ Hav].
Qed.

Lemma logged_split trace before i ev after : omap logged trace = before ++ (i, ev) :: after ->
  exists l1 l2, trace = l1 ++ Happened i ev :: l2 /\ omap logged l1 = before.
Proof.
  revert before. induction trace as [|m trace IH]; intros before; cbn; [by destruct before|].
  destruct (logged m) as [entry|] eqn:Em.
  - destruct before as [|entry' before]; cbn.
    + intros [= -> _]. destruct m as [|j ev'|]; [done| |done]. injection Em as -> ->. by exists [], trace.
    + intros [= -> E]. destruct (IH _ E) as (l1 & l2 & -> & <-). exists (m :: l1), l2. cbn. by rewrite Em.
  - intros E. destruct (IH _ E) as (l1 & l2 & -> & <-). exists (m :: l1), l2. cbn. by rewrite Em.
Qed.

(** What a checked change says about the file it leaves: the call that checked
    it was among those of the request. *)
Lemma checked_file st evs rev changes e :
  max_conversion_size conversion <= DEFAULT_MAX_CONVERSION_SIZE -> @config_scheme ConversionError conversion <> Panic -> store_genuine st ->
  checked cas_url evs rev changes -> Upsert e ∈ changes ->
  exists rq answer, EvSend rq answer ∈ evs /\ ~ refused answer /\
    forall c j, rtc cas_step (CasServer.started st) c -> cas_answer c j (hr_method rq) (hr_url rq) answer ->
      exists content, available (CasServer.sys_server c) (fe_cas_hash e) /\ names (fe_cas_hash e) content /\ fe_size e = len content.
Proof.
  intros Hmax Hscheme Hg (wt & it & ops & Hchanges) Hin.
  apply list_elem_of_lookup in Hin as [n Hn]. destruct (Forall2_lookup_r _ _ _ _ _ Hchanges Hn) as (op & _ & Hop). destruct op as [f|l|del]; cbn [change_of] in Hop.
  - destruct Hop as (content & _ & _ & _ & (status & headers & cl & pieces & Hev & Hok) & [= ->]). cbn [fe_cas_hash fe_size].
    assert (oid_ok (hex_encode (sha256_digest content))) as [Hdg Hne].
    { split; [eapply string_forallb_impl; [apply is_hexdigit_lower|apply hex_encode_digits]|]. intros E.
      pose proof (hex_encode_length (sha256_digest content)) as Hl. by rewrite E, sha256_length in Hl. }
    eexists _, _. split; [exact Hev|]. split; [cbn; congruence|]. intros c j Hr Hans. exists content.
    split; [by eapply (upload_answer_true st c j); [..|exact Hr|done|done|exact Hans|done]|]. split; [apply oid_names; by right|done].
  - destruct Hop as (_ & Hlen & Hdg & _ & (answer & state & Hev & Hread & Hsize) & [= ->]). cbn [fe_cas_hash fe_size].
    assert (lo_oid l <> "") as Hne by (intros E; by rewrite E in Hlen). eexists _, answer. split; [exact Hev|]. split.
    { destruct answer as [|status]; cbn in Hread |- *; [done|]. by destruct (Z.eqb_spec status 200) as [->|]; [|destruct (status =? 404)]. }
    intros c j Hr Hans. destruct (head_answer_true st c j _ _ _ _ Hmax Hscheme Hg Hr Hdg Hne Hans Hread) as (Hav & h & Hf & raws & Hraws & Hs).
    exists (concat raws). split; [done|]. split; [by exists h, raws|congruence].
  - by destruct Hop as [_ [=]].
Qed.
End Together.

Lemma own_log_split {A} (log : list (nat * A)) l1 ev l2 : map snd log = l1 ++ ev :: l2 -> exists before i after, log = before ++ (i, ev) :: after.
Proof.
  intros (before & rest & -> & <- & E)%map_eq_app. destruct rest as [|[i x] after]; [done|]. injection E as -> <-. by exists before, i, after.
Qed.

(** C1: Whatever is committed at the Hub was stored at the CAS server while the
    commit was made.  A Hub and a CAS server on a genuine storage, whatever
    requests to both, conversions and restarts are interleaved, and whatever is
    lost or refused between them: for every file of every commit that is in a
    history of the Hub there is a content with the hash and the size that the
    commit records, and at a moment between the arrival of the request that made
    the commit and the commit itself, that object was in the CAS server's
    storage or in its index. *)
Theorem committed_files_are_stored `{Blake3Laws, HexLaws, !HexDigitsLaw, Sha2Laws, Lz4Laws, GearLaws, FileReadsLaws, ReaderStreamLaws, StoreLaws}
    `{Base64Laws, TokenJsonLaws, Ed25519Laws, CommitJsonLaws} conversion cas_url signer st d id r cm e :
  max_conversion_size conversion <= DEFAULT_MAX_CONVERSION_SIZE -> @config_scheme ConversionError conversion <> Panic -> store_genuine st ->
  rtc (deployed_step conversion cas_url signer) (deployed st) d ->
  histories (dp_hub d) !! id = Some r -> cm ∈ ar_commits r -> Upsert e ∈ cm_changes cm ->
  exists past i serving c c' checking parent u future content,
    dp_trace d = past ++ Arrived i :: serving ++ CasStep c c' :: checking ++
      Happened i (EvCommit (cm_revision cm) (cm_changes cm) parent (Ok u)) :: future /\
    rtc (CasServer.step conversion) (CasServer.started st) c' /\ available (CasServer.sys_server c') (fe_cas_hash e) /\
    names (fe_cas_hash e) content /\ fe_size e = len content.
Proof.
  intros Hmax Hscheme Hg Hd Hr Hcm He. pose proof (deployed_inv _ _ _ _ _ Hd) as Hok.
  destruct (logged_commit _ _ _ _ Hr Hcm) as (l1 & parent & u & l2 & E). apply own_log_split in E as (before & i & after & E).
  pose proof (commits_checked cas_url signer _ (dk_hub _ _ _ _ _ Hok) _ _ _ _ _ _ _ E) as Hc.
  destruct (checked_file conversion cas_url st _ _ _ e Hmax Hscheme Hg Hc He) as (rq & answer & Hsend & Hnref & Hgives).
  rewrite <- (dk_log _ _ _ _ _ Hok) in E. apply logged_split in E as (t1 & t2 & Et & Eb). apply own_elem in Hsend.
  assert (Happened i (EvSend rq answer) ∈ t1) as (s1 & s2 & ->)%list_elem_of_split.
  { rewrite <- Eb in Hsend. apply list_elem_of_omap in Hsend as (m & Hm & Em). destruct m as [|j ev|]; [done| |done]. by injection Em as -> ->. }
  pose proof Et as Et'. rewrite <- app_assoc in Et'. cbn [app] in Et'.
  destruct (answer_in_time conversion cas_url signer st d _ _ _ _ _ Hok Et' Hnref) as (past & serving & c & c' & checking & j & -> & Hreach & Hans).
  destruct (Hgives c' j Hreach Hans) as (content & Hav & Hn & Hs).
  exists past, i, serving, c, c', (checking ++ Happened i (EvSend rq answer) :: s2), parent, u, t2, content.
  split; [|done]. rewrite Et. repeat (rewrite <- app_assoc; cbn [app]). reflexivity.
Qed.

(** ** A run of both *)

(** The calls over HTTP in a log, with what came back. *)
Definition sends (log : list (nat * event)) : list (string * string * http_answer) :=
  omap (fun entry => match entry.2 with EvSend rq answer => Some (hr_method rq, hr_url rq, answer) | _ => None end) log.

Section Script.
Context `{ObjectStore, Blake3, HexCrate, Sha2, Lz4, GearHash, FileReads, ReaderStream, Base64, TokenJson, Ed25519, !CommitJson}.
Context (conversion : ConversionConfig) (cas_url : string) (signer : XetSigner).
#[local] Abbreviation deployed_step := (deployed_step conversion cas_url signer).

(** The CAS server receives a request, and has answered it in the end. *)
Definition serves (c : CasServer.system) (send : string * string * http_answer) (c' : CasServer.system) : Prop :=
  let '(method, url, answer) := send in
  exists c1 c2 entry, rtc (CasServer.step conversion) c c1 /\ CasServer.step conversion c1 c2 /\ rtc (CasServer.step conversion) c2 c' /\
    CasServer.sys_requests c2 = CasServer.sys_requests c1 ++ [entry] /\ cas_answer cas_url c' (length (CasServer.sys_requests c1)) method url answer.

(** The CAS server serves one call after the other. *)
Inductive script : CasServer.system -> list (string * string * http_answer) -> CasServer.system -> Prop :=
| script_done c : script c [] c
| script_send c send c1 rest c' : serves c send c1 -> script c1 rest c' -> script c (send :: rest) c'.

Lemma cas_goes_on h c c' trace : rtc (CasServer.step conversion) c c' ->
  exists steps, rtc deployed_step (mkDeployment h c trace) (mkDeployment h c' (trace ++ steps)) /\
    Forall (fun m => forall i, by_request i m = false) steps /\ (steps = [] /\ c = c' \/ exists b c0, steps = b ++ [CasStep c0 c']).
Proof.
  intros Hr. revert trace. induction Hr as [c|c c1 c2 Hs _ IH]; intros trace.
  - exists []. rewrite app_nil_r. split; [constructor|]. split; [constructor|by left].
  - destruct (IH (trace ++ [CasStep c c1])) as (steps & Hsteps & Hf & Hlast). exists (CasStep c c1 :: steps). split; [|split].
    + eapply rtc_l; [by apply step_cas|]. by rewrite <- app_assoc in Hsteps.
    + by constructor.
    + right. destruct Hlast as [[-> ->]|(b & c0 & ->)]; [by exists [], c|by exists (CasStep c c1 :: b), c0].
Qed.

(** A request that has arrived has a last moment. *)
Lemma last_moment i trace : Arrived i ∈ trace -> exists since, since_last i trace since.
Proof.
  induction trace as [|m trace IH] using rev_ind; intros Hin; [by apply elem_of_nil in Hin|].
  destruct (by_request i m) eqn:Em; [by exists [], trace, m|].
  apply elem_of_app in Hin as [Hin|Hin%list_elem_of_singleton]; [|subst m; cbn in Em; by rewrite Nat.eqb_refl in Em].
  destruct (IH Hin) as (since & b & m' & -> & Hm' & Hf). exists (since ++ [m]), b, m'. rewrite <- app_assoc. split; [done|]. split; [done|].
  apply Forall_app. split; [done|by constructor].
Qed.

Lemma served_in_time h c c' trace i send : serves c send c' -> Arrived i ∈ trace ->
  exists steps, rtc deployed_step (mkDeployment h c trace) (mkDeployment h c' (trace ++ steps)) /\
    exists since, since_last i (trace ++ steps) since /\ exchanged cas_url since send.1.1 send.1.2 send.2.
Proof.
  destruct send as [[method url] answer]. intros (c1 & c2 & entry & H1' & H2' & H3' & He & Hans) Harr.
  destruct (cas_goes_on h c c1 trace H1') as (s1 & R1 & F1 & _).
  destruct (cas_goes_on h c2 c' (trace ++ s1 ++ [CasStep c1 c2]) H3') as (s3 & R3 & F3 & Hlast).
  exists (s1 ++ CasStep c1 c2 :: s3). split.
  - etrans; [exact R1|]. eapply rtc_l; [apply step_cas; exact H2'|]. rewrite <- app_assoc. rewrite <- !app_assoc in R3. exact R3.
  - destruct (last_moment i trace Harr) as (since & b & m & -> & Hm & Hf). exists (since ++ s1 ++ CasStep c1 c2 :: s3). split.
    + exists b, m. rewrite <- app_assoc. split; [done|]. split; [done|]. apply Forall_app. split; [done|]. apply Forall_app.
      split; [by eapply Forall_impl; [exact F1|]; intros x Hx; apply Hx|]. constructor; [done|]. by eapply Forall_impl; [exact F3|]; intros x Hx; apply Hx.
    + destruct Hlast as [[-> ->]|(b3 & c3 & ->)].
      * exists (since ++ s1), c1, c', [], c1, c', entry. rewrite <- app_assoc. split; [done|]. split; [done|]. split; [by left|done].
      * exists (since ++ s1), c1, c2, (b3 ++ [CasStep c3 c']), c3, c', entry. rewrite <- app_assoc. split; [done|]. split; [done|].
        split; [|done]. right. apply elem_of_app. right. by left.
Qed.

Lemma hub_log_grows h h' : rtc (HubSystem.step cas_url signer) h h' -> exists new, HubSystem.sys_log h' = HubSystem.sys_log h ++ new.
Proof.
  induction 1 as [h|h h1 h' Hs _ [new ->]]; [exists []; by rewrite app_nil_r|].
  destruct (hub_step_cases cas_url signer h h1 Hs) as [[-> _]|(i & ev & t & -> & _)]; [by exists new|]. exists ((i, ev) :: new). by rewrite <- app_assoc.
Qed.

(** A run of the Hub, and a CAS server that serves its calls as they are made. *)
Lemma joint_run h h' : rtc (HubSystem.step cas_url signer) h h' -> forall c trace calls c',
  (forall i, is_Some (HubSystem.sys_threads h !! i) -> Arrived i ∈ trace) ->
  sends (HubSystem.sys_log h') = sends (HubSystem.sys_log h) ++ calls -> script c calls c' ->
  exists trace', rtc deployed_step (mkDeployment h c trace) (mkDeployment h' c' trace').
Proof.
  induction 1 as [h|h h1 h' Hs Hrest IH]; intros c trace calls c' Harr Hcalls Hscript.
  - assert (calls = []) as -> by (apply (app_inv_head (sends (HubSystem.sys_log h))); by rewrite app_nil_r).
    inversion Hscript; subst. by exists trace.
  - destruct (hub_log_grows h1 h' Hrest) as [new Hnew].
    destruct (hub_step_cases cas_url signer h h1 Hs) as [[Hl [t Ht]]|(i & ev & t & Hl & Hi & Ht)].
    + destruct (IH c (trace ++ [Arrived (length (HubSystem.sys_threads h))]) calls c') as [trace' Hr]; [|by rewrite Hl|done|].
      { intros j. rewrite Ht. intros [t' [Hj|[Hle Hj]]%lookup_app_Some]; apply elem_of_app; [left; apply Harr; by eexists|right].
        apply list_lookup_singleton_Some in Hj as [Hj _]. apply list_elem_of_singleton. f_equal. lia. }
      exists trace'. eapply rtc_l; [by apply step_hub_arrival|exact Hr].
    + assert (forall trace1, (forall x, x ∈ trace -> x ∈ trace1) -> forall j, is_Some (HubSystem.sys_threads h1 !! j) -> Arrived j ∈ trace1 ++ [Happened i ev]) as Harr1.
      { intros trace1 Hsub j Hj. apply elem_of_app. left. apply Hsub, Harr. rewrite Ht in Hj. by apply list_lookup_insert_is_Some in Hj. }
      destruct ev as [| | | | | | |rq answer| | |]; try (
        destruct (IH c (trace ++ [Happened i _]) calls c' (Harr1 trace (fun x Hx => Hx)) ltac:(rewrite Hcalls, Hl; unfold sends; by rewrite omap_app, app_nil_r) Hscript) as [trace' Hr];
        exists trace'; eapply rtc_l; [by eapply step_hub_call|exact Hr]).
      assert (sends (HubSystem.sys_log h1) = sends (HubSystem.sys_log h) ++ [(hr_method rq, hr_url rq, answer)]) as Es
        by (rewrite Hl; unfold sends; by rewrite omap_app).
      rewrite Hnew in Hcalls. assert (calls = (hr_method rq, hr_url rq, answer) :: sends new) as ->.
      { apply (app_inv_head (sends (HubSystem.sys_log h))). rewrite <- Hcalls. unfold sends in *. rewrite omap_app, Es. by rewrite <- app_assoc. }
      inversion Hscript as [|c0 send c1 rest c2 Hserves Hscript']; subst.
      destruct (served_in_time h c c1 trace i _ Hserves (Harr i Hi)) as (steps & Hsteps & Hex).
      destruct (IH c1 ((trace ++ steps) ++ [Happened i (EvSend rq answer)]) (sends new) c') as [trace' Hr]; [|rewrite Hnew; unfold sends; by rewrite omap_app|done|].
      { apply Harr1. intros x Hx. apply elem_of_app. by left. }
      exists trace'. etrans; [exact Hsteps|]. eapply rtc_l; [|exact Hr]. eapply step_hub_call; [done|done|]. by right.
Qed.
End Script.

From S2P Require Import FileSystem LocalStorage.
#[local] Existing Instances Model.blake3 Model.blake3_laws Model.hex Model.hex_laws Model.sha2 Model.sha2_laws Model.lz4 Model.lz4_laws
  Model.gear Model.gear_laws Model.reads Model.reads_laws LocalModel.no_faults LocalModel.storage LocalModel.storage_laws.
#[local] Existing Instances TokenModel.base64 TokenModel.json TokenModel.ed25519.
#[local] Existing Instances TokenModel.base64_laws TokenModel.json_laws TokenModel.ed25519_laws.
#[local] Existing Instances whole_stream whole_stream_laws model_digits sample_json sample_json_laws.

Definition empty_store : @store LocalModel.storage := LocalModel.empty_fs.
Definition hello : list byte := str_bytes "hello".
Definition abc : list byte := str_bytes "abc".
Definition id_of (content : list byte) : string := hex_encode (sha256_digest content).

(** The CAS server's part: it trusts the Hub's key, and is asked for both files. *)
Definition hub_keyring : AuthVerifier := mkVerifier [("key-1", 7 : @VerifyingKey TokenModel.ed25519)] None None.
Definition token_for (r : hub_request) : option string :=
  match hub_sign hub_signer (Some 1700000000) r with Ok (token, _) => Some ("Bearer " +:+ token) | _ => None end.
Definition user_token : option string := token_for (ReqUser "alice" "write" "alice/data" "model" "main").
Definition put_hello : CasApi.request := UploadLfs good_host (id_of hello) [Ok hello].
Definition put_abc : CasApi.request := UploadLfs good_host (id_of abc) [Ok abc].
Definition ask_abc : CasApi.request := HeadBlob (id_of abc).
Abbreviation cas_prog header rq := (handle sample_app hub_keyring header (Some 1700000000) rq).
Abbreviation run1 := (run empty_server (cas_prog user_token put_hello)).
Abbreviation run2 := (run (fst run1) (cas_prog user_token put_abc)).
Abbreviation run3 := (run (fst run2) (cas_prog (token_for ReqInternal) ask_abc)).
Definition abc_answer : CasApi.response := CasApi.mkResponse 200 (HeadBody "raw_only" None 3).

Lemma run1_ok : run1 = (fst run1, Some CasSafety.upload_answer).
Proof. apply pair_of_snd. vm_compute. reflexivity. Qed.
Lemma run2_ok : run2 = (fst run2, Some CasSafety.upload_answer).
Proof. apply pair_of_snd. vm_compute. reflexivity. Qed.
Lemma run3_ok : run3 = (fst run3, Some abc_answer).
Proof. apply pair_of_snd. vm_compute. reflexivity. Qed.

(** The Hub's part: it gets those answers. *)
Definition joint_world : world :=
  HubSystem.mkWorld (fun rq => HttpResponse 200 (if (hr_method rq =? "HEAD")%string then own_headers (rs_body abc_answer) else []) None [])
    1700000000 (Some 1700000000) "a-nonce".
Definition joint_hub : HubSystem.system := serve_all "http://cas" hub_signer joint_world first_requests initial.
Definition put_call : string * string * http_answer := ("PUT", "http://cas/lfs/objects/" +:+ id_of hello, HttpResponse 200 [] None []).
Definition head_call : string * string * http_answer :=
  ("HEAD", "http://cas/internal/blob/" +:+ id_of abc, HttpResponse 200 (own_headers (rs_body abc_answer)) None []).
Lemma joint_sends : sends (HubSystem.sys_log joint_hub) = [put_call; head_call].
Proof. vm_compute. reflexivity. Qed.

(** The CAS server serves the upload; then a client uploads the other file, and
    the Hub asks for it. *)
Lemma joint_script : exists c, script sample_config "http://cas" (CasServer.started empty_store) [put_call; head_call] c.
Proof.
  assert (app_ok sample_app) as Ha by apply sample_requests_ok.
  assert (request_ok put_hello /\ request_ok put_abc /\ request_ok ask_abc) as (R1 & R2 & R3) by (unfold request_ok; cbn; set_solver).
  destruct (request_finishes sample_config empty_server [] [] sample_app hub_keyring user_token (Some 1700000000) put_hello _ _ run1_ok) as [n1 H1].
  cbn [app] in H1. set (entry1 := (put_hello, CasServer.mkThread (Respond CasSafety.upload_answer) n1)) in *.
  destruct (request_runs sample_config (fst run1) [entry1] [] sample_app hub_keyring user_token (Some 1700000000) put_abc _ _ Ha R2 run2_ok) as [n2 H2].
  cbn [app] in H2. set (entry2 := (put_abc, CasServer.mkThread (Respond CasSafety.upload_answer) n2)) in *.
  destruct (request_finishes sample_config (fst run2) [entry1; entry2] [] sample_app hub_keyring (token_for ReqInternal) (Some 1700000000) ask_abc _ _ run3_ok) as [n3 H3].
  cbn [app] in H3. eexists. eapply script_send; [|eapply script_send; [|apply script_done]].
  - eexists _, _, _. split; [reflexivity|]. split; [by apply (step_request sample_config empty_server [] [] sample_app hub_keyring user_token (Some 1700000000) put_hello)|].
    split; [exact H1|]. split; [reflexivity|].
    exists ("/lfs/objects/" +:+ id_of hello), (mkInput good_host ready_host ready_host [Ok hello] None), put_hello, (CasServer.mkThread (Respond CasSafety.upload_answer) n1), CasSafety.upload_answer, [].
    split; [reflexivity|]. split; [vm_compute; reflexivity|]. repeat (split; [reflexivity|]). reflexivity.
  - eexists _, _, _. split; [exact H2|].
    split; [by apply (step_request sample_config (fst run2) [entry1; entry2] [] sample_app hub_keyring (token_for ReqInternal) (Some 1700000000) ask_abc)|].
    split; [exact H3|]. split; [reflexivity|].
    exists ("/internal/blob/" +:+ id_of abc), sample_input, ask_abc, (CasServer.mkThread (Respond abc_answer) n3), abc_answer, [].
    split; [reflexivity|]. split; [vm_compute; reflexivity|]. repeat (split; [reflexivity|]). reflexivity.
Qed.

Lemma joint_commit : match histories joint_hub !! 1 with
  | Some (mkRepository _ [mkCommit _ [_; Upsert e]]) => (fe_path e, fe_size e) = ("big.bin", 3)
  | _ => False
  end.
Proof. vm_compute. reflexivity. Qed.

(** A commit of two files, one sent with it and one sent before. *)
Lemma committed_files_are_stored_witness : exists d r cm e,
  rtc (deployed_step sample_config "http://cas" hub_signer) (deployed empty_store) d /\
  histories (dp_hub d) !! 1 = Some r /\ cm ∈ ar_commits r /\ Upsert e ∈ cm_changes cm /\ fe_path e = "big.bin" /\
  exists past i serving c c' checking future content, dp_trace d = past ++ Arrived i :: serving ++ CasStep c c' :: checking ++ future /\
    available (CasServer.sys_server c') (fe_cas_hash e) /\ names (fe_cas_hash e) content /\ 3 = len content.
Proof.
  destruct joint_script as [c Hscript].
  destruct (joint_run sample_config "http://cas" hub_signer initial joint_hub (serve_all_steps "http://cas" hub_signer joint_world first_requests initial ltac:(done))
    (CasServer.started empty_store) [] [put_call; head_call] c ltac:(by intros i [t Ht]) joint_sends Hscript) as [trace Hd].
  pose proof joint_commit as Hc. destruct (histories joint_hub !! 1) as [r|] eqn:Er; [|destruct Hc].
  destruct r as [row [|[rev [|ch [|[e|] [|]]]] [|]]]; try exact (False_ind _ Hc). injection Hc as Hpath Hsize.
  eexists (mkDeployment joint_hub c trace), _, (mkCommit rev [ch; Upsert e]), e. split; [exact Hd|]. split; [exact Er|]. split; [left|].
  split; [right; left|]. split; [exact Hpath|].
  destruct (committed_files_are_stored sample_config "http://cas" hub_signer empty_store _ 1 _ (mkCommit rev [ch; Upsert e]) e
    ltac:(apply Z.le_refl) ltac:(vm_compute; discriminate) empty_genuine Hd Er ltac:(left) ltac:(right; left))
    as (past & i & serving & c0 & c1 & checking & parent & u & future & content & Etrace & _ & Hav & Hn & Hs).
  exists past, i, serving, c0, c1, checking, (Happened i (EvCommit rev [ch; Upsert e] parent (Ok u)) :: future), content.
  split; [exact Etrace|]. split; [exact Hav|]. split; [exact Hn|]. rewrite <- Hsize. exact Hs.
Defined.
